(* ===== verification/_CoqProject ===== *)
-Q . S2P
Prelude.v
RustStr.v
Net.v
Address.v
Domain.v
GithubMeta.v
NetPolicy.v
AuthCache.v
DnsBudget.v
ConnectProto.v
Socks5.v
Origin.v
Resolver.v
Egress.v
DnsBroker.v
Forwarding.v
HttpProxy.v
ConnectBroker.v
System.v
Glob.v
CommandPolicy.v
GitArgv.v
GitBranch.v
GitIdentity.v
GitGuard.v
ProtoTypes.v
ProtoCodec.v
ProtoFrame.v
ProtoHandshake.v
McpFraming.v
McpJson.v
McpPolicy.v
McpBroker.v
McpRun.v
Masking.v
Digest.v
AuditLog.v
Permission.v
PermissionSample.v
PermissionSafety.v
PermissionLimits.v
Session.v
SessionSafety.v
Runtime.v
GuestService.v
Startup.v
StartupSafety.v
Reports.v
Envelope.v
Credential.v
Http1.v
CredBroker.v
CredBrokerSafety.v
GithubAuth.v
ExecBroker.v
GuestProtocol.v
GuestSession.v
GuestSessionSafety.v
SafeText.v
