(* ===== verification/Prelude.v ===== *)
(** * SendBox: a verification library for the sandbox's policy enforcement

    SendBox runs an untrusted coding agent in a sandbox.  What the agent may do
    is decided outside it: an egress gateway mediates every network connection
    and every DNS query, an execution broker admits commands, a guard stands in
    front of Git, and a broker in front of every MCP server; a supervisor asks for
    permissions, and a session records all of it in an audit log.  In the guest
    another supervisor starts the services, and launches the agent when the host
    asks over an authenticated protocol; secrets reach it in sealed envelopes, or stay
    outside with a broker that puts them into the agent's requests, and a filter masks
    them in what comes out.  This library models those decision makers,
    the protocols, the logs and the state machines around them, from the byte parsers
    to the concurrent compositions, and proves that they decide what the policy says.

    ** The program and its model

    The egress gateway ([crates/sendbox-egress/src]):

    - [Address] models [address.rs]: the class of an IP address and its canonical
      form, on 32 and 128 bit integers ([Net] has the texts of addresses);
    - [Domain] models [domain.rs]: normal forms of names and wildcard patterns;
    - [GithubMeta] models [github_meta.rs]: the parser of the published GitHub
      ranges, and the refresh that grants them for a day, as its two atomic halves
      around the fetch;
    - [NetPolicy] models [policy.rs] and the network part of
      [crates/sendbox-policy/src/lib.rs]: compilation of a policy, snapshots and
      the decisions;
    - [AuthCache] models [authorization.rs], the bounded cache of addresses a
      name was granted, and states its interface as the class [AuthStore];
    - [DnsBudget] models [dns_budget.rs], the structural limits and the budget of
      DNS queries;
    - [ConnectProto], [Socks5] and [HttpProxy] model [connect_proto.rs],
      [socks5.rs] and [http_proxy.rs], the three wire formats of a tunnel request;
    - [Origin] models [origin.rs], the destinations reserved for the MCP broker;
    - [Resolver] models the data of [resolver.rs] and [audit.rs], and [Forwarding]
      models [forwarding_resolver.rs], the resolver that asks one upstream server;
    - [Egress] gives the shared state of the gateway and its atomic operations,
      the language in which the handlers are written;
    - [DnsBroker] and [ConnectBroker] model [dns_broker.rs] and
      [connect_broker.rs]: each handler is a program over those operations, one
      operation per lock or await of the code;
    - [System] composes them: any number of handlers, interleaved at their atomic
      operations with the clock, the refresh, the reservations and the semaphore.

    Commands and Git:

    - [Glob] models [crates/sendbox-core/src/glob.rs] and the second glob matcher
      of [crates/sendbox-session-security/src/supervisor.rs], against one relation;
    - [CommandPolicy] models [crates/sendbox-exec/src/policy.rs]: the rule grammar,
      its compilation, the table matcher and the evaluation of an argument vector;
    - [ExecBroker] models [api.rs], [session.rs], [environment.rs], [broker.rs] and
      [service.rs] of [crates/sendbox-exec/src]: limits, authentication, admission,
      the environment of a command, cancellation, and the queue of terminal input with
      the reader that fills it;
    - [GitArgv], [GitBranch], [GitIdentity] and [GitGuard] model
      [crates/sendbox-git/src]: command lines, branch names, repository identities
      and the admission of a command, as a program over probes of the repository.

    The guest protocol ([crates/sendbox-protocol/src]):

    - [ProtoTypes] models [types.rs], [limits.rs] and [error.rs];
    - [ProtoCodec] models [codec.rs], the CBOR form of every message;
    - [ProtoFrame] models [frame.rs] and the MACs of [crypto.rs]: the reader and the
      writer of a connection, over a stream that cuts, fails and drops calls;
    - [ProtoHandshake] models [handshake.rs] and the key schedule: the two sides as
      programs, and their conversation.

    The MCP broker ([crates/sendbox-mcp/src]):

    - [McpFraming] models [framing.rs], the decoder of newline and [Content-Length]
      frames;
    - [McpJson] models [jsonrpc.rs], the strict reader of JSON and the validation of
      a message;
    - [McpPolicy] models [policy.rs]: which server policy applies, whether a tool may
      be called, and the filter of a list of tools;
    - [McpBroker] models the two tasks of [broker.rs] and their request tracker, as
      programs that interleave at their operations;
    - [McpRun] models the rest of [broker.rs]: the writer, the standard error, the
      loop of a run and the clean-up.

    Secrets ([crates/sendbox-secrets/src]):

    - [Masking] models [masking.rs], the registry of credentials and the automaton
      that masks them in a stream;
    - [Envelope] models [types.rs], [record.rs] and [envelope.rs]: names and values,
      the stored record, sealing, opening and the replay guard;
    - [Credential] models [credential.rs], the policies of what may go where.

    The credential broker ([crates/sendbox-credentials/src]):

    - [Http1] models [http1.rs] and [error.rs], the reader of the agent's requests;
    - [CredBroker] models [config.rs], [upstream.rs], [session.rs] and [broker.rs]: the
      rules, a connection as a list of effects over an environment that may answer
      anything, the pinned transport behind an interface, and the listener that
      interleaves its connections; [CredBrokerSafety] has its theorems;
    - [GithubAuth] models [github.rs]: what [gh] is asked, and when it is asked for the
      token.

    Session security ([crates/sendbox-security/src],
    [crates/sendbox-session-security/src]):

    - [Digest] has hashes, their texts and the interface of JSON documents;
    - [AuditLog] models [audit.rs] and [canonical.rs]: the chained log, its stored form
      and the Merkle root and proofs;
    - [Permission] models [supervisor.rs], the permission supervisor with its state,
      history, stored form and checkpoints; [PermissionSafety] and [PermissionLimits]
      have its theorems, [PermissionSample] a run;
    - [Session] models [lifecycle.rs], the life of a security session over hooks that
      may fail; [SessionSafety] has its theorems.

    Runtimes and the guest ([crates/sendbox-runtime/src],
    [guest/sendbox-guest/src], [crates/sendbox-bootstrap/src]):

    - [Runtime] models [lifecycle.rs], [cleanup.rs] and [output.rs] of the runtimes;
    - [GuestService] models [service.rs], [manifest.rs] and [error.rs]: the services of
      the guest, their order, start, health, restarts and end, and the readiness gate;
    - [Startup] models [supervisor.rs], [state.rs], [runtime.rs], [platform.rs],
      [audit.rs] and the parts that add services: the whole of a run of the guest;
      [StartupSafety] has its theorems;
    - [Reports] models the report handlers of [protocol.rs], the payloads of reports in
      [crates/sendbox-protocol/src/operations.rs], and the reader on the host in
      [crates/sendbox-agent/src/protocol.rs];
    - [GuestProtocol] models the other payloads, and how a launch becomes an execution
      request with its secrets;
    - [GuestSession] models [serve_authenticated] of [protocol.rs] after the handshake:
      launches, the loop while the agent runs, and the lanes to the execution broker;
      [GuestSessionSafety] has its theorems.

    [Prelude] has results, generic lemmas and tactics; [RustStr] the operations of
    Rust's [str] on UTF-8 bytes.

    ** Conventions

    A string is the list of its bytes, a machine integer a [Z] whose wrap-around or
    saturation is written out, a duration or an instant a number of nanoseconds.
    [Result] is [result] with the notation [let?] for the [?] operator.  A function
    that locks, awaits or talks to a client is a program: its operations take
    replies from outside, and a theorem quantifies over the replies.  Code of other
    crates is a class: [IpNetApi] ([ipnet]), [NameApi], [WireApi] and [ResponseApi]
    (DNS names, messages and responses), [HttpApi] ([httparse] and [http]), [HttpTypesApi] ([http]), [UrlApi] ([url]), [CborApi] (CBOR
    primitives), [MacApi] and [KdfApi] (HMAC, SHA-256 and HKDF), [AeadApi]
    (XChaCha20-Poly1305), [Sha256Api], [NfcApi] (Unicode normalization), [Base64Api],
    [JsonApi] and [Serde] ([serde_json]); [PlatformControls] is the trait of the guest's
    platforms.  Where a theorem needs their documented behaviour it is in the class of
    their laws, and a witness uses a concrete instance.  Elsewhere JSON text, parsed
    URLs and the escapes of [Debug] are parameters.  That a MAC or a ciphertext cannot
    be forged is a hypothesis on what is presented ([ProtoFrame.unforged],
    [Envelope.unforged]), and that a hash has no collisions is one on the finitely many
    texts that are hashed ([Digest.collision_free]).

    ** What the theorems show

    - Composition ([System]): in every reachable state each dial went to a
      destination that the policy view it was decided under permits, at an address
      pinned by an allowed resolution of that very name, or to a permitted literal
      address; each query sent upstream passed the name policy, the structural
      limits and the budget; every cached grant is justified by such a resolution
      and bounded in time; the sessions running never exceed the limit.
    - Handlers ([ConnectBroker], [DnsBroker]): a front end dials only what its
      request names, refused requests never dial, an answer holds only permitted
      addresses of the queried family with a capped time to live.
    - Resolution ([Forwarding]): whatever the network replies, an address that is
      returned is in a full response of the upstream to this question, and every alias
      on the way to it is reported.
    - Decisions ([NetPolicy], [Address], [Domain], [GithubMeta]): exact
      characterizations of the decisions; special ranges need an explicit network
      grant; the mapped form of an IPv4 address changes nothing; wildcard matching
      is the subdomain relation; a refresh installs what was published or leaves
      the grant as it was; the two validators of DNS limits agree.
    - State ([AuthCache], [DnsBudget], [Origin]): the cache refines the history of
      its grants, admission charges the window exactly, any interval of time stays
      within the budget of the windows it meets, reservations persist.
    - Wire formats ([ConnectProto], [Socks5], [HttpProxy]): round trips, exact
      parsers, bounded reading, no ambiguous HTTP request.
    - Patterns and commands ([Glob], [CommandPolicy]): three matchers decide one
      relation, the backtracking one under a side condition shown necessary; a
      command is admitted exactly as the rules say, and every rule can be written.
    - Git ([GitBranch], [GitGuard]): whatever the probes reply, an admitted push has
      only checked branches; a push to a protected branch is refused; the
      environment is sanitized; and two forms of command lines the guard reads in
      another way than Git does, as Git documents them.
    - Guest protocol ([ProtoCodec], [ProtoFrame], [ProtoHandshake]): the codec accepts
      exactly the canonical encodings; what a side receives is a prefix of what its
      peer sent, and all of it when the stream delivers it, however it is cut; a
      refused frame ends the connection and a call returns with bounded memory; an
      established side is within its configuration and its peer has the secret; two
      compatible sides establish a session, but for a guest with a lower frame limit,
      which the host refuses.
    - MCP ([McpFraming], [McpJson], [McpPolicy], [McpBroker], [McpRun]): decoding does
      not depend on the cuts of the stream, and forwarded frames decode to themselves;
      a validated message has one reading; the decision on a tool is the one of the
      rules; in every interleaving the server reads only approved and audited frames
      and the client sees only refusals and frames that answer an outstanding request,
      filtered when that asked for the tools; every run ends, and a report is
      complete.  [tools_list_alias], [unnamed_call_forwarded] and
      [starred_name_escapes_deny] are three sessions the policy does not intend.
    - Commands and secrets ([ExecBroker], [Envelope]): a command reaches the backend
      only when it is authenticated, within the limits, admitted and under a new id,
      and with an environment that redirects no loader; terminal input is read in
      order, never after its end; a sealed secret is opened at most once, only for its
      binding.
    - Audit log ([AuditLog]): what is appended and stored is read back; a head binds
      all that came before it; exactly the records have Merkle proofs.
    - Permissions ([PermissionSafety], [PermissionLimits]): what is allowed rests on a
      grant, an automatic rule or an approval; every change is recorded and numbered;
      a stored state is read back and its checkpoint binds it; grants are used no more
      often than they say; numbers stay in their types.  [invalid_approval_is_free] is
      a prompt that is not counted.
    - Sessions ([SessionSafety]): hooks run in a fixed order, a failure rolls back and
      cleans up, the log has every change of the supervisor, and what is published
      verifies.  [summary_error_keeps_running] is the one error that is not cleaned up.
    - Runtimes ([Runtime]): an agent runs once, after its creation; a clean-up step
      succeeds once; output is delivered or counted as lost.
    - Guest ([GuestService], [StartupSafety], [Reports], [GuestProtocol],
      [GuestSessionSafety]): services start in the order of their dependencies or are
      all killed; readiness is published when everything it stands for holds; execution
      starts only confined; a run leaves nothing; a report arrives in full.  The agent
      is launched at most once in a session, when the guest is ready and for its
      boundary plan; input of the host's terminal arrives at the command in order; an
      answer follows the sealing of the outputs.  [optional_restart_failure_ends_watch]
      and [package_report_is_given_again] are two behaviours the documents exclude.
    - Credentials ([Http1], [CredBrokerSafety], [GithubAuth]): a request is read up to
      the end its headers say and no further; in every interleaving of connections a
      secret is sent only to the host, the path and the methods of a rule, over HTTPS to
      an approved address, at one place of the request and after the record of it, and
      nothing else depends on it; a connection makes no more requests than the redirects
      allow; [gh] is asked for the token only when all it can reach is in scope.
      [rule_is_accepted] is a rule whose two names differ.
    - Masking ([Masking]): a registered credential without delimiters never comes out,
      however the stream is cut; what a stream holds back is bounded, and nothing is
      left at its end.  [url_splits_credential] is one with a delimiter that does.

    ** Fuel and bounds

    [Glob.glob_loop] takes as fuel [(|value| + 2) * (|pattern| + 2)], which is
    proved to be enough ([glob_loop_returns]).  [GitGuard.alias_steps] counts down
    from the code's own limit of eight expansions.  [McpFraming.content_length_loop]
    takes twice the bytes and one, and any fuel of at least the bytes gives the same
    ([content_length_fuel]); [ProtoFrame.receive] takes the size of the stream and one
    ([receive_bounded]); [Masking.drain_loop] takes the bytes pending, one for each
    iteration ([step_progress]); [GuestService.order_loop] takes the number of services
    ([topological_order_exact]); the loops over a Merkle tree take the number of leaves,
    of which each round leaves at most half and one; [Reports.read_network_report] takes
    129 rounds, one more than the largest report has chunks
    ([network_report_terminates]); [Http1.read_head_bytes] and [Http1.read_body_bytes]
    take the bytes that are left to read ([read_head_bytes_fuel],
    [read_body_bytes_ok]); [Forwarding.follow_aliases] takes the largest depth and one
    ([follow_aliases_fuel]).  Everything else recurses on its input: the tasks of
    the MCP broker on the reads of a stream, which are finite.  The conversation of two
    sides of a handshake is one schedule, where a read returns what is there.  The
    theorems on budgets assume limits below the largest value of the machine type;
    [DnsBudget] shows what happens at that value.

    ** What is not modelled

    Sockets, timers, processes, namespaces and files: their outcomes are replies.
    Timeouts of a handshake are an absent input, and cancellation is the end of a
    handler at any operation.  Panics of poisoned locks do not occur in the model.
    The dialer is the environment of the brokers.  In the composition so is the
    resolver: [System] takes any reply of it, those of [Forwarding] among them, and which
    of its transports is ready first is part of the replies.
    Which of two errors of one JSON text is reported, and the texts of library
    errors, are the library's.  Of the execution broker the backend that creates a
    process, of the guest the files, sockets and parsers its supervisor uses, of the
    audit log the legacy decoders, and of MCP the HTTP gateway, the project files,
    observation and safe outputs are not modelled.  The other crates of the workspace
    (the drivers of virtual machines, provenance and snapshots, the stores of secrets,
    bundles, the registry proxy, configuration and project analysis, the host and the
    command line, BPF) are not modelled. *)

From stdpp Require Export base gmap strings list fin_maps sets sorting countable.
From stdpp Require Export pretty.
From Stdlib Require Export ZArith Lia.

#[global] Open Scope Z_scope.

(** ** Results

    Rust's [Result<T, E>], with the [?] operator as the notation
    [let? x := e in k]. *)

Inductive result (E A : Type) : Type :=
| Ok (a : A)
| Err (e : E).

Arguments Ok {E A} a.
Arguments Err {E A} e.

Declare Scope rust_scope.
Delimit Scope rust_scope with rust.

Notation "'let?' x ':=' e 'in' k" :=
  (match e with Ok x => k | Err err => Err err end)
  (at level 10, x name, k at level 200) : rust_scope.
Notation "'let?' ' p ':=' e 'in' k" :=
  (match e with Ok p => k | Err err => Err err end)
  (at level 10, p strict pattern, k at level 200)
  : rust_scope.
Notation "'check?' e 'in' k" :=
  (match e with Ok _ => k | Err err => Err err end)
  (at level 10, k at level 200) : rust_scope.

#[global] Open Scope rust_scope.

(** [iter().map(f).collect::<Result<Vec<_>, _>>()]: the first error wins. *)
Fixpoint collect {E A B : Type} (f : A → result E B) (l : list A)
  : result E (list B) :=
  match l with
  | [] => Ok []
  | x :: r => let? y := f x in let? ys := collect f r in Ok (y :: ys)
  end.

Definition ok {E A : Type} (r : result E A) : option A :=
  match r with Ok a => Some a | Err _ => None end.

Definition map_err {E F A : Type} (g : E → F) (r : result E A) : result F A :=
  match r with Ok a => Ok a | Err e => Err (g e) end.

Definition ok_or {E A : Type} (o : option A) (e : E) : result E A :=
  match o with Some a => Ok a | None => Err e end.

Definition is_ok {E A : Type} (r : result E A) : bool :=
  match r with Ok _ => true | Err _ => false end.

(** ** Machine integers

    A [w]-bit unsigned integer is a [Z] in [0, 2^w). *)

Definition u8_max : Z := 255.
Definition u16_max : Z := 65535.
Definition u32_max : Z := 4294967295.
Definition u64_max : Z := 18446744073709551615.

Definition in_u (max z : Z) : Prop := 0 ≤ z ≤ max.

Definition saturating_add (max a b : Z) : Z := Z.min (a + b) max.
Definition saturating_sub (a b : Z) : Z := Z.max (a - b) 0.
Definition saturating_mul (max a b : Z) : Z := Z.min (a * b) max.
Definition checked_add (max a b : Z) : option Z :=
  if a + b <=? max then Some (a + b) else None.
Definition checked_mul (max a b : Z) : option Z :=
  if a * b <=? max then Some (a * b) else None.

(** ** Time

    An [Instant] is a number of nanoseconds since an arbitrary origin, a
    [Duration] a number of nanoseconds; [Instant::elapsed] saturates at zero. *)

Definition from_secs (s : Z) : Z := s * 1000000000.
Definition elapsed (now since : Z) : Z := saturating_sub now since.

(** ** Big-endian byte strings *)

Fixpoint be_bytes (n : nat) (z : Z) : list Z :=
  match n with
  | O => []
  | S m => Z.land (Z.shiftr z (8 * Z.of_nat m)) 255 :: be_bytes m z
  end.

Fixpoint be_value (bs : list Z) : Z :=
  match bs with
  | [] => 0
  | b :: r => b * 2 ^ (8 * Z.of_nat (length r)) + be_value r
  end.

Definition is_byte (b : Z) : Prop := 0 ≤ b ≤ 255.

(** ** Sorting and deduplication

    [sort_by] is stable, as Rust's [slice::sort_by]; [dedup_by] keeps the
    first element of every run, as [Vec::dedup_by]. *)

Fixpoint insert_by {A : Type} (le : A → A → bool) (x : A) (l : list A) : list A :=
  match l with
  | [] => [x]
  | y :: r => if le x y then x :: y :: r else y :: insert_by le x r
  end.

Definition sort_by {A : Type} (le : A → A → bool) (l : list A) : list A :=
  foldr (insert_by le) [] l.

Fixpoint dedup_by {A : Type} (same : A → A → bool) (l : list A) : list A :=
  match l with
  | [] => []
  | x :: r =>
      match dedup_by same r with
      | [] => [x]
      | y :: r' => if same y x then x :: r' else x :: y :: r'
      end
  end.

(** [Iterator::min_by]: the first of the least elements. *)
Fixpoint min_by {X : Type} (le : X → X → bool) (l : list X) : option X :=
  match l with
  | [] => None
  | x :: r =>
      match min_by le r with
      | Some y => Some (if le x y then x else y)
      | None => Some x
      end
  end.

(** [BTreeSet::insert], on the sorted list of the elements. *)
Fixpoint btree_insert {A : Type} `{EqDecision A} (le : A → A → bool) (x : A) (l : list A)
  : list A :=
  match l with
  | [] => [x]
  | y :: r =>
      if decide (x = y) then l
      else if le x y then x :: l
      else y :: btree_insert le x r
  end.

(** Rust's order on byte strings. *)
Fixpoint bytes_leb (s t : list Z) : bool :=
  match s, t with
  | [], _ => true
  | _ :: _, [] => false
  | a :: s', b :: t' => (a <? b) || ((a =? b) && bytes_leb s' t')
  end.

(** [Iterator::position]. *)
Fixpoint position {A : Type} (p : A → bool) (l : list A) : option nat :=
  match l with
  | [] => None
  | x :: r => if p x then Some 0%nat else S <$> position p r
  end.

(** ** Automation *)

Ltac destruct_match :=
  match goal with
  | |- context [match ?x with _ => _ end] => destruct x eqn:?
  end.

Ltac destruct_match_in H :=
  match type of H with
  | context [match ?x with _ => _ end] => destruct x eqn:?
  end.

(** [simplify_eq], also when one term has two [result] values. *)
Ltac simplify_res :=
  simplify_eq;
  repeat match goal with
  | H1 : ?o = Ok _, H2 : ?o = Ok _ |- _ => rewrite H1 in H2; simplify_eq
  | H1 : ?o = Ok _, H2 : ?o = Err _ |- _ => rewrite H1 in H2; discriminate
  | H1 : ?o = Err _, H2 : ?o = Err _ |- _ => rewrite H1 in H2; simplify_eq
  end.

Ltac bool_to_prop :=
  repeat match goal with
  | H : _ && _ = true |- _ => apply andb_true_iff in H; destruct H
  | H : _ || _ = false |- _ => apply orb_false_iff in H; destruct H
  | H : negb _ = true |- _ => apply negb_true_iff in H
  | H : negb _ = false |- _ => apply negb_false_iff in H
  | H : (_ =? _)%Z = true |- _ => apply Z.eqb_eq in H
  | H : (_ =? _)%Z = false |- _ => apply Z.eqb_neq in H
  | H : (_ <=? _)%Z = true |- _ => apply Z.leb_le in H
  | H : (_ <=? _)%Z = false |- _ => apply Z.leb_gt in H
  | H : (_ <? _)%Z = true |- _ => apply Z.ltb_lt in H
  | H : (_ <? _)%Z = false |- _ => apply Z.ltb_ge in H
  | H : bool_decide _ = true |- _ => apply bool_decide_eq_true in H
  | H : bool_decide _ = false |- _ => apply bool_decide_eq_false in H
  end.

Create HintDb sendbox discriminated.
Create Rewrite HintDb sendbox.

(** ** Lemmas on results and lists *)

Section Results.
Context {E A B : Type}.

Lemma collect_ok (f : A → result E B) (l : list A) (ys : list B) :
  collect f l = Ok ys ↔ Forall2 (λ x y, f x = Ok y) l ys.
Proof.
  revert ys. induction l as [|x l IH]; intros ys; simpl.
  - split; [intros [= <-]; constructor | by inversion 1].
  - destruct (f x) as [y|e] eqn:Hx.
    2: { split; [done|]. inversion 1; congruence. }
    destruct (collect f l) as [ys'|e] eqn:Hl.
    + split.
      * intros [= <-]. constructor; [done | by apply IH].
      * intros (? & ? & Hy & H & ->)%Forall2_cons_inv_l. apply IH in H. congruence.
    + split; [done|]. by intros (? & ? & _ & H%IH & _)%Forall2_cons_inv_l.
Qed.

Lemma collect_err (f : A → result E B) (l : list A) (e : E) :
  collect f l = Err e ↔
  ∃ l1 x l2, l = l1 ++ x :: l2 ∧ f x = Err e ∧ Forall (λ y, is_ok (f y) = true) l1.
Proof.
  induction l as [|x l IH]; simpl.
  { split; [done|]. by intros ([|] & ? & ? & ? & _). }
  transitivity (f x = Err e ∨ is_ok (f x) = true ∧ collect f l = Err e).
  { destruct (f x); simpl; [destruct (collect f l)|]; naive_solver. }
  rewrite IH. split.
  - intros [Hx | [Hx (l1 & y & l2 & -> & Hy & Hl)]].
    + by exists [], x, l.
    + exists (x :: l1), y, l2. auto.
  - intros ([|z l1] & y & l2 & [= -> ->] & Hy & Hl); [by left|].
    right. apply Forall_cons in Hl as [? ?]. eauto 10.
Qed.

End Results.

(** ** Lemmas on ordered sets *)

Lemma elem_of_btree_insert {A : Type} `{EqDecision A} (le : A → A → bool) (x y : A)
    (l : list A) :
  y ∈ btree_insert le x l ↔ y = x ∨ y ∈ l.
Proof.
  induction l as [|z l IH]; simpl; [set_solver|].
  destruct (decide (x = z)) as [->|]; [set_solver|].
  destruct (le x z); [set_solver|]. rewrite !elem_of_cons, IH. naive_solver.
Qed.

Lemma bytes_leb_total (s t : list Z) : bytes_leb s t = true ∨ bytes_leb t s = true.
Proof.
  revert t. induction s as [|a s IH]; intros [|b t]; simpl; auto.
  destruct (IH t) as [->| ->]; destruct (a <? b) eqn:?, (b <? a) eqn:?; simpl; auto;
    bool_to_prop; assert (a = b) as -> by lia; rewrite Z.eqb_refl; auto.
Qed.

Lemma bytes_leb_antisym (s t : list Z) :
  bytes_leb s t = true → bytes_leb t s = true → s = t.
Proof.
  revert t. induction s as [|a s IH]; intros [|b t]; simpl; try done.
  rewrite !orb_true_iff, !andb_true_iff, !Z.ltb_lt, !Z.eqb_eq.
  intros [?|[-> ?]] [?|[? ?]]; try lia. f_equal. auto.
Qed.

Lemma bytes_leb_trans (s t u : list Z) :
  bytes_leb s t = true → bytes_leb t u = true → bytes_leb s u = true.
Proof.
  revert t u. induction s as [|a s IH]; intros [|b t] [|c u]; simpl; try done.
  rewrite !orb_true_iff, !andb_true_iff, !Z.ltb_lt, !Z.eqb_eq.
  intros [?|[-> ?]] [?|[-> ?]]; [left; lia..|right]. eauto.
Qed.

Lemma take_elem {A : Type} (n : nat) (x : A) (l : list A) : x ∈ take n l → x ∈ l.
Proof. intros H. rewrite <-(take_drop n l). apply elem_of_app. by left. Qed.

Lemma position_lookup {A : Type} (p : A → bool) (l : list A) :
  match position p l with
  | Some i => ∃ x, l !! i = Some x ∧ p x = true
  | None => ∀ x, x ∈ l → p x = false
  end.
Proof.
  induction l as [|x l IH]; simpl; [set_solver|]. destruct (p x) eqn:E; [by exists x|].
  destruct (position p l) as [i|]; simpl; [done|]. intros y [->|Hy]%elem_of_cons; auto.
Qed.

(** ** Lemmas on sorting *)

Lemma elem_of_dedup_by {X : Type} (same : X → X → bool) (x : X) (l : list X) :
  x ∈ dedup_by same l → x ∈ l.
Proof.
  revert x. induction l as [|y l IH]; intros x; simpl; [done|].
  destruct (dedup_by same l) as [|z r]; [set_solver|].
  specialize (IH x). destruct (same z y); set_solver.
Qed.

Section Sorting.
Context {X : Type} (le : X → X → bool).

Lemma elem_of_insert_by (x y : X) (l : list X) : y ∈ insert_by le x l ↔ y = x ∨ y ∈ l.
Proof.
  induction l as [|z l IH]; simpl; [set_solver|].
  destruct (le x z); rewrite ?elem_of_cons, ?IH; naive_solver.
Qed.

Lemma elem_of_sort_by (y : X) (l : list X) : y ∈ sort_by le l ↔ y ∈ l.
Proof.
  induction l as [|x l IH]; simpl; [done|]. rewrite elem_of_insert_by, IH, elem_of_cons. done.
Qed.

Lemma insert_by_perm (x : X) (l : list X) : insert_by le x l ≡ₚ x :: l.
Proof.
  induction l as [|y l IH]; simpl; [done|].
  destruct (le x y); [done|]. rewrite IH. apply Permutation_swap.
Qed.

Lemma sort_by_perm (l : list X) : sort_by le l ≡ₚ l.
Proof. induction l as [|x l IH]; simpl; [done|]. by rewrite insert_by_perm, IH. Qed.

Hypothesis le_total : ∀ x y, le x y = true ∨ le y x = true.

Lemma insert_by_sorted (x : X) (l : list X) :
  Sorted (λ a b, le a b = true) l → Sorted (λ a b, le a b = true) (insert_by le x l).
Proof.
  induction 1 as [|y l Hl IH Hy]; simpl; [repeat constructor|].
  destruct (le x y) eqn:E; [repeat constructor; auto|].
  constructor; [done|].
  assert (le y x = true) by (destruct (le_total x y); congruence).
  destruct l as [|z l]; simpl; [by constructor|].
  destruct (le x z); constructor; [done|]. by inversion Hy.
Qed.

Lemma sort_by_sorted (l : list X) : Sorted (λ a b, le a b = true) (sort_by le l).
Proof. induction l as [|x l IH]; simpl; [constructor | by apply insert_by_sorted]. Qed.

Hypothesis le_trans : ∀ x y z, le x y = true → le y z = true → le x z = true.

Lemma min_by_least (l : list X) :
  match min_by le l with
  | Some m => m ∈ l ∧ ∀ x, x ∈ l → le m x = true
  | None => l = []
  end.
Proof.
  induction l as [|x l IH]; simpl; [done|].
  assert (∀ z, le z z = true) as Hrefl by (intros z; destruct (le_total z z); done).
  destruct (min_by le l) as [m|]; [|subst; set_solver].
  destruct IH as [Hm Hle]. destruct (le x m) eqn:E.
  - split; [set_solver|]. intros z [->|Hz]%elem_of_cons; eauto.
  - split; [set_solver|]. intros z [->|Hz]%elem_of_cons; [|auto].
    destruct (le_total x m); congruence.
Qed.

End Sorting.

(** ** Lemmas on big-endian byte strings *)

Lemma land_255 (z : Z) : Z.land z 255 = z mod 256.
Proof. change 255 with (Z.ones 8). by rewrite Z.land_ones. Qed.

Lemma length_be_bytes (n : nat) (z : Z) : length (be_bytes n z) = n.
Proof. induction n; simpl; auto. Qed.

Lemma be_bytes_is_byte (n : nat) (z : Z) : Forall is_byte (be_bytes n z).
Proof.
  induction n; simpl; constructor; [|done].
  rewrite land_255. unfold is_byte. match goal with |- context [?x mod 256] => pose proof (Z.mod_pos_bound x 256) end. lia.
Qed.

Lemma be_value_bound (bs : list Z) :
  Forall is_byte bs → 0 ≤ be_value bs < 2 ^ (8 * Z.of_nat (length bs)).
Proof.
  induction 1 as [|b bs Hb _ IH]; simpl; [lia|].
  replace (8 * Z.of_nat (S (length bs))) with (8 + 8 * Z.of_nat (length bs)) by lia.
  rewrite Z.pow_add_r by lia. unfold is_byte in Hb. nia.
Qed.

Lemma be_value_be_bytes (n : nat) (z : Z) :
  be_value (be_bytes n z) = z mod 2 ^ (8 * Z.of_nat n).
Proof.
  induction n as [|n IH]; [simpl; by rewrite Z.mod_1_r|].
  cbn [be_bytes be_value]. rewrite length_be_bytes, IH, land_255, Z.shiftr_div_pow2 by lia.
  replace (8 * Z.of_nat (S n)) with (8 * Z.of_nat n + 8) by lia.
  rewrite Z.pow_add_r by lia. change (2 ^ 8) with 256.
  rewrite Z.rem_mul_r by lia. lia.
Qed.

Lemma be_bytes_add (n : nat) (x y : Z) :
  be_bytes n (x * 2 ^ (8 * Z.of_nat n) + y) = be_bytes n y.
Proof.
  assert (∀ m k, (m ≤ k)%nat →
    be_bytes m (x * 2 ^ (8 * Z.of_nat k) + y) = be_bytes m y) as H; [|by apply H].
  induction m as [|m IH]; intros k Hk; [done|]. cbn [be_bytes].
  rewrite IH by lia. f_equal. rewrite !land_255, !Z.shiftr_div_pow2 by lia.
  replace (x * 2 ^ (8 * Z.of_nat k)) with
    ((x * 2 ^ (8 * Z.of_nat (k - S m)) * 256) * 2 ^ (8 * Z.of_nat m)).
  2: { rewrite <-!Z.mul_assoc. f_equal. change 256 with (2 ^ 8).
       rewrite <-!Z.pow_add_r by lia. f_equal. lia. }
  rewrite Z.div_add_l by lia. rewrite Z.add_comm. by rewrite Z_mod_plus_full.
Qed.

Lemma be_bytes_be_value (bs : list Z) :
  Forall is_byte bs → be_bytes (length bs) (be_value bs) = bs.
Proof.
  induction 1 as [|b bs Hb Hbs IH]; [done|]. cbn [length be_bytes be_value].
  rewrite be_bytes_add, IH. f_equal.
  rewrite land_255, Z.shiftr_div_pow2, Z.div_add_l by lia.
  rewrite (Z.div_small (be_value bs)) by (by apply be_value_bound).
  rewrite Z.add_0_r. apply Z.mod_small. unfold is_byte in Hb. lia.
Qed.

Lemma be_value_app (xs ys : list Z) :
  be_value (xs ++ ys) = be_value xs * 2 ^ (8 * Z.of_nat (length ys)) + be_value ys.
Proof.
  induction xs as [|x xs IH]; simpl; [done|].
  rewrite IH, length_app. rewrite Nat2Z.inj_add, Z.mul_add_distr_l, Z.pow_add_r by lia.
  lia.
Qed.
