(* ===== verification/RustStr.v ===== *)
(** * Rust strings

    A Rust [str] is a sequence of bytes that is valid UTF-8; a byte is a [Z] in
    [0, 256).  This file models the [str], [u8] and [char] operations of the
    standard library that the sources call, with the lemmas the components
    share about them. *)

From S2P Require Import Prelude.

(** ** Literals *)

(** The bytes of an ASCII literal. *)
Definition str (s : string) : list Z :=
  (λ a, Z.of_N (Ascii.N_of_ascii a)) <$> String.list_ascii_of_string s.

Definition ch_dot : Z := 46.
Definition ch_star : Z := 42.
Definition ch_question : Z := 63.
Definition ch_hyphen : Z := 45.
Definition ch_slash : Z := 47.
Definition ch_colon : Z := 58.
Definition ch_backslash : Z := 92.
Definition ch_plus : Z := 43.
Definition ch_at : Z := 64.
Definition ch_lf : Z := 10.
Definition ch_cr : Z := 13.
Definition ch_tab : Z := 9.
Definition ch_space : Z := 32.
Definition ch_quote : Z := 39.
Definition ch_dquote : Z := 34.
Definition ch_zero : Z := 48.

(** ** Character classes ([u8::is_ascii_*]) *)

Definition in_range (lo hi b : Z) : bool := (lo <=? b) && (b <=? hi).

Definition is_ascii (b : Z) : bool := in_range 0 127 b.
Definition is_ascii_digit (b : Z) : bool := in_range 48 57 b.
Definition is_ascii_uppercase (b : Z) : bool := in_range 65 90 b.
Definition is_ascii_lowercase (b : Z) : bool := in_range 97 122 b.
Definition is_ascii_alphabetic (b : Z) : bool :=
  is_ascii_uppercase b || is_ascii_lowercase b.
Definition is_ascii_alphanumeric (b : Z) : bool :=
  is_ascii_alphabetic b || is_ascii_digit b.
(** [u8::is_ascii_whitespace]: space, tab, line feed, form feed, return. *)
Definition is_ascii_whitespace (b : Z) : bool :=
  (b =? 32) || (b =? 9) || (b =? 10) || (b =? 12) || (b =? 13).
Definition is_ascii_control (b : Z) : bool := in_range 0 31 b || (b =? 127).

Definition to_ascii_lower (b : Z) : Z :=
  if is_ascii_uppercase b then b + 32 else b.
Definition to_ascii_lowercase (s : list Z) : list Z := to_ascii_lower <$> s.
Definition eq_ignore_ascii_case (s t : list Z) : bool :=
  bool_decide (to_ascii_lowercase s = to_ascii_lowercase t).

(** ** Prefixes, suffixes, substrings *)

Fixpoint strip_prefix (p s : list Z) : option (list Z) :=
  match p, s with
  | [], _ => Some s
  | a :: p', b :: s' => if a =? b then strip_prefix p' s' else None
  | _ :: _, [] => None
  end.

Definition starts_with (s p : list Z) : bool :=
  match strip_prefix p s with Some _ => true | None => false end.

Definition strip_suffix (p s : list Z) : option (list Z) :=
  reverse <$> strip_prefix (reverse p) (reverse s).

Definition ends_with (s p : list Z) : bool :=
  match strip_suffix p s with Some _ => true | None => false end.

(** [str::contains] with a string pattern. *)
Fixpoint contains_sub (s p : list Z) : bool :=
  starts_with s p ||
  match s with [] => false | _ :: r => contains_sub r p end.

Definition contains_byte (s : list Z) (b : Z) : bool := bool_decide (b ∈ s).

(** [str::split] with one ASCII character. *)
Fixpoint split_on (c : Z) (s : list Z) : list (list Z) :=
  match s with
  | [] => [[]]
  | b :: r =>
      if b =? c then [] :: split_on c r
      else match split_on c r with
           | [] => [[b]]
           | l :: ls => (b :: l) :: ls
           end
  end.

Fixpoint join_with (c : Z) (ls : list (list Z)) : list Z :=
  match ls with
  | [] => []
  | [l] => l
  | l :: r => l ++ c :: join_with c r
  end.

(** [str::split_once] with one ASCII character. *)
Fixpoint split_once (c : Z) (s : list Z) : option (list Z * list Z) :=
  match s with
  | [] => None
  | b :: r =>
      if b =? c then Some ([], r)
      else match split_once c r with
           | Some (x, y) => Some (b :: x, y)
           | None => None
           end
  end.

(** ** Trimming

    [str::trim] strips characters with the Unicode property [White_Space]: the
    tests below are on their UTF-8 encodings, from the front and, reversed,
    from the back. *)

Definition ws1 (a : Z) : bool := in_range 9 13 a || (a =? 32).
Definition ws2 (a b : Z) : bool := (a =? 194) && ((b =? 133) || (b =? 160)).
Definition ws3 (a b c : Z) : bool :=
  ((a =? 225) && (b =? 154) && (c =? 128)) ||
  ((a =? 226) && (b =? 128) &&
     (in_range 128 138 c || (c =? 168) || (c =? 169) || (c =? 175))) ||
  ((a =? 226) && (b =? 129) && (c =? 159)) ||
  ((a =? 227) && (b =? 128) && (c =? 128)).

Fixpoint trim_start (s : list Z) : list Z :=
  match s with
  | [] => []
  | a :: r =>
      if ws1 a then trim_start r
      else match r with
           | [] => s
           | b :: r' =>
               if ws2 a b then trim_start r'
               else match r' with
                    | [] => s
                    | c :: r'' => if ws3 a b c then trim_start r'' else s
                    end
           end
  end.

Fixpoint trim_start_rev (s : list Z) : list Z :=
  match s with
  | [] => []
  | a :: r =>
      if ws1 a then trim_start_rev r
      else match r with
           | [] => s
           | b :: r' =>
               if ws2 b a then trim_start_rev r'
               else match r' with
                    | [] => s
                    | c :: r'' => if ws3 c b a then trim_start_rev r'' else s
                    end
           end
  end.

Definition trim_end (s : list Z) : list Z := reverse (trim_start_rev (reverse s)).
Definition trim (s : list Z) : list Z := trim_end (trim_start s).

(** [trim_start_matches(c)] and [trim_end_matches(c)] for one byte. *)
Fixpoint trim_start_matches (c : Z) (s : list Z) : list Z :=
  match s with
  | b :: r => if b =? c then trim_start_matches c r else s
  | [] => []
  end.
Definition trim_end_matches (c : Z) (s : list Z) : list Z :=
  reverse (trim_start_matches c (reverse s)).

(** ** UTF-8 ([str::chars], [String::from_utf8]) *)

Definition utf8_cont (b : Z) : bool := in_range 128 191 b.
Definition utf8_lead3 (a b : Z) : bool :=
  ((a =? 224) && in_range 160 191 b) ||
  (in_range 225 236 a && utf8_cont b) ||
  ((a =? 237) && in_range 128 159 b) ||
  (in_range 238 239 a && utf8_cont b).
Definition utf8_lead4 (a b : Z) : bool :=
  ((a =? 240) && in_range 144 191 b) ||
  (in_range 241 243 a && utf8_cont b) ||
  ((a =? 244) && in_range 128 143 b).

(** The code points of a byte string, [None] when it is not UTF-8. *)
Fixpoint utf8_chars (s : list Z) : option (list Z) :=
  match s with
  | [] => Some []
  | a :: r =>
      if is_ascii a then cons a <$> utf8_chars r
      else match r with
      | [] => None
      | b :: r1 =>
          if in_range 194 223 a && utf8_cont b then
            cons ((a - 192) * 64 + (b - 128)) <$> utf8_chars r1
          else match r1 with
          | [] => None
          | c :: r2 =>
              if utf8_lead3 a b && utf8_cont c then
                cons ((a - 224) * 4096 + (b - 128) * 64 + (c - 128)) <$> utf8_chars r2
              else match r2 with
              | [] => None
              | d :: r3 =>
                  if utf8_lead4 a b && utf8_cont c && utf8_cont d then
                    cons ((a - 240) * 262144 + (b - 128) * 4096 +
                          (c - 128) * 64 + (d - 128)) <$> utf8_chars r3
                  else None
              end
          end
      end
  end.

Definition chars (s : list Z) : list Z := default [] (utf8_chars s).

(** [String::push]: the UTF-8 encoding of one character. *)
Definition utf8_encode (c : Z) : list Z :=
  if c <? 128 then [c]
  else if c <? 2048 then [192 + c / 64; 128 + c mod 64]
  else if c <? 65536 then [224 + c / 4096; 128 + c / 64 mod 64; 128 + c mod 64]
  else [240 + c / 262144; 128 + c / 4096 mod 64; 128 + c / 64 mod 64; 128 + c mod 64].

(** [String::from_iter]: the text of these characters. *)
Definition encode_chars (cs : list Z) : list Z := cs ≫= utf8_encode.

(** [char::is_whitespace] and [char::is_control]. *)
Definition char_is_whitespace (c : Z) : bool :=
  in_range 9 13 c || (c =? 32) || (c =? 133) || (c =? 160) || (c =? 5760) ||
  in_range 8192 8202 c || (c =? 8232) || (c =? 8233) || (c =? 8239) || (c =? 8287) ||
  (c =? 12288).
Definition char_is_control (c : Z) : bool := in_range 0 31 c || in_range 127 159 c.
Definition has_control (value : list Z) : bool := existsb char_is_control (chars value).

(** [str::split_terminator] with one ASCII character, and [str::lines]. *)
Definition split_terminator (c : Z) (s : list Z) : list (list Z) :=
  match reverse (split_on c s) with
  | [] :: r => reverse r
  | _ => split_on c s
  end.
Definition lines (s : list Z) : list (list Z) :=
  (λ l, default l (strip_suffix [ch_cr] l)) <$> split_terminator ch_lf s.

(** [String::from_utf8]: the same bytes, or [None]. *)
Definition from_utf8 (bs : list Z) : option (list Z) :=
  match utf8_chars bs with Some _ => Some bs | None => None end.

(** ** Decimal numbers *)

(** Value of a string of ASCII digits, [None] on any other byte or when it is
    empty. *)
Definition parse_digits (s : list Z) : option Z :=
  match s with
  | [] => None
  | _ =>
      if forallb is_ascii_digit s
      then Some (foldl (λ acc b, acc * 10 + (b - 48)) 0 s)
      else None
  end.

(** [Display] of a non-negative integer. *)
Definition show_dec (z : Z) : list Z := str (pretty (Z.to_N z)).

(** ** Paths ([std::path] on Unix) *)

(** [Path::join] of a relative name *)
Definition path_join (path name : list Z) : list Z :=
  if bool_decide (last path = Some ch_slash) then path ++ name else path ++ [ch_slash] ++ name.

(** [Path::components]: whether it has a root, whether a relative path starts at the current
    directory, and the names *)
Definition path_components (path : list Z) : bool * bool * list (list Z) :=
  let parts := split_on ch_slash path in
  (bool_decide (head path = Some ch_slash), bool_decide (head parts = Some [ch_dot]),
   filter (λ c, c ≠ [] ∧ c ≠ [ch_dot]) parts).

(** [Path::starts_with], for a prefix with a root *)
Definition path_starts_with (path prefix : list Z) : bool :=
  let '(root, _, names) := path_components path in
  let '(_, _, prefix) := path_components prefix in
  root && bool_decide (take (length prefix) names = prefix).

Definition has_parent_dir (path : list Z) : bool :=
  bool_decide ([ch_dot; ch_dot] ∈ (path_components path).2).

(** [Path::is_absolute], on Unix *)
Definition is_absolute (path : list Z) : bool := bool_decide (head path = Some ch_slash).

(** A part between separators that is a component. *)
Definition is_component (part : list Z) : bool :=
  negb (bool_decide (part = [])) && negb (bool_decide (part = [ch_dot])).

(** The parts after the first [n] components. *)
Fixpoint drop_components (n : nat) (parts : list (list Z)) : list (list Z) :=
  match n, parts with
  | O, _ => parts
  | _, [] => []
  | S m, part :: parts => if is_component part then drop_components m parts else drop_components n parts
  end.

Fixpoint trim_parts (parts : list (list Z)) : list (list Z) :=
  match parts with
  | [] => []
  | part :: rest => if is_component part then parts else trim_parts rest
  end.

Fixpoint join_parts (parts : list (list Z)) : list Z :=
  match parts with
  | [] => []
  | [part] => part
  | part :: parts => part ++ [ch_slash] ++ join_parts parts
  end.

(** [Components::as_path] of an absolute path after its first [n] names: separators and current
    directories are trimmed at both ends and kept between. *)
Definition path_after (n : nat) (path : list Z) : list Z :=
  join_parts (reverse (trim_parts (reverse (trim_parts (drop_components n (split_on ch_slash path)))))).

(** [Path::strip_prefix] of an absolute path, with an absolute prefix of these names *)
Definition strip_path_prefix (prefix : list (list Z)) (path : list Z) : option (list Z) :=
  if bool_decide (take (length prefix) (path_components path).2 = prefix)
  then Some (path_after (length prefix) path) else None.

(** ** Lemmas *)

Lemma in_range_true (lo hi b : Z) : in_range lo hi b = true ↔ lo ≤ b ≤ hi.
Proof. unfold in_range. rewrite andb_true_iff. lia. Qed.

Lemma in_range_false (lo hi b : Z) : in_range lo hi b = false ↔ b < lo ∨ hi < b.
Proof. unfold in_range. rewrite andb_false_iff. lia. Qed.

#[global] Arguments in_range : simpl never.

Lemma strip_prefix_Some (p s r : list Z) : strip_prefix p s = Some r ↔ s = p ++ r.
Proof.
  revert s. induction p as [|a p IH]; intros s; simpl; [naive_solver|].
  destruct s as [|b s]; [by split|]. destruct (a =? b) eqn:E; bool_to_prop.
  - rewrite IH. naive_solver.
  - naive_solver.
Qed.

Lemma starts_with_true (s p : list Z) : starts_with s p = true ↔ ∃ r, s = p ++ r.
Proof.
  unfold starts_with. destruct (strip_prefix p s) as [r|] eqn:E.
  - apply strip_prefix_Some in E. naive_solver.
  - split; [done|]. intros [r Hr%strip_prefix_Some]. congruence.
Qed.

Lemma strip_suffix_Some (p s r : list Z) : strip_suffix p s = Some r ↔ s = r ++ p.
Proof.
  unfold strip_suffix. rewrite fmap_Some. setoid_rewrite strip_prefix_Some. split.
  - intros (x & Hs & ->). apply (f_equal reverse) in Hs.
    rewrite reverse_involutive, reverse_app, reverse_involutive in Hs. done.
  - intros ->. exists (reverse r). by rewrite reverse_app, reverse_involutive.
Qed.

Lemma ends_with_true (s p : list Z) : ends_with s p = true ↔ ∃ r, s = r ++ p.
Proof.
  unfold ends_with. destruct (strip_suffix p s) as [r|] eqn:E.
  - apply strip_suffix_Some in E. naive_solver.
  - split; [done|]. intros [r Hr%strip_suffix_Some]. congruence.
Qed.

Lemma contains_sub_true (s p : list Z) :
  contains_sub s p = true ↔ ∃ l r, s = l ++ p ++ r.
Proof.
  induction s as [|a s IH]; simpl; rewrite orb_true_iff, starts_with_true.
  - split.
    + intros [[r Hr]|?]; [|done]. by exists [], r.
    + intros ([|] & r & H); [|done]. left. by exists r.
  - rewrite IH. split.
    + intros [[r ->]|(l & r & ->)]; [by exists [], r | by exists (a :: l), r].
    + intros ([|b l] & r & H); [left; by exists r|].
      right. injection H as -> ->. by exists l, r.
Qed.

(** *** Splitting *)

Lemma split_on_cons (c : Z) (s : list Z) : ∃ l ls, split_on c s = l :: ls.
Proof.
  induction s as [|b s (l & ls & E)]; simpl; [eauto|].
  rewrite E. destruct (b =? c); eauto.
Qed.

Lemma join_split (c : Z) (s : list Z) : join_with c (split_on c s) = s.
Proof.
  induction s as [|b s IH]; simpl; [done|].
  destruct (split_on_cons c s) as (l & ls & E). rewrite E in IH |- *.
  destruct (b =? c) eqn:Hb; bool_to_prop; [by subst b; simpl in *; rewrite IH|].
  destruct ls; simpl in *; by rewrite IH.
Qed.

Lemma split_on_no_sep (c : Z) (s : list Z) : Forall (λ l, c ∉ l) (split_on c s).
Proof.
  induction s as [|b s IH]; simpl; [by repeat constructor; set_solver|].
  destruct (b =? c) eqn:Hb; bool_to_prop; [constructor; [set_solver|done]|].
  destruct (split_on c s) as [|l ls]; [constructor; [set_solver|done]|].
  apply Forall_cons in IH as [? ?]. constructor; [set_solver|done].
Qed.

Lemma split_on_none (c : Z) (s : list Z) : c ∉ s → split_on c s = [s].
Proof.
  induction s as [|b s IH]; intros H; [done|]. simpl.
  rewrite IH by set_solver. destruct (b =? c) eqn:Hb; bool_to_prop; set_solver.
Qed.

Lemma split_on_app (c : Z) (l r : list Z) :
  c ∉ l → split_on c (l ++ c :: r) = l :: split_on c r.
Proof.
  induction l as [|b l IH]; intros H; simpl; [by rewrite Z.eqb_refl|].
  rewrite IH by set_solver. destruct (b =? c) eqn:Hb; bool_to_prop; set_solver.
Qed.

Lemma split_once_Some (c : Z) (s x y : list Z) :
  split_once c s = Some (x, y) ↔ s = x ++ c :: y ∧ c ∉ x.
Proof.
  revert x. induction s as [|b s IH]; intros x; simpl.
  { split; [done|]. by intros [H _]; destruct x. }
  destruct (b =? c) eqn:Hb; bool_to_prop.
  - subst. split.
    + intros [= <- <-]. set_solver.
    + intros [H Hx]. destruct x; simplify_eq/=; [done|set_solver].
  - destruct (split_once c s) as [[x' y']|] eqn:E; split.
    + intros [= <- <-]. destruct (IH x') as [[-> ?] _]; [done|]. set_solver.
    + intros [H Hx]. destruct x as [|d x]; simplify_eq/=.
      assert (Some (x', y') = Some (x, y)) as [= -> ->]; [|done].
      apply IH. set_solver.
    + done.
    + intros [H Hx]. destruct x as [|d x]; simplify_eq/=.
      assert (None = Some (x, y)); [|done]. apply IH. set_solver.
Qed.

(** *** Case folding *)

Lemma to_ascii_lower_not_upper (b : Z) : is_ascii_uppercase (to_ascii_lower b) = false.
Proof.
  unfold to_ascii_lower, is_ascii_uppercase. destruct (in_range 65 90 b) eqn:E; [|done].
  apply in_range_true in E. apply in_range_false. lia.
Qed.

Lemma to_ascii_lower_idem (b : Z) : to_ascii_lower (to_ascii_lower b) = to_ascii_lower b.
Proof.
  unfold to_ascii_lower at 1. by rewrite to_ascii_lower_not_upper.
Qed.

Lemma to_ascii_lowercase_idem (s : list Z) :
  to_ascii_lowercase (to_ascii_lowercase s) = to_ascii_lowercase s.
Proof.
  unfold to_ascii_lowercase. rewrite <-list_fmap_compose.
  apply list_fmap_ext. intros i b _. apply to_ascii_lower_idem.
Qed.

Lemma length_to_ascii_lowercase (s : list Z) :
  length (to_ascii_lowercase s) = length s.
Proof. apply length_fmap. Qed.

(** *** Trimming leaves text without white space alone *)

Definition plain_byte (b : Z) : bool := is_ascii b && negb (ws1 b).

Lemma plain_not_ws (a b c : Z) :
  plain_byte a = true → ws1 a = false ∧ ws2 a b = false ∧ ws3 a b c = false ∧
  ws2 b a = false ∧ ws3 c b a = false.
Proof.
  unfold plain_byte, is_ascii, ws2, ws3. intros H. bool_to_prop.
  apply in_range_true in H. split_and!; try done.
  all: repeat match goal with
       | |- context [in_range ?x ?y ?z] =>
           destruct (in_range x y z) eqn:?
       end; try (rewrite in_range_true in * ); lia.
Qed.

Lemma trim_start_plain (s : list Z) : forallb plain_byte s = true → trim_start s = s.
Proof.
  destruct s as [|a s]; [done|]. simpl. intros H. bool_to_prop.
  destruct s as [|b [|c s]].
  - by destruct (plain_not_ws a 0 0) as (-> & _).
  - by destruct (plain_not_ws a b 0) as (-> & -> & _).
  - by destruct (plain_not_ws a b c) as (-> & -> & -> & _).
Qed.

Lemma trim_start_rev_plain (s : list Z) :
  forallb plain_byte s = true → trim_start_rev s = s.
Proof.
  destruct s as [|a s]; [done|]. simpl. intros H. bool_to_prop.
  destruct s as [|b [|c s]].
  - by destruct (plain_not_ws a 0 0) as (-> & _).
  - by destruct (plain_not_ws a b 0) as (-> & _ & _ & -> & _).
  - by destruct (plain_not_ws a b c) as (-> & _ & _ & -> & ->).
Qed.

Lemma forallb_reverse {A : Type} (f : A → bool) (l : list A) :
  forallb f (reverse l) = forallb f l.
Proof.
  apply eq_bool_prop_intro. rewrite !Is_true_true, !forallb_forall.
  setoid_rewrite <-list_elem_of_In. by setoid_rewrite elem_of_reverse.
Qed.

Lemma trim_plain (s : list Z) : forallb plain_byte s = true → trim s = s.
Proof.
  intros H. unfold trim, trim_end. rewrite trim_start_plain by done.
  rewrite trim_start_rev_plain by (by rewrite forallb_reverse).
  apply reverse_involutive.
Qed.

(** *** ASCII text is UTF-8 and its own list of characters *)

Lemma utf8_chars_ascii (s : list Z) : forallb is_ascii s = true → utf8_chars s = Some s.
Proof.
  induction s as [|b s IH]; simpl; [done|]. intros H. bool_to_prop.
  rewrite H, IH by done. done.
Qed.

(** A Unicode scalar value *)
Definition scalar (c : Z) : bool := in_range 0 55295 c || in_range 57344 1114111 c.

Lemma utf8_chars_encode (c : Z) (r : list Z) :
  scalar c = true → utf8_chars (utf8_encode c ++ r) = cons c <$> utf8_chars r.
Proof.
  unfold scalar. rewrite orb_true_iff, !in_range_true. intros Hc. unfold utf8_encode.
  pose proof (Z.div_mod c 64 ltac:(lia)). pose proof (Z.mod_pos_bound c 64 ltac:(lia)).
  pose proof (Z.div_mod (c / 64) 64 ltac:(lia)). pose proof (Z.mod_pos_bound (c / 64) 64 ltac:(lia)).
  pose proof (Z.div_mod (c / 4096) 64 ltac:(lia)). pose proof (Z.mod_pos_bound (c / 4096) 64 ltac:(lia)).
  assert (c / 4096 = c / 64 / 64) as E1 by (by rewrite Z.div_div).
  assert (c / 262144 = c / 4096 / 64) as E2 by (by rewrite Z.div_div).
  destruct (Z.ltb_spec c 128); [|destruct (Z.ltb_spec c 2048); [|destruct (Z.ltb_spec c 65536)]];
    cbn [app utf8_chars].
  - unfold is_ascii. rewrite (proj2 (in_range_true 0 127 c)) by lia. done.
  - unfold is_ascii. rewrite (proj2 (in_range_false 0 127 _)) by lia.
    unfold utf8_cont. rewrite !(proj2 (in_range_true _ _ _)) by lia. cbn [andb].
    do 2 f_equal. lia.
  - unfold is_ascii. rewrite (proj2 (in_range_false 0 127 _)) by lia.
    rewrite (proj2 (in_range_false 194 223 _)) by lia. cbn [andb].
    assert (utf8_lead3 (224 + c / 4096) (128 + c / 64 mod 64) = true) as ->.
    { unfold utf8_lead3, utf8_cont. rewrite !orb_true_iff, !andb_true_iff, !in_range_true, !Z.eqb_eq. lia. }
    unfold utf8_cont. rewrite (proj2 (in_range_true _ _ _)) by lia. cbn [andb]. do 2 f_equal. lia.
  - unfold is_ascii. rewrite (proj2 (in_range_false 0 127 _)) by lia.
    rewrite (proj2 (in_range_false 194 223 _)) by lia. cbn [andb].
    assert (utf8_lead3 (240 + c / 262144) (128 + c / 4096 mod 64) = false) as ->.
    { unfold utf8_lead3, utf8_cont.
      rewrite !orb_false_iff, !andb_false_iff, !in_range_false, !Z.eqb_neq. lia. }
    assert (utf8_lead4 (240 + c / 262144) (128 + c / 4096 mod 64) = true) as ->.
    { unfold utf8_lead4, utf8_cont. rewrite !orb_true_iff, !andb_true_iff, !in_range_true, !Z.eqb_eq. lia. }
    cbn [andb]. unfold utf8_cont at 1 2. rewrite !(proj2 (in_range_true 128 191 _)) by lia.
    cbn [andb]. do 2 f_equal. lia.
Qed.

Lemma utf8_chars_encode_chars (cs : list Z) :
  forallb scalar cs = true → utf8_chars (encode_chars cs) = Some cs.
Proof.
  induction cs as [|c cs IH]; [done|]. cbn [forallb]. rewrite andb_true_iff. intros [Hc Hcs].
  unfold encode_chars. cbn [mbind list_bind]. rewrite utf8_chars_encode by done.
  unfold encode_chars in IH. by rewrite IH.
Qed.

(** What is decoded is encoded to the same bytes. *)
Lemma utf8_chars_Some (s cs : list Z) :
  utf8_chars s = Some cs → encode_chars cs = s ∧ forallb scalar cs = true.
Proof.
  remember (length s) as n eqn:Hn. revert s cs Hn.
  induction (lt_wf n) as [n _ IH]. intros s cs Hn Hs.
  assert (∀ c r cs', (length r < n)%nat → utf8_chars r = Some cs' → scalar c = true →
    encode_chars (c :: cs') = utf8_encode c ++ r ∧ forallb scalar (c :: cs') = true) as Hstep.
  { intros c r cs' Hlt Hr Hc. destruct (IH (length r) Hlt r cs' eq_refl Hr) as [H1 H2].
    cbn [forallb]. rewrite Hc, H2. split; [|done]. unfold encode_chars in *.
    cbn [mbind list_bind]. by f_equal. }
  assert (∀ c (r bytes cs' : list Z), cons c <$> utf8_chars r = Some cs' → (length r < n)%nat →
    scalar c = true → utf8_encode c ++ r = bytes →
    encode_chars cs' = bytes ∧ forallb scalar cs' = true) as Hfin.
  { intros c r bytes cs' Hr Hlt Hc <-. apply fmap_Some in Hr as (l & Hl & ->). by apply Hstep. }
  destruct s as [|a r]; cbn [utf8_chars] in Hs; [by injection Hs as <-|]. cbn [length] in Hn.
  destruct (is_ascii a) eqn:Ha.
  { unfold is_ascii in Ha. apply in_range_true in Ha.
    eapply Hfin; [exact Hs|lia|unfold scalar; rewrite orb_true_iff, !in_range_true; lia|].
    unfold utf8_encode. rewrite (proj2 (Z.ltb_lt _ _)) by lia. done. }
  destruct r as [|b r]; [done|]. cbn [length] in Hn. unfold scalar in Hfin. unfold utf8_encode in Hfin.
  destruct (in_range 194 223 a && utf8_cont b) eqn:H2.
  { unfold utf8_cont in H2. rewrite andb_true_iff, !in_range_true in H2.
    eapply Hfin; [exact Hs|lia|rewrite orb_true_iff, !in_range_true; lia|].
    rewrite (proj2 (Z.ltb_ge _ 128)), (proj2 (Z.ltb_lt _ 2048)) by lia. cbn [app].
    f_equal; [|f_equal]; Z.to_euclidean_division_equations; lia. }
  destruct r as [|c r]; [done|]. cbn [length] in Hn.
  destruct (utf8_lead3 a b && utf8_cont c) eqn:H3.
  { unfold utf8_lead3, utf8_cont in H3.
    rewrite andb_true_iff, !orb_true_iff, !andb_true_iff, !in_range_true, !Z.eqb_eq in H3.
    eapply Hfin; [exact Hs|lia|rewrite orb_true_iff, !in_range_true; lia|].
    rewrite (proj2 (Z.ltb_ge _ 128)), (proj2 (Z.ltb_ge _ 2048)), (proj2 (Z.ltb_lt _ 65536)) by lia.
    cbn [app]. f_equal; [|f_equal; [|f_equal]]; Z.to_euclidean_division_equations; lia. }
  destruct r as [|d r]; [done|]. cbn [length] in Hn.
  destruct (utf8_lead4 a b && utf8_cont c && utf8_cont d) eqn:H4; [|done].
  unfold utf8_lead4, utf8_cont in H4.
  rewrite !andb_true_iff, !orb_true_iff, !andb_true_iff, !in_range_true, !Z.eqb_eq in H4.
  eapply Hfin; [exact Hs|lia|rewrite orb_true_iff, !in_range_true; lia|].
  rewrite (proj2 (Z.ltb_ge _ 128)), (proj2 (Z.ltb_ge _ 2048)), (proj2 (Z.ltb_ge _ 65536)) by lia.
  cbn [app]. f_equal; [|f_equal; [|f_equal; [|f_equal]]]; Z.to_euclidean_division_equations; lia.
Qed.

Lemma chars_encode_chars (cs : list Z) : forallb scalar cs = true → chars (encode_chars cs) = cs.
Proof. intros Hcs. unfold chars. by rewrite utf8_chars_encode_chars. Qed.

Lemma from_utf8_ascii (s : list Z) : forallb is_ascii s = true → from_utf8 s = Some s.
Proof. intros H. unfold from_utf8. by rewrite utf8_chars_ascii. Qed.

Lemma from_utf8_Some (s t : list Z) : from_utf8 s = Some t → t = s.
Proof. unfold from_utf8. destruct (utf8_chars s); naive_solver. Qed.

(** ** A printed number is its canonical decimal *)

Definition digits_value (s : list Z) : Z := foldl (λ acc b, acc * 10 + (b - 48)) 0 s.

Lemma digit_char (x : N) :
  (x < 10)%N → Z.of_N (Ascii.N_of_ascii (pretty_N_char x)) = 48 + Z.of_N x.
Proof.
  intros H. assert (x = 0 ∨ x = 1 ∨ x = 2 ∨ x = 3 ∨ x = 4 ∨ x = 5 ∨ x = 6 ∨ x = 7 ∨ x = 8 ∨
    x = 9)%N as Hx by lia.
  repeat destruct Hx as [->|Hx]; [done..|]. by subst.
Qed.

Lemma pretty_go_digits (x : N) :
  ∃ ds, (∀ s, str (pretty_N_go x s) = ds ++ str s) ∧
    forallb is_ascii_digit ds = true ∧ digits_value ds = Z.of_N x ∧
    ((0 < x)%N → ∃ d r, ds = d :: r ∧ 49 ≤ d).
Proof.
  induction (N.lt_wf_0 x) as [x _ IH].
  destruct (decide (x = 0)%N) as [->|Hx].
  { exists []. split; [done|]. repeat split; [done..|lia]. }
  destruct (IH (x / 10)%N) as (ds & Hstr & Hdig & Hval & Hhead); [apply N.div_lt; lia|].
  pose proof (N.mod_lt x 10 ltac:(lia)) as Hmod.
  pose proof (N.div_mod x 10 ltac:(lia)) as Hdm.
  pose proof (λ s, pretty_N_go_step x s ltac:(lia)) as Hstep.
  set (q := (x / 10)%N) in *. set (m := (x mod 10)%N) in *. clearbody q m.
  exists (ds ++ [48 + Z.of_N m]). repeat split.
  - intros s. rewrite Hstep, Hstr, <-app_assoc by lia. f_equal.
    cbn [app]. rewrite <-digit_char by done. done.
  - rewrite forallb_app, Hdig. cbn [forallb andb]. rewrite andb_true_r. apply in_range_true. lia.
  - unfold digits_value in *. rewrite foldl_app, Hval. cbn [foldl]. lia.
  - intros _. destruct ds as [|d r].
    + exists (48 + Z.of_N m), []. split; [done|]. cbn in Hval. lia.
    + destruct (decide (q = 0)%N) as [->|Hq].
      * exfalso. specialize (Hstr EmptyString). by rewrite app_nil_r in Hstr.
      * destruct Hhead as (d' & r' & [= -> ->] & Hd); [lia|]. by exists d', (r' ++ [48 + Z.of_N m]).
Qed.

Lemma show_dec_canonical (n : Z) :
  0 ≤ n →
  parse_digits (show_dec n) = Some n ∧ forallb is_ascii_digit (show_dec n) = true ∧
  show_dec n ≠ [] ∧ ((1 <? length (show_dec n))%nat && starts_with (show_dec n) [48] = false).
Proof.
  intros Hn. unfold show_dec, pretty, pretty_N. destruct (decide (Z.to_N n = 0)%N) as [H0|H0].
  { assert (n = 0) as -> by lia. done. }
  destruct (pretty_go_digits (Z.to_N n)) as (ds & Hstr & Hdig & Hval & Hhead).
  rewrite Hstr. change (str "") with (@nil Z). rewrite app_nil_r.
  destruct Hhead as (d & r & -> & Hd); [lia|]. repeat split; [|done|done|].
  - unfold parse_digits. rewrite Hdig. f_equal. unfold digits_value in Hval. lia.
  - apply andb_false_iff. right. apply not_true_iff_false. rewrite starts_with_true.
    intros [k Hk]. injection Hk as ->. lia.
Qed.

Lemma show_dec_inj (m n : Z) : 0 ≤ m → 0 ≤ n → show_dec m = show_dec n → m = n.
Proof.
  intros Hm Hn He. destruct (show_dec_canonical m Hm) as [Pm _].
  destruct (show_dec_canonical n Hn) as [Pn _]. rewrite He in Pm. congruence.
Qed.

Lemma digits_value_lower (ds : list Z) (acc : Z) :
  forallb is_ascii_digit ds = true →
  acc * 10 ^ Z.of_nat (length ds) ≤ foldl (λ acc b, acc * 10 + (b - 48)) acc ds.
Proof.
  revert acc. induction ds as [|d ds IH]; intros acc Hd; cbn [foldl length]; [cbn; lia|].
  cbn [forallb] in Hd. apply andb_true_iff in Hd as [Hd Hds]. apply in_range_true in Hd.
  specialize (IH (acc * 10 + (d - 48)) Hds).
  rewrite Nat2Z.inj_succ, Z.pow_succ_r by lia.
  assert (0 < 10 ^ Z.of_nat (length ds)) by (apply Z.pow_pos_nonneg; lia). nia.
Qed.

Lemma length_show_dec (n : Z) (k : nat) :
  0 ≤ n < 10 ^ Z.of_nat k → (0 < k)%nat → (length (show_dec n) ≤ k)%nat.
Proof.
  intros Hn Hk. unfold show_dec, pretty, pretty_N. destruct (decide (Z.to_N n = 0)%N) as [H0|H0].
  { done. }
  destruct (pretty_go_digits (Z.to_N n)) as (ds & Hstr & Hdig & Hval & Hhead).
  rewrite Hstr. change (str "") with (@nil Z). rewrite app_nil_r.
  destruct Hhead as (d & r & -> & Hd); [lia|]. cbn [forallb] in Hdig.
  apply andb_true_iff in Hdig as [_ Hr]. unfold digits_value in Hval. cbn [foldl] in Hval.
  pose proof (digits_value_lower r (0 * 10 + (d - 48)) Hr) as Hlow. cbn [length].
  destruct (decide (S (length r) ≤ k)%nat) as [|Hlt]; [done|]. exfalso.
  assert (10 ^ Z.of_nat k ≤ 10 ^ Z.of_nat (length r)) by (apply Z.pow_le_mono_r; lia).
  nia.
Qed.
