(* ===== verification/Net.v ===== *)
(** * Internet addresses

    [std::net::IpAddr] as the sources use it: an address is its 32-bit or
    128-bit big-endian value, tagged with the family.  Predicates are the
    standard library's, written on octets and 16-bit segments.  [ipnet::IpNet]
    is a third-party type, and enters as the operations class [IpNetApi] with
    its documented laws [IpNetLaws]; [cidr_api] is a concrete implementation
    used to show that the laws are satisfiable. *)

From S2P Require Import Prelude RustStr.

Inductive ip_addr : Type :=
| V4 (bits : Z)
| V6 (bits : Z).

#[global] Instance ip_addr_eq_dec : EqDecision ip_addr.
Proof. solve_decision. Defined.

#[global] Instance ip_addr_countable : Countable ip_addr.
Proof.
  refine (inj_countable' (λ a, match a with V4 b => inl b | V6 b => inr b end)
            (λ s, match s with inl b => V4 b | inr b => V6 b end) _).
  by intros [].
Defined.

Definition v4_max : Z := 4294967295.
Definition v6_max : Z := 340282366920938463463374607431768211455.

(** A value of the Rust type. *)
Definition ip_wf (ip : ip_addr) : Prop :=
  match ip with V4 a => 0 ≤ a ≤ v4_max | V6 a => 0 ≤ a ≤ v6_max end.

(** ** [Ipv4Addr] *)

Definition ipv4_new (a b c d : Z) : Z := be_value [a; b; c; d].
Definition v4_octets (a : Z) : list Z := be_bytes 4 a.
Definition v4_octet (i : Z) (a : Z) : Z := Z.land (Z.shiftr a (8 * (3 - i))) 255.

Definition v4_is_unspecified (a : Z) : bool := a =? 0.
Definition v4_is_loopback (a : Z) : bool := v4_octet 0 a =? 127.
Definition v4_is_link_local (a : Z) : bool :=
  (v4_octet 0 a =? 169) && (v4_octet 1 a =? 254).
Definition v4_is_multicast (a : Z) : bool := in_range 224 239 (v4_octet 0 a).

(** ** [Ipv6Addr] *)

Definition v6_octets (a : Z) : list Z := be_bytes 16 a.
Definition v6_segment (i : Z) (a : Z) : Z :=
  Z.land (Z.shiftr a (16 * (7 - i))) 65535.

Definition v6_of_segments (s : list Z) : Z := foldl (λ acc x, acc * 65536 + x) 0 s.
Definition ipv6_new (a b c d e f g h : Z) : Z := v6_of_segments [a; b; c; d; e; f; g; h].

Definition v6_is_unspecified (a : Z) : bool := a =? 0.
Definition v6_is_loopback (a : Z) : bool := a =? 1.
Definition v6_is_multicast (a : Z) : bool := Z.shiftr (v6_segment 0 a) 8 =? 255.

(** [Ipv6Addr::to_ipv4_mapped]: [::ffff:a.b.c.d] only. *)
Definition to_ipv4_mapped (a : Z) : option Z :=
  if Z.shiftr a 32 =? 65535 then Some (Z.land a v4_max) else None.

#[global] Arguments to_ipv4_mapped : simpl never.
#[global] Arguments v4_octet : simpl never.
#[global] Arguments v6_segment : simpl never.
#[global] Arguments v4_max : simpl never.
#[global] Arguments v6_max : simpl never.

(** ** [IpAddr] *)

Definition is_ipv4 (ip : ip_addr) : bool :=
  match ip with V4 _ => true | V6 _ => false end.

(** The derived order: IPv4 before IPv6, then by value. *)
Definition ip_leb (x y : ip_addr) : bool :=
  match x, y with
  | V4 a, V4 b => a <=? b
  | V4 _, V6 _ => true
  | V6 _, V4 _ => false
  | V6 a, V6 b => a <=? b
  end.

Definition ip_octets (ip : ip_addr) : list Z :=
  match ip with V4 a => v4_octets a | V6 a => v6_octets a end.

(** ** Text form ([FromStr], [Display]) *)

Definition hex_digit (b : Z) : option Z :=
  if is_ascii_digit b then Some (b - 48)
  else if in_range 97 102 b then Some (b - 87)
  else if in_range 65 70 b then Some (b - 55)
  else None.

Fixpoint hex_value (acc : Z) (s : list Z) : option Z :=
  match s with
  | [] => Some acc
  | b :: r => d ← hex_digit b; hex_value (acc * 16 + d) r
  end.

(** One group of one to four hexadecimal digits. *)
Definition parse_hex16 (s : list Z) : option Z :=
  match length s with
  | 1%nat | 2%nat | 3%nat | 4%nat => hex_value 0 s
  | _ => None
  end.

(** One decimal octet: at most three digits, no leading zero, at most 255. *)
Definition parse_octet (s : list Z) : option Z :=
  if (3 <? Z.of_nat (length s)) then None
  else match s with
       | 48 :: _ :: _ => None
       | _ => v ← parse_digits s; if v <=? 255 then Some v else None
       end.

Definition parse_ipv4 (s : list Z) : option Z :=
  match split_on ch_dot s with
  | [a; b; c; d] =>
      a ← parse_octet a; b ← parse_octet b; c ← parse_octet c; d ← parse_octet d;
      Some (ipv4_new a b c d)
  | _ => None
  end.

(** The 16-bit groups of a colon-separated list; a trailing dotted quad stands
    for two groups when [quad] is set. *)
Fixpoint parse_groups (quad : bool) (gs : list (list Z)) : option (list Z) :=
  match gs with
  | [] => Some []
  | g :: r =>
      match parse_hex16 g with
      | Some v => cons v <$> parse_groups quad r
      | None =>
          match r with
          | [] => if quad then
                    a ← parse_ipv4 g; Some [Z.shiftr a 16; Z.land a 65535]
                  else None
          | _ => None
          end
      end
  end.

Fixpoint split_double_colon (s : list Z) : option (list Z * list Z) :=
  match s with
  | [] => None
  | a :: r =>
      match r with
      | b :: r' =>
          if (a =? ch_colon) && (b =? ch_colon) then Some ([], r')
          else prod_map (cons a) id <$> split_double_colon r
      | [] => None
      end
  end.

Definition groups_of (s : list Z) : list (list Z) :=
  match s with [] => [] | _ => split_on ch_colon s end.

Definition parse_ipv6 (s : list Z) : option Z :=
  match split_double_colon s with
  | None =>
      gs ← parse_groups true (groups_of s);
      if (length gs =? 8)%nat then Some (v6_of_segments gs) else None
  | Some (h, t) =>
      hs ← parse_groups false (groups_of h);
      ts ← parse_groups true (groups_of t);
      if (length hs + length ts <=? 7)%nat then
        Some (v6_of_segments (hs ++ replicate (8 - length hs - length ts) 0 ++ ts))
      else None
  end.

(** [str::parse::<IpAddr>]. *)
Definition parse_ip (s : list Z) : option ip_addr :=
  match parse_ipv4 s with
  | Some a => Some (V4 a)
  | None => V6 <$> parse_ipv6 s
  end.

Definition show_ipv4 (a : Z) : list Z := join_with ch_dot (show_dec <$> v4_octets a).

Definition hex_char (d : Z) : Z := if d <? 10 then d + 48 else d + 87.
(** Lower-case hexadecimal without leading zeros, for a 16-bit value. *)
Definition show_hex16 (v : Z) : list Z :=
  let ds := [Z.shiftr v 12; Z.land (Z.shiftr v 8) 15; Z.land (Z.shiftr v 4) 15; Z.land v 15] in
  let fix strip (ds : list Z) : list Z :=
    match ds with 0 :: ((_ :: _) as r) => strip r | _ => ds end in
  hex_char <$> strip ds.

Definition v6_segments (a : Z) : list Z :=
  (λ i, v6_segment i a) <$> [0; 1; 2; 3; 4; 5; 6; 7].

(** Start and length of the first longest run of zero groups. *)
Fixpoint longest_zero_run (i cs cl bs bl : nat) (s : list Z) : nat * nat :=
  match s with
  | [] => (bs, bl)
  | x :: r =>
      if x =? 0 then
        let cs' := if (cl =? 0)%nat then i else cs in
        let cl' := S cl in
        if (bl <? cl')%nat then longest_zero_run (S i) cs' cl' cs' cl' r
        else longest_zero_run (S i) cs' cl' bs bl r
      else longest_zero_run (S i) 0 0 bs bl r
  end.

Definition show_ipv6 (a : Z) : list Z :=
  match to_ipv4_mapped a with
  | Some v4 => str "::ffff:" ++ show_ipv4 v4
  | None =>
      let ss := v6_segments a in
      let '(start, len) := longest_zero_run 0 0 0 0 0 ss in
      if (1 <? len)%nat then
        join_with ch_colon (show_hex16 <$> take start ss) ++ str "::" ++
        join_with ch_colon (show_hex16 <$> drop (start + len) ss)
      else join_with ch_colon (show_hex16 <$> ss)
  end.

(** [IpAddr::to_string]. *)
Definition show_ip (ip : ip_addr) : list Z :=
  match ip with V4 a => show_ipv4 a | V6 a => show_ipv6 a end.

(** ** [ipnet::IpNet] *)

Class IpNetApi (ipnet : Type) : Type := {
  #[global] ipnet_eq_dec :: EqDecision ipnet;
  (** [str::parse::<IpNet>]: an address followed by a prefix length. *)
  ipnet_parse : list Z → option ipnet;
  (** [IpNet::from(IpAddr)]: the host network of one address. *)
  ipnet_from : ip_addr → ipnet;
  ipnet_contains : ipnet → ip_addr → bool;
  ipnet_prefix_len : ipnet → Z;
  ipnet_trunc : ipnet → ipnet;
  (** The derived order of [IpNet]. *)
  ipnet_leb : ipnet → ipnet → bool;
}.

(** What the documentation of [ipnet] promises and the sources rely on. *)
Class IpNetLaws (ipnet : Type) `{N : IpNetApi ipnet} : Prop := {
  (** The host network of an address contains that address and no other. *)
  ipnet_from_contains (x y : ip_addr) :
    ip_wf x → ip_wf y → ipnet_contains (ipnet_from x) y = true ↔ x = y;
  (** Truncating the host bits does not change the addresses of a network. *)
  ipnet_trunc_contains (n : ipnet) (x : ip_addr) :
    ipnet_contains (ipnet_trunc n) x = ipnet_contains n x;
  ipnet_trunc_prefix_len (n : ipnet) : ipnet_prefix_len (ipnet_trunc n) = ipnet_prefix_len n;
  (** A network holds addresses of one family only. *)
  ipnet_one_family (n : ipnet) (x y : ip_addr) :
    ipnet_contains n x = true → ipnet_contains n y = true → is_ipv4 x = is_ipv4 y;
}.

(** ** A concrete [IpNet]: family, base value and prefix length *)

Inductive cidr : Type :=
| Cidr4 (base len : Z)
| Cidr6 (base len : Z).

#[global] Instance cidr_eq_dec : EqDecision cidr.
Proof. solve_decision. Defined.

Definition cidr_contains (n : cidr) (ip : ip_addr) : bool :=
  match n, ip with
  | Cidr4 b l, V4 a => Z.shiftr a (32 - l) =? Z.shiftr b (32 - l)
  | Cidr6 b l, V6 a => Z.shiftr a (128 - l) =? Z.shiftr b (128 - l)
  | _, _ => false
  end.

Definition cidr_from (ip : ip_addr) : cidr :=
  match ip with V4 a => Cidr4 a 32 | V6 a => Cidr6 a 128 end.

Definition cidr_trunc (n : cidr) : cidr :=
  match n with
  | Cidr4 b l => Cidr4 (Z.shiftl (Z.shiftr b (32 - l)) (32 - l)) l
  | Cidr6 b l => Cidr6 (Z.shiftl (Z.shiftr b (128 - l)) (128 - l)) l
  end.

Definition cidr_parse (s : list Z) : option cidr :=
  match split_once ch_slash s with
  | Some (a, l) =>
      ip ← parse_ip a; len ← parse_digits l;
      match ip with
      | V4 b => if len <=? 32 then Some (Cidr4 b len) else None
      | V6 b => if len <=? 128 then Some (Cidr6 b len) else None
      end
  | None => None
  end.

Definition cidr_prefix_len (n : cidr) : Z :=
  match n with Cidr4 _ l | Cidr6 _ l => l end.

Definition cidr_leb (x y : cidr) : bool :=
  match x, y with
  | Cidr4 a l, Cidr4 b m => (a <? b) || ((a =? b) && (l <=? m))
  | Cidr4 _ _, Cidr6 _ _ => true
  | Cidr6 _ _, Cidr4 _ _ => false
  | Cidr6 a l, Cidr6 b m => (a <? b) || ((a =? b) && (l <=? m))
  end.

#[global] Instance cidr_api : IpNetApi cidr := {|
  ipnet_eq_dec := _;
  ipnet_parse := cidr_parse;
  ipnet_from := cidr_from;
  ipnet_contains := cidr_contains;
  ipnet_prefix_len := cidr_prefix_len;
  ipnet_trunc := cidr_trunc;
  ipnet_leb := cidr_leb;
|}.

(** ** Lemmas *)

Example parse_show_examples :
  parse_ip (str "2001:db8::1") = Some (V6 (ipv6_new 8193 3512 0 0 0 0 0 1)) ∧
  parse_ip (str "::ffff:169.254.169.254") = Some (V6 (65535 * 2 ^ 32 + 2852039166)) ∧
  parse_ip (str "10.0.0.256") = None ∧
  parse_ip (str "1:2:3:4:5:6:7:8:9") = None ∧
  parse_ip (str "1::2::3") = None ∧
  parse_ip (str "::") = Some (V6 0) ∧
  show_ip (V6 (ipv6_new 8193 3512 0 0 1 0 0 1)) = str "2001:db8::1:0:0:1" ∧
  show_ip (V6 1) = str "::1" ∧
  show_ip (V4 2130706433) = str "127.0.0.1".
Proof. vm_compute. done. Qed.

Lemma ip_leb_total (x y : ip_addr) : ip_leb x y = true ∨ ip_leb y x = true.
Proof. destruct x, y; simpl; lia. Qed.

Lemma ip_leb_trans (x y z : ip_addr) :
  ip_leb x y = true → ip_leb y z = true → ip_leb x z = true.
Proof. destruct x, y, z; simpl; try done; lia. Qed.

Lemma ip_leb_antisym (x y : ip_addr) :
  ip_leb x y = true → ip_leb y x = true → x = y.
Proof. destruct x, y; simpl; try done; intros; f_equal; lia. Qed.

Lemma to_ipv4_mapped_Some (a v : Z) :
  to_ipv4_mapped a = Some v ↔ a = 65535 * 2 ^ 32 + v ∧ 0 ≤ v ≤ v4_max.
Proof.
  unfold to_ipv4_mapped. change v4_max with (Z.ones 32) at 1.
  rewrite Z.land_ones, Z.shiftr_div_pow2 by lia.
  destruct (a / 2 ^ 32 =? 65535) eqn:E; bool_to_prop.
  - split; [intros [= <-] | intros [H Hv]]; unfold v4_max in *.
    + pose proof (Z.div_mod a (2 ^ 32)). pose proof (Z.mod_pos_bound a (2 ^ 32)). lia.
    + f_equal. rewrite H, Z.add_comm, Z_mod_plus_full. apply Z.mod_small. lia.
  - split; [done|]. intros [-> Hv]. unfold v4_max in Hv. destruct E.
    rewrite Z.div_add_l by lia. rewrite Z.div_small by lia. lia.
Qed.

Lemma to_ipv4_mapped_mapped (v : Z) :
  0 ≤ v ≤ v4_max → to_ipv4_mapped (65535 * 2 ^ 32 + v) = Some v.
Proof. intros. by apply to_ipv4_mapped_Some. Qed.

#[global] Instance cidr_laws : IpNetLaws cidr.
Proof.
  split; simpl.
  - intros [a|a] [b|b]; simpl; rewrite ?Z.shiftr_0_r, ?Z.eqb_eq; naive_solver.
  - intros [b l|b l] [a|a]; simpl; try done.
    + f_equal. destruct (Z.le_gt_cases l 32).
      * rewrite Z.shiftr_shiftl_l by lia. by rewrite Z.sub_diag, Z.shiftl_0_r.
      * replace (32 - l) with (- (l - 32)) by lia.
        rewrite !Z.shiftr_opp_r, Z.shiftl_opp_r, Z.shiftr_shiftl_l, Z.sub_diag by lia.
        by rewrite Z.shiftl_0_r.
    + f_equal. destruct (Z.le_gt_cases l 128).
      * rewrite Z.shiftr_shiftl_l by lia. by rewrite Z.sub_diag, Z.shiftl_0_r.
      * replace (128 - l) with (- (l - 128)) by lia.
        rewrite !Z.shiftr_opp_r, Z.shiftl_opp_r, Z.shiftr_shiftl_l, Z.sub_diag by lia.
        by rewrite Z.shiftl_0_r.
  - by intros [b l|b l].
  - by intros [b l|b l] [x|x] [y|y].
Qed.
