(* ===== verification/Address.v ===== *)
(** * Address classification ([crates/sendbox-egress/src/address.rs])

    Which destinations are special (loopback, link-local, private, metadata,
    ...), and the canonical form of an address.  The main theorems relate the
    octet and segment tests of the code to numeric address ranges, and show that
    classification cannot be evaded by writing an IPv4 address as an
    IPv4-mapped IPv6 one. *)

From S2P Require Import Prelude RustStr Net.

(** ** Definitions *)

Inductive AddressClass : Type :=
| Unspecified
| CloudMetadata
| Loopback
| LinkLocal
| Multicast
| PrivateRfc1918
| UniqueLocalIpv6
| Global.

#[global] Instance AddressClass_eq_dec : EqDecision AddressClass.
Proof. solve_decision. Defined.

Definition is_restricted (c : AddressClass) : bool :=
  match c with Global => false | _ => true end.

Definition METADATA_V4_ADDRESSES : list Z :=
  [ipv4_new 169 254 169 254; ipv4_new 100 100 100 200].

Definition METADATA_V6_ADDRESSES : list Z :=
  [ipv6_new 64768 3778 0 0 0 0 0 596].

Definition is_rfc1918 (a : Z) : bool :=
  (v4_octet 0 a =? 10) ||
  ((v4_octet 0 a =? 172) && in_range 16 31 (v4_octet 1 a)) ||
  ((v4_octet 0 a =? 192) && (v4_octet 1 a =? 168)).

Definition is_link_local_v6 (a : Z) : bool :=
  Z.land (v6_segment 0 a) 65472 =? 65152.

Definition is_unique_local_v6 (a : Z) : bool :=
  Z.land (v6_segment 0 a) 65024 =? 64512.

Definition is_metadata_v6 (a : Z) : bool := bool_decide (a ∈ METADATA_V6_ADDRESSES).

Definition classify_v4 (a : Z) : AddressClass :=
  if v4_is_unspecified a then Unspecified
  else if bool_decide (a ∈ METADATA_V4_ADDRESSES) then CloudMetadata
  else if v4_is_loopback a then Loopback
  else if v4_is_link_local a then LinkLocal
  else if v4_is_multicast a then Multicast
  else if is_rfc1918 a then PrivateRfc1918
  else Global.

Definition classify_v6 (a : Z) : AddressClass :=
  if v6_is_unspecified a then Unspecified
  else match to_ipv4_mapped a with
       | Some v4 => classify_v4 v4
       | None =>
           if is_metadata_v6 a then CloudMetadata
           else if v6_is_loopback a then Loopback
           else if is_link_local_v6 a then LinkLocal
           else if v6_is_multicast a then Multicast
           else if is_unique_local_v6 a then UniqueLocalIpv6
           else Global
       end.

Definition classify (ip : ip_addr) : AddressClass :=
  match ip with V4 a => classify_v4 a | V6 a => classify_v6 a end.

Definition canonicalize (ip : ip_addr) : ip_addr :=
  match ip with
  | V6 a => match to_ipv4_mapped a with Some v => V4 v | None => V6 a end
  | v4 => v4
  end.

(** ** Specification: the address ranges of the registries *)

(** The special IPv4 ranges, as [first, last] of the dotted-quad block. *)
Definition v4_block (lo hi a : Z) : Prop := lo ≤ a ≤ hi.

Definition v4_range (c : AddressClass) (a : Z) : Prop :=
  match c with
  | Unspecified => a = 0
  | CloudMetadata => a = 2852039166 ∨ a = 1684301000
  | Loopback => v4_block 2130706432 2147483647 a            (* 127.0.0.0/8 *)
  | LinkLocal => v4_block 2851995648 2852061183 a           (* 169.254.0.0/16 *)
  | Multicast => v4_block 3758096384 4026531839 a           (* 224.0.0.0/4 *)
  | PrivateRfc1918 =>
      v4_block 167772160 184549375 a ∨                      (* 10.0.0.0/8 *)
      v4_block 2886729728 2887778303 a ∨                    (* 172.16.0.0/12 *)
      v4_block 3232235520 3232301055 a                      (* 192.168.0.0/16 *)
  | UniqueLocalIpv6 => False
  | Global => False
  end.

Definition v6_range (c : AddressClass) (a : Z) : Prop :=
  match c with
  | Unspecified => a = 0
  | CloudMetadata => a = ipv6_new 64768 3778 0 0 0 0 0 596  (* fd00:ec2::254 *)
  | Loopback => a = 1
  | LinkLocal => 65152 * 2 ^ 112 ≤ a < 65216 * 2 ^ 112      (* fe80::/10 *)
  | Multicast => 65280 * 2 ^ 112 ≤ a < 65536 * 2 ^ 112      (* ff00::/8 *)
  | PrivateRfc1918 => False
  | UniqueLocalIpv6 => 64512 * 2 ^ 112 ≤ a < 65024 * 2 ^ 112 (* fc00::/7 *)
  | Global => False
  end.

(** An address that only a network grant may unlock: it lies in one of the
    special ranges of its family, after IPv4-mapped addresses are read as
    IPv4. *)
Definition special (ip : ip_addr) : Prop :=
  match canonicalize ip with
  | V4 a => ∃ c, v4_range c a
  | V6 a => ∃ c, v6_range c a
  end.

(** ** Lemmas *)

Lemma v4_octet_div (i a : Z) : 0 ≤ i ≤ 3 → v4_octet i a = a / 2 ^ (8 * (3 - i)) mod 256.
Proof. intros. unfold v4_octet. by rewrite land_255, Z.shiftr_div_pow2 by lia. Qed.

Lemma v4_octet0 (a : Z) : 0 ≤ a ≤ v4_max → v4_octet 0 a = a / 16777216.
Proof.
  intros. unfold v4_max in *. rewrite v4_octet_div by lia.
  change (2 ^ (8 * (3 - 0))) with 16777216. apply Z.mod_small. split.
  - apply Z.div_pos; lia.
  - apply Z.div_lt_upper_bound; lia.
Qed.

Lemma v4_octet1 (a : Z) : v4_octet 1 a = a / 65536 mod 256.
Proof. rewrite v4_octet_div by lia. done. Qed.

Lemma v6_segment0 (a : Z) : 0 ≤ a ≤ v6_max → v6_segment 0 a = a / 2 ^ 112.
Proof.
  intros. unfold v6_segment, v6_max in *. change 65535 with (Z.ones 16).
  rewrite Z.land_ones, Z.shiftr_div_pow2 by lia.
  change (16 * (7 - 0)) with 112. apply Z.mod_small. split.
  - apply Z.div_pos; lia.
  - apply Z.div_lt_upper_bound; lia.
Qed.

(** Masking a 16-bit value with a run of top bits rounds it down to a multiple
    of the low block size. *)
Lemma land_high_mask (x k n : Z) :
  0 ≤ k → 0 ≤ n → 0 ≤ x < 2 ^ (k + n) →
  Z.land x (Z.shiftl (Z.ones n) k) = x / 2 ^ k * 2 ^ k.
Proof.
  intros Hk Hn Hx.
  transitivity (Z.shiftl (Z.land (Z.shiftr x k) (Z.ones n)) k).
  - apply Z.bits_inj'. intros i Hi. rewrite Z.land_spec, !Z.shiftl_spec by lia.
    destruct (Z.lt_ge_cases i k).
    + rewrite !(Z.testbit_neg_r _ (i - k)) by lia. by rewrite andb_false_r.
    + rewrite Z.land_spec, Z.shiftr_spec by lia. by rewrite Z.sub_add.
  - rewrite Z.land_ones, Z.shiftl_mul_pow2, Z.shiftr_div_pow2 by lia. f_equal.
    apply Z.mod_small. split; [apply Z.div_pos; lia|].
    apply Z.div_lt_upper_bound; [lia|]. rewrite <-Z.pow_add_r by lia. lia.
Qed.

(** A quotient lies in a block exactly when the dividend lies in the scaled
    block. *)
Lemma div_block (a m lo hi : Z) : 0 < m → lo ≤ a / m < hi ↔ lo * m ≤ a < hi * m.
Proof.
  intros Hm. pose proof (Z.mul_div_le a m Hm). pose proof (Z.mul_succ_div_gt a m Hm).
  split; intros [? ?]; split; [nia..| |].
  - apply Z.div_le_lower_bound; lia.
  - apply Z.div_lt_upper_bound; lia.
Qed.

Lemma v6_segment0_bound (a : Z) : 0 ≤ a ≤ v6_max → 0 ≤ a / 2 ^ 112 < 2 ^ 16.
Proof. intros Ha. apply div_block; unfold v6_max in Ha; lia. Qed.

Lemma link_local_v6_range (a : Z) :
  0 ≤ a ≤ v6_max → is_link_local_v6 a = true ↔ v6_range LinkLocal a.
Proof.
  intros Ha. unfold is_link_local_v6, v6_range. rewrite <-div_block by lia.
  rewrite Z.eqb_eq, v6_segment0 by done. pose proof (v6_segment0_bound a Ha).
  change 65472 with (Z.shiftl (Z.ones 10) 6). rewrite land_high_mask by lia.
  change (2 ^ 6) with 64. revert H. generalize (a / 2 ^ 112). intros x Hx.
  Z.to_euclidean_division_equations; lia.
Qed.

Lemma unique_local_v6_range (a : Z) :
  0 ≤ a ≤ v6_max → is_unique_local_v6 a = true ↔ v6_range UniqueLocalIpv6 a.
Proof.
  intros Ha. unfold is_unique_local_v6, v6_range. rewrite <-div_block by lia.
  rewrite Z.eqb_eq, v6_segment0 by done. pose proof (v6_segment0_bound a Ha).
  change (Z.land ?x 65024) with (Z.land x (Z.shiftl (Z.ones 7) 9)).
  rewrite land_high_mask by lia.
  change (2 ^ 9) with 512. revert H. generalize (a / 2 ^ 112). intros x Hx.
  Z.to_euclidean_division_equations; lia.
Qed.

Lemma multicast_v6_range (a : Z) :
  0 ≤ a ≤ v6_max → v6_is_multicast a = true ↔ v6_range Multicast a.
Proof.
  intros Ha. unfold v6_is_multicast, v6_range. rewrite <-div_block by lia.
  rewrite Z.eqb_eq, v6_segment0 by done. pose proof (v6_segment0_bound a Ha).
  rewrite Z.shiftr_div_pow2 by lia. change (2 ^ 8) with 256. revert H.
  generalize (a / 2 ^ 112). intros x Hx. Z.to_euclidean_division_equations; lia.
Qed.

Lemma loopback_v4_range (a : Z) :
  0 ≤ a ≤ v4_max → v4_is_loopback a = true ↔ v4_range Loopback a.
Proof.
  intros Ha. unfold v4_is_loopback, v4_range, v4_block. rewrite v4_octet0 by done. Z.to_euclidean_division_equations; lia.
Qed.

Lemma link_local_v4_range (a : Z) :
  0 ≤ a ≤ v4_max → v4_is_link_local a = true ↔ v4_range LinkLocal a.
Proof.
  intros Ha. unfold v4_is_link_local, v4_range, v4_block, v4_max in *.
  rewrite v4_octet0, v4_octet1 by done. Z.to_euclidean_division_equations; lia.
Qed.

Lemma multicast_v4_range (a : Z) :
  0 ≤ a ≤ v4_max → v4_is_multicast a = true ↔ v4_range Multicast a.
Proof.
  intros Ha. unfold v4_is_multicast, v4_range, v4_block, in_range.
  rewrite v4_octet0 by done. Z.to_euclidean_division_equations; lia.
Qed.

Lemma rfc1918_range (a : Z) :
  0 ≤ a ≤ v4_max → is_rfc1918 a = true ↔ v4_range PrivateRfc1918 a.
Proof.
  intros Ha. unfold is_rfc1918, v4_range, v4_block, in_range, v4_max in *.
  rewrite v4_octet0, v4_octet1 by done. Z.to_euclidean_division_equations; lia.
Qed.

Lemma metadata_v4_range (a : Z) :
  bool_decide (a ∈ METADATA_V4_ADDRESSES) = true ↔ v4_range CloudMetadata a.
Proof.
  rewrite bool_decide_eq_true. change METADATA_V4_ADDRESSES with [2852039166; 1684301000].
  unfold v4_range. set_solver.
Qed.

Lemma metadata_v6_range (a : Z) : is_metadata_v6 a = true ↔ v6_range CloudMetadata a.
Proof.
  unfold is_metadata_v6, METADATA_V6_ADDRESSES, v6_range.
  rewrite bool_decide_eq_true. set_solver.
Qed.

Lemma special_v4 (a : Z) :
  0 ≤ a ≤ v4_max → is_restricted (classify_v4 a) = true ↔ ∃ c, v4_range c a.
Proof.
  intros Ha. unfold classify_v4, v4_is_unspecified.
  destruct (a =? 0) eqn:E; [split; [|done]; exists Unspecified; simpl; lia|].
  destruct (bool_decide _) eqn:E1; [apply metadata_v4_range in E1; by split; eauto|].
  destruct (v4_is_loopback a) eqn:E2; [apply loopback_v4_range in E2; [by split; eauto|done..]|].
  destruct (v4_is_link_local a) eqn:E3; [apply link_local_v4_range in E3; [by split; eauto|done..]|].
  destruct (v4_is_multicast a) eqn:E4; [apply multicast_v4_range in E4; [by split; eauto|done..]|].
  destruct (is_rfc1918 a) eqn:E5; [apply rfc1918_range in E5; [by split; eauto|done..]|].
  split; [done|]. intros [c Hc]. destruct c.
  - simpl in Hc. lia.
  - apply metadata_v4_range in Hc. congruence.
  - apply loopback_v4_range in Hc; congruence.
  - apply link_local_v4_range in Hc; congruence.
  - apply multicast_v4_range in Hc; congruence.
  - apply rfc1918_range in Hc; congruence.
  - done.
  - done.
Qed.

Lemma special_v6 (a : Z) :
  0 ≤ a ≤ v6_max → to_ipv4_mapped a = None →
  is_restricted (classify_v6 a) = true ↔ ∃ c, v6_range c a.
Proof.
  intros Ha Hm. unfold classify_v6, v6_is_unspecified, v6_is_loopback. rewrite Hm.
  destruct (a =? 0) eqn:E; [split; [|done]; exists Unspecified; simpl; lia|].
  destruct (is_metadata_v6 a) eqn:E1; [apply metadata_v6_range in E1; by split; eauto|].
  destruct (a =? 1) eqn:E2; [split; [|done]; exists Loopback; simpl; lia|].
  destruct (is_link_local_v6 a) eqn:E3; [apply link_local_v6_range in E3; [by split; eauto|done..]|].
  destruct (v6_is_multicast a) eqn:E4; [apply multicast_v6_range in E4; [by split; eauto|done..]|].
  destruct (is_unique_local_v6 a) eqn:E5;
    [apply unique_local_v6_range in E5; [by split; eauto|done..]|].
  split; [done|]. intros [c Hc]. destruct c.
  - simpl in Hc. lia.
  - apply metadata_v6_range in Hc. congruence.
  - simpl in Hc. lia.
  - apply link_local_v6_range in Hc; congruence.
  - apply multicast_v6_range in Hc; congruence.
  - done.
  - apply unique_local_v6_range in Hc; congruence.
  - done.
Qed.

Lemma canonicalize_wf (ip : ip_addr) : ip_wf ip → ip_wf (canonicalize ip).
Proof.
  destruct ip as [a|a]; cbn; [done|]. destruct (to_ipv4_mapped a) eqn:E; [|done].
  by apply to_ipv4_mapped_Some in E as [_ ?].
Qed.

Lemma canonicalize_canonicalize (ip : ip_addr) :
  canonicalize (canonicalize ip) = canonicalize ip.
Proof.
  destruct ip as [a|a]; [done|]. cbn [canonicalize].
  destruct (to_ipv4_mapped a) eqn:E; cbn [canonicalize]; [done|]. by rewrite E.
Qed.

Lemma classify_canonicalize (ip : ip_addr) : classify (canonicalize ip) = classify ip.
Proof.
  destruct ip as [a|a]; [done|]. cbn [canonicalize].
  destruct (to_ipv4_mapped a) as [v|] eqn:E; [|done]. cbn [classify].
  unfold classify_v6. rewrite E. unfold v6_is_unspecified.
  apply to_ipv4_mapped_Some in E. destruct (a =? 0) eqn:E0; [lia|done].
Qed.

#[export] Hint Resolve canonicalize_wf : sendbox.
#[export] Hint Rewrite canonicalize_canonicalize classify_canonicalize : sendbox.

Lemma restricted_special (ip : ip_addr) :
  ip_wf ip → is_restricted (classify ip) = true ↔ special ip.
Proof.
  intros Hwf. unfold special. rewrite <-classify_canonicalize.
  pose proof (canonicalize_wf ip Hwf) as Hc.
  pose proof (canonicalize_canonicalize ip) as Hcc.
  destruct (canonicalize ip) as [a|a]; [by apply special_v4|].
  apply special_v6; [done|]. cbn [canonicalize] in Hcc. by destruct (to_ipv4_mapped a).
Qed.

(** ** Properties *)

(** [classify] restricts exactly the special ranges.  For every address of
    either family, the class is restricted if and only if the address, with
    IPv4-mapped IPv6 addresses read as IPv4, lies in one of the registered
    blocks (unspecified, metadata, loopback, link-local, multicast, RFC 1918,
    unique-local). *)
Theorem classify_restricts_special_ranges (ip : ip_addr) :
  ip_wf ip → is_restricted (classify ip) = true ↔ special ip.
Proof. apply restricted_special. Qed.

Lemma classify_restricts_special_ranges_witness :
  special (V6 (65535 * 2 ^ 32 + ipv4_new 169 254 169 254)).
Proof.
  apply (classify_restricts_special_ranges
           (V6 (65535 * 2 ^ 32 + ipv4_new 169 254 169 254))).
  - vm_compute. split; discriminate.
  - vm_compute. reflexivity.
Defined.

(** Writing an IPv4 address as IPv4-mapped IPv6 changes neither its class
    nor its canonical form, and the canonical form is stable. *)
Theorem mapped_encoding_is_transparent (v : Z) :
  0 ≤ v ≤ v4_max →
  canonicalize (V6 (65535 * 2 ^ 32 + v)) = V4 v ∧
  canonicalize (canonicalize (V6 (65535 * 2 ^ 32 + v))) = V4 v ∧
  classify (V6 (65535 * 2 ^ 32 + v)) = classify (V4 v).
Proof.
  intros Hv. rewrite canonicalize_canonicalize.
  assert (canonicalize (V6 (65535 * 2 ^ 32 + v)) = V4 v) as Hc.
  { unfold canonicalize. by rewrite to_ipv4_mapped_mapped. }
  rewrite <-(classify_canonicalize (V6 _)), Hc. done.
Qed.

Lemma mapped_encoding_is_transparent_witness :
  classify (V6 (65535 * 2 ^ 32 + 2130706433)) = Loopback.
Proof.
  destruct (mapped_encoding_is_transparent 2130706433) as (_ & _ & ->).
  - vm_compute. split; discriminate.
  - vm_compute. reflexivity.
Defined.

(** The comment in [classify_v6] speaks of "IPv4-mapped/compatible"
    addresses, but an IPv4-compatible literal ([::a.b.c.d]) is not read as
    IPv4: the compatible form of the metadata service is classified
    [Global]. *)
Theorem ipv4_compatible_is_not_folded :
  classify (V4 (ipv4_new 169 254 169 254)) = CloudMetadata ∧
  classify (V6 (ipv4_new 169 254 169 254)) = Global ∧
  classify (V4 (ipv4_new 127 0 0 1)) = Loopback ∧
  classify (V6 (ipv4_new 127 0 0 1)) = Global.
Proof. vm_compute. done. Qed.
