(* ===== verification/Domain.v ===== *)
(** * Domain names ([crates/sendbox-egress/src/domain.rs])

    Normalization of host names and of the exact and wildcard patterns of a
    network policy.  The main theorems characterize the image of
    [normalize_domain] and show that the byte-suffix test of [pattern_matches]
    is the subdomain relation on labels. *)

From S2P Require Import Prelude RustStr.

(** ** Definitions *)

Definition MAX_DOMAIN_OCTETS : nat := 253.
Definition MAX_LABEL_OCTETS : nat := 63.

Inductive DomainError : Type :=
| DomainEmpty
| DomainTooLong
| InvalidLabel (label : list Z)
| InvalidCharacter (label : list Z).

#[global] Instance DomainError_eq_dec : EqDecision DomainError.
Proof. solve_decision. Defined.

Definition label_byte (b : Z) : bool := is_ascii_alphanumeric b || (b =? ch_hyphen).

(** The body of the loop over [lower.split('.')]. *)
Definition check_label (label : list Z) : result DomainError unit :=
  if (length label =? 0)%nat || (MAX_LABEL_OCTETS <? length label)%nat
  then Err (InvalidLabel label)
  else
    let valid :=
      forallb label_byte label &&
      negb (bool_decide (head label = Some ch_hyphen)) &&
      negb (bool_decide (last label = Some ch_hyphen)) in
    if valid then Ok tt else Err (InvalidCharacter label).

Fixpoint check_labels (labels : list (list Z)) : result DomainError unit :=
  match labels with
  | [] => Ok tt
  | l :: r => check? check_label l in check_labels r
  end.

Definition normalize_domain (raw : list Z) : result DomainError (list Z) :=
  let trimmed := trim raw in
  let trimmed := default trimmed (strip_suffix [ch_dot] trimmed) in
  if (length trimmed =? 0)%nat then Err DomainEmpty
  else
    let lower := to_ascii_lowercase trimmed in
    if (MAX_DOMAIN_OCTETS <? length lower)%nat then Err DomainTooLong
    else check? check_labels (split_on ch_dot lower) in Ok lower.

Definition normalize_pattern (raw : list Z) : result DomainError (list Z) :=
  let trimmed := trim raw in
  match strip_prefix [ch_star; ch_dot] trimmed with
  | Some rest =>
      let? normalized_rest := normalize_domain rest in
      let pattern := [ch_star; ch_dot] ++ normalized_rest in
      if (MAX_DOMAIN_OCTETS <? length pattern)%nat then Err DomainTooLong
      else Ok pattern
  | None => normalize_domain trimmed
  end.

Definition pattern_matches (pattern candidate : list Z) : bool :=
  match strip_prefix [ch_star; ch_dot] pattern with
  | Some suffix =>
      let dotted_suffix := ch_dot :: suffix in
      (length dotted_suffix <? length candidate)%nat && ends_with candidate dotted_suffix
  | None => bool_decide (pattern = candidate)
  end.

Definition leftmost_label (normalized : list Z) : list Z :=
  default [] (head (split_on ch_dot normalized)).

(** ** Specification *)

Definition labels (d : list Z) : list (list Z) := split_on ch_dot d.

(** A lower-case letter, a digit or a hyphen. *)
Definition canonical_byte (b : Z) : bool :=
  is_ascii_lowercase b || is_ascii_digit b || (b =? ch_hyphen).

Definition wf_label (l : list Z) : Prop :=
  (1 ≤ length l ≤ MAX_LABEL_OCTETS)%nat ∧
  forallb canonical_byte l = true ∧
  head l ≠ Some ch_hyphen ∧ last l ≠ Some ch_hyphen.

(** The canonical names: at most 253 bytes, every label well formed. *)
Definition wf_domain (d : list Z) : Prop :=
  (length d ≤ MAX_DOMAIN_OCTETS)%nat ∧ Forall wf_label (labels d).

(** Strict subdomain, on labels. *)
Definition subdomain (child parent : list Z) : Prop :=
  ∃ pre, pre ≠ [] ∧ labels child = pre ++ labels parent.

(** ** Lemmas *)

Lemma check_label_ok (l : list Z) :
  check_label l = Ok tt ↔
  (1 ≤ length l ≤ MAX_LABEL_OCTETS)%nat ∧ forallb label_byte l = true ∧
  head l ≠ Some ch_hyphen ∧ last l ≠ Some ch_hyphen.
Proof.
  unfold check_label. destruct (_ || _) eqn:E.
  - apply orb_true_iff in E. split; [done|]. intros [? _].
    destruct E as [E|E]; [apply Nat.eqb_eq in E | apply Nat.ltb_lt in E]; lia.
  - apply orb_false_iff in E as [E1 E2]. apply Nat.eqb_neq in E1. apply Nat.ltb_ge in E2.
    destruct (forallb label_byte l); simpl; [|naive_solver].
    repeat case_bool_decide; simpl; naive_solver lia.
Qed.

Lemma check_labels_ok (ls : list (list Z)) :
  check_labels ls = Ok tt ↔ Forall (λ l, check_label l = Ok tt) ls.
Proof.
  induction ls as [|l ls IH]; simpl; [by split|].
  rewrite Forall_cons, <-IH. destruct (check_label l) as [[]|]; naive_solver.
Qed.

(** A label that has been lower-cased and checked is well formed. *)
Lemma lower_label_byte (b : Z) :
  to_ascii_lower b = b → label_byte b = true ↔ canonical_byte b = true.
Proof.
  unfold to_ascii_lower, label_byte, canonical_byte, is_ascii_alphanumeric,
    is_ascii_alphabetic. intros H.
  destruct (is_ascii_uppercase b) eqn:E; [lia|]. done.
Qed.

Lemma canonical_byte_lower (b : Z) : canonical_byte b = true → to_ascii_lower b = b.
Proof.
  unfold canonical_byte, to_ascii_lower, is_ascii_uppercase, is_ascii_lowercase,
    is_ascii_digit, ch_hyphen.
  destruct (in_range 65 90 b) eqn:E; [|done]. apply in_range_true in E.
  rewrite !orb_true_iff, !in_range_true. lia.
Qed.

Lemma canonical_byte_plain (b : Z) : canonical_byte b = true → plain_byte b = true.
Proof.
  unfold canonical_byte, plain_byte, is_ascii, ws1, is_ascii_lowercase, is_ascii_digit,
    ch_hyphen.
  rewrite !orb_true_iff, andb_true_iff, negb_true_iff, orb_false_iff, !in_range_true,
    in_range_false, Z.eqb_eq, Z.eqb_neq. lia.
Qed.

Lemma join_elem (c b : Z) (ls : list (list Z)) :
  b ∈ join_with c ls → b = c ∨ ∃ l, l ∈ ls ∧ b ∈ l.
Proof.
  induction ls as [|l [|l' ls] IH]; simpl; [set_solver..|].
  rewrite elem_of_app, elem_of_cons. intros [?|[?|Hb]]; [set_solver..|].
  apply IH in Hb. set_solver.
Qed.

Lemma forallb_elem {A : Type} (f : A → bool) (l : list A) :
  forallb f l = true ↔ ∀ x, x ∈ l → f x = true.
Proof. rewrite forallb_forall. by setoid_rewrite list_elem_of_In. Qed.

(** Every byte of a well-formed name is a canonical byte or a dot. *)
Lemma wf_domain_bytes (d : list Z) (b : Z) :
  wf_domain d → b ∈ d → canonical_byte b = true ∨ b = ch_dot.
Proof.
  intros [_ Hl] Hb. rewrite <-(join_split ch_dot d) in Hb.
  apply join_elem in Hb as [->|(l & Hin & Hb)]; [by right|left].
  apply Forall_forall with (x := l) in Hl; [|done].
  destruct Hl as (_ & Hc & _). by apply forallb_elem with (x := b) in Hc.
Qed.

Lemma wf_domain_nonempty (d : list Z) : wf_domain d → d ≠ [].
Proof.
  intros [_ H] ->. unfold labels in H. simpl in H. apply Forall_cons in H as [[? _] _].
  simpl in *. lia.
Qed.

Lemma wf_domain_lower (d : list Z) : wf_domain d → to_ascii_lowercase d = d.
Proof.
  intros Hd. unfold to_ascii_lowercase. rewrite <-(list_fmap_id d) at 2.
  apply list_fmap_ext. intros i b Hi%list_elem_of_lookup_2.
  destruct (wf_domain_bytes d b Hd Hi) as [?| ->]; [by apply canonical_byte_lower | done].
Qed.

Lemma wf_domain_plain (d : list Z) : wf_domain d → forallb plain_byte d = true.
Proof.
  intros Hd. apply forallb_elem. intros b Hb.
  destruct (wf_domain_bytes d b Hd Hb) as [?| ->]; [by apply canonical_byte_plain | done].
Qed.

(** The last label is not empty, so a well-formed name does not end in a dot. *)
Lemma labels_snoc (r : list Z) : labels (r ++ [ch_dot]) = labels r ++ [[]].
Proof.
  unfold labels. induction r as [|b r IH]; [done|]. simpl. rewrite IH.
  destruct (b =? ch_dot); [done|]. by destruct (split_on_cons ch_dot r) as (? & ? & ->).
Qed.

Lemma wf_domain_no_root_dot (d : list Z) : wf_domain d → strip_suffix [ch_dot] d = None.
Proof.
  intros [_ Hd]. destruct (strip_suffix [ch_dot] d) as [r|] eqn:E; [|done].
  apply strip_suffix_Some in E. subst. rewrite labels_snoc in Hd.
  apply Forall_app in Hd as [_ Hd]. apply Forall_cons in Hd as [[? _] _]. simpl in *. lia.
Qed.

Lemma wf_label_check (l : list Z) :
  to_ascii_lowercase l = l → check_label l = Ok tt ↔ wf_label l.
Proof.
  intros Hl. rewrite check_label_ok. unfold wf_label.
  assert (forallb label_byte l = true ↔ forallb canonical_byte l = true) as ->; [|done].
  rewrite !forallb_elem. split; intros H b Hb; specialize (H b Hb);
    (apply lower_label_byte; [|done]); apply list_elem_of_lookup in Hb as [i Hi];
    assert (to_ascii_lowercase l !! i = Some b) as Hi' by (by rewrite Hl);
    unfold to_ascii_lowercase in Hi'; rewrite list_lookup_fmap, Hi in Hi';
    simpl in Hi'; congruence.
Qed.

Lemma labels_lower (d : list Z) :
  labels (to_ascii_lowercase d) = to_ascii_lowercase <$> labels d.
Proof.
  unfold labels. induction d as [|b d IH]; [done|]. simpl.
  rewrite IH. assert ((to_ascii_lower b =? ch_dot) = (b =? ch_dot)) as ->.
  { unfold to_ascii_lower, is_ascii_uppercase, ch_dot.
    destruct (in_range 65 90 b) eqn:E; [|done]. apply in_range_true in E.
    destruct (b =? 46) eqn:?, (b + 32 =? 46) eqn:?; bool_to_prop; lia. }
  destruct (b =? ch_dot); [done|]. by destruct (split_on ch_dot d).
Qed.

Lemma check_labels_wf (d : list Z) :
  to_ascii_lowercase d = d → check_labels (labels d) = Ok tt ↔ Forall wf_label (labels d).
Proof.
  intros Hd. rewrite check_labels_ok.
  assert (Forall (λ l, to_ascii_lowercase l = l) (labels d)) as Hall.
  { rewrite <-Hd, labels_lower. apply Forall_fmap, Forall_true.
    intros l. apply to_ascii_lowercase_idem. }
  split; intros H; apply Forall_forall; intros l Hl.
  - apply wf_label_check; [by eapply Forall_forall in Hall|by eapply Forall_forall in H].
  - apply wf_label_check; [by eapply Forall_forall in Hall|by eapply Forall_forall in H].
Qed.

Lemma normalize_domain_wf (raw d : list Z) : normalize_domain raw = Ok d → wf_domain d.
Proof.
  unfold normalize_domain. destruct (_ =? 0)%nat; [done|].
  set (t := default _ _). destruct (_ <? _)%nat eqn:E; [done|].
  destruct (check_labels _) as [[]|] eqn:Hc; [|done]. intros [= <-].
  apply Nat.ltb_ge in E. split; [done|].
  apply check_labels_wf; [apply to_ascii_lowercase_idem | done].
Qed.

Lemma normalize_domain_fix (d : list Z) : wf_domain d → normalize_domain d = Ok d.
Proof.
  intros Hd. unfold normalize_domain.
  rewrite trim_plain by (by apply wf_domain_plain).
  rewrite wf_domain_no_root_dot by done. simpl.
  rewrite wf_domain_lower by done.
  pose proof (wf_domain_nonempty d Hd) as Hne.
  destruct (length d =? 0)%nat eqn:E; [apply Nat.eqb_eq, length_zero_iff_nil in E; done|].
  destruct (MAX_DOMAIN_OCTETS <? length d)%nat eqn:E2.
  { apply Nat.ltb_lt in E2. destruct Hd. lia. }
  assert (check_labels (split_on ch_dot d) = Ok tt) as ->; [|done].
  apply (check_labels_wf d); [by apply wf_domain_lower | by destruct Hd].
Qed.

#[export] Hint Resolve normalize_domain_wf normalize_domain_fix : sendbox.

(** *** Splitting and concatenation *)

Lemma labels_app (r s : list Z) : labels (r ++ ch_dot :: s) = labels r ++ labels s.
Proof.
  unfold labels. induction r as [|b r IH]; [done|]. simpl. rewrite IH.
  destruct (b =? ch_dot); [done|].
  destruct (split_on_cons ch_dot r) as (l & ls & ->). done.
Qed.

Lemma join_labels_app (xs ys : list (list Z)) :
  xs ≠ [] → ys ≠ [] →
  join_with ch_dot (xs ++ ys) = join_with ch_dot xs ++ ch_dot :: join_with ch_dot ys.
Proof.
  intros Hx Hy. induction xs as [|x xs IH]; [done|]. destruct xs as [|x' xs]; simpl.
  - by destruct ys.
  - simpl in IH. rewrite IH by done. by rewrite <-app_assoc.
Qed.

Lemma labels_ne (d : list Z) : labels d ≠ [].
Proof. unfold labels. destruct (split_on_cons ch_dot d) as (? & ? & ->). done. Qed.

Lemma wildcard_matches_iff (suffix candidate : list Z) :
  Forall wf_label (labels candidate) →
  pattern_matches ([ch_star; ch_dot] ++ suffix) candidate = true ↔
  subdomain candidate suffix.
Proof.
  intros Hc. unfold pattern_matches.
  replace (strip_prefix _ _) with (Some suffix) by (symmetry; by apply strip_prefix_Some).
  rewrite andb_true_iff, Nat.ltb_lt, ends_with_true. split.
  - intros [Hlen [r ->]]. exists (labels r). split; [apply labels_ne|]. apply labels_app.
  - intros (pre & Hpre & E).
    assert (candidate = join_with ch_dot pre ++ ch_dot :: suffix) as Hcand.
    { rewrite <-(join_split ch_dot candidate), <-(join_split ch_dot suffix) at 1.
      change (split_on ch_dot candidate) with (labels candidate).
      rewrite E. by apply join_labels_app, labels_ne. }
    split; [|eauto]. rewrite Hcand, length_app.
    assert (join_with ch_dot pre ≠ []) as Hne; [|destruct (join_with _ _); simpl in *; [done|lia]].
    intros H0. rewrite E in Hc. destruct pre as [|l pre]; [done|].
    apply Forall_cons in Hc as [[Hl _] _].
    destruct pre as [|l' pre]; simpl in H0; [by subst; simpl in Hl; lia|].
    by destruct l.
Qed.

Lemma wf_domain_not_wildcard (d : list Z) :
  wf_domain d → strip_prefix [ch_star; ch_dot] d = None.
Proof.
  intros Hd. destruct (strip_prefix _ d) as [r|] eqn:E; [|done].
  apply strip_prefix_Some in E. subst.
  destruct (wf_domain_bytes _ ch_star Hd) as [H|H]; [set_solver | done..].
Qed.

Lemma normalize_pattern_cases (raw p : list Z) :
  normalize_pattern raw = Ok p →
  wf_domain p ∨
  ∃ base, p = [ch_star; ch_dot] ++ base ∧ wf_domain base ∧
          (length p ≤ MAX_DOMAIN_OCTETS)%nat.
Proof.
  unfold normalize_pattern. destruct (strip_prefix _ _) as [rest|].
  - destruct (normalize_domain rest) as [base|] eqn:E; [|done].
    destruct (_ <? _)%nat eqn:El; [done|]. intros [= <-]. apply Nat.ltb_ge in El.
    right. eauto with sendbox.
  - eauto with sendbox.
Qed.

Lemma exact_matches_iff (p candidate : list Z) :
  wf_domain p → pattern_matches p candidate = true ↔ candidate = p.
Proof.
  intros Hp. unfold pattern_matches. rewrite wf_domain_not_wildcard by done.
  rewrite bool_decide_eq_true. naive_solver.
Qed.

(** ** Properties *)

(** the names [normalize_domain] can return are exactly the canonical names
    (at most 253 bytes, every label of 1 to 63 lower-case letters, digits and
    hyphens with no hyphen at either end), and it returns each of them
    unchanged; in particular normalization is idempotent. *)
Theorem normalize_domain_image (d : list Z) :
  (∃ raw, normalize_domain raw = Ok d) ↔ wf_domain d ∧ normalize_domain d = Ok d.
Proof.
  split; [intros [raw H] | intros [_ H]; eauto].
  eauto using normalize_domain_wf, normalize_domain_fix.
Qed.

(** a normalized pattern matches a normalized host name exactly when it is
    that name, or when it is [*.base] and the name is a strict subdomain of
    [base] label by label; neither the base itself nor a name that merely ends
    in the same bytes matches. *)
Theorem pattern_matches_is_subdomain (raw_pattern raw_host pattern host : list Z)
    (Hp : normalize_pattern raw_pattern = Ok pattern)
    (Hh : normalize_domain raw_host = Ok host) :
  (wf_domain pattern ∧ (pattern_matches pattern host = true ↔ host = pattern)) ∨
  (∃ base, pattern = [ch_star; ch_dot] ++ base ∧ wf_domain base ∧
           (pattern_matches pattern host = true ↔ subdomain host base)).
Proof.
  apply normalize_domain_wf in Hh as [_ Hh].
  destruct (normalize_pattern_cases _ _ Hp) as [Hw | (base & -> & Hb & _)].
  - left. eauto using exact_matches_iff.
  - right. eauto using wildcard_matches_iff.
Qed.

Lemma pattern_matches_is_subdomain_witness :
  (wf_domain (str "*.github.com") ∧
     (pattern_matches (str "*.github.com") (str "api.github.com") = true ↔
      str "api.github.com" = str "*.github.com")) ∨
  (∃ base, str "*.github.com" = [ch_star; ch_dot] ++ base ∧ wf_domain base ∧
     (pattern_matches (str "*.github.com") (str "api.github.com") = true ↔
      subdomain (str "api.github.com") base)).
Proof.
  apply (pattern_matches_is_subdomain (str " *.GitHub.com. ") (str "API.github.com."));
    vm_compute; reflexivity.
Defined.
