(* ===== verification/GithubMeta.v ===== *)
(** * GitHub Meta grants ([crates/sendbox-egress/src/github_meta.rs])

    The validated, expiring destination scope read from GitHub's Meta API: the
    parser of the document, the revisioned state and its refresh.  [serde_json]
    and [sha2] are parameters: the parser of JSON text yields a value of type
    [json], which mirrors [serde_json::Value], and the digest is a function on
    byte strings.  The main theorems show that the scope holds exactly the
    destinations the document publishes, and that a view never outlives 24
    hours and never shows two scopes under one revision. *)

From S2P Require Import Prelude RustStr Net Domain.

(** ** JSON values *)

Inductive json : Type :=
| JNull
| JBool (b : bool)
| JNumber (raw : list Z)
| JString (s : list Z)
| JArray (l : list json)
| JObject (l : list (list Z * json)).

Definition as_object (v : json) : option (list (list Z * json)) :=
  match v with JObject l => Some l | _ => None end.
Definition as_array (v : json) : option (list json) :=
  match v with JArray l => Some l | _ => None end.
Definition as_str (v : json) : option (list Z) :=
  match v with JString s => Some s | _ => None end.
Definition is_boolean (v : json) : bool :=
  match v with JBool _ => true | _ => false end.
Definition is_string (v : json) : bool :=
  match v with JString _ => true | _ => false end.

Fixpoint json_get (o : list (list Z * json)) (k : list Z) : option json :=
  match o with
  | [] => None
  | (k', v) :: r => if decide (k' = k) then Some v else json_get r k
  end.

(** ** Constants *)

Definition MAX_META_BYTES : Z := 2 * 1024 * 1024.
Definition META_REFRESH_INTERVAL : Z := from_secs (60 * 60).
Definition META_MAX_STALENESS : Z := from_secs (24 * 60 * 60).
Definition META_MAX_STALENESS_SECS : Z := 24 * 60 * 60.
Definition MAX_NETWORK_ENTRIES : Z := 16384.
Definition MAX_DOMAIN_ENTRIES : Z := 4096.

Definition NETWORK_FIELDS : list (list Z) :=
  str <$> ["hooks"; "web"; "shared_ingress"; "api"; "git";
           "github_enterprise_importer"; "packages"; "pages"; "importer"; "actions";
           "actions_macos"; "codespaces"; "dependabot"; "copilot"]%string.
Definition DOMAIN_FIELDS : list (list Z) :=
  str <$> ["website"; "codespaces"; "copilot"; "packages"; "storage"; "actions"]%string.
Definition IGNORED_FIELDS : list (list Z) :=
  str <$> ["domains"; "verifiable_password_authentication"; "ssh_keys";
           "ssh_key_fingerprints"; "commit_signing_keys"]%string.

Inductive meta_document_error : Type :=
| ExpectedJson
| ExpectedObject
| MissingAuthentication
| UnrecognizedTopLevel
| MissingCoreNetwork
| MissingDomains
| UnrecognizedDomainField
| ExpectedNestedObject
| EmptyScope
| ExpectedArray
| ExpectedStrings.

Inductive GitHubMetaError : Type :=
| MetaLimitExceeded
| InvalidDocument (what : meta_document_error)
| InvalidNetwork
| InvalidDomain
| UnexpectedNotModified
| MetaClock
| HttpStatus (code : Z)
| MetaTimeout
| MetaPolicyDenied
| MetaResolution
| MetaTransport (what : list Z)
| TlsRoots
| InvalidResponse
| Publication
| RefreshInProgress.

#[global] Instance meta_document_error_eq_dec : EqDecision meta_document_error.
Proof. solve_decision. Defined.
#[global] Instance GitHubMetaError_eq_dec : EqDecision GitHubMetaError.
Proof. solve_decision. Defined.

Definition valid_etag (etag : list Z) : bool :=
  let opaque := default etag (strip_prefix (str "W/") etag) in
  (length etag <=? 512)%nat &&
  match strip_prefix [ch_dquote] opaque with
  | Some value =>
      match strip_suffix [ch_dquote] value with
      | Some value => forallb (λ b, (b =? 33) || in_range 35 126 b) value
      | None => false
      end
  | None => false
  end.

Inductive GitHubMetaResponse : Type :=
| Modified (body : list Z) (etag : option (list Z))
| NotModified.

Inductive GitHubMetaHealth : Type :=
| Pending | Fresh | Degraded | Unavailable | Expired.

Section Meta.
Context {ipnet : Type} `{N : IpNetApi ipnet}.

(** [serde_json::from_slice::<Value>] and [Sha256::digest] in hexadecimal. *)
Variable from_slice : list Z → option json.
Variable sha256_hex : list Z → list Z.

Record GitHubMetaScope : Type := {
  scope_domains : list (list Z);
  scope_networks : list ipnet;
  scope_sha256 : list Z;
}.

Definition strings (value : json) : result GitHubMetaError (list (list Z)) :=
  let? values := ok_or (as_array value) (InvalidDocument ExpectedArray) in
  if MAX_NETWORK_ENTRIES <? Z.of_nat (length values) then Err MetaLimitExceeded
  else collect (λ v, ok_or (as_str v) (InvalidDocument ExpectedStrings)) values.

Definition parse_meta_network (literal : list Z) : result GitHubMetaError ipnet :=
  match ipnet_parse literal with
  | Some n => Ok n
  | None => ok_or (ipnet_from <$> parse_ip literal) InvalidNetwork
  end.

(** The body of [for literal in strings(value)?]; the accumulator is
    [(networks, network_count)]. *)
Fixpoint add_networks (literals : list (list Z)) (acc : list ipnet * Z)
  : result GitHubMetaError (list ipnet * Z) :=
  match literals with
  | [] => Ok acc
  | literal :: r =>
      let network_count := acc.2 + 1 in
      if MAX_NETWORK_ENTRIES <? network_count then Err MetaLimitExceeded
      else
        let? network := parse_meta_network literal in
        if ipnet_prefix_len network =? 0 then Err InvalidNetwork
        else add_networks r
               (btree_insert ipnet_leb (ipnet_trunc network) acc.1, network_count)
  end.

(** [for (field, value) in object]. *)
Fixpoint scan_networks (object : list (list Z * json)) (acc : list ipnet * Z)
  : result GitHubMetaError (list ipnet * Z) :=
  match object with
  | [] => Ok acc
  | (field, value) :: r =>
      if decide (field ∈ NETWORK_FIELDS) then
        let? literals := strings value in
        let? acc := add_networks literals acc in
        scan_networks r acc
      else if decide (field ∈ IGNORED_FIELDS) then scan_networks r acc
      else Err (InvalidDocument UnrecognizedTopLevel)
  end.

(** The closure [add_domains], over the strings of its argument. *)
Fixpoint add_domain_names (names : list (list Z)) (acc : list (list Z) * Z)
  : result GitHubMetaError (list (list Z) * Z) :=
  match names with
  | [] => Ok acc
  | name :: r =>
      let domain_count := acc.2 + 1 in
      if MAX_DOMAIN_ENTRIES <? domain_count then Err MetaLimitExceeded
      else
        let? pattern := map_err (λ _, InvalidDomain) (normalize_pattern name) in
        match parse_ip pattern with
        | Some _ => Err InvalidDomain
        | None => add_domain_names r (btree_insert bytes_leb pattern acc.1, domain_count)
        end
  end.

Definition add_domains (value : json) (acc : list (list Z) * Z)
  : result GitHubMetaError (list (list Z) * Z) :=
  let? names := strings value in add_domain_names names acc.

(** [for (key, value) in nested]. *)
Fixpoint scan_nested (field : list Z) (nested : list (list Z * json))
    (acc : list (list Z) * Z) : result GitHubMetaError (list (list Z) * Z) :=
  match nested with
  | [] => Ok acc
  | (key, value) :: r =>
      if (bool_decide (field = str "actions_inbound") &&
          (bool_decide (key = str "full_domains") ||
           bool_decide (key = str "wildcard_domains"))) ||
         (bool_decide (field = str "artifact_attestations") &&
          bool_decide (key = str "services"))
      then let? acc := add_domains value acc in scan_nested field r acc
      else if bool_decide (field = str "artifact_attestations") &&
              bool_decide (key = str "trust_domain") && is_string value
      then scan_nested field r acc
      else Err (InvalidDocument UnrecognizedDomainField)
  end.

(** [for (field, value) in published_domains]. *)
Fixpoint scan_domains (published : list (list Z * json)) (acc : list (list Z) * Z)
  : result GitHubMetaError (list (list Z) * Z) :=
  match published with
  | [] => Ok acc
  | (field, value) :: r =>
      if decide (field ∈ DOMAIN_FIELDS) then
        let? acc := add_domains value acc in scan_domains r acc
      else if bool_decide (field = str "actions_inbound") ||
              bool_decide (field = str "artifact_attestations")
      then
        let? nested := ok_or (as_object value) (InvalidDocument ExpectedNestedObject) in
        let? acc := scan_nested field nested acc in
        scan_domains r acc
      else Err (InvalidDocument UnrecognizedDomainField)
  end.

(** [for required in ["web", "api", "git"]]: present, an array, not empty. *)
Definition core_field_present (object : list (list Z * json)) (required : list Z) : bool :=
  match json_get object required with
  | Some v => match as_array v with Some (_ :: _) => true | _ => false end
  | None => false
  end.

Definition scope_parse (bytes : list Z) : result GitHubMetaError GitHubMetaScope :=
  if MAX_META_BYTES <? Z.of_nat (length bytes) then Err MetaLimitExceeded
  else
    let? document := ok_or (from_slice bytes) (InvalidDocument ExpectedJson) in
    let? object := ok_or (as_object document) (InvalidDocument ExpectedObject) in
    if negb (match json_get object (str "verifiable_password_authentication") with
             | Some v => is_boolean v
             | None => false
             end)
    then Err (InvalidDocument MissingAuthentication)
    else
      let? ' (networks, _) := scan_networks object ([], 0) in
      if negb (forallb (core_field_present object) [str "web"; str "api"; str "git"])
      then Err (InvalidDocument MissingCoreNetwork)
      else
        let? published :=
          ok_or (json_get object (str "domains") ≫= as_object)
                (InvalidDocument MissingDomains) in
        let? ' (domains, _) := scan_domains published ([], 0) in
        if (length networks =? 0)%nat || (length domains =? 0)%nat
        then Err (InvalidDocument EmptyScope)
        else Ok {| scope_domains := domains;
                   scope_networks := networks;
                   scope_sha256 := sha256_hex bytes |}.

(** ** The revisioned state *)

Record Snapshot : Type := {
  snap_scope : GitHubMetaScope;
  validated_at : Z;
  validated_unix_seconds : Z;
  snap_etag : option (list Z);
}.

Record State : Type := {
  st_snapshot : option Snapshot;
  st_revision : Z;
  last_attempt_unix_seconds : option Z;
  last_error : option GitHubMetaError;
}.

Definition State_default : State :=
  {| st_snapshot := None; st_revision := 0;
     last_attempt_unix_seconds := None; last_error := None |}.

(** [refresh_held] is the [refresh] mutex of [GitHubMeta]. *)
Record GitHubMeta : Type := { gm_state : State; refresh_held : bool }.

Definition GitHubMeta_default : GitHubMeta :=
  {| gm_state := State_default; refresh_held := false |}.

Definition with_state (m : GitHubMeta) (s : State) : GitHubMeta :=
  {| gm_state := s; refresh_held := refresh_held m |}.

Definition clear_state (s : State) : State :=
  {| st_snapshot := None; st_revision := st_revision s;
     last_attempt_unix_seconds := None; last_error := None |}.

Definition with_error (s : State) (attempt : option Z) (e : GitHubMetaError) : State :=
  {| st_snapshot := st_snapshot s; st_revision := st_revision s;
     last_attempt_unix_seconds := attempt; last_error := Some e |}.

Definition snapshot_active (now : Z) (s : Snapshot) : bool :=
  elapsed now (validated_at s) <? META_MAX_STALENESS.

Definition view_state (now : Z) (s : State) : Z * option GitHubMetaScope :=
  match st_snapshot s with
  | Some snap =>
      if snapshot_active now snap then (st_revision s, Some (snap_scope snap)) else (0, None)
  | None => (0, None)
  end.

Definition view (now : Z) (m : GitHubMeta) : Z * option GitHubMetaScope :=
  view_state now (gm_state m).

(** The fields of [GitHubMetaStatus] that are not constants. *)
Record GitHubMetaStatus : Type := {
  status_state : GitHubMetaHealth;
  grants_active : bool;
  status_revision : Z;
  status_last_attempt : option Z;
  status_last_success : option Z;
  status_expires : option Z;
  status_etag : option (list Z);
  status_last_error : option GitHubMetaError;
  published_scope : option GitHubMetaScope;
}.

Definition describe (now : Z) (s : State) : GitHubMetaStatus :=
  let active := match st_snapshot s with
                | Some snap => snapshot_active now snap
                | None => false
                end in
  {| status_state :=
       match st_snapshot s, active, last_error s with
       | None, _, None => Pending
       | None, _, Some _ => Unavailable
       | Some _, false, _ => Expired
       | Some _, true, None => Fresh
       | Some _, true, Some _ => Degraded
       end;
     grants_active := active;
     status_revision := st_revision s;
     status_last_attempt := last_attempt_unix_seconds s;
     status_last_success := validated_unix_seconds <$> st_snapshot s;
     status_expires :=
       (λ s, validated_unix_seconds s + META_MAX_STALENESS_SECS) <$> st_snapshot s;
     status_etag := st_snapshot s ≫= snap_etag;
     status_last_error := last_error s;
     published_scope := snap_scope <$> st_snapshot s |}.

(** [now] is [Instant::now()], [unix] the wall clock in seconds, absent when it
    is before the epoch. *)
Definition prepare_response (now : Z) (unix : option Z) (s : State)
    (response : GitHubMetaResponse) : result GitHubMetaError State :=
  let? parsed :=
    match response with
    | Modified body etag =>
        if match etag with Some e => negb (valid_etag e) | None => false end
        then Err InvalidResponse
        else let? scope := scope_parse body in Ok (Some (scope, etag))
    | NotModified => Ok None
    end in
  let? unix := ok_or unix MetaClock in
  let? revision := ok_or (checked_add u64_max (st_revision s) 1) MetaLimitExceeded in
  let? ' (scope, etag) :=
    match parsed with
    | Some p => Ok p
    | None =>
        match st_snapshot s with
        | Some previous =>
            match snap_etag previous with
            | Some e => Ok (snap_scope previous, Some e)
            | None => Err UnexpectedNotModified
            end
        | None => Err UnexpectedNotModified
        end
    end in
  Ok {| st_snapshot := Some {| snap_scope := scope; validated_at := now;
                               validated_unix_seconds := unix; snap_etag := etag |};
        st_revision := revision;
        last_attempt_unix_seconds := Some unix;
        last_error := None |}.

(** [refresh_once] up to its [await]: take the mutex, read the entity tag. *)
Definition refresh_begin (m : GitHubMeta)
  : result GitHubMetaError (GitHubMeta * option (list Z)) :=
  if refresh_held m then Err RefreshInProgress
  else Ok ({| gm_state := gm_state m; refresh_held := true |},
           st_snapshot (gm_state m) ≫= snap_etag).

(** The outcome of the rest of [refresh_once]: the state, the statuses passed to
    [audit.record], the result. *)
Record refresh_outcome : Type := {
  ro_meta : GitHubMeta;
  ro_recorded : list GitHubMetaStatus;
  ro_result : result GitHubMetaError unit;
}.

(** [refresh_once] after its [await].  [fetched] is the reply of the client, with
    [Err MetaTimeout] when the request timed out; [publish] says whether
    [audit.record_github_meta] accepts a status. *)
Definition refresh_finish (now : Z) (unix : option Z) (publish : GitHubMetaStatus → bool)
    (m : GitHubMeta) (fetched : result GitHubMetaError GitHubMetaResponse)
  : refresh_outcome :=
  let response := let? r := fetched in prepare_response now unix (gm_state m) r in
  let state :=
    match response with
    | Ok _ => gm_state m
    | Err error =>
        match unix with
        | Some t => with_error (gm_state m) (Some t) error
        | None => with_error (gm_state m) None MetaClock
        end
    end in
  let status :=
    match response with
    | Ok candidate => describe now candidate
    | Err _ => describe now state
    end in
  if publish status then
    match response with
    | Ok candidate =>
        {| ro_meta := {| gm_state := candidate; refresh_held := false |};
           ro_recorded := []; ro_result := Ok tt |}
    | Err error =>
        {| ro_meta := {| gm_state := state; refresh_held := false |};
           ro_recorded := []; ro_result := Err error |}
    end
  else
    let cleared := clear_state state in
    let state := {| st_snapshot := st_snapshot cleared;
                    st_revision := st_revision cleared;
                    last_attempt_unix_seconds := last_attempt_unix_seconds cleared;
                    last_error := Some Publication |} in
    {| ro_meta := {| gm_state := state; refresh_held := false |};
       ro_recorded := [describe now state];
       ro_result := Err Publication |}.

(** [GitHubMeta::clear]. *)
Definition meta_clear (m : GitHubMeta) : GitHubMeta :=
  with_state m (clear_state (gm_state m)).

(** ** Specification *)

(** A network literal of one of the destination fields. *)
Definition published_network (object : list (list Z * json)) (n : ipnet) : Prop :=
  ∃ field value literals literal,
    (field, value) ∈ object ∧ field ∈ NETWORK_FIELDS ∧
    strings value = Ok literals ∧ literal ∈ literals ∧ parse_meta_network literal = Ok n.

(** The values of one field of [domains] that list destinations. *)
Inductive domain_field : list Z * json → json → Prop :=
| domain_field_direct field value :
    field ∈ DOMAIN_FIELDS → domain_field (field, value) value
| domain_field_inbound nested key value :
    (key, value) ∈ nested → key = str "full_domains" ∨ key = str "wildcard_domains" →
    domain_field (str "actions_inbound", JObject nested) value
| domain_field_attestation nested value :
    (str "services", value) ∈ nested →
    domain_field (str "artifact_attestations", JObject nested) value.

Definition domain_value (published : list (list Z * json)) (v : json) : Prop :=
  ∃ fv, fv ∈ published ∧ domain_field fv v.

Definition published_domain (object : list (list Z * json)) (p : list Z) : Prop :=
  ∃ published value names name,
    json_get object (str "domains") = Some (JObject published) ∧
    domain_value published value ∧ strings value = Ok names ∧ name ∈ names ∧
    normalize_pattern name = Ok p.

(** ** Lemmas *)

Lemma add_networks_ok (ls : list (list Z)) (acc acc' : list ipnet * Z) :
  add_networks ls acc = Ok acc' →
  (∀ n, n ∈ acc'.1 ↔
        n ∈ acc.1 ∨ ∃ l m, l ∈ ls ∧ parse_meta_network l = Ok m ∧ n = ipnet_trunc m) ∧
  (∀ l, l ∈ ls → ∃ m, parse_meta_network l = Ok m ∧ ipnet_prefix_len m ≠ 0).
Proof.
  revert acc. induction ls as [|l ls IH]; intros acc; simpl.
  { intros [= ->]. split; [set_solver|set_solver]. }
  destruct (_ <? _); [done|].
  destruct (parse_meta_network l) as [m|] eqn:Hl; [|done].
  destruct (ipnet_prefix_len m =? 0) eqn:Hp; [done|].
  intros [Hin Hall]%IH. apply Z.eqb_neq in Hp. simpl in Hin. split.
  - intros n. rewrite Hin, elem_of_btree_insert. setoid_rewrite elem_of_cons. split.
    + intros [[->|?]|(l' & m' & ? & ? & ?)]; [right; exists l, m; auto | by left | right; exists l', m'; auto].
    + intros [?|(l' & m' & [->|?] & ? & ->)]; [auto | simplify_res; auto |].
      right. exists l', m'. auto.
  - intros l' [->|?]%elem_of_cons; eauto.
Qed.

(** The networks of one field of the document. *)
Definition field_network (fv : list Z * json) (n : ipnet) : Prop :=
  fv.1 ∈ NETWORK_FIELDS ∧ ∃ ls l, strings fv.2 = Ok ls ∧ l ∈ ls ∧ parse_meta_network l = Ok n.

Lemma scan_networks_ok (object : list (list Z * json)) (acc acc' : list ipnet * Z) :
  scan_networks object acc = Ok acc' →
  (∀ n, n ∈ acc'.1 ↔
        n ∈ acc.1 ∨ ∃ fv m, fv ∈ object ∧ field_network fv m ∧ n = ipnet_trunc m) ∧
  (∀ fv m, fv ∈ object → field_network fv m → ipnet_prefix_len m ≠ 0).
Proof.
  revert acc. induction object as [|[f v] object IH]; intros acc; cbn [scan_networks].
  { intros [= ->]. split; [set_solver|set_solver]. }
  destruct (decide (f ∈ NETWORK_FIELDS)) as [Hf|Hf].
  - destruct (strings v) as [ls|] eqn:Hs; [|done].
    destruct (add_networks ls acc) as [acc1|] eqn:Ha; [|done].
    apply add_networks_ok in Ha as [Ha Hp].
    intros [Hin Hall]%IH. split.
    + intros n. rewrite Hin, Ha. setoid_rewrite elem_of_cons. split.
      * intros [[?|(l & m & ? & ? & ?)]|(fv & m & ? & ? & ?)]; [by left| |right; exists fv, m; auto].
        right. exists (f, v), m. split; [by left|]. split; [|done].
        split; [done|]. eauto.
      * intros [?|(fv & m & [->|?] & Hn & ?)]; [by left; left| |right; exists fv, m; auto].
        destruct Hn as [_ (ls' & l & Hs' & ? & ?)]. simpl in Hs'. simplify_res.
        left. right. eauto.
    + intros fv m [->|?]%elem_of_cons; [|by apply Hall].
      intros [_ (ls' & l & Hs' & Hl & Hm)]. simpl in Hs'. simplify_res.
      destruct (Hp l Hl) as (m' & ? & ?). congruence.
  - destruct (decide (f ∈ IGNORED_FIELDS)); [|done].
    intros [Hin Hall]%IH. split.
    + intros n. rewrite Hin. setoid_rewrite elem_of_cons. split; [naive_solver|].
      intros [?|(fv & m & [->|?] & [? ?] & ?)]; [by left|done|].
      right. exists fv, m. unfold field_network. auto.
    + intros fv m [->|?]%elem_of_cons [Hf' ?]; [done|]. eapply Hall; [done|]. by split.
Qed.

Lemma add_domain_names_ok (ns : list (list Z)) (acc acc' : list (list Z) * Z) :
  add_domain_names ns acc = Ok acc' →
  (∀ p, p ∈ acc'.1 ↔ p ∈ acc.1 ∨ ∃ name, name ∈ ns ∧ normalize_pattern name = Ok p) ∧
  (∀ p, p ∈ acc'.1 → p ∈ acc.1 ∨ parse_ip p = None).
Proof.
  revert acc. induction ns as [|name ns IH]; intros acc; cbn [add_domain_names].
  { intros [= ->]. set_solver. }
  destruct (_ <? _); [done|].
  destruct (normalize_pattern name) as [p|] eqn:Hn; [|done]. cbn [map_err].
  destruct (parse_ip p) eqn:Hip; [done|].
  intros [Hin Hip']%IH. cbn [fst] in *. split; intros q.
  - rewrite Hin, elem_of_btree_insert. setoid_rewrite elem_of_cons. split.
    + intros [[->|?]|(? & ? & ?)]; eauto 10.
    + intros [?|(name' & [->|?] & ?)]; [auto| |eauto 10]. simplify_res. auto.
  - intros Hq. destruct (Hip' q Hq) as [[->|?]%elem_of_btree_insert|?]; auto.
Qed.

(** Both loops over [domains] fold [add_domains] over a list of values. *)
Fixpoint add_all (vs : list json) (acc : list (list Z) * Z)
  : result GitHubMetaError (list (list Z) * Z) :=
  match vs with
  | [] => Ok acc
  | v :: r => let? acc := add_domains v acc in add_all r acc
  end.

Lemma add_all_app (vs ws : list json) (acc : list (list Z) * Z) :
  add_all (vs ++ ws) acc = let? acc := add_all vs acc in add_all ws acc.
Proof.
  revert acc. induction vs as [|v vs IH]; intros acc; [done|]. cbn [add_all app].
  destruct (add_domains v acc); [apply IH | done].
Qed.

Lemma add_all_ok (vs : list json) (acc acc' : list (list Z) * Z) :
  add_all vs acc = Ok acc' →
  (∀ p, p ∈ acc'.1 ↔ p ∈ acc.1 ∨
     ∃ v ns name, v ∈ vs ∧ strings v = Ok ns ∧ name ∈ ns ∧ normalize_pattern name = Ok p) ∧
  (∀ p, p ∈ acc'.1 → p ∈ acc.1 ∨ parse_ip p = None).
Proof.
  revert acc. induction vs as [|v vs IH]; intros acc; cbn [add_all].
  { intros [= ->]. set_solver. }
  unfold add_domains. destruct (strings v) as [ns|] eqn:Hs; [|done].
  destruct (add_domain_names ns acc) as [acc1|] eqn:Ha; [|done].
  apply add_domain_names_ok in Ha as [Ha Hip1]. intros [Hin Hip]%IH.
  split; intros p.
  - rewrite Hin, Ha. setoid_rewrite elem_of_cons. split.
    + intros [[?|(name & ? & ?)]|(w & ms & name & ? & ? & ? & ?)];
        [by left | right; exists v, ns, name; auto | right; exists w, ms, name; auto].
    + intros [?|(w & ms & name & [->|?] & ? & ? & ?)]; [auto| |right; eauto 10].
      simplify_res. left. right. eauto.
  - intros Hp. destruct (Hip p Hp) as [?|?]; [|auto]. by apply Hip1.
Qed.

Lemma scan_nested_add_all (field : list Z) (nested : list (list Z * json)) :
  ∀ acc acc', scan_nested field nested acc = Ok acc' →
  ∃ vs, add_all vs acc = Ok acc' ∧
    ∀ v, v ∈ vs ↔ ∃ key, (key, v) ∈ nested ∧
      ((field = str "actions_inbound" ∧
         (key = str "full_domains" ∨ key = str "wildcard_domains")) ∨
       (field = str "artifact_attestations" ∧ key = str "services")).
Proof.
  induction nested as [|[key v] nested IH]; intros acc acc'; cbn [scan_nested].
  { intros [= ->]. exists []. split; [done|]. set_solver. }
  destruct (_ || _) eqn:Ec.
  - destruct (add_domains v acc) as [acc1|] eqn:Ha; [|done].
    intros (vs & Hvs & Hin)%IH. exists (v :: vs). split; [cbn [add_all]; by rewrite Ha|].
    rewrite orb_true_iff, !andb_true_iff, orb_true_iff, !bool_decide_eq_true in Ec.
    intros w. rewrite elem_of_cons, Hin. setoid_rewrite elem_of_cons. split.
    + intros [->|(k & ? & ?)]; [exists key; by auto | eauto].
    + intros (k & [[= -> ->]|?] & ?); eauto.
  - destruct (_ && _ && _); [|done].
    intros (vs & Hvs & Hin)%IH. exists vs. split; [done|].
    rewrite orb_false_iff, !andb_false_iff, orb_false_iff, !bool_decide_eq_false in Ec.
    intros w. rewrite Hin. setoid_rewrite elem_of_cons. split; [naive_solver|].
    intros (k & [[= -> ->]|?] & ?); [exfalso; tauto | eauto].
Qed.

Lemma domain_value_cons (fv : list Z * json) (v : json)
    (published : list (list Z * json)) :
  domain_value (fv :: published) v ↔ domain_field fv v ∨ domain_value published v.
Proof. unfold domain_value. setoid_rewrite elem_of_cons. naive_solver. Qed.

Lemma domain_field_direct_iff (field : list Z) (value v : json) :
  field ∈ DOMAIN_FIELDS → domain_field (field, value) v ↔ v = value.
Proof.
  intros Hf. split; [|intros ->; by constructor].
  inversion 1; subst; [done|exfalso..].
  all: revert Hf; refine (bool_decide_eq_false_1 _ _); vm_compute; done.
Qed.

Lemma domain_field_nested_iff (field : list Z) (nested : list (list Z * json)) (v : json) :
  field ∉ DOMAIN_FIELDS →
  domain_field (field, JObject nested) v ↔
  ∃ key, (key, v) ∈ nested ∧
      ((field = str "actions_inbound" ∧
         (key = str "full_domains" ∨ key = str "wildcard_domains")) ∨
       (field = str "artifact_attestations" ∧ key = str "services")).
Proof.
  intros Hf. split.
  - inversion 1; subst; [done|eauto..].
  - intros (key & Hk & [[-> ?]|[-> ->]]); [by econstructor | by constructor].
Qed.

Lemma scan_domains_add_all (published : list (list Z * json)) :
  ∀ acc acc', scan_domains published acc = Ok acc' →
  ∃ vs, add_all vs acc = Ok acc' ∧ ∀ v, v ∈ vs ↔ domain_value published v.
Proof.
  induction published as [|[field value] published IH]; intros acc acc'; cbn [scan_domains].
  { intros [= ->]. exists []. split; [done|]. unfold domain_value. set_solver. }
  destruct (decide (field ∈ DOMAIN_FIELDS)) as [Hf|Hf].
  - destruct (add_domains value acc) as [acc1|] eqn:Ha; [|done].
    intros (vs & Hvs & Hin)%IH. exists (value :: vs).
    split; [cbn [add_all]; by rewrite Ha|].
    intros v. by rewrite elem_of_cons, Hin, domain_value_cons, domain_field_direct_iff.
  - destruct (_ || _); [|done].
    destruct (as_object value) as [nested|] eqn:Hv; [|done]. cbn [ok_or].
    destruct value; simplify_eq/=.
    destruct (scan_nested field nested acc) as [acc1|] eqn:Hn; [|done].
    apply scan_nested_add_all in Hn as (vs1 & Hvs1 & Hin1).
    intros (vs & Hvs & Hin)%IH. exists (vs1 ++ vs). split; [by rewrite add_all_app, Hvs1|].
    intros v. by rewrite elem_of_app, Hin, Hin1, domain_value_cons, domain_field_nested_iff.
Qed.

(** What a successful parse says about its document. *)
Lemma scope_parse_inv (bytes : list Z) (scope : GitHubMetaScope) :
  scope_parse bytes = Ok scope →
  ∃ object published count1 count2,
    from_slice bytes = Some (JObject object) ∧
    scan_networks object ([], 0) = Ok (scope_networks scope, count1) ∧
    json_get object (str "domains") = Some (JObject published) ∧
    scan_domains published ([], 0) = Ok (scope_domains scope, count2) ∧
    scope_networks scope ≠ [] ∧ scope_domains scope ≠ [].
Proof.
  unfold scope_parse. destruct (_ <? _); [done|].
  destruct (from_slice bytes) as [[]|]; try done. cbn [ok_or as_object].
  destruct (negb _); [done|].
  destruct (scan_networks l _) as [[ns c1]|] eqn:Hn; [|done].
  destruct (negb _); [done|].
  destruct (json_get l (str "domains")) as [[| | | | |published]|] eqn:Hd; try done.
  cbn [mbind option_bind as_object ok_or].
  destruct (scan_domains published _) as [[ds c2]|] eqn:Hs; [|done].
  destruct (_ || _) eqn:He; [done|]. intros [= <-]. cbn [scope_networks scope_domains].
  apply orb_false_iff in He as [?%Nat.eqb_neq ?%Nat.eqb_neq].
  exists l, published, c1, c2. repeat split; try done; by intros ->.
Qed.

Lemma view_expires (now : Z) (s : State) (r : Z) (scope : GitHubMetaScope) :
  view_state now s = (r, Some scope) →
  ∃ snap, st_snapshot s = Some snap ∧ snap_scope snap = scope ∧ st_revision s = r ∧
          now < validated_at snap + META_MAX_STALENESS.
Proof.
  unfold view_state, snapshot_active, elapsed, saturating_sub.
  destruct (st_snapshot s) as [snap|]; [|done].
  destruct (_ <? _) eqn:E; [|done]. intros [= <- <-]. bool_to_prop.
  exists snap. repeat split. lia.
Qed.

Lemma prepare_response_ok (now : Z) (unix : option Z) (s s' : State)
    (response : GitHubMetaResponse) :
  prepare_response now unix s response = Ok s' →
  ∃ snap, st_snapshot s' = Some snap ∧ validated_at snap = now ∧
    st_revision s' = st_revision s + 1 ∧ st_revision s' ≤ u64_max ∧
    match response with
    | Modified body _ => scope_parse body = Ok (snap_scope snap)
    | NotModified => ∃ old, st_snapshot s = Some old ∧ snap_scope snap = snap_scope old
    end.
Proof.
  unfold prepare_response, checked_add.
  destruct response as [body etag|].
  - destruct (match etag with Some _ => _ | None => _ end); [done|].
    destruct (scope_parse body) as [scope|] eqn:Hp; [|done].
    destruct unix; [|done]. cbn [ok_or]. destruct (_ <=? _) eqn:El; [|done].
    intros [= <-]. apply Z.leb_le in El. by eexists.
  - destruct unix; [|done]. cbn [ok_or]. destruct (_ <=? _) eqn:El; [|done].
    cbn [ok_or]. destruct (st_snapshot s) as [old|]; [|done].
    destruct (snap_etag old); [|done].
    intros [= <-]. apply Z.leb_le in El. eexists. cbn. eauto 10.
Qed.

Lemma view_snapshot_none (now : Z) (s : State) :
  st_snapshot s = None → view_state now s = (0, None).
Proof. intros H. unfold view_state. by rewrite H. Qed.

Lemma view_fresh (now t : Z) (s : State) (snap : Snapshot) :
  st_snapshot s = Some snap → validated_at snap = now →
  view_state t s =
    if t <? now + META_MAX_STALENESS then (st_revision s, Some (snap_scope snap))
    else (0, None).
Proof.
  intros H1 H2. unfold view_state, snapshot_active, elapsed, saturating_sub. rewrite H1, H2.
  replace (Z.max (t - now) 0 <? META_MAX_STALENESS) with (t <? now + META_MAX_STALENESS);
    [done|].
  assert (0 < META_MAX_STALENESS) by done. lia.
Qed.

(** ** Properties *)

(** a document that parses grants exactly what it publishes: an address is in
    the scope when one of the literals of a destination field contains it, a
    domain pattern is in the scope when it is the normal form of a published
    name; no network of the scope has prefix length zero, no domain of it is an
    address, and neither list is empty. *)
Theorem scope_parse_exact `{!IpNetLaws ipnet} (bytes : list Z) (scope : GitHubMetaScope)
    (object : list (list Z * json))
    (Hjson : from_slice bytes = Some (JObject object))
    (Hparse : scope_parse bytes = Ok scope) :
  (∀ ip, (∃ n, n ∈ scope_networks scope ∧ ipnet_contains n ip = true) ↔
         (∃ n, published_network object n ∧ ipnet_contains n ip = true)) ∧
  (∀ p, p ∈ scope_domains scope ↔ published_domain object p) ∧
  (∀ n, n ∈ scope_networks scope → ipnet_prefix_len n ≠ 0) ∧
  (∀ p, p ∈ scope_domains scope → parse_ip p = None) ∧
  scope_networks scope ≠ [] ∧ scope_domains scope ≠ [].
Proof.
  apply scope_parse_inv in Hparse
    as (object' & published & c1 & c2 & Hj & Hn & Hd & Hs & Hne & Hde).
  simplify_eq. apply scan_networks_ok in Hn as [Hn Hlen]. cbn [fst] in Hn.
  apply scan_domains_add_all in Hs as (vs & Hvs & Hin).
  apply add_all_ok in Hvs as [Hvs Hip]. cbn [fst] in Hvs, Hip.
  split_and!; [| | | |done|done].
  - intros ip. split.
    + intros (n & Hns & Hc).
      apply Hn in Hns as [?|([f v] & m & ? & [? (ls & l & ? & ? & ?)] & ->)]; [set_solver|].
      exists m. rewrite ipnet_trunc_contains in Hc. split; [|done].
      exists f, v, ls, l. auto.
    + intros (n & (f & v & ls & l & ? & ? & ? & ? & ?) & Hc).
      exists (ipnet_trunc n). rewrite ipnet_trunc_contains. split; [|done].
      apply Hn. right. exists (f, v), n. unfold field_network. eauto 10.
  - intros p. rewrite Hvs. unfold published_domain. split.
    + intros [?|(v & ns & name & ?%Hin & ? & ? & ?)]; [set_solver|].
      exists published, v, ns, name. auto.
    + intros (published' & v & ns & name & ? & ? & ? & ? & ?); simplify_eq.
      right. exists v, ns, name. split; [by apply Hin|]. auto.
  - intros n [?|(fv & m & ? & ? & ->)]%Hn; [set_solver|].
    rewrite ipnet_trunc_prefix_len. eauto.
  - intros p [?|?]%Hip; [set_solver|done].
Qed.

(** the rest of a refresh either installs a scope, whose revision is the next
    one and which is visible for 24 hours and no longer, or fails, and then at
    every later instant the view is what it was or is empty: a failed, timed out,
    malformed or unpublishable refresh never extends or changes a grant. *)
Theorem refresh_installs_or_never_extends (now : Z) (unix : option Z)
    (publish : GitHubMetaStatus → bool) (m : GitHubMeta)
    (fetched : result GitHubMetaError GitHubMetaResponse) :
  let o := refresh_finish now unix publish m fetched in
  let before := gm_state m in
  let after := gm_state (ro_meta o) in
  (∃ response scope,
     ro_result o = Ok tt ∧ fetched = Ok response ∧
     st_revision after = st_revision before + 1 ∧ st_revision after ≤ u64_max ∧
     match response with
     | Modified body _ => scope_parse body = Ok scope
     | NotModified => ∃ old, st_snapshot before = Some old ∧ scope = snap_scope old
     end ∧
     ∀ t, view_state t after =
            if t <? now + META_MAX_STALENESS then (st_revision after, Some scope)
            else (0, None)) ∨
  (∃ error,
     ro_result o = Err error ∧ st_revision after = st_revision before ∧
     ∀ t, view_state t after = (0, None) ∨ view_state t after = view_state t before).
Proof.
  cbv zeta. unfold refresh_finish.
  destruct fetched as [response|e].
  2: { right. destruct (publish _); simpl; eexists; destruct unix; simpl; eauto. }
  destruct (prepare_response now unix (gm_state m) response) as [s'|e] eqn:Hp.
  2: { right. destruct (publish _); simpl; eexists; destruct unix; simpl; eauto. }
  destruct (publish _); simpl; [left|right; eauto 10].
  apply prepare_response_ok in Hp as (snap & Hs & Hv & Hr & Hb & Hresp).
  exists response, (snap_scope snap). split_and!; try done.
  intros t. by apply view_fresh.
Qed.

End Meta.

Arguments GitHubMetaScope : clear implicits.
Arguments Snapshot : clear implicits.
Arguments State : clear implicits.
Arguments GitHubMeta : clear implicits.
Arguments GitHubMetaStatus : clear implicits.

(** ** Witnesses *)

(** A small Meta document and the text that stands for it. *)
Definition sample_object : list (list Z * json) :=
  [(str "api", JArray [JString (str "192.30.252.0/22")]);
   (str "domains",
     JObject [(str "actions_inbound",
                JObject [(str "wildcard_domains", JArray [JString (str "*.Actions.example.com")])]);
              (str "website", JArray [JString (str "*.github.com"); JString (str "github.com")])]);
   (str "git", JArray [JString (str "192.30.252.7"); JString (str "2606:50c0::/32")]);
   (str "ssh_keys", JArray []);
   (str "verifiable_password_authentication", JBool false);
   (str "web", JArray [JString (str "140.82.112.0/20")])].

Definition sample_from_slice (bytes : list Z) : option json :=
  if decide (bytes = str "meta") then Some (JObject sample_object) else None.

Definition sample_scope : GitHubMetaScope cidr :=
  {| scope_domains := [str "*.actions.example.com"; str "*.github.com"; str "github.com"];
     scope_networks :=
       [Cidr4 2354212864 20; Cidr4 3223256064 22; Cidr4 3223256071 32;
        Cidr6 (ipv6_new 9734 20672 0 0 0 0 0 0) 32];
     scope_sha256 := str "00" |}.

Lemma scope_parse_exact_witness :
  (∀ n, n ∈ scope_networks sample_scope → ipnet_prefix_len n ≠ 0) ∧
  (∀ p, p ∈ scope_domains sample_scope ↔
        published_domain sample_object p).
Proof.
  destruct (scope_parse_exact sample_from_slice (λ _, str "00") (str "meta")
              sample_scope sample_object) as (_ & Hd & Hn & _);
    [vm_compute; reflexivity | vm_compute; reflexivity | split; [exact Hn | exact Hd]].
Defined.
