(* ===== verification/NetPolicy.v ===== *)
(** * Network policy ([crates/sendbox-policy/src/lib.rs],
      [crates/sendbox-egress/src/policy.rs])

    The network policy document, its compilation into an engine, and the
    decisions for hostname and direct-IP connections.  A reason string of the
    code is a value of [reason] here, with the values it interpolates.  The main
    theorems state each decision as one formula and show that a restricted
    address is reachable through a network grant only. *)

From S2P Require Import Prelude RustStr Net Address Domain GithubMeta.

(** ** The policy document *)

Inductive Action : Type := Allow | Deny.
Inductive Protocol : Type := Tcp | Udp.
Inductive DnsRecordType : Type := A | Aaaa.

#[global] Instance Action_eq_dec : EqDecision Action.
Proof. solve_decision. Defined.
#[global] Instance Protocol_eq_dec : EqDecision Protocol.
Proof. solve_decision. Defined.
#[global] Instance DnsRecordType_eq_dec : EqDecision DnsRecordType.
Proof. solve_decision. Defined.

Record PortRule : Type := { rule_protocol : Protocol; rule_port : Z }.

Record DnsQueryBudget : Type := {
  window_secs : Z;
  max_queries : Z;
  max_query_octets : Z;
  max_unique_names : Z;
  max_dynamic_labels : Z;
}.

Definition DnsQueryBudget_default : DnsQueryBudget :=
  {| window_secs := 60; max_queries := 600; max_query_octets := 32768;
     max_unique_names := 256; max_dynamic_labels := 256 |}.

Record DnsPolicy : Type := {
  max_ttl_secs : Z;
  max_qname_octets : Z;
  max_labels : Z;
  max_label_octets : Z;
  allowed_record_types : list DnsRecordType;
  max_response_records : Z;
  budget : DnsQueryBudget;
}.

Definition DnsPolicy_default : DnsPolicy :=
  {| max_ttl_secs := 300; max_qname_octets := 253; max_labels := 40;
     max_label_octets := 63; allowed_record_types := [A; Aaaa];
     max_response_records := 32; budget := DnsQueryBudget_default |}.

Record NetworkPolicy : Type := {
  default_action : Action;
  allowed_domains : list (list Z);
  blocked_domains : list (list Z);
  allow_dns : bool;
  max_connections : option Z;
  allowed_networks : list (list Z);
  blocked_networks : list (list Z);
  allowed_ports : list PortRule;
  dns : DnsPolicy;
}.

(** The fields a DNS control diagnostic can name. *)
Inductive dns_field : Type :=
| F_max_ttl_secs | F_max_qname_octets | F_max_labels | F_max_label_octets
| F_max_response_records | F_allowed_record_types | F_window_secs | F_max_queries
| F_max_query_octets | F_max_unique_names | F_max_dynamic_labels.

#[global] Instance dns_field_eq_dec : EqDecision dns_field.
Proof. solve_decision. Defined.

(** [DnsPolicy::validate]: the fields of the diagnostics it pushes, in order. *)
Definition dns_validate (d : DnsPolicy) : list dns_field :=
  let require (ok : bool) (field : dns_field) := if ok then [] else [field] in
  require (0 <? max_ttl_secs d) F_max_ttl_secs ++
  require ((1 <=? max_qname_octets d) && (max_qname_octets d <=? 253)) F_max_qname_octets ++
  require (1 <=? max_labels d) F_max_labels ++
  require ((1 <=? max_label_octets d) && (max_label_octets d <=? 63)) F_max_label_octets ++
  require (1 <=? max_response_records d) F_max_response_records ++
  require (negb (length (allowed_record_types d) =? 0)%nat) F_allowed_record_types ++
  require (0 <? window_secs (budget d)) F_window_secs ++
  require (1 <=? max_queries (budget d)) F_max_queries ++
  require (1 <=? max_query_octets (budget d)) F_max_query_octets ++
  require (1 <=? max_unique_names (budget d)) F_max_unique_names ++
  require (1 <=? max_dynamic_labels (budget d)) F_max_dynamic_labels.

(** ** Compilation *)

Definition DEFAULT_MAX_CONNECTIONS : Z := 100.
Definition MAX_CONNECTIONS_CEILING : Z := 65535.

Inductive policy_list : Type :=
| L_allowed_domains | L_blocked_domains | L_allowed_networks | L_blocked_networks.

Inductive PolicyError : Type :=
| InvalidDomainPattern (field : policy_list) (source : DomainError)
| InvalidNetworkLiteral (field : policy_list) (value : list Z)
| NonPositiveMaxConnections
| MaxConnectionsTooLarge (value ceiling : Z)
| InvalidDnsControl (field : dns_field).

Definition resolve_max_connections (max_connections : option Z) : result PolicyError Z :=
  match max_connections with
  | None => Ok DEFAULT_MAX_CONNECTIONS
  | Some value =>
      if value <=? 0 then Err NonPositiveMaxConnections
      else if (value <=? u32_max) && (value <=? MAX_CONNECTIONS_CEILING) then Ok value
      else Err (MaxConnectionsTooLarge value MAX_CONNECTIONS_CEILING)
  end.

Definition validate_dns_controls (d : DnsPolicy) : result PolicyError unit :=
  if max_ttl_secs d =? 0 then Err (InvalidDnsControl F_max_ttl_secs)
  else if (max_qname_octets d <? 1) || (253 <? max_qname_octets d)
  then Err (InvalidDnsControl F_max_qname_octets)
  else if max_labels d <? 1 then Err (InvalidDnsControl F_max_labels)
  else if (max_label_octets d <? 1) || (63 <? max_label_octets d)
  then Err (InvalidDnsControl F_max_label_octets)
  else if max_response_records d <? 1 then Err (InvalidDnsControl F_max_response_records)
  else if (length (allowed_record_types d) =? 0)%nat
  then Err (InvalidDnsControl F_allowed_record_types)
  else if window_secs (budget d) =? 0 then Err (InvalidDnsControl F_window_secs)
  else if max_queries (budget d) <? 1 then Err (InvalidDnsControl F_max_queries)
  else if max_query_octets (budget d) <? 1 then Err (InvalidDnsControl F_max_query_octets)
  else if max_unique_names (budget d) <? 1 then Err (InvalidDnsControl F_max_unique_names)
  else if max_dynamic_labels (budget d) <? 1
  then Err (InvalidDnsControl F_max_dynamic_labels)
  else Ok tt.

Definition normalize_patterns (raw : list (list Z)) (field : policy_list)
  : result PolicyError (list (list Z)) :=
  collect (λ p, map_err (InvalidDomainPattern field) (normalize_pattern p)) raw.

(** Why a decision came out as it did. *)
Inductive reason : Type :=
| R_not_restricted (ip : ip_addr)
| R_unspecified (ip : ip_addr)
| R_blocked_network (ip : ip_addr)
| R_restricted_class (ip : ip_addr) (class : AddressClass)
| R_port (port : Z) (protocol : Protocol)
| R_invalid_domain (err : DomainError)
| R_blocked_pattern (name pattern : list Z)
| R_allowed_pattern (name pattern : list Z)
| R_meta_pattern (name pattern : list Z)
| R_domain_default (name : list Z) (action : Action)
| R_allowed_network (ip : ip_addr)
| R_meta_network (ip : ip_addr)
| R_ip_default (ip : ip_addr) (action : Action).

Record Decision : Type := {
  allowed : bool;
  decision_reason : reason;
  address_class : AddressClass;
}.

Definition decision_allow (r : reason) (c : AddressClass) : Decision :=
  {| allowed := true; decision_reason := r; address_class := c |}.
Definition decision_deny (r : reason) (c : AddressClass) : Decision :=
  {| allowed := false; decision_reason := r; address_class := c |}.

Record DomainDecision : Type := { domain_allowed : bool; domain_reason : reason }.

Definition action_allows (a : Action) : bool :=
  match a with Allow => true | Deny => false end.

Section Policy.
Context {ipnet : Type} `{Api : IpNetApi ipnet}.

Definition parse_ip_or_cidr (literal : list Z) : option ipnet :=
  match ipnet_parse literal with
  | Some net => Some net
  | None => ipnet_from <$> parse_ip literal
  end.

Definition parse_networks (raw : list (list Z)) (field : policy_list)
  : result PolicyError (list ipnet) :=
  collect (λ literal, ok_or (parse_ip_or_cidr literal) (InvalidNetworkLiteral field literal))
    raw.

(** The [GitHubMeta] state of the engine is mutable and lives in the system
    state; the engine records whether it has one. *)
Record PolicyEngine : Type := {
  e_default_action : Action;
  e_allow_dns : bool;
  e_allowed_domains : list (list Z);
  e_blocked_domains : list (list Z);
  e_allowed_networks : list ipnet;
  e_blocked_networks : list ipnet;
  e_allowed_ports : list PortRule;
  e_max_concurrent_connections : Z;
  e_dns : DnsPolicy;
  e_github_meta : bool;
}.

Record PolicySnapshot : Type := {
  engine : PolicyEngine;
  github_scope : option (GitHubMetaScope ipnet);
  revision : Z;
}.

Definition compile (policy : NetworkPolicy) : result PolicyError PolicyEngine :=
  let? allowed_domains := normalize_patterns (allowed_domains policy) L_allowed_domains in
  let? blocked_domains := normalize_patterns (blocked_domains policy) L_blocked_domains in
  let? allowed_networks := parse_networks (allowed_networks policy) L_allowed_networks in
  let? blocked_networks := parse_networks (blocked_networks policy) L_blocked_networks in
  check? validate_dns_controls (dns policy) in
  let? max_concurrent_connections := resolve_max_connections (max_connections policy) in
  let github_meta :=
    existsb (λ name, bool_decide (name = str "github.com")) allowed_domains &&
    negb (existsb (λ pattern, pattern_matches pattern (str "github.com")) blocked_domains) in
  Ok {| e_default_action := default_action policy;
        e_allow_dns := allow_dns policy;
        e_allowed_domains := allowed_domains;
        e_blocked_domains := blocked_domains;
        e_allowed_networks := allowed_networks;
        e_blocked_networks := blocked_networks;
        e_allowed_ports := allowed_ports policy;
        e_max_concurrent_connections := max_concurrent_connections;
        e_dns := dns policy;
        e_github_meta := github_meta |}.

Definition cap_ttl (e : PolicyEngine) (ttl_secs : Z) : Z :=
  Z.min ttl_secs (max_ttl_secs (e_dns e)).

Definition github_meta_name_permitted (e : PolicyEngine) (name : list Z) : bool :=
  e_github_meta e && e_allow_dns e &&
  negb (existsb (λ pattern, pattern_matches pattern name) (e_blocked_domains e)) &&
  ((length (e_allowed_ports e) =? 0)%nat ||
   existsb (λ rule, bool_decide (rule_protocol rule = Tcp) && (rule_port rule =? 443))
     (e_allowed_ports e)).

(** [PolicyEngine::snapshot], with the instant and the Meta state it reads. *)
Definition snapshot (e : PolicyEngine) (now : Z) (m : GitHubMeta ipnet) : PolicySnapshot :=
  let '(revision, scope) := if e_github_meta e then view now m else (0, None) in
  {| engine := e; github_scope := scope; revision := revision |}.

Definition is_current (s : PolicySnapshot) (now : Z) (m : GitHubMeta ipnet) : bool :=
  revision (snapshot (engine s) now m) =? revision s.

Section Evaluate.
Variable s : PolicySnapshot.

Definition evaluate_domain (normalized : list Z) : DomainDecision :=
  match find (λ p, pattern_matches p normalized) (e_blocked_domains (engine s)) with
  | Some pattern =>
      {| domain_allowed := false; domain_reason := R_blocked_pattern normalized pattern |}
  | None =>
  match find (λ p, pattern_matches p normalized) (e_allowed_domains (engine s)) with
  | Some pattern =>
      {| domain_allowed := true; domain_reason := R_allowed_pattern normalized pattern |}
  | None =>
  match github_scope s ≫=
          (λ scope, find (λ p, pattern_matches p normalized) (scope_domains scope)) with
  | Some pattern =>
      {| domain_allowed := true; domain_reason := R_meta_pattern normalized pattern |}
  | None =>
      {| domain_allowed := action_allows (e_default_action (engine s));
         domain_reason := R_domain_default normalized (e_default_action (engine s)) |}
  end end end.

Definition evaluate_domain_name (name : list Z) : result DomainError bool :=
  let? normalized := normalize_domain name in
  Ok (domain_allowed (evaluate_domain normalized)).

Definition network_blocked (ip : ip_addr) : bool :=
  existsb (λ net, ipnet_contains net ip) (e_blocked_networks (engine s)).

Definition network_allowed (ip : ip_addr) : bool :=
  existsb (λ net, ipnet_contains net ip) (e_allowed_networks (engine s)).

Definition port_allowed (protocol : Protocol) (port : Z) : bool :=
  (length (e_allowed_ports (engine s)) =? 0)%nat ||
  existsb (λ rule, bool_decide (rule_protocol rule = protocol) && (rule_port rule =? port))
    (e_allowed_ports (engine s)).

Definition check_address (ip : ip_addr) : result Decision (ip_addr * AddressClass) :=
  let ip := canonicalize ip in
  let class := classify ip in
  if bool_decide (class = Unspecified) then Err (decision_deny (R_unspecified ip) class)
  else if network_blocked ip then Err (decision_deny (R_blocked_network ip) class)
  else if is_restricted class && negb (network_allowed ip)
  then Err (decision_deny (R_restricted_class ip class) class)
  else Ok (ip, class).

Definition address_permitted (ip : ip_addr) : Decision :=
  match check_address ip with
  | Ok (canonical, class) => decision_allow (R_not_restricted canonical) class
  | Err decision => decision
  end.

Definition decide_hostname (name : list Z) (ip : ip_addr) (port : Z) (protocol : Protocol)
  : Decision :=
  match check_address ip with
  | Err decision => decision
  | Ok (_, class) =>
      if negb (port_allowed protocol port) then decision_deny (R_port port protocol) class
      else match normalize_domain name with
           | Err err => decision_deny (R_invalid_domain err) class
           | Ok normalized =>
               let domain_decision := evaluate_domain normalized in
               if domain_allowed domain_decision
               then decision_allow (domain_reason domain_decision) class
               else decision_deny (domain_reason domain_decision) class
           end
  end.

Definition decide_direct_ip (ip : ip_addr) (port : Z) (protocol : Protocol) : Decision :=
  match check_address ip with
  | Err decision => decision
  | Ok (ip, class) =>
      if negb (port_allowed protocol port) then decision_deny (R_port port protocol) class
      else if network_allowed ip then decision_allow (R_allowed_network ip) class
      else if match github_scope s with
              | Some scope => existsb (λ net, ipnet_contains net ip) (scope_networks scope)
              | None => false
              end
      then decision_allow (R_meta_network ip) class
      else match e_default_action (engine s) with
           | Allow => decision_allow (R_ip_default ip Allow) class
           | Deny => decision_deny (R_ip_default ip Deny) class
           end
  end.

End Evaluate.

(** ** Specification *)

(** A pattern of the list matches the canonical form of the name. *)
Definition some_pattern (ps : list (list Z)) (d : list Z) : Prop :=
  ∃ p, p ∈ ps ∧ pattern_matches p d = true.

Definition in_networks (ns : list ipnet) (ip : ip_addr) : Prop :=
  ∃ n, n ∈ ns ∧ ipnet_contains n ip = true.

(** The address part of every decision. *)
Definition address_ok (s : PolicySnapshot) (ip : ip_addr) : Prop :=
  let ip := canonicalize ip in
  classify ip ≠ Unspecified ∧
  ¬ in_networks (e_blocked_networks (engine s)) ip ∧
  (is_restricted (classify ip) = true → in_networks (e_allowed_networks (engine s)) ip).

Definition port_ok (s : PolicySnapshot) (protocol : Protocol) (port : Z) : Prop :=
  e_allowed_ports (engine s) = [] ∨
  ∃ r, r ∈ e_allowed_ports (engine s) ∧ rule_protocol r = protocol ∧ rule_port r = port.

Definition scope_domain (s : PolicySnapshot) (d : list Z) : Prop :=
  ∃ scope, github_scope s = Some scope ∧ some_pattern (scope_domains scope) d.

Definition domain_ok (s : PolicySnapshot) (d : list Z) : Prop :=
  ¬ some_pattern (e_blocked_domains (engine s)) d ∧
  (some_pattern (e_allowed_domains (engine s)) d ∨ scope_domain s d ∨
   e_default_action (engine s) = Allow).

Definition direct_ok (s : PolicySnapshot) (ip : ip_addr) : Prop :=
  in_networks (e_allowed_networks (engine s)) (canonicalize ip) ∨
  (∃ scope, github_scope s = Some scope ∧
            in_networks (scope_networks scope) (canonicalize ip)) ∨
  e_default_action (engine s) = Allow.

(** ** Lemmas *)

Lemma existsb_elem {X : Type} (f : X → bool) (l : list X) :
  existsb f l = true ↔ ∃ x, x ∈ l ∧ f x = true.
Proof. rewrite existsb_exists. by setoid_rewrite list_elem_of_In. Qed.

Lemma existsb_not_elem {X : Type} (f : X → bool) (l : list X) :
  existsb f l = false ↔ ¬ ∃ x, x ∈ l ∧ f x = true.
Proof. rewrite <-existsb_elem. destruct (existsb f l); naive_solver. Qed.

Lemma find_pattern (ps : list (list Z)) (d : list Z) :
  match find (λ p, pattern_matches p d) ps with
  | Some p => some_pattern ps d
  | None => ¬ some_pattern ps d
  end.
Proof.
  destruct (find _ ps) as [p|] eqn:E.
  - apply find_some in E as [Hin Hm]. exists p. by rewrite list_elem_of_In.
  - intros (p & Hin & Hm). apply list_elem_of_In in Hin.
    by rewrite (find_none _ _ E _ Hin) in Hm.
Qed.

Lemma network_blocked_spec (s : PolicySnapshot) (ip : ip_addr) :
  network_blocked s ip = true ↔ in_networks (e_blocked_networks (engine s)) ip.
Proof. apply existsb_elem. Qed.

Lemma network_allowed_spec (s : PolicySnapshot) (ip : ip_addr) :
  network_allowed s ip = true ↔ in_networks (e_allowed_networks (engine s)) ip.
Proof. apply existsb_elem. Qed.

Lemma port_allowed_spec (s : PolicySnapshot) (protocol : Protocol) (port : Z) :
  port_allowed s protocol port = true ↔ port_ok s protocol port.
Proof.
  unfold port_allowed, port_ok. rewrite orb_true_iff, Nat.eqb_eq, existsb_elem.
  rewrite length_zero_iff_nil.
  setoid_rewrite andb_true_iff. setoid_rewrite bool_decide_eq_true.
  setoid_rewrite Z.eqb_eq. done.
Qed.

Lemma check_address_spec (s : PolicySnapshot) (ip : ip_addr) :
  match check_address s ip with
  | Ok (c, class) => c = canonicalize ip ∧ class = classify ip ∧ address_ok s ip
  | Err d => allowed d = false ∧ address_class d = classify ip ∧ ¬ address_ok s ip
  end.
Proof.
  unfold check_address, address_ok. rewrite classify_canonicalize.
  case_bool_decide as Hu; [simpl; tauto|].
  destruct (network_blocked s (canonicalize ip)) eqn:Eb.
  { apply network_blocked_spec in Eb. simpl. tauto. }
  assert (¬ in_networks (e_blocked_networks (engine s)) (canonicalize ip)).
  { rewrite <-network_blocked_spec. congruence. }
  destruct (is_restricted (classify ip)); simpl; [|naive_solver].
  destruct (network_allowed s (canonicalize ip)) eqn:Ea; simpl.
  - apply network_allowed_spec in Ea. tauto.
  - split; [done|]. split; [done|]. intros (_ & _ & Hn).
    apply (proj2 (network_allowed_spec _ _)) in Hn; [congruence|done].
Qed.

Lemma evaluate_domain_spec (s : PolicySnapshot) (d : list Z) :
  domain_allowed (evaluate_domain s d) = true ↔ domain_ok s d.
Proof.
  unfold evaluate_domain, domain_ok, scope_domain.
  pose proof (find_pattern (e_blocked_domains (engine s)) d) as Hb.
  destruct (find _ (e_blocked_domains (engine s))); [simpl; naive_solver|].
  pose proof (find_pattern (e_allowed_domains (engine s)) d) as Ha.
  destruct (find _ (e_allowed_domains (engine s))); [simpl; naive_solver|].
  destruct (github_scope s) as [scope|]; simpl.
  - pose proof (find_pattern (scope_domains scope) d) as Hs.
    destruct (find _ (scope_domains scope)); simpl; [naive_solver|].
    destruct (e_default_action (engine s)); naive_solver.
  - destruct (e_default_action (engine s)); naive_solver.
Qed.

Lemma address_permitted_spec (s : PolicySnapshot) (ip : ip_addr) :
  allowed (address_permitted s ip) = true ↔ address_ok s ip.
Proof.
  unfold address_permitted. pose proof (check_address_spec s ip) as H.
  destruct (check_address s ip) as [[c k]|d]; simpl; [tauto|].
  destruct H as (H & _ & ?). rewrite H. naive_solver.
Qed.

Lemma decide_hostname_spec (s : PolicySnapshot) (name : list Z) (ip : ip_addr) (port : Z)
    (protocol : Protocol) :
  allowed (decide_hostname s name ip port protocol) = true ↔
  address_ok s ip ∧ port_ok s protocol port ∧
  ∃ d, normalize_domain name = Ok d ∧ domain_ok s d.
Proof.
  unfold decide_hostname. pose proof (check_address_spec s ip) as H.
  destruct (check_address s ip) as [[c k]|d]; simpl; [|intuition congruence].
  destruct (port_allowed s protocol port) eqn:Ep; simpl.
  2: { rewrite <-port_allowed_spec. intuition congruence. }
  apply port_allowed_spec in Ep.
  destruct (normalize_domain name) as [d|] eqn:En; simpl; [|naive_solver].
  pose proof (evaluate_domain_spec s d) as Hd.
  destruct (domain_allowed (evaluate_domain s d)); simpl; naive_solver.
Qed.

Lemma decide_direct_ip_spec (s : PolicySnapshot) (ip : ip_addr) (port : Z)
    (protocol : Protocol) :
  allowed (decide_direct_ip s ip port protocol) = true ↔
  address_ok s ip ∧ port_ok s protocol port ∧ direct_ok s ip.
Proof.
  unfold decide_direct_ip, direct_ok. pose proof (check_address_spec s ip) as H.
  destruct (check_address s ip) as [[c k]|d]; simpl; [|intuition congruence].
  destruct H as (-> & -> & H).
  destruct (port_allowed s protocol port) eqn:Ep; simpl.
  2: { rewrite <-port_allowed_spec. intuition congruence. }
  apply port_allowed_spec in Ep.
  destruct (network_allowed s (canonicalize ip)) eqn:Ea; simpl.
  { apply network_allowed_spec in Ea. naive_solver. }
  assert (¬ in_networks (e_allowed_networks (engine s)) (canonicalize ip)).
  { rewrite <-network_allowed_spec. congruence. }
  destruct (github_scope s) as [scope|]; simpl.
  2: { destruct (e_default_action (engine s)); simpl; naive_solver. }
  destruct (existsb _ (scope_networks scope)) eqn:Es; simpl.
  { apply existsb_elem in Es. split; [|done]. intros _. eauto 10. }
  apply existsb_not_elem in Es.
  assert (¬ in_networks (scope_networks scope) (canonicalize ip)) by done.
  destruct (e_default_action (engine s)); simpl; naive_solver.
Qed.

(** *** Compilation *)

Lemma resolve_max_connections_bounds (m : option Z) (n : Z) :
  resolve_max_connections m = Ok n →
  1 ≤ n ≤ MAX_CONNECTIONS_CEILING ∧ default DEFAULT_MAX_CONNECTIONS m = n.
Proof.
  unfold resolve_max_connections, MAX_CONNECTIONS_CEILING, u32_max.
  destruct m as [v|]; simpl; [|intros [= <-]; done].
  destruct (v <=? 0) eqn:E; [done|]. destruct (_ && _) eqn:E2; [|done].
  intros [= <-]. bool_to_prop. lia.
Qed.

Definition dns_controls_ok (d : DnsPolicy) : Prop :=
  max_ttl_secs d ≠ 0 ∧ 1 ≤ max_qname_octets d ≤ 253 ∧ 1 ≤ max_labels d ∧
  1 ≤ max_label_octets d ≤ 63 ∧ 1 ≤ max_response_records d ∧
  allowed_record_types d ≠ [] ∧ window_secs (budget d) ≠ 0 ∧
  1 ≤ max_queries (budget d) ∧ 1 ≤ max_query_octets (budget d) ∧
  1 ≤ max_unique_names (budget d) ∧ 1 ≤ max_dynamic_labels (budget d).

(** The [u32] and [u64] fields are not negative. *)
Definition dns_unsigned (d : DnsPolicy) : Prop :=
  0 ≤ max_ttl_secs d ∧ 0 ≤ window_secs (budget d).

Lemma validate_dns_controls_spec (d : DnsPolicy) :
  validate_dns_controls d = Ok tt ↔ dns_controls_ok d.
Proof.
  unfold validate_dns_controls, dns_controls_ok. split.
  - intros H. repeat (destruct_match_in H; [discriminate|]). bool_to_prop.
    apply Nat.eqb_neq in Heqb4. rewrite length_zero_iff_nil in Heqb4. repeat split; lia || done.
  - intros H. repeat (destruct_match; bool_to_prop; [exfalso|]); try done.
    all: repeat match goal with
         | H : _ || _ = true |- _ => apply orb_true_iff in H as [H|H]; bool_to_prop
         | H : (_ =? _)%nat = true |- _ => apply Nat.eqb_eq, length_zero_iff_nil in H
         end; tauto || lia.
Qed.

Lemma normalize_patterns_ok (raw ps : list (list Z)) (f : policy_list) :
  normalize_patterns raw f = Ok ps ↔ Forall2 (λ r p, normalize_pattern r = Ok p) raw ps.
Proof.
  unfold normalize_patterns. rewrite collect_ok.
  split; intros H; (eapply Forall2_impl; [exact H|]); intros r p; simpl; destruct (normalize_pattern r); naive_solver.
Qed.

Lemma parse_networks_ok (raw : list (list Z)) (ns : list ipnet) (f : policy_list) :
  parse_networks raw f = Ok ns ↔ Forall2 (λ r n, parse_ip_or_cidr r = Some n) raw ns.
Proof.
  unfold parse_networks. rewrite collect_ok.
  split; intros H; (eapply Forall2_impl; [exact H|]); intros r p; simpl; destruct (parse_ip_or_cidr r); naive_solver.
Qed.

(** What the engine keeps of a policy that compiles. *)
Definition compiled_from (policy : NetworkPolicy) (e : PolicyEngine) : Prop :=
  Forall2 (λ r p, normalize_pattern r = Ok p) (allowed_domains policy) (e_allowed_domains e) ∧
  Forall2 (λ r p, normalize_pattern r = Ok p) (blocked_domains policy) (e_blocked_domains e) ∧
  Forall2 (λ r n, parse_ip_or_cidr r = Some n) (allowed_networks policy) (e_allowed_networks e) ∧
  Forall2 (λ r n, parse_ip_or_cidr r = Some n) (blocked_networks policy) (e_blocked_networks e) ∧
  dns_controls_ok (dns policy) ∧ e_dns e = dns policy ∧
  1 ≤ e_max_concurrent_connections e ≤ MAX_CONNECTIONS_CEILING ∧
  e_max_concurrent_connections e = default DEFAULT_MAX_CONNECTIONS (max_connections policy) ∧
  e_default_action e = default_action policy ∧ e_allow_dns e = allow_dns policy ∧
  e_allowed_ports e = allowed_ports policy ∧
  (e_github_meta e = true ↔
     str "github.com" ∈ e_allowed_domains e ∧
     ¬ some_pattern (e_blocked_domains e) (str "github.com")).

Lemma github_meta_flag (allowed blocked : list (list Z)) :
  existsb (λ name, bool_decide (name = str "github.com")) allowed &&
  negb (existsb (λ pattern, pattern_matches pattern (str "github.com")) blocked) = true ↔
  str "github.com" ∈ allowed ∧ ¬ some_pattern blocked (str "github.com").
Proof.
  rewrite andb_true_iff, negb_true_iff, existsb_not_elem, existsb_elem.
  setoid_rewrite bool_decide_eq_true. unfold some_pattern. naive_solver.
Qed.

Lemma compile_from (policy : NetworkPolicy) (e : PolicyEngine) :
  compile policy = Ok e → compiled_from policy e.
Proof.
  unfold compile. intros H.
  destruct (normalize_patterns (allowed_domains policy) _) eqn:H1; [|done].
  destruct (normalize_patterns (blocked_domains policy) _) eqn:H2; [|done].
  destruct (parse_networks (allowed_networks policy) _) eqn:H3; [|done].
  destruct (parse_networks (blocked_networks policy) _) eqn:H4; [|done].
  destruct (validate_dns_controls _) as [[]|] eqn:H5; [|done].
  destruct (resolve_max_connections _) eqn:H6; [|done].
  apply resolve_max_connections_bounds in H6 as [? ?].
  injection H as <-. unfold compiled_from. cbn -[MAX_CONNECTIONS_CEILING str].
  rewrite github_meta_flag.
  by apply normalize_patterns_ok in H1, H2; apply parse_networks_ok in H3, H4;
    apply validate_dns_controls_spec in H5.
Qed.

(** ** Properties *)

(** a hostname connection is allowed exactly when the address passes (it is
    not unspecified, not in a blocked network, and not of a restricted class
    unless an allowed network contains it), the port and protocol are permitted,
    and the canonical name matches no blocked pattern and matches an allowed or a
    published one or the default action is to allow; the decision carries the
    class of the address on every branch. *)
Theorem hostname_decision (s : PolicySnapshot) (name : list Z) (ip : ip_addr) (port : Z)
    (protocol : Protocol) :
  (allowed (decide_hostname s name ip port protocol) = true ↔
     address_ok s ip ∧ port_ok s protocol port ∧
     ∃ d, normalize_domain name = Ok d ∧ domain_ok s d) ∧
  address_class (decide_hostname s name ip port protocol) = classify ip.
Proof.
  split; [apply decide_hostname_spec|].
  unfold decide_hostname. pose proof (check_address_spec s ip) as H.
  destruct (check_address s ip) as [[c k]|d]; [|by destruct H as (_ & ? & _)].
  destruct H as (_ & <- & _). by repeat destruct_match.
Qed.

(** a direct-IP connection is allowed exactly when the address passes, the
    port and protocol are permitted, and an allowed network or a published one
    contains the address or the default action is to allow; domain rules play no
    part. *)
Theorem direct_ip_decision (s : PolicySnapshot) (ip : ip_addr) (port : Z)
    (protocol : Protocol) :
  (allowed (decide_direct_ip s ip port protocol) = true ↔
     address_ok s ip ∧ port_ok s protocol port ∧ direct_ok s ip) ∧
  address_class (decide_direct_ip s ip port protocol) = classify ip.
Proof.
  split; [apply decide_direct_ip_spec|].
  unfold decide_direct_ip. pose proof (check_address_spec s ip) as H.
  destruct (check_address s ip) as [[c k]|d]; [|by destruct H as (_ & ? & _)].
  destruct H as (_ & <- & _). by repeat destruct_match.
Qed.

(** C34: whatever the domain rules, the published scope and the default action
    say, a connection to an address of a special range is allowed only if an
    explicit allowed network contains its canonical form, and never if a blocked
    network does. *)
Theorem special_needs_network_grant (s : PolicySnapshot) (name : list Z) (ip : ip_addr)
    (port : Z) (protocol : Protocol) (Hwf : ip_wf ip) (Hsp : special ip)
    (Hallowed : allowed (decide_hostname s name ip port protocol) = true ∨
                allowed (decide_direct_ip s ip port protocol) = true) :
  in_networks (e_allowed_networks (engine s)) (canonicalize ip) ∧
  ¬ in_networks (e_blocked_networks (engine s)) (canonicalize ip).
Proof.
  assert (address_ok s ip) as (_ & Hb & Hr).
  { destruct Hallowed as [H|H];
      [apply decide_hostname_spec in H | apply decide_direct_ip_spec in H]; tauto. }
  split; [|done]. apply Hr. rewrite classify_canonicalize. by apply restricted_special.
Qed.

(** the two spellings of an IPv4 destination, plain and IPv4-mapped, get the
    same decisions, reason and class included. *)
Theorem mapped_address_same_decision (s : PolicySnapshot) (name : list Z) (v port : Z)
    (protocol : Protocol) (Hv : 0 ≤ v ≤ v4_max) :
  decide_hostname s name (V6 (65535 * 2 ^ 32 + v)) port protocol =
    decide_hostname s name (V4 v) port protocol ∧
  decide_direct_ip s (V6 (65535 * 2 ^ 32 + v)) port protocol =
    decide_direct_ip s (V4 v) port protocol.
Proof.
  assert (check_address s (V6 (65535 * 2 ^ 32 + v)) = check_address s (V4 v)) as E.
  { unfold check_address. cbn [canonicalize]. by rewrite to_ipv4_mapped_mapped. }
  unfold decide_hostname, decide_direct_ip. by rewrite E.
Qed.

(** compilation keeps the policy: every domain pattern is the normal form of
    the entry at its place, every network the one its entry denotes, the DNS
    controls are in range, the connection cap is the configured one and lies
    between 1 and 65535, and the Meta scope is enabled exactly when [github.com]
    is allowed by name and not blocked; so a host that a blocked entry matches is
    denied by the compiled engine, whatever scope is active. *)
Theorem compile_keeps_policy (policy : NetworkPolicy) (e : PolicyEngine)
    (Hc : compile policy = Ok e) :
  compiled_from policy e ∧
  ∀ raw pattern name d scope r ip port protocol,
    raw ∈ blocked_domains policy → normalize_pattern raw = Ok pattern →
    normalize_domain name = Ok d → pattern_matches pattern d = true →
    allowed (decide_hostname {| engine := e; github_scope := scope; revision := r |}
               name ip port protocol) = false.
Proof.
  apply compile_from in Hc. split; [done|].
  intros raw pattern name d scope r ip port protocol Hin Hp Hd Hm.
  apply not_true_iff_false. intros H. apply decide_hostname_spec in H
    as (_ & _ & d' & Hd' & Hnb & _). simplify_res. destruct Hnb.
  destruct Hc as (_ & Hb & _). apply list_elem_of_lookup in Hin as [i Hi].
  destruct (Forall2_lookup_l _ _ _ _ _ Hb Hi) as (p & Hl & Hn). simplify_res.
  exists p. split; [by eapply list_elem_of_lookup_2|done].
Qed.

End Policy.

Arguments PolicyEngine : clear implicits.
Arguments PolicySnapshot : clear implicits.

(** the validator of the policy document and the check the engine makes when
    it compiles accept the same DNS controls. *)
Theorem dns_validators_agree (d : DnsPolicy) (Hu : dns_unsigned d) :
  dns_validate d = [] ↔ validate_dns_controls d = Ok tt.
Proof.
  rewrite validate_dns_controls_spec. destruct Hu. unfold dns_validate, dns_controls_ok.
  assert (∀ (b : bool) (f : dns_field) l,
    (if b then [] else [f]) ++ l = [] ↔ b = true ∧ l = []) as E.
  { intros [] f l; simpl; naive_solver. }
  rewrite !E. assert (∀ (b : bool) (f : dns_field),
    (if b then [] else [f]) = [] ↔ b = true) as E1 by (intros [] ?; naive_solver).
  rewrite E1, !andb_true_iff, negb_true_iff, Nat.eqb_neq, length_zero_iff_nil,
    !Z.ltb_lt, !Z.leb_le. naive_solver lia.
Qed.

(** ** Witnesses *)

Definition sample_policy : NetworkPolicy :=
  {| default_action := Deny;
     allowed_domains := [str "GitHub.com"; str "*.example.org."];
     blocked_domains := [str "*.tracker.example.org"];
     allow_dns := true;
     max_connections := None;
     allowed_networks := [str "10.1.0.0/16"];
     blocked_networks := [str "10.1.2.3"];
     allowed_ports := [{| rule_protocol := Tcp; rule_port := 443 |}];
     dns := DnsPolicy_default |}.

Definition sample_engine : PolicyEngine cidr :=
  {| e_default_action := Deny;
     e_allow_dns := true;
     e_allowed_domains := [str "github.com"; str "*.example.org"];
     e_blocked_domains := [str "*.tracker.example.org"];
     e_allowed_networks := [Cidr4 167837696 16];
     e_blocked_networks := [Cidr4 167838211 32];
     e_allowed_ports := [{| rule_protocol := Tcp; rule_port := 443 |}];
     e_max_concurrent_connections := 100;
     e_dns := DnsPolicy_default;
     e_github_meta := true |}.

Definition sample_snapshot : PolicySnapshot cidr :=
  {| engine := sample_engine; github_scope := None; revision := 0 |}.

Lemma special_needs_network_grant_witness :
  in_networks (e_allowed_networks (engine sample_snapshot)) (V4 167837697) ∧
  ¬ in_networks (e_blocked_networks (engine sample_snapshot)) (V4 167837697).
Proof.
  apply (special_needs_network_grant sample_snapshot (str "github.com") (V4 167837697) 443 Tcp).
  - vm_compute. intuition discriminate.
  - exists PrivateRfc1918. left. vm_compute. intuition discriminate.
  - right. vm_compute. reflexivity.
Defined.

Lemma mapped_address_same_decision_witness :
  decide_direct_ip sample_snapshot (V6 (65535 * 2 ^ 32 + 167838211)) 443 Tcp =
  decide_direct_ip sample_snapshot (V4 167838211) 443 Tcp.
Proof.
  apply (mapped_address_same_decision sample_snapshot (str "a.example.org") 167838211 443 Tcp).
  vm_compute. intuition discriminate.
Defined.

Lemma compile_keeps_policy_witness : compiled_from sample_policy sample_engine.
Proof.
  apply (compile_keeps_policy sample_policy sample_engine). vm_compute. reflexivity.
Defined.

Lemma dns_validators_agree_witness :
  dns_validate DnsPolicy_default = [] ↔ validate_dns_controls DnsPolicy_default = Ok tt.
Proof. apply dns_validators_agree. split; vm_compute; discriminate. Defined.
