(* ===== verification/AuthCache.v ===== *)
(** * The authorization cache ([crates/sendbox-egress/src/authorization.rs])

    The expiring map from (normalized name, address) to authorizations that ties
    a CONNECT to an address a DNS answer was validated for.  [AuthStore] is the
    interface the brokers use, with the laws they rely on; [AuthorizationCache]
    implements it.  The main theorems bound the cache by its capacity,
    characterize what a lookup returns, and trace every returned address to the
    [authorize] call that put it there. *)

From S2P Require Import Prelude RustStr Net.

(** ** Interface *)

(** What the brokers rely on: [store_entry c name ip rev exp] says that the store
    holds an authorization of [ip] for [name] under revision [rev] that expires
    at [exp]. *)
Class AuthStore (C : Type) : Type := {
  store_authorize : Z → list Z → ip_addr → Z → Z → C → C;
  store_addresses : Z → list Z → Z → C → list ip_addr * C;
  store_clear : C → C;
  store_entry : C → list Z → ip_addr → Z → Z → Prop;
}.

Class AuthStoreLaws (C : Type) `{S : AuthStore C} : Prop := {
  store_authorize_entry (now : Z) (name : list Z) (ip : ip_addr) (ttl rev : Z) (c : C)
      (name' : list Z) (ip' : ip_addr) (rev' exp' : Z) :
    store_entry (store_authorize now name ip ttl rev c) name' ip' rev' exp' →
    (name' = name ∧ ip' = ip ∧ rev' = rev ∧ exp' = now + ttl) ∨
    store_entry c name' ip' rev' exp';
  store_addresses_sound (now : Z) (name : list Z) (rev : Z) (c : C) (ip : ip_addr) :
    ip ∈ (store_addresses now name rev c).1 →
    ∃ exp, now < exp ∧ store_entry c name ip rev exp;
  store_addresses_entry (now : Z) (name : list Z) (rev : Z) (c : C)
      (name' : list Z) (ip' : ip_addr) (rev' exp' : Z) :
    store_entry (store_addresses now name rev c).2 name' ip' rev' exp' →
    store_entry c name' ip' rev' exp';
  store_clear_entry (c : C) (name' : list Z) (ip' : ip_addr) (rev' exp' : Z) :
    ¬ store_entry (store_clear c) name' ip' rev' exp';
}.

(** ** Definitions *)

Definition DEFAULT_CAPACITY : Z := 4096.

Record Authorization : Type := { expires_at : Z; auth_revision : Z }.

Definition auth_key : Type := list Z * ip_addr.

Record AuthorizationCache : Type := {
  entries : gmap auth_key Authorization;
  capacity : Z;
}.

Definition with_capacity (capacity : Z) : AuthorizationCache :=
  {| entries := ∅; capacity := Z.max capacity 1 |}.

Definition capacity_for (max_unique_names max_response_records : Z) : Z :=
  Z.max (saturating_mul u64_max max_unique_names max_response_records) 64.

Definition cache_len (c : AuthorizationCache) : Z := Z.of_nat (size (entries c)).

(** The derived order of [(String, IpAddr)]. *)
Definition key_leb (x y : auth_key) : bool :=
  if decide (x.1 = y.1) then ip_leb x.2 y.2 else bytes_leb x.1 y.1.

(** The order of the eviction: earliest expiry, ties by key. *)
Definition evict_leb (x y : auth_key * Authorization) : bool :=
  (expires_at x.2 <? expires_at y.2) ||
  ((expires_at x.2 =? expires_at y.2) && key_leb x.1 y.1).

(** [entries.retain(|_, entry| entry.expires_at > now)]. *)
Definition retain_live (now : Z) (m : gmap auth_key Authorization)
  : gmap auth_key Authorization :=
  filter (λ ka, now < expires_at ka.2) m.

Definition authorize_for_revision (now : Z) (name : list Z) (ip : ip_addr) (ttl revision : Z)
    (c : AuthorizationCache) : AuthorizationCache :=
  let expires := now + ttl in
  let live := retain_live now (entries c) in
  let key := (name, ip) in
  let room :=
    if bool_decide (live !! key = None) && (capacity c <=? Z.of_nat (size live))
    then match min_by evict_leb (map_to_list live) with
         | Some (evict, _) => delete evict live
         | None => live
         end
    else live in
  {| entries := <[key := {| expires_at := expires; auth_revision := revision |}]> room;
     capacity := capacity c |}.

Definition authorize (now : Z) (name : list Z) (ip : ip_addr) (ttl : Z)
    (c : AuthorizationCache) : AuthorizationCache :=
  authorize_for_revision now name ip ttl 0 c.

Definition is_authorized (now : Z) (name : list Z) (ip : ip_addr) (c : AuthorizationCache)
  : bool * AuthorizationCache :=
  match entries c !! (name, ip) with
  | Some entry =>
      if now <? expires_at entry then (auth_revision entry =? 0, c)
      else (false, {| entries := delete (name, ip) (entries c); capacity := capacity c |})
  | None => (false, c)
  end.

Definition authorized_addresses_for_revision (now : Z) (name : list Z) (revision : Z)
    (c : AuthorizationCache) : list ip_addr * AuthorizationCache :=
  let live := retain_live now (entries c) in
  let mine :=
    filter (λ ka, ka.1.1 = name ∧ auth_revision ka.2 = revision) (map_to_list live) in
  (sort_by ip_leb ((λ ka, ka.1.2) <$> mine), {| entries := live; capacity := capacity c |}).

Definition authorized_addresses (now : Z) (name : list Z) (c : AuthorizationCache)
  : list ip_addr * AuthorizationCache :=
  authorized_addresses_for_revision now name 0 c.

Definition cache_clear (c : AuthorizationCache) : AuthorizationCache :=
  {| entries := ∅; capacity := capacity c |}.

#[global] Instance cache_store : AuthStore AuthorizationCache := {|
  store_authorize := authorize_for_revision;
  store_addresses := authorized_addresses_for_revision;
  store_clear := cache_clear;
  store_entry := λ c name ip rev exp,
    entries c !! (name, ip) = Some {| expires_at := exp; auth_revision := rev |};
|}.

(** ** Specification *)

(** The cache grants [ip] for [name] under [rev] at instant [now]. *)
Definition grants (c : AuthorizationCache) (now : Z) (name : list Z) (ip : ip_addr) (rev : Z)
  : Prop :=
  ∃ a, entries c !! (name, ip) = Some a ∧ now < expires_at a ∧ auth_revision a = rev.

(** The size invariant. *)
Definition cache_ok (c : AuthorizationCache) : Prop :=
  1 ≤ capacity c ∧ cache_len c ≤ capacity c.

(** One operation on the cache, with the instant it runs at. *)
Inductive cache_op : Type :=
| OpAuthorize (name : list Z) (ip : ip_addr) (ttl rev : Z)
| OpIsAuthorized (name : list Z) (ip : ip_addr)
| OpAddresses (name : list Z) (rev : Z)
| OpClear.

Definition apply_op (t : Z) (op : cache_op) (c : AuthorizationCache) : AuthorizationCache :=
  match op with
  | OpAuthorize name ip ttl rev => authorize_for_revision t name ip ttl rev c
  | OpIsAuthorized name ip => (is_authorized t name ip c).2
  | OpAddresses name rev => (authorized_addresses_for_revision t name rev c).2
  | OpClear => cache_clear c
  end.

Definition run_ops (ops : list (Z * cache_op)) (c : AuthorizationCache) : AuthorizationCache :=
  foldl (λ c o, apply_op o.1 o.2 c) c ops.

(** The operations that end an earlier authorization of [(name, ip)]. *)
Definition supersedes (name : list Z) (ip : ip_addr) (op : cache_op) : Prop :=
  match op with
  | OpAuthorize n i _ _ => n = name ∧ i = ip
  | OpClear => True
  | _ => False
  end.

(** ** Lemmas: the order of eviction *)

Lemma key_leb_total (x y : auth_key) : key_leb x y = true ∨ key_leb y x = true.
Proof.
  unfold key_leb. destruct (decide (x.1 = y.1)) as [E|E].
  - rewrite decide_True by done. apply ip_leb_total.
  - rewrite decide_False by done. apply bytes_leb_total.
Qed.

Lemma key_leb_trans (x y z : auth_key) :
  key_leb x y = true → key_leb y z = true → key_leb x z = true.
Proof.
  unfold key_leb.
  destruct (decide (x.1 = y.1)) as [E|E], (decide (y.1 = z.1)) as [E'|E'].
  - rewrite decide_True by congruence. apply ip_leb_trans.
  - rewrite decide_False by congruence. by rewrite E.
  - rewrite decide_False by congruence. by rewrite <-E'.
  - intros H1 H2. rewrite decide_False; [by eapply bytes_leb_trans|].
    intros E2. rewrite <-E2 in H2. by destruct E; apply bytes_leb_antisym.
Qed.

Lemma evict_leb_total (x y : auth_key * Authorization) :
  evict_leb x y = true ∨ evict_leb y x = true.
Proof.
  unfold evict_leb. rewrite !orb_true_iff, !andb_true_iff, !Z.ltb_lt, !Z.eqb_eq.
  destruct (key_leb_total x.1 y.1), (Z.lt_trichotomy (expires_at x.2) (expires_at y.2));
    naive_solver.
Qed.

Lemma evict_leb_trans (x y z : auth_key * Authorization) :
  evict_leb x y = true → evict_leb y z = true → evict_leb x z = true.
Proof.
  unfold evict_leb. rewrite !orb_true_iff, !andb_true_iff, !Z.ltb_lt, !Z.eqb_eq.
  intros [?|[? ?]] [?|[? ?]]; [left; lia..|right].
  split; [lia|]. by eapply key_leb_trans.
Qed.

Lemma evict_leb_expires (x y : auth_key * Authorization) :
  evict_leb x y = true → expires_at x.2 ≤ expires_at y.2.
Proof. unfold evict_leb. rewrite orb_true_iff, andb_true_iff, Z.ltb_lt, Z.eqb_eq. lia. Qed.

(** ** Lemmas: the map *)

Lemma retain_live_Some (now : Z) (m : gmap auth_key Authorization) (k : auth_key)
    (a : Authorization) :
  retain_live now m !! k = Some a ↔ m !! k = Some a ∧ now < expires_at a.
Proof. unfold retain_live. by rewrite map_lookup_filter_Some. Qed.

Lemma size_retain_live (now : Z) (m : gmap auth_key Authorization) :
  (size (retain_live now m) ≤ size m)%nat.
Proof. apply map_subseteq_size, map_filter_subseteq. Qed.

(** The map before the insertion: the live entries, one of earliest expiry
    dropped when the key is new and the cache is full. *)
Definition room_for (now : Z) (key : auth_key) (c : AuthorizationCache)
  : gmap auth_key Authorization :=
  let live := retain_live now (entries c) in
  if bool_decide (live !! key = None) && (capacity c <=? Z.of_nat (size live))
  then match min_by evict_leb (map_to_list live) with
       | Some (evict, _) => delete evict live
       | None => live
       end
  else live.

Lemma authorize_room (now : Z) (name : list Z) (ip : ip_addr) (ttl rev : Z)
    (c : AuthorizationCache) :
  authorize_for_revision now name ip ttl rev c =
  {| entries := <[(name, ip) := {| expires_at := now + ttl; auth_revision := rev |}]>
                  (room_for now (name, ip) c);
     capacity := capacity c |}.
Proof. done. Qed.

Lemma room_for_cases (now : Z) (key : auth_key) (c : AuthorizationCache) :
  let live := retain_live now (entries c) in
  (room_for now key c = live ∧ (is_Some (live !! key) ∨ Z.of_nat (size live) < capacity c)) ∨
  (live = ∅ ∧ room_for now key c = ∅) ∨
  (∃ evict a, live !! key = None ∧ capacity c ≤ Z.of_nat (size live) ∧
     live !! evict = Some a ∧ room_for now key c = delete evict live ∧
     ∀ k b, live !! k = Some b → expires_at a ≤ expires_at b).
Proof.
  cbv zeta. unfold room_for. set (live := retain_live now (entries c)).
  destruct (bool_decide (live !! key = None) && _) eqn:E.
  - bool_to_prop. pose proof (min_by_least evict_leb evict_leb_total evict_leb_trans
      (map_to_list live)) as Hmin.
    destruct (min_by _ _) as [[evict a]|].
    + destruct Hmin as [Hin Hle]. apply elem_of_map_to_list in Hin.
      right. right. exists evict, a. split_and!; try done.
      intros k b Hk%elem_of_map_to_list. by apply Hle, evict_leb_expires in Hk.
    + apply map_to_list_empty_iff in Hmin. auto.
  - left. split; [done|]. apply andb_false_iff in E as [E|E]; bool_to_prop; [left|right; lia].
    destruct (live !! key); [eauto|done].
Qed.

Lemma room_for_subseteq (now : Z) (key : auth_key) (c : AuthorizationCache) :
  room_for now key c ⊆ retain_live now (entries c).
Proof.
  destruct (room_for_cases now key c) as [[-> _]|[[-> ->]|(k & a & _ & _ & _ & -> & _)]];
    [done|done|apply delete_subseteq].
Qed.

Lemma room_for_size (now : Z) (key : auth_key) (c : AuthorizationCache) :
  cache_ok c →
  Z.of_nat (size (<[key := {| expires_at := 0; auth_revision := 0 |}]> (room_for now key c)))
    ≤ capacity c.
Proof.
  intros [Hc Hl]. unfold cache_len in Hl.
  pose proof (size_retain_live now (entries c)) as Hs.
  destruct (room_for_cases now key c)
    as [[-> [Hk|Hk]]|[[_ ->]|(k & a & Hk & Hge & Ha & -> & _)]].
  - rewrite map_size_insert_Some by done. lia.
  - rewrite map_size_insert. destruct (_ !! _); unfold id; lia.
  - rewrite map_size_insert_None by apply lookup_empty. rewrite map_size_empty. lia.
  - rewrite map_size_insert_None.
    + rewrite map_size_delete_Some by eauto.
      assert (size (retain_live now (entries c)) ≠ 0%nat); [|lia].
      intros E0%map_size_empty_iff. by rewrite E0, lookup_empty in Ha.
    + rewrite lookup_delete_None. auto.
Qed.

Lemma insert_size_irrel (k : auth_key) (a b : Authorization)
    (m : gmap auth_key Authorization) :
  size (<[k := a]> m) = size (<[k := b]> m).
Proof. by rewrite !map_size_insert. Qed.

Lemma apply_op_ok (t : Z) (op : cache_op) (c : AuthorizationCache) :
  cache_ok c → cache_ok (apply_op t op c).
Proof.
  intros Hc. pose proof Hc as [H1 H2]. unfold cache_len in H2.
  destruct op as [name ip ttl rev|name ip|name rev|]; cbn [apply_op].
  - rewrite authorize_room. split; [done|]. unfold cache_len. cbn [entries capacity].
    rewrite (insert_size_irrel _ _ {| expires_at := 0; auth_revision := 0 |}).
    by apply room_for_size.
  - unfold is_authorized. destruct (entries c !! _); [|done].
    destruct (_ <? _); [done|]. split; [done|]. unfold cache_len. cbn [entries capacity snd].
    assert (size (delete (name, ip) (entries c)) ≤ size (entries c))%nat; [|lia].
    apply map_subseteq_size, delete_subseteq.
  - split; [done|]. unfold cache_len.
    cbn [entries capacity authorized_addresses_for_revision snd]. pose proof (size_retain_live t (entries c)). lia.
  - split; [done|]. unfold cache_len. cbn [entries capacity cache_clear]. rewrite map_size_empty. lia.
Qed.

Lemma with_capacity_ok (cap : Z) : cache_ok (with_capacity cap).
Proof. unfold cache_ok, with_capacity, cache_len. simpl. rewrite map_size_empty. lia. Qed.

(** The entries of one name and revision, as the pairs of the map. *)
Lemma addresses_elem (now : Z) (name : list Z) (rev : Z) (c : AuthorizationCache)
    (ip : ip_addr) :
  ip ∈ (authorized_addresses_for_revision now name rev c).1 ↔ grants c now name ip rev.
Proof.
  unfold authorized_addresses_for_revision, grants. cbn [fst].
  rewrite elem_of_sort_by, list_elem_of_fmap. split.
  - intros ([[n i] a] & -> & Hin). apply list_elem_of_filter in Hin as [[Hn Hr] Hin].
    apply elem_of_map_to_list, retain_live_Some in Hin as [Hl He].
    simpl in *. subst. eauto.
  - intros (a & Hl & He & Hr). exists ((name, ip), a). split; [done|].
    apply list_elem_of_filter. split; [done|]. by apply elem_of_map_to_list, retain_live_Some.
Qed.

Lemma addresses_NoDup (now : Z) (name : list Z) (rev : Z) (c : AuthorizationCache) :
  NoDup (authorized_addresses_for_revision now name rev c).1.
Proof.
  unfold authorized_addresses_for_revision. cbn [fst]. rewrite sort_by_perm.
  set (mine := filter _ _).
  assert (∀ x y, x ∈ mine → y ∈ mine → x.1.2 = y.1.2 → x = y) as Hinj.
  { intros [[n1 i1] a1] [[n2 i2] a2] H1 H2.
    apply list_elem_of_filter in H1 as [[Hn1 _] H1%elem_of_map_to_list].
    apply list_elem_of_filter in H2 as [[Hn2 _] H2%elem_of_map_to_list].
    simpl in *. intros ->. subst. by simplify_eq. }
  assert (NoDup mine) as Hnd by apply NoDup_filter, NoDup_map_to_list.
  clearbody mine. induction Hnd as [|x l Hx Hl IH]; simpl; constructor.
  - rewrite list_elem_of_fmap. intros (y & E & Hy). apply Hx.
    by rewrite (Hinj x y) by set_solver.
  - apply IH. intros. apply Hinj; set_solver.
Qed.

Lemma entry_after_op (t : Z) (op : cache_op) (c : AuthorizationCache) (name : list Z)
    (ip : ip_addr) (a : Authorization) :
  entries (apply_op t op c) !! (name, ip) = Some a →
  (∃ ttl rev, op = OpAuthorize name ip ttl rev ∧ a = Build_Authorization (t + ttl) rev) ∨
  (¬ supersedes name ip op ∧ entries c !! (name, ip) = Some a).
Proof.
  destruct op as [n i ttl rev|n i|n rev|]; cbn [apply_op supersedes].
  - rewrite authorize_room. cbn [entries]. intros H.
    apply lookup_insert_Some in H as [[[= -> ->] <-]|[Hne H]]; [by eauto|right].
    split; [naive_solver|].
    eapply lookup_weaken in H; [|apply room_for_subseteq]. by apply retain_live_Some in H as [? _].
  - unfold is_authorized. destruct (entries c !! (n, i)); [|auto].
    destruct (_ <? _); simpl; [auto|]. intros [_ H]%lookup_delete_Some. auto.
  - cbn [authorized_addresses_for_revision snd entries].
    intros [H _]%retain_live_Some. auto.
  - cbn. intros H. by rewrite lookup_empty in H.
Qed.

Lemma entry_history (cap : Z) (ops : list (Z * cache_op)) (name : list Z) (ip : ip_addr)
    (a : Authorization) :
  entries (run_ops ops (with_capacity cap)) !! (name, ip) = Some a →
  ∃ ops1 t ttl ops2,
    ops = ops1 ++ (t, OpAuthorize name ip ttl (auth_revision a)) :: ops2 ∧
    expires_at a = t + ttl ∧ Forall (λ o, ¬ supersedes name ip o.2) ops2.
Proof.
  induction ops as [|[t op] ops IH] using rev_ind.
  { simpl. by rewrite lookup_empty. }
  unfold run_ops. rewrite foldl_app. cbn [foldl fst snd].
  intros [(ttl & rev & -> & ->)|[Hs H]]%entry_after_op.
  - by exists ops, t, ttl, [].
  - destruct (IH H) as (ops1 & t' & ttl & ops2 & -> & He & Hf).
    exists ops1, t', ttl, (ops2 ++ [(t, op)]). rewrite <-app_assoc. split; [done|].
    split; [done|]. apply Forall_app. auto.
Qed.

#[global] Instance cache_store_laws : AuthStoreLaws AuthorizationCache.
Proof.
  split; simpl.
  - intros now name ip ttl rev c name' ip' rev' exp' H.
    apply (entry_after_op now (OpAuthorize name ip ttl rev) c) in H
      as [(? & ? & [= -> -> -> ->] & [= -> ->])|[_ H]]; auto.
  - intros now name rev c ip ([e r] & H & He & Hr)%addresses_elem. simpl in *. subst. eauto.
  - intros now name rev c name' ip' rev' exp' H.
    apply (entry_after_op now (OpAddresses name rev) c) in H as [(? & ? & ? & _)|[_ H]]; done.
  - intros c name' ip' rev' exp' H. by rewrite lookup_empty in H.
Qed.

(** ** Properties *)

(** Whatever sequence of operations runs on a new cache, at whatever
    instants, it never holds more entries than its capacity, which is at least
    one. *)
Theorem cache_never_exceeds_capacity (cap : Z) (ops : list (Z * cache_op)) :
  cache_ok (run_ops ops (with_capacity cap)).
Proof.
  induction ops as [|[t op] ops IH] using rev_ind; [apply with_capacity_ok|].
  unfold run_ops. rewrite foldl_app. by apply apply_op_ok.
Qed.

(** a lookup returns, in ascending order and without repetition, exactly the
    addresses that have an unexpired authorization for that name under that
    revision, and the entries it drops could never be returned again. *)
Theorem lookup_is_exact (now : Z) (name : list Z) (rev : Z) (c : AuthorizationCache) :
  let '(ips, c') := authorized_addresses_for_revision now name rev c in
  NoDup ips ∧ Sorted (λ x y, ip_leb x y = true) ips ∧
  (∀ ip, ip ∈ ips ↔ grants c now name ip rev) ∧
  (∀ t name' ip' rev', now ≤ t → grants c' t name' ip' rev' ↔ grants c t name' ip' rev').
Proof.
  pose proof (addresses_elem now name rev c) as He.
  pose proof (addresses_NoDup now name rev c) as Hn.
  destruct (authorized_addresses_for_revision now name rev c) as [ips c'] eqn:E.
  unfold authorized_addresses_for_revision in E. injection E as Hips <-.
  split_and!; [done| |done|].
  - rewrite <-Hips. apply sort_by_sorted, ip_leb_total.
  - intros t name' ip' rev' Ht. unfold grants. cbn [entries].
    setoid_rewrite retain_live_Some. split; [naive_solver|].
    intros (a & ? & ? & ?). exists a. split_and!; [done|lia|done|done].
Qed.

(** [authorize] makes the address usable until its time to live ends, adds no
    other authorization, and drops no unexpired authorization of another key,
    except one of earliest expiry when the cache is full. *)
Theorem authorize_effect (now : Z) (name : list Z) (ip : ip_addr) (ttl rev : Z)
    (c : AuthorizationCache) :
  let c' := authorize_for_revision now name ip ttl rev c in
  (∀ t rev', grants c' t name ip rev' ↔ t < now + ttl ∧ rev' = rev) ∧
  (∀ t k rev', k ≠ (name, ip) → grants c' t k.1 k.2 rev' → grants c t k.1 k.2 rev') ∧
  ((∀ t k rev', now ≤ t → k ≠ (name, ip) →
      grants c t k.1 k.2 rev' → grants c' t k.1 k.2 rev') ∨
   (∃ evict a, entries c !! evict = Some a ∧ now < expires_at a ∧
      capacity c ≤ cache_len c ∧
      (∀ k b, entries c !! k = Some b → now < expires_at b → expires_at a ≤ expires_at b) ∧
      (∀ t k rev', now ≤ t → k ≠ (name, ip) → k ≠ evict →
         grants c t k.1 k.2 rev' → grants c' t k.1 k.2 rev'))).
Proof.
  cbv zeta. rewrite authorize_room. unfold grants. cbn [entries].
  split; [|split].
  - intros t rev'. setoid_rewrite lookup_insert_Some. simpl. naive_solver.
  - intros t [n i] rev' Hk (a & Ha & ?). rewrite lookup_insert_ne in Ha by done.
    eapply lookup_weaken in Ha; [|apply room_for_subseteq].
    apply retain_live_Some in Ha as [Ha _]. eauto.
  - assert (∀ t k b rev', now ≤ t → k ≠ (name, ip) →
      room_for now (name, ip) c !! k = Some b →
      t < expires_at b ∧ auth_revision b = rev' →
      ∃ a, <[(name, ip):={| expires_at := now + ttl; auth_revision := rev |}]>
             (room_for now (name, ip) c) !! (k.1, k.2) = Some a ∧
           t < expires_at a ∧ auth_revision a = rev') as Hkeep.
    { intros t [n i] b rev' Ht Hk Hb Hg. exists b. by rewrite lookup_insert_ne. }
    assert (∀ t (k : auth_key) b, now ≤ t → entries c !! (k.1, k.2) = Some b →
      t < expires_at b → retain_live now (entries c) !! k = Some b) as Hlive.
    { intros t [n i] b Ht Hb He. apply retain_live_Some. split; [done|lia]. }
    destruct (room_for_cases now (name, ip) c)
      as [[E _]|[[E E']|(evict & a & _ & Hge & Ha & E & Hmin)]].
    + left. intros t k rev' Ht Hk (b & Hb & Hg). eapply Hkeep; [done..| |done].
      rewrite E. by eapply Hlive; [| |apply Hg].
    + left. intros t k rev' Ht Hk (b & Hb & Hg).
      eapply Hlive in Hb; [|done|apply Hg]. by rewrite E, lookup_empty in Hb.
    + right. apply retain_live_Some in Ha as [Ha Hexp]. exists evict, a.
      split_and!; [done|done| | |].
      * unfold cache_len. pose proof (size_retain_live now (entries c)). lia.
      * intros k b Hb Hl. eapply Hmin. by apply retain_live_Some.
      * intros t k rev' Ht Hk Hke (b & Hb & Hg). eapply Hkeep; [done..| |done].
        rewrite E, lookup_delete_ne by done. by eapply Hlive; [| |apply Hg].
Qed.

(** C39: every address a cache grants was put there by an [authorize] call for
    that name and that revision whose time to live has not run out, and since
    that call the cache was neither cleared nor given another authorization of
    the same name and address. *)
Theorem grant_history (cap : Z) (ops : list (Z * cache_op)) (now : Z) (name : list Z)
    (ip : ip_addr) (rev : Z)
    (Hg : grants (run_ops ops (with_capacity cap)) now name ip rev) :
  ∃ ops1 t ttl ops2,
    ops = ops1 ++ (t, OpAuthorize name ip ttl rev) :: ops2 ∧
    now < t + ttl ∧ Forall (λ o, ¬ supersedes name ip o.2) ops2.
Proof.
  destruct Hg as (a & (ops1 & t & ttl & ops2 & -> & He & Hf)%entry_history & Hnow & <-).
  exists ops1, t, ttl, ops2. split_and!; [done|lia|done].
Qed.

(** ** Witnesses *)

Definition sample_ops : list (Z * cache_op) :=
  [(0, OpAuthorize (str "a.example") (V4 1) 10 0);
   (1, OpAuthorize (str "b.example") (V4 2) 5 3);
   (2, OpAddresses (str "a.example") 0);
   (3, OpAuthorize (str "b.example") (V4 2) 20 4)].

Lemma grant_history_witness :
  ∃ ops1 t ttl ops2,
    sample_ops = ops1 ++ (t, OpAuthorize (str "b.example") (V4 2) ttl 4) :: ops2 ∧
    12 < t + ttl ∧ Forall (λ o, ¬ supersedes (str "b.example") (V4 2) o.2) ops2.
Proof.
  apply (grant_history 2 sample_ops 12 (str "b.example") (V4 2) 4).
  exists {| expires_at := 23; auth_revision := 4 |}. vm_compute. auto.
Defined.
