(* ===== verification/DnsBudget.v ===== *)
(** * DNS query budgets ([crates/sendbox-egress/src/dns_budget.rs])

    The structural limits on a query name and the four per-window budgets.  The
    main theorems show that the window state stays within its limits, that a
    rejected query costs nothing, and that over any interval no longer than the
    window at most twice the budget is admitted. *)

From S2P Require Import Prelude RustStr Domain NetPolicy.

(** ** Definitions *)

Inductive DnsLimit : Type :=
| QnameOctets
| LabelCount
| LabelOctets
| QueryCount
| QueryOctets
| UniqueNames
| DynamicLabels.

#[global] Instance DnsLimit_eq_dec : EqDecision DnsLimit.
Proof. solve_decision. Defined.

Definition is_rate_budget (l : DnsLimit) : bool :=
  match l with
  | QueryCount | QueryOctets | UniqueNames | DynamicLabels => true
  | _ => false
  end.

Record WindowState : Type := {
  window_start : option Z;
  queries : Z;
  query_octets : Z;
  unique_names : gset (list Z);
  dynamic_labels : gset (list Z);
}.

Definition window_empty : WindowState :=
  {| window_start := None; queries := 0; query_octets := 0;
     unique_names := ∅; dynamic_labels := ∅ |}.

Definition window_reset (now : Z) : WindowState :=
  {| window_start := Some now; queries := 0; query_octets := 0;
     unique_names := ∅; dynamic_labels := ∅ |}.

(** The compiled limits; the mutable [WindowState] is passed beside them. *)
Record DnsGuard : Type := {
  g_max_qname_octets : Z;
  g_max_labels : Z;
  g_max_label_octets : Z;
  g_allowed_record_types : list DnsRecordType;
  g_max_response_records : Z;
  g_window : Z;
  g_max_queries : Z;
  g_max_query_octets : Z;
  g_max_unique_names : Z;
  g_max_dynamic_labels : Z;
}.

Definition guard_from_policy (policy : DnsPolicy) : DnsGuard :=
  {| g_max_qname_octets := max_qname_octets policy;
     g_max_labels := max_labels policy;
     g_max_label_octets := max_label_octets policy;
     g_allowed_record_types := allowed_record_types policy;
     g_max_response_records := max_response_records policy;
     g_window := from_secs (window_secs (budget policy));
     g_max_queries := max_queries (budget policy);
     g_max_query_octets := max_query_octets (budget policy);
     g_max_unique_names := max_unique_names (budget policy);
     g_max_dynamic_labels := max_dynamic_labels (budget policy) |}.

Definition record_type_allowed (g : DnsGuard) (t : DnsRecordType) : bool :=
  bool_decide (t ∈ g_allowed_record_types g).

(** [for label in normalized.split('.')]. *)
Fixpoint check_label_sizes (g : DnsGuard) (ls : list (list Z)) (label_count : Z)
  : result DnsLimit Z :=
  match ls with
  | [] => Ok label_count
  | label :: r =>
      if g_max_label_octets g <? Z.of_nat (length label) then Err LabelOctets
      else check_label_sizes g r (label_count + 1)
  end.

Definition check_structure (g : DnsGuard) (normalized : list Z) : result DnsLimit unit :=
  if g_max_qname_octets g <? Z.of_nat (length normalized) then Err QnameOctets
  else
    let? label_count := check_label_sizes g (split_on ch_dot normalized) 0 in
    if g_max_labels g <? label_count then Err LabelCount else Ok tt.

(** The reset at the start of [admit]. *)
Definition roll_window (g : DnsGuard) (now : Z) (w : WindowState) : WindowState :=
  let expired := match window_start w with
                 | None => true
                 | Some start => (g_window g =? 0) || (g_window g <=? elapsed now start)
                 end in
  if expired then window_reset now else w.

(** [a += b] on a [w]-bit integer, which wraps in a release build. *)
Definition wrapping_add (max a b : Z) : Z := (a + b) mod (max + 1).

Definition admit_query (g : DnsGuard) (now : Z) (normalized : list Z) (w : WindowState)
  : result DnsLimit unit * WindowState :=
  let octets := Z.of_nat (length normalized) in
  let label := leftmost_label normalized in
  let w := roll_window g now w in
  if g_max_queries g <? saturating_add u32_max (queries w) 1 then (Err QueryCount, w)
  else if g_max_query_octets g <? saturating_add u64_max (query_octets w) octets
  then (Err QueryOctets, w)
  else
    let name_is_new := negb (bool_decide (normalized ∈ unique_names w)) in
    if name_is_new && (g_max_unique_names g <=? Z.of_nat (size (unique_names w)))
    then (Err UniqueNames, w)
    else
      let label_is_new := negb (bool_decide (label ∈ dynamic_labels w)) in
      if label_is_new && (g_max_dynamic_labels g <=? Z.of_nat (size (dynamic_labels w)))
      then (Err DynamicLabels, w)
      else
        (Ok tt,
         {| window_start := window_start w;
            queries := wrapping_add u32_max (queries w) 1;
            query_octets := wrapping_add u64_max (query_octets w) octets;
            unique_names := if name_is_new then {[normalized]} ∪ unique_names w
                            else unique_names w;
            dynamic_labels := if label_is_new then {[label]} ∪ dynamic_labels w
                              else dynamic_labels w |}).

(** ** Specification *)

(** The limits leave room above them in their machine type; the two largest
    values of [u32] and [u64] do not (see [admit_wraps_at_the_largest_limit]). *)
Definition guard_ok (g : DnsGuard) : Prop :=
  0 ≤ g_max_queries g < u32_max ∧ 0 ≤ g_max_query_octets g < u64_max ∧
  0 ≤ g_max_unique_names g ∧ 0 ≤ g_max_dynamic_labels g ∧ 0 < g_window g.

(** The window counts no more than the budget, and counts what it holds. *)
Definition window_ok (g : DnsGuard) (w : WindowState) : Prop :=
  0 ≤ queries w ≤ g_max_queries g ∧
  0 ≤ query_octets w ≤ g_max_query_octets g ∧
  Z.of_nat (size (unique_names w)) ≤ g_max_unique_names g ∧
  Z.of_nat (size (dynamic_labels w)) ≤ g_max_dynamic_labels g.

(** A sequence of queries [(instant, name)], with the names admitted. *)
Fixpoint admit_all (g : DnsGuard) (qs : list (Z * list Z)) (w : WindowState)
  : list (Z * list Z) * WindowState :=
  match qs with
  | [] => ([], w)
  | (t, name) :: r =>
      let '(res, w) := admit_query g t name w in
      let '(admitted, w) := admit_all g r w in
      (if is_ok res then (t, name) :: admitted else admitted, w)
  end.

(** Instants that do not go back. *)
Fixpoint monotone_from (t : Z) (qs : list (Z * list Z)) : Prop :=
  match qs with
  | [] => True
  | (t', _) :: r => t ≤ t' ∧ monotone_from t' r
  end.

Definition total_octets (qs : list (Z * list Z)) : Z :=
  foldr (λ q acc, Z.of_nat (length q.2) + acc) 0 qs.

Definition names_of (qs : list (Z * list Z)) : gset (list Z) := list_to_set (snd <$> qs).
Definition labels_of (qs : list (Z * list Z)) : gset (list Z) :=
  list_to_set ((leftmost_label ∘ snd) <$> qs).

(** No more than one window's worth of queries. *)
Definition within_budget (g : DnsGuard) (qs : list (Z * list Z)) : Prop :=
  Z.of_nat (length qs) ≤ g_max_queries g ∧
  total_octets qs ≤ g_max_query_octets g ∧
  Z.of_nat (size (names_of qs)) ≤ g_max_unique_names g ∧
  Z.of_nat (size (labels_of qs)) ≤ g_max_dynamic_labels g.

(** The four conditions under which a query fits in a window. *)
Definition has_room (g : DnsGuard) (name : list Z) (w : WindowState) : Prop :=
  queries w < g_max_queries g ∧
  query_octets w + Z.of_nat (length name) ≤ g_max_query_octets g ∧
  (name ∈ unique_names w ∨ Z.of_nat (size (unique_names w)) < g_max_unique_names g) ∧
  (leftmost_label name ∈ dynamic_labels w ∨
   Z.of_nat (size (dynamic_labels w)) < g_max_dynamic_labels g).

(** The window with one more query in it. *)
Definition spend (name : list Z) (w : WindowState) : WindowState :=
  {| window_start := window_start w;
     queries := queries w + 1;
     query_octets := query_octets w + Z.of_nat (length name);
     unique_names := {[name]} ∪ unique_names w;
     dynamic_labels := {[leftmost_label name]} ∪ dynamic_labels w |}.

(** A query at [t] does not start a new window. *)
Definition stays (g : DnsGuard) (w : WindowState) (t : Z) : Prop :=
  ∃ s, window_start w = Some s ∧ t - s < g_window g.

(** ** Lemmas *)

Section Guard.
Context (g : DnsGuard).
Hypothesis Hg : guard_ok g.

Lemma window_reset_ok (t : Z) : window_ok g (window_reset t).
Proof.
  destruct Hg as (? & ? & ? & ? & _). unfold window_ok. cbn -[size]. rewrite size_empty. lia.
Qed.

Lemma window_empty_ok : window_ok g window_empty.
Proof.
  destruct Hg as (? & ? & ? & ? & _). unfold window_ok. cbn -[size]. rewrite size_empty. lia.
Qed.

Lemma roll_window_ok (t : Z) (w : WindowState) :
  window_ok g w → window_ok g (roll_window g t w).
Proof. intros Hw. unfold roll_window. destruct_match; [apply window_reset_ok|done]. Qed.

Lemma roll_window_stays (t : Z) (w : WindowState) : stays g w t → roll_window g t w = w.
Proof.
  destruct Hg as (_ & _ & _ & _ & Hp). intros (s & Hs & Ht).
  unfold roll_window, elapsed, saturating_sub. rewrite Hs.
  replace (_ || _) with false; [done|]. symmetry. apply orb_false_iff. lia.
Qed.

Lemma roll_window_rolls (t : Z) (w : WindowState) :
  ¬ stays g w t → roll_window g t w = window_reset t.
Proof.
  destruct Hg as (_ & _ & _ & _ & Hp). intros Hn. unfold roll_window, elapsed, saturating_sub.
  destruct (window_start w) as [s|] eqn:Hs; [|done].
  replace (_ || _) with true; [done|]. symmetry. apply orb_true_iff. right.
  apply Z.leb_le. destruct (decide (t - s < g_window g)); [|lia].
  destruct Hn. by exists s.
Qed.

Lemma union_new (x : list Z) (s : gset (list Z)) :
  (if negb (bool_decide (x ∈ s)) then {[x]} ∪ s else s) = {[x]} ∪ s.
Proof. case_bool_decide; simpl; set_solver. Qed.

Lemma admit_query_cases (t : Z) (name : list Z) (w : WindowState) :
  window_ok g w →
  let w' := roll_window g t w in
  (has_room g name w' ∧ admit_query g t name w = (Ok tt, spend name w')) ∨
  (¬ has_room g name w' ∧ ∃ l, admit_query g t name w = (Err l, w') ∧ is_rate_budget l = true).
Proof.
  intros Hw%(roll_window_ok t). cbv zeta. unfold admit_query, has_room, spend.
  set (w' := roll_window g t w) in *.
  destruct Hw as (Hq & Ho & _). destruct Hg as (Hq' & Ho' & _).
  unfold saturating_add, wrapping_add, u32_max, u64_max in *.
  destruct (_ <? _) eqn:E1; [right; split; [lia|eauto]|].
  destruct (g_max_query_octets g <? _) eqn:E2; [right; split; [lia|eauto]|].
  destruct (negb _ && _) eqn:E3.
  { right. bool_to_prop. split; [intros (_ & _ & [?|?] & _); [done|lia]|eauto]. }
  destruct (negb (bool_decide (leftmost_label name ∈ _)) && _) eqn:E4.
  { right. bool_to_prop. split; [intros (_ & _ & _ & [?|?]); [done|lia]|eauto]. }
  left. rewrite !union_new. bool_to_prop. split.
  - split_and!; [lia|lia| |].
    + apply andb_false_iff in E3 as [E3|E3]; bool_to_prop; auto.
    + apply andb_false_iff in E4 as [E4|E4]; bool_to_prop; auto.
  - do 2 f_equal; apply Z.mod_small; lia.
Qed.

Lemma spend_ok (name : list Z) (w : WindowState) :
  window_ok g w → has_room g name w → window_ok g (spend name w).
Proof.
  intros (? & ? & Hn & Hl) (? & ? & Hn' & Hl'). unfold window_ok, spend. simpl.
  split_and!; [lia..| |].
  - destruct Hn' as [Hn'|Hn'].
    + replace ({[name]} ∪ unique_names w) with (unique_names w) by set_solver. lia.
    + pose proof (size_union_alt {[name]} (unique_names w)) as E.
      rewrite E, size_singleton.
      assert (size (unique_names w ∖ {[name]}) ≤ size (unique_names w))%nat
        by (apply subseteq_size; set_solver). lia.
  - destruct Hl' as [Hl'|Hl'].
    + replace ({[leftmost_label name]} ∪ dynamic_labels w) with (dynamic_labels w)
        by set_solver. lia.
    + pose proof (size_union_alt {[leftmost_label name]} (dynamic_labels w)) as E.
      rewrite E, size_singleton.
      assert (size (dynamic_labels w ∖ {[leftmost_label name]}) ≤ size (dynamic_labels w))%nat
        by (apply subseteq_size; set_solver). lia.
Qed.

Lemma admit_query_ok (t : Z) (name : list Z) (w : WindowState) :
  window_ok g w → window_ok g (admit_query g t name w).2.
Proof.
  intros Hw. pose proof (roll_window_ok t w Hw).
  destruct (admit_query_cases t name w Hw) as [[Hr ->]|[_ (l & -> & _)]]; simpl;
    [by apply spend_ok | done].
Qed.

Lemma admit_all_ok (qs : list (Z * list Z)) (w : WindowState) :
  window_ok g w → window_ok g (admit_all g qs w).2.
Proof.
  revert w. induction qs as [|[t name] qs IH]; intros w Hw; [done|]. simpl.
  pose proof (admit_query_ok t name w Hw) as Hw'.
  destruct (admit_query g t name w) as [res w']. specialize (IH w' Hw').
  by destruct (admit_all g qs w').
Qed.

(** Within one window the state accumulates exactly the admitted queries. *)
Lemma admit_all_same_window (qs : list (Z * list Z)) (w : WindowState) :
  window_ok g w → Forall (λ q, stays g w q.1) qs →
  let '(adm, w') := admit_all g qs w in
  window_start w' = window_start w ∧
  queries w' = queries w + Z.of_nat (length adm) ∧
  query_octets w' = query_octets w + total_octets adm ∧
  unique_names w' = names_of adm ∪ unique_names w ∧
  dynamic_labels w' = labels_of adm ∪ dynamic_labels w.
Proof.
  revert w. induction qs as [|[t name] qs IH]; intros w Hw Hs; cbn [admit_all].
  { unfold names_of, labels_of. simpl. split_and!; [done|lia|lia|set_solver..]. }
  apply Forall_cons in Hs as [Ht Hs]. cbn [fst] in Ht.
  pose proof (admit_query_ok t name w Hw) as Hw'.
  destruct (admit_query_cases t name w Hw) as [[Hr E]|[_ (l & E & _)]];
    rewrite (roll_window_stays t w Ht) in *; rewrite E in *; cbn [snd] in Hw'.
  - specialize (IH (spend name w) Hw').
    destruct (admit_all g qs (spend name w)) as [adm w'].
    destruct IH as (I1 & I2 & I3 & I4 & I5); [by eapply Forall_impl|].
    rewrite I1, I2, I3, I4, I5. cbn [is_ok]. unfold names_of, labels_of, spend, total_octets.
    cbn. split_and!; [done|lia|lia|set_solver..].
  - specialize (IH w Hw'). destruct (admit_all g qs w) as [adm w'].
    apply IH. done.
Qed.

Lemma same_window_within (qs : list (Z * list Z)) (w : WindowState) :
  window_ok g w → Forall (λ q, stays g w q.1) qs → within_budget g (admit_all g qs w).1.
Proof.
  intros Hw Hs. pose proof (admit_all_ok qs w Hw) as (H1 & H2 & H3 & H4).
  pose proof (admit_all_same_window qs w Hw Hs) as H.
  destruct (admit_all g qs w) as [adm w']. cbn [fst snd] in *.
  destruct H as (_ & E1 & E2 & E3 & E4). destruct Hw as (? & ? & _).
  rewrite E3 in H3. rewrite E4 in H4. unfold within_budget.
  assert (size (names_of adm) ≤ size (names_of adm ∪ unique_names w))%nat
    by (apply subseteq_size; set_solver).
  assert (size (labels_of adm) ≤ size (labels_of adm ∪ dynamic_labels w))%nat
    by (apply subseteq_size; set_solver).
  split_and!; lia.
Qed.

Lemma admit_all_app (xs ys : list (Z * list Z)) (w : WindowState) :
  admit_all g (xs ++ ys) w =
  ((admit_all g xs w).1 ++ (admit_all g ys (admit_all g xs w).2).1,
   (admit_all g ys (admit_all g xs w).2).2).
Proof.
  revert w. induction xs as [|[t name] xs IH]; intros w; cbn [admit_all app].
  { simpl. by destruct (admit_all g ys w). }
  destruct (admit_query g t name w) as [res w']. rewrite IH.
  destruct (admit_all g xs w') as [adm w'']. cbn [fst snd].
  by destruct (is_ok res).
Qed.

(** A query that starts a window sees only the new window. *)
Lemma admit_all_rolls (t : Z) (name : list Z) (qs : list (Z * list Z)) (w : WindowState) :
  ¬ stays g w t → admit_all g ((t, name) :: qs) w =
                  admit_all g ((t, name) :: qs) (window_reset t).
Proof.
  intros Hn. cbn [admit_all].
  assert (admit_query g t name w = admit_query g t name (window_reset t)) as ->; [|done].
  unfold admit_query. rewrite roll_window_rolls by done. rewrite roll_window_stays; [done|].
  exists t. split; [done|]. destruct Hg as (_ & _ & _ & _ & ?). lia.
Qed.

Lemma stays_dec (w : WindowState) (t : Z) : stays g w t ∨ ¬ stays g w t.
Proof.
  unfold stays. destruct (window_start w) as [s|]; [|naive_solver].
  destruct (decide (t - s < g_window g)); naive_solver.
Qed.

(** The queries up to the first that starts a new window. *)
Lemma split_at_roll (qs : list (Z * list Z)) (w : WindowState) :
  ∃ xs ys, qs = xs ++ ys ∧ Forall (λ q, stays g w q.1) xs ∧
    match ys with [] => True | (t, _) :: _ => ¬ stays g w t end.
Proof.
  induction qs as [|[t name] qs (xs & ys & -> & Hx & Hy)]; [by exists [], []|].
  destruct (stays_dec w t).
  - exists ((t, name) :: xs), ys. auto.
  - exists [], ((t, name) :: xs ++ ys). auto.
Qed.

Lemma monotone_from_later (t : Z) (qs : list (Z * list Z)) :
  monotone_from t qs → Forall (λ q, t ≤ q.1) qs.
Proof.
  revert t. induction qs as [|[t' n] qs IH]; intros t; [constructor|]. simpl.
  intros [? H]. constructor; [done|].
  eapply Forall_impl; [by apply IH|]. simpl. lia.
Qed.

Lemma monotone_from_suffix (t : Z) (xs ys : list (Z * list Z)) :
  monotone_from t (xs ++ ys) → ∃ t', t ≤ t' ∧ monotone_from t' ys.
Proof.
  revert t. induction xs as [|[t' n] xs IH]; intros t; simpl; [exists t; split; [lia|done]|].
  intros [? (t'' & ? & ?)%IH]. exists t''. split; [lia|done].
Qed.

(** Over an interval no longer than a window, one window starts at most. *)
Lemma interval_two_windows (a : Z) (qs : list (Z * list Z)) (w : WindowState) :
  window_ok g w → monotone_from a qs → Forall (λ q, q.1 < a + g_window g) qs →
  ∃ xs ys, (admit_all g qs w).1 = xs ++ ys ∧ within_budget g xs ∧ within_budget g ys.
Proof.
  intros Hw Hm Hb. destruct (split_at_roll qs w) as (xs & ys & -> & Hx & Hy).
  exists (admit_all g xs w).1, (admit_all g ys (admit_all g xs w).2).1.
  rewrite admit_all_app. split; [done|]. split; [by apply same_window_within|].
  destruct ys as [|[t name] ys].
  { apply same_window_within; [by apply admit_all_ok | constructor]. }
  apply Forall_app in Hb as [_ Hb]. apply monotone_from_suffix in Hm as (t' & Ht' & Hm).
  pose proof (admit_all_same_window xs w Hw Hx) as Hstart.
  rewrite admit_all_rolls.
  - apply same_window_within; [apply window_reset_ok|].
    destruct Hm as [Htt Hm]. apply monotone_from_later in Hm.
    apply Forall_forall. intros q Hq. exists t. split; [done|].
    eapply Forall_forall in Hb; [|done]. simpl in *. lia.
  - destruct (admit_all g xs w) as [adm w']. destruct Hstart as [E _]. simpl.
    unfold stays in *. by rewrite E.
Qed.

End Guard.

Lemma check_label_sizes_spec (g : DnsGuard) (ls : list (list Z)) (n : Z) :
  match check_label_sizes g ls n with
  | Ok c => c = n + Z.of_nat (length ls) ∧
            Forall (λ l, Z.of_nat (length l) ≤ g_max_label_octets g) ls
  | Err e => e = LabelOctets ∧
             ¬ Forall (λ l, Z.of_nat (length l) ≤ g_max_label_octets g) ls
  end.
Proof.
  revert n. induction ls as [|l ls IH]; intros n; simpl; [split; [lia|constructor]|].
  destruct (_ <? _) eqn:E; [rewrite Forall_cons; split; [done|lia]|].
  specialize (IH (n + 1)). destruct (check_label_sizes g ls (n + 1)); rewrite Forall_cons.
  - destruct IH as [-> ?]. split; [lia|]. split; [lia|done].
  - naive_solver.
Qed.

(** ** Properties *)

(** a query passes the structural check exactly when the name, its labels
    and their number are within the limits, and the error names the limit that
    is exceeded. *)
Theorem check_structure_exact (g : DnsGuard) (normalized : list Z) :
  match check_structure g normalized with
  | Ok _ =>
      Z.of_nat (length normalized) ≤ g_max_qname_octets g ∧
      Z.of_nat (length (labels normalized)) ≤ g_max_labels g ∧
      Forall (λ l, Z.of_nat (length l) ≤ g_max_label_octets g) (labels normalized)
  | Err QnameOctets => g_max_qname_octets g < Z.of_nat (length normalized)
  | Err LabelCount => g_max_labels g < Z.of_nat (length (labels normalized))
  | Err LabelOctets =>
      ∃ l, l ∈ labels normalized ∧ g_max_label_octets g < Z.of_nat (length l)
  | Err _ => False
  end.
Proof.
  unfold check_structure. destruct (_ <? _) eqn:E; [lia|].
  pose proof (check_label_sizes_spec g (split_on ch_dot normalized) 0) as H.
  fold (labels normalized) in H |- *.
  destruct (check_label_sizes g (labels normalized) 0) as [c|e].
  - destruct H as [-> H]. destruct (g_max_labels g <? _) eqn:E2; [lia|].
    refine (conj _ (conj _ _)); [lia|lia|done].
  - destruct H as [-> H]. apply not_Forall_Exists in H; [|exact _].
    apply Exists_exists in H as (l & Hl & Hn%Z.nle_gt). by exists l.
Qed.

(** one query is admitted exactly when the current window has room for it in
    all four budgets; then the window records it, and otherwise the state is
    unchanged but for the reset of a window that ended: a rejected query costs
    nothing. *)
Theorem admit_query_exact (g : DnsGuard) (Hg : guard_ok g) (t : Z) (name : list Z)
    (w : WindowState) (Hw : window_ok g w) :
  window_ok g (admit_query g t name w).2 ∧
  ((has_room g name (roll_window g t w) ∧
      admit_query g t name w = (Ok tt, spend name (roll_window g t w))) ∨
   (¬ has_room g name (roll_window g t w) ∧
      ∃ l, admit_query g t name w = (Err l, roll_window g t w) ∧ is_rate_budget l = true)).
Proof. split; [by apply admit_query_ok | by apply admit_query_cases]. Qed.

(** however the queries are spaced, those admitted in an interval no longer
    than the window are at most two windows' worth: at most twice the query
    count, octets, distinct names and distinct leftmost labels. *)
Theorem interval_budget (g : DnsGuard) (Hg : guard_ok g) (before inside : list (Z * list Z))
    (a : Z) (Hm : monotone_from a inside)
    (Hin : Forall (λ q, q.1 < a + g_window g) inside) :
  let w := (admit_all g before window_empty).2 in
  let admitted := (admit_all g inside w).1 in
  Z.of_nat (length admitted) ≤ 2 * g_max_queries g ∧
  total_octets admitted ≤ 2 * g_max_query_octets g ∧
  Z.of_nat (size (names_of admitted)) ≤ 2 * g_max_unique_names g ∧
  Z.of_nat (size (labels_of admitted)) ≤ 2 * g_max_dynamic_labels g.
Proof.
  cbv zeta.
  pose proof (admit_all_ok g Hg before window_empty (window_empty_ok g Hg)) as Hw.
  destruct (interval_two_windows g Hg a inside _ Hw Hm Hin)
    as (xs & ys & -> & (X1 & X2 & X3 & X4) & (Y1 & Y2 & Y3 & Y4)).
  assert (total_octets (xs ++ ys) = total_octets xs + total_octets ys) as ->.
  { clear. unfold total_octets. induction xs as [|x xs IH]; simpl; lia. }
  assert (names_of (xs ++ ys) = names_of xs ∪ names_of ys) as ->
    by (unfold names_of; rewrite fmap_app, list_to_set_app_L; done).
  assert (labels_of (xs ++ ys) = labels_of xs ∪ labels_of ys) as ->
    by (unfold labels_of; rewrite fmap_app, list_to_set_app_L; done).
  pose proof (size_union_alt (names_of xs) (names_of ys)).
  pose proof (size_union_alt (labels_of xs) (labels_of ys)).
  assert (size (names_of ys ∖ names_of xs) ≤ size (names_of ys))%nat
    by (apply subseteq_size; set_solver).
  assert (size (labels_of ys ∖ labels_of xs) ≤ size (labels_of ys))%nat
    by (apply subseteq_size; set_solver).
  rewrite length_app. split_and!; lia.
Qed.

(** ** Witnesses *)

Definition sample_guard : DnsGuard := guard_from_policy DnsPolicy_default.

Lemma admit_query_exact_witness :
  window_ok sample_guard
    (admit_query sample_guard 5 (str "a.example") window_empty).2.
Proof.
  apply (admit_query_exact sample_guard); [vm_compute; intuition discriminate|].
  vm_compute. intuition discriminate.
Defined.

Lemma interval_budget_witness :
  Z.of_nat (length
    (admit_all sample_guard [(1, str "a.example"); (2, str "b.example")]
       (admit_all sample_guard [(0, str "a.example")] window_empty).2).1)
  ≤ 2 * g_max_queries sample_guard.
Proof.
  apply (interval_budget sample_guard) with (a := 1).
  - vm_compute. intuition discriminate.
  - simpl. lia.
  - repeat constructor; vm_compute; done.
Defined.

(** With the largest limit of its type the saturating test never fires, and the
    counter wraps to zero: the budget of that window starts again. *)
Example admit_wraps_at_the_largest_limit :
  let g := {| g_max_qname_octets := 253; g_max_labels := 40; g_max_label_octets := 63;
              g_allowed_record_types := [A]; g_max_response_records := 32;
              g_window := from_secs 60; g_max_queries := u32_max;
              g_max_query_octets := 32768; g_max_unique_names := 256;
              g_max_dynamic_labels := 256 |} in
  let w := {| window_start := Some 0; queries := u32_max; query_octets := 0;
              unique_names := ∅; dynamic_labels := ∅ |} in
  (admit_query g 1 (str "a") w).1 = Ok tt ∧ queries (admit_query g 1 (str "a") w).2 = 0.
Proof. vm_compute. done. Qed.
