(* ===== verification/ConnectProto.v ===== *)
(** * The CONNECT framing protocol ([crates/sendbox-egress/src/connect_proto.rs])

    Encoder and decoder of the broker's native request frame.  A reader is the
    list of the bytes still to come; [read_exact] fails on a short one, as
    [AsyncReadExt::read_exact] does.  The main theorems are the round trip and
    the bounds on what a decoded request can hold. *)

From S2P Require Import Prelude RustStr Net Address.

(** ** Readers *)

Definition read_exact (n : nat) (s : list Z) : option (list Z * list Z) :=
  if (n <=? length s)%nat then Some (take n s, drop n s) else None.

(** [read_exact] into a one-byte buffer. *)
Definition read_u8 (s : list Z) : option (Z * list Z) :=
  match s with b :: r => Some (b, r) | [] => None end.

Lemma read_exact_Some (n : nat) (s x r : list Z) :
  read_exact n s = Some (x, r) ↔ s = x ++ r ∧ length x = n.
Proof.
  unfold read_exact. destruct (n <=? length s)%nat eqn:E.
  - apply Nat.leb_le in E. split.
    + intros [= <- <-]. rewrite take_drop, length_take. split; [done|lia].
    + intros [-> <-]. by rewrite take_app_length, drop_app_length.
  - apply Nat.leb_gt in E. split; [done|]. intros [-> <-]. rewrite length_app in E. lia.
Qed.

Lemma read_exact_app (x r : list Z) (n : nat) :
  length x = n → read_exact n (x ++ r) = Some (x, r).
Proof. intros. by apply read_exact_Some. Qed.

(** ** Definitions *)

Definition PROTOCOL_VERSION : Z := 1.
Definition MAX_HOSTNAME_LEN : Z := 253.

Inductive ConnectProtocol : Type := ConnectTcp | ConnectUdp.

#[global] Instance ConnectProtocol_eq_dec : EqDecision ConnectProtocol.
Proof. solve_decision. Defined.

Definition protocol_u8 (p : ConnectProtocol) : Z :=
  match p with ConnectTcp => 1 | ConnectUdp => 2 end.

Definition protocol_from_u8 (value : Z) : option ConnectProtocol :=
  if value =? 1 then Some ConnectTcp
  else if value =? 2 then Some ConnectUdp
  else None.

Inductive ConnectTarget : Type :=
| Hostname (host : list Z)
| Ip (ip : ip_addr).

Record ConnectRequest : Type := {
  req_protocol : ConnectProtocol;
  req_port : Z;
  req_target : ConnectTarget;
  req_expected_ip : option ip_addr;
}.

Inductive ConnectStatus : Type :=
| StatusOk
| PolicyDenied
| ResolutionFailed
| ConnectFailed
| LimitExceeded
| StatusMalformed
| UnsupportedProtocol
| ExpectedIpMismatch
| StatusTimeout.

#[global] Instance ConnectStatus_eq_dec : EqDecision ConnectStatus.
Proof. solve_decision. Defined.

Definition status_u8 (s : ConnectStatus) : Z :=
  match s with
  | StatusOk => 0
  | PolicyDenied => 1
  | ResolutionFailed => 2
  | ConnectFailed => 3
  | LimitExceeded => 4
  | StatusMalformed => 5
  | UnsupportedProtocol => 6
  | ExpectedIpMismatch => 7
  | StatusTimeout => 8
  end.

Inductive proto_malformed : Type :=
| BadIpVersion
| UnknownProtocol
| HostnameLength
| HostnameUtf8
| UnknownTargetKind
| BadExpectedFlag.

Inductive ConnectProtoError : Type :=
| UnsupportedVersion (version : Z)
| ProtoMalformed (what : proto_malformed)
| ProtoIo.

(** [ip.octets()] with the family byte first. *)
Definition encode_ip (ip : ip_addr) : list Z :=
  match ip with
  | V4 a => 4 :: v4_octets a
  | V6 a => 6 :: v6_octets a
  end.

Definition encode_target (t : ConnectTarget) : list Z :=
  match t with
  | Hostname host =>
      let n := Z.min (Z.of_nat (length host)) MAX_HOSTNAME_LEN in
      1 :: n :: take (Z.to_nat n) host
  | Ip ip => 2 :: encode_ip ip
  end.

Definition encode_request (r : ConnectRequest) : list Z :=
  [PROTOCOL_VERSION; protocol_u8 (req_protocol r)] ++ be_bytes 2 (req_port r) ++
  encode_target (req_target r) ++
  match req_expected_ip r with
  | Some ip => 1 :: encode_ip ip
  | None => [0]
  end.

Definition read_ip (s : list Z) : result ConnectProtoError (ip_addr * list Z) :=
  let? ' (version, s) := ok_or (read_u8 s) ProtoIo in
  let? ' (ip, s) :=
    if version =? 4 then
      let? ' (octets, s) := ok_or (read_exact 4 s) ProtoIo in
      Ok (V4 (be_value octets), s)
    else if version =? 6 then
      let? ' (octets, s) := ok_or (read_exact 16 s) ProtoIo in
      Ok (V6 (be_value octets), s)
    else Err (ProtoMalformed BadIpVersion) in
  Ok (canonicalize ip, s).

Definition read_target (s : list Z) : result ConnectProtoError (ConnectTarget * list Z) :=
  let? ' (kind, s) := ok_or (read_u8 s) ProtoIo in
  if kind =? 1 then
    let? ' (len, s) := ok_or (read_u8 s) ProtoIo in
    if (len =? 0) || (MAX_HOSTNAME_LEN <? len) then Err (ProtoMalformed HostnameLength)
    else
      let? ' (host_bytes, s) := ok_or (read_exact (Z.to_nat len) s) ProtoIo in
      let? host := ok_or (from_utf8 host_bytes) (ProtoMalformed HostnameUtf8) in
      Ok (Hostname host, s)
  else if kind =? 2 then
    let? ' (ip, s) := read_ip s in Ok (Ip ip, s)
  else Err (ProtoMalformed UnknownTargetKind).

Definition read_expected (s : list Z) : result ConnectProtoError (option ip_addr * list Z) :=
  let? ' (has_expected, s) := ok_or (read_u8 s) ProtoIo in
  if has_expected =? 0 then Ok (None, s)
  else if has_expected =? 1 then let? ' (ip, s) := read_ip s in Ok (Some ip, s)
  else Err (ProtoMalformed BadExpectedFlag).

Definition decode_request (s : list Z) : result ConnectProtoError (ConnectRequest * list Z) :=
  let? ' (header, s) := ok_or (read_exact 4 s) ProtoIo in
  let version := nth 0 header 0 in
  if negb (version =? PROTOCOL_VERSION) then Err (UnsupportedVersion version)
  else
    let? protocol :=
      ok_or (protocol_from_u8 (nth 1 header 0)) (ProtoMalformed UnknownProtocol) in
    let port := be_value (drop 2 header) in
    let? ' (target, s) := read_target s in
    let? ' (expected_ip, s) := read_expected s in
    Ok ({| req_protocol := protocol; req_port := port; req_target := target;
           req_expected_ip := expected_ip |}, s).

Definition write_status (status : ConnectStatus) : list Z :=
  [PROTOCOL_VERSION; status_u8 status].

(** ** Specification *)

Definition canonical_target (t : ConnectTarget) : ConnectTarget :=
  match t with Hostname h => Hostname h | Ip ip => Ip (canonicalize ip) end.

Definition canonical_request (r : ConnectRequest) : ConnectRequest :=
  {| req_protocol := req_protocol r; req_port := req_port r;
     req_target := canonical_target (req_target r);
     req_expected_ip := canonicalize <$> req_expected_ip r |}.

Definition target_wf (t : ConnectTarget) : Prop :=
  match t with
  | Hostname h => 1 ≤ Z.of_nat (length h) ≤ MAX_HOSTNAME_LEN ∧ from_utf8 h = Some h
  | Ip ip => ip_wf ip
  end.

Definition request_wf (r : ConnectRequest) : Prop :=
  0 ≤ req_port r ≤ u16_max ∧ target_wf (req_target r) ∧
  match req_expected_ip r with Some ip => ip_wf ip | None => True end.

(** The longest frame: header, hostname target, expected address. *)
Definition MAX_FRAME : Z := 4 + 2 + MAX_HOSTNAME_LEN + 1 + 17.

(** ** Lemmas *)

Lemma read_ip_encode (ip : ip_addr) (r : list Z) :
  ip_wf ip → read_ip (encode_ip ip ++ r) = Ok (canonicalize ip, r).
Proof.
  intros Hwf. unfold read_ip.
  destruct ip as [a|a]; cbn [encode_ip app read_u8 ok_or Z.eqb Pos.eqb].
  - rewrite (read_exact_app (v4_octets a) r) by apply length_be_bytes. cbn [ok_or].
    unfold v4_octets. rewrite be_value_be_bytes.
    change (8 * Z.of_nat 4) with 32. rewrite Z.mod_small; [done|].
    cbn in Hwf. unfold v4_max in Hwf. lia.
  - rewrite (read_exact_app (v6_octets a) r) by apply length_be_bytes. cbn [ok_or].
    unfold v6_octets. rewrite be_value_be_bytes.
    change (8 * Z.of_nat 16) with 128. rewrite Z.mod_small; [done|].
    cbn in Hwf. unfold v6_max in Hwf. lia.
Qed.

Lemma read_target_encode (t : ConnectTarget) (r : list Z) :
  target_wf t → read_target (encode_target t ++ r) = Ok (canonical_target t, r).
Proof.
  intros Hwf. unfold read_target.
  destruct t as [host|ip]; cbn [encode_target app read_u8 ok_or Z.eqb Pos.eqb].
  - destruct Hwf as [Hl Hu]. unfold MAX_HOSTNAME_LEN in *. rewrite Z.min_l by lia.
    replace (_ || _) with false by (symmetry; apply orb_false_iff; lia).
    rewrite Nat2Z.id, take_ge by lia.
    rewrite read_exact_app by done. cbn [ok_or]. by rewrite Hu.
  - by rewrite read_ip_encode.
Qed.

Lemma read_expected_encode (e : option ip_addr) (r : list Z) :
  match e with Some ip => ip_wf ip | None => True end →
  read_expected (match e with Some ip => 1 :: encode_ip ip | None => [0] end ++ r) =
  Ok (canonicalize <$> e, r).
Proof.
  unfold read_expected. destruct e as [ip|]; cbn [app read_u8 ok_or Z.eqb]; [|done].
  intros. by rewrite read_ip_encode.
Qed.

Lemma decode_encode (r : ConnectRequest) (rest : list Z) :
  request_wf r → decode_request (encode_request r ++ rest) = Ok (canonical_request r, rest).
Proof.
  intros (Hp & Ht & He). unfold decode_request, encode_request.
  rewrite <-!app_assoc. rewrite app_assoc.
  rewrite read_exact_app by (rewrite length_app, length_be_bytes; done). cbn [ok_or].
  assert (be_value (be_bytes 2 (req_port r)) = req_port r) as Hport.
  { rewrite be_value_be_bytes. apply Z.mod_small. unfold u16_max in Hp. lia. }
  set (port := be_bytes 2 (req_port r)) in *.
  cbn [app nth]. change (drop 2 (_ :: _ :: port)) with port. rewrite Hport.
  change (negb (PROTOCOL_VERSION =? PROTOCOL_VERSION)) with false.
  replace (protocol_from_u8 _) with (Some (req_protocol r)) by (by destruct (req_protocol r)).
  cbn [ok_or]. rewrite read_target_encode by done. by rewrite read_expected_encode.
Qed.

(** *** What the readers return, and how much they read *)

Definition reads (k : Z) (s rest : list Z) : Prop :=
  ∃ p, s = p ++ rest ∧ Z.of_nat (length p) ≤ k.

Lemma reads_trans (j k : Z) (s t u : list Z) : reads j s t → reads k t u → reads (j + k) s u.
Proof.
  intros (p & -> & ?) (q & -> & ?). exists (p ++ q). rewrite app_assoc, length_app.
  split; [done|lia].
Qed.

Lemma read_u8_ok (s s' : list Z) (b : Z) :
  Forall is_byte s → read_u8 s = Some (b, s') →
  is_byte b ∧ Forall is_byte s' ∧ reads 1 s s'.
Proof.
  destruct s; [done|]. intros [? ?]%Forall_cons [= -> ->]. split_and!; [done..|].
  by exists [b].
Qed.

Lemma reads_bytes (k : Z) (s rest : list Z) :
  reads k s rest → Forall is_byte s → Forall is_byte rest.
Proof. intros (p & -> & _) [_ ?]%Forall_app. done. Qed.

Lemma reads_le (j k : Z) (s rest : list Z) : j ≤ k → reads j s rest → reads k s rest.
Proof. intros ? (p & -> & ?). exists p. split; [done|lia]. Qed.

Lemma read_octets_ok (n : nat) (f : Z → ip_addr) (s : list Z) (ip : ip_addr)
    (rest : list Z) :
  Forall is_byte s → (∀ z, 0 ≤ z < 2 ^ (8 * Z.of_nat n) → ip_wf (f z)) →
  (let? ' (octets, s) := ok_or (read_exact n s) ProtoIo in Ok (f (be_value octets), s))
    = Ok (ip, rest) →
  ip_wf ip ∧ reads (Z.of_nat n) s rest.
Proof.
  intros Hs Hf. destruct (read_exact n s) as [[o s']|] eqn:E; [|done].
  apply read_exact_Some in E as [-> <-]. apply Forall_app in Hs as [Ho _].
  intros [= <- <-]. split; [by apply Hf, be_value_bound|]. by exists o.
Qed.

Lemma read_ip_ok (s : list Z) (ip : ip_addr) (rest : list Z) :
  Forall is_byte s → read_ip s = Ok (ip, rest) →
  ip_wf ip ∧ canonicalize ip = ip ∧ reads 17 s rest.
Proof.
  intros Hs. unfold read_ip. destruct (read_u8 s) as [[v s1]|] eqn:E1; [|done].
  apply read_u8_ok in E1 as (_ & Hs1 & E1); [|done]. cbn [ok_or].
  destruct (if v =? 4 then _ else _) as [[ip' s2]|] eqn:E2; [|done]. intros [= <- <-].
  assert (ip_wf ip' ∧ reads 16 s1 s2) as [Hw Hr].
  { destruct (v =? 4); [|destruct (v =? 6); [|done]];
      apply read_octets_ok in E2 as [? Hr]; try done.
    - split; [done|]. by eapply reads_le; [|exact Hr].
    - intros z Hz. cbn. unfold v4_max. lia.
    - intros z Hz. cbn. unfold v6_max. lia. }
  rewrite canonicalize_canonicalize. split_and!; [by apply canonicalize_wf|done|].
  by apply (reads_trans 1 16 s s1 s2).
Qed.

Lemma read_target_ok (s : list Z) (t : ConnectTarget) (rest : list Z) :
  Forall is_byte s → read_target s = Ok (t, rest) →
  target_wf t ∧ canonical_target t = t ∧ reads (2 + MAX_HOSTNAME_LEN) s rest.
Proof.
  intros Hs. unfold read_target, MAX_HOSTNAME_LEN.
  destruct (read_u8 s) as [[k s1]|] eqn:E1; [|done].
  apply read_u8_ok in E1 as (_ & Hs1 & E1); [|done]. cbn [ok_or].
  destruct (k =? 1).
  - destruct (read_u8 s1) as [[len s2]|] eqn:E2; [|done].
    apply read_u8_ok in E2 as (Hlen & _ & E2); [|done]. cbn [ok_or].
    destruct (_ || _) eqn:El; [done|]. bool_to_prop. unfold is_byte in Hlen.
    destruct (read_exact (Z.to_nat len) s2) as [[h s3]|] eqn:E3; [|done]. cbn [ok_or].
    apply read_exact_Some in E3 as [-> Hh].
    destruct (from_utf8 h) as [h'|] eqn:Eu; [|done].
    pose proof (from_utf8_Some _ _ Eu). subst h'.
    intros [= <- <-]. cbn [target_wf]. unfold MAX_HOSTNAME_LEN. split_and!; [lia..|done|done|].
    apply (reads_trans 1 254 s s1 s3); [done|]. apply (reads_trans 1 253 s1 (h ++ s3) s3); [done|].
    exists h. split; [done|lia].
  - destruct (k =? 2); [|done]. destruct (read_ip s1) as [[ip s2]|] eqn:E2; [|done].
    apply read_ip_ok in E2 as (Hw & Hc & Hr); [|done]. intros [= <- <-].
    cbn. rewrite Hc. split_and!; [done..|].
    apply (reads_trans 1 254 s s1 s2); [done|]. by eapply reads_le; [|exact Hr].
Qed.

Lemma read_expected_ok (s : list Z) (e : option ip_addr) (rest : list Z) :
  Forall is_byte s → read_expected s = Ok (e, rest) →
  match e with Some ip => ip_wf ip ∧ canonicalize ip = ip | None => True end ∧
  reads 18 s rest.
Proof.
  intros Hs. unfold read_expected. destruct (read_u8 s) as [[k s1]|] eqn:E1; [|done].
  apply read_u8_ok in E1 as (_ & Hs1 & E1); [|done]. cbn [ok_or].
  destruct (k =? 0); [intros [= <- <-]; split; [done|by eapply reads_le; [|exact E1]]|].
  destruct (k =? 1); [|done]. destruct (read_ip s1) as [[ip s2]|] eqn:E2; [|done].
  apply read_ip_ok in E2 as (Hw & Hc & Hr); [|done]. intros [= <- <-].
  split; [done|]. by apply (reads_trans 1 17 s s1 s2).
Qed.

(** ** Properties *)

(** a request the encoder can express decodes to itself with its addresses
    in canonical form, and the decoder stops right after it, whatever follows. *)
Theorem connect_roundtrip (r : ConnectRequest) (rest : list Z) (Hwf : request_wf r) :
  decode_request (encode_request r ++ rest) = Ok (canonical_request r, rest).
Proof. by apply decode_encode. Qed.

(** whatever bytes a client sends, a decoded request has a 16-bit port, a
    hostname of 1 to 253 bytes of valid UTF-8 or a well-formed address, and every
    address in it is canonical; at most 277 bytes are consumed. *)
Theorem decode_request_bounded (s : list Z) (r : ConnectRequest) (rest : list Z)
    (Hs : Forall is_byte s) (Hd : decode_request s = Ok (r, rest)) :
  request_wf r ∧ canonical_request r = r ∧ reads MAX_FRAME s rest.
Proof.
  unfold decode_request in Hd. destruct (read_exact 4 s) as [[h s1]|] eqn:E1; [|done].
  apply read_exact_Some in E1 as [-> Hh]. apply Forall_app in Hs as [Hhb Hs1]. cbn [ok_or] in Hd.
  destruct (negb _); [done|]. destruct (protocol_from_u8 _) as [p|]; [|done]. cbn [ok_or] in Hd.
  destruct (read_target s1) as [[t s2]|] eqn:E2; [|done].
  apply read_target_ok in E2 as (Ht & Hct & Hr2); [|done].
  destruct (read_expected s2) as [[e s3]|] eqn:E3; [|done].
  apply read_expected_ok in E3 as (He & Hr3); [|by eapply reads_bytes].
  injection Hd as <- <-. split_and!.
  - pose proof (be_value_bound (drop 2 h) (Forall_drop _ 2 _ Hhb)) as Hb.
    rewrite length_drop, Hh in Hb. change (2 ^ (8 * Z.of_nat (4 - 2))) with 65536 in Hb.
    split_and!; cbn; [lia..|unfold u16_max; lia|done|]. destruct e; [by destruct He|done].
  - unfold canonical_request. cbn. rewrite Hct. f_equal. destruct e as [ip|]; [|done].
    cbn. by destruct He as [_ ->].
  - apply (reads_trans 4 273 (h ++ s1) s1 s3); [by exists h; split; [done|lia]|].
    by apply (reads_trans 255 18 s1 s2 s3).
Qed.

(** ** Witnesses *)

Definition sample_request : ConnectRequest :=
  {| req_protocol := ConnectTcp; req_port := 443; req_target := Hostname (str "api.github.com");
     req_expected_ip := Some (V6 (65535 * 2 ^ 32 + 2354212870)) |}.

Lemma connect_roundtrip_witness :
  decode_request (encode_request sample_request ++ [7]) =
  Ok (canonical_request sample_request, [7]).
Proof.
  apply connect_roundtrip. split; [vm_compute; intuition discriminate|].
  split; [split; [vm_compute; intuition discriminate|reflexivity]|].
  vm_compute. intuition discriminate.
Defined.

Lemma decode_request_bounded_witness :
  request_wf (canonical_request sample_request).
Proof.
  apply (decode_request_bounded (encode_request sample_request) _ []).
  - repeat constructor; vm_compute; discriminate.
  - vm_compute. reflexivity.
Defined.
