(* ===== verification/Socks5.v ===== *)
(** * The SOCKS5 front end ([crates/sendbox-egress/src/socks5.rs])

    Method negotiation, the request reader and the reply writer.  The main
    theorem relates the reader to the wire layout of RFC 1928. *)

From S2P Require Import Prelude RustStr Net Address ConnectProto.

(** ** Definitions *)

Definition SOCKS_VERSION : Z := 5.
Definition METHOD_NO_AUTH : Z := 0.
Definition METHOD_NONE_ACCEPTABLE : Z := 255.

Inductive Socks5Command : Type := SocksConnect | SocksBind | SocksUdpAssociate.

#[global] Instance Socks5Command_eq_dec : EqDecision Socks5Command.
Proof. solve_decision. Defined.

Inductive Socks5Reply : Type :=
| Succeeded
| GeneralFailure
| NotAllowed
| NetworkUnreachable
| HostUnreachable
| ConnectionRefused
| TtlExpired
| CommandNotSupported
| AddressTypeNotSupported.

Definition reply_u8 (r : Socks5Reply) : Z :=
  match r with
  | Succeeded => 0
  | GeneralFailure => 1
  | NotAllowed => 2
  | NetworkUnreachable => 3
  | HostUnreachable => 4
  | ConnectionRefused => 5
  | TtlExpired => 6
  | CommandNotSupported => 7
  | AddressTypeNotSupported => 8
  end.

Record Socks5Request : Type := {
  socks_command : Socks5Command;
  socks_target : ConnectTarget;
  socks_port : Z;
}.

Inductive socks_malformed : Type :=
| NoMethodsOffered
| UnknownCommand
| EmptyDomain
| DomainNotUtf8.

Inductive Socks5Error : Type :=
| SocksUnsupportedVersion (version : Z)
| NoAcceptableMethods
| UnsupportedAddressType (atyp : Z)
| SocksMalformed (what : socks_malformed)
| SocksIo.

(** The result, the bytes written to the client, the bytes left to read. *)
Definition negotiate (s : list Z) : result Socks5Error unit * list Z * list Z :=
  match read_exact 2 s with
  | None => (Err SocksIo, [], s)
  | Some (header, s) =>
      let version := nth 0 header 0 in
      if negb (version =? SOCKS_VERSION) then (Err (SocksUnsupportedVersion version), [], s)
      else
        let nmethods := nth 1 header 0 in
        if nmethods =? 0 then (Err (SocksMalformed NoMethodsOffered), [], s)
        else match read_exact (Z.to_nat nmethods) s with
             | None => (Err SocksIo, [], s)
             | Some (methods, s) =>
                 if negb (bool_decide (METHOD_NO_AUTH ∈ methods))
                 then (Err NoAcceptableMethods, [SOCKS_VERSION; METHOD_NONE_ACCEPTABLE], s)
                 else (Ok tt, [SOCKS_VERSION; METHOD_NO_AUTH], s)
             end
  end.

Definition socks_command_of (b : Z) : result Socks5Error Socks5Command :=
  if b =? 1 then Ok SocksConnect
  else if b =? 2 then Ok SocksBind
  else if b =? 3 then Ok SocksUdpAssociate
  else Err (SocksMalformed UnknownCommand).

Definition read_socks_target (atyp : Z) (s : list Z)
  : result Socks5Error (ConnectTarget * list Z) :=
  if atyp =? 1 then
    let? ' (octets, s) := ok_or (read_exact 4 s) SocksIo in
    Ok (Ip (canonicalize (V4 (be_value octets))), s)
  else if atyp =? 4 then
    let? ' (octets, s) := ok_or (read_exact 16 s) SocksIo in
    Ok (Ip (canonicalize (V6 (be_value octets))), s)
  else if atyp =? 3 then
    let? ' (n, s) := ok_or (read_u8 s) SocksIo in
    if n =? 0 then Err (SocksMalformed EmptyDomain)
    else
      let? ' (buf, s) := ok_or (read_exact (Z.to_nat n) s) SocksIo in
      let? host := ok_or (from_utf8 buf) (SocksMalformed DomainNotUtf8) in
      Ok (Hostname host, s)
  else Err (UnsupportedAddressType atyp).

Definition read_request (s : list Z) : result Socks5Error (Socks5Request * list Z) :=
  let? ' (header, s) := ok_or (read_exact 4 s) SocksIo in
  let version := nth 0 header 0 in
  if negb (version =? SOCKS_VERSION) then Err (SocksUnsupportedVersion version)
  else
    let? command := socks_command_of (nth 1 header 0) in
    let? ' (target, s) := read_socks_target (nth 3 header 0) s in
    let? ' (port, s) := ok_or (read_exact 2 s) SocksIo in
    Ok ({| socks_command := command; socks_target := target; socks_port := be_value port |}, s).

(** The bytes of [write_reply] for a bound address and port. *)
Definition write_reply (reply : Socks5Reply) (bound : ip_addr) (port : Z) : list Z :=
  [SOCKS_VERSION; reply_u8 reply; 0] ++
  match bound with
  | V4 a => 1 :: v4_octets a ++ be_bytes 2 port
  | V6 a => 4 :: v6_octets a ++ be_bytes 2 port
  end.

Definition write_failure (reply : Socks5Reply) : list Z := write_reply reply (V4 0) 0.

(** ** Specification: the layout of RFC 1928 *)

Definition command_u8 (c : Socks5Command) : Z :=
  match c with SocksConnect => 1 | SocksBind => 2 | SocksUdpAssociate => 3 end.

Definition wire_target (t : ConnectTarget) : Z * list Z :=
  match t with
  | Ip (V4 a) => (1, v4_octets a)
  | Ip (V6 a) => (4, v6_octets a)
  | Hostname h => (3, Z.of_nat (length h) :: h)
  end.

(** A request with reserved byte [rsv]. *)
Definition wire_request (r : Socks5Request) (rsv : Z) : list Z :=
  let '(atyp, bytes) := wire_target (socks_target r) in
  [SOCKS_VERSION; command_u8 (socks_command r); rsv; atyp] ++ bytes ++
  be_bytes 2 (socks_port r).

Definition socks_target_wf (t : ConnectTarget) : Prop :=
  match t with
  | Hostname h => 1 ≤ Z.of_nat (length h) ≤ 255 ∧ from_utf8 h = Some h
  | Ip ip => ip_wf ip
  end.

Definition socks_request_wf (r : Socks5Request) : Prop :=
  socks_target_wf (socks_target r) ∧ 0 ≤ socks_port r ≤ u16_max.

Definition canonical_socks (r : Socks5Request) : Socks5Request :=
  {| socks_command := socks_command r; socks_target := canonical_target (socks_target r);
     socks_port := socks_port r |}.

(** ** Lemmas *)

Lemma ip_octets_value (n : nat) (a : Z) :
  0 ≤ a < 2 ^ (8 * Z.of_nat n) → be_value (be_bytes n a) = a.
Proof. intros. rewrite be_value_be_bytes. by apply Z.mod_small. Qed.

Lemma read_socks_target_wire (t : ConnectTarget) (rest : list Z) :
  socks_target_wf t →
  read_socks_target (wire_target t).1 ((wire_target t).2 ++ rest) =
  Ok (canonical_target t, rest).
Proof.
  intros Hwf. unfold read_socks_target.
  destruct t as [h|[a|a]]; cbn [wire_target fst snd Z.eqb Pos.eqb canonical_target].
  - destruct Hwf as [Hl Hu]. cbn [app read_u8 ok_or].
    replace (Z.of_nat (length h) =? 0) with false by lia.
    rewrite Nat2Z.id, read_exact_app by done. cbn [ok_or]. by rewrite Hu.
  - rewrite read_exact_app by apply length_be_bytes. cbn [ok_or].
    unfold v4_octets. rewrite ip_octets_value; [done|]. cbn in Hwf. unfold v4_max in Hwf.
    change (8 * Z.of_nat 4) with 32. lia.
  - rewrite read_exact_app by apply length_be_bytes. cbn [ok_or].
    unfold v6_octets. rewrite ip_octets_value; [done|]. cbn in Hwf. unfold v6_max in Hwf.
    change (8 * Z.of_nat 16) with 128. lia.
Qed.

Lemma read_socks_target_ok (atyp : Z) (s rest : list Z) (t : ConnectTarget) :
  Forall is_byte s → read_socks_target atyp s = Ok (t, rest) →
  socks_target_wf t ∧ canonical_target t = t ∧ reads 256 s rest.
Proof.
  intros Hs. unfold read_socks_target.
  assert (∀ n f ip rest, (n ≤ 16)%nat →
    (∀ z, 0 ≤ z < 2 ^ (8 * Z.of_nat n) → ip_wf (f z)) →
    (let? ' (octets, s) := ok_or (read_exact n s) SocksIo in
     Ok (Ip (canonicalize (f (be_value octets))), s)) = Ok (ip, rest) →
    socks_target_wf ip ∧ canonical_target ip = ip ∧ reads 256 s rest) as Hip.
  { intros n f ip r Hn Hf. destruct (read_exact n s) as [[o s']|] eqn:E; [|done].
    apply read_exact_Some in E as [-> <-]. apply Forall_app in Hs as [Ho _].
    intros [= <- <-]. cbn. rewrite canonicalize_canonicalize. split_and!; [|done|].
    - by apply canonicalize_wf, Hf, be_value_bound.
    - exists o. split; [done|lia]. }
  destruct (atyp =? 1).
  { apply Hip; [lia|]. intros z Hz. cbn. unfold v4_max. lia. }
  destruct (atyp =? 4).
  { apply Hip; [lia|]. intros z Hz. cbn. unfold v6_max. lia. }
  destruct (atyp =? 3); [|done].
  destruct (read_u8 s) as [[n s1]|] eqn:E1; [|done].
  apply read_u8_ok in E1 as (Hn & _ & E1); [|done]. unfold is_byte in Hn. cbn [ok_or].
  destruct (n =? 0) eqn:E0; [done|]. bool_to_prop.
  destruct (read_exact (Z.to_nat n) s1) as [[h s2]|] eqn:E2; [|done]. cbn [ok_or].
  apply read_exact_Some in E2 as [-> Hh].
  destruct (from_utf8 h) as [h'|] eqn:Eu; [|done].
  pose proof (from_utf8_Some _ _ Eu). subst h'. intros [= <- <-].
  cbn [socks_target_wf]. split_and!; [lia..|done|done|].
  apply (reads_trans 1 255 s (h ++ s2) s2); [done|]. exists h. split; [done|lia].
Qed.

(** ** Properties *)

(** the reader accepts every request laid out as RFC 1928 prescribes,
    whatever the reserved byte, and returns its command, port and target, the
    target's address in canonical form; conversely whatever it accepts has a
    well-formed canonical target, a 16-bit port, and takes at most 262 bytes. *)
Theorem socks_request_exact :
  (∀ r rsv rest, socks_request_wf r →
     read_request (wire_request r rsv ++ rest) = Ok (canonical_socks r, rest)) ∧
  (∀ s r rest, Forall is_byte s → read_request s = Ok (r, rest) →
     socks_request_wf r ∧ canonical_socks r = r ∧ reads 262 s rest).
Proof.
  split.
  - intros r rsv rest [Ht Hp]. unfold read_request, wire_request, canonical_socks.
    pose proof (read_socks_target_wire (socks_target r) (be_bytes 2 (socks_port r) ++ rest) Ht)
      as E. destruct (wire_target (socks_target r)) as [atyp bytes]. cbn [fst snd] in E.
    rewrite <-app_assoc, read_exact_app by done. cbn [ok_or nth].
    change (negb (SOCKS_VERSION =? SOCKS_VERSION)) with false.
    replace (socks_command_of _) with (Ok (E := Socks5Error) (socks_command r))
      by (by destruct (socks_command r)).
    rewrite <-app_assoc, E, read_exact_app by apply length_be_bytes. cbn [ok_or].
    rewrite ip_octets_value; [done|]. unfold u16_max in Hp. change (8 * Z.of_nat 2) with 16. lia.
  - intros s r rest Hs. unfold read_request.
    destruct (read_exact 4 s) as [[h s1]|] eqn:E1; [|done].
    apply read_exact_Some in E1 as [-> Hh]. apply Forall_app in Hs as [_ Hs1]. cbn [ok_or].
    destruct (negb _); [done|]. destruct (socks_command_of _) as [c|]; [|done].
    destruct (read_socks_target _ s1) as [[t s2]|] eqn:E2; [|done].
    apply read_socks_target_ok in E2 as (Ht & Hc & Hr); [|done].
    destruct (read_exact 2 s2) as [[p s3]|] eqn:E3; [|done]. cbn [ok_or].
    apply read_exact_Some in E3 as [-> Hp]. intros [= <- <-].
    pose proof (reads_bytes _ _ _ Hr Hs1) as [Hpb _]%Forall_app.
    apply be_value_bound in Hpb. rewrite Hp in Hpb. change (8 * Z.of_nat 2) with 16 in Hpb.
    split; [split; [done|cbn; unfold u16_max; lia]|]. split.
    + unfold canonical_socks. cbn. by rewrite Hc.
    + apply (reads_trans 4 258 (h ++ s1) s1 s3); [exists h; split; [done|lia]|].
      apply (reads_trans 256 2 s1 (p ++ s3) s3); [done|]. exists p. split; [done|lia].
Qed.
