(* ===== verification/Origin.v ===== *)
(** * Reserved MCP origins ([crates/sendbox-egress/src/origin.rs])

    Destinations that only the MCP HTTP proxy may reach: the broker's general
    tunnels must refuse them.  The two [BTreeSet]s of the state are finite sets.
    The main theorems show that a reservation is never forgotten and that the
    state stays within its bounds. *)

From S2P Require Import Prelude RustStr Net Address Domain.

(** ** Definitions *)

Definition MAX_OBSERVED_NAMES_PER_ORIGIN : Z := 64.
Definition MAX_OBSERVED_ADDRESSES_PER_ORIGIN : Z := 256.

Inductive OriginReservationError : Type :=
| InvalidHost (host : list Z)
| InvalidPort
| CapacityExceeded.

(** The fields of [McpHttpOrigin] the reservations use. *)
Record McpHttpOrigin : Type := { origin_host : list Z; origin_port : Z }.

Record OriginReservations : Type := {
  remote_mcp_active : bool;
  max_names : Z;
  max_addresses : Z;
  res_names : gset (list Z * Z);
  res_addresses : gset (ip_addr * Z);
}.

Definition OriginReservations_default : OriginReservations :=
  {| remote_mcp_active := false; max_names := 0; max_addresses := 0;
     res_names := ∅; res_addresses := ∅ |}.

Definition normalize_host (host : list Z) : result OriginReservationError (list Z) :=
  match parse_ip host with
  | Some address => Ok (show_ip (canonicalize address))
  | None => map_err (λ _, InvalidHost host) (normalize_domain host)
  end.

Definition with_names (r : OriginReservations) (names : gset (list Z * Z))
  : OriginReservations :=
  {| remote_mcp_active := remote_mcp_active r; max_names := max_names r;
     max_addresses := max_addresses r; res_names := names;
     res_addresses := res_addresses r |}.

Definition reserve_configured (host : list Z) (port : Z) (r : OriginReservations)
  : result OriginReservationError OriginReservations :=
  if port =? 0 then Err InvalidPort
  else
    let? host := normalize_host host in
    if negb (bool_decide ((host, port) ∈ res_names r)) &&
       (max_names r <=? Z.of_nat (size (res_names r)))
    then Err CapacityExceeded
    else Ok (with_names r ({[(host, port)]} ∪ res_names r)).

Fixpoint reserve_all (origins : list McpHttpOrigin) (r : OriginReservations)
  : result OriginReservationError OriginReservations :=
  match origins with
  | [] => Ok r
  | o :: rest =>
      let? r := reserve_configured (origin_host o) (origin_port o) r in reserve_all rest r
  end.

Definition reservations_new (origins : list McpHttpOrigin)
  : result OriginReservationError OriginReservations :=
  let n := Z.of_nat (length origins) in
  let? max_names :=
    ok_or (checked_mul u64_max n (MAX_OBSERVED_NAMES_PER_ORIGIN + 1)) CapacityExceeded in
  let? max_addresses :=
    ok_or (checked_mul u64_max n MAX_OBSERVED_ADDRESSES_PER_ORIGIN) CapacityExceeded in
  reserve_all origins
    {| remote_mcp_active := negb (length origins =? 0)%nat;
       max_names := max_names; max_addresses := max_addresses;
       res_names := ∅; res_addresses := ∅ |}.

(** [&self] methods change the state behind the lock: the reservations are
    returned, unchanged when there is an error. *)
Definition reserve_resolution (host : list Z) (port : Z) (aliases : list (list Z))
    (addresses : list ip_addr) (r : OriginReservations)
  : result OriginReservationError OriginReservations :=
  if port =? 0 then Err InvalidPort
  else
    let? alias_names := collect normalize_host aliases in
    let? host := normalize_host host in
    let names : gset (list Z * Z) :=
      {[(host, port)]} ∪ list_to_set ((λ a, (a, port)) <$> alias_names) in
    let addresses : gset (ip_addr * Z) :=
      list_to_set ((λ a, (canonicalize a, port)) <$> addresses) in
    let new_names := Z.of_nat (size (names ∖ res_names r)) in
    let new_addresses := Z.of_nat (size (addresses ∖ res_addresses r)) in
    if (max_names r <? saturating_add u64_max (Z.of_nat (size (res_names r))) new_names) ||
       (max_addresses r <?
          saturating_add u64_max (Z.of_nat (size (res_addresses r))) new_addresses)
    then Err CapacityExceeded
    else Ok {| remote_mcp_active := remote_mcp_active r; max_names := max_names r;
               max_addresses := max_addresses r;
               res_names := res_names r ∪ names;
               res_addresses := res_addresses r ∪ addresses |}.

Definition denies_hostname (host : list Z) (port : Z) (r : OriginReservations)
  : result OriginReservationError bool :=
  let? host := normalize_host host in Ok (bool_decide ((host, port) ∈ res_names r)).

Definition denies_direct_ip (address : ip_addr) (port : Z) (r : OriginReservations) : bool :=
  if remote_mcp_active r then true
  else bool_decide ((canonicalize address, port) ∈ res_addresses r).

(** ** Specification *)

(** The states a gateway reaches: the configured origins, then any successful
    reservations of resolutions. *)
Inductive reservations_reach (origins : list McpHttpOrigin) : OriginReservations → Prop :=
| reach_new r : reservations_new origins = Ok r → reservations_reach origins r
| reach_resolution host port aliases addresses r r' :
    reservations_reach origins r →
    reserve_resolution host port aliases addresses r = Ok r' →
    reservations_reach origins r'.

(** [r'] has every reservation of [r]. *)
Definition extends (r r' : OriginReservations) : Prop :=
  remote_mcp_active r' = remote_mcp_active r ∧ max_names r' = max_names r ∧
  max_addresses r' = max_addresses r ∧
  res_names r ⊆ res_names r' ∧ res_addresses r ⊆ res_addresses r'.

Definition reservations_ok (r : OriginReservations) : Prop :=
  Z.of_nat (size (res_names r)) ≤ max_names r < u64_max ∧
  Z.of_nat (size (res_addresses r)) ≤ max_addresses r < u64_max.

(** ** Lemmas *)

#[global] Instance extends_preorder : PreOrder extends.
Proof.
  split.
  - intros r. unfold extends. split_and!; done.
  - intros r1 r2 r3 (? & ? & ? & ? & ?) (? & ? & ? & ? & ?).
    unfold extends. split_and!; try congruence; by etrans.
Qed.

Lemma reserve_configured_ok (host : list Z) (port : Z) (r r' : OriginReservations) :
  reserve_configured host port r = Ok r' →
  extends r r' ∧ (reservations_ok r → reservations_ok r') ∧
  ∃ h, normalize_host host = Ok h ∧ (h, port) ∈ res_names r'.
Proof.
  unfold reserve_configured. destruct (port =? 0); [done|].
  destruct (normalize_host host) as [h|]; [|done].
  destruct (_ && _) eqn:E; [done|]. intros [= <-]. split_and!.
  - unfold extends, with_names. cbn. split_and!; set_solver.
  - intros [Hn Ha]. unfold reservations_ok, with_names.
    cbn [res_names max_names res_addresses max_addresses]. split; [|done].
    apply andb_false_iff in E as [E|E]; bool_to_prop.
    + replace ({[(h, port)]} ∪ res_names r) with (res_names r) by set_solver. done.
    + rewrite size_union_alt, size_singleton.
      assert (size (res_names r ∖ {[(h, port)]}) ≤ size (res_names r))%nat
        by (apply subseteq_size; set_solver). lia.
  - exists h. split; [done|]. cbn. set_solver.
Qed.

Lemma reserve_all_ok (origins : list McpHttpOrigin) (r r' : OriginReservations) :
  reserve_all origins r = Ok r' →
  extends r r' ∧ (reservations_ok r → reservations_ok r') ∧
  ∀ o, o ∈ origins →
    ∃ h, normalize_host (origin_host o) = Ok h ∧ (h, origin_port o) ∈ res_names r'.
Proof.
  revert r. induction origins as [|o origins IH]; intros r; cbn [reserve_all].
  { intros [= <-]. split_and!; [done|done|set_solver]. }
  destruct (reserve_configured _ _ r) as [r1|] eqn:E; [|done].
  apply reserve_configured_ok in E as (Hx & Hok & Hh).
  intros (Hx' & Hok' & Hall)%IH. split_and!; [by etrans|auto|].
  intros o' [->|?]%elem_of_cons; [|auto].
  destruct Hh as (h & ? & ?). exists h. split; [done|].
  destruct Hx' as (_ & _ & _ & Hsub & _). set_solver.
Qed.

Lemma union_fits `{Countable X} (s t : gset X) (m : Z) :
  saturating_add u64_max (Z.of_nat (size s)) (Z.of_nat (size (t ∖ s))) ≤ m → m < u64_max →
  Z.of_nat (size (s ∪ t)) ≤ m.
Proof. intros Hs Hm. pose proof (size_union_alt s t). unfold saturating_add in Hs. lia. Qed.

Lemma reserve_resolution_ok (host : list Z) (port : Z) (aliases : list (list Z))
    (addresses : list ip_addr) (r r' : OriginReservations) :
  reserve_resolution host port aliases addresses r = Ok r' →
  extends r r' ∧ (reservations_ok r → reservations_ok r') ∧
  (∀ name, name = host ∨ name ∈ aliases →
     ∃ h, normalize_host name = Ok h ∧ (h, port) ∈ res_names r') ∧
  (∀ ip, ip ∈ addresses → (canonicalize ip, port) ∈ res_addresses r').
Proof.
  unfold reserve_resolution. destruct (port =? 0); [done|].
  destruct (collect normalize_host aliases) as [as_|] eqn:Ea; [|done].
  destruct (normalize_host host) as [h|] eqn:Eh; [|done].
  destruct (_ || _) eqn:E; [done|]. bool_to_prop. intros [= <-]. split_and!.
  - unfold extends. cbn. split_and!; set_solver.
  - intros [[? ?] [? ?]]. unfold reservations_ok.
    cbn [res_names max_names res_addresses max_addresses].
    split; (split; [by apply union_fits|done]).
  - intros name [->|Hn]; cbn [res_names].
    + exists h. split; [done|]. set_solver.
    + apply collect_ok in Ea. apply list_elem_of_lookup in Hn as [i Hi].
      destruct (Forall2_lookup_l _ _ _ _ _ Ea Hi) as (a & Ha & Hna).
      exists a. split; [done|]. apply list_elem_of_lookup_2 in Ha. set_solver.
  - intros ip Hip. cbn [res_addresses]. set_solver.
Qed.

Lemma reservations_new_ok (origins : list McpHttpOrigin) (r : OriginReservations) :
  reservations_new origins = Ok r →
  reservations_ok r ∧ remote_mcp_active r = negb (length origins =? 0)%nat ∧
  max_names r = 65 * Z.of_nat (length origins) ∧
  max_addresses r = 256 * Z.of_nat (length origins) ∧
  ∀ o, o ∈ origins →
    ∃ h, normalize_host (origin_host o) = Ok h ∧ (h, origin_port o) ∈ res_names r.
Proof.
  unfold reservations_new, checked_mul, MAX_OBSERVED_NAMES_PER_ORIGIN,
    MAX_OBSERVED_ADDRESSES_PER_ORIGIN, u64_max.
  destruct (_ <=? _) eqn:E1; [|done]. cbn [ok_or].
  destruct (Z.of_nat (length origins) * 256 <=? _) eqn:E2; [|done]. cbn [ok_or].
  bool_to_prop. intros ((Ha & Hn & Had & _) & Hok & Hall)%reserve_all_ok. cbn in *.
  split_and!; [|done|lia|lia|done]. apply Hok. unfold reservations_ok, u64_max.
  cbn [res_names max_names res_addresses max_addresses]. rewrite !size_empty. lia.
Qed.

Lemma reach_facts (origins : list McpHttpOrigin) (r : OriginReservations) :
  reservations_reach origins r →
  reservations_ok r ∧ remote_mcp_active r = negb (length origins =? 0)%nat ∧
  max_names r = 65 * Z.of_nat (length origins) ∧
  max_addresses r = 256 * Z.of_nat (length origins) ∧
  ∀ o, o ∈ origins →
    ∃ h, normalize_host (origin_host o) = Ok h ∧ (h, origin_port o) ∈ res_names r.
Proof.
  induction 1 as [r Hr|host port aliases addresses r r' _ (Hok & Ha & Hn & Had & Hall) Hr].
  - by apply reservations_new_ok.
  - apply reserve_resolution_ok in Hr as ((Hx & Hx1 & Hx2 & Hx3 & _) & Hok' & _).
    split_and!; [auto|congruence|congruence|congruence|].
    intros o (h & ? & ?)%Hall. exists h. set_solver.
Qed.

(** ** Properties *)

(** every host a configured origin names stays refused to tunnels, under any
    spelling with the same normal form, through every later reservation; so do
    the host, aliases and addresses of every reserved resolution, and while any
    origin is configured no tunnel to a literal address is accepted at all. *)
Theorem reservations_persist (origins : list McpHttpOrigin) (r r' : OriginReservations)
    (host : list Z) (port : Z) (aliases : list (list Z)) (addresses : list ip_addr)
    (Hreach : reservations_reach origins r)
    (Hres : reserve_resolution host port aliases addresses r = Ok r') :
  reservations_reach origins r' ∧
  (∀ o spelled, o ∈ origins → normalize_host spelled = normalize_host (origin_host o) →
     denies_hostname spelled (origin_port o) r' = Ok true) ∧
  (∀ name spelled, name = host ∨ name ∈ aliases →
     normalize_host spelled = normalize_host name → denies_hostname spelled port r' = Ok true) ∧
  (∀ ip, ip ∈ addresses → denies_direct_ip ip port r' = true) ∧
  (∀ ip p, origins ≠ [] → denies_direct_ip ip p r' = true) ∧
  (∀ spelled p, denies_hostname spelled p r = Ok true → denies_hostname spelled p r' = Ok true) ∧
  (∀ ip p, denies_direct_ip ip p r = true → denies_direct_ip ip p r' = true).
Proof.
  assert (reservations_reach origins r') as Hreach' by (by econstructor).
  apply reach_facts in Hreach' as Hf. destruct Hf as (_ & Ha & _ & _ & Hall).
  apply reserve_resolution_ok in Hres as ((Hx & _ & _ & Hxn & Hxa) & _ & Hnames & Haddr).
  unfold denies_hostname, denies_direct_ip. split_and!; [done| | | | | |].
  - intros o spelled (h & Hh & Hin)%Hall ->. rewrite Hh. by rewrite bool_decide_eq_true_2.
  - intros name spelled (h & Hh & Hin)%Hnames ->. rewrite Hh. by rewrite bool_decide_eq_true_2.
  - intros ip Hin%Haddr. destruct (remote_mcp_active r'); [done|].
    by rewrite bool_decide_eq_true_2.
  - intros ip p Hne. rewrite Ha. by destruct origins.
  - intros spelled p. destruct (normalize_host spelled) as [h|]; [|done].
    intros [= H]. bool_to_prop. rewrite bool_decide_eq_true_2; [done|]. set_solver.
  - intros ip p. rewrite Hx. destruct (remote_mcp_active r); [done|].
    intros H. bool_to_prop. apply bool_decide_eq_true_2. set_solver.
Qed.

(** the reservations of [n] origins never hold more than [65 * n] names and
    [256 * n] addresses. *)
Theorem reservations_bounded (origins : list McpHttpOrigin) (r : OriginReservations)
    (Hreach : reservations_reach origins r) :
  Z.of_nat (size (res_names r)) ≤ 65 * Z.of_nat (length origins) ∧
  Z.of_nat (size (res_addresses r)) ≤ 256 * Z.of_nat (length origins).
Proof.
  apply reach_facts in Hreach as ([[? _] [? _]] & _ & <- & <- & _). done.
Qed.

(** ** Witnesses *)

Definition sample_origins : list McpHttpOrigin :=
  [{| origin_host := str "MCP.example.com"; origin_port := 443 |}].

Definition sample_reservations : OriginReservations :=
  {| remote_mcp_active := true; max_names := 65; max_addresses := 256;
     res_names := {[(str "mcp.example.com", 443)]} ∪ ∅; res_addresses := ∅ |}.

Definition sample_reserved : OriginReservations :=
  {| remote_mcp_active := true; max_names := 65; max_addresses := 256;
     res_names := res_names sample_reservations ∪
       ({[(str "mcp.example.com", 443)]} ∪ {[(str "edge.example.net", 443)]} ∪ ∅);
     res_addresses := ∅ ∪ ({[(V4 16909060, 443)]} ∪ ∅) |}.

Lemma reservations_persist_witness :
  denies_hostname (str "edge.example.net.") 443 sample_reserved = Ok true.
Proof.
  apply (reservations_persist sample_origins sample_reservations sample_reserved
           (str "mcp.example.com") 443 [str "edge.example.net"]
           [V6 (65535 * 2 ^ 32 + 16909060)]) with (name := str "edge.example.net").
  - apply reach_new. vm_compute. reflexivity.
  - vm_compute. reflexivity.
  - right. set_solver.
  - vm_compute. reflexivity.
Defined.

Lemma reservations_bounded_witness :
  Z.of_nat (size (res_names sample_reservations)) ≤ 65 * Z.of_nat (length sample_origins).
Proof.
  refine (proj1 (reservations_bounded sample_origins sample_reservations _)).
  apply reach_new. vm_compute. reflexivity.
Defined.
