(* ===== verification/Resolver.v ===== *)
(** * Resolution results and audit events
      ([crates/sendbox-egress/src/resolver.rs], [crates/sendbox-egress/src/audit.rs])

    The data the brokers exchange with the upstream resolver and the audit sink.
    [hickory_proto::rr::Name] is a parameter with the operations the brokers
    call ([NameApi]); a socket address is a pair of an address and a port. *)

From S2P Require Import Prelude RustStr Net NetPolicy GithubMeta DnsBudget.

(** ** DNS names *)

Class NameApi (N : Type) : Type := {
  #[global] name_eq_dec :: EqDecision N;
  (** [Name::to_utf8]. *)
  name_to_utf8 : N → list Z;
  (** [Name::from_ascii]. *)
  name_from_ascii : list Z → option N;
}.

(** Names as their text, for concrete runs. *)
#[global] Instance text_names : NameApi (list Z) := {|
  name_to_utf8 := λ n, n;
  name_from_ascii := λ s, Some s;
|}.

(** ** Results *)

Record ResolvedAddress : Type := { ra_ip : ip_addr; ra_ttl_secs : Z }.

Inductive ResolveFailureKind : Type :=
| Nxdomain
| KindTimeout
| BrokerTimeout
| KindIo
| KindInvalidResponse
| KindResponseCode
| Upstream.

Inductive DnsTransport : Type := TransportUdp | TransportTcp.
Inductive DnsOperation : Type := OpBind | OpConnect | OpSend | OpReceive | ReadLength | ReadBody.

#[global] Instance ResolveFailureKind_eq_dec : EqDecision ResolveFailureKind.
Proof. solve_decision. Defined.

Record ResolveFailure : Type := {
  rf_kind : ResolveFailureKind;
  rf_upstream : option (ip_addr * Z);
  rf_qtype : option DnsRecordType;
  rf_transport : option DnsTransport;
  rf_operation : option DnsOperation;
  rf_io_kind : option string;
  rf_os_error : option Z;
  rf_detail : option string;
  rf_response_code : option Z;
}.

Definition failure_new (kind : ResolveFailureKind) : ResolveFailure :=
  {| rf_kind := kind; rf_upstream := None; rf_qtype := None; rf_transport := None;
     rf_operation := None; rf_io_kind := None; rf_os_error := None; rf_detail := None;
     rf_response_code := None |}.

(** An [io::Error]: the name of its kind, whether that is [TimedOut], its OS
    error number. *)
Record io_error : Type := { io_kind : string; io_timed_out : bool; raw_os_error : option Z }.

Section Resolver.
Context {N : Type} `{NA : NameApi N}.

Record ResolvedChain : Type := {
  cname_chain : list N;
  final_name : N;
  addresses : list ResolvedAddress;
}.

Definition names_to_validate (c : ResolvedChain) : list N := cname_chain c ++ [final_name c].

Inductive ResolveError : Type :=
| NxDomain (name : N)
| UpstreamError (message : string)
| ResolveTimeout
| ExchangeTimeout (transport : DnsTransport) (operation : DnsOperation)
| Transport (transport : DnsTransport) (operation : DnsOperation) (source : io_error)
| ResolveInvalidResponse (detail : string)
| ResponseCodeError (code : Z)
| QueryError (upstream : ip_addr * Z) (qtype : DnsRecordType) (source : ResolveError).

Fixpoint diagnostic (e : ResolveError) : ResolveFailure :=
  match e with
  | QueryError upstream qtype source =>
      let failure := diagnostic source in
      {| rf_kind := rf_kind failure; rf_upstream := Some upstream; rf_qtype := Some qtype;
         rf_transport := rf_transport failure; rf_operation := rf_operation failure;
         rf_io_kind := rf_io_kind failure; rf_os_error := rf_os_error failure;
         rf_detail := rf_detail failure; rf_response_code := rf_response_code failure |}
  | ExchangeTimeout transport operation =>
      {| rf_kind := KindTimeout; rf_upstream := None; rf_qtype := None;
         rf_transport := Some transport; rf_operation := Some operation;
         rf_io_kind := None; rf_os_error := None; rf_detail := None;
         rf_response_code := None |}
  | Transport transport operation source =>
      {| rf_kind := if io_timed_out source then KindTimeout else KindIo;
         rf_upstream := None; rf_qtype := None;
         rf_transport := Some transport; rf_operation := Some operation;
         rf_io_kind := Some (io_kind source); rf_os_error := raw_os_error source;
         rf_detail := None; rf_response_code := None |}
  | ResolveInvalidResponse detail =>
      {| rf_kind := KindInvalidResponse; rf_upstream := None; rf_qtype := None;
         rf_transport := None; rf_operation := None; rf_io_kind := None;
         rf_os_error := None; rf_detail := Some detail; rf_response_code := None |}
  | ResponseCodeError code =>
      {| rf_kind := KindResponseCode; rf_upstream := None; rf_qtype := None;
         rf_transport := None; rf_operation := None; rf_io_kind := None;
         rf_os_error := None; rf_detail := None; rf_response_code := Some code |}
  | NxDomain _ => failure_new Nxdomain
  | ResolveTimeout => failure_new KindTimeout
  | UpstreamError _ => failure_new Upstream
  end.

(** The reply to [timeout(deadline, resolver.resolve(name))]. *)
Inductive resolve_reply : Type :=
| Resolved (chain : ResolvedChain)
| ResolveFailed (error : ResolveError)
| DeadlineExceeded.

End Resolver.

Arguments ResolvedChain : clear implicits.
Arguments ResolveError : clear implicits.
Arguments resolve_reply : clear implicits.

(** ** Audit events *)

Inductive AuditEvent (ipnet : Type) : Type :=
| EvGitHubMeta (status : GitHubMetaStatus ipnet)
| DnsAllowed (name : list Z) (qtype : string) (answers ttl_secs : Z)
| DnsDenied (name : list Z) (response_code reason : string)
| DnsResolutionFailed (name : list Z) (source : string) (failure : ResolveFailure)
| DnsStructuralRejected (name : list Z) (limit : DnsLimit)
| DnsRateLimited (name : list Z) (limit : DnsLimit)
| DnsUnsupportedQtype (name : list Z) (qtype : string)
| DnsMalformed
| ConnectAllowed (target : list Z) (ip : ip_addr) (port : Z)
| ConnectDenied (target : list Z) (port : Z) (status : string)
| ConnectDialFailed (target : list Z) (port : Z) (io_kind : string) (os_error : option Z)
| ConnectUnsupportedProtocol (target : list Z) (port : Z)
| ConnectLimitExceeded
| ConnectError (detail : string).

Arguments EvGitHubMeta {ipnet}.
Arguments DnsAllowed {ipnet}.
Arguments DnsDenied {ipnet}.
Arguments DnsResolutionFailed {ipnet}.
Arguments DnsStructuralRejected {ipnet}.
Arguments DnsRateLimited {ipnet}.
Arguments DnsUnsupportedQtype {ipnet}.
Arguments DnsMalformed {ipnet}.
Arguments ConnectAllowed {ipnet}.
Arguments ConnectDenied {ipnet}.
Arguments ConnectDialFailed {ipnet}.
Arguments ConnectUnsupportedProtocol {ipnet}.
Arguments ConnectLimitExceeded {ipnet}.
Arguments ConnectError {ipnet}.
