(* ===== verification/Egress.v ===== *)
(** * Effects of the egress brokers

    A broker's handler is a program: a tree of atomic operations on the state the
    brokers share (the Meta scope, the DNS budget window, the authorization
    store, the origin reservations, the audit log) and of exchanges with the
    outside (the upstream resolver, the dialer, the client).  Each operation is
    one lock acquisition or one [await] of the code, so the interleavings of
    handlers are the interleavings of these operations.  [exec] runs one
    operation; [run] runs a program alone, with a script for the outside. *)

From S2P Require Import Prelude RustStr Net GithubMeta NetPolicy AuthCache DnsBudget.
From S2P Require Import Origin Resolver.

Section Egress.
Context {ipnet : Type} `{Api : IpNetApi ipnet}.
Context {C : Type} `{Store : AuthStore C}.
Context {N : Type} `{NA : NameApi N}.

(** What the brokers are configured with. *)
Record Broker : Type := {
  b_policy : PolicyEngine ipnet;
  b_guard : DnsGuard;
}.

(** ** The shared state *)

Record World : Type := {
  w_meta : GitHubMeta ipnet;
  w_window : WindowState;
  w_cache : C;
  w_reservations : OriginReservations;
  w_audit : list (AuditEvent ipnet);
}.

Definition set_window (w : World) (x : WindowState) : World :=
  {| w_meta := w_meta w; w_window := x; w_cache := w_cache w;
     w_reservations := w_reservations w; w_audit := w_audit w |}.
Definition set_cache (w : World) (x : C) : World :=
  {| w_meta := w_meta w; w_window := w_window w; w_cache := x;
     w_reservations := w_reservations w; w_audit := w_audit w |}.
Definition set_meta (w : World) (x : GitHubMeta ipnet) : World :=
  {| w_meta := x; w_window := w_window w; w_cache := w_cache w;
     w_reservations := w_reservations w; w_audit := w_audit w |}.
Definition set_reservations (w : World) (x : OriginReservations) : World :=
  {| w_meta := w_meta w; w_window := w_window w; w_cache := w_cache w;
     w_reservations := x; w_audit := w_audit w |}.
Definition push_audit (w : World) (e : AuditEvent ipnet) : World :=
  {| w_meta := w_meta w; w_window := w_window w; w_cache := w_cache w;
     w_reservations := w_reservations w; w_audit := w_audit w ++ [e] |}.

(** ** Operations *)

(** The reply of the dialer: a socket with its local address, when that is
    available, or an error. *)
Definition dial_reply : Type := result io_error (option (ip_addr * Z)).

Inductive op : Type → Type :=
| OSnapshot : op (PolicySnapshot ipnet)
| OIsCurrent (s : PolicySnapshot ipnet) : op bool
| OAdmit (name : list Z) : op (result DnsLimit unit)
| OAddresses (name : list Z) (rev : Z) : op (list ip_addr)
| OAuthorize (name : list Z) (ip : ip_addr) (ttl rev : Z) : op unit
| ODeniesHost (host : list Z) (port : Z) : op (result OriginReservationError bool)
| ODeniesIp (ip : ip_addr) (port : Z) : op bool
| ORecord (event : AuditEvent ipnet) : op unit
| OResolve (name : N) : op (resolve_reply N)
| ODial (ip : ip_addr) (port : Z) : op dial_reply
| OWrite (bytes : list Z) : op bool
| OProxy : op unit.

Inductive prog (A : Type) : Type :=
| Ret (a : A)
| Vis {X : Type} (o : op X) (k : X → prog A).

Arguments Ret {A} a.
Arguments Vis {A X} o k.

Fixpoint bind {A B : Type} (p : prog A) (f : A → prog B) : prog B :=
  match p with
  | Ret a => f a
  | Vis o k => Vis o (λ x, bind (k x) f)
  end.

Definition perform {X : Type} (o : op X) : prog X := Vis o Ret.

(** ** One operation

    [now] is the instant it runs at; [o] is the outside's answer to the
    operations that ask it. *)

Definition answer (X : Type) (o : op X) : Type :=
  match o with
  | OResolve _ => resolve_reply N
  | ODial _ _ => dial_reply
  | OWrite _ => bool
  | _ => unit
  end.

Definition exec (b : Broker) (now : Z) {X : Type} (o : op X)
  : answer X o → World → X * World :=
  match o in op X return answer X o → World → X * World with
  | OSnapshot => λ _ w, (snapshot (b_policy b) now (w_meta w), w)
  | OIsCurrent s => λ _ w, (is_current s now (w_meta w), w)
  | OAdmit name => λ _ w,
      let '(r, x) := admit_query (b_guard b) now name (w_window w) in (r, set_window w x)
  | OAddresses name rev => λ _ w,
      let '(ips, c) := store_addresses now name rev (w_cache w) in (ips, set_cache w c)
  | OAuthorize name ip ttl rev => λ _ w,
      (tt, set_cache w (store_authorize now name ip ttl rev (w_cache w)))
  | ODeniesHost host port => λ _ w, (denies_hostname host port (w_reservations w), w)
  | ODeniesIp ip port => λ _ w, (denies_direct_ip ip port (w_reservations w), w)
  | ORecord event => λ _ w, (tt, push_audit w event)
  | OResolve _ => λ r w, (r, w)
  | ODial _ _ => λ r w, (r, w)
  | OWrite _ => λ r w, (r, w)
  | OProxy => λ _ w, (tt, w)
  end.

(** ** Programs run alone

    The outside as functions; [trace] collects the operations it was asked. *)

Record Outside : Type := {
  o_resolve : N → resolve_reply N;
  o_dial : ip_addr → Z → dial_reply;
  o_write : list Z → bool;
}.

Inductive request : Type :=
| AskResolve (name : N)
| AskDial (ip : ip_addr) (port : Z)
| AskWrite (bytes : list Z)
| AskProxy.

Definition consult (out : Outside) {X : Type} (o : op X) : answer X o * list request :=
  match o in op X return answer X o * list request with
  | OResolve name => (o_resolve out name, [AskResolve name])
  | ODial ip port => (o_dial out ip port, [AskDial ip port])
  | OWrite bytes => (o_write out bytes, [AskWrite bytes])
  | OProxy => (tt, [AskProxy])
  | OSnapshot => (tt, [])
  | OIsCurrent _ => (tt, [])
  | OAdmit _ => (tt, [])
  | OAddresses _ _ => (tt, [])
  | OAuthorize _ _ _ _ => (tt, [])
  | ODeniesHost _ _ => (tt, [])
  | ODeniesIp _ _ => (tt, [])
  | ORecord _ => (tt, [])
  end.

Fixpoint run {A : Type} (b : Broker) (out : Outside) (now : Z) (p : prog A) (w : World)
  : A * World * list request :=
  match p with
  | Ret a => (a, w, [])
  | Vis o k =>
      let '(a, asked) := consult out o in
      let '(x, w) := exec b now o a w in
      let '(r, w, trace) := run b out now (k x) w in
      (r, w, asked ++ trace)
  end.

End Egress.

Arguments Ret {ipnet N A} a.
Arguments Vis {ipnet N A X} o k.
Arguments World : clear implicits.
Arguments Broker : clear implicits.
Arguments prog : clear implicits.
Arguments op : clear implicits.
Arguments Outside : clear implicits.

(** Sequencing, in the style of the [?] notations: [let!] binds the result of a
    program, [do!] drops it, [let!?] also returns an error early. *)
Notation "'let!' x ':=' e 'in' k" := (bind e (λ x, k))
  (at level 10, x name, k at level 200) : rust_scope.
Notation "'do!' e 'in' k" := (bind e (λ _, k))
  (at level 10, k at level 200) : rust_scope.
Notation "'let!?' x ':=' e 'in' k" :=
  (bind e (λ r, match r with Ok x => k | Err err => Ret (Err err) end))
  (at level 10, x name, k at level 200) : rust_scope.

(** ** Lemmas *)

Section Always.
Context {ipnet : Type} {N : Type}.

(** [Q] holds of the result whatever the operations reply. *)
Fixpoint always {A : Type} (p : prog ipnet N A) (Q : A → Prop) : Prop :=
  match p with
  | Ret a => Q a
  | Vis o k => ∀ x, always (k x) Q
  end.

Lemma always_bind {A B : Type} (p : prog ipnet N A) (f : A → prog ipnet N B) (Q : B → Prop) :
  always p (λ a, always (f a) Q) → always (bind p f) Q.
Proof. induction p as [a|X o k IH]; simpl; auto. Qed.

Lemma always_mono {A : Type} (p : prog ipnet N A) (Q R : A → Prop) :
  (∀ a, Q a → R a) → always p Q → always p R.
Proof. induction p as [a|X o k IH]; simpl; eauto. Qed.

(** [P] holds of every operation the program may perform. *)
Fixpoint every_op {A : Type} (P : ∀ X, op ipnet N X → Prop) (p : prog ipnet N A) : Prop :=
  match p with
  | Ret a => True
  | Vis o k => P _ o ∧ ∀ x, every_op P (k x)
  end.

Lemma every_op_bind {A B : Type} (P : ∀ X, op ipnet N X → Prop) (p : prog ipnet N A)
    (f : A → prog ipnet N B) :
  every_op P p → always p (λ a, every_op P (f a)) → every_op P (bind p f).
Proof.
  induction p as [a|X o k IH]; simpl; [done|]. intros [Ho Hk] Ha. split; [done|].
  intros x. by apply IH.
Qed.

Lemma every_op_mono {A : Type} (P Q : ∀ X, op ipnet N X → Prop) (p : prog ipnet N A) :
  (∀ X o, P X o → Q X o) → every_op P p → every_op Q p.
Proof.
  intros HPQ. induction p as [a|X o k IH]; simpl; [done|]. intros [? ?]. split; auto.
Qed.

Lemma always_true {A : Type} (p : prog ipnet N A) (Q : A → Prop) : (∀ a, Q a) → always p Q.
Proof. intros HQ. induction p as [a|X o k IH]; simpl; auto. Qed.

End Always.
