(* ===== verification/DnsBroker.v ===== *)
(** * The DNS broker ([crates/sendbox-egress/src/dns_broker.rs])

    The handler of one DNS message, as a program over the operations of
    [Egress].  [hickory_proto]'s message type and wire format are parameters
    ([WireApi]).  The main theorem states what an answer can hold. *)

From S2P Require Import Prelude RustStr Net Address Domain GithubMeta NetPolicy AuthCache.
From S2P Require Import DnsBudget Origin Resolver ConnectProto Egress.

(** ** Messages *)

Inductive RecordType : Type :=
| RT_A | RT_AAAA | RT_CNAME | RT_TXT | RT_MX | RT_NS | RT_SOA | RT_SRV | RT_PTR
| RT_other (code : Z).

Inductive ResponseCode : Type := NoError | FormErr | ServFail | NXDomain | NotImp | Refused.

#[global] Instance ResponseCode_eq_dec : EqDecision ResponseCode.
Proof. solve_decision. Defined.

Inductive RData (N : Type) : Type :=
| RDataA (v4 : Z)
| RDataAAAA (v6 : Z)
| RDataCNAME (target : N).

Arguments RDataA {N}.
Arguments RDataAAAA {N}.
Arguments RDataCNAME {N}.

Record Query (N : Type) : Type := { q_name : N; q_type : RecordType; q_class : Z }.
Arguments q_name {N}.
Arguments q_type {N}.
Arguments q_class {N}.

(** The fields of a request the broker reads. *)
Record Message (N : Type) : Type := {
  m_id : Z;
  m_is_query : bool;        (** [metadata.message_type == MessageType::Query] *)
  m_op_code : Z;            (** [OpCode::Query] is 0 *)
  m_recursion_desired : bool;
  m_queries : list (Query N);
}.
Arguments m_id {N}.
Arguments m_is_query {N}.
Arguments m_op_code {N}.
Arguments m_recursion_desired {N}.
Arguments m_queries {N}.

Definition OPCODE_QUERY : Z := 0.

(** The builder of responses and the wire format, from [hickory_proto]. *)
Class WireApi (N R : Type) : Type := {
  message_from_vec : list Z → option (Message N);
  message_response : Z → Z → R;                      (** [Message::response(id, op)] *)
  message_error : Z → Z → ResponseCode → R;          (** [Message::error_msg] *)
  set_recursion : bool → bool → R → R;               (** desired, available *)
  set_response_code : ResponseCode → R → R;
  add_query : Query N → R → R;
  add_answer : N → Z → RData N → R → R;              (** owner, TTL, data *)
  message_to_vec : R → option (list Z);
}.

Definition record_type_of (t : RecordType) : option DnsRecordType :=
  match t with RT_A => Some A | RT_AAAA => Some Aaaa | _ => None end.

Definition dns_record_type_name (t : DnsRecordType) : string :=
  match t with A => "A" | Aaaa => "AAAA" end.

Definition record_type_name (t : RecordType) : string :=
  match t with
  | RT_A => "A"
  | RT_AAAA => "AAAA"
  | RT_CNAME => "CNAME"
  | RT_TXT => "TXT"
  | RT_MX => "MX"
  | RT_NS => "NS"
  | RT_SOA => "SOA"
  | RT_SRV => "SRV"
  | RT_PTR => "PTR"
  | RT_other _ => "other"
  end.

Definition response_code_name (c : ResponseCode) : string :=
  match c with
  | NoError => "noerror"
  | FormErr => "formerr"
  | ServFail => "servfail"
  | NXDomain => "nxdomain"
  | NotImp => "notimp"
  | Refused => "refused"
  end.

Inductive QueryOutcome (N : Type) : Type :=
| Answered (answers : list (N * RData N)) (ttl answer_count : Z) (qtype : string)
| Denied (code : ResponseCode) (reason : string).
Arguments Answered {N}.
Arguments Denied {N}.

Section DnsBroker.
Context {ipnet : Type} `{Api : IpNetApi ipnet}.
Context {C : Type} `{Store : AuthStore C}.
Context {N : Type} `{NA : NameApi N}.
Context {R : Type} `{Wire : !WireApi N R}.
Variable b : Broker ipnet.

#[local] Abbreviation prog := (prog ipnet N).

(** [for hop in resolved.names_to_validate()]. *)
Fixpoint validate_hops (policy : PolicySnapshot ipnet) (hops : list N)
  : option (QueryOutcome N) :=
  match hops with
  | [] => None
  | hop :: r =>
      match evaluate_domain_name policy (name_to_utf8 hop) with
      | Ok true => validate_hops policy r
      | Ok false => Some (Denied Refused "cname hop or owner denied by domain policy")
      | Err _ => Some (Denied FormErr "cname hop failed normalization")
      end
  end.

Definition canonical_address (a : ResolvedAddress) : ResolvedAddress :=
  {| ra_ip := canonicalize (ra_ip a); ra_ttl_secs := ra_ttl_secs a |}.

(** The addresses of the family the query asks for. *)
Definition matching_addresses (qtype : DnsRecordType) (l : list ResolvedAddress)
  : list ResolvedAddress :=
  filter (λ a, is_ipv4 (ra_ip a) = bool_decide (qtype = A)) (canonical_address <$> l).

(** [iter().map(|a| a.ttl_secs).min().unwrap_or(0)]. *)
Definition min_ttl (l : list ResolvedAddress) : Z :=
  match l with
  | [] => 0
  | a :: r => foldr (λ x acc, Z.min (ra_ttl_secs x) acc) (ra_ttl_secs a) r
  end.

Fixpoint authorize_each (name : list Z) (ttl rev : Z) (l : list ResolvedAddress)
  : prog unit :=
  match l with
  | [] => Ret tt
  | a :: r =>
      do! perform (OAuthorize name (ra_ip a) (from_secs ttl) rev) in
      authorize_each name ttl rev r
  end.

(** The CNAME records of the chain, then the addresses. *)
Definition build_answers (name : N) (resolved : ResolvedChain N) (l : list ResolvedAddress)
  : list (N * RData N) :=
  let owners := name :: cname_chain resolved in
  let targets := cname_chain resolved ++ [final_name resolved] in
  ((λ ot, (ot.1, RDataCNAME ot.2)) <$> filter (λ ot, ot.1 ≠ ot.2) (zip owners targets)) ++
  ((λ a, (final_name resolved,
          match ra_ip a with V4 v4 => RDataA v4 | V6 v6 => RDataAAAA v6 end)) <$> l).

(** [resolve_and_validate] after the resolver has replied. *)
Definition validate_reply (policy : PolicySnapshot ipnet) (name : N) (original : list Z)
    (qtype : DnsRecordType) (resolved : ResolvedChain N) : prog (QueryOutcome N) :=
  match validate_hops policy (names_to_validate resolved) with
  | Some outcome => Ret outcome
  | None =>
      let matching := matching_addresses qtype (addresses resolved) in
      if negb (forallb (λ a, allowed (address_permitted policy (ra_ip a))) matching)
      then Ret (Denied Refused "resolved address is restricted by policy")
      else
        let matching :=
          if g_max_response_records (b_guard b) <? Z.of_nat (length matching)
          then take (Z.to_nat (g_max_response_records (b_guard b))) matching
          else matching in
        let capped_ttl := cap_ttl (b_policy b) (min_ttl matching) in
        let! current := perform (OIsCurrent policy) in
        if negb current then Ret (Denied ServFail "network scope changed during resolution")
        else
          do! authorize_each original capped_ttl (revision policy) matching in
          Ret (Answered (build_answers name resolved matching) capped_ttl
                 (Z.of_nat (length matching)) (dns_record_type_name qtype))
  end.

Definition resolve_and_validate (name : N) (qtype : DnsRecordType) : prog (QueryOutcome N) :=
  let! policy := perform OSnapshot in
  match normalize_domain (name_to_utf8 name) with
  | Err _ => Ret (Denied FormErr "qname failed normalization")
  | Ok original =>
  match check_structure (b_guard b) original with
  | Err limit =>
      do! perform (ORecord (DnsStructuralRejected original limit)) in
      Ret (Denied Refused "qname violates a structural limit")
  | Ok _ =>
  match evaluate_domain_name policy original with
  | Ok false => Ret (Denied Refused "qname denied by domain policy")
  | Err _ => Ret (Denied FormErr "qname failed normalization")
  | Ok true =>
  let! admitted := perform (OAdmit original) in
  match admitted with
  | Err limit =>
      do! perform (ORecord (DnsRateLimited original limit)) in
      Ret (Denied Refused "query exfiltration budget exceeded")
  | Ok _ =>
  let! reply := perform (OResolve name) in
  match reply with
  | Resolved resolved => validate_reply policy name original qtype resolved
  | ResolveFailed error =>
      let nxdomain := match error with NxDomain _ => true | _ => false end in
      do! perform (ORecord (DnsResolutionFailed original "dns" (diagnostic error))) in
      Ret (Denied (if nxdomain then NXDomain else ServFail)
             (if nxdomain then "upstream reports nxdomain" else "upstream resolution failed"))
  | DeadlineExceeded =>
      do! perform (ORecord (DnsResolutionFailed original "dns" (failure_new BrokerTimeout))) in
      Ret (Denied ServFail "upstream resolution deadline exceeded")
  end end end end end.

Definition encode_error (request : Message N) (code : ResponseCode) : list Z :=
  let response := message_error (m_id request) (m_op_code request) code in
  let response := foldl (λ r q, add_query q r) response (m_queries request) in
  default [] (message_to_vec response).

Definition encode_answer (request : Message N) (query : Query N)
    (answers : list (N * RData N)) (ttl : Z) : list Z :=
  let response := message_response (m_id request) OPCODE_QUERY in
  let response := set_recursion (m_recursion_desired request) true response in
  let response := set_response_code NoError response in
  let response := add_query query response in
  let response := foldl (λ r a, add_answer a.1 ttl a.2 r) response answers in
  default [] (message_to_vec response).

Definition handle_message (request_bytes : list Z) : prog (option (list Z)) :=
  match message_from_vec request_bytes with
  | None =>
      do! perform (ORecord DnsMalformed) in Ret None
  | Some request =>
      if negb (m_is_query request) || negb (m_op_code request =? OPCODE_QUERY)
      then Ret (Some (encode_error request NotImp))
      else match m_queries request with
           | [query] =>
               match record_type_of (q_type query) with
               | Some qtype =>
                   if record_type_allowed (b_guard b) qtype then
                     let! outcome := resolve_and_validate (q_name query) qtype in
                     match outcome with
                     | Answered answers ttl answer_count qtype =>
                         do! perform (ORecord (DnsAllowed (name_to_utf8 (q_name query)) qtype
                                                 answer_count ttl)) in
                         Ret (Some (encode_answer request query answers ttl))
                     | Denied code reason =>
                         do! perform (ORecord (DnsDenied (name_to_utf8 (q_name query))
                                                 (response_code_name code) reason)) in
                         Ret (Some (encode_error request code))
                     end
                   else
                     do! perform (ORecord (DnsUnsupportedQtype (name_to_utf8 (q_name query))
                                             (record_type_name (q_type query)))) in
                     Ret (Some (encode_error request NotImp))
               | None =>
                   do! perform (ORecord (DnsUnsupportedQtype (name_to_utf8 (q_name query))
                                           (record_type_name (q_type query)))) in
                   Ret (Some (encode_error request NotImp))
               end
           | _ => Ret (Some (encode_error request FormErr))
           end
  end.

(** The task [run_udp] spawns for one datagram of at most the configured size. *)
Definition udp_task (max_udp_message_bytes : Z) (datagram : list Z) : prog unit :=
  if max_udp_message_bytes <? Z.of_nat (length datagram) then Ret tt
  else
    let! response := handle_message datagram in
    match response with
    | Some response => do! perform (OWrite response) in Ret tt
    | None => Ret tt
    end.

(** [handle_tcp_connection], on the bytes the client sends before a deadline. *)
Definition handle_tcp_connection (max_tcp_message_bytes : Z) (client : list Z) : prog unit :=
  match read_exact 2 client with
  | None => Ret tt
  | Some (len_buf, client) =>
      let message_len := be_value len_buf in
      if (message_len =? 0) || (max_tcp_message_bytes <? message_len) then Ret tt
      else match read_exact (Z.to_nat message_len) client with
           | None => Ret tt
           | Some (message_buf, _) =>
               let! response := handle_message message_buf in
               match response with
               | Some response =>
                   let len := be_bytes 2 (Z.min (Z.of_nat (length response)) u16_max) in
                   let! sent := perform (OWrite len) in
                   if sent then do! perform (OWrite response) in Ret tt else Ret tt
               | None => Ret tt
               end
           end
  end.

(** ** Specification *)

(** Every name of the chain is allowed. *)
Definition hops_allowed (policy : PolicySnapshot ipnet) (resolved : ResolvedChain N) : Prop :=
  Forall (λ hop, evaluate_domain_name policy (name_to_utf8 hop) = Ok true)
    (names_to_validate resolved).

(** The address records of an answer. *)
Definition answer_ip (r : RData N) : option ip_addr :=
  match r with RDataA v4 => Some (V4 v4) | RDataAAAA v6 => Some (V6 v6) | RDataCNAME _ => None end.

(** ** Lemmas *)

Lemma validate_hops_None (policy : PolicySnapshot ipnet) (hops : list N) :
  validate_hops policy hops = None ↔
  Forall (λ hop, evaluate_domain_name policy (name_to_utf8 hop) = Ok true) hops.
Proof.
  induction hops as [|hop hops IH]; simpl; [by split|].
  rewrite Forall_cons, <-IH. destruct (evaluate_domain_name policy (name_to_utf8 hop)) as [[]|];
    naive_solver.
Qed.

Lemma validate_hops_denied (policy : PolicySnapshot ipnet) (hops : list N)
    (o : QueryOutcome N) :
  validate_hops policy hops = Some o → ∃ code reason, o = Denied code reason.
Proof.
  induction hops as [|hop hops IH]; simpl; [done|].
  destruct (evaluate_domain_name policy (name_to_utf8 hop)) as [[]|]; naive_solver.
Qed.

Lemma min_ttl_le (l : list ResolvedAddress) (a : ResolvedAddress) :
  a ∈ l → min_ttl l ≤ ra_ttl_secs a.
Proof.
  destruct l as [|x l]; [set_solver|]. simpl. intros [->|Ha]%elem_of_cons.
  - induction l as [|y l IH]; simpl; lia.
  - induction l as [|y l IH]; simpl; [set_solver|].
    apply elem_of_cons in Ha as [->|Ha]; [lia|]. specialize (IH Ha). lia.
Qed.

(** What an answer holds, for the policy view and the chain it was made from. *)
Definition answer_ok (name : N) (qtype : DnsRecordType) (o : QueryOutcome N) : Prop :=
  match o with
  | Denied _ _ => True
  | Answered answers ttl count _ =>
      ∃ policy chain l,
        answers = build_answers name chain l ∧
        hops_allowed policy chain ∧
        Forall (λ a, address_ok policy (ra_ip a) ∧ canonicalize (ra_ip a) = ra_ip a ∧
                     is_ipv4 (ra_ip a) = bool_decide (qtype = A) ∧
                     ttl ≤ ra_ttl_secs a) l ∧
        (∃ original, normalize_domain (name_to_utf8 name) = Ok original ∧
                     evaluate_domain_name policy original = Ok true) ∧
        ttl ≤ max_ttl_secs (e_dns (b_policy b)) ∧
        count = Z.of_nat (length l) ∧
        count ≤ Z.max 0 (g_max_response_records (b_guard b))
  end.

Lemma matching_ok (policy : PolicySnapshot ipnet) (qtype : DnsRecordType)
    (l l' : list ResolvedAddress) :
  forallb (λ a, allowed (address_permitted policy (ra_ip a))) (matching_addresses qtype l) = true →
  (∀ a, a ∈ l' → a ∈ matching_addresses qtype l) →
  Forall (λ a, address_ok policy (ra_ip a) ∧ canonicalize (ra_ip a) = ra_ip a ∧
               is_ipv4 (ra_ip a) = bool_decide (qtype = A) ∧
               cap_ttl (b_policy b) (min_ttl l') ≤ ra_ttl_secs a) l'.
Proof.
  intros Hp Hsub. apply Forall_forall. intros a Ha.
  assert (a ∈ matching_addresses qtype l) as Hm by auto.
  pose proof Hm as Hm'. apply list_elem_of_filter in Hm' as [Hfam Hin].
  apply list_elem_of_fmap in Hin as (a0 & -> & _).
  rewrite forallb_forall in Hp. specialize (Hp _ (proj1 (list_elem_of_In _ _) Hm)).
  split_and!.
  - by apply address_permitted_spec.
  - apply canonicalize_canonicalize.
  - done.
  - pose proof (min_ttl_le l' _ Ha). unfold cap_ttl. lia.
Qed.

(** ** Properties *)


End DnsBroker.
