(* ===== verification/Forwarding.v ===== *)
(** * The forwarding resolver ([crates/sendbox-egress/src/forwarding_resolver.rs])

    A name is asked for over UDP, once more at half the time, and over TCP when the answer is
    truncated or late, always from one fixed upstream.  The sockets are scripts of replies, and
    the wire format of [hickory_proto] is [ResponseApi].

    The theorem states what the brokers rely on when they check the names of a resolution
    against the policy: whatever the network replies, every address that is returned belongs to
    a response of the upstream to this very question, and every name on the path of aliases from
    the question to its owner is among the names that are reported. *)

From S2P Require Import Prelude RustStr Net NetPolicy DnsBudget Resolver Egress DnsBroker.

(** ** Messages *)

Definition MAX_CNAME_DEPTH : nat := 16.
Definition MAX_ADDRESS_RECORDS : nat := 64.
Definition MAX_UDP_RESPONSE_BYTES : nat := 4096.
Definition MAX_TCP_RESPONSE_BYTES : Z := 65535.

#[global] Instance RecordType_eq_dec : EqDecision RecordType.
Proof. solve_decision. Defined.

(** [None] is data of a type the resolver does not read. *)
Record AnswerRecord (N : Type) : Type := {
  an_name : N;
  an_type : RecordType;
  an_ttl : Z;
  an_data : option (RData N);
}.

Record Response (N : Type) : Type := {
  rs_id : Z;
  rs_is_response : bool;
  rs_truncation : bool;
  rs_response_code : Z;
  rs_queries : list (N * RecordType);
  rs_answers : list (AnswerRecord N);
}.

Arguments an_name {N}.
Arguments an_type {N}.
Arguments an_ttl {N}.
Arguments an_data {N}.
Arguments rs_id {N}.
Arguments rs_is_response {N}.
Arguments rs_truncation {N}.
Arguments rs_response_code {N}.
Arguments rs_queries {N}.
Arguments rs_answers {N}.

(** [u16::from(ResponseCode)] *)
Definition CODE_NO_ERROR : Z := 0.
Definition CODE_NX_DOMAIN : Z := 3.

Class ResponseApi (N : Type) : Type := {
  (** [Name::to_ascii] *)
  name_to_ascii : N → list Z;
  (** [Message::to_vec] of a query with recursion desired, and the text of its error *)
  encode_query : Z → N → RecordType → result string (list Z);
  (** [Message::from_vec] *)
  decode_response : list Z → option (Response N);
}.

#[local] Notation SocketAddr := (ip_addr * Z)%type.

Record ForwardingResolverConfig : Type := {
  fr_upstream : SocketAddr;
  fr_query_timeout : Z;
  fr_socket_mark : option Z;
}.

(** [ForwardingResolverConfig::new] and [with_socket_mark] *)
Definition new_config (upstream : SocketAddr) : ForwardingResolverConfig :=
  {| fr_upstream := upstream; fr_query_timeout := from_secs 3; fr_socket_mark := None |}.
Definition with_socket_mark (config : ForwardingResolverConfig) (mark : Z)
  : ForwardingResolverConfig :=
  {| fr_upstream := fr_upstream config; fr_query_timeout := fr_query_timeout config;
     fr_socket_mark := Some mark |}.

(** [next_id]: the identifier and the counter after it *)
Definition next_id (counter : Z) : Z * Z := (counter, (counter + 1) mod 65536).

Definition record_type_for (qtype : DnsRecordType) : RecordType :=
  match qtype with A => RT_A | Aaaa => RT_AAAA end.

(** ** Sockets *)

(** How an operation ends before its deadline, or that it does not. *)
Inductive IoReply (T : Type) : Type :=
| IoDone (value : T)
| IoFails (error : io_error)
| IoExpires.

Arguments IoDone {T} value.
Arguments IoFails {T} error.
Arguments IoExpires {T}.

(** The attempts are numbered. *)
Record UdpScript : Type := {
  udp_bind : IoReply unit;
  udp_connect : IoReply unit;
  udp_past_deadline : nat → bool;
  udp_send : nat → IoReply unit;
  udp_receive : nat → IoReply (list Z * SocketAddr);
}.

Record TcpScript : Type := {
  tcp_connect : IoReply unit;
  tcp_send : IoReply unit;
  tcp_length : IoReply (Z * Z);
  tcp_body : nat → IoReply (list Z);
}.

(** Which future of [exchange] is ready first: UDP in the first half of the time, UDP or TCP in
    the second. *)
Inductive Race : Type := UdpEarly | UdpFirst | TcpFirst.

Record QueryScript : Type := {
  qs_udp : UdpScript;
  qs_tcp : TcpScript;
  qs_race : Race;
}.

Inductive SingleResult (N : Type) : Type :=
| SingleNxDomain
| SingleAnswer (cname_chain : list N) (final_name : N) (addresses : list ResolvedAddress).

Arguments SingleNxDomain {N}.
Arguments SingleAnswer {N} cname_chain final_name addresses.

Section Forwarding.
Context {N : Type} {names : NameApi N} {wire : ResponseApi N}.

#[local] Notation E := (ResolveError N).

(** [bounded_io] *)
Definition bounded_io {T : Type} (transport : DnsTransport) (operation : DnsOperation)
    (reply : IoReply T) : result E T :=
  match reply with
  | IoDone value => Ok value
  | IoFails error => Err (Transport transport operation error)
  | IoExpires => Err (ExchangeTimeout transport operation)
  end.

(** The loop of [exchange_udp] over the attempts *)
Fixpoint udp_attempts (upstream : SocketAddr) (script : UdpScript) (attempts : list nat)
  : result E (Response N) :=
  let timeout := Err (ExchangeTimeout TransportUdp OpReceive) in
  match attempts with
  | [] => timeout
  | attempt :: attempts =>
      if udp_past_deadline script attempt then timeout
      else
        let? _sent := bounded_io TransportUdp OpSend (udp_send script attempt) in
        match udp_receive script attempt with
        | IoExpires =>
            if (attempt =? 0)%nat then udp_attempts upstream script attempts
            else timeout
        | received =>
            let? ' (bytes, from) := bounded_io TransportUdp OpReceive received in
            if negb (bool_decide (from = upstream))
            then Err (ResolveInvalidResponse "udp_source_mismatch")
            else ok_or (decode_response (take MAX_UDP_RESPONSE_BYTES bytes))
                   (ResolveInvalidResponse "udp_decode")
        end
  end.

(** [exchange_udp] *)
Definition exchange_udp (upstream : SocketAddr) (script : UdpScript) : result E (Response N) :=
  let? _bound := bounded_io TransportUdp OpBind (udp_bind script) in
  let? _connected := bounded_io TransportUdp OpConnect (udp_connect script) in
  udp_attempts upstream script [0; 1]%nat.

(** [exchange_tcp] *)
Definition exchange_tcp (query_bytes : list Z) (script : TcpScript) : result E (Response N) :=
  let? _connected := bounded_io TransportTcp OpConnect (tcp_connect script) in
  if u16_max <? Z.of_nat (length query_bytes)
  then Err (UpstreamError "query too large for tcp")
  else
    let? _sent := bounded_io TransportTcp OpSend (tcp_send script) in
    let? ' (high, low) := bounded_io TransportTcp ReadLength (tcp_length script) in
    let response_len := high * 256 + low in
    if (response_len =? 0) || (MAX_TCP_RESPONSE_BYTES <? response_len)
    then Err (ResolveInvalidResponse "tcp_response_length")
    else
      let? body := bounded_io TransportTcp ReadBody (tcp_body script (Z.to_nat response_len)) in
      ok_or (decode_response body) (ResolveInvalidResponse "tcp_decode").

(** [names_equal] *)
Definition names_equal (a b : N) : bool :=
  eq_ignore_ascii_case (name_to_ascii a) (name_to_ascii b).

(** [validate_response] *)
Definition validate_response (response : Response N) (id : Z) (name : N) (type : RecordType)
  : result E unit :=
  if negb (rs_id response =? id) then Err (ResolveInvalidResponse "id_mismatch")
  else if negb (rs_is_response response) then Err (ResolveInvalidResponse "not_a_response")
  else if negb (existsb (λ q, bool_decide (q.2 = type) && names_equal q.1 name)
                        (rs_queries response))
  then Err (ResolveInvalidResponse "question_mismatch")
  else Ok tt.

(** [validate_tcp_response] *)
Definition validate_tcp_response (response : Response N) (id : Z) (name : N) (type : RecordType)
  : result E (Response N) :=
  check? validate_response response id name type in
  if rs_truncation response then Err (ResolveInvalidResponse "truncated_tcp") else Ok response.

(** [exchange] *)
Definition exchange (upstream : SocketAddr) (script : QueryScript) (query_bytes : list Z) (id : Z)
    (name : N) (type : RecordType) : result E (Response N) :=
  let udp := exchange_udp upstream (qs_udp script) in
  let tcp := exchange_tcp query_bytes (qs_tcp script) in
  let after_udp (tcp_failure : option E) : result E (Response N) :=
    let? response := udp in
    check? validate_response response id name type in
    if negb (rs_truncation response) then Ok response
    else match tcp_failure with
         | Some error => Err error
         | None => let? response := tcp in validate_tcp_response response id name type
         end in
  match qs_race script with
  | UdpEarly =>
      let? response := udp in
      check? validate_response response id name type in
      if negb (rs_truncation response) then Ok response
      else let? response := tcp in validate_tcp_response response id name type
  | UdpFirst => after_udp None
  | TcpFirst =>
      match tcp with
      | Ok response => validate_tcp_response response id name type
      | Err ((Transport _ _ _ | ExchangeTimeout _ _) as error) => after_udp (Some error)
      | Err error => Err error
      end
  end.

(** The alias of a name in a response, as the closure of [reconstruct] finds it *)
Definition alias_of (answers : list (AnswerRecord N)) (current : N) : option N :=
  head (omap (λ record,
    if bool_decide (an_type record = RT_CNAME) && names_equal (an_name record) current then
      match an_data record with Some (RDataCNAME target) => Some target | _ => None end
    else None) answers).

(** The loop of [reconstruct] *)
Fixpoint follow_aliases (fuel : nat) (name : N) (answers : list (AnswerRecord N)) (current : N)
    (targets : list N) : result E (list N) :=
  match alias_of answers current with
  | None => Ok targets
  | Some target =>
      if (MAX_CNAME_DEPTH <=? length targets)%nat
      then Err (ResolveInvalidResponse "cname_chain_too_long")
      else if names_equal target name || existsb (λ t, names_equal t target) targets
      then Err (ResolveInvalidResponse "cname_loop")
      else match fuel with
           | O => Err (ResolveInvalidResponse "cname_chain_too_long")
           | S fuel => follow_aliases fuel name answers target (targets ++ [target])
           end
  end.

(** The address of a record of the type that is asked for *)
Definition address_of (type : RecordType) (owner : N) (record : AnswerRecord N)
  : option ResolvedAddress :=
  if negb (bool_decide (an_type record = type)) || negb (names_equal (an_name record) owner)
  then None
  else match an_data record with
       | Some (RDataA v4) => Some {| ra_ip := V4 v4; ra_ttl_secs := an_ttl record |}
       | Some (RDataAAAA v6) => Some {| ra_ip := V6 v6; ra_ttl_secs := an_ttl record |}
       | _ => None
       end.

(** The loop that collects the addresses *)
Fixpoint collect_addresses (type : RecordType) (owner : N) (answers : list (AnswerRecord N))
    (found : list ResolvedAddress) : list ResolvedAddress :=
  match answers with
  | [] => found
  | record :: answers =>
      match address_of type owner record with
      | None => collect_addresses type owner answers found
      | Some address =>
          let found := found ++ [address] in
          if (MAX_ADDRESS_RECORDS <=? length found)%nat then found
          else collect_addresses type owner answers found
      end
  end.

(** [reconstruct] *)
Definition reconstruct (name : N) (type : RecordType) (response : Response N)
  : result E (SingleResult N) :=
  let? targets := follow_aliases (S MAX_CNAME_DEPTH) name (rs_answers response) name [] in
  let final := default name (last targets) in
  Ok (SingleAnswer (take (length targets - 1) targets) final
        (collect_addresses type final (rs_answers response) [])).

(** [query_type] *)
Definition query_type (config : ForwardingResolverConfig) (script : QueryScript) (id : Z) (name : N)
    (qtype : DnsRecordType) : result E (SingleResult N) :=
  let type := record_type_for qtype in
  map_err (QueryError (fr_upstream config) qtype)
    (let? query_bytes := map_err UpstreamError (encode_query id name type) in
     let? response := exchange (fr_upstream config) script query_bytes id name type in
     if rs_response_code response =? CODE_NO_ERROR then reconstruct name type response
     else if rs_response_code response =? CODE_NX_DOMAIN then Ok SingleNxDomain
     else Err (ResponseCodeError (rs_response_code response))).

(** [chains_agree] *)
Definition chains_agree (a_chain : list N) (a_final : N) (q_chain : list N) (q_final : N) : bool :=
  names_equal a_final q_final && (length a_chain =? length q_chain)%nat &&
  forallb (λ '(x, y), names_equal x y) (zip a_chain q_chain).

(** [ForwardingResolver::resolve]; the two identifiers are what the counter gave. *)
Definition resolve (config : ForwardingResolverConfig) (a_script q_script : QueryScript)
    (a_id q_id : Z) (name : N) : result E (ResolvedChain N) :=
  let? a := query_type config a_script a_id name A in
  let? aaaa := query_type config q_script q_id name Aaaa in
  let? ' (chain, final, addresses) :=
    match a, aaaa with
    | SingleNxDomain, SingleNxDomain => Err (NxDomain name)
    | SingleAnswer a_chain a_final a_addr, SingleAnswer q_chain q_final q_addr =>
        if negb (chains_agree a_chain a_final q_chain q_final)
        then Err (ResolveInvalidResponse "cname_chain_conflict")
        else Ok (a_chain, a_final, a_addr ++ q_addr)
    | SingleAnswer chain final addresses, SingleNxDomain
    | SingleNxDomain, SingleAnswer chain final addresses => Ok (chain, final, addresses)
    end in
  Ok {| cname_chain := chain; final_name := final;
        addresses := take MAX_ADDRESS_RECORDS addresses |}.

(** ** Specification *)

(** An alias of an answer section. *)
Definition aliases (answers : list (AnswerRecord N)) (x y : N) : Prop :=
  ∃ record, record ∈ answers ∧ an_type record = RT_CNAME ∧
    names_equal (an_name record) x = true ∧ an_data record = Some (RDataCNAME y).

Inductive path (answers : list (AnswerRecord N)) : N → list N → Prop :=
| path_nil (x : N) : path answers x []
| path_cons (x y : N) (l : list N) : aliases answers x y → path answers y l → path answers x (y :: l).

(** No two names of a list are one name. *)
Definition distinct_names (l : list N) : Prop :=
  ∀ i j x y, l !! i = Some x → l !! j = Some y → names_equal x y = true → i = j.

(** The upstream sent a response. *)
Definition delivered (upstream : SocketAddr) (script : QueryScript) (response : Response N) : Prop :=
  (∃ attempt bytes, udp_receive (qs_udp script) attempt = IoDone (bytes, upstream) ∧
     decode_response (take MAX_UDP_RESPONSE_BYTES bytes) = Some response) ∨
  (∃ n body, tcp_body (qs_tcp script) n = IoDone body ∧ decode_response body = Some response).

(** It answers a question, in full. *)
Record answers_query (response : Response N) (id : Z) (name : N) (type : RecordType) : Prop := {
  aq_id : rs_id response = id;
  aq_response : rs_is_response response = true;
  aq_question : ∃ q, (q, type) ∈ rs_queries response ∧ names_equal q name = true;
  aq_full : rs_truncation response = false;
}.

(** ** Lemmas *)

Lemma names_equal_true (x y : N) :
  names_equal x y = true ↔
  to_ascii_lowercase (name_to_ascii x) = to_ascii_lowercase (name_to_ascii y).
Proof. unfold names_equal, eq_ignore_ascii_case. apply bool_decide_eq_true. Qed.

Lemma path_snoc (answers : list (AnswerRecord N)) (x y : N) (l : list N) :
  path answers x l → aliases answers (default x (last l)) y → path answers x (l ++ [y]).
Proof.
  induction 1 as [x|x z l Ha Hp IH]; intros Hy; cbn [app].
  { eapply path_cons; [exact Hy|constructor]. }
  eapply path_cons; [done|]. apply IH. rewrite last_cons in Hy. by destruct (last l).
Qed.

Lemma alias_of_Some (answers : list (AnswerRecord N)) (current target : N) :
  alias_of answers current = Some target → aliases answers current target.
Proof.
  unfold alias_of. intros Hh. assert (target ∈ omap (λ record : AnswerRecord N,
    if bool_decide (an_type record = RT_CNAME) && names_equal (an_name record) current then
      match an_data record with Some (RDataCNAME target) => Some target | _ => None end
    else None) answers) as Hin.
  { destruct (omap _ answers); [done|]. injection Hh as ->. by constructor. }
  apply list_elem_of_omap in Hin as (record & Hr & Hd).
  destruct (bool_decide _ && _) eqn:Hc; [|done]. bool_to_prop.
  destruct (an_data record) as [[| |t]|] eqn:Hdata; try done. injection Hd as ->.
  by exists record.
Qed.

(** What the loop has found. *)
Record followed (answers : list (AnswerRecord N)) (name : N) (targets : list N) : Prop := {
  fo_path : path answers name targets;
  fo_length : (length targets ≤ MAX_CNAME_DEPTH)%nat;
  fo_distinct : distinct_names (name :: targets);
}.

Lemma distinct_snoc (l : list N) (y : N) :
  distinct_names l → (∀ x, x ∈ l → names_equal x y = false) → distinct_names (l ++ [y]).
Proof.
  intros Hd Hy i j u v Hi Hj He.
  apply lookup_app_Some in Hi as [Hi|[Hi1 Hi2]], Hj as [Hj|[Hj1 Hj2]].
  - by eapply Hd.
  - apply list_lookup_singleton_Some in Hj2 as [_ <-].
    rewrite (Hy u) in He; [done|by eapply list_elem_of_lookup_2].
  - apply list_lookup_singleton_Some in Hi2 as [_ <-].
    assert (names_equal v y = true) as Hv by (apply names_equal_true; by apply names_equal_true in He).
    rewrite (Hy v) in Hv; [done|by eapply list_elem_of_lookup_2].
  - apply list_lookup_singleton_Some in Hi2 as [? _], Hj2 as [? _]. lia.
Qed.

Lemma follow_aliases_ok (fuel : nat) (name : N) (answers : list (AnswerRecord N))
    (targets targets' : list N) :
  followed answers name targets →
  follow_aliases fuel name answers (default name (last targets)) targets = Ok targets' →
  followed answers name targets' ∧ alias_of answers (default name (last targets')) = None.
Proof.
  revert targets. induction fuel as [|fuel IH]; intros targets Hf; cbn [follow_aliases];
    destruct (alias_of answers (default name (last targets))) as [target|] eqn:Ha;
    try (by intros [= <-]);
    destruct (Nat.leb_spec MAX_CNAME_DEPTH (length targets)); try done;
    destruct (names_equal target name || _) eqn:Hl; try done.
  intros H'. apply (IH (targets ++ [target])); [|by rewrite last_snoc].
  destruct Hf as [H1 H2 H3]. apply orb_false_iff in Hl as [Hn He].
  split; [by apply path_snoc; [|apply alias_of_Some]|rewrite length_app; cbn; lia|].
  rewrite app_comm_cons. apply distinct_snoc; [done|]. intros x [->|Hx]%elem_of_cons.
  - apply not_true_iff_false. apply not_true_iff_false in Hn. rewrite names_equal_true in *. congruence.
  - apply not_true_iff_false. intros Hx'. apply not_true_iff_false in He. apply He.
    apply existsb_exists. exists x. split; [by apply list_elem_of_In|done].
Qed.

(** The loop ends within the depth. *)
Lemma follow_aliases_fuel (fuel1 fuel2 : nat) (name : N) (answers : list (AnswerRecord N))
    (current : N) (targets : list N) :
  (MAX_CNAME_DEPTH ≤ fuel1 + length targets)%nat → (MAX_CNAME_DEPTH ≤ fuel2 + length targets)%nat →
  follow_aliases fuel1 name answers current targets = follow_aliases fuel2 name answers current targets.
Proof.
  revert fuel2 current targets. induction fuel1 as [|fuel1 IH]; intros [|fuel2] current targets H1 H2;
    cbn [follow_aliases]; destruct (alias_of answers current) as [target|]; try done;
    destruct (Nat.leb_spec MAX_CNAME_DEPTH (length targets)); try done; try lia.
  destruct (_ || _); [done|]. apply IH; rewrite length_app; cbn; lia.
Qed.

Lemma collect_addresses_ok (type : RecordType) (owner : N) (answers : list (AnswerRecord N))
    (found : list ResolvedAddress) :
  (length found < MAX_ADDRESS_RECORDS)%nat →
  collect_addresses type owner answers found =
  take MAX_ADDRESS_RECORDS (found ++ omap (address_of type owner) answers).
Proof.
  revert found. induction answers as [|record answers IH]; intros found Hf;
    cbn [collect_addresses omap list_omap].
  { rewrite app_nil_r, take_ge; [done|lia]. }
  destruct (address_of type owner record) as [address|]; [|by apply IH].
  destruct (Nat.leb_spec MAX_ADDRESS_RECORDS (length (found ++ [address]))) as [Hl|Hl].
  - rewrite (cons_middle address found (omap _ _)), (app_assoc found [address]).
    rewrite take_app_le by done. rewrite take_ge; [done|]. rewrite length_app in *.
    cbn [length] in *. lia.
  - rewrite IH by done. by rewrite <-app_assoc.
Qed.

Lemma validate_response_ok (response : Response N) (id : Z) (name : N) (type : RecordType) :
  validate_response response id name type = Ok tt → rs_truncation response = false →
  answers_query response id name type.
Proof.
  unfold validate_response. intros Hv Ht.
  destruct (Z.eqb_spec (rs_id response) id); [|done]. cbn [negb] in Hv.
  destruct (rs_is_response response) eqn:?; [|done]. cbn [negb] in Hv.
  destruct (existsb _ _) eqn:He; [|done]. apply existsb_exists in He as ([q t] & Hin & Hq).
  cbn [fst snd] in Hq. bool_to_prop. subst t. split; try done. exists q.
  split; [by apply list_elem_of_In|done].
Qed.

Lemma udp_attempts_delivered (upstream : SocketAddr) (script : QueryScript) (attempts : list nat)
    (response : Response N) :
  udp_attempts upstream (qs_udp script) attempts = Ok response → delivered upstream script response.
Proof.
  induction attempts as [|attempt attempts IH]; cbn [udp_attempts]; [done|].
  destruct (udp_past_deadline _ _); [done|]. destruct (bounded_io _ _ (udp_send _ _)); [|done].
  destruct (udp_receive (qs_udp script) attempt) as [[bytes from]|e|] eqn:Hr; cbn [bounded_io];
    [|done|by destruct (_ =? 0)%nat].
  case_bool_decide as Hf; [|done]. cbn [negb]. subst from.
  destruct (decode_response _) as [r|] eqn:Hd; [|done]. intros [= <-]. left.
  by exists attempt, bytes.
Qed.

Lemma exchange_udp_delivered (upstream : SocketAddr) (script : QueryScript) (response : Response N) :
  exchange_udp upstream (qs_udp script) = Ok response → delivered upstream script response.
Proof.
  unfold exchange_udp. destruct (bounded_io _ _ (udp_bind _)); [|done].
  destruct (bounded_io _ _ (udp_connect _)); [|done]. apply udp_attempts_delivered.
Qed.

Lemma exchange_tcp_delivered (upstream : SocketAddr) (script : QueryScript) (bytes : list Z)
    (response : Response N) :
  exchange_tcp bytes (qs_tcp script) = Ok response → delivered upstream script response.
Proof.
  unfold exchange_tcp. destruct (bounded_io _ _ (tcp_connect _)); [|done].
  destruct (_ <? _); [done|]. destruct (bounded_io _ _ (tcp_send _)); [|done].
  destruct (bounded_io _ _ (tcp_length _)) as [[high low]|]; [|done].
  destruct (_ || _); [done|]. destruct (tcp_body _ _) as [body| |] eqn:Hb; try done.
  cbn [bounded_io]. destruct (decode_response body) as [r|] eqn:Hd; [|done]. intros [= <-]. right.
  by eexists _, body.
Qed.

Lemma exchange_ok (upstream : SocketAddr) (script : QueryScript) (bytes : list Z) (id : Z) (name : N)
    (type : RecordType) (response : Response N) :
  exchange upstream script bytes id name type = Ok response →
  delivered upstream script response ∧ answers_query response id name type.
Proof.
  assert (∀ r, validate_tcp_response r id name type = Ok response →
    delivered upstream script r → delivered upstream script response ∧
    answers_query response id name type) as Hv.
  { intros r. unfold validate_tcp_response.
    destruct (validate_response r id name type) as [[]|] eqn:Hr; [|done].
    destruct (rs_truncation r) eqn:Ht; [done|]. intros [= <-] Hd. split; [done|].
    by apply validate_response_ok. }
  assert (∀ k : result (ResolveError N) (Response N),
    (k = Ok response → delivered upstream script response ∧ answers_query response id name type) →
    (let? r := exchange_udp upstream (qs_udp script) in
     check? validate_response r id name type in
     if negb (rs_truncation r) then Ok r else k) = Ok response →
    delivered upstream script response ∧ answers_query response id name type) as Hu.
  { intros k Hk. destruct (exchange_udp _ _) as [r|] eqn:Hr; [|done].
    apply exchange_udp_delivered in Hr. destruct (validate_response _ _ _ _) as [[]|] eqn:Hx; [|done].
    destruct (rs_truncation r) eqn:Ht; [done|]. intros [= <-]. split; [done|].
    by apply validate_response_ok. }
  assert ((let? r := exchange_tcp bytes (qs_tcp script) in validate_tcp_response r id name type) =
    Ok response → delivered upstream script response ∧ answers_query response id name type) as Ht.
  { destruct (exchange_tcp _ _) as [r|] eqn:Hr; [|done]. intros H. apply (Hv r H).
    by eapply exchange_tcp_delivered. }
  unfold exchange. destruct (qs_race script); [by apply Hu..|].
  destruct (exchange_tcp _ _) as [r|e] eqn:Hr.
  - intros H. apply (Hv r H). by eapply exchange_tcp_delivered.
  - destruct e; try done; by apply Hu.
Qed.

(** An address, the response it is from and the path to its owner. *)
Definition accounted (upstream : SocketAddr) (script : QueryScript) (id : Z) (name : N)
    (qtype : DnsRecordType) (response : Response N) (targets : list N) (address : ResolvedAddress)
  : Prop :=
  delivered upstream script response ∧ answers_query response id name (record_type_for qtype) ∧
  rs_response_code response = CODE_NO_ERROR ∧ followed (rs_answers response) name targets ∧
  ∃ record, record ∈ rs_answers response ∧
    address_of (record_type_for qtype) (default name (last targets)) record = Some address.

Lemma targets_split (name : N) (targets : list N) (x : N) :
  x ∈ targets → x ∈ take (length targets - 1) targets ++ [default name (last targets)].
Proof.
  destruct targets as [|y l _] using rev_ind; [set_solver|].
  rewrite last_snoc, length_app. cbn [length default]. replace (length l + 1 - 1)%nat with (length l) by lia.
  by rewrite take_app_length.
Qed.

Lemma query_type_ok (config : ForwardingResolverConfig) (script : QueryScript) (id : Z) (name : N)
    (qtype : DnsRecordType) (chain : list N) (final : N) (addresses : list ResolvedAddress) :
  query_type config script id name qtype = Ok (SingleAnswer chain final addresses) →
  ∃ response targets,
    (∀ x, x ∈ targets → x ∈ chain ++ [final]) ∧
    (∀ address, address ∈ addresses →
       accounted (fr_upstream config) script id name qtype response targets address).
Proof.
  unfold query_type. destruct (encode_query _ _ _) as [bytes|]; [|done]. cbn [map_err].
  destruct (exchange _ _ _ _ _ _) as [response|] eqn:He; [|done].
  apply exchange_ok in He as [Hd Hq].
  destruct (Z.eqb_spec (rs_response_code response) CODE_NO_ERROR) as [Hc|];
    [|by destruct (_ =? _)].
  unfold reconstruct. destruct (follow_aliases _ _ _ _ _) as [targets|] eqn:Hf; [|done].
  cbn [map_err]. intros [= <- <- <-]. exists response, targets.
  apply (follow_aliases_ok (S MAX_CNAME_DEPTH) name (rs_answers response) []) in Hf as [Hf _];
    [|split; [constructor|cbn; lia|intros [|[|?]] [|[|?]] x y; naive_solver]].
  split; [intros x; apply targets_split|]. intros address Ha. unfold accounted. split_and!; try done.
  rewrite collect_addresses_ok in Ha by (unfold MAX_ADDRESS_RECORDS; cbn [length]; lia).
  apply take_elem, list_elem_of_omap in Ha as (record & Hr & Hx). by exists record.
Qed.

Lemma chains_agree_elem (a_chain q_chain : list N) (a_final q_final x : N) :
  chains_agree a_chain a_final q_chain q_final = true → x ∈ q_chain ++ [q_final] →
  ∃ n, n ∈ a_chain ++ [a_final] ∧ names_equal x n = true.
Proof.
  unfold chains_agree. intros Hc Hx. apply andb_true_iff in Hc as [Hc Hz].
  apply andb_true_iff in Hc as [Hf Hl]. apply Nat.eqb_eq in Hl.
  apply elem_of_app in Hx as [Hx|Hx].
  - apply list_elem_of_lookup in Hx as [i Hi].
    destruct (lookup_lt_is_Some_2 a_chain i) as [n Hn];
      [rewrite Hl; by eapply lookup_lt_Some|].
    exists n. split; [apply elem_of_app; left; by eapply list_elem_of_lookup_2|].
    rewrite forallb_forall in Hz. specialize (Hz (n, x)). cbn in Hz. apply names_equal_true.
    symmetry. apply names_equal_true, Hz, list_elem_of_In, (list_elem_of_lookup_2 _ i).
    apply lookup_zip_with_Some. by exists n, x.
  - apply list_elem_of_singleton in Hx as ->. exists a_final. split; [set_solver|].
    apply names_equal_true. symmetry. by apply names_equal_true.
Qed.

(** C15: Every address of a resolution is in a full response of the upstream to the question that was
    asked, at the end of a path of aliases from the name that has no loop and at most sixteen
    steps, and every name on that path is one of those the resolution reports; there are at most
    64 of them.  This holds for all replies of the network. *)
Theorem resolution_is_reported (config : ForwardingResolverConfig) (a_script q_script : QueryScript)
    (a_id q_id : Z) (name : N) (chain : ResolvedChain N) :
  resolve config a_script q_script a_id q_id name = Ok chain →
  (length (addresses chain) ≤ MAX_ADDRESS_RECORDS)%nat ∧
  ∀ address, address ∈ addresses chain → ∃ response targets,
    (accounted (fr_upstream config) a_script a_id name A response targets address ∨
     accounted (fr_upstream config) q_script q_id name Aaaa response targets address) ∧
    ∀ hop, hop ∈ targets → ∃ n, n ∈ names_to_validate chain ∧ names_equal hop n = true.
Proof.
  unfold resolve, names_to_validate.
  destruct (query_type config a_script a_id name A) as [a|] eqn:Ha; [|done].
  destruct (query_type config q_script q_id name Aaaa) as [q|] eqn:Hq; [|done].
  assert (∀ x : N, names_equal x x = true) as Hr by (intros; by apply names_equal_true).
  destruct a as [|a_chain a_final a_addr], q as [|q_chain q_final q_addr]; [done|..].
  - intros [= <-]. cbn [addresses cname_chain final_name]. split; [rewrite length_take; lia|].
    apply query_type_ok in Hq as (response & targets & Ht & Hx). intros address Hin%take_elem.
    exists response, targets. split; [right; auto|]. intros hop Hh. exists hop. auto.
  - intros [= <-]. cbn [addresses cname_chain final_name]. split; [rewrite length_take; lia|].
    apply query_type_ok in Ha as (response & targets & Ht & Hx). intros address Hin%take_elem.
    exists response, targets. split; [left; auto|]. intros hop Hh. exists hop. auto.
  - destruct (chains_agree _ _ _ _) eqn:Hc; [|done]. cbn [negb]. intros [= <-].
    cbn [addresses cname_chain final_name]. split; [rewrite length_take; lia|].
    intros address [Hin|Hin]%take_elem%elem_of_app.
    + apply query_type_ok in Ha as (response & targets & Ht & Hx). exists response, targets.
      split; [left; auto|]. intros hop Hh. exists hop. auto.
    + apply query_type_ok in Hq as (response & targets & Ht & Hx). exists response, targets.
      split; [right; auto|]. intros hop Hh. by apply (chains_agree_elem _ _ _ _ _ Hc), Ht.
Qed.

End Forwarding.

(** ** A resolution *)

Module ForwardingSample.

(** Names as texts; a message is read as one response. *)
Definition record (name : string) (type : RecordType) (data : RData (list Z)) : AnswerRecord (list Z) :=
  {| an_name := str name; an_type := type; an_ttl := 60; an_data := Some data |}.

Definition answer (id : Z) (type : RecordType) (answers : list (AnswerRecord (list Z)))
  : Response (list Z) :=
  {| rs_id := id; rs_is_response := true; rs_truncation := false;
     rs_response_code := CODE_NO_ERROR; rs_queries := [(str "A.example", type)];
     rs_answers := answers |}.

#[local] Instance sample_wire : ResponseApi (list Z) := {|
  name_to_ascii name := name;
  encode_query _ _ _ := Ok [];
  decode_response bytes :=
    if decide (bytes = [4]) then
      Some (answer 7 RT_A [record "a.example" RT_CNAME (RDataCNAME (str "b.example"));
                           record "B.example" RT_A (RDataA 16909060)])
    else if decide (bytes = [6]) then
      Some (answer 8 RT_AAAA [record "a.example" RT_CNAME (RDataCNAME (str "B.EXAMPLE"))])
    else None;
|}.

Definition upstream : ip_addr * Z := (V4 3221225525, 53).

(** The first datagram is lost, the second is answered. *)
Definition script (bytes : list Z) : QueryScript :=
  {| qs_udp := {| udp_bind := IoDone tt; udp_connect := IoDone tt; udp_past_deadline _ := false;
                  udp_send _ := IoDone tt;
                  udp_receive attempt :=
                    if (attempt =? 0)%nat then IoExpires else IoDone (bytes, upstream) |};
     qs_tcp := {| tcp_connect := IoExpires; tcp_send := IoExpires; tcp_length := IoExpires;
                  tcp_body _ := IoExpires |};
     qs_race := TcpFirst |}.

Definition resolved : ResolvedChain (list Z) :=
  {| cname_chain := []; final_name := str "b.example";
     addresses := [{| ra_ip := V4 16909060; ra_ttl_secs := 60 |}] |}.

Lemma resolved_ok :
  resolve (new_config upstream) (script [4]) (script [6]) 7 8 (str "a.example") = Ok resolved.
Proof. vm_compute. reflexivity. Qed.

Lemma resolution_is_reported_witness :
  ∃ response targets, followed (rs_answers response) (str "a.example") targets ∧
    ∀ hop, hop ∈ targets → ∃ n, n ∈ names_to_validate resolved ∧ names_equal hop n = true.
Proof.
  destruct (resolution_is_reported (new_config upstream) (script [4]) (script [6]) 7 8
    (str "a.example") resolved resolved_ok) as [_ H].
  destruct (H {| ra_ip := V4 16909060; ra_ttl_secs := 60 |}) as (response & targets & Ha & Hn);
    [left|].
  exists response, targets. split; [|exact Hn].
  destruct Ha as [Ha|Ha]; exact (proj1 (proj2 (proj2 (proj2 Ha)))).
Defined.

End ForwardingSample.
