(* ===== verification/HttpProxy.v ===== *)
(** * The HTTP front end ([crates/sendbox-egress/src/http_proxy.rs])

    The reader of CONNECT and forward-proxy requests.  The parsers of the
    [httparse] and [http] crates are parameters ([HttpApi]).  The main theorem
    states what an accepted request guarantees about routing and framing, which
    is what keeps the upstream's reading of the request equal to the proxy's. *)

From S2P Require Import Prelude RustStr Net Address Domain ConnectProto Resolver.

(** ** Definitions *)

Definition MAX_HEADER_BYTES : nat := 16 * 1024.
Definition MAX_HEADERS : nat := 64.

(** What [httparse::Request::parse] reports of a head. *)
Record parsed_head : Type := {
  ph_complete : option nat;            (** [Status::Complete(n)] *)
  ph_version : option Z;
  ph_method : option (list Z);
  ph_path : option (list Z);
  ph_headers : list (list Z * list Z);
}.

Record uri_parts : Type := {
  uri_scheme : option (list Z);
  uri_authority : option (list Z);
  uri_path_and_query : option (list Z);
}.

Class HttpApi : Type := {
  (** [httparse::Request::parse] with room for the given number of headers. *)
  http_parse : nat → list Z → option parsed_head;
  (** [str::parse::<http::Method>], as text. *)
  method_parse : list Z → option (list Z);
  uri_parse : list Z → option uri_parts;
  (** [str::parse::<Authority>]: its [host()] and [port_u16()]. *)
  authority_parse : list Z → option (list Z * option Z);
  (** [str::parse::<HeaderName>], which is lower case. *)
  header_name_parse : list Z → option (list Z);
}.

Inductive http_invalid : Type :=
| HeaderTooLarge
| HandshakeIncomplete
| RequiresCrlf
| InvalidHeader
| NotHttp1
| MethodMissing
| InvalidMethod
| TargetMissing
| InvalidUrl
| NotPlainHttp
| NoAuthority
| DuplicateHost
| InvalidHostHeader
| HostMismatch
| CredentialsUnsupported
| BadContentLength
| BadTransferEncoding
| UpgradeRefused
| InvalidConnectionHeader
| InvalidConnectionField
| ConnectionNominatesFraming
| AmbiguousFraming
| MissingHost
| InvalidAuthority
| InvalidAuthorityPort
| PortRequired
| InvalidHostname.

Record HttpProxyRequest : Type := {
  http_target : ConnectTarget;
  http_port : Z;
  http_prefetched : list Z;
  http_forwarded_head : option (list Z);
}.

(** The literal [b"\r\n\r\n"]. *)
Definition crlf : list Z := [ch_cr; ch_lf].
Definition head_end : list Z := crlf ++ crlf.

(** [bytes.windows(4).position(|window| window == b"\r\n\r\n")]. *)
Fixpoint find_head_end (bytes : list Z) : option nat :=
  if starts_with bytes head_end then Some 0%nat
  else match bytes with [] => None | _ :: r => S <$> find_head_end r end.

(** The read loop; the stream is the list of the chunks its reads return, and a
    read at its end returns no bytes. *)
Fixpoint read_head (chunks : list (list Z)) (bytes : list Z)
  : result http_invalid (nat * list Z) :=
  match find_head_end bytes with
  | Some e =>
      let e := (e + 4)%nat in
      if (MAX_HEADER_BYTES <? e)%nat then Err HeaderTooLarge else Ok (e, bytes)
  | None =>
      if (MAX_HEADER_BYTES <=? length bytes)%nat then Err HeaderTooLarge
      else match chunks with
           | [] => Err HandshakeIncomplete
           | chunk :: r =>
               if (length chunk =? 0)%nat then Err HandshakeIncomplete
               else read_head r (bytes ++ chunk)
           end
  end.

(** A line feed not after a carriage return, or a carriage return not before a
    line feed; [prev] is the byte before. *)
Fixpoint bare_line_end (prev : option Z) (bytes : list Z) : bool :=
  match bytes with
  | [] => false
  | x :: r =>
      ((x =? ch_lf) && negb (bool_decide (prev = Some ch_cr))) ||
      ((x =? ch_cr) && negb (bool_decide (head r = Some ch_lf))) ||
      bare_line_end (Some x) r
  end.

Definition authority_byte_refused (x : Z) : bool :=
  is_ascii_control x || is_ascii_whitespace x ||
  bool_decide (x ∈ [64; 47; 92; 63; 35; 37]).

Section Http.
Context `{Http : HttpApi}.

Definition parse_authority (value : list Z) (default_port : option Z)
  : result http_invalid (ConnectTarget * Z) :=
  if existsb authority_byte_refused value then Err InvalidAuthority
  else
    let? ' (host, port) := ok_or (authority_parse value) InvalidAuthority in
    let explicit_port :=
      if starts_with value [91] then negb (ends_with value [93])
      else contains_byte value ch_colon in
    if explicit_port && bool_decide (port = None) then Err InvalidAuthorityPort
    else
      let? port :=
        match (match port with Some p => Some p | None => default_port end) with
        | Some p => if p =? 0 then Err PortRequired else Ok p
        | None => Err PortRequired
        end in
      let host := trim_end_matches 93 (trim_start_matches 91 host) in
      match parse_ip host with
      | Some address => Ok (Ip (canonicalize address), port)
      | None =>
          let? name := map_err (λ _, InvalidHostname) (normalize_domain host) in
          Ok (Hostname name, port)
      end.

Definition target_port_eqb (x y : ConnectTarget * Z) : bool :=
  match x, y with
  | (Hostname h, p), (Hostname h', p') => bool_decide (h = h') && (p =? p')
  | (Ip i, p), (Ip i', p') => bool_decide (i = i') && (p =? p')
  | _, _ => false
  end.

(** What the header loop has seen so far. *)
Record header_state : Type := {
  host_seen : bool;
  content_length_seen : bool;
  transfer_encoding_seen : bool;
  connection_fields : list (list Z);
}.

Definition header_state_new : header_state :=
  {| host_seen := false; content_length_seen := false; transfer_encoding_seen := false;
     connection_fields := [] |}.

(** [for field in value.split(',').map(str::trim)]. *)
Fixpoint connection_values (fields : list (list Z)) (acc : list (list Z))
  : result http_invalid (list (list Z)) :=
  match fields with
  | [] => Ok acc
  | field :: r =>
      let? field := ok_or (header_name_parse (trim field)) InvalidConnectionField in
      if bool_decide (field ∈ [str "host"; str "content-length"; str "transfer-encoding"])
      then Err ConnectionNominatesFraming
      else connection_values r (acc ++ [field])
  end.

(** The body of the header loop. *)
Definition check_header (tunnel : bool) (target : ConnectTarget) (port : Z)
    (header : list Z * list Z) (s : header_state) : result http_invalid header_state :=
  let '(name, value) := header in
  let header_is (n : string) := eq_ignore_ascii_case name (str n) in
  let? host_seen :=
    if header_is "host"%string then
      if host_seen s then Err DuplicateHost
      else
        let? value := ok_or (from_utf8 value) InvalidHostHeader in
        let? named := parse_authority value (Some (if tunnel then port else 80)) in
        if target_port_eqb named (target, port) then Ok true else Err HostMismatch
    else Ok (host_seen s) in
  if header_is "proxy-authorization"%string then Err CredentialsUnsupported
  else
    let? content_length_seen :=
      if header_is "content-length"%string then
        if content_length_seen s || (length value =? 0)%nat ||
           negb (forallb is_ascii_digit value) ||
           (tunnel && negb (bool_decide (value = str "0")))
        then Err BadContentLength else Ok true
      else Ok (content_length_seen s) in
    let? transfer_encoding_seen :=
      if header_is "transfer-encoding"%string then
        if transfer_encoding_seen s || tunnel ||
           negb (eq_ignore_ascii_case value (str "chunked"))
        then Err BadTransferEncoding else Ok true
      else Ok (transfer_encoding_seen s) in
    if header_is "upgrade"%string then Err UpgradeRefused
    else
      let? connection_fields :=
        if header_is "connection"%string then
          let? value := ok_or (from_utf8 value) InvalidConnectionHeader in
          connection_values (split_on 44 value) (connection_fields s)
        else Ok (connection_fields s) in
      Ok {| host_seen := host_seen; content_length_seen := content_length_seen;
            transfer_encoding_seen := transfer_encoding_seen;
            connection_fields := connection_fields |}.

Fixpoint check_headers (tunnel : bool) (target : ConnectTarget) (port : Z)
    (headers : list (list Z * list Z)) (s : header_state) : result http_invalid header_state :=
  match headers with
  | [] => Ok s
  | h :: r =>
      let? s := check_header tunnel target port h s in check_headers tunnel target port r s
  end.

Definition HOP_BY_HOP : list (list Z) :=
  str <$> ["connection"; "proxy-connection"; "keep-alive"; "proxy-authenticate"; "te"]%string.

Definition dropped_header (connection_fields : list (list Z)) (name : list Z) : bool :=
  existsb (eq_ignore_ascii_case name) HOP_BY_HOP ||
  existsb (eq_ignore_ascii_case name) connection_fields.

Definition forwarded_head (method path : list Z) (headers : list (list Z * list Z))
    (connection_fields : list (list Z)) : list Z :=
  method ++ [ch_space] ++ path ++ str " HTTP/1.1" ++ crlf ++
  flat_map (λ h, if dropped_header connection_fields h.1 then []
                 else h.1 ++ str ": " ++ h.2 ++ crlf) headers ++
  str "Connection: close" ++ head_end.

(** The destination of a request: target, port and, for a forward request, the
    path to send on. *)
Definition request_target (method destination : list Z)
  : result http_invalid (ConnectTarget * Z * option (list Z)) :=
  if bool_decide (method = str "CONNECT") then
    let? ' (target, port) := parse_authority destination None in
    Ok (target, port, None)
  else
    let? uri := ok_or (uri_parse destination) InvalidUrl in
    if negb (bool_decide (uri_scheme uri = Some (str "http"))) || contains_byte destination 35
    then Err NotPlainHttp
    else
      let? authority := ok_or (uri_authority uri) NoAuthority in
      let? ' (target, port) := parse_authority authority (Some 80) in
      Ok (target, port, Some (default [ch_slash] (uri_path_and_query uri))).

(** [read_request] once the head is complete. *)
Definition interpret_head (header_end : nat) (bytes prefetched : list Z)
  : result http_invalid HttpProxyRequest :=
  if bare_line_end None bytes then Err RequiresCrlf
  else
    let? request := ok_or (http_parse MAX_HEADERS bytes) InvalidHeader in
    if negb (bool_decide (ph_complete request = Some header_end)) ||
       negb (bool_decide (ph_version request = Some 0) ||
             bool_decide (ph_version request = Some 1))
    then Err NotHttp1
    else
      let? method := ok_or (ph_method request) MethodMissing in
      let? method := ok_or (method_parse method) InvalidMethod in
      let? destination := ok_or (ph_path request) TargetMissing in
      let tunnel := bool_decide (method = str "CONNECT") in
      let? ' (target, port, path) := request_target method destination in
      let? s := check_headers tunnel target port (ph_headers request) header_state_new in
      if content_length_seen s && transfer_encoding_seen s then Err AmbiguousFraming
      else if negb tunnel && negb (host_seen s) then Err MissingHost
      else Ok {| http_target := target; http_port := port; http_prefetched := prefetched;
                 http_forwarded_head :=
                   (λ path, forwarded_head method path (ph_headers request)
                              (connection_fields s)) <$> path |}.

Definition read_http_request (chunks : list (list Z)) : result http_invalid HttpProxyRequest :=
  let? ' (header_end, bytes) := read_head chunks [] in
  interpret_head header_end (take header_end bytes) (drop header_end bytes).

End Http.

(** The response [write_status] sends. *)
Definition http_status_line (s : ConnectStatus) : string :=
  match s with
  | StatusOk => "HTTP/1.1 200 Connection Established"
  | PolicyDenied | ExpectedIpMismatch => "HTTP/1.1 403 Forbidden"
  | LimitExceeded => "HTTP/1.1 429 Too Many Requests"
  | StatusTimeout => "HTTP/1.1 408 Request Timeout"
  | ResolutionFailed | ConnectFailed => "HTTP/1.1 502 Bad Gateway"
  | StatusMalformed | UnsupportedProtocol => "HTTP/1.1 400 Bad Request"
  end.

Definition http_write_status (s : ConnectStatus) : list Z :=
  str (http_status_line s) ++ crlf ++
  match s with
  | StatusOk => []
  | ResolutionFailed => str "Proxy-Status: sendbox; error=dns_error" ++ crlf ++
                        str "Content-Length: 0" ++ crlf ++ str "Connection: close" ++ crlf
  | _ => str "Content-Length: 0" ++ crlf ++ str "Connection: close" ++ crlf
  end ++ crlf.

(** [write_resolution_failure], with the JSON body given by [serde_json]. *)
Definition http_resolution_header (body : list Z) : list Z :=
  str "HTTP/1.1 502 Bad Gateway" ++ crlf ++
  str "Proxy-Status: sendbox; error=dns_error" ++ crlf ++
  str "Content-Type: application/json" ++ crlf ++
  str "Content-Length: " ++ show_dec (Z.of_nat (length body)) ++ crlf ++
  str "Connection: close" ++ crlf ++ crlf.

(** ** Specification *)

Class HttpLaws `{Http : HttpApi} : Prop := {
  (** A [HeaderName] holds lower-case bytes. *)
  header_name_lower (s f : list Z) :
    header_name_parse s = Some f → to_ascii_lowercase f = f;
}.

Definition named (n : string) (h : list Z * list Z) : bool := eq_ignore_ascii_case h.1 (str n).

Definition count_named (n : string) (hs : list (list Z * list Z)) : nat :=
  length (filter (λ h, named n h = true) hs).

Definition flag (b : bool) : nat := if b then 1 else 0.

(** ** Lemmas *)

Section Lemmas.
Context `{Http : HttpApi}.

Lemma count_named_cons (n : string) (h : list Z * list Z) (hs : list (list Z * list Z)) :
  count_named n (h :: hs) = (flag (named n h) + count_named n hs)%nat.
Proof. unfold count_named. rewrite filter_cons. by destruct (named n h). Qed.

Lemma target_port_eqb_true (x y : ConnectTarget * Z) : target_port_eqb x y = true → x = y.
Proof.
  destruct x as [[h|i] p], y as [[h'|i'] p']; simpl; try done;
    intros [?%bool_decide_eq_true ?%Z.eqb_eq]%andb_true_iff; congruence.
Qed.

Definition FRAMING : list (list Z) := [str "host"; str "content-length"; str "transfer-encoding"].

Lemma connection_values_ok (fields acc acc' : list (list Z)) :
  connection_values fields acc = Ok acc' →
  ∀ f, f ∈ acc' → f ∈ acc ∨ ((f ∉ FRAMING) ∧ ∃ s, header_name_parse s = Some f).
Proof.
  revert acc. induction fields as [|x fields IH]; intros acc; cbn [connection_values].
  { intros [= <-]. auto. }
  destruct (header_name_parse (trim x)) as [f|] eqn:Hf; [|done]. cbn [ok_or].
  case_bool_decide as Hin; [done|]. intros H g Hg.
  destruct (IH _ H g Hg) as [[?| ->%list_elem_of_singleton]%elem_of_app|?]; eauto.
Qed.

(** What one header does to the loop's state. *)
Lemma check_header_ok (tunnel : bool) (target : ConnectTarget) (port : Z)
    (h : list Z * list Z) (s s' : header_state) :
  check_header tunnel target port h s = Ok s' →
  flag (host_seen s') = (flag (named "host" h) + flag (host_seen s))%nat ∧
  flag (content_length_seen s') =
    (flag (named "content-length" h) + flag (content_length_seen s))%nat ∧
  flag (transfer_encoding_seen s') =
    (flag (named "transfer-encoding" h) + flag (transfer_encoding_seen s))%nat ∧
  named "proxy-authorization" h = false ∧ named "upgrade" h = false ∧
  (named "host" h = true →
     parse_authority h.2 (Some (if tunnel then port else 80)) = Ok (target, port)) ∧
  (tunnel = true → named "transfer-encoding" h = false) ∧
  (∀ f, f ∈ connection_fields s' →
     f ∈ connection_fields s ∨ ((f ∉ FRAMING) ∧ ∃ x, header_name_parse x = Some f)).
Proof.
  destruct h as [name value]. unfold check_header, named. cbn [fst snd]. cbv zeta.
  destruct (if eq_ignore_ascii_case name (str "host") then _ else _) as [hs|] eqn:E1; [|done].
  destruct (eq_ignore_ascii_case name (str "proxy-authorization")); [done|].
  destruct (if eq_ignore_ascii_case name (str "content-length") then _ else _)
    as [cl|] eqn:E2; [|done].
  destruct (if eq_ignore_ascii_case name (str "transfer-encoding") then _ else _)
    as [te|] eqn:E3; [|done].
  destruct (eq_ignore_ascii_case name (str "upgrade")); [done|].
  destruct (if eq_ignore_ascii_case name (str "connection") then _ else _)
    as [cf|] eqn:E4; [|done].
  intros [= <-]. cbn [host_seen content_length_seen transfer_encoding_seen connection_fields].
  split_and!; try done.
  - destruct (eq_ignore_ascii_case name (str "host")); [|by simplify_eq].
    destruct (host_seen s); [done|]. destruct (from_utf8 value); [|done]. cbn [ok_or] in E1.
    destruct (parse_authority _ _); [|done]. destruct (target_port_eqb _ _); by simplify_eq.
  - destruct (eq_ignore_ascii_case name (str "content-length")); [|by simplify_eq].
    destruct (content_length_seen s); simpl in E2; [done|]. by destruct_match_in E2; simplify_eq.
  - destruct (eq_ignore_ascii_case name (str "transfer-encoding")); [|by simplify_eq].
    destruct (transfer_encoding_seen s); simpl in E3; [done|]. by destruct_match_in E3; simplify_eq.
  - intros Hh. rewrite Hh in E1. destruct (host_seen s); [done|].
    destruct (from_utf8 value) as [v|] eqn:Ev; [|done]. apply from_utf8_Some in Ev. subst v.
    cbn [ok_or] in E1. destruct (parse_authority _ _) as [x|]; [|done].
    destruct (target_port_eqb x (target, port)) eqn:Et; [|done].
    by rewrite (target_port_eqb_true _ _ Et).
  - intros ->. destruct (eq_ignore_ascii_case name (str "transfer-encoding")); [|done].
    rewrite orb_true_r in E3. done.
  - destruct (eq_ignore_ascii_case name (str "connection")); [|simplify_eq; auto].
    destruct (from_utf8 value); [|done]. cbn [ok_or] in E4. by eapply connection_values_ok.
Qed.

Lemma check_headers_ok (tunnel : bool) (target : ConnectTarget) (port : Z)
    (hs : list (list Z * list Z)) (s s' : header_state) :
  check_headers tunnel target port hs s = Ok s' →
  flag (host_seen s') = (count_named "host" hs + flag (host_seen s))%nat ∧
  flag (content_length_seen s') =
    (count_named "content-length" hs + flag (content_length_seen s))%nat ∧
  flag (transfer_encoding_seen s') =
    (count_named "transfer-encoding" hs + flag (transfer_encoding_seen s))%nat ∧
  count_named "proxy-authorization" hs = 0%nat ∧ count_named "upgrade" hs = 0%nat ∧
  (∀ h, h ∈ hs → named "host" h = true →
     parse_authority h.2 (Some (if tunnel then port else 80)) = Ok (target, port)) ∧
  (tunnel = true → count_named "transfer-encoding" hs = 0%nat) ∧
  (∀ f, f ∈ connection_fields s' →
     f ∈ connection_fields s ∨ ((f ∉ FRAMING) ∧ ∃ x, header_name_parse x = Some f)).
Proof.
  revert s. induction hs as [|h hs IH]; intros s; cbn [check_headers].
  { intros [= <-]. split_and!; try done; [set_solver|auto]. }
  destruct (check_header tunnel target port h s) as [s1|] eqn:E; [|done].
  apply check_header_ok in E as (A1 & A2 & A3 & A4 & A5 & A6 & A7 & A8).
  intros (B1 & B2 & B3 & B4 & B5 & B6 & B7 & B8)%IH. rewrite !count_named_cons.
  split_and!.
  - rewrite B1, A1. lia.
  - rewrite B2, A2. lia.
  - rewrite B3, A3. lia.
  - by rewrite A4, B4.
  - by rewrite A5, B5.
  - intros h' [->|?]%elem_of_cons; auto.
  - intros Ht. by rewrite A7, B7.
  - intros f Hf. destruct (B8 f Hf) as [?|?]; auto.
Qed.

Lemma lower_eq (x y : list Z) :
  eq_ignore_ascii_case x y = true ↔ to_ascii_lowercase x = to_ascii_lowercase y.
Proof. unfold eq_ignore_ascii_case. apply bool_decide_eq_true. Qed.

(** The routing and framing headers are never dropped on the way. *)
Lemma framing_kept `{!HttpLaws} (fields : list (list Z)) (name f : list Z) :
  (∀ g, g ∈ fields → (g ∉ FRAMING) ∧ ∃ x, header_name_parse x = Some g) →
  f ∈ FRAMING → eq_ignore_ascii_case name f = true → dropped_header fields name = false.
Proof.
  intros Hfields Hf Hn. apply lower_eq in Hn.
  assert (to_ascii_lowercase f = f) as Hlf.
  { repeat (apply elem_of_cons in Hf as [->|Hf]; [reflexivity|]). set_solver. }
  rewrite Hlf in Hn. apply not_true_iff_false. unfold dropped_header.
  rewrite orb_true_iff, !existsb_exists. intros [(g & Hg & E)|(g & Hg & E)].
  - apply lower_eq in E. rewrite Hn in E.
    assert (to_ascii_lowercase g = g ∧ g ∉ FRAMING) as [Hlg Hng].
    { repeat (destruct Hg as [<-|Hg]; [split; [reflexivity|];
        refine (bool_decide_eq_false_1 _ _); vm_compute; reflexivity|]). done. }
    congruence.
  - apply lower_eq in E. apply list_elem_of_In in Hg.
    destruct (Hfields g Hg) as [Hng (x & Hx)]. apply header_name_lower in Hx. congruence.
Qed.

Lemma interpret_head_inv (header_end : nat) (bytes prefetched : list Z) (r : HttpProxyRequest) :
  interpret_head header_end bytes prefetched = Ok r →
  ∃ request method raw_method destination path s,
    http_parse MAX_HEADERS bytes = Some request ∧
    ph_complete request = Some header_end ∧ ph_method request = Some raw_method ∧
    method_parse raw_method = Some method ∧ ph_path request = Some destination ∧
    request_target method destination = Ok (http_target r, http_port r, path) ∧
    check_headers (bool_decide (method = str "CONNECT")) (http_target r) (http_port r)
      (ph_headers request) header_state_new = Ok s ∧
    content_length_seen s && transfer_encoding_seen s = false ∧
    (bool_decide (method = str "CONNECT") = false → host_seen s = true) ∧
    http_prefetched r = prefetched ∧ bare_line_end None bytes = false ∧
    http_forwarded_head r =
      (λ path, forwarded_head method path (ph_headers request) (connection_fields s)) <$> path.
Proof.
  unfold interpret_head. destruct (bare_line_end None bytes); [done|].
  destruct (http_parse MAX_HEADERS bytes) as [request|]; [|done]. cbn [ok_or].
  destruct (_ || _) eqn:Ec; [done|]. apply orb_false_iff in Ec as [Ec _].
  apply negb_false_iff, bool_decide_eq_true in Ec.
  destruct (ph_method request) as [raw|] eqn:Em; [|done]. cbn [ok_or].
  destruct (method_parse raw) as [method|] eqn:Emp; [|done]. cbn [ok_or].
  destruct (ph_path request) as [destination|] eqn:Epa; [|done]. cbn [ok_or].
  destruct (request_target method destination) as [[[target port] path]|] eqn:Et; [|done].
  destruct (check_headers _ target port _ _) as [s|] eqn:Es; [|done].
  destruct (content_length_seen s && transfer_encoding_seen s) eqn:Ef; [done|].
  destruct (negb _ && negb _) eqn:Eh; [done|]. intros [= <-].
  exists request, method, raw, destination, path, s. split_and!; try done.
  intros Hm. rewrite Hm in Eh. by destruct (host_seen s).
Qed.

Lemma request_target_path (method destination : list Z) (target : ConnectTarget) (port : Z)
    (path : option (list Z)) :
  request_target method destination = Ok (target, port, path) →
  (is_Some path ↔ bool_decide (method = str "CONNECT") = false).
Proof.
  unfold request_target. destruct (bool_decide (method = str "CONNECT")).
  - destruct (parse_authority _ _) as [[? ?]|]; [|done]. intros [= _ _ <-].
    split; [intros [? ?]|]; done.
  - destruct (uri_parse destination) as [uri|]; [|done]. cbn [ok_or].
    destruct (_ || _); [done|]. destruct (uri_authority uri); [|done]. cbn [ok_or].
    destruct (parse_authority _ _) as [[? ?]|]; [|done]. intros [= _ _ <-].
    split; [done|eauto].
Qed.

(** ** Properties *)

(** an accepted request leaves no room for the proxy and the origin to read
    it differently.  Every Host header names the very target and port the tunnel
    goes to, there is at most one, and exactly one in a forwarded request; there
    is at most one Content-Length and one Transfer-Encoding, not both, and no
    Upgrade or credentials; and in a forwarded head these headers are kept
    whatever the Connection header nominates. *)
Theorem http_request_unambiguous `{!HttpLaws} (header_end : nat) (bytes prefetched : list Z)
    (r : HttpProxyRequest) (Hr : interpret_head header_end bytes prefetched = Ok r) :
  ∃ request, http_parse MAX_HEADERS bytes = Some request ∧
    let hs := ph_headers request in
    (∀ h, h ∈ hs → named "host" h = true →
       ∃ default_port, parse_authority h.2 default_port = Ok (http_target r, http_port r)) ∧
    (count_named "host" hs ≤ 1)%nat ∧
    (count_named "content-length" hs + count_named "transfer-encoding" hs ≤ 1)%nat ∧
    count_named "upgrade" hs = 0%nat ∧ count_named "proxy-authorization" hs = 0%nat ∧
    (∀ head, http_forwarded_head r = Some head →
       count_named "host" hs = 1%nat ∧
       ∃ method path fields, head = forwarded_head method path hs fields ∧
         ∀ h f, h ∈ hs → f ∈ FRAMING → eq_ignore_ascii_case h.1 f = true →
           dropped_header fields h.1 = false).
Proof.
  apply interpret_head_inv in Hr as (request & method & raw & destination & path & s &
    Hp & _ & _ & _ & _ & Ht & Hs & Hcl & Hhost & _ & _ & Hfw).
  apply check_headers_ok in Hs as (B1 & B2 & B3 & B4 & B5 & B6 & B7 & B8).
  unfold header_state_new in B1, B2, B3, B8. cbn in B1, B2, B3, B8.
  exists request. cbv zeta. split; [done|].
  split_and!; [eauto|destruct (host_seen s); simpl in *; lia| |done|done|].
  - destruct (content_length_seen s), (transfer_encoding_seen s); simpl in *; lia || done.
  - intros head Hhead. rewrite Hfw in Hhead. destruct path as [path|]; [|done].
    injection Hhead as <-. apply request_target_path in Ht. split.
    + rewrite Hhost in B1 by (apply Ht; eauto). simpl in *. lia.
    + exists method, path, (connection_fields s). split; [done|].
      intros h f Hh Hf He. eapply framing_kept; [|exact Hf|exact He].
      intros g Hg. destruct (B8 g Hg) as [?|?]; [set_solver|done].
Qed.

End Lemmas.

(** ** Witnesses *)

(** A concrete parser: it knows one request, and splits an authority at its
    colon. *)
Definition sample_head : list Z :=
  str "GET http://a.example/x HTTP/1.1" ++ crlf ++ str "Host: A.example" ++ crlf ++
  str "Connection: X-Trace" ++ crlf ++ str "X-Trace: 1" ++ head_end.

Definition sample_parsed : parsed_head :=
  {| ph_complete := Some (length sample_head); ph_version := Some 1;
     ph_method := Some (str "GET"); ph_path := Some (str "http://a.example/x");
     ph_headers := [(str "Host", str "A.example"); (str "Connection", str "X-Trace");
                    (str "X-Trace", str "1")] |}.

Definition sample_http : HttpApi := {|
  http_parse := λ _ bytes, if decide (bytes = sample_head) then Some sample_parsed else None;
  method_parse := λ m, Some m;
  uri_parse := λ _, Some {| uri_scheme := Some (str "http");
                            uri_authority := Some (str "a.example");
                            uri_path_and_query := Some (str "/x") |};
  authority_parse := λ s, match split_once ch_colon s with
                          | Some (h, p) => Some (h, parse_digits p)
                          | None => Some (s, None)
                          end;
  header_name_parse := λ s, Some (to_ascii_lowercase s);
|}.

#[local] Instance sample_http_laws : HttpLaws (Http := sample_http).
Proof. split. intros s f [= <-]. apply to_ascii_lowercase_idem. Qed.

Lemma http_request_unambiguous_witness :
  ∃ request, http_parse (HttpApi := sample_http) MAX_HEADERS sample_head = Some request ∧
    (count_named "host" (ph_headers request) ≤ 1)%nat.
Proof.
  destruct (http_request_unambiguous (Http := sample_http) (length sample_head) sample_head
    (str "body")
    {| http_target := Hostname (str "a.example"); http_port := 80;
       http_prefetched := str "body";
       http_forwarded_head := Some (forwarded_head (str "GET") (str "/x")
         (ph_headers sample_parsed) [str "x-trace"]) |}) as (request & Hp & _ & Hc & _);
    [vm_compute; reflexivity|].
  exists request. split; [exact Hp|exact Hc].
Defined.
