(* ===== verification/ConnectBroker.v ===== *)
(** * The CONNECT broker ([crates/sendbox-egress/src/connect_broker.rs])

    The shared authorize-and-dial path and the three front ends, as programs over
    the operations of [Egress].  The theorems bound what each front end can dial,
    for every reply of the resolver, the shared stores and the dialer; that the
    policy permits each dial is a theorem of the composed system ([System]). *)

From S2P Require Import Prelude RustStr Net Address Domain GithubMeta NetPolicy AuthCache.
From S2P Require Import DnsBudget Origin Resolver ConnectProto Socks5 HttpProxy Egress DnsBroker.

(** ** Definitions *)

Inductive ConnectFrontend : Type := FrontCustom | FrontSocks5 | FrontHttp.

#[global] Instance ConnectFrontend_eq_dec : EqDecision ConnectFrontend.
Proof. solve_decision. Defined.

Record ConnectFailure : Type := {
  cf_status : ConnectStatus;
  cf_resolution : option ResolveFailure;
}.

Definition failure_from (status : ConnectStatus) : ConnectFailure :=
  {| cf_status := status; cf_resolution := None |}.

(** The socket (its local address) and the pinned target. *)
Record AuthorizedDial : Type := {
  upstream_local : option (ip_addr * Z);
  target_ip : ip_addr;
}.

Definition status_as_str (s : ConnectStatus) : string :=
  match s with
  | StatusOk => "ok"
  | PolicyDenied => "policy_denied"
  | ResolutionFailed => "resolution_failed"
  | ConnectFailed => "connect_failed"
  | LimitExceeded => "limit_exceeded"
  | StatusMalformed => "malformed"
  | UnsupportedProtocol => "unsupported_protocol"
  | ExpectedIpMismatch => "expected_ip_mismatch"
  | StatusTimeout => "timeout"
  end.

Definition socks_reply_for_status (s : ConnectStatus) : Socks5Reply :=
  match s with
  | StatusOk => Succeeded
  | PolicyDenied | ExpectedIpMismatch => NotAllowed
  | ResolutionFailed => HostUnreachable
  | ConnectFailed => ConnectionRefused
  | UnsupportedProtocol => CommandNotSupported
  | StatusMalformed | StatusTimeout | LimitExceeded => GeneralFailure
  end.

Definition target_label (t : ConnectTarget) : list Z :=
  match t with Hostname host => host | Ip ip => show_ip ip end.

Section ConnectBroker.
Context {ipnet : Type} `{Api : IpNetApi ipnet}.
Context {N : Type} `{NA : NameApi N}.
Variable b : Broker ipnet.

#[local] Abbreviation prog := (prog ipnet N).

(** The loop over [resolved.addresses]: the validated [(ip, ttl)] pairs. *)
Definition validated_addresses (policy : PolicySnapshot ipnet) (l : list ResolvedAddress)
  : list (ip_addr * Z) :=
  omap (λ addr,
    let ip := canonicalize (ra_ip addr) in
    let record_type := if is_ipv4 ip then A else Aaaa in
    if negb (record_type_allowed (b_guard b) record_type) then None
    else if negb (allowed (address_permitted policy ip)) then None
    else Some (ip, ra_ttl_secs addr)) l.

(** [sort_by], [dedup_by] and [truncate] of the validated pairs. *)
Definition limit_validated (l : list (ip_addr * Z)) : list (ip_addr * Z) :=
  take (Z.to_nat (g_max_response_records (b_guard b)))
    (dedup_by (λ x y, bool_decide (x.1 = y.1)) (sort_by (λ x y, ip_leb x.1 y.1) l)).

(** The loop that authorizes each address and pushes it to [candidates]. *)
Fixpoint authorize_pairs (name : list Z) (rev : Z) (l : list (ip_addr * Z))
  : prog unit :=
  match l with
  | [] => Ret tt
  | (ip, ttl_secs) :: r =>
      do! perform (OAuthorize name ip (from_secs (cap_ttl (b_policy b) ttl_secs)) rev) in
      authorize_pairs name rev r
  end.

(** [candidates.sort(); candidates.dedup()]. *)
Definition sort_dedup (l : list ip_addr) : list ip_addr :=
  dedup_by (λ x y, bool_decide (x = y)) (sort_by ip_leb l).

(** [fresh_resolve] after the resolver has replied: the new candidates. *)
Definition accept_resolution (policy : PolicySnapshot ipnet) (normalized : list Z)
    (candidates : list ip_addr) (resolved : ResolvedChain N)
  : prog (result ConnectFailure (list ip_addr)) :=
  if negb (forallb
             (λ hop, match evaluate_domain_name policy (name_to_utf8 hop) with
                     | Ok true => true
                     | _ => false
                     end) (names_to_validate resolved))
  then Ret (Err (failure_from PolicyDenied))
  else
    let validated := limit_validated (validated_addresses policy (addresses resolved)) in
    let! current := perform (OIsCurrent policy) in
    if negb current then Ret (Err (failure_from PolicyDenied))
    else
      do! authorize_pairs normalized (revision policy) validated in
      Ret (Ok (sort_dedup (candidates ++ (fst <$> validated)))).

Definition fresh_resolve (policy : PolicySnapshot ipnet) (normalized : list Z)
    (candidates : list ip_addr) : prog (result ConnectFailure (list ip_addr)) :=
  let! admitted := perform (OAdmit normalized) in
  match admitted with
  | Err limit =>
      do! perform (ORecord (DnsRateLimited normalized limit)) in
      Ret (Err (failure_from PolicyDenied))
  | Ok _ =>
  match name_from_ascii (normalized ++ [ch_dot]) with
  | None => Ret (Err (failure_from StatusMalformed))
  | Some name =>
  let! reply := perform (OResolve name) in
  let failed (failure : ResolveFailure) : prog (result ConnectFailure (list ip_addr)) :=
    do! perform (ORecord (DnsResolutionFailed normalized "connect" failure)) in
    if (length candidates =? 0)%nat
    then Ret (Err {| cf_status := ResolutionFailed; cf_resolution := Some failure |})
    else Ret (Ok candidates) in
  match reply with
  | Resolved resolved => accept_resolution policy normalized candidates resolved
  | ResolveFailed error => failed (diagnostic error)
  | DeadlineExceeded => failed (failure_new BrokerTimeout)
  end end end.

(** The choice among the candidates at the end of [resolve_pinned]. *)
Definition pin (normalized : list Z) (expected_ip : option ip_addr)
    (candidates : list ip_addr) : result ConnectFailure (list Z * ip_addr) :=
  match candidates with
  | [] => Err (failure_from PolicyDenied)
  | first :: _ =>
      match expected_ip with
      | Some expected =>
          if bool_decide (expected ∈ candidates) then Ok (normalized, expected)
          else Err (failure_from ExpectedIpMismatch)
      | None => Ok (normalized, first)
      end
  end.

Definition resolve_pinned (policy : PolicySnapshot ipnet) (host : list Z)
    (expected_ip : option ip_addr) : prog (result ConnectFailure (list Z * ip_addr)) :=
  match normalize_domain host with
  | Err _ => Ret (Err (failure_from StatusMalformed))
  | Ok normalized =>
  match check_structure (b_guard b) normalized with
  | Err limit =>
      do! perform (ORecord (DnsStructuralRejected normalized limit)) in
      Ret (Err (failure_from PolicyDenied))
  | Ok _ =>
  match evaluate_domain_name policy normalized with
  | Ok false => Ret (Err (failure_from PolicyDenied))
  | Err _ => Ret (Err (failure_from StatusMalformed))
  | Ok true =>
  let! candidates := perform (OAddresses normalized (revision policy)) in
  let expected_already_cached :=
    match expected_ip with Some ip => bool_decide (ip ∈ candidates) | None => false end in
  let need_fresh :=
    (length candidates =? 0)%nat ||
    (bool_decide (is_Some expected_ip) && negb expected_already_cached) in
  if need_fresh then
    if negb (e_allow_dns (b_policy b)) then
      if (length candidates =? 0)%nat then Ret (Err (failure_from ResolutionFailed))
      else Ret (pin normalized expected_ip candidates)
    else
      let!? candidates := fresh_resolve policy normalized candidates in
      Ret (pin normalized expected_ip candidates)
  else Ret (pin normalized expected_ip candidates)
  end end end.

(** [authorize_and_dial] once the target address is known. *)
Definition decide_and_dial (policy : PolicySnapshot ipnet) (target : ConnectTarget)
    (port : Z) (target_ip : ip_addr) (hostname_for_decision : option (list Z))
  : prog (result ConnectFailure AuthorizedDial) :=
  let decision :=
    match hostname_for_decision with
    | Some name => decide_hostname policy name target_ip port Tcp
    | None => decide_direct_ip policy target_ip port Tcp
    end in
  if negb (allowed decision) then Ret (Err (failure_from PolicyDenied))
  else
    let! current := perform (OIsCurrent policy) in
    if negb current then Ret (Err (failure_from PolicyDenied))
    else
      let! dialed := perform (ODial target_ip port) in
      match dialed with
      | Ok local =>
          let! current := perform (OIsCurrent policy) in
          if current then Ret (Ok {| upstream_local := local; target_ip := target_ip |})
          else Ret (Err (failure_from PolicyDenied))
      | Err error =>
          do! perform (ORecord (ConnectDialFailed (target_label target) port
                                  (io_kind error) (raw_os_error error))) in
          Ret (Err (failure_from ConnectFailed))
      end.

Definition authorize_and_dial (target : ConnectTarget) (port : Z)
    (expected_ip : option ip_addr) : prog (result ConnectFailure AuthorizedDial) :=
  let! policy := perform OSnapshot in
  let! reserved :=
    match target with
    | Hostname host => perform (ODeniesHost host port)
    | Ip address => let! d := perform (ODeniesIp address port) in Ret (Ok d)
    end in
  match reserved with
  | Err _ => Ret (Err (failure_from StatusMalformed))
  | Ok true => Ret (Err (failure_from PolicyDenied))
  | Ok false =>
      match target with
      | Hostname host =>
          let!? pinned := resolve_pinned policy host expected_ip in
          decide_and_dial policy target port pinned.2 (Some pinned.1)
      | Ip ip =>
          if match expected_ip with
             | Some expected => negb (bool_decide (expected = ip))
             | None => false
             end
          then Ret (Err (failure_from ExpectedIpMismatch))
          else decide_and_dial policy target port ip None
      end
  end.

(** ** Front ends

    [handshake] is what the client sent, or [None] when the handshake timed out.
    A failed write to the client ends the handler where the code uses [?]. *)

Definition handle_custom (handshake : option (list Z)) : prog unit :=
  match handshake with
  | None =>
      do! perform (ORecord (ConnectError "handshake_timeout")) in
      do! perform (OWrite (write_status StatusTimeout)) in Ret tt
  | Some client =>
  match decode_request client with
  | Err _ =>
      do! perform (ORecord (ConnectError "malformed")) in
      do! perform (OWrite (write_status StatusMalformed)) in Ret tt
  | Ok (request, _) =>
      let label := target_label (req_target request) in
      if negb (bool_decide (req_protocol request = ConnectTcp)) then
        do! perform (ORecord (ConnectUnsupportedProtocol label (req_port request))) in
        do! perform (OWrite (write_status UnsupportedProtocol)) in Ret tt
      else
        let! dialed :=
          authorize_and_dial (req_target request) (req_port request)
            (req_expected_ip request) in
        match dialed with
        | Ok dial =>
            let! sent := perform (OWrite (write_status StatusOk)) in
            if negb sent then Ret tt
            else
              do! perform (ORecord (ConnectAllowed label (target_ip dial) (req_port request))) in
              do! perform OProxy in Ret tt
        | Err failure =>
            do! perform (ORecord (ConnectDenied label (req_port request)
                                    (status_as_str (cf_status failure)))) in
            do! perform (OWrite (write_status (cf_status failure))) in Ret tt
        end
  end end.

(** [socks5::negotiate] with its writes. *)
Definition negotiate_client (client : list Z) : prog (bool * list Z) :=
  let '(outcome, reply, rest) := negotiate client in
  match reply with
  | [] => Ret (false, rest)
  | _ =>
      let! sent := perform (OWrite reply) in
      Ret (match outcome with Ok _ => sent | Err _ => false end, rest)
  end.

(** [client] is the byte stream; the two flags say whether each stage of the
    handshake finishes in time. *)
Definition handle_socks5 (client : list Z) (negotiated_in_time requested_in_time : bool)
  : prog unit :=
  if negb negotiated_in_time then
    do! perform (ORecord (ConnectError "handshake_timeout")) in Ret tt
  else
  let! negotiated := negotiate_client client in
  if negb negotiated.1 then
    do! perform (ORecord (ConnectError "socks_negotiation")) in Ret tt
  else if negb requested_in_time then
    do! perform (ORecord (ConnectError "handshake_timeout")) in
    do! perform (OWrite (write_failure GeneralFailure)) in Ret tt
  else
  match read_request negotiated.2 with
  | Err (UnsupportedAddressType _) =>
      do! perform (ORecord (ConnectError "socks_address_type")) in
      do! perform (OWrite (write_failure AddressTypeNotSupported)) in Ret tt
  | Err _ =>
      do! perform (ORecord (ConnectError "socks_malformed")) in
      do! perform (OWrite (write_failure GeneralFailure)) in Ret tt
  | Ok (request, _) =>
      let label := target_label (socks_target request) in
      if negb (bool_decide (socks_command request = SocksConnect)) then
        do! perform (ORecord (ConnectUnsupportedProtocol label (socks_port request))) in
        do! perform (OWrite (write_failure CommandNotSupported)) in Ret tt
      else
        let! dialed := authorize_and_dial (socks_target request) (socks_port request) None in
        match dialed with
        | Ok dial =>
            let bound := default (V4 0, 0) (upstream_local dial) in
            let! sent := perform (OWrite (write_reply Succeeded bound.1 bound.2)) in
            if negb sent then Ret tt
            else
              do! perform (ORecord (ConnectAllowed label (target_ip dial) (socks_port request))) in
              do! perform OProxy in Ret tt
        | Err failure =>
            do! perform (ORecord (ConnectDenied label (socks_port request)
                                    (status_as_str (cf_status failure)))) in
            do! perform (OWrite (write_failure (socks_reply_for_status (cf_status failure)))) in
            Ret tt
        end
  end.

(** [failure_json] is the body [serde_json] makes of a resolution failure; the
    writes to the upstream are writes too. *)
Definition handle_http `{Http : HttpApi} (failure_json : ResolveFailure → list Z)
    (handshake : option (list (list Z))) : prog unit :=
  match handshake with
  | None =>
      do! perform (ORecord (ConnectError "handshake_timeout")) in
      do! perform (OWrite (http_write_status StatusTimeout)) in Ret tt
  | Some chunks =>
  match read_http_request chunks with
  | Err _ =>
      do! perform (ORecord (ConnectError "http_handshake")) in
      do! perform (OWrite (http_write_status StatusMalformed)) in Ret tt
  | Ok request =>
      let label := target_label (http_target request) in
      let! dialed := authorize_and_dial (http_target request) (http_port request) None in
      match dialed with
      | Ok dial =>
          do! perform (ORecord (ConnectAllowed label (target_ip dial) (http_port request))) in
          let! sent := perform (OWrite (match http_forwarded_head request with
                                        | Some head => head
                                        | None => http_write_status StatusOk
                                        end)) in
          if negb sent then Ret tt
          else
            let! sent := perform (OWrite (http_prefetched request)) in
            if negb sent then Ret tt else do! perform OProxy in Ret tt
      | Err failure =>
          do! perform (ORecord (ConnectDenied label (http_port request)
                                  (status_as_str (cf_status failure)))) in
          match cf_resolution failure with
          | Some reason =>
              let! sent := perform (OWrite (http_resolution_header (failure_json reason))) in
              if negb sent then Ret tt
              else do! perform (OWrite (failure_json reason)) in Ret tt
          | None => do! perform (OWrite (http_write_status (cf_status failure))) in Ret tt
          end
      end
  end end.

(** The inline rejection of [run_with_frontend] when no permit is left. *)
Definition reject_saturated (frontend : ConnectFrontend) : prog unit :=
  do! perform (ORecord ConnectLimitExceeded) in
  if bool_decide (frontend = FrontCustom) then
    do! perform (OWrite (write_status LimitExceeded)) in Ret tt
  else if bool_decide (frontend = FrontHttp) then
    do! perform (OWrite (http_write_status LimitExceeded)) in Ret tt
  else Ret tt.

(** ** Lemmas *)

(** The dials of a program go to addresses and ports in [P]. *)
Definition dials_in (P : ip_addr → Z → Prop) (X : Type) (o : op ipnet N X) : Prop :=
  match o with ODial ip port => P ip port | _ => True end.

Definition no_dial : ip_addr → Z → Prop := λ _ _, False.

(** Programs without a dial, by going through their operations. *)
Ltac quiet :=
  repeat (progress cbn [bind perform every_op dials_in] || (split; [exact I|]) ||
          (intros ?) || exact I || (destruct_match)).

Lemma authorize_pairs_quiet (P : ip_addr → Z → Prop) (name : list Z) (rev : Z)
    (l : list (ip_addr * Z)) :
  every_op (dials_in P) (authorize_pairs name rev l).
Proof. induction l as [|[ip ttl] l IH]; cbn; [done|]. split; [done|]. by intros. Qed.

Lemma accept_resolution_quiet (P : ip_addr → Z → Prop) (s : PolicySnapshot ipnet)
    (name : list Z) (candidates : list ip_addr) (chain : ResolvedChain N) :
  every_op (dials_in P) (accept_resolution s name candidates chain).
Proof.
  unfold accept_resolution. destruct (negb _); [done|]. cbv zeta.
  cbn [bind perform every_op dials_in]. split; [done|]. intros current.
  destruct (negb current); [done|]. apply every_op_bind; [apply authorize_pairs_quiet|].
  by apply always_true.
Qed.

Lemma fresh_resolve_quiet (P : ip_addr → Z → Prop) (s : PolicySnapshot ipnet)
    (name : list Z) (candidates : list ip_addr) :
  every_op (dials_in P) (fresh_resolve s name candidates).
Proof. unfold fresh_resolve. quiet; apply accept_resolution_quiet. Qed.

Lemma resolve_pinned_quiet (P : ip_addr → Z → Prop) (s : PolicySnapshot ipnet)
    (host : list Z) (expected : option ip_addr) :
  every_op (dials_in P) (resolve_pinned s host expected).
Proof.
  unfold resolve_pinned. destruct (normalize_domain host); [|done].
  destruct (check_structure _ _); [|quiet].
  destruct (evaluate_domain_name _ _) as [[]|]; [|done..].
  cbn [bind perform every_op dials_in]. split; [done|]. intros candidates. cbv zeta.
  destruct (_ || _); [|done]. destruct (negb _); [by destruct_match|].
  apply every_op_bind; [apply fresh_resolve_quiet|]. apply always_true. by intros [].
Qed.

(** The pinned address is the expected one, when there is one. *)
Definition pin_expected (expected : option ip_addr)
    (r : result ConnectFailure (list Z * ip_addr)) : Prop :=
  match r with
  | Ok (_, ip) => match expected with Some e => ip = e | None => True end
  | Err _ => True
  end.

Lemma pin_expected_ok (name : list Z) (expected : option ip_addr) (candidates : list ip_addr) :
  pin_expected expected (pin name expected candidates).
Proof.
  unfold pin. destruct candidates; [done|]. destruct expected; [|done].
  by case_bool_decide.
Qed.

Lemma resolve_pinned_expected (s : PolicySnapshot ipnet) (host : list Z)
    (expected : option ip_addr) :
  always (resolve_pinned s host expected) (pin_expected expected).
Proof.
  unfold resolve_pinned. destruct (normalize_domain host); [|done].
  destruct (check_structure _ _); [|by intros ?].
  destruct (evaluate_domain_name _ _) as [[]|]; [|done..].
  cbn [bind perform always]. intros candidates. cbv zeta.
  destruct (_ || _); [|apply pin_expected_ok].
  destruct (negb _); [destruct (_ =? _)%nat; [done|apply pin_expected_ok]|].
  apply always_bind, always_true. intros []; [apply pin_expected_ok|done].
Qed.

Lemma decide_and_dial_dials (P : ip_addr → Z → Prop) (s : PolicySnapshot ipnet)
    (target : ConnectTarget) (port : Z) (ip : ip_addr) (name : option (list Z)) :
  P ip port → every_op (dials_in P) (decide_and_dial s target port ip name).
Proof.
  intros HP. unfold decide_and_dial. cbv zeta. destruct (negb _); [done|].
  cbn [bind perform every_op dials_in]. split; [done|]. intros current.
  destruct (negb current); [done|]. cbn [bind perform every_op dials_in]. split; [done|]. quiet.
Qed.

(** The dials a request asks for: its port, the address it expects if it expects
    one, and its own address if it names one. *)
Definition asked (target : ConnectTarget) (port : Z) (expected : option ip_addr)
    (ip : ip_addr) (p : Z) : Prop :=
  p = port ∧ match expected with Some e => ip = e | None => True end ∧
  match target with Ip t => ip = t | Hostname _ => True end.

Lemma authorize_and_dial_dials (target : ConnectTarget) (port : Z)
    (expected : option ip_addr) :
  every_op (dials_in (asked target port expected)) (authorize_and_dial target port expected).
Proof.
  unfold authorize_and_dial. cbn [bind perform every_op dials_in]. split; [done|].
  intros s. destruct target as [host|t]; cbn [bind perform every_op dials_in];
    (split; [done|]); intros r.
  - destruct r as [[]|]; [done| |done].
    apply every_op_bind; [apply resolve_pinned_quiet|].
    eapply always_mono; [|apply resolve_pinned_expected]. intros [[name ip]|]; [|done].
    intros He. by apply decide_and_dial_dials.
  - destruct r; [done|]. destruct expected as [e|].
    + case_bool_decide as He; [|done]. subst. by apply decide_and_dial_dials.
    + by apply decide_and_dial_dials.
Qed.

(** ** Properties *)

(** whatever the resolver, the cache and the other handlers return, each
    front end dials no port but the one its request names, no address but the
    client's declared expectation when it has one, and no address but the literal
    one when the target is an address: a mismatch is refused, never corrected. *)
Theorem dials_only_what_was_asked `{Http : HttpApi} (failure_json : ResolveFailure → list Z) :
  (∀ client r rest, decode_request client = Ok (r, rest) →
     every_op (dials_in (asked (req_target r) (req_port r) (req_expected_ip r)))
       (handle_custom (Some client))) ∧
  (∀ client t1 t2 r rest out rest', negotiate client = (Ok tt, out, rest') →
     read_request rest' = Ok (r, rest) →
     every_op (dials_in (asked (socks_target r) (socks_port r) None))
       (handle_socks5 client t1 t2)) ∧
  (∀ chunks r, read_http_request chunks = Ok r →
     every_op (dials_in (asked (http_target r) (http_port r) None))
       (handle_http failure_json (Some chunks))).
Proof.
  split_and!.
  - intros client r rest Hd. unfold handle_custom. rewrite Hd. cbv zeta.
    destruct (negb _); [quiet|]. apply every_op_bind; [apply authorize_and_dial_dials|].
    apply always_true. intros []; quiet.
  - intros client t1 t2 r rest out rest' Hn Hr. unfold handle_socks5, negotiate_client.
    rewrite Hn. destruct t1; [|quiet]. cbn [negb]. destruct out; [quiet|].
    cbn [bind perform every_op dials_in fst snd]. split; [done|]. intros [].
    2: { quiet. }
    rewrite Hr. destruct t2; [|quiet]. cbn [negb fst snd]. cbv zeta.
    destruct (negb _); [quiet|]. apply every_op_bind; [apply authorize_and_dial_dials|].
    apply always_true. intros []; quiet.
  - intros chunks r Hd. unfold handle_http. rewrite Hd. cbv zeta.
    apply every_op_bind; [apply authorize_and_dial_dials|].
    apply always_true. intros []; quiet.
Qed.

(** a UDP request of the native protocol, a SOCKS5 BIND or UDP ASSOCIATE, a
    malformed or late handshake of a front end and a saturated broker never lead
    to a dial. *)
Theorem refused_requests_never_dial `{Http : HttpApi}
    (failure_json : ResolveFailure → list Z) :
  (∀ client r rest, decode_request client = Ok (r, rest) → req_protocol r = ConnectUdp →
     every_op (dials_in no_dial) (handle_custom (Some client))) ∧
  (∀ client e, decode_request client = Err e →
     every_op (dials_in no_dial) (handle_custom (Some client))) ∧
  (∀ client t1 t2 r rest out rest', negotiate client = (Ok tt, out, rest') →
     read_request rest' = Ok (r, rest) → socks_command r ≠ SocksConnect →
     every_op (dials_in no_dial) (handle_socks5 client t1 t2)) ∧
  (∀ client t1 t2, negb (t1 && t2) →
     every_op (dials_in no_dial) (handle_socks5 client t1 t2)) ∧
  (∀ chunks e, read_http_request chunks = Err e →
     every_op (dials_in no_dial) (handle_http failure_json (Some chunks))) ∧
  every_op (dials_in no_dial) (handle_custom None) ∧
  every_op (dials_in no_dial) (handle_http failure_json None) ∧
  (∀ frontend, every_op (dials_in no_dial) (reject_saturated frontend)).
Proof.
  split_and!.
  - intros client r rest Hd Hp. unfold handle_custom. rewrite Hd, Hp. quiet.
  - intros client e He. unfold handle_custom. rewrite He. quiet.
  - intros client t1 t2 r rest out rest' Hn Hr Hc. unfold handle_socks5, negotiate_client.
    rewrite Hn. destruct t1; [|quiet]. cbn [negb]. destruct out; [quiet|].
    cbn [bind perform every_op dials_in fst snd]. split; [done|]. intros [].
    2: { quiet. }
    rewrite Hr, bool_decide_eq_false_2 by done. quiet.
  - intros client t1 t2 Ht. unfold handle_socks5, negotiate_client.
    destruct t1; [|quiet]. destruct t2; [done|]. cbn [negb].
    destruct (negotiate client) as [[? []] ?]; quiet.
  - intros chunks e He. unfold handle_http. rewrite He. quiet.
  - quiet.
  - quiet.
  - intros frontend. unfold reject_saturated. quiet.
Qed.

End ConnectBroker.
