(* ===== verification/System.v ===== *)
(** * The gateway as a transition system

    The brokers' handlers run concurrently over the shared state: each step is
    one atomic operation of one handler, a tick of the clock, the start or end
    of a handler, or a change made from outside the handlers (a Meta refresh, a
    reservation, a cache flush).  A history records what was seen and done.  The
    theorems hold in every reachable state: a destination is dialed only when
    policy permits it and, for a hostname, only at an address that the resolver
    returned for that very name through a chain of allowed names; a name is sent
    upstream only when policy allows it and the budget admitted it. *)

From S2P Require Import Prelude RustStr Net Address Domain GithubMeta NetPolicy AuthCache.
From S2P Require Import DnsBudget Origin Resolver ConnectProto Socks5 HttpProxy Egress.
From S2P Require Import DnsBroker ConnectBroker.

Section System.
Context {ipnet : Type} `{Api : IpNetApi ipnet}.
Context {C : Type} `{Store : AuthStore C} `{!AuthStoreLaws C}.
Context {N : Type} `{NA : NameApi N}.
Context {R : Type} `{Wire : !WireApi N R}.
Context `{Http : HttpApi}.
Variable b : Broker ipnet.
Variable from_slice : list Z → option json.
Variable sha256_hex : list Z → list Z.
Variable failure_json : ResolveFailure → list Z.

#[local] Abbreviation prog := (prog ipnet N).
#[local] Abbreviation op := (op ipnet N).

(** ** Histories *)

Inductive hevent : Type :=
| HView (rev : Z) (scope : option (GitHubMetaScope ipnet))
| HAdmitted (name : list Z)
| HQuery (qname : N)
| HAnswer (qname : N) (chain : ResolvedChain N)
| HHostFree (host : list Z) (port : Z)
| HIpFree (ip : ip_addr) (port : Z)
| HDial (ip : ip_addr) (port : Z).

Definition history : Type := list hevent.

(** The event an operation with its reply leaves. *)
Definition hist_of {X : Type} (o : op X) : X → history :=
  match o in Egress.op _ _ X return X → history with
  | OSnapshot => λ s, [HView (revision s) (github_scope s)]
  | OAdmit name => λ r, match r with Ok _ => [HAdmitted name] | Err _ => [] end
  | OResolve qname => λ r,
      HQuery qname :: match r with Resolved chain => [HAnswer qname chain] | _ => [] end
  | ODeniesHost host port => λ r, match r with Ok false => [HHostFree host port] | _ => [] end
  | ODeniesIp ip port => λ r, if r then [] else [HIpFree ip port]
  | ODial ip port => λ _, [HDial ip port]
  | OIsCurrent _ => λ _, []
  | OAddresses _ _ => λ _, []
  | OAuthorize _ _ _ _ => λ _, []
  | ORecord _ => λ _, []
  | OWrite _ => λ _, []
  | OProxy => λ _, []
  end.

(** ** Justifications, from the history *)

(** A policy view some handler took. *)
Definition seen (H : history) (s : PolicySnapshot ipnet) : Prop :=
  engine s = b_policy b ∧ HView (revision s) (github_scope s) ∈ H.

(** [qname] is the wire form of the normalized [name]. *)
Definition asks (qname : N) (name : list Z) : Prop :=
  normalize_domain (name_to_utf8 qname) = Ok name ∨
  name_from_ascii (name ++ [ch_dot]) = Some qname.

(** [ip] was returned for [name], through names [s] allows, and [s] permits it. *)
Definition pinned (H : history) (s : PolicySnapshot ipnet) (name : list Z) (ip : ip_addr)
  : Prop :=
  ∃ qname chain,
    HAnswer qname chain ∈ H ∧ asks qname name ∧ hops_allowed s chain ∧
    (∃ a, a ∈ addresses chain ∧ canonicalize (ra_ip a) = ip) ∧
    address_ok s ip ∧ evaluate_domain_name s name = Ok true.

Definition justified (H : history) (name : list Z) (ip : ip_addr) (rev : Z) : Prop :=
  ∃ s, seen H s ∧ revision s = rev ∧ pinned H s name ip.

(** A query [name] may go upstream: policy allows it, it is within the structural
    limits, and the budget admitted it. *)
Definition query_ok (H : history) (qname : N) : Prop :=
  ∃ s name, seen H s ∧ asks qname name ∧ evaluate_domain_name s name = Ok true ∧
    check_structure (b_guard b) name = Ok tt ∧ HAdmitted name ∈ H.

(** A destination may be dialed: it is not reserved, and policy permits it either
    as an address or as a pinned address of a name. *)
Definition dial_ok (H : history) (ip : ip_addr) (port : Z) : Prop :=
  ∃ s, seen H s ∧
    ((HIpFree ip port ∈ H ∧ allowed (decide_direct_ip s ip port Tcp) = true) ∨
     (∃ host name, HHostFree host port ∈ H ∧ normalize_domain host = Ok name ∧
        pinned H s name ip ∧ allowed (decide_hostname s name ip port Tcp) = true)).

(** The longest an authorization may last. *)
Definition max_ttl : Z := from_secs (max_ttl_secs (e_dns (b_policy b))).

(** ** Program logic

    [require] is what an operation demands of the history, [ensure] what its
    reply guarantees; [wp H p] says that [p], run from a state with history [H],
    meets every demand, whatever other handlers add to the history meanwhile. *)

Definition require (H : history) {X : Type} (o : op X) : Prop :=
  match o with
  | OAuthorize name ip ttl rev => justified H name ip rev ∧ ttl ≤ max_ttl
  | OResolve qname => query_ok H qname
  | ODial ip port => dial_ok H ip port
  | _ => True
  end.

Definition ensure (H : history) {X : Type} (o : op X) : X → Prop :=
  match o in Egress.op _ _ X return X → Prop with
  | OSnapshot => λ s, seen H s
  | OAdmit name => λ r, match r with Ok _ => HAdmitted name ∈ H | Err _ => True end
  | OAddresses name rev => λ ips,
      ∀ ip s, ip ∈ ips → seen H s → revision s = rev → pinned H s name ip
  | OResolve qname => λ r,
      match r with Resolved chain => HAnswer qname chain ∈ H | _ => True end
  | ODeniesHost host port => λ r,
      match r with Ok false => HHostFree host port ∈ H | _ => True end
  | ODeniesIp ip port => λ r, r = false → HIpFree ip port ∈ H
  | OIsCurrent _ => λ _, True
  | OAuthorize _ _ _ _ => λ _, True
  | ORecord _ => λ _, True
  | ODial _ _ => λ _, True
  | OWrite _ => λ _, True
  | OProxy => λ _, True
  end.

Fixpoint wp {A : Type} (H : history) (p : prog A) (Q : history → A → Prop) : Prop :=
  match p with
  | Ret a => Q H a
  | Vis o k => require H o ∧ ∀ H' x, H ⊆ H' → ensure H' o x → wp H' (k x) Q
  end.

(** ** Lemmas: monotonicity *)

Lemma seen_mono (H H' : history) (s : PolicySnapshot ipnet) : H ⊆ H' → seen H s → seen H' s.
Proof. intros Hs [? ?]. split; [done|]. set_solver. Qed.

Lemma pinned_mono (H H' : history) (s : PolicySnapshot ipnet) (name : list Z) (ip : ip_addr) :
  H ⊆ H' → pinned H s name ip → pinned H' s name ip.
Proof. intros Hs (q & c & ? & ?). exists q, c. split; [set_solver|done]. Qed.

Lemma justified_mono (H H' : history) (name : list Z) (ip : ip_addr) (rev : Z) :
  H ⊆ H' → justified H name ip rev → justified H' name ip rev.
Proof. intros Hs (s & ? & ? & ?). exists s. eauto using seen_mono, pinned_mono. Qed.

Lemma query_ok_mono (H H' : history) (qname : N) : H ⊆ H' → query_ok H qname → query_ok H' qname.
Proof.
  intros Hs (s & name & ? & ? & ? & ? & ?). exists s, name.
  split_and!; eauto using seen_mono.
Qed.

Lemma dial_ok_mono (H H' : history) (ip : ip_addr) (port : Z) :
  H ⊆ H' → dial_ok H ip port → dial_ok H' ip port.
Proof.
  intros Hs (s & Hseen & Hd). exists s. split; [eauto using seen_mono|].
  destruct Hd as [[? ?]|(host & name & ? & ? & ? & ?)]; [left|right].
  - split; [set_solver|done].
  - exists host, name. split_and!; eauto using pinned_mono.
Qed.

Lemma require_mono (H H' : history) {X : Type} (o : op X) :
  H ⊆ H' → require H o → require H' o.
Proof.
  destruct o; simpl; eauto using query_ok_mono, dial_ok_mono.
  intros ? [? ?]. eauto using justified_mono.
Qed.

Lemma wp_conseq {A : Type} (H : history) (p : prog A) (Q Q' : history → A → Prop) :
  (∀ H1 a, H ⊆ H1 → Q H1 a → Q' H1 a) → wp H p Q → wp H p Q'.
Proof.
  revert H. induction p as [a|X o k IH]; intros H HQ; simpl; [by apply HQ|].
  intros [Hr Hk]. split; [done|]. intros H1 x H01 He. apply IH; [|by apply Hk].
  intros H2 a H12. apply HQ. by etrans.
Qed.

Lemma wp_bind {A B : Type} (H : history) (p : prog A) (f : A → prog B)
    (Q : history → B → Prop) :
  wp H p (λ H1 a, wp H1 (f a) Q) → wp H (bind p f) Q.
Proof.
  revert H. induction p as [a|X o k IH]; intros H; simpl; [done|].
  intros [Hr Hk]. split; [done|]. intros H1 x H01 He. apply IH. by apply Hk.
Qed.

(** A bind, when the first part's postcondition implies what the rest needs. *)
Lemma wp_seq {A B : Type} (H : history) (p : prog A) (f : A → prog B)
    (P : history → A → Prop) (Q : history → B → Prop) :
  wp H p P → (∀ H1 a, H ⊆ H1 → P H1 a → wp H1 (f a) Q) → wp H (bind p f) Q.
Proof. intros Hp Hf. apply wp_bind. eapply wp_conseq; [|exact Hp]. auto. Qed.

Definition anything {A : Type} (_ : history) (_ : A) : Prop := True.

Lemma wp_hist_mono {A : Type} (H H' : history) (p : prog A) :
  H ⊆ H' → wp H p anything → wp H' p anything.
Proof.
  destruct p as [a|X o k]; simpl; [done|]. intros Hs [Hr Hk].
  split; [by eapply require_mono|]. intros H1 x H01. apply Hk. by etrans.
Qed.

(** Operations that demand nothing and promise nothing. *)
Ltac wp_skip :=
  cbn [bind perform wp require]; split; [exact I|];
  let H := fresh "H" in let Hs := fresh "Hs" in
  intros H ? Hs _; cbn beta.

(** ** The DNS broker *)

Lemma evaluate_normalized (s : PolicySnapshot ipnet) (name : list Z) :
  evaluate_domain_name s name = Ok true → ∃ d, normalize_domain name = Ok d ∧ domain_ok s d.
Proof.
  unfold evaluate_domain_name. destruct (normalize_domain name) as [d|]; [|discriminate].
  intros [= E]. exists d. split; [reflexivity|]. by apply evaluate_domain_spec.
Qed.

Lemma cap_ttl_le (ttl : Z) : from_secs (cap_ttl (b_policy b) ttl) ≤ max_ttl.
Proof. unfold max_ttl, cap_ttl, from_secs. lia. Qed.

Lemma wp_authorize_each (H : history) (name : list Z) (ttl : Z) (s : PolicySnapshot ipnet)
    (l : list ResolvedAddress) :
  seen H s → Forall (λ a, pinned H s name (ra_ip a)) l → from_secs ttl ≤ max_ttl →
  wp H (authorize_each name ttl (revision s) l) anything.
Proof.
  intros Hs Hl Ht. revert H Hs Hl. induction l as [|a l IH]; intros H Hs Hl; [exact I|].
  apply Forall_cons in Hl as [Ha Hl]. cbn. split.
  - split; [|done]. by exists s.
  - intros H' x Hsub _. apply IH; [by eapply seen_mono|].
    eapply Forall_impl; [exact Hl|]. intros. by eapply pinned_mono.
Qed.

Lemma matching_pinned (H : history) (s : PolicySnapshot ipnet) (qname : N) (name : list Z)
    (chain : ResolvedChain N) (qtype : DnsRecordType) (l : list ResolvedAddress) :
  HAnswer qname chain ∈ H → normalize_domain (name_to_utf8 qname) = Ok name →
  evaluate_domain_name s name = Ok true → hops_allowed s chain →
  forallb (λ a, allowed (address_permitted s (ra_ip a)))
    (matching_addresses qtype (addresses chain)) = true →
  (∀ a, a ∈ l → a ∈ matching_addresses qtype (addresses chain)) →
  Forall (λ a, pinned H s name (ra_ip a)) l.
Proof.
  intros Ha Hn He Hh Hp Hl. apply Forall_forall. intros a Hin%Hl.
  pose proof Hin as Hin'. apply list_elem_of_filter in Hin' as [_ Hin'].
  apply list_elem_of_fmap in Hin' as (a0 & -> & Ha0).
  exists qname, chain. split_and!; [done|by left|done|by exists a0| |done].
  apply address_permitted_spec. rewrite forallb_forall in Hp. apply Hp.
  by apply list_elem_of_In.
Qed.

Lemma wp_validate_reply (H : history) (s : PolicySnapshot ipnet) (qname : N) (name : list Z)
    (chain : ResolvedChain N) (qtype : DnsRecordType) :
  seen H s → HAnswer qname chain ∈ H → normalize_domain (name_to_utf8 qname) = Ok name →
  evaluate_domain_name s name = Ok true →
  wp H (validate_reply b s qname name qtype chain) anything.
Proof.
  intros Hs Ha Hn He. unfold validate_reply.
  destruct (validate_hops s (names_to_validate chain)) eqn:Eh; [exact I|].
  apply validate_hops_None in Eh.
  destruct (negb (forallb _ _)) eqn:Ef; [exact I|]. apply negb_false_iff in Ef.
  cbv zeta. set (m := if _ <? _ then _ else _).
  cbn [bind perform wp require]. split; [exact I|]. intros H1 cur Hsub _.
  destruct (negb cur); [exact I|]. eapply wp_seq; [|by intros].
  apply wp_authorize_each; [by eapply seen_mono| |apply cap_ttl_le].
  eapply matching_pinned; [by apply Hsub|done..|].
  intros a. unfold m. destruct (_ <? _); [|done].
  apply take_elem.
Qed.

Lemma wp_resolve_and_validate (H : history) (qname : N) (qtype : DnsRecordType) :
  wp H (resolve_and_validate b qname qtype) anything.
Proof.
  unfold resolve_and_validate. cbn [bind perform wp require]. split; [exact I|].
  intros H1 s Hs1 Hseen. cbn [ensure] in Hseen.
  destruct (normalize_domain (name_to_utf8 qname)) as [name|] eqn:En; [|exact I].
  destruct (check_structure (b_guard b) name) as [[]|] eqn:Ec; [|wp_skip; exact I].
  destruct (evaluate_domain_name s name) as [[]|] eqn:Ee; [|exact I..].
  cbn [bind perform wp require]. split; [exact I|]. intros H2 adm Hs2 Hadm. cbn [ensure] in Hadm.
  destruct adm as [[]|limit]; [|wp_skip; exact I].
  cbn [bind perform wp require]. split.
  { exists s, name. split_and!; try done; [by eapply seen_mono|by left]. }
  intros H3 reply Hs3 Hr. cbn [ensure] in Hr.
  destruct reply as [chain|error|]; [|wp_skip; exact I..].
  apply wp_validate_reply; try done. eapply seen_mono; [|exact Hseen]. by etrans.
Qed.

Lemma wp_handle_message (H : history) (bytes : list Z) : wp H (handle_message b bytes) anything.
Proof.
  unfold handle_message. destruct (message_from_vec bytes) as [request|]; [|wp_skip; exact I].
  destruct (_ || _); [exact I|].
  destruct (m_queries request) as [|query [|]]; [exact I| |exact I].
  destruct (record_type_of (q_type query)) as [qtype|]; [|wp_skip; exact I].
  destruct (record_type_allowed _ _); [|wp_skip; exact I].
  eapply wp_seq; [apply wp_resolve_and_validate|]. intros H1 o _ _.
  destruct o; wp_skip; exact I.
Qed.

Lemma wp_udp_task (H : history) (max : Z) (datagram : list Z) :
  wp H (udp_task b max datagram) anything.
Proof.
  unfold udp_task. destruct (_ <? _); [exact I|].
  eapply wp_seq; [apply wp_handle_message|]. intros H1 [r|] _ _; [wp_skip|]; exact I.
Qed.

Lemma wp_tcp_connection (H : history) (max : Z) (client : list Z) :
  wp H (handle_tcp_connection b max client) anything.
Proof.
  unfold handle_tcp_connection. destruct (read_exact 2 client) as [[len rest]|]; [|exact I].
  destruct (_ || _); [exact I|]. destruct (read_exact _ rest) as [[msg ?]|]; [|exact I].
  eapply wp_seq; [apply wp_handle_message|]. intros H1 [r|] _ _; [wp_skip|exact I].
  destruct x; [wp_skip|]; exact I.
Qed.

(** ** The CONNECT broker *)

Lemma wp_authorize_pairs (H : history) (name : list Z) (s : PolicySnapshot ipnet)
    (l : list (ip_addr * Z)) :
  seen H s → Forall (λ x, pinned H s name x.1) l →
  wp H (authorize_pairs b name (revision s) l) anything.
Proof.
  intros Hs Hl. revert H Hs Hl. induction l as [|[ip ttl] l IH]; intros H Hs Hl; [exact I|].
  apply Forall_cons in Hl as [Ha Hl]. cbn. split.
  - split; [by exists s|apply cap_ttl_le].
  - intros H' x Hsub _. apply IH; [by eapply seen_mono|].
    eapply Forall_impl; [exact Hl|]. intros. by eapply pinned_mono.
Qed.

Lemma limit_validated_elem (l : list (ip_addr * Z)) (x : ip_addr * Z) :
  x ∈ limit_validated b l → x ∈ l.
Proof.
  unfold limit_validated. intros Hi%take_elem%elem_of_dedup_by.
  by apply elem_of_sort_by in Hi.
Qed.

Lemma validated_pinned (H : history) (s : PolicySnapshot ipnet) (qname : N) (name : list Z)
    (chain : ResolvedChain N) :
  HAnswer qname chain ∈ H → asks qname name → evaluate_domain_name s name = Ok true →
  hops_allowed s chain →
  Forall (λ x, pinned H s name x.1)
    (limit_validated b (validated_addresses b s (addresses chain))).
Proof.
  intros Ha Hn He Hh. apply Forall_forall. intros [ip ttl] Hin%limit_validated_elem.
  unfold validated_addresses in Hin. apply list_elem_of_omap in Hin as (a & Hin & E).
  destruct (negb (record_type_allowed _ _)); [done|].
  destruct (allowed (address_permitted s (canonicalize (ra_ip a)))) eqn:Ep; simplify_eq/=.
  exists qname, chain. split_and!; [done..|by exists a| |done].
  by apply address_permitted_spec.
Qed.

Lemma hops_forallb (s : PolicySnapshot ipnet) (chain : ResolvedChain N) :
  forallb (λ hop, match evaluate_domain_name s (name_to_utf8 hop) with
                  | Ok true => true | _ => false end) (names_to_validate chain) = true →
  hops_allowed s chain.
Proof.
  intros Hf. apply Forall_forall. intros hop Hh. rewrite forallb_forall in Hf.
  specialize (Hf hop). rewrite <-list_elem_of_In in Hf. specialize (Hf Hh). simpl in Hf.
  by destruct (evaluate_domain_name s (name_to_utf8 hop)) as [[]|].
Qed.

(** All candidates are pinned addresses of the name. *)
Definition candidates_ok (s : PolicySnapshot ipnet) (name : list Z) (H : history)
    (r : result ConnectFailure (list ip_addr)) : Prop :=
  match r with
  | Ok candidates => ∀ ip, ip ∈ candidates → pinned H s name ip
  | Err _ => True
  end.

Lemma wp_accept_resolution (H : history) (s : PolicySnapshot ipnet) (qname : N)
    (name : list Z) (candidates : list ip_addr) (chain : ResolvedChain N) :
  seen H s → HAnswer qname chain ∈ H → asks qname name → evaluate_domain_name s name = Ok true →
  (∀ ip, ip ∈ candidates → pinned H s name ip) →
  wp H (accept_resolution b s name candidates chain) (candidates_ok s name).
Proof.
  intros Hs Ha Hq He Hc. unfold accept_resolution.
  destruct (negb (forallb _ _)) eqn:Ef; [exact I|].
  apply negb_false_iff, hops_forallb in Ef. cbv zeta.
  set (v := limit_validated _ _). wp_skip. destruct (negb x); [exact I|].
  assert (Forall (λ x, pinned H0 s name x.1) v) as Hv
    by (eapply validated_pinned; try done; by apply Hs0).
  eapply wp_seq; [apply wp_authorize_pairs; [by eapply seen_mono|exact Hv]|].
  intros H2 _ Hs2 _. cbn. intros ip Hip%elem_of_dedup_by.
  apply elem_of_sort_by, elem_of_app in Hip as [Hip|Hip].
  - eapply pinned_mono; [|by apply Hc]. by etrans.
  - apply list_elem_of_fmap in Hip as (x' & -> & Hx).
    rewrite Forall_forall in Hv. eapply pinned_mono; [exact Hs2|]. by apply Hv.
Qed.

Lemma wp_fresh_resolve (H : history) (s : PolicySnapshot ipnet) (name : list Z)
    (candidates : list ip_addr) :
  seen H s → evaluate_domain_name s name = Ok true →
  check_structure (b_guard b) name = Ok tt →
  (∀ ip, ip ∈ candidates → pinned H s name ip) →
  wp H (fresh_resolve b s name candidates) (candidates_ok s name).
Proof.
  intros Hs He Hst Hc. unfold fresh_resolve. cbn [bind perform wp require].
  split; [exact I|]. intros H1 adm Hs1 Hadm. cbn [ensure] in Hadm.
  destruct adm as [[]|limit]; [|wp_skip; exact I].
  destruct (name_from_ascii (name ++ [ch_dot])) as [qname|] eqn:Eq; [|exact I].
  cbn [bind perform wp require]. split.
  { exists s, name. split_and!; try done; [by eapply seen_mono|by right]. }
  intros H2 reply Hs2 Hr. cbn [ensure] in Hr.
  assert (∀ failure, wp H2
    (do! perform (ORecord (DnsResolutionFailed name "connect" failure)) in
     if (length candidates =? 0)%nat
     then Ret (Err {| cf_status := ResolutionFailed; cf_resolution := Some failure |})
     else Ret (Ok candidates)) (candidates_ok s name)) as Hfail.
  { intros failure. wp_skip. destruct (_ =? _)%nat; [exact I|]. intros ip Hip.
    eapply pinned_mono; [|by apply Hc]. repeat (etrans; [eassumption|]). done. }
  destruct reply as [chain|error|]; [|apply Hfail..].
  apply (wp_accept_resolution H2 s qname); try done.
  - eapply seen_mono; [|exact Hs]. by etrans.
  - by right.
  - intros ip Hip. eapply pinned_mono; [|by apply Hc]. by etrans.
Qed.

Definition pin_ok (s : PolicySnapshot ipnet) (host : list Z) (H : history)
    (r : result ConnectFailure (list Z * ip_addr)) : Prop :=
  match r with
  | Ok (name, ip) => normalize_domain host = Ok name ∧ pinned H s name ip
  | Err _ => True
  end.

Lemma pin_pinned (s : PolicySnapshot ipnet) (host name : list Z) (H : history)
    (expected : option ip_addr) (candidates : list ip_addr) :
  normalize_domain host = Ok name → (∀ ip, ip ∈ candidates → pinned H s name ip) →
  pin_ok s host H (pin name expected candidates).
Proof.
  intros Hn Hc. unfold pin. destruct candidates as [|first r]; [exact I|].
  destruct expected as [e|].
  - case_bool_decide as Hin; [|exact I]. split; [done|]. by apply Hc.
  - split; [done|]. apply Hc. set_solver.
Qed.

Lemma wp_resolve_pinned (H : history) (s : PolicySnapshot ipnet) (host : list Z)
    (expected : option ip_addr) :
  seen H s → wp H (resolve_pinned b s host expected) (pin_ok s host).
Proof.
  intros Hs. unfold resolve_pinned.
  destruct (normalize_domain host) as [name|] eqn:En; [|exact I].
  destruct (check_structure (b_guard b) name) as [[]|] eqn:Ec; [|wp_skip; exact I].
  destruct (evaluate_domain_name s name) as [[]|] eqn:Ee; [|exact I..].
  cbn [bind perform wp require]. split; [exact I|]. intros H1 candidates Hs1 Hc.
  cbn [ensure] in Hc.
  assert (seen H1 s) as Hseen by (by eapply seen_mono).
  assert (∀ ip, ip ∈ candidates → pinned H1 s name ip) as Hcand by (intros; by apply Hc).
  cbv zeta. destruct (_ || _); [|by apply pin_pinned].
  destruct (negb (e_allow_dns _)).
  { destruct (_ =? _)%nat; [exact I|by apply pin_pinned]. }
  eapply wp_seq; [by apply wp_fresh_resolve|]. intros H2 [cs|f] Hs2 Hok; [|exact I].
  by apply pin_pinned.
Qed.

Lemma wp_decide_and_dial (H : history) (s : PolicySnapshot ipnet) (target : ConnectTarget)
    (port : Z) (ip : ip_addr) (name : option (list Z)) :
  seen H s →
  match name with
  | Some name => ∃ host, HHostFree host port ∈ H ∧ normalize_domain host = Ok name ∧
                         pinned H s name ip
  | None => HIpFree ip port ∈ H
  end →
  wp H (decide_and_dial s target port ip name) anything.
Proof.
  intros Hs Hn. unfold decide_and_dial. cbv zeta.
  destruct (negb (allowed _)) eqn:Ea; [exact I|]. apply negb_false_iff in Ea.
  wp_skip. destruct (negb x); [exact I|]. cbn [bind perform wp require]. split.
  { eapply dial_ok_mono; [exact Hs0|]. exists s. split; [done|].
    destruct name as [name|]; [right|left; done].
    destruct Hn as (host & ? & ? & ?). by exists host, name. }
  intros H1 dialed Hs1 _. destruct dialed; wp_skip; [|exact I]. by destruct x0.
Qed.

Lemma wp_authorize_and_dial (H : history) (target : ConnectTarget) (port : Z)
    (expected : option ip_addr) :
  wp H (authorize_and_dial b target port expected) anything.
Proof.
  unfold authorize_and_dial. cbn [bind perform wp require]. split; [exact I|].
  intros H1 s Hs1 Hseen. cbn [ensure] in Hseen. destruct target as [host|ip].
  - cbn [bind perform wp require]. split; [exact I|]. intros H2 r Hs2 Hr. cbn [ensure] in Hr.
    destruct r as [[]|]; [exact I| |exact I].
    eapply wp_seq; [apply wp_resolve_pinned; by eapply seen_mono|].
    intros H3 [[name ip]|f] Hs3 Hp; [|exact I]. destruct Hp as [Hn Hp].
    apply wp_decide_and_dial; [eapply seen_mono; [|exact Hseen]; by etrans|].
    exists host. split; [by apply Hs3|done].
  - cbn [bind perform wp require]. split; [exact I|]. intros H2 r Hs2 Hr. cbn [ensure] in Hr.
    destruct r; [exact I|]. match goal with |- wp _ (if ?c then _ else _) _ => destruct c end; [exact I|].
    apply wp_decide_and_dial; [by eapply seen_mono|]. by apply Hr.
Qed.

Lemma wp_handle_custom (H : history) (handshake : option (list Z)) :
  wp H (handle_custom b handshake) anything.
Proof.
  unfold handle_custom. destruct handshake as [client|]; [|do 2 wp_skip; exact I].
  destruct (decode_request client) as [[request rest]|]; [|do 2 wp_skip; exact I].
  cbv zeta. destruct (negb _); [do 2 wp_skip; exact I|].
  eapply wp_seq; [apply wp_authorize_and_dial|]. intros H1 [dial|failure] _ _.
  - wp_skip. destruct (negb x); [exact I|]. do 2 wp_skip. exact I.
  - do 2 wp_skip. exact I.
Qed.

Lemma wp_handle_socks5 (H : history) (client : list Z) (t1 t2 : bool) :
  wp H (handle_socks5 b client t1 t2) anything.
Proof.
  unfold handle_socks5. destruct (negb t1); [wp_skip; exact I|].
  eapply (wp_seq _ _ _ anything).
  { unfold negotiate_client. destruct (negotiate client) as [[o r] rest].
    destruct r; [exact I|wp_skip; exact I]. }
  intros H1 [ok rest] _ _. cbn [fst snd]. destruct (negb ok); [wp_skip; exact I|].
  destruct (negb t2); [do 2 wp_skip; exact I|].
  destruct (read_request rest) as [[request rest']|[]]; try (do 2 wp_skip; exact I).
  cbv zeta. destruct (negb _); [do 2 wp_skip; exact I|].
  eapply wp_seq; [apply wp_authorize_and_dial|]. intros H2 [dial|failure] _ _.
  - wp_skip. destruct (negb x); [exact I|]. do 2 wp_skip. exact I.
  - do 2 wp_skip. exact I.
Qed.

Lemma wp_handle_http (H : history) (handshake : option (list (list Z))) :
  wp H (handle_http b failure_json handshake) anything.
Proof.
  unfold handle_http. destruct handshake as [chunks|]; [|do 2 wp_skip; exact I].
  destruct (read_http_request chunks) as [request|]; [|do 2 wp_skip; exact I].
  cbv zeta. eapply wp_seq; [apply wp_authorize_and_dial|]. intros H1 [dial|failure] _ _.
  - do 2 wp_skip. destruct (negb x0); [exact I|]. wp_skip.
    destruct (negb x1); [exact I|]. wp_skip. exact I.
  - wp_skip. destruct (cf_resolution failure); [|wp_skip; exact I].
    wp_skip. destruct (negb x0); [exact I|]. wp_skip. exact I.
Qed.

(** ** The transition system *)

Inductive kind : Type := KDns | KConnect.

#[global] Instance kind_eq_dec : EqDecision kind.
Proof. solve_decision. Defined.

(** The programs the listeners spawn. *)
Inductive task : kind → prog unit → Prop :=
| task_udp max datagram : task KDns (udp_task b max datagram)
| task_tcp max client : task KDns (handle_tcp_connection b max client)
| task_custom handshake : task KConnect (handle_custom b handshake)
| task_socks5 client t1 t2 : task KConnect (handle_socks5 b client t1 t2)
| task_http handshake : task KConnect (handle_http b failure_json handshake).

Record Sys : Type := {
  s_now : Z;
  s_world : World ipnet C;
  s_hist : history;
  s_pool : list (kind * prog unit);
}.

Definition with_world (s : Sys) (w : World ipnet C) : Sys :=
  {| s_now := s_now s; s_world := w; s_hist := s_hist s; s_pool := s_pool s |}.
Definition with_pool (s : Sys) (pool : list (kind * prog unit)) : Sys :=
  {| s_now := s_now s; s_world := s_world s; s_hist := s_hist s; s_pool := pool |}.

Definition running (k : kind) (s : Sys) : Z :=
  Z.of_nat (length (filter (λ t, t.1 = k) (s_pool s))).

(** The semaphores: the DNS in-flight cap and the connection cap. *)
Variable max_concurrent_queries : Z.

Definition permits (k : kind) : Z :=
  match k with
  | KDns => max_concurrent_queries
  | KConnect => e_max_concurrent_connections (b_policy b)
  end.

Inductive step : Sys → Sys → Prop :=
| step_tick s t :
    s_now s ≤ t →
    step s {| s_now := t; s_world := s_world s; s_hist := s_hist s; s_pool := s_pool s |}
| step_spawn s k p :
    task k p → running k s < permits k → step s (with_pool s (s_pool s ++ [(k, p)]))
| step_op s before k X (o : op X) (c : X → prog unit) after (a : answer X o) x w :
    s_pool s = before ++ (k, Vis o c) :: after →
    exec b (s_now s) o a (s_world s) = (x, w) →
    step s {| s_now := s_now s; s_world := w; s_hist := s_hist s ++ hist_of o x;
              s_pool := before ++ (k, c x) :: after |}
| step_end s before k p after :                       (* finished or cancelled *)
    s_pool s = before ++ (k, p) :: after → step s (with_pool s (before ++ after))
| step_refresh_begin s m etag :
    refresh_begin (w_meta (s_world s)) = Ok (m, etag) →
    step s (with_world s (set_meta (s_world s) m))
| step_refresh_finish s unix publish fetched :
    refresh_held (w_meta (s_world s)) = true →
    step s (with_world s (set_meta (s_world s)
      (ro_meta (refresh_finish from_slice sha256_hex (s_now s) unix publish
                  (w_meta (s_world s)) fetched))))
| step_meta_clear s :
    step s (with_world s (set_meta (s_world s) (meta_clear (w_meta (s_world s)))))
| step_reserve s host port aliases ips r :
    reserve_resolution host port aliases ips (w_reservations (s_world s)) = Ok r →
    step s (with_world s (set_reservations (s_world s) r))
| step_cache_clear s :
    step s (with_world s (set_cache (s_world s) (store_clear (w_cache (s_world s))))).

(** A gateway that has just started, with an empty store. *)
Definition initial (s : Sys) : Prop :=
  s_hist s = [] ∧ s_pool s = [] ∧ w_meta (s_world s) = GitHubMeta_default ∧
  w_window (s_world s) = window_empty ∧
  ∀ name ip rev exp, ¬ store_entry (w_cache (s_world s)) name ip rev exp.

Inductive reachable : Sys → Prop :=
| reach_initial s : initial s → reachable s
| reach_step s s' : reachable s → step s s' → reachable s'.

(** A program run alone, with the history it leaves. *)
Fixpoint run_hist {A : Type} (out : Outside N) (now : Z) (p : prog A) (w : World ipnet C)
  : A * World ipnet C * history :=
  match p with
  | Ret a => (a, w, [])
  | Vis o k =>
      let '(x, w) := exec b now o (consult out o).1 w in
      let '(a, w, H) := run_hist out now (k x) w in
      (a, w, hist_of o x ++ H)
  end.

(** The state after the last task of the pool has run alone. *)
Definition run_last (out : Outside N) (s : Sys) (k : kind) (p : prog unit) : Sys :=
  let '(a, w, H) := run_hist out (s_now s) p (s_world s) in
  {| s_now := s_now s; s_world := w; s_hist := s_hist s ++ H;
     s_pool := s_pool s ++ [(k, Ret a)] |}.

(** ** The invariant *)

(** One revision, one scope; the current revision's scope is the stored one. *)
Definition views_ok (H : history) (m : State ipnet) : Prop :=
  0 ≤ st_revision m ∧
  (∀ snap, st_snapshot m = Some snap → 0 < st_revision m) ∧
  (∀ r sc, HView r sc ∈ H →
     (r = 0 ∧ sc = None) ∨
     (0 < r ≤ st_revision m ∧ ∃ scope, sc = Some scope ∧
        (r = st_revision m → ∀ snap, st_snapshot m = Some snap → snap_scope snap = scope))) ∧
  (∀ r sc sc', HView r sc ∈ H → HView r sc' ∈ H → sc = sc').

Definition store_ok (now : Z) (H : history) (c : C) : Prop :=
  ∀ name ip rev exp, store_entry c name ip rev exp →
    justified H name ip rev ∧ exp ≤ now + max_ttl.

(** Every dial and every query was justified by what came before it. *)
Definition hist_ok (H : history) : Prop :=
  (∀ H1 H2 ip port, H = H1 ++ HDial ip port :: H2 → dial_ok H1 ip port) ∧
  (∀ H1 H2 qname, H = H1 ++ HQuery qname :: H2 → query_ok H1 qname).

Record inv (s : Sys) : Prop := {
  inv_views : views_ok (s_hist s) (gm_state (w_meta (s_world s)));
  inv_store : store_ok (s_now s) (s_hist s) (w_cache (s_world s));
  inv_hist : hist_ok (s_hist s);
  inv_pool : Forall (λ t, wp (s_hist s) t.2 anything) (s_pool s);
}.

Lemma view_cases (now : Z) (m : GitHubMeta ipnet) (e : PolicyEngine ipnet) :
  let s := snapshot e now m in
  engine s = e ∧
  ((revision s = 0 ∧ github_scope s = None) ∨
   ∃ snap, st_snapshot (gm_state m) = Some snap ∧ revision s = st_revision (gm_state m) ∧
           github_scope s = Some (snap_scope snap)).
Proof.
  unfold snapshot, view, view_state. destruct (e_github_meta e); simpl; [|auto].
  destruct (st_snapshot (gm_state m)) as [snap|]; [|simpl; auto].
  destruct (snapshot_active now snap); simpl; [|auto]. split; [done|]. right. eauto.
Qed.

Lemma views_ok_snapshot (H : history) (now : Z) (m : GitHubMeta ipnet) :
  views_ok H (gm_state m) →
  let s := snapshot (b_policy b) now m in
  views_ok (H ++ [HView (revision s) (github_scope s)]) (gm_state m).
Proof.
  intros (H0 & Hpos & Hv & Hf). cbv zeta.
  destruct (view_cases now m (b_policy b)) as [_ Hc].
  set (s := snapshot (b_policy b) now m) in *.
  assert (∀ r sc, HView r sc ∈ H ++ [HView (revision s) (github_scope s)] →
    HView r sc ∈ H ∨ (r = revision s ∧ sc = github_scope s)) as Hin.
  { intros r sc [?|[= -> ->]%list_elem_of_singleton]%elem_of_app; auto. }
  assert (∀ sc, HView (revision s) sc ∈ H → sc = github_scope s) as Hnew.
  { intros sc Hsc. destruct (Hv _ _ Hsc) as [[Hr ->]|(Hr & scope & -> & Hcur)].
    - destruct Hc as [[_ ->]|(snap & Hs & Hrev & _)]; [done|].
      specialize (Hpos snap Hs). lia.
    - destruct Hc as [[? _]|(snap & Hs & Hrev & ->)]; [lia|].
      by rewrite (Hcur Hrev snap Hs). }
  split_and!; [done..| |].
  - intros r sc [?|[-> ->]]%Hin; [by apply Hv|].
    destruct Hc as [[-> ->]|(snap & Hs & -> & ->)]; [by left|right].
    split; [split; [by eapply Hpos|done]|]. exists (snap_scope snap). split; [done|].
    intros _ snap' Hs'. by simplify_eq.
  - intros r sc sc' H1%Hin H2%Hin. destruct H1 as [H1|[-> ->]], H2 as [H2|[? ->]]; subst;
      eauto. symmetry. eauto.
Qed.

(** Events that are not views do not matter to [views_ok]. *)
Definition no_view (H : history) : Prop := ∀ r sc, HView r sc ∉ H.

Lemma views_ok_app (H H' : history) (m : State ipnet) :
  no_view H' → views_ok H m → views_ok (H ++ H') m.
Proof.
  intros Hn (? & ? & Hv & Hf). unfold no_view in Hn.
  assert (∀ r sc, HView r sc ∈ H ++ H' → HView r sc ∈ H) as Hin.
  { intros r sc [?|?]%elem_of_app; [done|]. by destruct (Hn r sc). }
  split_and!; [done..| |]; eauto.
Qed.

(** A state change that keeps the revision, and keeps or drops the snapshot. *)
Lemma views_ok_drop (H : history) (m m' : State ipnet) :
  st_revision m' = st_revision m →
  (st_snapshot m' = st_snapshot m ∨ st_snapshot m' = None) →
  views_ok H m → views_ok H m'.
Proof.
  intros Hr Hs (H0 & Hpos & Hv & Hf).
  assert (∀ snap, st_snapshot m' = Some snap → st_snapshot m = Some snap) as Hsub.
  { intros snap Hsnap. destruct Hs; congruence. }
  unfold views_ok. rewrite Hr. split_and!; [done|eauto| |done].
  intros r sc Hin. destruct (Hv r sc Hin) as [?|(? & scope & ? & Hcur)]; [by left|right].
  split; [done|]. exists scope. split; [done|]. eauto.
Qed.

Lemma views_ok_next (H : history) (m m' : State ipnet) :
  st_revision m' = st_revision m + 1 → views_ok H m → views_ok H m'.
Proof.
  intros Hr (H0 & Hpos & Hv & Hf). unfold views_ok. rewrite Hr.
  split_and!; [lia|intros; lia| |done].
  intros r sc Hin. destruct (Hv r sc Hin) as [?|(? & scope & ? & _)]; [by left|right].
  split; [lia|]. exists scope. split; [done|]. lia.
Qed.

Lemma refresh_finish_views (H : history) (now : Z) (unix : option Z)
    (publish : GitHubMetaStatus ipnet → bool) (m : GitHubMeta ipnet)
    (fetched : result GitHubMetaError GitHubMetaResponse) :
  views_ok H (gm_state m) →
  views_ok H (gm_state (ro_meta
    (refresh_finish from_slice sha256_hex now unix publish m fetched))).
Proof.
  intros Hv. unfold refresh_finish.
  destruct (match fetched with Ok r => _ | Err err => Err err end) as [cand|e] eqn:E.
  - destruct fetched as [response|]; [|done].
    apply prepare_response_ok in E as (snap & _ & _ & Hr & _).
    destruct (publish _); simpl; [by eapply views_ok_next|].
    eapply views_ok_drop; [| |exact Hv]; [done|by right].
  - destruct (publish _); simpl; (eapply views_ok_drop; [| |exact Hv]);
      destruct unix; simpl; auto.
Qed.

Lemma justified_seen (H : history) (m : State ipnet) (s : PolicySnapshot ipnet)
    (name : list Z) (ip : ip_addr) :
  views_ok H m → seen H s → justified H name ip (revision s) → pinned H s name ip.
Proof.
  intros (_ & _ & _ & Hf) [He Hs] (s' & [He' Hs'] & Hr & Hp).
  destruct s as [e sc r], s' as [e' sc' r']; simpl in *. subst.
  by rewrite (Hf r sc sc' Hs Hs').
Qed.

Lemma store_ok_mono (now now' : Z) (H H' : history) (c : C) :
  now ≤ now' → H ⊆ H' → store_ok now H c → store_ok now' H' c.
Proof.
  intros Hn Hs Hc name ip rev exp He. destruct (Hc _ _ _ _ He) as [? ?].
  split; [by eapply justified_mono|lia].
Qed.

(** What one operation does, given the invariant. *)
Lemma exec_sound (s : Sys) {X : Type} (o : op X) (a : answer X o) (x : X) (w : World ipnet C) :
  inv s → require (s_hist s) o → exec b (s_now s) o a (s_world s) = (x, w) →
  let H' := s_hist s ++ hist_of o x in
  views_ok H' (gm_state (w_meta w)) ∧ store_ok (s_now s) H' (w_cache w) ∧ ensure H' o x.
Proof.
  intros [Hv Hst _ _] Hreq Hex. cbv zeta.
  assert (∀ H', s_hist s ⊆ s_hist s ++ H') as Hsub by (intros; set_solver).
  pose proof (λ H', store_ok_mono (s_now s) (s_now s) (s_hist s) _ (w_cache (s_world s))
    (Z.le_refl _) (Hsub H') Hst) as Hst'.
  destruct o; cbn [exec] in Hex.
  - injection Hex as <- <-. split_and!; [by apply views_ok_snapshot|apply Hst'|].
    cbn [ensure hist_of]. split; [apply view_cases|set_solver].
  - injection Hex as <- <-. cbn. rewrite app_nil_r. done.
  - destruct (admit_query _ _ _ _) as [r win]. injection Hex as <- <-.
    split_and!; [|apply Hst'|].
    + apply views_ok_app; [|done]. destruct r; intros ? ? ?; set_solver.
    + destruct r; cbn; [set_solver|done].
  - destruct (store_addresses _ _ _ _) as [ips c] eqn:Ea. injection Hex as <- <-.
    cbn [hist_of ensure w_meta w_cache set_cache]. rewrite app_nil_r. split_and!; [done| |].
    + intros n i r e He. apply (Hst n i r e).
      apply (store_addresses_entry (s_now s) name rev). by rewrite Ea.
    + intros ip sn Hip Hseen Hrev. subst rev. eapply justified_seen; [exact Hv|done|].
      destruct (store_addresses_sound (s_now s) name (revision sn) (w_cache (s_world s)) ip)
        as (exp & _ & He); [by rewrite Ea|]. by apply (Hst _ _ _ _ He).
  - injection Hex as <- <-. cbn [hist_of ensure w_meta w_cache set_cache]. rewrite app_nil_r.
    split_and!; [done| |done]. destruct Hreq as [Hj Ht].
    intros n i r e He. apply store_authorize_entry in He as [(-> & -> & -> & ->)|He];
      [split; [done|lia]|by apply Hst].
  - injection Hex as <- <-. split_and!; [|apply Hst'|].
    + apply views_ok_app; [|done]. cbn. destruct_match; [destruct_match|];
        intros ? ? ?; set_solver.
    + cbn. destruct_match; [destruct_match|]; set_solver.
  - injection Hex as <- <-. split_and!; [|apply Hst'|].
    + apply views_ok_app; [|done]. cbn. destruct_match; intros ? ? ?; set_solver.
    + cbn. intros ->. set_solver.
  - injection Hex as <- <-. cbn. rewrite app_nil_r. done.
  - injection Hex as <- <-. split_and!; [|apply Hst'|].
    + apply views_ok_app; [|done]. cbn. destruct_match; intros ? ? ?; set_solver.
    + cbn. destruct_match; set_solver.
  - injection Hex as <- <-. split_and!; [|apply Hst'|done].
    apply views_ok_app; [|done]. cbn. intros ? ? ?. set_solver.
  - injection Hex as <- <-. cbn. rewrite app_nil_r. done.
  - injection Hex as <- <-. cbn. rewrite app_nil_r. done.
Qed.

Lemma app_event (H H1 H2 L : history) (e : hevent) :
  H ++ L = H1 ++ e :: H2 →
  (∃ H2', H = H1 ++ e :: H2') ∨ (∃ L1, L = L1 ++ e :: H2 ∧ H1 = H ++ L1).
Proof.
  intros E. apply app_eq_inv in E as [(K & -> & E)|(K & -> & ->)].
  - destruct K as [|e' K]; simpl in E.
    + right. exists []. by rewrite !app_nil_r.
    + left. injection E as <- ->. eauto.
  - right. eauto.
Qed.

(** An operation leaves at most one dial or query, and it is the first event. *)
Lemma hist_of_dial {X : Type} (o : op X) (x : X) (L1 H2 : history) (ip : ip_addr) (port : Z) :
  hist_of o x = L1 ++ HDial ip port :: H2 → L1 = [] ∧ ∀ H, require H o → dial_ok H ip port.
Proof.
  destruct o; cbn [hist_of]; repeat destruct_match; destruct L1 as [|? [|? L1]]; simpl;
    intros E; simplify_eq; try (by split; [|intros]); by destruct L1.
Qed.

Lemma hist_of_query {X : Type} (o : op X) (x : X) (L1 H2 : history) (qname : N) :
  hist_of o x = L1 ++ HQuery qname :: H2 → L1 = [] ∧ ∀ H, require H o → query_ok H qname.
Proof.
  destruct o; cbn [hist_of]; repeat destruct_match; destruct L1 as [|? [|? L1]]; simpl;
    intros E; simplify_eq; try (by split; [|intros]); by destruct L1.
Qed.

Lemma hist_ok_op (H : history) {X : Type} (o : op X) (x : X) :
  hist_ok H → require H o → hist_ok (H ++ hist_of o x).
Proof.
  intros [Hd Hq] Hr. split.
  - intros H1 H2 ip port [(H2' & E)|(L1 & E & ->)]%app_event; [by eapply Hd|].
    apply hist_of_dial in E as [-> E]. rewrite app_nil_r. by apply E.
  - intros H1 H2 qname [(H2' & E)|(L1 & E & ->)]%app_event; [by eapply Hq|].
    apply hist_of_query in E as [-> E]. rewrite app_nil_r. by apply E.
Qed.

Lemma task_wp (H : history) (k : kind) (p : prog unit) : task k p → wp H p anything.
Proof.
  destruct 1; [apply wp_udp_task|apply wp_tcp_connection|apply wp_handle_custom|
               apply wp_handle_socks5|apply wp_handle_http].
Qed.

Lemma inv_initial (s : Sys) : initial s → inv s.
Proof.
  intros (Hh & Hp & Hm & _ & Hc). split; rewrite ?Hh, ?Hp, ?Hm.
  - unfold views_ok. simpl. split_and!; [lia|done| |]; set_solver.
  - intros name ip rev exp He. by apply Hc in He.
  - split; intros [|] ? *; discriminate.
  - constructor.
Qed.

Lemma inv_op (s : Sys) (before : list (kind * prog unit)) (k : kind) (X : Type) (o : op X)
    (c : X → prog unit) (after : list (kind * prog unit)) (a : answer X o) (x : X)
    (w : World ipnet C) :
  s_pool s = before ++ (k, Vis o c) :: after →
  exec b (s_now s) o a (s_world s) = (x, w) → inv s →
  inv {| s_now := s_now s; s_world := w; s_hist := s_hist s ++ hist_of o x;
         s_pool := before ++ (k, c x) :: after |}.
Proof.
  intros Hpool Hex Hinv. pose proof (inv_pool s Hinv) as Hp. rewrite Hpool in Hp.
  apply Forall_app in Hp as [Hb Ha]. apply Forall_cons in Ha as [[Hreq Hk] Ha].
  destruct (exec_sound s o a x w Hinv Hreq Hex) as (Hv & Hst & Hens).
  assert (s_hist s ⊆ s_hist s ++ hist_of o x) as Hsub by set_solver.
  split; cbn [s_now s_world s_hist s_pool]; [done|done|by apply hist_ok_op; [apply Hinv|]|].
  apply Forall_app. split; [|apply Forall_cons; split].
  - eapply Forall_impl; [exact Hb|]. intros t Ht. by eapply wp_hist_mono.
  - by apply Hk.
  - eapply Forall_impl; [exact Ha|]. intros t Ht. by eapply wp_hist_mono.
Qed.

Lemma inv_step (s s' : Sys) : inv s → step s s' → inv s'.
Proof.
  intros Hinv Hstep. pose proof Hinv as [Hv Hst Hh Hp].
  destruct Hstep as [s t Ht|s k p Htask Hperm|s before k X o c after a x w Hpool Hex
    |s before k p after Hpool|s m etag Hbegin|s unix publish fetched Hheld|s
    |s host port aliases ips r Hres|s].
  - split; [done| |done|done]. by eapply store_ok_mono.
  - split; [done..|]. apply Forall_app. split; [done|]. apply Forall_singleton.
    by eapply task_wp.
  - by eapply inv_op.
  - split; [done..|]. rewrite Hpool in Hp. apply Forall_app in Hp as [? Hp].
    apply Forall_cons in Hp as [_ ?]. by apply Forall_app.
  - split; [|done..]. unfold refresh_begin in Hbegin.
    destruct (refresh_held _); [done|]. by injection Hbegin as <- _.
  - split; [|done..]. by apply refresh_finish_views.
  - split; [|done..]. eapply views_ok_drop; [| |exact Hv]; [done|by right].
  - by split.
  - split; [done| |done..]. intros name ip rev exp He. by apply store_clear_entry in He.
Qed.

Lemma inv_reachable (s : Sys) : reachable s → inv s.
Proof. induction 1; [by apply inv_initial | by eapply inv_step]. Qed.

(** A solo run is an execution of the system. *)
Lemma run_reachable (out : Outside N) (s : Sys) (k : kind) (p : prog unit) :
  reachable (with_pool s (s_pool s ++ [(k, p)])) → reachable (run_last out s k p).
Proof.
  unfold run_last. revert s. induction p as [a|X o c IH]; intros s Hr; cbn [run_hist].
  { rewrite app_nil_r. by destruct s. }
  destruct (exec b (s_now s) o (consult out o).1 (s_world s)) as [x w] eqn:E.
  specialize (IH x {| s_now := s_now s; s_world := w; s_hist := s_hist s ++ hist_of o x;
                      s_pool := s_pool s |}). cbn [s_now s_world s_hist s_pool] in IH.
  destruct (run_hist out (s_now s) (c x) w) as [[a w'] H]. rewrite app_assoc. apply IH.
  eapply reach_step; [exact Hr|].
  by apply (step_op (with_pool s (s_pool s ++ [(k, Vis o c)])) (s_pool s) k X o c []
              (consult out o).1 x w).
Qed.

(** The budget window is within its limits in every reachable state. *)
Lemma window_step (s s' : Sys) :
  guard_ok (b_guard b) → step s s' → window_ok (b_guard b) (w_window (s_world s)) →
  window_ok (b_guard b) (w_window (s_world s')).
Proof.
  intros Hg [] Hw; try done. destruct o; cbn [exec] in *;
    try (match goal with E : (_, _) = (_, _) |- _ => injection E as <- <-; done end).
  - pose proof (admit_query_ok _ Hg (s_now s0) name (w_window (s_world s0)) Hw) as Hw'.
    destruct (admit_query _ _ _ _). match goal with E : (_, _) = (_, _) |- _ =>
      injection E as <- <- end. done.
  - destruct (store_addresses _ _ _ _). match goal with E : (_, _) = (_, _) |- _ =>
      injection E as <- <- end. done.
Qed.

Lemma running_insert (k k' : kind) (before after : list (kind * prog unit)) (p : prog unit) :
  length (filter (λ t, t.1 = k) (before ++ (k', p) :: after)) =
  (length (filter (λ t, t.1 = k) (before ++ after)) + (if decide (k' = k) then 1 else 0))%nat.
Proof.
  rewrite !filter_app, !length_app, filter_cons. simpl. destruct (decide (k' = k)); simpl; lia.
Qed.

Lemma permits_step (s s' : Sys) (k : kind) :
  step s s' → running k s ≤ permits k → running k s' ≤ permits k.
Proof.
  unfold running. destruct 1; cbn [with_world with_pool s_pool]; try done.
  - rewrite (running_insert k k0 (s_pool s) [] p), app_nil_r.
    unfold running in *. destruct (decide (k0 = k)); subst; lia.
  - match goal with E : s_pool _ = _ |- _ => rewrite E end. by rewrite !running_insert.
  - match goal with E : s_pool _ = _ |- _ => rewrite E end. rewrite running_insert. lia.
Qed.

(** ** Properties *)

(** C1: in every execution, however the handlers, refreshes and the clock
    interleave, each destination that is dialed has been permitted by a policy
    view taken before, is not reserved for the MCP proxy, and, for a hostname, is
    an address that the upstream resolver has returned for that same name,
    through a chain of names that view allows, and that is of no restricted class
    without a network grant. *)
Theorem every_dial_is_permitted (s : Sys) (past later : history) (ip : ip_addr) (port : Z)
    (Hreach : reachable s) (Hdial : s_hist s = past ++ HDial ip port :: later) :
  dial_ok past ip port.
Proof. exact (proj1 (inv_hist s (inv_reachable s Hreach)) _ _ _ _ Hdial). Qed.


(** C13: in every reachable state each stored authorization was validated under
    the scope of its own revision, and expires no later than the policy's longest
    time to live from now; two views of one revision show one scope. *)
Theorem store_is_justified (s : Sys) (Hreach : reachable s) :
  store_ok (s_now s) (s_hist s) (w_cache (s_world s)) ∧
  ∀ r sc sc', HView r sc ∈ s_hist s → HView r sc' ∈ s_hist s → sc = sc'.
Proof.
  pose proof (inv_reachable s Hreach) as [(_ & _ & _ & Hf) Hst _ _]. split; [done|exact Hf].
Qed.

(** no more handlers of a kind run at once than there are permits for it:
    the connections never exceed the policy's cap, the DNS queries the
    configured one. *)
Theorem concurrency_is_bounded (s : Sys) (k : kind) (Hpos : 0 ≤ permits k)
    (Hreach : reachable s) : running k s ≤ permits k.
Proof.
  induction Hreach as [s (_ & Hp & _)|s s' _ IH Hstep].
  - unfold running. by rewrite Hp.
  - by eapply permits_step.
Qed.

End System.

(** ** Witnesses

    Two concrete executions: a tunnel to a granted private address, and a tunnel
    to a hostname that the resolver answers. *)

(** Responses as their text, which no concrete run below looks at. *)
#[local] Instance text_wire : WireApi (list Z) (list Z) := {|
  message_from_vec := λ _, None;
  message_response := λ _ _, [];
  message_error := λ _ _ _, [];
  set_recursion := λ _ _ r, r;
  set_response_code := λ _ r, r;
  add_query := λ _ r, r;
  add_answer := λ _ _ _ r, r;
  message_to_vec := Some;
|}.

#[local] Existing Instance sample_http.

Definition sample_broker : Broker cidr :=
  {| b_policy := sample_engine; b_guard := sample_guard |}.

Definition sample_chain : ResolvedChain (list Z) :=
  {| cname_chain := [str "edge.example.org."]; final_name := str "node.example.org.";
     addresses := [{| ra_ip := V4 1572395042; ra_ttl_secs := 60 |}] |}.

Definition sample_outside : Outside (list Z) :=
  {| o_resolve := λ _, Resolved sample_chain;
     o_dial := λ _ _, Ok None;
     o_write := λ _, true |}.

Definition sample_start : Sys (ipnet := cidr) (C := AuthorizationCache) (N := list Z) :=
  {| s_now := 0;
     s_world := {| w_meta := GitHubMeta_default; w_window := window_empty;
                   w_cache := with_capacity 64;
                   w_reservations := OriginReservations_default; w_audit := [] |};
     s_hist := []; s_pool := [] |}.

Definition hello (t : ConnectTarget) : option (list Z) :=
  Some (encode_request {| req_protocol := ConnectTcp; req_port := 443; req_target := t;
                          req_expected_ip := None |}).

Definition sample_direct : Sys :=
  run_last sample_broker sample_outside sample_start KConnect
    (handle_custom sample_broker (hello (Ip (V4 167837697)))).

Definition sample_tunnel : Sys :=
  run_last sample_broker sample_outside sample_start KConnect
    (handle_custom sample_broker (hello (Hostname (str "www.example.org")))).

#[local] Abbreviation sample_reachable :=
  (reachable sample_broker (λ _, None) (λ _, []) (λ _, []) 64).

Lemma sample_initial : initial sample_start.
Proof.
  split_and!; try reflexivity. intros name ip rev exp. cbn. by rewrite lookup_empty.
Qed.

Lemma sample_runs (h : option (list Z)) :
  sample_reachable
    (run_last sample_broker sample_outside sample_start KConnect
       (handle_custom sample_broker h)).
Proof.
  apply run_reachable. eapply reach_step; [apply reach_initial, sample_initial|].
  apply step_spawn; [constructor|]. done.
Qed.

Lemma every_dial_is_permitted_witness :
  dial_ok sample_broker [HView 0 None; HIpFree (V4 167837697) 443] (V4 167837697) 443.
Proof.
  apply (every_dial_is_permitted sample_broker (λ _, None) (λ _, []) (λ _, []) 64
           sample_direct _ []).
  - apply sample_runs.
  - vm_compute. reflexivity.
Defined.


Lemma store_is_justified_witness :
  store_ok sample_broker (s_now sample_tunnel) (s_hist sample_tunnel)
    (w_cache (s_world sample_tunnel)).
Proof.
  apply (store_is_justified sample_broker (λ _, None) (λ _, []) (λ _, []) 64 sample_tunnel).
  apply sample_runs.
Defined.

Lemma concurrency_is_bounded_witness :
  running KConnect sample_tunnel ≤ permits sample_broker 64 KConnect.
Proof.
  apply (concurrency_is_bounded sample_broker (λ _, None) (λ _, []) (λ _, []) 64).
  - vm_compute. discriminate.
  - apply sample_runs.
Defined.
