(* ===== verification/Glob.v ===== *)
(** * Glob patterns ([crates/sendbox-core/src/glob.rs])

    What a pattern of literals, single-character and any-sequence wildcards
    matches, as a relation, and the backtracking matcher that branch and tool
    policies use.  The command policy's own matcher ([CommandPolicy]) is verified
    against the same relation. *)

From S2P Require Import Prelude RustStr.

(** ** Definitions *)

(** The [while] loop of [glob_matches]: [None] when the fuel runs out,
    [Some None] for [return false], and [Some (Some pattern_index)] when the
    value is consumed. *)
Fixpoint glob_loop (fuel : nat) (value pattern : list Z) (value_index pattern_index : nat)
    (star_value_index star_pattern_index : option nat) : option (option nat) :=
  match fuel with
  | O => None
  | S fuel =>
      match value !! value_index with
      | None => Some (Some pattern_index)
      | Some v =>
          let p := pattern !! pattern_index in
          if match p with Some p => (p =? ch_question) || (p =? v) | None => false end
          then glob_loop fuel value pattern (S value_index) (S pattern_index)
                 star_value_index star_pattern_index
          else if bool_decide (p = Some ch_star)
          then glob_loop fuel value pattern value_index (S pattern_index)
                 (Some value_index) (Some pattern_index)
          else match star_pattern_index, star_value_index with
               | Some star_pattern, Some star_value =>
                   glob_loop fuel value pattern (S star_value) (S star_pattern)
                     (Some (S star_value)) star_pattern_index
               | _, _ => Some None
               end
      end
  end.

(** The last loop, over the rest of the pattern. *)
Fixpoint skip_stars (rest : list Z) (pattern_index : nat) : nat :=
  match rest with
  | p :: rest => if p =? ch_star then skip_stars rest (S pattern_index) else pattern_index
  | [] => pattern_index
  end.

(** Enough iterations for every value and pattern of these lengths. *)
Definition glob_fuel (value pattern : list Z) : nat :=
  (length value + 2) * (length pattern + 2).

Definition glob_matches (value pattern : list Z) : bool :=
  if bool_decide (pattern = str "*") then true
  else
    let value := chars value in
    let pattern := chars pattern in
    match glob_loop (glob_fuel value pattern) value pattern 0 0 None None with
    | Some (Some pattern_index) =>
        (skip_stars (drop pattern_index pattern) pattern_index =? length pattern)%nat
    | _ => false
    end.

(** The permission supervisor's own matcher
    ([crates/sendbox-session-security/src/supervisor.rs]): one row of booleans
    per pattern character, indexed by the length of the value's prefix. *)
Definition row_cell (token : Z) (value : list Z) (previous current : list bool) (index : nat)
  : bool :=
  let at_ (row : list bool) (i : nat) := default false (row !! i) in
  if token =? ch_star then at_ previous index || at_ current (pred index)
  else if token =? ch_question then at_ previous (pred index)
  else at_ previous (pred index) && bool_decide (value !! pred index = Some token).

Definition row_step (value : list Z) (previous : list bool) (token : Z) : list bool :=
  let current := replicate (S (length value)) false in
  let current :=
    if token =? ch_star then <[0%nat := default false (previous !! 0%nat)]> current
    else current in
  foldl (λ current index, <[index := row_cell token value previous current index]> current)
    current (seq 1 (length value)).

Definition row_glob_matches (pattern value : list Z) : bool :=
  let pattern := chars pattern in
  let value := chars value in
  let previous := <[0%nat := true]> (replicate (S (length value)) false) in
  default false (foldl (row_step value) previous pattern !! length value).

(** ** Specification *)

Inductive PatternAtom : Type :=
| Literal (c : Z)
| AnyCharacter
| AnySequence.

(** What a pattern matches. *)
Inductive matches : list PatternAtom → list Z → Prop :=
| matches_nil : matches [] []
| matches_literal c p v : matches p v → matches (Literal c :: p) (c :: v)
| matches_any c p v : matches p v → matches (AnyCharacter :: p) (c :: v)
| matches_skip p v : matches p v → matches (AnySequence :: p) v
| matches_more c p v : matches (AnySequence :: p) v → matches (AnySequence :: p) (c :: v).

(** The atom of one character of a glob. *)
Definition glob_atom (c : Z) : PatternAtom :=
  if c =? ch_star then AnySequence else if c =? ch_question then AnyCharacter else Literal c.

Definition glob_atoms (pattern : list Z) : list PatternAtom := glob_atom <$> pattern.

(** ** Lemmas *)

Lemma matches_sequence (p : list PatternAtom) (v : list Z) :
  matches (AnySequence :: p) v ↔ ∃ k, matches p (drop k v).
Proof.
  split.
  - remember (AnySequence :: p) as q eqn:Eq. induction 1; simplify_eq.
    + by exists 0%nat.
    + destruct IHmatches as [k Hk]; [done|]. by exists (S k).
  - intros [k Hk]. revert v Hk. induction k as [|k IH]; intros [|c v] Hk; simpl in *;
      try by apply matches_skip.
    apply matches_more, IH, Hk.
Qed.

Lemma matches_sequence_drop (p : list PatternAtom) (v : list Z) (i j : nat) :
  (i ≤ j)%nat → matches (AnySequence :: p) (drop j v) → matches (AnySequence :: p) (drop i v).
Proof.
  rewrite !matches_sequence. intros Hij [k Hk]. exists (j - i + k)%nat.
  rewrite drop_drop in Hk |- *. by replace (i + (j - i + k))%nat with (j + k)%nat by lia.
Qed.

Lemma matches_app (p q : list PatternAtom) (v : list Z) :
  matches (p ++ q) v ↔ ∃ v1 v2, v = v1 ++ v2 ∧ matches p v1 ∧ matches q v2.
Proof.
  split.
  - revert v. induction p as [|a p IH]; intros v; simpl.
    { intros Hq. exists [], v. by repeat constructor. }
    destruct a.
    + inversion 1 as [|c' p' v' Hm| | |]; subst.
      destruct (IH v') as (v1 & v2 & -> & ? & ?); [done|].
      exists (c :: v1), v2. by repeat constructor.
    + inversion 1 as [| |c p' v' Hm| |]; subst.
      destruct (IH v') as (v1 & v2 & -> & ? & ?); [done|].
      exists (c :: v1), v2. by repeat constructor.
    + rewrite matches_sequence. intros [k Hk]. destruct (IH _ Hk) as (v1 & v2 & Hv & ? & ?).
      exists (take k v ++ v1), v2. rewrite <-app_assoc, <-Hv, take_drop. split_and!; [done| |done].
      apply matches_sequence. exists (length (take k v)). by rewrite drop_app_length.
  - intros (v1 & v2 & -> & H1 & H2). by induction H1; simpl; try constructor.
Qed.

Lemma take_prefix (v v1 v2 : list Z) (j : nat) :
  take j v = v1 ++ v2 → take (length v1) v = v1.
Proof.
  intros Hv. assert (length v1 ≤ j)%nat as Hl.
  { apply (f_equal length) in Hv. rewrite length_take, length_app in Hv. lia. }
  assert (take (length v1) (take j v) = v1) as He by (by rewrite Hv, take_app_length).
  rewrite take_take in He. by rewrite Nat.min_l in He.
Qed.

(** The last atom of a pattern decides how the pattern extends a prefix of the
    value. *)
Lemma matches_snoc_char (p : list PatternAtom) (a : PatternAtom) (v : list Z) (j : nat) :
  a ≠ AnySequence → (j ≤ length v)%nat →
  matches (p ++ [a]) (take j v) ↔
  ∃ i c, j = S i ∧ v !! i = Some c ∧ (a = AnyCharacter ∨ a = Literal c) ∧ matches p (take i v).
Proof.
  intros Ha Hj. rewrite matches_app. split.
  - intros (v1 & v2 & Hv & H1 & H2).
    assert (∃ c, v2 = [c] ∧ (a = AnyCharacter ∨ a = Literal c)) as (c & -> & Hc).
    { destruct a; [| |done]; inversion H2 as [|? ? ? Hn|? ? ? Hn| |]; inversion Hn; subst; eauto. }
    assert (length v1 < length v)%nat as Hl.
    { apply (f_equal length) in Hv. rewrite length_take, length_app in Hv. simpl in Hv. lia. }
    assert (j = S (length v1)) as ->.
    { apply (f_equal length) in Hv. rewrite length_take, length_app in Hv. simpl in Hv. lia. }
    exists (length v1), c. split_and!; [done| |done|].
    + rewrite <-(lookup_take_lt _ (S (length v1))) by lia. rewrite Hv.
      by rewrite lookup_app_r, Nat.sub_diag by lia.
    + by rewrite (take_prefix _ _ _ _ Hv).
  - intros (i & c & -> & Hi & Hc & Hm). exists (take i v), [c].
    rewrite (take_S_r _ _ _ Hi). split_and!; [done..|].
    destruct Hc; subst; repeat constructor.
Qed.

Lemma matches_snoc_sequence (p : list PatternAtom) (v : list Z) (j : nat) :
  (j ≤ length v)%nat →
  matches (p ++ [AnySequence]) (take j v) ↔ ∃ i, (i ≤ j)%nat ∧ matches p (take i v).
Proof.
  intros Hj. rewrite matches_app. split.
  - intros (v1 & v2 & Hv & H1 & H2). exists (length v1).
    assert (length v1 ≤ j)%nat as Hl.
    { apply (f_equal length) in Hv. rewrite length_take, length_app in Hv. lia. }
    split; [done|]. by rewrite (take_prefix _ _ _ _ Hv).
  - intros (i & Hi & Hm). exists (take i v), (drop i (take j v)). split_and!; [|done|].
    + rewrite <-(take_drop i (take j v)) at 1. rewrite take_take. do 2 f_equal. lia.
    + apply matches_sequence. exists (length (drop i (take j v))). rewrite drop_all. constructor.
Qed.

Lemma glob_atom_star : glob_atom ch_star = AnySequence.
Proof. done. Qed.

Section Loop.
Context (value pattern : list Z).

#[local] Abbreviation rest i j :=
  (matches (glob_atoms (drop i pattern)) (drop j value)).

Lemma rest_star (i j : nat) :
  pattern !! i = Some ch_star → rest i j ↔ ∃ k, (j ≤ k)%nat ∧ rest (S i) k.
Proof.
  intros Hi. rewrite (drop_S _ _ _ Hi). unfold glob_atoms.
  rewrite fmap_cons, glob_atom_star, matches_sequence. split.
  - intros [k Hk]. rewrite drop_drop in Hk. exists (j + k)%nat. split; [lia|done].
  - intros (k & Hk & Hr). exists (k - j)%nat. rewrite drop_drop.
    by replace (j + (k - j))%nat with k by lia.
Qed.

(** One step of a character that is not a star. *)
Lemma rest_char (i j : nat) (p : Z) :
  pattern !! i = Some p → p ≠ ch_star → rest i j →
  ∃ v, value !! j = Some v ∧ (p = ch_question ∨ p = v) ∧ rest (S i) (S j).
Proof.
  intros Hi Hp. rewrite (drop_S _ _ _ Hi). unfold glob_atoms. rewrite fmap_cons.
  destruct (value !! j) as [v|] eqn:Hj.
  - rewrite (drop_S _ _ _ Hj). unfold glob_atom. rewrite (proj2 (Z.eqb_neq _ _) Hp).
    destruct (p =? ch_question) eqn:Eq; bool_to_prop; inversion 1; subst; eauto.
  - rewrite (drop_ge value) by (by apply lookup_ge_None).
    unfold glob_atom. rewrite (proj2 (Z.eqb_neq _ _) Hp).
    destruct (p =? ch_question); inversion 1.
Qed.

Lemma rest_step (i j : nat) (p v : Z) :
  pattern !! i = Some p → value !! j = Some v → (p = ch_question ∨ p = v) →
  rest (S i) (S j) → rest i j.
Proof.
  intros Hi Hj Hpv Hr. rewrite (drop_S _ _ _ Hi), (drop_S _ _ _ Hj). unfold glob_atoms, glob_atom.
  rewrite fmap_cons. destruct (p =? ch_star) eqn:Es.
  { by apply matches_more, matches_skip. }
  destruct (p =? ch_question) eqn:Eq; bool_to_prop; [by constructor|].
  destruct Hpv; subst; [done|by constructor].
Qed.

Lemma skip_stars_spec (i : nat) :
  (i ≤ length pattern)%nat →
  (skip_stars (drop i pattern) i =? length pattern)%nat = true ↔
  matches (glob_atoms (drop i pattern)) [].
Proof.
  remember (drop i pattern) as r eqn:Er. revert i Er.
  induction r as [|p r IH]; intros i Er Hi; simpl.
  - rewrite Nat.eqb_eq. assert (i = length pattern) as ->.
    { apply (f_equal length) in Er. rewrite length_drop in Er. simpl in Er. lia. }
    split; [constructor|done].
  - assert (pattern !! i = Some p) as Hp.
    { rewrite <-(Nat.add_0_r i), <-lookup_drop. by rewrite <-Er. }
    rewrite (drop_S _ _ _ Hp) in Er. simplify_eq. apply lookup_lt_Some in Hp.
    unfold glob_atom. destruct (p =? ch_star) eqn:Es.
    + rewrite IH by (done || lia). rewrite matches_sequence. split.
      * by exists 0%nat.
      * intros [k Hk]. by rewrite drop_nil in Hk.
    + rewrite Nat.eqb_eq. split; [lia|]. destruct (p =? ch_question); inversion 1.
Qed.

(** *** Soundness: a run that succeeds shows a match *)

Definition sound_at (vi pi : nat) (sv sp : option nat) : Prop :=
  (rest pi vi → rest 0 0) ∧
  (∀ i j, sp = Some i → sv = Some j → pattern !! i = Some ch_star ∧ (rest i j → rest 0 0)).

Lemma sound_start : sound_at 0 0 None None.
Proof. by split. Qed.

Lemma sound_star (vi pi : nat) (sv sp : option nat) :
  pattern !! pi = Some ch_star → sound_at vi pi sv sp →
  sound_at vi (S pi) (Some vi) (Some pi).
Proof.
  intros Hp [Hr _]. split.
  - intros Hn. apply Hr, rest_star; [done|]. by exists vi.
  - intros i j [= <-] [= <-]. done.
Qed.

Lemma sound_backtrack (vi pi i j : nat) :
  sound_at vi pi (Some j) (Some i) → sound_at (S j) (S i) (Some (S j)) (Some i).
Proof.
  intros [_ Hs]. destruct (Hs i j) as [Hi Hij]; [done..|].
  assert (rest i (S j) → rest 0 0) as Hn.
  { rewrite rest_star by done. intros (k & Hk & Hn). apply Hij, rest_star; [done|].
    exists k. split; [lia|done]. }
  split; [|by intros ? ? [= <-] [= <-]].
  intros Hr. apply Hn, rest_star; [done|]. by exists (S j).
Qed.

Lemma glob_loop_sound (fuel vi pi : nat) (sv sp : option nat) (r : nat) :
  (pi ≤ length pattern)%nat → sound_at vi pi sv sp →
  glob_loop fuel value pattern vi pi sv sp = Some (Some r) →
  (r ≤ length pattern)%nat ∧ (matches (glob_atoms (drop r pattern)) [] → rest 0 0).
Proof.
  revert vi pi sv sp. induction fuel as [|fuel IH]; intros vi pi sv sp Hle Hs; simpl; [done|].
  destruct (value !! vi) as [v|] eqn:Hv.
  2: { intros [= ->]. split; [done|]. intros Hr. apply Hs.
       by rewrite (drop_ge value) by (by apply lookup_ge_None). }
  destruct (match pattern !! pi with Some _ => _ | None => _ end) eqn:Ep.
  - destruct (pattern !! pi) as [p|] eqn:Hp; [|done].
    apply IH; [by apply lookup_lt_Some in Hp|]. split; [|apply Hs].
    intros Hn. apply Hs. 
    apply (rest_step pi vi p v Hp Hv); [|done].
    by rewrite orb_true_iff, !Z.eqb_eq in Ep.
  - case_bool_decide as Es.
    + apply IH; [by apply lookup_lt_Some in Es|]. by eapply sound_star.
    + destruct sp as [i|], sv as [j|]; try done. apply IH.
      * destruct Hs as [_ Hs]. destruct (Hs i j) as [Hi _]; [done..|]. by apply lookup_lt_Some in Hi.
      * by eapply sound_backtrack.
Qed.

(** *** Completeness, for values without a star

    The characters consumed since the last star are exactly what the pattern
    since that star consumes. *)

Definition complete_at (vi pi : nat) (sv sp : option nat) : Prop :=
  match sp, sv with
  | Some i, Some j =>
      pattern !! i = Some ch_star ∧ (j ≤ vi)%nat ∧ rest i j ∧
      (∀ k, (j ≤ k)%nat → rest (S i) k → rest pi (k + (vi - j)))
  | None, None => rest pi vi
  | _, _ => False
  end.

(** The pattern since the star, from its first possible place on. *)
Lemma complete_rest (vi pi : nat) (sv sp : option nat) :
  complete_at vi pi sv sp → ∃ k, (vi ≤ k)%nat ∧ rest pi k.
Proof.
  unfold complete_at. destruct sp as [i|], sv as [j|]; try done.
  - intros (Hi & Hj & Hr & Hk). apply rest_star in Hr as (k & Hjk & Hr); [|done].
    exists (k + (vi - j))%nat. split; [lia|]. by apply Hk.
  - intros Hr. by exists vi.
Qed.

Lemma complete_char (vi pi : nat) (sv sp : option nat) (p : Z) :
  pattern !! pi = Some p → p ≠ ch_star →
  complete_at vi pi sv sp → complete_at (S vi) (S pi) sv sp.
Proof.
  unfold complete_at. intros Hp Hs. destruct sp as [i|], sv as [j|]; try done.
  - intros (Hi & Hj & Hr & Hk). split_and!; [done|lia|done|]. intros k Hjk Hn.
    replace (k + (S vi - j))%nat with (S (k + (vi - j))) by lia.
    by destruct (rest_char pi (k + (vi - j)) p Hp Hs (Hk k Hjk Hn)) as (? & ? & ? & ?).
  - intros Hr. by destruct (rest_char pi vi p Hp Hs Hr) as (? & ? & ? & ?).
Qed.

Lemma complete_star (vi pi : nat) (sv sp : option nat) :
  pattern !! pi = Some ch_star → complete_at vi pi sv sp →
  complete_at vi (S pi) (Some vi) (Some pi).
Proof.
  intros Hp Hc. apply complete_rest in Hc as (k & Hk & Hr). split_and!; [done|lia| |].
  - apply rest_star in Hr as (k' & Hk' & Hr); [|done]. apply rest_star; [done|].
    exists k'. split; [lia|done].
  - intros k' _ Hn. by rewrite Nat.sub_diag, Nat.add_0_r.
Qed.

Lemma complete_backtrack (vi pi i j : nat) :
  ¬ rest pi vi → complete_at vi pi (Some j) (Some i) →
  complete_at (S j) (S i) (Some (S j)) (Some i).
Proof.
  intros Hno (Hi & Hj & Hr & Hk). split_and!; [done|lia| |].
  - apply rest_star in Hr as (k & Hjk & Hr); [|done]. apply rest_star; [done|].
    exists k. split; [|done]. destruct (decide (k = j)) as [->|]; [|lia].
    apply Hk in Hr; [|done]. by replace (j + (vi - j))%nat with vi in Hr by lia.
  - intros k Hjk Hn. by rewrite Nat.sub_diag, Nat.add_0_r.
Qed.

Lemma glob_loop_complete (fuel vi pi : nat) (sv sp : option nat) (r : option nat) :
  ch_star ∉ value → complete_at vi pi sv sp →
  glob_loop fuel value pattern vi pi sv sp = Some r →
  ∃ i, r = Some i ∧ matches (glob_atoms (drop i pattern)) [].
Proof.
  intros Hns. revert vi pi sv sp.
  induction fuel as [|fuel IH]; intros vi pi sv sp Hc; simpl; [done|].
  destruct (value !! vi) as [v|] eqn:Hv.
  2: { intros [= <-]. exists pi. split; [done|]. apply complete_rest in Hc as (k & Hk & Hr).
       apply lookup_ge_None in Hv. by rewrite (drop_ge value) in Hr by lia. }
  destruct (match pattern !! pi with Some _ => _ | None => _ end) eqn:Ep.
  - destruct (pattern !! pi) as [p|] eqn:Hp; [|done]. apply IH.
    eapply complete_char; [done| |done]. intros ->. rewrite orb_true_iff, !Z.eqb_eq in Ep.
    destruct Ep as [Ep| <-]; [done|]. by apply Hns, (list_elem_of_lookup_2 _ _ _ Hv).
  - case_bool_decide as Es; [apply IH; by eapply complete_star|].
    assert (¬ rest pi vi) as Hno.
    { intros Hr. destruct (pattern !! pi) as [p|] eqn:Hp.
      - destruct (rest_char pi vi p Hp ltac:(congruence) Hr) as (v' & Hv' & Hpv & _).
        rewrite orb_false_iff, !Z.eqb_neq in Ep. destruct Ep, Hpv; congruence.
      - rewrite (drop_ge pattern), (drop_S _ _ _ Hv) in Hr by (by apply lookup_ge_None).
        inversion Hr. }
    destruct sp as [i|], sv as [j|]; try done. apply IH. by eapply complete_backtrack.
Qed.

(** *** Termination *)

(** Each iteration advances in the pattern or moves the last star's value. *)
Definition glob_measure (pi : nat) (sv : option nat) : nat :=
  (length value + 1 - default 0%nat sv) * (length pattern + 2) + (length pattern - pi).

Lemma glob_loop_total (fuel vi pi : nat) (sv sp : option nat) :
  (∀ j, sv = Some j → (j ≤ vi)%nat) → (pi ≤ length pattern)%nat →
  (∀ i, sp = Some i → (i < length pattern)%nat) →
  (glob_measure pi sv < fuel)%nat →
  is_Some (glob_loop fuel value pattern vi pi sv sp).
Proof.
  revert vi pi sv sp. induction fuel as [|fuel IH]; intros vi pi sv sp Hsv Hpi Hsp Hm; [lia|].
  simpl. destruct (value !! vi) as [v|] eqn:Hv; [|done]. apply lookup_lt_Some in Hv.
  assert (default 0 sv ≤ vi)%nat as Hd by (destruct sv; simpl; [by apply Hsv|lia]).
  unfold glob_measure in *.
  destruct (match pattern !! pi with Some _ => _ | None => _ end) eqn:Ep.
  - destruct (pattern !! pi) as [p|] eqn:Hp; [|done]. apply lookup_lt_Some in Hp.
    apply IH; [intros j ->; specialize (Hsv j eq_refl); lia|lia|done|lia].
  - case_bool_decide as Es.
    + apply lookup_lt_Some in Es. apply IH; [naive_solver|lia|naive_solver|]. simpl. nia.
    + destruct sp as [i|], sv as [j|]; try done. specialize (Hsp i eq_refl).
      apply IH; [naive_solver|lia|naive_solver|]. simpl in *. nia.
Qed.

End Loop.

Lemma glob_loop_returns (value pattern : list Z) :
  is_Some (glob_loop (glob_fuel value pattern) value pattern 0 0 None None).
Proof.
  apply glob_loop_total; [done|lia|done|]. unfold glob_measure, glob_fuel. simpl. lia.
Qed.

(** The loop's result in both directions. *)
Lemma glob_exact (value pattern : list Z) :
  (glob_matches value pattern = true → matches (glob_atoms (chars pattern)) (chars value)) ∧
  (ch_star ∉ chars value → matches (glob_atoms (chars pattern)) (chars value) →
   glob_matches value pattern = true).
Proof.
  destruct (glob_loop_returns (chars value) (chars pattern)) as [r Hr].
  unfold glob_matches. case_bool_decide as Ep.
  { subst. split; [intros _|done]. change (chars (str "*")) with [ch_star].
    apply matches_sequence. exists (length (chars value)). rewrite drop_all. constructor. }
  rewrite Hr. split.
  - destruct r as [r|]; [|done]. intros Hs.
    destruct (glob_loop_sound (chars value) (chars pattern) _ 0 0 None None r
                (Nat.le_0_l _) (sound_start _ _) Hr) as [Hle Hm].
    apply Hm, skip_stars_spec; done.
  - intros Hns Hm.
    destruct (glob_loop_complete (chars value) (chars pattern) _ 0 0 None None r Hns Hm Hr)
      as (i & -> & Hi).
    destruct (glob_loop_sound (chars value) (chars pattern) _ 0 0 None None i
                (Nat.le_0_l _) (sound_start _ _) Hr) as [Hle _].
    by apply skip_stars_spec.
Qed.

(** *** The row matcher *)

Section Rows.
Context (value : list Z).

(** A row says which prefixes of the value the pattern matches. *)
Definition row_ok (p : list PatternAtom) (k : nat) (row : list bool) : Prop :=
  length row = S (length value) ∧
  ∀ j, (j < k)%nat → default false (row !! j) = true ↔ matches p (take j value).

Lemma row_cell_ok (p : list PatternAtom) (token : Z) (previous current : list bool) (k : nat) :
  (k < length value)%nat → row_ok p (S (length value)) previous →
  row_ok (p ++ [glob_atom token]) (S k) current →
  row_cell token value previous current (S k) = true ↔
  matches (p ++ [glob_atom token]) (take (S k) value).
Proof.
  intros Hk [_ Hp] [_ Hc]. unfold row_cell. simpl pred. unfold glob_atom in *.
  destruct (token =? ch_star) eqn:Es; [|destruct (token =? ch_question) eqn:Eq].
  - rewrite orb_true_iff, Hp, Hc, !matches_snoc_sequence by lia. split.
    + intros [?|(i & ? & ?)]; [by exists (S k)|]. exists i. split; [lia|done].
    + intros (i & Hi & Hm). destruct (decide (i = S k)) as [->|]; [by left|right].
      exists i. split; [lia|done].
  - rewrite Hp, matches_snoc_char by (done || lia). split.
    + destruct (lookup_lt_is_Some_2 value k) as [c Hc']; [lia|]. intros Hm. exists k, c. auto.
    + by intros (i & c & [= <-] & _ & _ & Hm).
  - rewrite andb_true_iff, bool_decide_eq_true, Hp, matches_snoc_char by (done || lia). split.
    + intros [Hm Hv]. exists k, token. auto.
    + intros (i & c & [= <-] & Hv & [?|[= ->]] & Hm); done.
Qed.

Lemma row_step_ok (p : list PatternAtom) (previous : list bool) (token : Z) :
  row_ok p (S (length value)) previous →
  row_ok (p ++ [glob_atom token]) (S (length value)) (row_step value previous token).
Proof.
  intros Hp. unfold row_step. cbv zeta. set (start := if token =? ch_star then _ else _).
  assert (length start = S (length value)) as Hl.
  { unfold start. destruct (_ =? _); rewrite ?length_insert; apply length_replicate. }
  assert (∀ k, (k ≤ length value)%nat →
    row_ok (p ++ [glob_atom token]) (S k)
      (foldl (λ current index, <[index := row_cell token value previous current index]> current)
         start (seq 1 k))) as Hk; [|by apply Hk].
  induction k as [|k IH]; intros Hk.
  - split; [done|]. intros j Hj. assert (j = 0%nat) as -> by lia. simpl foldl. unfold start.
    unfold glob_atom. destruct (token =? ch_star) eqn:Es.
    + simpl. rewrite (proj2 Hp) by lia. rewrite matches_snoc_sequence by lia. simpl.
      split; [by exists 0%nat|]. intros (i & Hi & Hm). by replace i with 0%nat in Hm by lia.
    + simpl. rewrite matches_snoc_char by (lia || by destruct (token =? ch_question)).
      split; [done|]. by intros (? & ? & ? & _).
  - rewrite seq_S, foldl_app. simpl foldl. specialize (IH ltac:(lia)).
    set (cur := foldl _ _ _) in *. pose proof IH as [Hlen Hj]. split; [by rewrite length_insert|].
    intros j Hlt. destruct (decide (j = S k)) as [->|].
    + rewrite list_lookup_insert_eq by lia. simpl default. apply row_cell_ok; [lia|done|done].
    + rewrite list_lookup_insert_ne by lia. apply Hj. lia.
Qed.

Lemma rows_ok (pattern : list Z) (p : list PatternAtom) (row : list bool) :
  row_ok p (S (length value)) row →
  row_ok (p ++ glob_atoms pattern) (S (length value)) (foldl (row_step value) row pattern).
Proof.
  revert p row. induction pattern as [|token pattern IH]; intros p row Hr; simpl.
  { by rewrite app_nil_r. }
  rewrite cons_middle, app_assoc. by apply IH, row_step_ok.
Qed.
End Rows.

(** ** Properties *)

(** C38: the backtracking glob matcher always terminates, accepts only values
    its pattern matches, and accepts every value its pattern matches when the
    value itself has no star. *)
Theorem glob_matches_exact (value pattern : list Z) :
  is_Some (glob_loop (glob_fuel (chars value) (chars pattern)) (chars value) (chars pattern)
             0 0 None None) ∧
  (glob_matches value pattern = true → matches (glob_atoms (chars pattern)) (chars value)) ∧
  (ch_star ∉ chars value → matches (glob_atoms (chars pattern)) (chars value) →
   glob_matches value pattern = true).
Proof. split; [apply glob_loop_returns|apply glob_exact]. Qed.

(** the permission supervisor's row matcher accepts exactly the values its
    pattern matches. *)
Theorem row_glob_matches_exact (pattern value : list Z) :
  row_glob_matches pattern value = true ↔ matches (glob_atoms (chars pattern)) (chars value).
Proof.
  unfold row_glob_matches. cbv zeta.
  destruct (rows_ok (chars value) (chars pattern) []
              (<[0%nat := true]> (replicate (S (length (chars value))) false))) as [_ Hr].
  - split; [by rewrite length_insert, length_replicate|]. intros [|j] Hj; simpl.
    + split; [constructor|done].
    + rewrite lookup_replicate_2 by lia. simpl. split; [done|].
      destruct (chars value); simpl in *; [lia|]. inversion 1.
  - rewrite Hr by lia. by rewrite firstn_all.
Qed.

(** A value with a star of its own can be refused by a pattern that
    matches it: the matcher compares the star with the pattern's star as a
    literal and never comes back to it. *)
Example glob_star_in_value_incomplete :
  matches (glob_atoms (str "*b")) (str "*ab") ∧ glob_matches (str "*ab") (str "*b") = false.
Proof.
  split; [|by vm_compute]. apply matches_more, matches_more, matches_skip. repeat constructor.
Qed.
