(* ===== verification/CommandPolicy.v ===== *)
(** * The command policy ([crates/sendbox-exec/src/policy.rs])

    The rule grammar, its compilation and the admission of an argument vector.
    Strings are lists of their characters here, as the code goes through
    [chars()].  The table matcher is proved to decide the relation [matches] of
    [Glob], so that admission is characterized by what the rules say. *)

From S2P Require Import Prelude RustStr NetPolicy Glob.

(** ** Definitions *)

Record CommandPolicy : Type := {
  cp_default_action : Action;
  cp_allowlist : list (list Z);
  cp_denylist : list (list Z);
  cp_log_blocked : bool;
}.

Inductive AdmissionDisposition : Type := AdmissionAllow | AdmissionDeny.

#[global] Instance AdmissionDisposition_eq_dec : EqDecision AdmissionDisposition.
Proof. solve_decision. Defined.

Inductive MatchKind : Type := MatchExact | MatchTokenWildcard | MatchDefault.

Record MatchedRule : Type := {
  mr_action : AdmissionDisposition;
  mr_kind : MatchKind;
  mr_source : option (list Z);
}.

Record CommandAdmission : Type := {
  disposition : AdmissionDisposition;
  matched : MatchedRule;
}.

Inductive CommandPolicyCompileError : Type :=
| EmptyRule (rule_list : string) (index : nat)
| TrailingEscape (rule_list : string) (index : nat)
| NulByte (rule_list : string) (index : nat).

Record CompiledRule : Type := {
  rule_source : list Z;
  rule_tokens : list (list PatternAtom);
  rule_exact : option (list (list Z));
}.

Record CompiledCommandPolicy : Type := {
  ccp_default_action : AdmissionDisposition;
  ccp_allow : list CompiledRule;
  ccp_deny : list CompiledRule;
}.

(** *** The table matcher [TokenPattern::matches] *)

Definition reachable_at (r : list (list bool)) (i j : nat) : bool :=
  default false (r !! i ≫= λ row, row !! j).

Definition reachable_set (r : list (list bool)) (i j : nat) : list (list bool) :=
  alter (λ row, <[j := true]> row) i r.

Definition reach_cell (atom : PatternAtom) (value : list Z) (i : nat) (r : list (list bool))
    (j : nat) : list (list bool) :=
  if negb (reachable_at r i j) then r
  else match atom with
       | Literal expected =>
           if bool_decide (value !! j = Some expected) then reachable_set r (S i) (S j) else r
       | AnyCharacter =>
           if (j <? length value)%nat then reachable_set r (S i) (S j) else r
       | AnySequence =>
           let r := reachable_set r (S i) j in
           if (j <? length value)%nat then reachable_set r i (S j) else r
       end.

Definition reach_row (value : list Z) (r : list (list bool)) (ia : nat * PatternAtom)
  : list (list bool) :=
  foldl (reach_cell ia.2 value ia.1) r (seq 0 (S (length value))).

Definition token_matches (pattern : list PatternAtom) (value : list Z) : bool :=
  let reachable := replicate (S (length pattern)) (replicate (S (length value)) false) in
  let reachable := reachable_set reachable 0 0 in
  let reachable := foldl (reach_row value) reachable (imap pair pattern) in
  reachable_at reachable (length pattern) (length value).

(** *** Rules *)

(** [Path::file_name] on a path given as text: the last component, unless the
    path ends in [..] or has no normal component. *)
Definition file_name (path : list Z) : option (list Z) :=
  let components := filter (λ c, c ≠ [] ∧ c ≠ [ch_dot]) (split_on ch_slash path) in
  match last components with
  | Some name => if bool_decide (name = [ch_dot; ch_dot]) then None else Some name
  | None => None
  end.

(** The argument at [index], with the program's name put in place of the first. *)
Definition argument_at (program : option (list Z)) (index : nat) (actual : list Z) : list Z :=
  if (index =? 0)%nat then default actual program else actual.

Definition matches_with_program (rule : CompiledRule) (argv : list (list Z))
    (program : option (list Z)) : bool :=
  match rule_exact rule with
  | Some exact =>
      (length exact =? length argv)%nat &&
      forallb (λ iea, bool_decide (iea.2.1 = argument_at program iea.1 iea.2.2))
        (imap pair (zip exact argv))
  | None =>
      (length (rule_tokens rule) =? length argv)%nat &&
      forallb (λ ipa, token_matches ipa.2.1 (argument_at program ipa.1 ipa.2.2))
        (imap pair (zip (rule_tokens rule) argv))
  end.

Definition program_basename (argv : list (list Z)) : option (list Z) :=
  match head argv with
  | Some program =>
      match file_name program with
      | Some basename => if bool_decide (basename = program) then None else Some basename
      | None => None
      end
  | None => None
  end.

Definition rule_matches (rule : CompiledRule) (argv : list (list Z)) : bool :=
  if matches_with_program rule argv (head argv) then true
  else match program_basename argv with
       | Some basename => matches_with_program rule argv (Some basename)
       | None => false
       end.

Definition rule_kind (rule : CompiledRule) : MatchKind :=
  match rule_exact rule with Some _ => MatchExact | None => MatchTokenWildcard end.

(** *** Compilation *)

(** The state of the scan: finished tokens, the open token and [escaped]. *)
Record scan : Type := {
  parsed_tokens : list (list (Z * bool));
  open_token : list (Z * bool);
  scan_escaped : bool;
}.

Definition scan_char (s : scan) (character : Z) : scan :=
  if scan_escaped s then
    {| parsed_tokens := parsed_tokens s; open_token := open_token s ++ [(character, true)];
       scan_escaped := false |}
  else if character =? ch_backslash then
    {| parsed_tokens := parsed_tokens s; open_token := open_token s; scan_escaped := true |}
  else if is_ascii_whitespace character then
    match open_token s with
    | [] => s
    | token => {| parsed_tokens := parsed_tokens s ++ [token]; open_token := [];
                  scan_escaped := false |}
    end
  else
    {| parsed_tokens := parsed_tokens s; open_token := open_token s ++ [(character, false)];
       scan_escaped := false |}.

Definition scan_rule (source : list Z) : scan :=
  foldl scan_char {| parsed_tokens := []; open_token := []; scan_escaped := false |} source.

Definition pattern_atom (ce : Z * bool) : PatternAtom :=
  match ce with
  | (c, false) =>
      if c =? ch_star then AnySequence else if c =? ch_question then AnyCharacter else Literal c
  | (c, true) => Literal c
  end.

(** [atoms.push(atom)], a run of stars being pushed once. *)
Definition push_atom (atoms : list PatternAtom) (ce : Z * bool) : list PatternAtom :=
  match pattern_atom ce, last atoms with
  | AnySequence, Some AnySequence => atoms
  | atom, _ => atoms ++ [atom]
  end.

Definition is_wildcard (ce : Z * bool) : bool :=
  negb ce.2 && ((ce.1 =? ch_star) || (ce.1 =? ch_question)).

Definition compile_rule (rule_list : string) (index : nat) (source : list Z)
  : result CommandPolicyCompileError CompiledRule :=
  if contains_byte source 0 then Err (NulByte rule_list index)
  else
    let s := scan_rule source in
    if scan_escaped s then Err (TrailingEscape rule_list index)
    else
      let parsed := match open_token s with
                    | [] => parsed_tokens s
                    | token => parsed_tokens s ++ [token]
                    end in
      match parsed with
      | [] => Err (EmptyRule rule_list index)
      | _ =>
          let has_wildcards := existsb is_wildcard (concat parsed) in
          Ok {| rule_source := source;
                rule_tokens := foldl push_atom [] <$> parsed;
                rule_exact := if has_wildcards then None
                              else Some ((λ token : list (Z * bool), fst <$> token) <$> parsed) |}
      end.

Definition compile_list (name : string) (sources : list (list Z))
  : result CommandPolicyCompileError (list CompiledRule) :=
  collect (λ ix, compile_rule name ix.1 ix.2) (imap pair sources).

Definition convert_action (a : Action) : AdmissionDisposition :=
  match a with Allow => AdmissionAllow | Deny => AdmissionDeny end.

Definition compile_commands (policy : CommandPolicy)
  : result CommandPolicyCompileError CompiledCommandPolicy :=
  let? allow := compile_list "allowlist" (cp_allowlist policy) in
  let? deny := compile_list "denylist" (cp_denylist policy) in
  Ok {| ccp_default_action := convert_action (cp_default_action policy);
        ccp_allow := allow; ccp_deny := deny |}.

Definition admission (d : AdmissionDisposition) (rule : CompiledRule) : CommandAdmission :=
  {| disposition := d;
     matched := {| mr_action := d; mr_kind := rule_kind rule;
                   mr_source := Some (rule_source rule) |} |}.

Definition evaluate_command (policy : CompiledCommandPolicy) (argv : list (list Z))
  : CommandAdmission :=
  match List.find (λ rule, rule_matches rule argv) (ccp_deny policy) with
  | Some rule => admission AdmissionDeny rule
  | None =>
  match List.find (λ rule, rule_matches rule argv) (ccp_allow policy) with
  | Some rule => admission AdmissionAllow rule
  | None =>
      {| disposition := ccp_default_action policy;
         matched := {| mr_action := ccp_default_action policy; mr_kind := MatchDefault;
                       mr_source := None |} |}
  end end.

(** ** Specification *)

(** How a rule is written: its tokens separated by blanks, each character as
    itself or behind a backslash. *)
Definition write_char (ce : Z * bool) : list Z :=
  if ce.2 then [ch_backslash; ce.1] else [ce.1].

Definition write_rule (tokens : list (list (Z * bool))) : list Z :=
  join_with ch_space ((λ token, concat (write_char <$> token)) <$> tokens).

(** An unescaped character is neither a backslash nor a blank. *)
Definition writable (ce : Z * bool) : Prop :=
  ce.1 ≠ 0 ∧ (ce.2 = false → ce.1 ≠ ch_backslash ∧ is_ascii_whitespace ce.1 = false).

(** The tokens of a rule's text. *)
Definition tokens_of (source : list Z) : list (list (Z * bool)) :=
  let s := scan_rule source in
  parsed_tokens s ++ match open_token s with [] => [] | token => [token] end.

(** What tokens say of an argument vector: one token per argument, with the
    program given by its path or by its file name. *)
Definition tokens_say (tokens : list (list (Z * bool))) (argv : list (list Z)) : Prop :=
  let says := Forall2 (λ token arg, matches (pattern_atom <$> token) arg) tokens in
  says argv ∨
  ∃ program args name, argv = program :: args ∧ file_name program = Some name ∧
                       says (name :: args).

Definition rule_says (source : list Z) (argv : list (list Z)) : Prop :=
  tokens_say (tokens_of source) argv.

(** ** Lemmas *)

(** *** The table *)

Section Table.
Context (value : list Z) (rows : nat).

#[local] Abbreviation n := (length value).

Definition table_ok (r : list (list bool)) : Prop :=
  length r = rows ∧ Forall (λ row, length row = S n) r.

Lemma set_ok (r : list (list bool)) (i j : nat) :
  table_ok r → table_ok (reachable_set r i j).
Proof.
  intros [Hl Hr]. unfold reachable_set. split; [by rewrite length_alter|].
  apply Forall_lookup. intros i' row Hrow. rewrite Forall_lookup in Hr.
  destruct (decide (i' = i)) as [->|].
  - rewrite list_lookup_alter_eq in Hrow. apply fmap_Some in Hrow as (row0 & Hrow & ->).
    rewrite length_insert. by eapply Hr.
  - rewrite list_lookup_alter_ne in Hrow by done. by eapply Hr.
Qed.

Lemma at_set (r : list (list bool)) (i j i' j' : nat) :
  table_ok r → (i < rows)%nat → (j ≤ n)%nat →
  reachable_at (reachable_set r i j) i' j' =
  bool_decide (i' = i ∧ j' = j) || reachable_at r i' j'.
Proof.
  intros [Hl Hr] Hi Hj. unfold reachable_at, reachable_set.
  destruct (decide (i' = i)) as [->|].
  - rewrite list_lookup_alter_eq. destruct (lookup_lt_is_Some_2 r i) as [row Hrow]; [lia|].
    rewrite Hrow. simpl. rewrite Forall_lookup in Hr. specialize (Hr _ _ Hrow).
    destruct (decide (j' = j)) as [->|].
    + rewrite bool_decide_eq_true_2 by done. rewrite list_lookup_insert_eq by lia. done.
    + rewrite bool_decide_eq_false_2 by naive_solver. by rewrite list_lookup_insert_ne.
  - rewrite list_lookup_alter_ne by done. by rewrite bool_decide_eq_false_2 by naive_solver.
Qed.

(** The marks of row [i]. *)
Definition row_is (r : list (list bool)) (i : nat) (P : nat → Prop) : Prop :=
  ∀ j, (j ≤ n)%nat → reachable_at r i j = true ↔ P j.

(** Rows above [i] are empty. *)
Definition empty_above (r : list (list bool)) (i : nat) : Prop :=
  ∀ i' j, (i < i')%nat → reachable_at r i' j = false.

Lemma row_is_iff (r : list (list bool)) (i : nat) (P Q : nat → Prop) :
  row_is r i P → (∀ j, (j ≤ n)%nat → P j ↔ Q j) → row_is r i Q.
Proof. intros HP HPQ j Hj. by rewrite (HP j Hj), (HPQ j Hj). Qed.

Lemma row_is_set (r : list (list bool)) (i j0 : nat) (P Q : nat → Prop) :
  table_ok r → (i < rows)%nat → (j0 ≤ n)%nat → row_is r i P →
  (∀ j, (j ≤ n)%nat → j = j0 ∨ P j ↔ Q j) → row_is (reachable_set r i j0) i Q.
Proof.
  intros Ht Hi Hj0 HP HPQ j Hj. rewrite at_set by done.
  rewrite orb_true_iff, bool_decide_eq_true, (HP j Hj), <-(HPQ j Hj). tauto.
Qed.

Lemma row_is_set_ne (r : list (list bool)) (i0 j0 i : nat) (P : nat → Prop) :
  table_ok r → (i0 < rows)%nat → (j0 ≤ n)%nat → i ≠ i0 → row_is r i P →
  row_is (reachable_set r i0 j0) i P.
Proof.
  intros Ht Hi Hj0 Hne HP j Hj. rewrite at_set by done.
  rewrite bool_decide_eq_false_2 by tauto. by apply HP.
Qed.

Lemma empty_above_set (r : list (list bool)) (i0 j0 i : nat) :
  table_ok r → (i0 < rows)%nat → (j0 ≤ n)%nat → (i0 ≤ i)%nat → empty_above r i →
  empty_above (reachable_set r i0 j0) i.
Proof.
  intros Ht Hi Hj0 Hle He i' j Hi'. rewrite at_set by done.
  rewrite bool_decide_eq_false_2 by lia. by apply He.
Qed.

(** What one row of the loop establishes, [k] columns done: [P] is the row, [Q]
    the next one. *)
Definition row_done (i : nat) (P Q : nat → Prop) (r : list (list bool)) : Prop :=
  table_ok r ∧ row_is r i P ∧ row_is r (S i) Q ∧ empty_above r (S i).

Definition accepts (atom : PatternAtom) (c : option Z) : bool :=
  match atom, c with
  | AnyCharacter, Some _ => true
  | Literal expected, Some c => bool_decide (c = expected)
  | _, _ => false
  end.

Lemma reach_cell_char (atom : PatternAtom) (i : nat) (r : list (list bool)) (j : nat) :
  atom ≠ AnySequence →
  reach_cell atom value i r j =
  if reachable_at r i j && accepts atom (value !! j) then reachable_set r (S i) (S j) else r.
Proof.
  intros Ha. unfold reach_cell. destruct (reachable_at r i j); [|done]. simpl.
  destruct atom as [expected| |]; [| |done]; simpl.
  - destruct (value !! j) as [c|] eqn:Hc; [|done]. by destruct (decide (c = expected)) as [->|];
      repeat case_bool_decide; simplify_eq.
  - destruct (value !! j) as [c|] eqn:Hc.
    + apply lookup_lt_Some in Hc. by rewrite (proj2 (Nat.ltb_lt _ _) Hc).
    + apply lookup_ge_None in Hc. by rewrite (proj2 (Nat.ltb_ge _ _) Hc).
Qed.

Lemma snoc_accepts (p : list PatternAtom) (atom : PatternAtom) (k : nat) :
  atom ≠ AnySequence → (S k ≤ n)%nat →
  matches (p ++ [atom]) (take (S k) value) ↔
  accepts atom (value !! k) = true ∧ matches p (take k value).
Proof.
  intros Ha Hk. rewrite matches_snoc_char by done.
  destruct (lookup_lt_is_Some_2 value k) as [c Hc]; [lia|]. rewrite Hc.
  assert (accepts atom (Some c) = true ↔ atom = AnyCharacter ∨ atom = Literal c) as ->.
  { destruct atom; simpl; rewrite ?bool_decide_eq_true; naive_solver. }
  split; [|naive_solver]. intros (i & c' & [= <-] & Hc' & Hor & Hm). by simplify_eq.
Qed.

Lemma reach_cells_char (p : list PatternAtom) (atom : PatternAtom) (i k : nat)
    (r : list (list bool)) :
  let M j := matches p (take j value) in
  let Q j := matches (p ++ [atom]) (take j value) in
  atom ≠ AnySequence → (S i < rows)%nat → (k ≤ S n)%nat →
  table_ok r → row_is r i M → empty_above r i →
  row_done i M (λ j, Q j ∧ (j ≤ k)%nat) (foldl (reach_cell atom value i) r (seq 0 k)).
Proof.
  intros M Q Ha Hi Hk Ht Hp He. induction k as [|k IH].
  - split_and!; [done|done| |intros ? ? ?; apply He; lia]. intros j Hj.
    change (reachable_at r (S i) j = true ↔ Q j ∧ (j ≤ 0)%nat). rewrite He by lia.
    split; [done|]. intros [Hm Hj0]. unfold Q in Hm. rewrite matches_snoc_char in Hm by done.
    destruct Hm as (? & ? & -> & _). lia.
  - rewrite seq_S, foldl_app. cbn [foldl]. rewrite Nat.add_0_l.
    destruct IH as (Ht' & Hp' & Hs' & He'); [lia|]. set (r0 := foldl _ r (seq 0 k)) in *.
    rewrite reach_cell_char by done.
    assert ((k < n)%nat → Q (S k) ↔ reachable_at r0 i k && accepts atom (value !! k) = true) as HQ.
    { intros Hlt. unfold Q. rewrite snoc_accepts, andb_true_iff, (Hp' k) by (done || lia).
      unfold M. tauto. }
    destruct (_ && _) eqn:Ec.
    + assert (k < n)%nat as Hlt.
      { apply andb_true_iff in Ec as [_ Hacc]. apply lookup_lt_is_Some.
        destruct (value !! k); [done|]. by destruct atom. }
      split_and!; [by apply set_ok|by apply row_is_set_ne; (done || lia)| |
                   by apply empty_above_set; (done || lia)].
      eapply row_is_set; [done|lia|lia|done|]. intros j Hj. split.
      * intros [->|[? ?]]; (split; [by auto; apply HQ|lia]).
      * intros [Hm Hjk]. destruct (decide (j = S k)); [by left|right]. split; [done|lia].
    + split_and!; [done|done| |done]. eapply row_is_iff; [done|]. intros j Hj. split.
      * intros [? ?]. split; [done|lia].
      * intros [Hm Hjk]. split; [done|]. destruct (decide (j = S k)) as [->|]; [|lia].
        apply HQ in Hm; [done|lia].
Qed.

Lemma snoc_sequence_next (p : list PatternAtom) (k : nat) :
  (S k ≤ n)%nat →
  matches (p ++ [AnySequence]) (take (S k) value) ↔
  matches (p ++ [AnySequence]) (take k value) ∨ matches p (take (S k) value).
Proof.
  intros Hk. rewrite !matches_snoc_sequence by lia. split.
  - intros (i & Hi & Hm). destruct (decide (i = S k)) as [->|]; [by right|left].
    exists i. split; [lia|done].
  - intros [(i & Hi & Hm)|Hm]; [exists i|exists (S k)]; (split; [lia|done]).
Qed.

Lemma reach_cells_sequence (p : list PatternAtom) (i k : nat) (r : list (list bool)) :
  let M j := matches p (take j value) in
  let Q j := matches (p ++ [AnySequence]) (take j value) in
  (S i < rows)%nat → (k ≤ S n)%nat → table_ok r → row_is r i M → empty_above r i →
  row_done i (λ j, M j ∨ (j ≤ k)%nat ∧ Q j) (λ j, Q j ∧ (j < k)%nat)
    (foldl (reach_cell AnySequence value i) r (seq 0 k)).
Proof.
  intros M Q Hi Hk Ht Hp He. induction k as [|k IH].
  - split_and!; [done| | |intros ? ? ?; apply He; lia].
    + eapply row_is_iff; [done|]. intros j Hj. split; [by left|]. intros [?|[Hj0 Hm]]; [done|].
      apply matches_snoc_sequence in Hm as (j' & Hj' & Hm); [|lia].
      by replace j with j' by lia.
    + intros j Hj. change (reachable_at r (S i) j = true ↔ Q j ∧ (j < 0)%nat).
      rewrite He by lia. split; [done|lia].
  - rewrite seq_S, foldl_app. cbn [foldl]. rewrite Nat.add_0_l.
    destruct IH as (Ht' & Hp' & Hs' & He'); [lia|]. set (r0 := foldl _ r (seq 0 k)) in *.
    assert (reachable_at r0 i k = true ↔ Q k) as Hat.
    { rewrite (Hp' k) by lia. split; [|by auto]. intros [Hm|[_ Hm]]; [|done].
      apply matches_snoc_sequence; [lia|]. by exists k. }
    pose proof (snoc_sequence_next p k) as Hnext. change (S k ≤ n → Q (S k) ↔ Q k ∨ M (S k))%nat
      in Hnext.
    assert (∀ j, (j ≤ n)%nat →
              M j ∨ (j ≤ S k)%nat ∧ Q j ↔
              (j = S k ∧ Q k) ∨ M j ∨ (j ≤ k)%nat ∧ Q j) as HP.
    { intros j Hj. destruct (decide (j = S k)) as [->|].
      - rewrite Hnext by done. split; [tauto|]. intros [[_ ?]|[?|[? _]]]; [|by left|lia]. right. auto.
      - split; intros [?|?]; intuition lia. }
    assert (∀ j, (j ≤ n)%nat → Q j ∧ (j < S k)%nat ↔ (j = k ∧ Q k) ∨ Q j ∧ (j < k)%nat) as HS.
    { intros j Hj. destruct (decide (j = k)) as [->|]; intuition lia. }
    unfold reach_cell. destruct (reachable_at r0 i k) eqn:Ec; cbn [negb]; cbv zeta.
    + assert (Q k) as HQk by by apply Hat.
      set (r1 := reachable_set r0 (S i) k).
      assert (row_done i (λ j, M j ∨ (j ≤ k)%nat ∧ Q j) (λ j, Q j ∧ (j < S k)%nat) r1)
        as (Ht1 & Hp1 & Hs1 & He1).
      { split_and!; [by apply set_ok|apply row_is_set_ne; done || lia| |
                     apply empty_above_set; done || lia].
        eapply row_is_set; [done|lia|lia|done|]. intros j Hj. rewrite HS by done. tauto. }
      destruct (k <? n)%nat eqn:Ekn; [apply Nat.ltb_lt in Ekn|apply Nat.ltb_ge in Ekn].
      * split_and!; [by apply set_ok| |apply row_is_set_ne; done || lia|
                     apply empty_above_set; done || lia].
        eapply row_is_set; [done|lia|lia|done|]. intros j Hj. rewrite HP by done. tauto.
      * split_and!; [done| |done|done]. eapply row_is_iff; [done|]. intros j Hj.
        rewrite HP by done. split; [by right|]. intros [[? _]|?]; [lia|done].
    + assert (¬ Q k) as HQk by (rewrite <-Hat; congruence).
      split_and!; [done| | |done]; (eapply row_is_iff; [done|]); intros j Hj.
      * rewrite HP by done. tauto.
      * rewrite HS by done. tauto.
Qed.

Lemma sequence_dec (a : PatternAtom) : {a = AnySequence} + {a ≠ AnySequence}.
Proof. by destruct a; [right|right|left]. Qed.

Lemma reach_row_ok (p : list PatternAtom) (atom : PatternAtom) (i : nat)
    (r : list (list bool)) :
  (S i < rows)%nat → table_ok r → row_is r i (λ j, matches p (take j value)) →
  empty_above r i →
  let r' := reach_row value r (i, atom) in
  table_ok r' ∧ row_is r' (S i) (λ j, matches (p ++ [atom]) (take j value)) ∧
  empty_above r' (S i).
Proof.
  intros Hi Ht Hp He. unfold reach_row. cbn [fst snd].
  destruct (sequence_dec atom) as [->|Ha].
  - destruct (reach_cells_sequence p i (S n) r) as (Ht' & _ & Hs & He'); [done..|].
    split_and!; [done| |done]. eapply row_is_iff; [done|]. intros j Hj. split; [tauto|].
    intros ?. split; [done|lia].
  - destruct (reach_cells_char p atom i (S n) r) as (Ht' & _ & Hs & He'); [done..|].
    split_and!; [done| |done]. eapply row_is_iff; [done|]. intros j Hj. split; [tauto|].
    intros ?. split; [done|lia].
Qed.

Lemma reach_rows_ok (q p : list PatternAtom) (r : list (list bool)) :
  (length p + length q < rows)%nat → table_ok r →
  row_is r (length p) (λ j, matches p (take j value)) → empty_above r (length p) →
  row_is (foldl (reach_row value) r (imap (λ i a, (length p + i, a)%nat) q))
    (length p + length q) (λ j, matches (p ++ q) (take j value)).
Proof.
  revert p r. induction q as [|a q IH]; intros p r Hl Ht Hp He; simpl in *.
  - by rewrite Nat.add_0_r, app_nil_r.
  - destruct (reach_row_ok p a (length p) r) as (Ht' & Hp' & He'); [lia|done..|].
    specialize (IH (p ++ [a]) (reach_row value r (length p, a))).
    rewrite length_app, <-app_assoc in IH. simpl in IH.
    replace (length p + S (length q))%nat with (length p + 1 + length q)%nat by lia.
    rewrite Nat.add_0_r. rewrite (imap_ext _ (λ i a, (length p + 1 + i, a)%nat)).
    + apply IH; [lia|done|..]; by replace (length p + 1)%nat with (S (length p)) by lia.
    + intros k x _. simpl. f_equal. lia.
Qed.
End Table.

(** The table decides the relation. *)
Lemma token_matches_spec (pattern : list PatternAtom) (value : list Z) :
  token_matches pattern value = true ↔ matches pattern value.
Proof.
  unfold token_matches. cbv zeta.
  set (r := replicate (S (length pattern)) (replicate (S (length value)) false)).
  assert (table_ok value (S (length pattern)) r) as Ht.
  { split; [apply length_replicate|]. apply Forall_replicate, length_replicate. }
  assert (∀ i j, reachable_at r i j = false) as H0.
  { intros i j. unfold reachable_at.
    destruct (r !! i) as [row|] eqn:Er; [|done].
    apply lookup_replicate in Er as [-> _]. cbn [mbind option_bind].
    destruct (_ !! j) as [b|] eqn:Eb; [|done]. by apply lookup_replicate in Eb as [-> _]. }
  assert (row_is value (foldl (reach_row value) (reachable_set r 0 0) (imap pair pattern))
            (length pattern) (λ j, matches pattern (take j value))) as Hrow.
  { apply (reach_rows_ok value (S (length pattern)) pattern [] (reachable_set r 0 0)).
    - simpl. lia.
    - by apply set_ok.
    - intros j Hj. rewrite (at_set value (S (length pattern))) by (done || lia).
      rewrite H0, orb_false_r, bool_decide_eq_true. split; [intros [_ ->]; constructor|].
      intros Hm. split; [done|]. inversion Hm as [Hn| | | |]. destruct j; [done|].
      destruct value; simpl in *; [lia|done].
    - intros i j Hi. rewrite (at_set value (S (length pattern))) by (done || lia).
      rewrite H0, bool_decide_eq_false_2 by (simpl in Hi; lia). done. }
  rewrite (Hrow (length value)) by lia. by rewrite firstn_all.
Qed.

(** *** Rules *)

Lemma matches_double (p q : list PatternAtom) (v : list Z) :
  matches (p ++ AnySequence :: AnySequence :: q) v ↔ matches (p ++ AnySequence :: q) v.
Proof.
  rewrite !matches_app. do 2 (apply exist_proper; intros ?). rewrite (matches_sequence (_ :: q)).
  assert (∀ w, (∃ k, matches (AnySequence :: q) (drop k w)) ↔ matches (AnySequence :: q) w)
    as Hd; [|by rewrite Hd].
  intros w. split; [|by exists 0%nat]. intros [k Hk].
  by apply (matches_sequence_drop q w 0 k); [lia|].
Qed.

Lemma push_atoms_matches (token : list (Z * bool)) (atoms : list PatternAtom) (v : list Z) :
  matches (foldl push_atom atoms token) v ↔ matches (atoms ++ (pattern_atom <$> token)) v.
Proof.
  revert atoms. induction token as [|ce token IH]; intros atoms; simpl; [by rewrite app_nil_r|].
  rewrite IH. unfold push_atom.
  assert (matches ((atoms ++ [pattern_atom ce]) ++ (pattern_atom <$> token)) v ↔
          matches (atoms ++ pattern_atom ce :: (pattern_atom <$> token)) v) as Hpush
    by by rewrite <-app_assoc.
  destruct (pattern_atom ce); [done|done|]. destruct (last atoms) as [[]|] eqn:Hl; [done|done| |done].
  apply last_Some in Hl as [atoms' ->]. rewrite <-!app_assoc. simpl. by rewrite matches_double.
Qed.

Lemma literal_matches (token : list (Z * bool)) (v : list Z) :
  existsb is_wildcard token = false →
  matches (pattern_atom <$> token) v ↔ v = fst <$> token.
Proof.
  revert v. induction token as [|[c e] token IH]; intros v Hw; simpl in *.
  { split; [by inversion 1|by intros ->; constructor]. }
  apply orb_false_iff in Hw as [Hc Hw].
  assert (pattern_atom (c, e) = Literal c) as Ha.
  { unfold is_wildcard in Hc. simpl in *. destruct e; [done|]. simpl in Hc.
    apply orb_false_iff in Hc as [Hs Hq]. by rewrite Hs, Hq. }
  simpl in Ha. rewrite Ha. split.
  - inversion 1; subst. f_equal. by apply IH.
  - intros ->. constructor. by apply IH.
Qed.

(** The argument vector with another name for the program. *)
Definition with_program (program : option (list Z)) (argv : list (list Z)) : list (list Z) :=
  match argv with a :: r => default a program :: r | [] => [] end.

Lemma zip_arguments {X : Type} (f : X → list Z → bool) (l : list X) (argv : list (list Z))
    (program : option (list Z)) :
  (length l =? length argv)%nat &&
  forallb (λ ixa, f ixa.2.1 (argument_at program ixa.1 ixa.2.2)) (imap pair (zip l argv)) = true ↔
  Forall2 (λ x a, f x a = true) l (with_program program argv).
Proof.
  assert (∀ (g : nat → nat) (l : list X) (r : list (list Z)), (∀ i, g i ≠ 0%nat) →
    (length l =? length r)%nat &&
    forallb (λ ixa, f ixa.2.1 (argument_at program ixa.1 ixa.2.2))
      (imap (λ i xa, (g i, xa)) (zip l r)) = true ↔
    Forall2 (λ x a, f x a = true) l r) as Htail.
  { intros g l' r. revert g l'. induction r as [|a r IH]; intros g [|x l'] Hg; simpl;
      try (by split; inversion 1).
    specialize (IH (g ∘ S) l'). rewrite Forall2_cons, <-IH by (intros; apply Hg).
    unfold argument_at at 1. rewrite (proj2 (Nat.eqb_neq _ _) (Hg 0%nat)), !andb_true_iff. tauto. }
  destruct l as [|x l], argv as [|a argv]; simpl; try (by split; inversion 1).
  specialize (Htail S l argv). rewrite Forall2_cons, <-Htail, !andb_true_iff by done.
  unfold argument_at at 1. simpl. tauto.
Qed.

Lemma Forall2_proper_tok {X Y : Type} (P Q : X → Y → Prop) (l : list X) (k : list Y) :
  (∀ x y, x ∈ l → P x y ↔ Q x y) → Forall2 P l k ↔ Forall2 Q l k.
Proof.
  revert k. induction l as [|x l IH]; intros [|y k] H; try (by split; inversion 1).
  rewrite !Forall2_cons, IH by (intros; apply H; set_solver). rewrite H by set_solver. done.
Qed.

Lemma parsed_tokens_of (source : list Z) :
  match open_token (scan_rule source) with
  | [] => parsed_tokens (scan_rule source)
  | token => parsed_tokens (scan_rule source) ++ [token]
  end = tokens_of source.
Proof. unfold tokens_of. destruct (open_token _); [by rewrite app_nil_r|done]. Qed.

Lemma compile_rule_ok (rule_list : string) (index : nat) (source : list Z)
    (rule : CompiledRule) :
  compile_rule rule_list index source = Ok rule ↔
  contains_byte source 0 = false ∧ scan_escaped (scan_rule source) = false ∧
  tokens_of source ≠ [] ∧
  rule = {| rule_source := source;
            rule_tokens := foldl push_atom [] <$> tokens_of source;
            rule_exact := if existsb is_wildcard (concat (tokens_of source)) then None
                          else Some ((λ token : list (Z * bool), fst <$> token)
                                       <$> tokens_of source) |}.
Proof.
  unfold compile_rule. cbv zeta. rewrite parsed_tokens_of.
  destruct (contains_byte source 0); [naive_solver|].
  destruct (scan_escaped (scan_rule source)); [naive_solver|].
  destruct (tokens_of source) as [|token tokens]; naive_solver.
Qed.

Lemma matches_with_program_spec (rule_list : string) (index : nat) (source : list Z)
    (rule : CompiledRule) (argv : list (list Z)) (program : option (list Z)) :
  compile_rule rule_list index source = Ok rule →
  matches_with_program rule argv program = true ↔
  Forall2 (λ token arg, matches (pattern_atom <$> token) arg) (tokens_of source)
    (with_program program argv).
Proof.
  rewrite compile_rule_ok. intros (_ & _ & _ & ->). unfold matches_with_program. simpl.
  destruct (existsb is_wildcard _) eqn:Ew.
  - rewrite (zip_arguments token_matches), Forall2_fmap_l. apply Forall2_proper_tok.
    intros token arg _. unfold compose. rewrite token_matches_spec. by rewrite push_atoms_matches.
  - pose proof (zip_arguments (λ e a : list Z, bool_decide (e = a))) as Hz.
    etrans; [apply Hz|]. rewrite Forall2_fmap_l. apply Forall2_proper_tok.
    intros token arg Hin. unfold compose. rewrite bool_decide_eq_true, literal_matches; [by split|].
    apply not_true_is_false. intros Ht. apply existsb_exists in Ht as (ce & Hce & Hw).
    assert (existsb is_wildcard (concat (tokens_of source)) = true); [|congruence].
    apply existsb_exists. exists ce. split; [|done]. apply in_concat. exists token.
    by rewrite <-list_elem_of_In.
Qed.

Lemma rule_matches_spec (rule_list : string) (index : nat) (source : list Z)
    (rule : CompiledRule) (argv : list (list Z)) :
  compile_rule rule_list index source = Ok rule →
  rule_matches rule argv = true ↔ rule_says source argv.
Proof.
  intros Hc. unfold rule_matches, rule_says, tokens_say.
  pose proof (λ p, matches_with_program_spec _ _ _ _ argv p Hc) as Hm.
  assert (with_program (head argv) argv = argv) as Hh by by destruct argv.
  specialize (Hm (head argv)) as Hm0. rewrite Hh in Hm0.
  destruct (matches_with_program rule argv (head argv)) eqn:E0.
  { split; [|done]. intros _. left. by apply Hm0. }
  assert (¬ Forall2 (λ token arg, matches (pattern_atom <$> token) arg) (tokens_of source) argv)
    as Hno by (rewrite <-Hm0; congruence).
  unfold program_basename. destruct argv as [|program args]; simpl in *.
  { split; [done|]. intros [?|(? & ? & ? & ? & _)]; done. }
  destruct (file_name program) as [name|] eqn:En.
  - case_bool_decide as Eb.
    + subst. split; [done|]. intros [?|(? & ? & ? & ? & Hn & ?)]; simplify_eq; done.
    + rewrite Hm. split; [intros ?; right; naive_solver|].
      intros [?|(? & ? & ? & ? & Hn & ?)]; simplify_eq; done.
  - split; [done|]. intros [?|(? & ? & ? & ? & Hn & ?)]; simplify_eq; done.
Qed.

Lemma compiled_matches (name : string) (sources : list (list Z)) (rules : list CompiledRule)
    (argv : list (list Z)) :
  compile_list name sources = Ok rules →
  is_Some (List.find (λ rule, rule_matches rule argv) rules) ↔
  ∃ source, source ∈ sources ∧ rule_says source argv.
Proof.
  unfold compile_list. rewrite collect_ok. intros Hf.
  assert (Forall2 (λ source rule, rule_matches rule argv = true ↔ rule_says source argv)
            sources rules) as Hr.
  { apply Forall2_same_length_lookup. split.
    - apply Forall2_length in Hf. by rewrite length_imap in Hf.
    - rewrite Forall2_lookup in Hf. intros i source rule Hs Hr. specialize (Hf i). rewrite list_lookup_imap, Hs, Hr in Hf.
      inversion Hf; subst. by eapply rule_matches_spec. }
  clear Hf. induction Hr as [|source rule sources rules Hsr Hr IH]; simpl.
  - split; [by intros []|]. intros (? & ?%elem_of_nil & _). done.
  - destruct (rule_matches rule argv).
    + split; [intros _|done]. exists source. split; [set_solver|tauto].
    + rewrite IH. split.
      * intros (s & ? & ?). exists s. set_solver.
      * intros (s & [->|?]%elem_of_cons & Hs); [|by exists s]. by apply Hsr in Hs.
Qed.

(** *** The grammar *)

Lemma scan_token (token : list (Z * bool)) (done open : list _) :
  Forall writable token →
  foldl scan_char {| parsed_tokens := done; open_token := open; scan_escaped := false |}
    (concat (write_char <$> token)) =
  {| parsed_tokens := done; open_token := open ++ token; scan_escaped := false |}.
Proof.
  intros Hw. revert open. induction Hw as [|[c e] token [_ Hc] Hw IH]; intros open; simpl.
  { by rewrite app_nil_r. }
  rewrite foldl_app. replace (open ++ (c, e) :: token) with ((open ++ [(c, e)]) ++ token)
    by by rewrite <-app_assoc.
  rewrite <-IH. f_equal. unfold write_char, scan_char. destruct e; simpl; [done|].
  destruct (Hc eq_refl) as [Hb Hs]. simpl in *. by rewrite (proj2 (Z.eqb_neq _ _) Hb), Hs.
Qed.

Lemma scan_write (tokens done : list (list (Z * bool))) (token : list (Z * bool)) :
  Forall (λ t, t ≠ [] ∧ Forall writable t) (token :: tokens) →
  let s := foldl scan_char {| parsed_tokens := done; open_token := []; scan_escaped := false |}
             (write_rule (token :: tokens)) in
  parsed_tokens s ++ [open_token s] = done ++ token :: tokens ∧
  open_token s ≠ [] ∧ scan_escaped s = false.
Proof.
  revert done token. induction tokens as [|next tokens IH]; intros done token Hw; simpl.
  - apply Forall_cons in Hw as [[Hne Hw] _]. unfold write_rule. simpl.
    rewrite scan_token by done. done.
  - apply Forall_cons in Hw as [[Hne Hw] Hr]. unfold write_rule. simpl. rewrite foldl_app. simpl.
    rewrite scan_token by done. simpl. unfold scan_char at 2 4 6. simpl.
    destruct token as [|ce token]; [done|]. simpl.
    replace (done ++ (ce :: token) :: next :: tokens)
      with ((done ++ [ce :: token]) ++ next :: tokens) by by rewrite <-app_assoc.
    by apply IH.
Qed.

Lemma write_rule_no_nul (tokens : list (list (Z * bool))) :
  Forall (λ t, t ≠ [] ∧ Forall writable t) tokens → contains_byte (write_rule tokens) 0 = false.
Proof.
  intros Hw. apply bool_decide_eq_false_2. unfold write_rule.
  induction Hw as [|token tokens [_ Ht] Hw IH]; simpl; [by apply not_elem_of_nil|].
  assert (0 ∉ concat (write_char <$> token)) as Hn.
  { clear -Ht. induction Ht as [|[c []] token [Hc _] Ht IH]; simpl in *; set_solver. }
  destruct tokens as [|next tokens]; [done|]. simpl in *.
  rewrite elem_of_app, elem_of_cons. intros [?|[?|?]]; done.
Qed.

Definition sample_commands : CommandPolicy :=
  {| cp_default_action := Deny;
     cp_allowlist := [str "git *"; str "ls"];
     cp_denylist := [str "git push"];
     cp_log_blocked := true |}.

(** ** Properties *)

(** C37: a command is admitted exactly when no deny rule says its argument
    vector and an allow rule does or the default is to allow: rules are compared
    argument by argument, the program by its path or by its file name. *)
Theorem evaluate_command_exact (policy : CommandPolicy) (c : CompiledCommandPolicy)
    (argv : list (list Z)) :
  compile_commands policy = Ok c →
  disposition (evaluate_command c argv) = AdmissionAllow ↔
  ¬ (∃ source, source ∈ cp_denylist policy ∧ rule_says source argv) ∧
  ((∃ source, source ∈ cp_allowlist policy ∧ rule_says source argv) ∨
   cp_default_action policy = Allow).
Proof.
  unfold compile_commands. intros Hc.
  destruct (compile_list "allowlist" _) as [allow|] eqn:Ea; [|done].
  destruct (compile_list "denylist" _) as [deny|] eqn:Ed; [|done]. simplify_eq.
  rewrite <-(compiled_matches _ _ _ argv Ea), <-(compiled_matches _ _ _ argv Ed).
  unfold evaluate_command. simpl.
  destruct (List.find _ deny) as [rule|]; simpl.
  { split; [done|]. intros [[] _]. done. }
  destruct (List.find _ allow) as [rule|]; simpl.
  { split; [|done]. intros _. split; [by intros []|by left]. }
  split.
  - intros Hd. split; [by intros []|right]. by destruct (cp_default_action policy).
  - intros [_ [[]| ->]]; done.
Qed.

Lemma evaluate_command_exact_witness :
  ∃ c, compile_commands sample_commands = Ok c ∧
       disposition (evaluate_command c [str "/usr/bin/git"; str "status"]) = AdmissionAllow ∧
       ¬ (∃ source, source ∈ cp_denylist sample_commands ∧
                    rule_says source [str "/usr/bin/git"; str "status"]).
Proof.
  eexists. split; [vm_compute; reflexivity|]. split; [vm_compute; reflexivity|].
  refine (proj1 (proj1 (evaluate_command_exact sample_commands _ _ _) _));
    vm_compute; reflexivity.
Defined.

(** every sequence of tokens can be written as a rule: the text made by
    escaping characters with a backslash and separating tokens by a blank
    compiles, and matches exactly the argument vectors the tokens say. *)
Theorem command_rule_roundtrip (rule_list : string) (index : nat)
    (tokens : list (list (Z * bool))) :
  tokens ≠ [] → Forall (λ t, t ≠ [] ∧ Forall writable t) tokens →
  ∃ rule, compile_rule rule_list index (write_rule tokens) = Ok rule ∧
          ∀ argv, rule_matches rule argv = true ↔ tokens_say tokens argv.
Proof.
  intros Hne Hw. destruct tokens as [|token tokens]; [done|].
  destruct (scan_write tokens [] token Hw) as (Ht & Ho & He).
  assert (tokens_of (write_rule (token :: tokens)) = token :: tokens) as Htok.
  { unfold tokens_of, scan_rule. cbv zeta. transitivity (parsed_tokens (scan_rule (write_rule (token :: tokens))) ++
      [open_token (scan_rule (write_rule (token :: tokens)))]); [|exact Ht].
    f_equal. unfold scan_rule. by destruct (open_token _). }
  eexists. split.
  - apply compile_rule_ok. split_and!; [by apply write_rule_no_nul|done|by rewrite Htok|done].
  - intros argv. rewrite rule_matches_spec.
    + unfold rule_says. by rewrite Htok.
    + apply (compile_rule_ok rule_list index).
      split_and!; [by apply write_rule_no_nul|done|by rewrite Htok|done].
Qed.

Lemma command_rule_roundtrip_witness :
  ∃ rule, compile_rule "allowlist" 0 (write_rule [[(103, false); (32, true)]; [(42, false)]]) =
          Ok rule ∧
          ∀ argv, rule_matches rule argv = true ↔
                  tokens_say [[(103, false); (32, true)]; [(42, false)]] argv.
Proof.
  apply command_rule_roundtrip; [done|].
  repeat (constructor || done); simpl; intros; split; done.
Defined.
