(* ===== verification/GitArgv.v ===== *)
(** * Git argument vectors ([crates/sendbox-git/src/argv.rs], [error.rs])

    How the guard reads a [git] command line: the global options before the
    command, the options of [push] and [pull], and the words of an alias. *)

From S2P Require Import Prelude RustStr.

(** ** Definitions *)

Inductive Operation : Type := Push | Pull.

#[global] Instance Operation_eq_dec : EqDecision Operation.
Proof. solve_decision. Defined.

Definition operation_as_str (o : Operation) : list Z :=
  match o with Push => str "push" | Pull => str "pull" end.

Inductive GuardError : Type :=
| InvalidPolicy (reason : list Z)
| InvalidInvocation (reason : list Z)
| Denied (operation reason : list Z)
| AmbiguousRepository
| UnresolvedState (reason : list Z)
| InvalidGitBinary (path reason : list Z)
| InvalidPolicyFile (path reason : list Z)
| ProbeTimeout
| ProbeOutputLimit
| ProcessFailed (kind : list Z).

Definition denied (operation : Operation) (reason : list Z) : GuardError :=
  Denied (operation_as_str operation) reason.

(** *** Global options *)

Definition GLOBAL_VALUE_OPTIONS : list (list Z) :=
  str <$> ["-C"; "-c"; "--config-env"; "--exec-path"; "--git-dir"; "--namespace";
           "--super-prefix"; "--work-tree"]%string.

Definition GLOBAL_FLAG_OPTIONS : list (list Z) :=
  str <$> ["--bare"; "--glob-pathspecs"; "--help"; "--html-path"; "--icase-pathspecs";
           "--info-path"; "--literal-pathspecs"; "--man-path"; "--no-advice";
           "--no-optional-locks"; "--no-pager"; "--no-replace-objects"; "--noglob-pathspecs";
           "--paginate"; "--version"]%string.

Record GlobalInvocation : Type := {
  global_arguments : list (list Z);
  command : option (list Z);
  command_arguments : list (list Z);
  global_unsupported : list (list Z);
}.

Definition contains_str (l : list (list Z)) (s : list Z) : bool := bool_decide (s ∈ l).

Definition global_value_prefix (argument : list Z) : option (list Z) :=
  List.find (λ option, starts_with argument (option ++ str "="))
    (filter (λ option, starts_with option (str "--") = true) GLOBAL_VALUE_OPTIONS).

Definition compact_global_value (argument : list Z) : bool :=
  (starts_with argument (str "-C") || starts_with argument (str "-c")) &&
  (2 <? length argument)%nat.

(** The [while] loop, on the arguments not yet read. *)
Fixpoint parse_globals (arguments : list (list Z)) (globals unsupported : list (list Z))
  : result GuardError GlobalInvocation :=
  match arguments with
  | [] => Ok {| global_arguments := globals; command := None; command_arguments := [];
                global_unsupported := unsupported |}
  | argument :: rest =>
      if bool_decide (argument = str "--") then
        Ok {| global_arguments := globals; command := head rest;
              command_arguments := tail rest; global_unsupported := unsupported |}
      else if contains_str GLOBAL_VALUE_OPTIONS argument then
        match rest with
        | [] => Err (InvalidInvocation
                       (str "Git option `" ++ argument ++ str "` is missing its value"))
        | value :: rest => parse_globals rest (globals ++ [argument; value]) unsupported
        end
      else if bool_decide (is_Some (global_value_prefix argument)) ||
              compact_global_value argument
      then parse_globals rest (globals ++ [argument]) unsupported
      else if contains_str GLOBAL_FLAG_OPTIONS argument
      then parse_globals rest (globals ++ [argument]) unsupported
      else if starts_with argument (str "-")
      then parse_globals rest (globals ++ [argument]) (unsupported ++ [argument])
      else Ok {| global_arguments := globals; command := Some argument;
                 command_arguments := rest; global_unsupported := unsupported |}
  end.

Definition parse_invocation (arguments : list (list Z)) : result GuardError GlobalInvocation :=
  parse_globals arguments [] [].

(** *** Options of push and pull *)

Definition value_options (o : Operation) : list (list Z) :=
  str <$> match o with
          | Push => ["--exec"; "--push-option"; "--receive-pack"; "-o"]%string
          | Pull => ["--deepen"; "--depth"; "--jobs"; "--negotiation-tip";
                     "--recurse-submodules"; "--server-option"; "--shallow-exclude";
                     "--shallow-since"; "--strategy"; "--strategy-option"; "--upload-pack";
                     "-X"; "-j"; "-s"]%string
          end.

Definition flag_options (o : Operation) : list (list Z) :=
  str <$> match o with
          | Push => ["--atomic"; "--dry-run"; "--force"; "--force-if-includes"; "--ipv4";
                     "--ipv6"; "--no-signed"; "--no-thin"; "--no-verify"; "--porcelain";
                     "--progress"; "--quiet"; "--set-upstream"; "--thin"; "--verbose"; "-f";
                     "-q"; "-u"; "-v"]%string
          | Pull => ["--allow-unrelated-histories"; "--autostash"; "--commit"; "--dry-run";
                     "--edit"; "--ff"; "--ff-only"; "--force"; "--gpg-sign"; "--ipv4";
                     "--ipv6"; "--log"; "--no-autostash"; "--no-commit"; "--no-edit";
                     "--no-ff"; "--no-log"; "--no-rebase"; "--no-signoff"; "--no-stat";
                     "--no-tags"; "--no-verify-signatures"; "--progress"; "--quiet";
                     "--rebase"; "--show-forced-updates"; "--signoff"; "--stat"; "--tags";
                     "--update-head-ok"; "--verbose"; "-f"; "-n"; "-q"; "-r"; "-v"]%string
          end.

Definition broad_options (o : Operation) : list (list Z) :=
  str <$> match o with
          | Push => ["--all"; "--branches"; "--follow-tags"; "--mirror"; "--prune";
                     "--tags"]%string
          | Pull => ["--all"]%string
          end.

Definition long_value_option (o : Operation) (argument : list Z) : bool :=
  existsb (λ option, starts_with argument (option ++ str "="))
    (filter (λ option, starts_with option (str "--") = true) (value_options o)) ||
  starts_with argument (str "--force-with-lease=") ||
  starts_with argument (str "--signed=") ||
  starts_with argument (str "--gpg-sign=") ||
  starts_with argument (str "--log=") ||
  starts_with argument (str "--rebase=").

Definition compact_value_option (o : Operation) (argument : list Z) : bool :=
  match o with
  | Push => starts_with argument (str "-o") && (2 <? length argument)%nat
  | Pull => existsb (λ option, starts_with argument option && (2 <? length argument)%nat)
              [str "-X"; str "-j"; str "-s"]
  end.

Definition optional_value_option (o : Operation) (argument : list Z) : bool :=
  match o with
  | Push =>
      contains_str [str "--force-with-lease"; str "--recurse-submodules"; str "--signed"]
        argument ||
      starts_with argument (str "--recurse-submodules=")
  | Pull => false
  end.

(** The local variables of the loop. *)
Record operation_state : Type := {
  repository_option : option (list Z);
  positionals : list (list Z);
  os_broad : option (list Z);
  os_unsupported : list (list Z);
  os_help : bool;
  os_delete : bool;
}.

Definition operation_state_new : operation_state :=
  {| repository_option := None; positionals := []; os_broad := None; os_unsupported := [];
     os_help := false; os_delete := false |}.

Definition set_repository (v : list Z) (s : operation_state) : operation_state :=
  {| repository_option := Some v; positionals := positionals s; os_broad := os_broad s;
     os_unsupported := os_unsupported s; os_help := os_help s; os_delete := os_delete s |}.
Definition add_positionals (l : list (list Z)) (s : operation_state) : operation_state :=
  {| repository_option := repository_option s; positionals := positionals s ++ l;
     os_broad := os_broad s; os_unsupported := os_unsupported s; os_help := os_help s;
     os_delete := os_delete s |}.
Definition set_broad (a : list Z) (s : operation_state) : operation_state :=
  {| repository_option := repository_option s; positionals := positionals s;
     os_broad := Some a; os_unsupported := os_unsupported s; os_help := os_help s;
     os_delete := os_delete s |}.
Definition add_unsupported (a : list Z) (s : operation_state) : operation_state :=
  {| repository_option := repository_option s; positionals := positionals s;
     os_broad := os_broad s; os_unsupported := os_unsupported s ++ [a]; os_help := os_help s;
     os_delete := os_delete s |}.
Definition set_help (s : operation_state) : operation_state :=
  {| repository_option := repository_option s; positionals := positionals s;
     os_broad := os_broad s; os_unsupported := os_unsupported s; os_help := true;
     os_delete := os_delete s |}.
Definition set_delete (s : operation_state) : operation_state :=
  {| repository_option := repository_option s; positionals := positionals s;
     os_broad := os_broad s; os_unsupported := os_unsupported s; os_help := os_help s;
     os_delete := true |}.

Fixpoint parse_operation_loop (o : Operation) (arguments : list (list Z)) (s : operation_state)
  : result GuardError operation_state :=
  match arguments with
  | [] => Ok s
  | argument :: rest =>
      if contains_str [str "-h"; str "--help"] argument then parse_operation_loop o rest (set_help s)
      else if bool_decide (argument = str "--") then Ok (add_positionals rest s)
      else if contains_str (broad_options o) argument
      then parse_operation_loop o rest (set_broad argument s)
      else if bool_decide (argument = str "--delete") then parse_operation_loop o rest (set_delete s)
      else if bool_decide (argument = str "--repo") then
        match rest with
        | [] => Err (InvalidInvocation (str "Git --repo is missing its value"))
        | value :: rest => parse_operation_loop o rest (set_repository value s)
        end
      else match strip_prefix (str "--repo=") argument with
      | Some [] => Err (InvalidInvocation (str "Git --repo is missing its value"))
      | Some value => parse_operation_loop o rest (set_repository value s)
      | None =>
      if contains_str (value_options o) argument then
        match rest with
        | [] => Err (InvalidInvocation (str "Git " ++ operation_as_str o ++ str " option `" ++
                                        argument ++ str "` is missing its value"))
        | _ :: rest => parse_operation_loop o rest s
        end
      else if long_value_option o argument || compact_value_option o argument
      then parse_operation_loop o rest s
      else if contains_str (flag_options o) argument || optional_value_option o argument
      then parse_operation_loop o rest s
      else if starts_with argument (str "-")
      then parse_operation_loop o rest (add_unsupported argument s)
      else parse_operation_loop o rest (add_positionals [argument] s)
      end
  end.

Record OperationArguments : Type := {
  repository : option (list Z);
  refspecs : list (list Z);
  broad_option : option (list Z);
  unsupported_options : list (list Z);
  help_requested : bool;
  delete_refs : bool;
}.

Definition parse_operation_arguments (o : Operation) (arguments : list (list Z))
  : result GuardError OperationArguments :=
  let? s := parse_operation_loop o arguments operation_state_new in
  let '(repository, refspecs) :=
    match repository_option s, positionals s with
    | Some r, l => (Some r, l)
    | None, [] => (None, [])
    | None, r :: l => (Some r, l)
    end in
  Ok {| repository := repository; refspecs := refspecs; broad_option := os_broad s;
        unsupported_options := os_unsupported s; help_requested := os_help s;
        delete_refs := os_delete s |}.

(** *** Aliases *)

Inductive quote_state : Type := Unquoted | SingleQuoted | DoubleQuoted.

Definition incomplete_escape : GuardError :=
  InvalidInvocation (str "Git alias ends with an incomplete escape").

Fixpoint alias_loop (value : list Z) (quote : quote_state) (current : list Z)
    (words : list (list Z)) : result GuardError (list (list Z)) :=
  match value with
  | [] =>
      match quote with
      | Unquoted => Ok (match current with [] => words | _ => words ++ [current] end)
      | _ => Err (InvalidInvocation (str "Git alias contains an unterminated quote"))
      end
  | character :: rest =>
      let push := alias_loop rest quote (current ++ utf8_encode character) words in
      let escape :=
        match rest with
        | [] => Err incomplete_escape
        | escaped :: rest => alias_loop rest quote (current ++ utf8_encode escaped) words
        end in
      match quote with
      | SingleQuoted =>
          if character =? ch_quote then alias_loop rest Unquoted current words else push
      | DoubleQuoted =>
          if character =? ch_dquote then alias_loop rest Unquoted current words
          else if character =? ch_backslash then escape
          else push
      | Unquoted =>
          if character =? ch_quote then alias_loop rest SingleQuoted current words
          else if character =? ch_dquote then alias_loop rest DoubleQuoted current words
          else if character =? ch_backslash then escape
          else if char_is_whitespace character then
            match current with
            | [] => alias_loop rest quote current words
            | _ => alias_loop rest quote [] (words ++ [current])
            end
          else push
      end
  end.

Definition parse_alias_words (value : list Z) : result GuardError (list (list Z)) :=
  alias_loop (chars value) Unquoted [] [].
