(* ===== verification/GitBranch.v ===== *)
(** * Branch protection ([crates/sendbox-git/src/pattern.rs])

    The compiled branch policy, the normal form of a branch name and the check
    every branch of a guarded operation has to pass. *)

From S2P Require Import Prelude RustStr Glob GitArgv.

(** ** Definitions *)

Record BranchPolicyConfiguration : Type := {
  bc_enabled : bool;
  bc_username : option (list Z);
  bc_protected_branches : list (list Z);
  bc_allowed_branch_patterns : list (list Z);
}.

Definition BranchPolicyConfiguration_default : BranchPolicyConfiguration :=
  {| bc_enabled := true; bc_username := None;
     bc_protected_branches := [str "main"; str "master"];
     bc_allowed_branch_patterns := [str "{username}/*"; str "copilot/*"; str "feature/*"] |}.

Record BranchPolicy : Type := {
  bp_enabled : bool;
  bp_protected_branches : list (list Z);
  bp_allowed_patterns : list (list Z);
}.

Definition forbidden_chars : list Z := str " ~^:?*[\" ++ [127].

Definition valid_branch_name (value : list Z) : bool :=
  negb (length value =? 0)%nat &&
  negb (bool_decide (value = str "@")) &&
  negb (starts_with value (str ".") || starts_with value (str "/")) &&
  negb (ends_with value (str ".") || ends_with value (str "/")) &&
  negb (ends_with value (str ".lock")) &&
  negb (contains_sub value (str "..")) &&
  negb (contains_sub value (str "@{")) &&
  negb (contains_sub value (str "//")) &&
  negb (existsb (λ c, char_is_control c || bool_decide (c ∈ forbidden_chars)) (chars value)).

Definition valid_github_login (value : list Z) : bool :=
  (length value <=? 39)%nat &&
  negb (starts_with value (str "-")) &&
  negb (ends_with value (str "-")) &&
  negb (contains_sub value (str "--")) &&
  forallb (λ b, is_ascii_alphanumeric b || (b =? ch_hyphen)) value.

Definition normalize_branch (branch : list Z) : option (list Z) :=
  let value := trim branch in
  let value := trim_start_matches ch_plus value in
  let value := trim value in
  let stripped :=
    match strip_prefix (str "refs/heads/") value with
    | Some remainder => Some remainder
    | None =>
        match strip_prefix (str "refs/remotes/") value with
        | Some remainder => snd <$> split_once ch_slash remainder
        | None => if starts_with value (str "refs/") then None else Some value
        end
    end in
  match stripped with
  | None => None
  | Some value =>
      let value := trim value in
      if bool_decide (value = str "HEAD") || bool_decide (value = str "@") ||
         starts_with value (str "+") || starts_with value (str "refs/")
      then None
      else if valid_branch_name value then Some value else None
  end.

(** [str::replace] of a nonempty text. *)
Fixpoint str_replace (from to : list Z) (skip : nat) (s : list Z) : list Z :=
  match s with
  | [] => []
  | b :: r =>
      match skip with
      | S k => str_replace from to k r
      | O => if starts_with s from then to ++ str_replace from to (pred (length from)) r
             else b :: str_replace from to 0 r
      end
  end.

(** One pattern of the configuration; [None] when it needs a user name and none
    is configured. *)
Definition pattern_entry (username : option (list Z)) (pattern : list Z)
  : option (result GuardError (list Z)) :=
  let pattern := trim pattern in
  if (length pattern =? 0)%nat
  then Some (Err (InvalidPolicy (str "allowed branch pattern is empty")))
  else if contains_byte pattern 0 || contains_byte pattern 91 || contains_byte pattern 93
  then Some (Err (InvalidPolicy (str "allowed branch pattern `" ++ pattern ++
                                 str "` is unsupported")))
  else if contains_sub pattern (str "{username}") then
    (λ username, Ok (str_replace (str "{username}") username 0 pattern)) <$> username
  else Some (Ok pattern).

Definition branch_compile (configuration : BranchPolicyConfiguration)
  : result GuardError BranchPolicy :=
  let username :=
    match trim <$> bc_username configuration with
    | Some [] => None
    | username => username
    end in
  if match username with Some username => negb (valid_github_login username) | None => false end
  then Err (InvalidPolicy (str "branch protection username is invalid"))
  else
    let? protected_branches :=
      collect (λ branch,
        match normalize_branch branch with
        | Some branch => Ok branch
        | None => Err (InvalidPolicy (str "protected branch `" ++ branch ++ str "` is invalid"))
        end) (bc_protected_branches configuration) in
    let? allowed_patterns :=
      collect id (omap (pattern_entry username) (bc_allowed_branch_patterns configuration)) in
    Ok {| bp_enabled := bc_enabled configuration;
          bp_protected_branches := protected_branches;
          bp_allowed_patterns := allowed_patterns |}.

Definition branch_check (policy : BranchPolicy) (branch : list Z) (operation : Operation)
    (label : list Z) : result GuardError (list Z) :=
  match normalize_branch branch with
  | None => Err (denied operation (str "cannot safely resolve " ++ label ++ str " branch `" ++
                                   branch ++ str "`"))
  | Some normalized =>
      if negb (bp_enabled policy) then Ok normalized
      else if existsb (λ protected, eq_ignore_ascii_case protected normalized)
                (bp_protected_branches policy)
      then Err (denied operation (str "protected branch `" ++ normalized ++ str "`"))
      else if negb (existsb (λ pattern, glob_matches normalized pattern)
                      (bp_allowed_patterns policy))
      then Err (denied operation (label ++ str " branch `" ++ normalized ++
                                  str "` does not match an allowed branch pattern"))
      else Ok normalized
  end.

(** ** Specification *)

(** A branch an enabled policy accepts: no protected branch in any case, and a
    match of an allowed pattern. *)
Definition branch_ok (policy : BranchPolicy) (branch : list Z) : Prop :=
  valid_branch_name branch = true ∧
  (∀ protected, protected ∈ bp_protected_branches policy →
     to_ascii_lowercase protected ≠ to_ascii_lowercase branch) ∧
  ∃ pattern, pattern ∈ bp_allowed_patterns policy ∧
             matches (glob_atoms (chars pattern)) (chars branch).

(** ** Lemmas *)

(** *** Trimming twice *)

(** No blank at the front, for blanks given by their UTF-8 bytes. *)
Definition no_blank (w2 : Z → Z → bool) (w3 : Z → Z → Z → bool) (s : list Z) : Prop :=
  (∀ a r, s = a :: r → ws1 a = false) ∧
  (∀ a b r, s = a :: b :: r → w2 a b = false) ∧
  (∀ a b c r, s = a :: b :: c :: r → w3 a b c = false).

Lemma no_blank_prefix (w2 : Z → Z → bool) (w3 : Z → Z → Z → bool) (p q : list Z) :
  no_blank w2 w3 (p ++ q) → no_blank w2 w3 p.
Proof.
  intros (H1 & H2 & H3). split_and!.
  - intros a r ->. by eapply H1.
  - intros a b r ->. by eapply H2.
  - intros a b c r ->. by eapply H3.
Qed.

Ltac trim_cases IH :=
  repeat match goal with
  | |- context [if ws1 ?a then _ else _] => destruct (ws1 a) eqn:?
  | |- context [match ?r with [] => _ | _ :: _ => _ end] => destruct r
  | |- context [if ws2 ?a ?b then _ else _] => destruct (ws2 a b) eqn:?
  | |- context [if ws3 ?a ?b ?c then _ else _] => destruct (ws3 a b c) eqn:?
  end; try (apply IH; simpl; lia).

Lemma trim_start_no_blank (s : list Z) : no_blank ws2 ws3 (trim_start s).
Proof.
  induction s as [s IH] using (induction_ltof1 _ (@length Z)). unfold ltof in IH.
  destruct s as [|a r]; [by split_and!; intros|]. simpl. trim_cases IH;
    split_and!; intros; simplify_eq; done.
Qed.

Lemma trim_start_id (s : list Z) : no_blank ws2 ws3 s → trim_start s = s.
Proof.
  intros (H1 & H2 & H3). destruct s as [|a [|b [|c r]]]; simpl; [done|..].
  - by rewrite (H1 a []).
  - by rewrite (H1 a [b]), (H2 a b []).
  - by rewrite (H1 a (b :: c :: r)), (H2 a b (c :: r)), (H3 a b c r).
Qed.

Definition ws2_rev (a b : Z) : bool := ws2 b a.
Definition ws3_rev (a b c : Z) : bool := ws3 c b a.

Lemma trim_start_rev_no_blank (s : list Z) : no_blank ws2_rev ws3_rev (trim_start_rev s).
Proof.
  induction s as [s IH] using (induction_ltof1 _ (@length Z)). unfold ltof in IH.
  destruct s as [|a r]; [by split_and!; intros|]. simpl. trim_cases IH;
    split_and!; intros; simplify_eq; done.
Qed.

Lemma trim_start_rev_id (s : list Z) : no_blank ws2_rev ws3_rev s → trim_start_rev s = s.
Proof.
  intros (H1 & H2 & H3). unfold ws2_rev, ws3_rev in *.
  destruct s as [|a [|b [|c r]]]; simpl; [done|..].
  - by rewrite (H1 a []).
  - by rewrite (H1 a [b]), (H2 a b []).
  - by rewrite (H1 a (b :: c :: r)), (H2 a b (c :: r)), (H3 a b c r).
Qed.

Lemma trim_start_rev_suffix (s : list Z) : ∃ p, s = p ++ trim_start_rev s.
Proof.
  induction s as [s IH] using (induction_ltof1 _ (@length Z)). unfold ltof in IH.
  assert (∀ p r, (0 < length p)%nat → s = p ++ r → ∃ q, s = q ++ trim_start_rev r) as Hstep.
  { intros p r Hp ->. destruct (IH r) as [q Hq]; [rewrite length_app; lia|].
    exists (p ++ q). by rewrite <-app_assoc, <-Hq. }
  destruct s as [|a r]; [by exists []|]. simpl. destruct (ws1 a); [by apply (Hstep [a] r); [simpl; lia|]|].
  destruct r as [|b r]; [by exists []|]. destruct (ws2 b a); [by apply (Hstep [a; b] r); [simpl; lia|]|].
  destruct r as [|c r]; [by exists []|]. destruct (ws3 c b a); [|by exists []].
  by apply (Hstep [a; b; c] r); [simpl; lia|].
Qed.

Lemma trim_idem (s : list Z) : trim (trim s) = trim s.
Proof.
  unfold trim, trim_end.
  rewrite (trim_start_id (reverse (trim_start_rev (reverse (trim_start s))))).
  - rewrite reverse_involutive. f_equal. apply trim_start_rev_id, trim_start_rev_no_blank.
  - destruct (trim_start_rev_suffix (reverse (trim_start s))) as [p Hp].
    apply (no_blank_prefix _ _ _ (reverse p)). rewrite <-reverse_app, <-Hp, reverse_involutive.
    apply trim_start_no_blank.
Qed.

(** *** Normal forms *)

Lemma trim_plus_none (s : list Z) : starts_with s (str "+") = false → trim_start_matches ch_plus s = s.
Proof.
  destruct s as [|b s]; [done|]. unfold starts_with. cbn [strip_prefix trim_start_matches].
  change (str "+") with [ch_plus]. cbn [strip_prefix]. rewrite (Z.eqb_sym b).
  by destruct (ch_plus =? b).
Qed.

Lemma not_refs (s p : list Z) :
  starts_with s (str "refs/") = false → strip_prefix (str "refs/" ++ p) s = None.
Proof.
  intros Hs. destruct (strip_prefix _ s) as [r|] eqn:E; [|done].
  apply strip_prefix_Some in E as ->. apply not_true_iff_false in Hs. exfalso. apply Hs.
  apply starts_with_true. exists (p ++ r). by rewrite <-app_assoc.
Qed.

(** A normal form: what [normalize_branch] returns. *)
Definition branch_normal (n : list Z) : Prop :=
  trim n = n ∧ valid_branch_name n = true ∧ n ≠ str "HEAD" ∧ n ≠ str "@" ∧
  starts_with n (str "+") = false ∧ starts_with n (str "refs/") = false.

Lemma normalize_branch_normal (b n : list Z) : normalize_branch b = Some n → branch_normal n.
Proof.
  unfold normalize_branch. cbv zeta.
  destruct (match strip_prefix _ _ with Some _ => _ | None => _ end) as [v|]; [|done].
  destruct (_ || _ || _ || _) eqn:Eb; [done|]. destruct (valid_branch_name _) eqn:Ev; [|done].
  intros [= <-]. bool_to_prop. split_and!; try done. apply trim_idem.
Qed.

Lemma normalize_branch_id (n : list Z) : branch_normal n → normalize_branch n = Some n.
Proof.
  intros (Ht & Hv & Hh & Ha & Hp & Hr). unfold normalize_branch. cbv zeta.
  rewrite Ht, trim_plus_none, Ht by done.
  change (str "refs/heads/") with (str "refs/" ++ str "heads/").
  change (str "refs/remotes/") with (str "refs/" ++ str "remotes/").
  rewrite !not_refs by done. rewrite Hr, Ht, !bool_decide_eq_false_2, Hp, Hr, Hv by done. done.
Qed.

Lemma eq_ignore_ascii_case_spec (s t : list Z) :
  eq_ignore_ascii_case s t = true ↔ to_ascii_lowercase s = to_ascii_lowercase t.
Proof. unfold eq_ignore_ascii_case. by rewrite bool_decide_eq_true. Qed.

Lemma valid_branch_no_star (n : list Z) : valid_branch_name n = true → ch_star ∉ chars n.
Proof.
  unfold valid_branch_name. intros H. bool_to_prop. intros Hin.
  assert (existsb (λ c, char_is_control c || bool_decide (c ∈ forbidden_chars)) (chars n) = true);
    [|congruence].
  apply existsb_exists. exists ch_star. split; [by apply list_elem_of_In|done].
Qed.

(** What a check of an enabled policy accepts. *)
Lemma branch_check_ok (policy : BranchPolicy) (b n : list Z) (o : Operation) (label : list Z) :
  bp_enabled policy = true → branch_check policy b o label = Ok n ↔
  normalize_branch b = Some n ∧ branch_ok policy n.
Proof.
  intros Hen. unfold branch_check, branch_ok. destruct (normalize_branch b) as [m|] eqn:En;
    [|naive_solver]. rewrite Hen. simpl.
  pose proof (normalize_branch_normal _ _ En) as (_ & Hv & _).
  destruct (existsb (λ p, eq_ignore_ascii_case p m) _) eqn:Ep.
  { split; [done|]. intros [[= <-] (_ & Hno & _)]. apply existsb_exists in Ep as (p & Hp & He).
    apply eq_ignore_ascii_case_spec in He. by apply Hno in He; [|apply list_elem_of_In]. }
  assert (∀ p, p ∈ bp_protected_branches policy → to_ascii_lowercase p ≠ to_ascii_lowercase m)
    as Hno.
  { intros p Hp He. apply eq_ignore_ascii_case_spec in He. apply not_true_iff_false in Ep.
    apply Ep, existsb_exists. exists p. split; [by apply list_elem_of_In|done]. }
  pose proof (λ p, glob_exact m p) as Hg.
  destruct (existsb (λ p, glob_matches m p) _) eqn:Ea; simpl.
  - apply existsb_exists in Ea as (p & Hp & Hm). split; [|naive_solver]. intros [= <-].
    split; [done|]. split_and!; [done|done|]. exists p. split; [by apply list_elem_of_In|].
    by apply Hg.
  - split; [done|]. intros [[= <-] (_ & _ & p & Hp & Hm)]. apply not_true_iff_false in Ea.
    exfalso. apply Ea, existsb_exists. exists p. split; [by apply list_elem_of_In|].
    apply Hg; [by apply valid_branch_no_star|done].
Qed.

Definition sample_branches : BranchPolicy :=
  {| bp_enabled := true; bp_protected_branches := [str "main"];
     bp_allowed_patterns := [str "feature/*"] |}.

(** ** Properties *)

(** the check of an enabled policy accepts exactly the branches whose normal
    form is a valid branch name, is no protected branch whatever its case, and
    matches an allowed pattern, and returns that normal form; normal forms are
    fixed points of normalization. *)
Theorem branch_check_exact (policy : BranchPolicy) (b n : list Z) (o : Operation)
    (label : list Z) :
  bp_enabled policy = true →
  (branch_check policy b o label = Ok n ↔ normalize_branch b = Some n ∧ branch_ok policy n) ∧
  (normalize_branch b = Some n → normalize_branch n = Some n).
Proof.
  intros Hen. split; [by apply branch_check_ok|].
  intros Hn. by eapply normalize_branch_id, normalize_branch_normal.
Qed.

Lemma branch_check_exact_witness :
  normalize_branch (str "+refs/heads/feature/a") = Some (str "feature/a") ∧
  branch_ok sample_branches (str "feature/a").
Proof.
  refine (proj1 (proj1 (branch_check_exact sample_branches (str "+refs/heads/feature/a")
                          (str "feature/a") Push (str "current") eq_refl)) _).
  vm_compute. reflexivity.
Defined.
