(* ===== verification/GitIdentity.v ===== *)
(** * Repository identities ([crates/sendbox-git/src/identity.rs])

    How the guard names the repository a remote URL stands for.  The [url] crate
    is the interface [UrlApi].  The file-system identity of the workspace is
    outside the model. *)

From S2P Require Import Prelude RustStr GitArgv.

(** ** Definitions *)

(** The parts of a parsed [url::Url]. *)
Record url_parts : Type := {
  url_scheme : list Z;
  url_host : option (list Z);
  url_port : option Z;
  url_path : list Z;
  url_has_query : bool;
  url_has_fragment : bool;
}.

Class UrlApi := { url_parse : list Z → option url_parts }.

Record RepositoryIdentity : Type := {
  id_host : list Z;
  id_owner : list Z;
  id_name : list Z;
}.

#[global] Instance RepositoryIdentity_eq_dec : EqDecision RepositoryIdentity.
Proof. solve_decision. Defined.

Definition has_whitespace (s : list Z) : bool := existsb char_is_whitespace (chars s).

Definition normalize_repository_host (value : list Z) : result GuardError (list Z) :=
  let value := to_ascii_lowercase (trim_end_matches ch_dot (trim value)) in
  if (length value =? 0)%nat ||
     (contains_byte value ch_slash || contains_byte value ch_backslash ||
      contains_byte value ch_at) ||
     has_whitespace value
  then Err (InvalidPolicy (str "selected repository host is invalid"))
  else Ok value.

Definition normalize_component (value label : list Z) : result GuardError (list Z) :=
  let value := to_ascii_lowercase (trim value) in
  if (length value =? 0)%nat || bool_decide (value = str ".") || bool_decide (value = str "..") ||
     (contains_byte value ch_slash || contains_byte value ch_backslash ||
      contains_byte value ch_colon) ||
     has_whitespace value
  then Err (InvalidPolicy (str "selected repository " ++ label ++ str " is invalid"))
  else Ok value.

Definition trim_git_suffix (value : list Z) : list Z :=
  if ends_with (to_ascii_lowercase value) (str ".git") then take (length value - 4) value
  else value.

Definition identity_new (host owner name : list Z) : result GuardError RepositoryIdentity :=
  let? host := normalize_repository_host host in
  let? owner := normalize_component owner (str "owner") in
  let? name := normalize_component (trim_git_suffix name) (str "repository") in
  Ok {| id_host := host; id_owner := owner; id_name := name |}.

Definition percent_hex (value : Z) : option Z :=
  if in_range 48 57 value then Some (value - 48)
  else if in_range 97 102 value then Some (value - 97 + 10)
  else if in_range 65 70 value then Some (value - 65 + 10)
  else None.

(** The percent decoding of [decode_component]. *)
Fixpoint percent_decode (bytes : list Z) : option (list Z) :=
  match bytes with
  | [] => Some []
  | 37 :: high :: low :: rest =>
      match percent_hex high, percent_hex low, percent_decode rest with
      | Some high, Some low, Some rest => Some (Z.lor (Z.shiftl high 4) low :: rest)
      | _, _, _ => None
      end
  | b :: rest => if b =? 37 then None else cons b <$> percent_decode rest
  end.

Definition decode_component (value : list Z) : result GuardError (list Z) :=
  if (length value =? 0)%nat then Err AmbiguousRepository
  else match percent_decode value ≫= from_utf8 with
       | None => Err AmbiguousRepository
       | Some decoded =>
           if (contains_byte decoded ch_slash || contains_byte decoded ch_backslash) ||
              bool_decide (decoded = str ".") || bool_decide (decoded = str "..")
           then Err AmbiguousRepository else Ok decoded
       end.

(** [trim_matches('/')]. *)
Definition trim_slashes (path : list Z) : list Z :=
  trim_end_matches ch_slash (trim_start_matches ch_slash path).

Definition from_host_path (host path : list Z) : result GuardError RepositoryIdentity :=
  let? components := collect decode_component (split_on ch_slash (trim_slashes path)) in
  match components with
  | [owner; name] => identity_new host owner name
  | _ => Err AmbiguousRepository
  end.

Definition scheme_port (scheme : list Z) : option Z :=
  if bool_decide (scheme = str "https") then Some 443
  else if bool_decide (scheme = str "http") then Some 80
  else if bool_decide (scheme = str "ssh") then Some 22
  else if bool_decide (scheme = str "git") then Some 9418
  else None.

Definition parse_url (url : url_parts) : result GuardError RepositoryIdentity :=
  if negb (contains_str [str "https"; str "http"; str "ssh"; str "git"] (url_scheme url))
  then Err AmbiguousRepository
  else if url_has_query url || url_has_fragment url then Err AmbiguousRepository
  else match url_host url with
       | None => Err AmbiguousRepository
       | Some host =>
           let host :=
             match url_port url with
             | Some explicit =>
                 if bool_decide (Some explicit = scheme_port (url_scheme url)) then host
                 else host ++ str ":" ++ show_dec explicit
             | None => host
             end in
           from_host_path host (url_path url)
       end.

(** [str::rsplit_once]. *)
Definition rsplit_once (c : Z) (s : list Z) : option (list Z * list Z) :=
  (λ xy, (reverse xy.2, reverse xy.1)) <$> split_once c (reverse s).

Definition parse_scp_like (value : list Z) : option (list Z * list Z) :=
  if contains_sub value (str "://") || starts_with value (str "/") then None
  else match split_once ch_colon value with
       | None => None
       | Some (prefix, path) =>
           if (length prefix =? 0)%nat || (length path =? 0)%nat ||
              contains_byte prefix ch_slash || contains_byte prefix ch_backslash
           then None
           else
             let host := match rsplit_once ch_at prefix with
                         | Some (_, host) => host
                         | None => prefix
                         end in
             if (length host =? 0)%nat then None else Some (host, path)
       end.

Definition identity_parse `{UrlApi} (remote : list Z) (shorthand_host : option (list Z))
  : result GuardError RepositoryIdentity :=
  let value := trim remote in
  if (length value =? 0)%nat then Err AmbiguousRepository
  else match url_parse value with
       | Some url => parse_url url
       | None =>
           match parse_scp_like value with
           | Some (host, path) => from_host_path host path
           | None =>
               match shorthand_host with
               | Some host => from_host_path host value
               | None => Err AmbiguousRepository
               end
           end
       end.
