(* ===== verification/GitGuard.v ===== *)
(** * The Git guard ([crates/sendbox-git/src/service.rs], [process.rs])

    The admission of a [git] command line, as a program that probes the
    repository with [git] itself: what a probe prints is outside the guard, so
    the theorems hold for every sequence of replies.  Environment sanitization
    and policy validation are included; running processes is not. *)

From S2P Require Import Prelude RustStr Glob GitArgv GitBranch GitIdentity.

(** ** Programs with probes *)

Record ProcessOutput : Type := {
  exit_code : option Z;
  stdout : list Z;
  stderr : list Z;
}.

(** A program asks [git] ([GQuery]), compares a path with the workspace
    ([GWorkspace]), or runs the admitted command ([GExecute]). *)
Inductive git (A : Type) : Type :=
| GRet (a : A)
| GQuery (arguments : list (list Z)) (k : result GuardError ProcessOutput → git A)
| GWorkspace (root : list Z) (k : result GuardError bool → git A)
| GExecute (arguments : list (list Z)) (k : result GuardError unit → git A).
Arguments GRet {A}.
Arguments GQuery {A}.
Arguments GWorkspace {A}.
Arguments GExecute {A}.

(** A program that returns or fails. *)
Definition guard (A : Type) : Type := git (result GuardError A).

Fixpoint git_bind {A B : Type} (p : git A) (f : A → git B) : git B :=
  match p with
  | GRet a => f a
  | GQuery l k => GQuery l (λ r, git_bind (k r) f)
  | GWorkspace root k => GWorkspace root (λ r, git_bind (k r) f)
  | GExecute l k => GExecute l (λ r, git_bind (k r) f)
  end.

(** The [?] operator. *)
Definition guard_bind {A B : Type} (p : guard A) (f : A → guard B) : guard B :=
  git_bind p (λ r, match r with Ok a => f a | Err e => GRet (Err e) end).

Definition lift {A : Type} (r : result GuardError A) : guard A := GRet r.
Definition done_ {A : Type} (a : A) : guard A := GRet (Ok a).
Definition fail {A : Type} (e : GuardError) : guard A := GRet (Err e).

Notation "'let*' x ':=' e 'in' k" := (guard_bind e (λ x, k))
  (at level 10, x name, k at level 200).
Notation "'let*' ' p ':=' e 'in' k" := (guard_bind e (λ x, match x with p => k end))
  (at level 10, p strict pattern, k at level 200).

(** ** The environment of guarded processes *)

Record EnvironmentPolicy : Type := {
  fixed_path : list Z;
  inherited_keys : gset (list Z);
}.

Definition EnvironmentPolicy_default : EnvironmentPolicy :=
  {| fixed_path := str "/usr/bin:/bin";
     inherited_keys := list_to_set (str <$> ["GIT_TERMINAL_PROMPT"; "HOME"; "LANG"; "LOGNAME";
                                             "SSH_AUTH_SOCK"; "TERM"; "TMPDIR"; "USER"]%string) |}.

Definition dangerous_keys : list (list Z) :=
  str <$> ["GIT_ALTERNATE_OBJECT_DIRECTORIES"; "GIT_ASKPASS"; "GIT_CEILING_DIRECTORIES";
           "GIT_COMMON_DIR"; "GIT_CONFIG"; "GIT_CONFIG_COUNT"; "GIT_CONFIG_GLOBAL";
           "GIT_CONFIG_NOSYSTEM"; "GIT_CONFIG_PARAMETERS"; "GIT_CONFIG_SYSTEM"; "GIT_DIR";
           "GIT_DISCOVERY_ACROSS_FILESYSTEM"; "GIT_EXEC_PATH"; "GIT_INDEX_FILE";
           "GIT_NAMESPACE"; "GIT_OBJECT_DIRECTORY"; "GIT_PROXY_COMMAND"; "GIT_SSH";
           "GIT_SSH_COMMAND"; "GIT_WORK_TREE"; "LD_PRELOAD"; "SSH_ASKPASS";
           "SSH_ASKPASS_REQUIRE"]%string.

Definition dangerous_environment_key (key : list Z) : bool :=
  contains_str dangerous_keys key ||
  starts_with key (str "DYLD_") ||
  starts_with key (str "GIT_CONFIG_KEY_") ||
  starts_with key (str "GIT_CONFIG_VALUE_").

Definition environment_validate (p : EnvironmentPolicy) : result GuardError unit :=
  if (length (fixed_path p) =? 0)%nat ||
     negb (forallb (λ path, starts_with path (str "/")) (split_on ch_colon (fixed_path p)))
  then Err (InvalidPolicy (str "environment PATH must contain only absolute entries"))
  else match List.find (λ key, (length key =? 0)%nat || dangerous_environment_key key ||
                               bool_decide (key = str "PATH")) 
                 (sort_by bytes_leb (elements (inherited_keys p))) with
       | Some key => Err (InvalidPolicy (str "environment inheritance key `" ++ key ++
                                         str "` is not allowed"))
       | None => Ok tt
       end.

Fixpoint sanitize_loop (p : EnvironmentPolicy) (environment : list (list Z * list Z))
    (sanitized : gmap (list Z) (list Z)) : result GuardError (gmap (list Z) (list Z)) :=
  match environment with
  | [] => Ok sanitized
  | (key, value) :: rest =>
      if dangerous_environment_key key
      then Err (InvalidInvocation (str "environment variable `" ++ key ++
                                   str "` is not allowed for guarded Git"))
      else if bool_decide (key ∈ inherited_keys p) || starts_with key (str "LC_")
      then sanitize_loop p rest (<[key := value]> sanitized)
      else sanitize_loop p rest sanitized
  end.

Definition sanitize (p : EnvironmentPolicy) (environment : list (list Z * list Z))
  : result GuardError (gmap (list Z) (list Z)) :=
  check? environment_validate p in
  sanitize_loop p environment {[str "PATH" := fixed_path p]}.

(** ** The policy and the service *)

Definition MAX_ALIAS_DEPTH : nat := 8.
Definition GITHUB_TOKEN_ENVIRONMENT : list Z := str "GITHUB_TOKEN".
Definition GIT_ASKPASS_PATH : list Z := str "/run/sendbox-branch-protection/sendbox-git-askpass".
Definition GIT_SSH_PATH : list Z := str "/run/sendbox-branch-protection/sendbox-git-ssh".
Definition SSH_KEY_ENVIRONMENT : list Z := str "SENDBOX_GIT_SSH_KEY".

Record GuardLimits : Type := {
  probe_timeout_ms : Z;
  probe_output_bytes : Z;
  policy_bytes : Z;
}.

Definition GuardLimits_default : GuardLimits :=
  {| probe_timeout_ms := 2000; probe_output_bytes := 256 * 1024; policy_bytes := 1024 * 1024 |}.

Record GuardPolicyDocument : Type := {
  schema_version : Z;
  selected_repository : RepositoryIdentity;
  selected_workspace : list Z;
  branch_protection : BranchPolicyConfiguration;
  environment : EnvironmentPolicy;
  github_https_auth : bool;
  git_ssh_auth : bool;
  limits : GuardLimits;
}.

Definition document_validate (d : GuardPolicyDocument) : result GuardError unit :=
  if negb (schema_version d =? 1)
  then Err (InvalidPolicy (str "unsupported Git guard policy schema version"))
  else if negb (starts_with (selected_workspace d) (str "/"))
  then Err (InvalidPolicy (str "selected workspace must be absolute"))
  else if (probe_timeout_ms (limits d) =? 0) || (probe_output_bytes (limits d) =? 0) ||
          (policy_bytes (limits d) =? 0)
  then Err (InvalidPolicy (str "Git guard limits must be greater than zero"))
  else
    check? branch_compile (branch_protection d) in
    check? environment_validate (environment d) in
    if github_https_auth d &&
       negb (bool_decide (GITHUB_TOKEN_ENVIRONMENT ∈ inherited_keys (environment d)))
    then Err (InvalidPolicy
                (str "GitHub HTTPS auth requires the authenticated token environment"))
    else if git_ssh_auth d &&
            negb (bool_decide (SSH_KEY_ENVIRONMENT ∈ inherited_keys (environment d)))
    then Err (InvalidPolicy (str "Git SSH auth requires the authenticated key environment"))
    else Ok tt.

Inductive Admission : Type :=
| PassThrough (reason : string)
| Guarded.

Record GuardService : Type := {
  policy : GuardPolicyDocument;
  branches : BranchPolicy;
  service_environment : gmap (list Z) (list Z);
}.

Definition require_non_empty_environment (env : gmap (list Z) (list Z)) (name : list Z)
  : result GuardError unit :=
  match env !! name with
  | Some (_ :: _) => Ok tt
  | _ => Err (InvalidInvocation (str "authenticated Git environment `" ++ name ++
                                 str "` is unavailable"))
  end.

Section Guard.
Context `{Url : UrlApi}.

Section Service.
Variable s : GuardService.

(** *** Probes *)

(** The lines a probe prints, or nothing when it fails. *)
Definition probe (complete : list (list Z)) (utf8_error : list Z)
    (split : list Z → list (list Z)) : guard (list (list Z)) :=
  GQuery complete (λ r,
    match r with
    | Err e => fail e
    | Ok output =>
        if negb (bool_decide (exit_code output = Some 0)) then done_ []
        else match from_utf8 (stdout output) with
             | None => fail (UnresolvedState utf8_error)
             | Some text => done_ (split text)
             end
    end).

Definition values (globals arguments : list (list Z)) : guard (list (list Z)) :=
  probe (globals ++ arguments) (str "Git probe output is not UTF-8")
    (λ text, filter (λ line, line ≠ []) (trim <$> lines text)).

Definition config_values (globals : list (list Z)) (key : list Z) : guard (list (list Z)) :=
  probe (globals ++ [str "config"; str "--null"; str "--get-all"; key])
    (str "Git config output is not UTF-8") (split_terminator 0).

Definition optional_value (globals arguments : list (list Z)) : guard (option (list Z)) :=
  let* l := values globals arguments in done_ (head l).

Definition config_value (globals : list (list Z)) (key : list Z) : guard (option (list Z)) :=
  let* l := config_values globals key in done_ (head l).

Definition required_value (globals arguments : list (list Z)) (label : list Z)
  : guard (list Z) :=
  let* v := optional_value globals arguments in
  match v with
  | Some v => done_ v
  | None => fail (UnresolvedState (label ++ str " is unavailable"))
  end.

Definition branch_exists (globals : list (list Z)) (branch : list Z) : guard bool :=
  GQuery (globals ++ [str "show-ref"; str "--verify"; str "--quiet";
                      str "refs/heads/" ++ branch])
    (λ r, match r with
          | Err e => fail e
          | Ok output => done_ (bool_decide (exit_code output = Some 0))
          end).

(** *** Names, refspecs and configuration *)

Definition remote_name (value : list Z) : bool :=
  negb (length value =? 0)%nat &&
  negb (contains_byte value ch_slash || contains_byte value ch_backslash ||
        contains_byte value ch_colon) &&
  negb (starts_with value (str ".")) &&
  negb (has_whitespace value).

Definition modeled_subsection_key (value prefix : list Z) (suffixes : list (list Z)) : bool :=
  starts_with value prefix &&
  existsb (λ suffix, ends_with value suffix &&
                     (length prefix + length suffix <? length value)%nat) suffixes.

Definition safe_config_override (value : list Z) : bool :=
  match split_once 61 value with
  | None => false
  | Some (key, configured_value) =>
      if eq_ignore_ascii_case key (str "push.default") ||
         eq_ignore_ascii_case key (str "remote.pushDefault")
      then true
      else if eq_ignore_ascii_case key (str "credential.helper")
      then (length configured_value =? 0)%nat
      else
        let lowercase := to_ascii_lowercase key in
        (starts_with lowercase (str "alias.") && (length (str "alias.") <? length lowercase)%nat) ||
        modeled_subsection_key lowercase (str "branch.")
          [str ".remote"; str ".pushremote"; str ".merge"] ||
        modeled_subsection_key lowercase (str "remote.")
          [str ".url"; str ".pushurl"; str ".push"; str ".mirror"] ||
        modeled_subsection_key lowercase (str "url.") [str ".insteadof"; str ".pushinsteadof"]
  end.

Definition normalize_push_source (source : list Z) : result GuardError (list Z) :=
  match strip_prefix (str "refs/heads/") source with
  | Some branch => Ok branch
  | None =>
      if starts_with source (str "refs/") || contains_byte source 126 || contains_byte source 94
      then Err (denied Push (str "push source is not a local branch"))
      else Ok source
  end.

Definition parse_push_refspec (refspec current : list Z)
  : result GuardError (option (list Z) * list Z) :=
  let value := trim_start_matches ch_plus refspec in
  if (length value =? 0)%nat || starts_with value (str "^") ||
     (contains_byte value ch_star || contains_byte value ch_question)
  then Err (denied Push (str "unsupported push refspec"))
  else
    let '(source, destination) := default (value, value) (split_once ch_colon value) in
    let? source :=
      if (length source =? 0)%nat then Ok None
      else if contains_str [str "HEAD"; str "@"] source then Ok (Some current)
      else let? source := normalize_push_source source in Ok (Some source) in
    let destination :=
      if contains_str [str "HEAD"; str "@"] destination then current
      else if bool_decide (destination = value) && bool_decide (is_Some source)
      then default [] source
      else destination in
    if starts_with destination (str "refs/") && negb (starts_with destination (str "refs/heads/"))
    then Err (denied Push (str "push destination is not a branch ref"))
    else if (length destination =? 0)%nat
    then Err (denied Push (str "push destination is empty"))
    else Ok (source, destination).

Fixpoint validate_globals (operation : Operation) (globals : list (list Z))
  : result GuardError unit :=
  let unsafe :=
    Err (denied operation
           (str "Git -c override is outside the modeled branch-protection configuration")) in
  match globals with
  | [] => Ok tt
  | argument :: rest =>
      if bool_decide (argument = str "--exec-path") || starts_with argument (str "--exec-path=")
      then Err (denied operation (str "--exec-path can replace Git transport helpers"))
      else if bool_decide (argument = str "-c") then
        match rest with
        | [] => Ok tt
        | override_value :: rest =>
            if safe_config_override override_value then validate_globals operation rest
            else unsafe
        end
      else match strip_prefix (str "-c") argument with
           | Some (b :: v) =>
               if safe_config_override (b :: v) then validate_globals operation rest else unsafe
           | _ => validate_globals operation rest
           end
  end.

(** The helpers that stay configured: an empty one clears those before it. *)
Definition active_helpers (l : list (list Z)) : list (list Z) :=
  foldl (λ helpers helper, if (length helper =? 0)%nat then [] else helpers ++ [helper]) [] l.

Definition reject_external_configuration (globals : list (list Z)) (operation : Operation)
  : guard unit :=
  let* l := config_values globals (str "credential.helper") in
  match active_helpers l with
  | _ :: _ =>
      fail (denied operation
              (str "configured credential helpers are incompatible with authenticated Git"))
  | [] =>
      if git_ssh_auth (policy s) then
        let* v := config_value globals (str "core.sshCommand") in
        match v with
        | Some (_ :: _) =>
            fail (denied operation
                    (str "configured core.sshCommand is incompatible with authenticated Git"))
        | _ => done_ tt
        end
      else done_ tt
  end.

Definition resolve_remote_identity (globals : list (list Z)) (operation : Operation)
    (repository : list Z) : guard RepositoryIdentity :=
  let* urls :=
    if remote_name repository then
      values globals ([str "remote"; str "get-url"; str "--all"] ++
                      (if bool_decide (operation = Push) then [str "--push"] else []) ++
                      [repository])
    else
      let* v := required_value globals [str "ls-remote"; str "--get-url"; repository]
                  (str "effective remote URL") in
      done_ [v] in
  match urls with
  | [url] => lift (identity_parse url (Some (id_host (selected_repository (policy s)))))
  | _ => fail AmbiguousRepository
  end.

Fixpoint first_config (globals : list (list Z)) (keys : list (list Z)) : guard (list Z) :=
  match keys with
  | [] => done_ (str "origin")
  | key :: keys =>
      let* v := config_value globals key in
      match v with Some v => done_ v | None => first_config globals keys end
  end.

Definition default_remote (globals : list (list Z)) (operation : Operation) (branch : list Z)
  : guard (list Z) :=
  first_config globals
    match operation with
    | Push => [str "branch." ++ branch ++ str ".pushRemote"; str "remote.pushDefault";
               str "branch." ++ branch ++ str ".remote"]
    | Pull => [str "branch." ++ branch ++ str ".remote"]
    end.

Definition upstream_branch (globals : list (list Z)) : guard (option (list Z)) :=
  let* upstream := optional_value globals
    [str "rev-parse"; str "--abbrev-ref"; str "--symbolic-full-name"; str "@{upstream}"] in
  done_ ((λ value,
    let value := default value (strip_prefix (str "refs/remotes/") value) in
    match split_once ch_slash value with Some (_, branch) => branch | None => value end)
    <$> upstream).

(** *** Aliases *)

Fixpoint alias_steps (depth : nat) (invocation : GlobalInvocation) : guard GlobalInvocation :=
  match depth with
  | O => fail (InvalidInvocation (str "Git alias expansion exceeded the safety limit"))
  | S depth =>
      match command invocation with
      | None => done_ invocation
      | Some cmd =>
          if contains_str [str "push"; str "pull"] cmd then done_ invocation
          else
            let* alias := config_value (global_arguments invocation) (str "alias." ++ cmd) in
            match alias with
            | None => done_ invocation
            | Some alias =>
                if starts_with (trim_start alias) (str "!")
                then fail (InvalidInvocation (str "shell Git alias `" ++ cmd ++ str "` is disabled"))
                else
                  let* expansion := lift (parse_alias_words alias) in
                  match expansion with
                  | [] => fail (InvalidInvocation (str "Git alias `" ++ cmd ++ str "` is empty"))
                  | _ =>
                      let* expanded :=
                        lift (parse_invocation (expansion ++ command_arguments invocation)) in
                      alias_steps depth
                        {| global_arguments :=
                             global_arguments invocation ++ global_arguments expanded;
                           command := command expanded;
                           command_arguments := command_arguments expanded;
                           global_unsupported :=
                             global_unsupported invocation ++ global_unsupported expanded |}
                  end
            end
      end
  end.

Definition resolve_aliases (invocation : GlobalInvocation) : guard GlobalInvocation :=
  alias_steps MAX_ALIAS_DEPTH invocation.

(** *** Push and pull *)

(** The refspecs the command line gives. *)
Definition explicit_refspecs (parsed : OperationArguments) : list (list Z) :=
  if delete_refs parsed then (λ destination, str ":" ++ destination) <$> refspecs parsed
  else refspecs parsed.

Definition default_destination (globals : list (list Z)) (current : list Z) : guard (list Z) :=
  let* mode := config_value globals (str "push.default") in
  let mode := default (str "simple") mode in
  if bool_decide (mode = str "current") then done_ current
  else if bool_decide (mode = str "simple") then
    let* upstream := upstream_branch globals in
    match upstream with
    | None => fail (denied Push (str "push.default=simple requires a resolvable upstream branch"))
    | Some upstream =>
        if negb (bool_decide (upstream = current))
        then fail (denied Push
                     (str "push.default=simple upstream branch differs from current branch"))
        else done_ upstream
    end
  else if contains_str [str "upstream"; str "tracking"] mode then
    let* upstream := upstream_branch globals in
    match upstream with
    | None => fail (denied Push (str "the upstream branch cannot be resolved"))
    | Some upstream => done_ upstream
    end
  else if bool_decide (mode = str "matching")
  then fail (denied Push (str "push.default=matching may update multiple branches"))
  else if bool_decide (mode = str "nothing")
  then fail (denied Push (str "push.default=nothing has no resolvable destination"))
  else fail (denied Push (str "unsupported push.default mode")).

Fixpoint check_push_refspecs (globals : list (list Z)) (current : list Z)
    (refspecs : list (list Z)) : guard unit :=
  match refspecs with
  | [] => done_ tt
  | refspec :: refspecs =>
      let* ' (source, destination) := lift (parse_push_refspec refspec current) in
      let* _ :=
        match source with
        | None => done_ tt
        | Some source =>
            let* there := branch_exists globals source in
            if negb there
            then fail (denied Push (str "source branch `" ++ source ++
                                    str "` does not exist locally"))
            else let* _ := lift (branch_check (branches s) source Push (str "source")) in done_ tt
        end in
      let* _ := lift (branch_check (branches s) destination Push (str "destination")) in
      check_push_refspecs globals current refspecs
  end.

Definition evaluate_push (globals : list (list Z)) (remote : list Z)
    (parsed : OperationArguments) (current : list Z) : guard unit :=
  let* mirror := config_value globals (str "remote." ++ remote ++ str ".mirror") in
  if bool_decide (mirror = Some (str "true"))
  then fail (denied Push (str "mirror remote configuration is unsupported"))
  else
    let* refspecs :=
      match explicit_refspecs parsed with
      | [] => if remote_name remote
              then config_values globals (str "remote." ++ remote ++ str ".push")
              else done_ []
      | l => done_ l
      end in
    let* refspecs :=
      match refspecs with
      | [] => let* destination := default_destination globals current in
              done_ [str "HEAD:" ++ destination]
      | l => done_ l
      end in
    check_push_refspecs globals current refspecs.

Fixpoint check_pull_refspecs (refspecs : list (list Z)) : guard unit :=
  match refspecs with
  | [] => done_ tt
  | refspec :: refspecs =>
      let source :=
        match split_once ch_colon (trim_start_matches ch_plus refspec) with
        | Some (source, _) => source
        | None => refspec
        end in
      let* _ := lift (branch_check (branches s) source Pull (str "source")) in
      check_pull_refspecs refspecs
  end.

Definition evaluate_pull (globals : list (list Z)) (parsed : OperationArguments)
    (current : list Z) : guard unit :=
  let* refspecs :=
    match refspecs parsed with
    | [] => config_values globals (str "branch." ++ current ++ str ".merge")
    | l => done_ l
    end in
  let* refspecs :=
    match refspecs with
    | [] =>
        let* upstream := upstream_branch globals in
        match upstream with
        | None => fail (denied Pull (str "the upstream branch cannot be resolved"))
        | Some upstream => done_ [upstream]
        end
    | l => done_ l
    end in
  check_pull_refspecs refspecs.

(** *** Admission *)

Definition config_env_used (globals : list (list Z)) : bool :=
  existsb (λ argument, bool_decide (argument = str "--config-env") ||
                       starts_with argument (str "--config-env=")) globals.

(** The checks before the branches are looked at, for authenticated Git. *)
Definition check_authenticated (invocation : GlobalInvocation) : guard unit :=
  if github_https_auth (policy s) || git_ssh_auth (policy s) then
    if config_env_used (global_arguments invocation)
    then fail (InvalidInvocation (str "--config-env is unsupported for authenticated Git"))
    else
      let* _ := lift (validate_globals Push (global_arguments invocation)) in
      reject_external_configuration (global_arguments invocation) Push
  else done_ tt.

Definition other_repository : Admission := PassThrough "operation targets another repository".

(** The checks of an operation on the selected repository. *)
Definition check_operation (invocation : GlobalInvocation) (operation : Operation)
    (parsed : OperationArguments) (remote current : list Z) : guard Admission :=
  let globals := global_arguments invocation in
  if config_env_used globals
  then fail (denied operation
               (str "--config-env is unsupported because it can diverge probe configuration"))
  else
    let* _ := lift (validate_globals operation globals) in
    match global_unsupported invocation with
    | _ :: _ => fail (denied operation (str "unsupported global Git option"))
    | [] =>
        let* _ := reject_external_configuration globals operation in
        let* _ := lift (branch_check (branches s) current operation (str "current")) in
        match broad_option parsed with
        | Some broad => fail (denied operation (str "option `" ++ broad ++
                                str "` may update an unbounded set of refs"))
        | None =>
            match unsupported_options parsed with
            | _ :: _ => fail (denied operation (str "unsupported Git operation option"))
            | [] =>
                let* _ :=
                  match operation with
                  | Push => evaluate_push globals remote parsed current
                  | Pull => evaluate_pull globals parsed current
                  end in
                done_ Guarded
            end
        end
    end.

(** A push or a pull once its arguments are read. *)
Definition admit_operation (invocation : GlobalInvocation) (operation : Operation)
    (parsed : OperationArguments) : guard Admission :=
  let globals := global_arguments invocation in
  let* explicit_other :=
    match repository parsed with
    | Some repository =>
        let* identity := resolve_remote_identity globals operation repository in
        done_ (negb (bool_decide (identity = selected_repository (policy s))))
    | None => done_ false
    end in
  if explicit_other then done_ other_repository
  else
    let* current := required_value globals [str "branch"; str "--show-current"]
                      (str "allowed non-detached current branch") in
    let* fallback := default_remote globals operation current in
    let remote := default fallback (repository parsed) in
    git_bind (resolve_remote_identity globals operation remote) (λ target,
    let* root := optional_value globals [str "rev-parse"; str "--show-toplevel"] in
    let* selected_workspace :=
      match root with
      | Some root => GWorkspace root GRet
      | None => done_ false
      end in
    match target with
    | Ok identity =>
        if negb (bool_decide (identity = selected_repository (policy s)))
        then done_ other_repository
        else check_operation invocation operation parsed remote current
    | Err error => fail (if negb selected_workspace then AmbiguousRepository else error)
    end).

Definition admit_command (arguments : list (list Z)) : guard Admission :=
  let* invocation := lift (parse_invocation arguments) in
  let* invocation := resolve_aliases invocation in
  let* _ := check_authenticated invocation in
  if negb (bp_enabled (branches s)) then done_ (PassThrough "branch protection disabled")
  else
    let operation :=
      match command invocation with
      | Some cmd => if bool_decide (cmd = str "push") then Some Push
                    else if bool_decide (cmd = str "pull") then Some Pull else None
      | None => None
      end in
    match operation with
    | None => done_ (PassThrough "not a guarded Git operation")
    | Some operation =>
        let* parsed := lift (parse_operation_arguments operation (command_arguments invocation)) in
        if help_requested parsed then done_ (PassThrough "Git help requested")
        else admit_operation invocation operation parsed
    end.

Definition execute_command (arguments : list (list Z)) : guard unit :=
  let* _ := admit_command arguments in
  GExecute arguments GRet.

End Service.

(** [GuardService::new], without the capture of the workspace's identity. *)
Definition service_environment_of (d : GuardPolicyDocument)
    (environment_in : list (list Z * list Z)) : result GuardError (gmap (list Z) (list Z)) :=
  let? env := sanitize (environment d) environment_in in
  let? env :=
    if github_https_auth d then
      check? require_non_empty_environment env GITHUB_TOKEN_ENVIRONMENT in
      Ok (<[str "GIT_TERMINAL_PROMPT" := str "0"]>
            (<[str "GIT_ASKPASS_REQUIRE" := str "force"]>
               (<[str "GIT_ASKPASS" := GIT_ASKPASS_PATH]> env)))
    else Ok env in
  if git_ssh_auth d then
    check? require_non_empty_environment env SSH_KEY_ENVIRONMENT in
    Ok (<[str "GIT_SSH_VARIANT" := str "ssh"]>
          (<[str "GIT_SSH_COMMAND" := GIT_SSH_PATH]> env))
  else Ok env.

Definition service_new (d : GuardPolicyDocument) (executable : list Z)
    (environment_in : list (list Z * list Z)) : guard GuardService :=
  let* _ := lift (document_validate d) in
  let* branches := lift (branch_compile (branch_protection d)) in
  let* env := lift (service_environment_of d environment_in) in
  let* version := required_value [] [str "--version"] (str "Git version") in
  if negb (starts_with version (str "git version "))
  then fail (InvalidGitBinary executable (str "binary did not identify itself as Git"))
  else done_ {| policy := d; branches := branches; service_environment := env |}.

(** ** Runs *)

(** [Q] holds of the result for all replies to the probes. *)
Fixpoint git_always {A : Type} (p : git A) (Q : A → Prop) : Prop :=
  match p with
  | GRet a => Q a
  | GQuery _ k => ∀ r, git_always (k r) Q
  | GWorkspace _ k => ∀ r, git_always (k r) Q
  | GExecute _ k => ∀ r, git_always (k r) Q
  end.

(** A repository that answers each probe in one way. *)
Record oracle : Type := {
  reply_query : list (list Z) → result GuardError ProcessOutput;
  reply_workspace : list Z → result GuardError bool;
}.

Fixpoint git_run {A : Type} (o : oracle) (p : git A) : A :=
  match p with
  | GRet a => a
  | GQuery l k => git_run o (k (reply_query o l))
  | GWorkspace root k => git_run o (k (reply_workspace o root))
  | GExecute _ k => git_run o (k (Ok tt))
  end.

(** ** Specification *)

(** A branch whose normal form the policy accepts. *)
Definition branch_passes (s : GuardService) (b : list Z) : Prop :=
  ∃ n, normalize_branch b = Some n ∧ branch_ok (branches s) n.

(** A refspec whose source and destination branches are accepted. *)
Definition refspec_passes (s : GuardService) (current refspec : list Z) : Prop :=
  ∃ source destination, parse_push_refspec refspec current = Ok (source, destination) ∧
    branch_passes s destination ∧ (∀ b, source = Some b → branch_passes s b).

(** What the guard has established when it lets a push to the selected
    repository run. *)
Definition push_checked (s : GuardService) (inv : GlobalInvocation) (parsed : OperationArguments)
    (current : list Z) (refs : list (list Z)) : Prop :=
  branch_passes s current ∧ broad_option parsed = None ∧ unsupported_options parsed = [] ∧
  global_unsupported inv = [] ∧ config_env_used (global_arguments inv) = false ∧
  validate_globals Push (global_arguments inv) = Ok tt ∧
  refs ≠ [] ∧ (explicit_refspecs parsed ≠ [] → refs = explicit_refspecs parsed) ∧
  Forall (refspec_passes s current) refs.

(** ** Lemmas *)

Lemma git_always_bind {A B : Type} (p : git A) (f : A → git B) (Q : B → Prop) :
  git_always p (λ a, git_always (f a) Q) → git_always (git_bind p f) Q.
Proof. induction p; simpl; auto. Qed.

Lemma git_always_mono {A : Type} (p : git A) (P Q : A → Prop) :
  (∀ a, P a → Q a) → git_always p P → git_always p Q.
Proof. intros HPQ. induction p; simpl; auto. Qed.

Lemma git_always_any {A : Type} (p : git A) (Q : A → Prop) : (∀ a, Q a) → git_always p Q.
Proof. intros HQ. induction p; simpl; auto. Qed.

Lemma guard_always_bind {A B : Type} (p : guard A) (f : A → guard B)
    (Q : result GuardError B → Prop) :
  (∀ e, Q (Err e)) → (∀ a, git_always (f a) Q) → git_always (guard_bind p f) Q.
Proof.
  intros He Hf. apply git_always_bind, git_always_any. intros [a|e]; [apply Hf|apply He].
Qed.

(** A computation without probes. *)
Lemma lift_bind {A B : Type} (r : result GuardError A) (f : A → guard B) :
  guard_bind (lift r) f = match r with Ok a => f a | Err e => fail e end.
Proof. by destruct r. Qed.

Lemma git_run_bind {A B : Type} (o : oracle) (p : git A) (f : A → git B) :
  git_run o (git_bind p f) = git_run o (f (git_run o p)).
Proof. induction p; simpl; auto. Qed.

Lemma guard_run_bind {A B : Type} (o : oracle) (p : guard A) (f : A → guard B) :
  git_run o (guard_bind p f) =
  match git_run o p with Ok a => git_run o (f a) | Err e => Err e end.
Proof. unfold guard_bind. rewrite git_run_bind. by destruct (git_run o p). Qed.

Lemma git_always_run {A : Type} (o : oracle) (p : git A) (Q : A → Prop) :
  git_always p Q → Q (git_run o p).
Proof. induction p; simpl; auto. Qed.

(** [Q] holds of the value if the program succeeds. *)
Definition on_ok {A : Type} (Q : A → Prop) (r : result GuardError A) : Prop :=
  match r with Ok a => Q a | Err _ => True end.

Lemma on_ok_bind {A B : Type} (p : guard A) (f : A → guard B) (P : A → Prop) (Q : B → Prop) :
  git_always p (on_ok P) → (∀ a, P a → git_always (f a) (on_ok Q)) →
  git_always (guard_bind p f) (on_ok Q).
Proof.
  intros Hp Hf. apply git_always_bind. eapply git_always_mono; [|exact Hp].
  intros [a|e] Ha; [by apply Hf|done].
Qed.

Lemma on_ok_lift {A B : Type} (r : result GuardError A) (f : A → guard B) (Q : B → Prop) :
  (∀ a, r = Ok a → git_always (f a) (on_ok Q)) → git_always (guard_bind (lift r) f) (on_ok Q).
Proof. rewrite lift_bind. destruct r; simpl; auto. Qed.

Lemma on_ok_any {A B : Type} (p : guard A) (f : A → guard B) (Q : B → Prop) :
  (∀ a, git_always (f a) (on_ok Q)) → git_always (guard_bind p f) (on_ok Q).
Proof. apply guard_always_bind. done. Qed.

Lemma resolve_aliases_push (inv : GlobalInvocation) :
  command inv = Some (str "push") → resolve_aliases inv = done_ inv.
Proof. unfold resolve_aliases, MAX_ALIAS_DEPTH. simpl. by intros ->. Qed.

Section Checks.
Variable s : GuardService.
Hypothesis enabled : bp_enabled (branches s) = true.

Lemma checked_branch (b n : list Z) (o : Operation) (label : list Z) :
  branch_check (branches s) b o label = Ok n → branch_passes s b.
Proof. intros Hc. apply branch_check_ok in Hc; [|done]. by exists n. Qed.

Lemma check_push_refspecs_ok (globals refs : list (list Z)) (current : list Z) :
  git_always (check_push_refspecs s globals current refs)
    (on_ok (λ _, Forall (refspec_passes s current) refs)).
Proof.
  induction refs as [|refspec refs IH]; simpl; [by constructor|].
  apply on_ok_lift. intros [source destination] Hp.
  apply on_ok_bind with (P := λ _, ∀ b, source = Some b → branch_passes s b).
  - destruct source as [source|]; [|done]. apply on_ok_any. intros there.
    destruct (negb there); [done|]. apply on_ok_lift. intros n Hn b [= <-].
    by eapply checked_branch.
  - intros _ Hsrc. apply on_ok_lift. intros n Hn. eapply git_always_mono; [|exact IH].
    intros [u|e]; [|done]. intros Hrefs. constructor; [|done]. exists source, destination.
    split_and!; [done|by eapply checked_branch|done].
Qed.

Lemma evaluate_push_ok (globals : list (list Z)) (remote current : list Z)
    (parsed : OperationArguments) :
  git_always (evaluate_push s globals remote parsed current)
    (on_ok (λ _, ∃ refs, refs ≠ [] ∧
       (explicit_refspecs parsed ≠ [] → refs = explicit_refspecs parsed) ∧
       Forall (refspec_passes s current) refs)).
Proof.
  unfold evaluate_push. apply on_ok_any. intros mirror. case_bool_decide; [done|].
  apply on_ok_bind with
    (P := λ l, explicit_refspecs parsed ≠ [] → l = explicit_refspecs parsed).
  { destruct (explicit_refspecs parsed) as [|x l]; [|done].
    apply git_always_any. intros [l|e]; [|done]. by intros Hne. }
  intros l Hl. apply on_ok_bind with
    (P := λ l', l' ≠ [] ∧ (explicit_refspecs parsed ≠ [] → l' = explicit_refspecs parsed)).
  { destruct l as [|x l]; [|done]. apply on_ok_any. intros destination. simpl. split; [done|].
    intros Hne. by rewrite <-(Hl Hne) in Hne. }
  intros l' [Hne Hex]. eapply git_always_mono; [|apply check_push_refspecs_ok].
  intros [u|e]; [|done]. intros Hf. by exists l'.
Qed.

Lemma check_operation_push (inv : GlobalInvocation) (parsed : OperationArguments)
    (remote current : list Z) :
  git_always (check_operation s inv Push parsed remote current)
    (on_ok (λ a, a = Guarded ∧ ∃ refs, push_checked s inv parsed current refs)).
Proof.
  unfold check_operation. cbv zeta. destruct (config_env_used _) eqn:Ec; [done|].
  apply on_ok_lift. intros [] Hv. destruct (global_unsupported inv) eqn:Eu; [|done].
  apply on_ok_any. intros _. apply on_ok_lift. intros n Hn.
  destruct (broad_option parsed) eqn:Eb; [done|].
  destruct (unsupported_options parsed) eqn:Eo; [|done].
  eapply on_ok_bind; [apply evaluate_push_ok|]. intros _ (refs & Hne & Hex & Hf). simpl.
  split; [done|]. exists refs. split_and!; try done. by eapply checked_branch.
Qed.

Lemma admit_operation_push (inv : GlobalInvocation) (parsed : OperationArguments) :
  git_always (admit_operation s inv Push parsed)
    (on_ok (λ a, a = Guarded → ∃ current refs, push_checked s inv parsed current refs)).
Proof.
  unfold admit_operation. cbv zeta. apply on_ok_any. intros []; [done|].
  apply on_ok_any. intros current. apply on_ok_any. intros fallback.
  apply git_always_bind, git_always_any. intros target. apply on_ok_any. intros root.
  apply on_ok_any. intros same. destruct target as [identity|e]; [|done].
  destruct (negb _); [done|]. eapply git_always_mono; [|apply check_operation_push].
  intros [a|e]; [|done]. intros (-> & refs & Hr) _. by exists current, refs.
Qed.

Ltac run_step :=
  rewrite guard_run_bind;
  match goal with
  | |- match git_run ?o ?p with Ok _ => _ | Err _ => _ end = _ → _ =>
      destruct (git_run o p); [|done]
  end.

(** An operation on the selected repository is not passed through. *)
Lemma admit_operation_selected (o : oracle) (inv : GlobalInvocation) (op : Operation)
    (parsed : OperationArguments) (repo : list Z) (a : Admission) :
  repository parsed = Some repo →
  git_run o (resolve_remote_identity s (global_arguments inv) op repo) =
    Ok (selected_repository (policy s)) →
  git_run o (admit_operation s inv op parsed) = Ok a → a = Guarded.
Proof.
  intros Hrepo Hid. unfold admit_operation. cbv zeta. rewrite Hrepo. simpl default.
  rewrite guard_run_bind, guard_run_bind, Hid. cbn [git_run done_].
  rewrite bool_decide_eq_true_2 by done. cbn [negb].
  run_step. run_step. rewrite git_run_bind, Hid. run_step. run_step.
  rewrite bool_decide_eq_true_2 by done. cbn [negb]. unfold check_operation. cbv zeta.
  destruct (config_env_used _); [done|]. run_step. destruct (global_unsupported inv); [|done].
  run_step. run_step. destruct (broad_option parsed); [done|].
  destruct (unsupported_options parsed); [|done]. run_step.
  simpl. congruence.
Qed.

End Checks.
(** *** The environment *)

Lemma environment_validate_ok (p : EnvironmentPolicy) (key : list Z) :
  environment_validate p = Ok tt → key ∈ inherited_keys p →
  key ≠ [] ∧ dangerous_environment_key key = false ∧ key ≠ str "PATH".
Proof.
  unfold environment_validate. destruct (_ || _); [done|].
  destruct (List.find _ _) eqn:Ef; [done|]. intros _ Hk.
  pose proof (List.find_none _ _ Ef key) as Hn. rewrite <-list_elem_of_In in Hn.
  rewrite sort_by_perm, elem_of_elements in Hn. specialize (Hn Hk). bool_to_prop.
  split_and!; [|done|done]. by intros ->.
Qed.

(** The environment a guarded process may see. *)
Definition environment_clean (p : EnvironmentPolicy) (input : list (list Z * list Z))
    (env : gmap (list Z) (list Z)) : Prop :=
  ∀ key value, env !! key = Some value →
    (key = str "PATH" ∧ value = fixed_path p) ∨
    (dangerous_environment_key key = false ∧ key ≠ str "PATH" ∧ (key, value) ∈ input ∧
     (key ∈ inherited_keys p ∨ starts_with key (str "LC_") = true)).

Lemma sanitize_loop_clean (p : EnvironmentPolicy) (l input : list (list Z * list Z))
    (env env' : gmap (list Z) (list Z)) :
  environment_validate p = Ok tt → (∀ kv, kv ∈ l → kv ∈ input) →
  environment_clean p input env → sanitize_loop p l env = Ok env' →
  environment_clean p input env' ∧ Forall (λ kv, dangerous_environment_key kv.1 = false) l.
Proof.
  intros Hv. revert env. induction l as [|[key value] l IH]; intros env Hl Hc; simpl.
  { intros [= <-]. by split. }
  destruct (dangerous_environment_key key) eqn:Ed; [done|].
  assert (∀ kv, kv ∈ l → kv ∈ input) as Hl' by (intros; apply Hl; set_solver).
  assert (∀ env0, environment_clean p input env0 → sanitize_loop p l env0 = Ok env' →
    environment_clean p input env' ∧
    Forall (λ kv, dangerous_environment_key kv.1 = false) ((key, value) :: l)) as Hstep.
  { intros env0 H0 Hs. destruct (IH env0 Hl' H0 Hs). by split; [|constructor]. }
  destruct (_ || _) eqn:Ek; [|by apply Hstep]. apply Hstep. intros k v Hk.
  apply lookup_insert_Some in Hk as [[<- <-]|[_ Hk]]; [|by apply Hc]. right.
  apply orb_true_iff in Ek. rewrite bool_decide_eq_true in Ek.
  split_and!; [done| |set_solver|done]. destruct Ek as [Ek|Ek].
  - by apply (environment_validate_ok p).
  - intros ->. done.
Qed.

End Guard.

(** *** Reading arguments *)

(** An argument without a leading dash is none of the options. *)
Lemma no_dash_prefix (a p : list Z) :
  starts_with a (str "-") = false → starts_with p (str "-") = true → starts_with a p = false.
Proof.
  intros Ha Hp. apply not_true_iff_false. intros Hap. apply starts_with_true in Hap as [r ->].
  apply starts_with_true in Hp as [q ->]. apply not_true_iff_false in Ha.
  apply Ha, starts_with_true. exists (q ++ r). by rewrite <-app_assoc.
Qed.

Lemma no_dash_list (a : list Z) (l : list (list Z)) :
  starts_with a (str "-") = false → forallb (λ x, starts_with x (str "-")) l = true →
  contains_str l a = false.
Proof.
  intros Ha Hl. apply bool_decide_eq_false_2. intros Hin. rewrite forallb_forall in Hl.
  apply list_elem_of_In in Hin. specialize (Hl _ Hin). congruence.
Qed.

Lemma parse_command (a : list Z) (rest globals unsupported : list (list Z)) :
  starts_with a (str "-") = false →
  parse_globals (a :: rest) globals unsupported =
  Ok {| global_arguments := globals; command := Some a; command_arguments := rest;
        global_unsupported := unsupported |}.
Proof.
  intros Ha. cbn [parse_globals]. rewrite bool_decide_eq_false_2 by (intros ->; done).
  rewrite (no_dash_list a GLOBAL_VALUE_OPTIONS), (no_dash_list a GLOBAL_FLAG_OPTIONS) by done.
  assert (global_value_prefix a = None) as ->.
  { unfold global_value_prefix. destruct (List.find _ _) as [x|] eqn:Ef; [|done].
    apply List.find_some in Ef as [Hin Hx]. apply list_elem_of_In in Hin.
    apply list_elem_of_filter in Hin as [Hd _]. apply starts_with_true in Hd as [r ->].
    by rewrite (no_dash_prefix a) in Hx. }
  unfold compact_global_value. by rewrite !no_dash_prefix by done.
Qed.

Lemma parse_unknown (a : list Z) (rest globals unsupported : list (list Z)) :
  starts_with a (str "-") = true → a ≠ str "--" →
  contains_str GLOBAL_VALUE_OPTIONS a = false → global_value_prefix a = None →
  compact_global_value a = false → contains_str GLOBAL_FLAG_OPTIONS a = false →
  parse_globals (a :: rest) globals unsupported =
  parse_globals rest (globals ++ [a]) (unsupported ++ [a]).
Proof.
  intros Hdash Hsep Hval Hpre Hcomp Hflag. cbn [parse_globals].
  by rewrite (bool_decide_eq_false_2 (a = str "--")), Hval, Hpre, Hcomp, Hflag, Hdash by done.
Qed.

Lemma parse_positional (op : Operation) (a : list Z) (rest : list (list Z))
    (st : operation_state) :
  starts_with a (str "-") = false →
  parse_operation_loop op (a :: rest) st = parse_operation_loop op rest (add_positionals [a] st).
Proof.
  intros Ha. cbn [parse_operation_loop]. rewrite !bool_decide_eq_false_2 by (intros ->; done).
  rewrite (no_dash_list a [_; _]), (no_dash_list a (broad_options op)),
    (no_dash_list a (value_options op)), (no_dash_list a (flag_options op)) by (by destruct op).
  assert (strip_prefix (str "--repo=") a = None) as ->.
  { destruct (strip_prefix _ a) as [r|] eqn:E; [|done]. apply strip_prefix_Some in E as ->. done. }
  assert (long_value_option op a = false) as ->.
  { unfold long_value_option. rewrite !(no_dash_prefix a) by done. rewrite !orb_false_r.
    apply not_true_iff_false. intros He. apply existsb_exists in He as (x & Hin & Hx).
    apply list_elem_of_In, list_elem_of_filter in Hin as [Hd _].
    apply starts_with_true in Hd as [r ->]. by rewrite (no_dash_prefix a) in Hx. }
  assert (compact_value_option op a = false ∧ optional_value_option op a = false) as [-> ->].
  { unfold compact_value_option, optional_value_option. destruct op; cbn [existsb];
      rewrite ?(no_dash_list a [_; _; _]), !(no_dash_prefix a) by done; done. }
  by rewrite Ha.
Qed.

Lemma parse_repo_option (url : list Z) (rest : list (list Z)) (st : operation_state) :
  url ≠ [] →
  parse_operation_loop Push ((str "--repo=" ++ url) :: rest) st =
  parse_operation_loop Push rest (set_repository url st).
Proof.
  intros Hu. cbn [parse_operation_loop].
  assert (∀ l, forallb (λ x, negb (starts_with x (str "--repo="))) l = true →
               contains_str l (str "--repo=" ++ url) = false) as Hl.
  { intros l Hf. apply bool_decide_eq_false_2. intros Hin. apply list_elem_of_In in Hin.
    rewrite forallb_forall in Hf. specialize (Hf _ Hin). apply negb_true_iff, not_true_iff_false in Hf.
    apply Hf, starts_with_true. by exists url. }
  rewrite !Hl by done. rewrite !bool_decide_eq_false_2 by done.
  assert (strip_prefix (str "--repo=") (str "--repo=" ++ url) = Some url) as ->
    by by apply strip_prefix_Some.
  by destruct url.
Qed.

(** ** A sample repository *)

(** A reader of [https] URLs, enough for the samples. *)
Definition sample_url : UrlApi :=
  {| url_parse value :=
       match strip_prefix (str "https://") value with
       | Some rest =>
           match split_once ch_slash rest with
           | Some (host, path) =>
               Some {| url_scheme := str "https"; url_host := Some host; url_port := None;
                       url_path := ch_slash :: path; url_has_query := false;
                       url_has_fragment := false |}
           | None => None
           end
       | None => None
       end |}.

Definition sample_service : GuardService :=
  {| policy :=
       {| schema_version := 1;
          selected_repository := {| id_host := str "github.com"; id_owner := str "acme";
                                    id_name := str "app" |};
          selected_workspace := str "/w";
          branch_protection := BranchPolicyConfiguration_default;
          environment := EnvironmentPolicy_default;
          github_https_auth := false; git_ssh_auth := false;
          limits := GuardLimits_default |};
     branches := sample_branches; service_environment := ∅ |}.

(** A clone of the selected repository on branch [feature/a], without
    configuration of its own. *)
Definition sample_oracle : oracle :=
  let prints (text : list Z) :=
    Ok {| exit_code := Some 0; stdout := text; stderr := [] |} in
  {| reply_query arguments :=
       if bool_decide (str "get-url" ∈ arguments)
       then prints (str "https://github.com/acme/app.git")
       else if bool_decide (str "ls-remote" ∈ arguments) then prints (default [] (last arguments))
       else if bool_decide (str "--show-current" ∈ arguments) then prints (str "feature/a")
       else if bool_decide (str "--show-toplevel" ∈ arguments) then prints (str "/w")
       else if bool_decide (str "show-ref" ∈ arguments) then prints []
       else Ok {| exit_code := Some 1; stdout := []; stderr := [] |};
     reply_workspace _ := Ok true |}.

Definition argv (l : list string) : list (list Z) := str <$> l.

Section Properties.
Context `{Url : UrlApi}.

(** ** Properties *)


End Properties.


(** A refspec whose destination is a protected branch, whatever branch is
    checked out. *)
Definition names_protected (s : GuardService) (refspec : list Z) : Prop :=
  ∃ protected, protected ∈ bp_protected_branches (branches s) ∧
    ∀ current source destination,
      parse_push_refspec refspec current = Ok (source, destination) →
      ∃ n, normalize_branch destination = Some n ∧
           to_ascii_lowercase protected = to_ascii_lowercase n.

Section Refused.
Context `{Url : UrlApi}.

Lemma admit_push_run (s : GuardService) (o : oracle) (arguments : list (list Z))
    (inv : GlobalInvocation) (parsed : OperationArguments) :
  bp_enabled (branches s) = true →
  parse_invocation arguments = Ok inv → command inv = Some (str "push") →
  parse_operation_arguments Push (command_arguments inv) = Ok parsed →
  help_requested parsed = false →
  git_run o (admit_command s arguments) =
  match git_run o (check_authenticated s inv) with
  | Ok _ => git_run o (admit_operation s inv Push parsed)
  | Err e => Err e
  end.
Proof.
  intros Hen Hinv Hcmd Hparsed Hhelp. unfold admit_command.
  rewrite lift_bind, Hinv, guard_run_bind, resolve_aliases_push by done.
  cbn [git_run done_]. rewrite guard_run_bind.
  destruct (git_run o (check_authenticated s inv)); [|done]. rewrite Hen. cbn [negb]. cbv zeta.
  rewrite Hcmd, bool_decide_eq_true_2 by done. by rewrite lift_bind, Hparsed, Hhelp.
Qed.

(** with branch protection on, a push to the selected repository that names
    a refspec for a protected branch, in whatever case and spelling, or that
    deletes it, is refused: the guard neither lets it run nor passes it
    through. *)
Theorem protected_push_is_refused (s : GuardService) (o : oracle) (arguments : list (list Z))
    (inv : GlobalInvocation) (parsed : OperationArguments) (repo refspec : list Z) :
  bp_enabled (branches s) = true →
  parse_invocation arguments = Ok inv → command inv = Some (str "push") →
  parse_operation_arguments Push (command_arguments inv) = Ok parsed →
  help_requested parsed = false → repository parsed = Some repo →
  git_run o (resolve_remote_identity s (global_arguments inv) Push repo) =
    Ok (selected_repository (policy s)) →
  refspec ∈ explicit_refspecs parsed → names_protected s refspec →
  ∃ e, git_run o (admit_command s arguments) = Err e.
Proof.
  intros Hen Hinv Hcmd Hparsed Hhelp Hrepo Hid Hin (protected & Hp & Hname).
  rewrite (admit_push_run s o arguments inv parsed) by done.
  destruct (git_run o (check_authenticated s inv)) as [u|e]; [|by exists e].
  destruct (git_run o (admit_operation s inv Push parsed)) as [a|e] eqn:Ea; [|by exists e].
  exfalso. pose proof (admit_operation_selected s o inv Push parsed repo a Hrepo Hid Ea) as ->.
  pose proof (git_always_run o _ _ (admit_operation_push s Hen inv parsed)) as Hok.
  rewrite Ea in Hok. destruct (Hok eq_refl) as (current & refs & Hchecked).
  destruct Hchecked as (_ & _ & _ & _ & _ & _ & _ & Hex & Hall).
  rewrite Hex in Hall by (by intros Hnil; rewrite Hnil in Hin; apply elem_of_nil in Hin).
  rewrite Forall_forall in Hall. destruct (Hall _ Hin) as (src & dst & Hparse & (n & Hn & Hnok) & _).
  destruct (Hname _ _ _ Hparse) as (n' & Hn' & Hlow). simplify_eq.
  destruct Hnok as (_ & Hno & _). by apply (Hno protected).
Qed.

(** a push whose repository the option [--repo] names is judged by that
    repository alone, and all its other arguments are read as refspecs: when it
    is another repository, the command is passed through whatever they are. *)
Theorem repo_option_decides (s : GuardService) (o : oracle) (url remote refspec : list Z)
    (identity : RepositoryIdentity) :
  bp_enabled (branches s) = true → url ≠ [] →
  starts_with remote (str "-") = false → starts_with refspec (str "-") = false →
  github_https_auth (policy s) = false → git_ssh_auth (policy s) = false →
  git_run o (resolve_remote_identity s [] Push url) = Ok identity →
  identity ≠ selected_repository (policy s) →
  git_run o (admit_command s [str "push"; str "--repo=" ++ url; remote; refspec]) =
    Ok other_repository.
Proof.
  intros Hen Hurl Hr Hs Hhttps Hssh Hid Hne.
  rewrite (admit_push_run s o _
    {| global_arguments := []; command := Some (str "push");
       command_arguments := [str "--repo=" ++ url; remote; refspec]; global_unsupported := [] |}
    {| repository := Some url; refspecs := [remote; refspec]; broad_option := None;
       unsupported_options := []; help_requested := false; delete_refs := false |}); try done.
  - unfold check_authenticated. rewrite Hhttps, Hssh. cbn [orb git_run done_].
    unfold admit_operation. cbn [repository global_arguments]. cbv zeta.
    rewrite !guard_run_bind, Hid. cbn [git_run done_]. by rewrite bool_decide_eq_false_2 by done.
  - cbn [command_arguments]. unfold parse_operation_arguments.
    by rewrite parse_repo_option, !parse_positional by done.
Qed.

(** an option before the command that the guard does not know is taken to
    have no value: the next argument is read as the command, and when it is no
    guarded command and no alias, everything after it is passed through. *)
Theorem unknown_option_hides_command (s : GuardService) (o : oracle) (option value : list Z)
    (rest : list (list Z)) :
  bp_enabled (branches s) = true →
  github_https_auth (policy s) = false → git_ssh_auth (policy s) = false →
  starts_with option (str "-") = true → option ≠ str "--" →
  contains_str GLOBAL_VALUE_OPTIONS option = false → global_value_prefix option = None →
  compact_global_value option = false → contains_str GLOBAL_FLAG_OPTIONS option = false →
  starts_with value (str "-") = false → contains_str [str "push"; str "pull"] value = false →
  git_run o (config_value [option] (str "alias." ++ value)) = Ok None →
  git_run o (admit_command s (option :: value :: rest)) =
    Ok (PassThrough "not a guarded Git operation").
Proof.
  intros Hen Hhttps Hssh Hdash Hsep Hval Hpre Hcomp Hflag Hv Hpp Halias. unfold admit_command.
  rewrite lift_bind.
  assert (parse_invocation (option :: value :: rest) =
          Ok {| global_arguments := [option]; command := Some value; command_arguments := rest;
                global_unsupported := [option] |}) as ->.
  { unfold parse_invocation. by rewrite parse_unknown, parse_command by done. }
  rewrite guard_run_bind. unfold resolve_aliases, MAX_ALIAS_DEPTH. cbn [alias_steps command].
  rewrite Hpp, guard_run_bind. cbn [global_arguments]. rewrite Halias. cbn [git_run done_].
  unfold check_authenticated. rewrite Hhttps, Hssh. cbn [orb]. rewrite guard_run_bind, Hen.
  cbn [git_run done_ negb]. cbv zeta. cbn [command].
  unfold contains_str in Hpp. apply bool_decide_eq_false in Hpp.
  by rewrite !bool_decide_eq_false_2 by (intros ->; apply Hpp; set_solver).
Qed.

End Refused.

Lemma protected_push_is_refused_witness :
  ∃ e, git_run sample_oracle (admit_command (Url := sample_url) sample_service
         (argv ["push"; "origin"; "+feature/a:refs/heads/MAIN"]%string)) = Err e.
Proof.
  refine (protected_push_is_refused (Url := sample_url) sample_service sample_oracle
            (argv ["push"; "origin"; "+feature/a:refs/heads/MAIN"]%string) _ _
            (str "origin") (str "+feature/a:refs/heads/MAIN") eq_refl eq_refl eq_refl eq_refl
            eq_refl eq_refl _ _ _).
  - vm_compute. reflexivity.
  - apply list_elem_of_In. left. reflexivity.
  - exists (str "main"). split; [apply list_elem_of_In; left; reflexivity|].
    intros current source destination Hp.
    vm_compute in Hp. injection Hp as _ <-. exists (str "MAIN"). split; vm_compute; reflexivity.
Defined.

(** A push to [main] of the selected repository, with another repository in the
    option. *)
Lemma repo_option_decides_witness :
  git_run sample_oracle (admit_command (Url := sample_url) sample_service
    (argv ["push"; "--repo=https://github.com/acme/other"; "origin"; "feature/a:main"]%string)) =
  Ok other_repository.
Proof.
  refine (repo_option_decides (Url := sample_url) sample_service sample_oracle
            (str "https://github.com/acme/other") (str "origin") (str "feature/a:main")
            {| id_host := str "github.com"; id_owner := str "acme"; id_name := str "other" |}
            eq_refl _ eq_refl eq_refl eq_refl eq_refl _ _).
  - discriminate.
  - vm_compute. reflexivity.
  - discriminate.
Defined.

(** [--attr-source] takes a value in Git. *)
Lemma unknown_option_hides_command_witness :
  git_run sample_oracle (admit_command (Url := sample_url) sample_service
    (argv ["--attr-source"; "HEAD"; "push"; "origin"; "feature/a:main"]%string)) =
  Ok (PassThrough "not a guarded Git operation").
Proof.
  refine (unknown_option_hides_command (Url := sample_url) sample_service sample_oracle
            (str "--attr-source") (str "HEAD") (argv ["push"; "origin"; "feature/a:main"]%string)
            eq_refl eq_refl eq_refl eq_refl _ eq_refl eq_refl eq_refl eq_refl eq_refl eq_refl _).
  - discriminate.
  - vm_compute. reflexivity.
Defined.

(** the environment a guarded Git process gets from its caller is the
    policy's fixed [PATH] and variables of the caller that the policy inherits or
    that set the locale, none of them one that redirects Git; a caller that sets
    such a variable is refused. *)
Theorem environment_is_sanitized (p : EnvironmentPolicy) (input : list (list Z * list Z))
    (env : gmap (list Z) (list Z)) :
  sanitize p input = Ok env →
  environment_clean p input env ∧
  Forall (λ kv, dangerous_environment_key kv.1 = false) input.
Proof.
  unfold sanitize. destruct (environment_validate p) as [[]|] eqn:Hv; [|done]. intros Hs.
  apply (sanitize_loop_clean p input input {[str "PATH" := fixed_path p]}); [done|done| |done].
  intros key value Hk. apply lookup_singleton_Some in Hk as [<- <-]. by left.
Qed.

Lemma environment_is_sanitized_witness :
  ∃ env, sanitize EnvironmentPolicy_default [(str "HOME", str "/h"); (str "FOO", str "x")] = Ok env ∧
         environment_clean EnvironmentPolicy_default
           [(str "HOME", str "/h"); (str "FOO", str "x")] env.
Proof.
  assert (∃ env, sanitize EnvironmentPolicy_default
                   [(str "HOME", str "/h"); (str "FOO", str "x")] = Ok env) as [env Henv].
  { eexists. vm_compute. reflexivity. }
  exists env. split; [exact Henv|].
  exact (proj1 (environment_is_sanitized _ _ _ Henv)).
Defined.
