(* ===== verification/ProtoTypes.v ===== *)
(** * The guest protocol: types ([crates/sendbox-protocol/src/types.rs],
      [limits.rs], [error.rs])

    Versions, capabilities, messages and errors of the protocol between the host
    and the guest. *)

From S2P Require Import Prelude RustStr.

(** ** Limits and errors *)

Definition HARD_MAX_FRAME_BYTES : Z := 1024 * 1024.
Definition DEFAULT_MAX_FRAME_BYTES : Z := 256 * 1024.

Definition PROTOCOL_MAGIC : list Z := str "SENDBOX" ++ [0].
Definition PROTOCOL_VERSION : Z := 2.
Definition NONCE_BYTES : nat := 32.
Definition MAC_BYTES : nat := 32.

Inductive PeerRole : Type := HostClient | GuestServer.
Inductive MessageDirection : Type := HostToGuest | GuestToHost.

#[global] Instance PeerRole_eq_dec : EqDecision PeerRole.
Proof. solve_decision. Defined.
#[global] Instance MessageDirection_eq_dec : EqDecision MessageDirection.
Proof. solve_decision. Defined.

Definition role_u8 (r : PeerRole) : Z := match r with HostClient => 1 | GuestServer => 2 end.
Definition role_direction (r : PeerRole) : MessageDirection :=
  match r with HostClient => HostToGuest | GuestServer => GuestToHost end.
Definition direction_u8 (d : MessageDirection) : Z :=
  match d with HostToGuest => 1 | GuestToHost => 2 end.

(** Why an encoding is malformed: the texts of the code, with what they print. *)
Inductive malformed : Type :=
| M_cbor
| M_trailing
| M_indefinite
| M_array_length (expected actual : Z)
| M_fixed_bytes (expected : nat)
| M_capability_count (length : Z)
| M_duplicate_capabilities
| M_capability (value : Z)
| M_role (value : Z)
| M_response_status (value : Z)
| M_event_kind (value : Z)
| M_close_code (value : Z)
| M_error_code (value : Z)
| M_cancellation_reason
| M_direction (value : Z)
| M_frame_indefinite
| M_frame_array_length (actual : Z)
| M_frame_trailing.

Inductive ProtocolError : Type :=
| InvalidFrameLimit (requested : Z)
| BootstrapSecretTooShort
| Randomness
| FrameTooLarge (declared maximum : Z)
| EmptyFrame
| EndOfStream
| IncompleteFrame (expected received : Z)
| MalformedEncoding (why : malformed)
| NonCanonicalEncoding
| UnsupportedMessageKind (kind : Z)
| InvalidMagic
| UnsupportedVersion (minimum maximum : Z)
| VersionMismatch (version : Z)
| SessionMismatch (expected actual : list Z)
| RoleMismatch (expected actual : PeerRole)
| DirectionMismatch (expected actual : MessageDirection)
| MissingRequiredCapabilities
| EmptyCapabilityIntersection
| InvalidNegotiatedFrameLimit
| AuthenticationFailed
| Replay (expected actual : Z)
| OutOfOrder (expected actual : Z)
| SequenceOverflow
| RepeatedHandshake (state : string)
| UnexpectedHandshakeMessage (expected : string) (actual : Z)
| HandshakeMessageAfterReady
| ReaderPoisoned
| WriterPoisoned
| Io.

(** [FrameLimits] with its checked constructor. *)
Record FrameLimits : Type := { max_frame_bytes : Z }.

Definition limits_new (requested : Z) : result ProtocolError FrameLimits :=
  if (requested =? 0) || (HARD_MAX_FRAME_BYTES <? requested)
  then Err (InvalidFrameLimit requested)
  else Ok {| max_frame_bytes := requested |}.

Definition limits_default : FrameLimits := {| max_frame_bytes := DEFAULT_MAX_FRAME_BYTES |}.

(** ** Versions and capabilities *)

Record VersionRange : Type := { v_minimum : Z; v_maximum : Z }.

Definition versions_negotiate (a b : VersionRange) : option Z :=
  let minimum := Z.max (v_minimum a) (v_minimum b) in
  let maximum := Z.min (v_maximum a) (v_maximum b) in
  if minimum <=? maximum then Some maximum else None.

Definition versions_valid (v : VersionRange) : bool :=
  (0 <? v_minimum v) && (v_minimum v <=? v_maximum v).

Inductive Capability : Type :=
| Lifecycle | Exec | StreamedIo | Signals | Mounts | Network | Mcp | Audit | Health.

#[global] Instance Capability_eq_dec : EqDecision Capability.
Proof. solve_decision. Defined.

Definition capability_u16 (c : Capability) : Z :=
  match c with
  | Lifecycle => 1 | Exec => 2 | StreamedIo => 3 | Signals => 4 | Mounts => 5 | Network => 6
  | Mcp => 7 | Audit => 8 | Health => 9
  end.

Definition capability_of (value : Z) : option Capability :=
  match value with
  | 1 => Some Lifecycle | 2 => Some Exec | 3 => Some StreamedIo | 4 => Some Signals
  | 5 => Some Mounts | 6 => Some Network | 7 => Some Mcp | 8 => Some Audit | 9 => Some Health
  | _ => None
  end.

Definition CAPABILITY_COUNT : Z := 9.

(** All capabilities, in their order. *)
Definition all_capabilities : list Capability :=
  [Lifecycle; Exec; StreamedIo; Signals; Mounts; Network; Mcp; Audit; Health].

(** A [BTreeSet<Capability>]: which capabilities it has. *)
Record CapabilitySet : Type := {
  has_lifecycle : bool; has_exec : bool; has_streamed_io : bool; has_signals : bool;
  has_mounts : bool; has_network : bool; has_mcp : bool; has_audit : bool; has_health : bool;
}.

#[global] Instance CapabilitySet_eq_dec : EqDecision CapabilitySet.
Proof. solve_decision. Defined.

Definition caps_contains (s : CapabilitySet) (c : Capability) : bool :=
  match c with
  | Lifecycle => has_lifecycle s | Exec => has_exec s | StreamedIo => has_streamed_io s
  | Signals => has_signals s | Mounts => has_mounts s | Network => has_network s
  | Mcp => has_mcp s | Audit => has_audit s | Health => has_health s
  end.

Definition caps_where (f : Capability → bool) : CapabilitySet :=
  {| has_lifecycle := f Lifecycle; has_exec := f Exec; has_streamed_io := f StreamedIo;
     has_signals := f Signals; has_mounts := f Mounts; has_network := f Network;
     has_mcp := f Mcp; has_audit := f Audit; has_health := f Health |}.

Definition caps_new (l : list Capability) : CapabilitySet := caps_where (λ c, bool_decide (c ∈ l)).

(** In the order of the set. *)
Definition caps_iter (s : CapabilitySet) : list Capability :=
  filter (λ c, caps_contains s c = true) all_capabilities.

Definition caps_is_empty (s : CapabilitySet) : bool := (length (caps_iter s) =? 0)%nat.
Definition caps_is_subset (s t : CapabilitySet) : bool :=
  forallb (λ c, implb (caps_contains s c) (caps_contains t c)) all_capabilities.
Definition caps_intersection (s t : CapabilitySet) : CapabilitySet :=
  caps_where (λ c, caps_contains s c && caps_contains t c).

(** ** Messages *)

Inductive MessageKind : Type :=
| KHello | KCapabilityNegotiation | KReadiness | KRequest | KResponse | KEvent | KCancellation
| KGracefulClose | KProtocolError.

Definition kind_u8 (k : MessageKind) : Z :=
  match k with
  | KHello => 1 | KCapabilityNegotiation => 2 | KReadiness => 3 | KRequest => 4 | KResponse => 5
  | KEvent => 6 | KCancellation => 7 | KGracefulClose => 8 | KProtocolError => 9
  end.

Record Hello : Type := {
  h_magic : list Z;
  h_versions : VersionRange;
  h_session_id : list Z;
  h_role : PeerRole;
  h_nonce : list Z;
  h_capabilities : CapabilitySet;
  h_required_capabilities : CapabilitySet;
  h_max_frame_bytes : Z;
}.

Record Negotiation : Type := {
  n_magic : list Z;
  n_versions : VersionRange;
  n_selected_version : Z;
  n_session_id : list Z;
  n_role : PeerRole;
  n_client_nonce : list Z;
  n_server_nonce : list Z;
  n_capabilities : CapabilitySet;
  n_required_capabilities : CapabilitySet;
  n_negotiated_capabilities : CapabilitySet;
  n_max_frame_bytes : Z;
  n_proof : list Z;
}.

Record Readiness : Type := {
  r_role : PeerRole;
  r_session_id : list Z;
  r_selected_version : Z;
  r_negotiated_capabilities : CapabilitySet;
  r_max_frame_bytes : Z;
  r_proof : list Z;
}.

Inductive ResponseStatus : Type := StatusOk | StatusRejected | StatusFailed.
Definition status_code (s : ResponseStatus) : Z :=
  match s with StatusOk => 1 | StatusRejected => 2 | StatusFailed => 3 end.
Definition status_of (value : Z) : option ResponseStatus :=
  match value with
  | 1 => Some StatusOk | 2 => Some StatusRejected | 3 => Some StatusFailed | _ => None
  end.

Inductive EventKind : Type :=
| StandardOutput | StandardError | EventAudit | EventHealth | EventLifecycle | StandardInput
| StandardInputEof | TerminalResize | TerminalInputCredit.
Definition event_u8 (k : EventKind) : Z :=
  match k with
  | StandardOutput => 1 | StandardError => 2 | EventAudit => 3 | EventHealth => 4
  | EventLifecycle => 5 | StandardInput => 6 | StandardInputEof => 7 | TerminalResize => 8
  | TerminalInputCredit => 9
  end.
Definition event_of (value : Z) : option EventKind :=
  match value with
  | 1 => Some StandardOutput | 2 => Some StandardError | 3 => Some EventAudit
  | 4 => Some EventHealth | 5 => Some EventLifecycle | 6 => Some StandardInput
  | 7 => Some StandardInputEof | 8 => Some TerminalResize | 9 => Some TerminalInputCredit
  | _ => None
  end.

Inductive CloseCode : Type := CloseNormal | CloseShutdown | CloseProtocolFailure.
Definition close_u8 (c : CloseCode) : Z :=
  match c with CloseNormal => 1 | CloseShutdown => 2 | CloseProtocolFailure => 3 end.
Definition close_of (value : Z) : option CloseCode :=
  match value with
  | 1 => Some CloseNormal | 2 => Some CloseShutdown | 3 => Some CloseProtocolFailure | _ => None
  end.

Inductive ProtocolErrorCode : Type :=
| CodeMalformedFrame | CodeAuthentication | CodeUnsupportedVersion | CodeUnsupportedCapability
| CodeInvalidState | CodeInternal.
Definition error_u16 (c : ProtocolErrorCode) : Z :=
  match c with
  | CodeMalformedFrame => 1 | CodeAuthentication => 2 | CodeUnsupportedVersion => 3
  | CodeUnsupportedCapability => 4 | CodeInvalidState => 5 | CodeInternal => 6
  end.
Definition error_of (value : Z) : option ProtocolErrorCode :=
  match value with
  | 1 => Some CodeMalformedFrame | 2 => Some CodeAuthentication | 3 => Some CodeUnsupportedVersion
  | 4 => Some CodeUnsupportedCapability | 5 => Some CodeInvalidState | 6 => Some CodeInternal
  | _ => None
  end.

Inductive Message : Type :=
| MHello (hello : Hello)
| MNegotiation (negotiation : Negotiation)
| MReadiness (readiness : Readiness)
| MRequest (request_id : Z) (operation payload : list Z)
| MResponse (request_id : Z) (status : ResponseStatus) (payload : list Z)
| MEvent (stream_id : Z) (kind : EventKind) (payload : list Z)
| MCancellation (request_id : Z) (reason : option (list Z))
| MGracefulClose (code : CloseCode) (reason : list Z)
| MProtocolError (code : ProtocolErrorCode) (detail : list Z).

Definition message_kind (m : Message) : MessageKind :=
  match m with
  | MHello _ => KHello
  | MNegotiation _ => KCapabilityNegotiation
  | MReadiness _ => KReadiness
  | MRequest _ _ _ => KRequest
  | MResponse _ _ _ => KResponse
  | MEvent _ _ _ => KEvent
  | MCancellation _ _ => KCancellation
  | MGracefulClose _ _ => KGracefulClose
  | MProtocolError _ _ => KProtocolError
  end.

Definition is_handshake (m : Message) : bool :=
  match m with MHello _ | MNegotiation _ | MReadiness _ => true | _ => false end.

(** ** Lemmas *)

Lemma capability_of_u16 (c : Capability) : capability_of (capability_u16 c) = Some c.
Proof. by destruct c. Qed.
Lemma status_of_code (s : ResponseStatus) : status_of (status_code s) = Some s.
Proof. by destruct s. Qed.
Lemma event_of_u8 (k : EventKind) : event_of (event_u8 k) = Some k.
Proof. by destruct k. Qed.
Lemma close_of_u8 (c : CloseCode) : close_of (close_u8 c) = Some c.
Proof. by destruct c. Qed.
Lemma error_of_u16 (c : ProtocolErrorCode) : error_of (error_u16 c) = Some c.
Proof. by destruct c. Qed.

Lemma caps_contains_where (f : Capability → bool) (c : Capability) :
  caps_contains (caps_where f) c = f c.
Proof. by destruct c. Qed.

Lemma caps_ext (s t : CapabilitySet) :
  (∀ c, caps_contains s c = caps_contains t c) → s = t.
Proof.
  intros H. destruct s, t. f_equal;
    [apply (H Lifecycle)|apply (H Exec)|apply (H StreamedIo)|apply (H Signals)|apply (H Mounts)|
     apply (H Network)|apply (H Mcp)|apply (H Audit)|apply (H Health)].
Qed.

Lemma elem_of_all_capabilities (c : Capability) : c ∈ all_capabilities.
Proof. destruct c; set_solver. Qed.

Lemma elem_of_caps_iter (s : CapabilitySet) (c : Capability) :
  c ∈ caps_iter s ↔ caps_contains s c = true.
Proof.
  unfold caps_iter. rewrite list_elem_of_filter. split; [tauto|].
  intros H. split; [done|apply elem_of_all_capabilities].
Qed.

Lemma caps_new_iter (s : CapabilitySet) : caps_new (caps_iter s) = s.
Proof.
  apply caps_ext. intros c. unfold caps_new. rewrite caps_contains_where.
  apply eq_true_iff_eq. by rewrite bool_decide_eq_true, elem_of_caps_iter.
Qed.

Lemma caps_iter_length (s : CapabilitySet) : (length (caps_iter s) ≤ 9)%nat.
Proof. unfold caps_iter. apply (length_filter _ all_capabilities). Qed.

Lemma caps_subset_spec (s t : CapabilitySet) :
  caps_is_subset s t = true ↔ ∀ c, caps_contains s c = true → caps_contains t c = true.
Proof.
  unfold caps_is_subset. rewrite forallb_forall. split.
  - intros H c Hc. specialize (H c). rewrite <-list_elem_of_In, Hc in H.
    by apply H, elem_of_all_capabilities.
  - intros H c _. specialize (H c). destruct (caps_contains s c); simpl; [by apply H|done].
Qed.
