(* ===== verification/ProtoCodec.v ===== *)
(** * The guest protocol: messages as CBOR
      ([crates/sendbox-protocol/src/codec.rs])

    [encode_message] and [decode_message] over the primitives of the CBOR library, which is
    the interface [CborApi] with the laws [CborLaws]. [Rfc8949] is an instance. The encoder
    writes to a growing vector and cannot fail, so the encoders return the bytes. *)

From S2P Require Import Prelude RustStr ProtoTypes.

(** ** The CBOR primitives *)

Inductive cbor_type : Type := TNull | TString | TOther.

(** A decoder is given the bytes that are left and returns the ones it did not use. *)
Class CborApi : Type := {
  cbor_array : Z → list Z;
  cbor_bytes : list Z → list Z;
  cbor_str : list Z → list Z;
  cbor_uint : Z → list Z;
  cbor_null : list Z;
  get_array : list Z → option (option Z * list Z);
  get_bytes : list Z → option (list Z * list Z);
  get_str : list Z → option (list Z * list Z);
  get_uint : Z → list Z → option (Z * list Z);
  get_null : list Z → option (unit * list Z);
  get_type : list Z → option cbor_type;
}.

(** What is written is read back, and what is read is a value of its Rust type. *)
Class CborLaws (api : CborApi) : Prop := {
  get_array_put n r : in_u u64_max n → get_array (cbor_array n ++ r) = Some (Some n, r);
  get_bytes_put b r :
    Z.of_nat (length b) ≤ u64_max → get_bytes (cbor_bytes b ++ r) = Some (b, r);
  get_str_put s r :
    Z.of_nat (length s) ≤ u64_max → from_utf8 s = Some s →
    get_str (cbor_str s ++ r) = Some (s, r);
  get_uint_put m v r : in_u m v → m ≤ u64_max → get_uint m (cbor_uint v ++ r) = Some (v, r);
  get_null_put r : get_null (cbor_null ++ r) = Some (tt, r);
  get_type_null r : get_type (cbor_null ++ r) = Some TNull;
  get_type_str s r : Z.of_nat (length s) ≤ u64_max → get_type (cbor_str s ++ r) = Some TString;
  get_bytes_value l b r : get_bytes l = Some (b, r) → Z.of_nat (length b) ≤ u64_max;
  get_str_value l s r :
    get_str l = Some (s, r) → Z.of_nat (length s) ≤ u64_max ∧ from_utf8 s = Some s;
  get_uint_value m l v r : get_uint m l = Some (v, r) → in_u m v;
}.

Section Codec.
Context {cbor : CborApi}.

(** ** Encoding *)

Definition encode_capabilities (s : CapabilitySet) : list Z :=
  cbor_array (Z.of_nat (length (caps_iter s))) ++
  flat_map (λ c, cbor_uint (capability_u16 c)) (caps_iter s).

Definition negotiation_fields (n : Negotiation) : list Z :=
  cbor_uint (kind_u8 KCapabilityNegotiation) ++
  cbor_bytes (n_magic n) ++
  cbor_uint (v_minimum (n_versions n)) ++
  cbor_uint (v_maximum (n_versions n)) ++
  cbor_uint (n_selected_version n) ++
  cbor_bytes (n_session_id n) ++
  cbor_uint (role_u8 (n_role n)) ++
  cbor_bytes (n_client_nonce n) ++
  cbor_bytes (n_server_nonce n) ++
  encode_capabilities (n_capabilities n) ++
  encode_capabilities (n_required_capabilities n) ++
  encode_capabilities (n_negotiated_capabilities n) ++
  cbor_uint (n_max_frame_bytes n).

Definition encode_negotiation_core (n : Negotiation) : list Z :=
  cbor_array 13 ++ negotiation_fields n.

Definition readiness_fields (r : Readiness) : list Z :=
  cbor_uint (kind_u8 KReadiness) ++
  cbor_uint (role_u8 (r_role r)) ++
  cbor_bytes (r_session_id r) ++
  cbor_uint (r_selected_version r) ++
  encode_capabilities (r_negotiated_capabilities r) ++
  cbor_uint (r_max_frame_bytes r).

Definition encode_readiness_core (r : Readiness) : list Z :=
  cbor_array 6 ++ readiness_fields r.

Definition encode_message (m : Message) : list Z :=
  match m with
  | MHello h =>
      cbor_array 10 ++
      cbor_uint (kind_u8 KHello) ++
      cbor_bytes (h_magic h) ++
      cbor_uint (v_minimum (h_versions h)) ++
      cbor_uint (v_maximum (h_versions h)) ++
      cbor_bytes (h_session_id h) ++
      cbor_uint (role_u8 (h_role h)) ++
      cbor_bytes (h_nonce h) ++
      encode_capabilities (h_capabilities h) ++
      encode_capabilities (h_required_capabilities h) ++
      cbor_uint (h_max_frame_bytes h)
  | MNegotiation n => cbor_array 14 ++ negotiation_fields n ++ cbor_bytes (n_proof n)
  | MReadiness r => cbor_array 7 ++ readiness_fields r ++ cbor_bytes (r_proof r)
  | MRequest id operation payload =>
      cbor_array 4 ++ cbor_uint (kind_u8 KRequest) ++ cbor_uint id ++ cbor_str operation ++
      cbor_bytes payload
  | MResponse id status payload =>
      cbor_array 4 ++ cbor_uint (kind_u8 KResponse) ++ cbor_uint id ++
      cbor_uint (status_code status) ++ cbor_bytes payload
  | MEvent id kind payload =>
      cbor_array 4 ++ cbor_uint (kind_u8 KEvent) ++ cbor_uint id ++ cbor_uint (event_u8 kind) ++
      cbor_bytes payload
  | MCancellation id reason =>
      cbor_array 3 ++ cbor_uint (kind_u8 KCancellation) ++ cbor_uint id ++
      match reason with Some reason => cbor_str reason | None => cbor_null end
  | MGracefulClose code reason =>
      cbor_array 3 ++ cbor_uint (kind_u8 KGracefulClose) ++ cbor_uint (close_u8 code) ++
      cbor_str reason
  | MProtocolError code detail =>
      cbor_array 3 ++ cbor_uint (kind_u8 KProtocolError) ++ cbor_uint (error_u16 code) ++
      cbor_str detail
  end.

(** ** Decoding *)

Definition dec (A : Type) : Type := list Z → result ProtocolError (A * list Z).

(** [map_err(decode_error)] *)
Definition cbor_dec {A : Type} (f : list Z → option (A * list Z)) : dec A :=
  λ l, ok_or (f l) (MalformedEncoding M_cbor).

Definition decode_array_length : dec Z :=
  λ l, let? ' (n, r) := cbor_dec get_array l in
       let? n := ok_or n (MalformedEncoding M_indefinite) in Ok (n, r).

Definition require_array_length (actual expected : Z) : result ProtocolError () :=
  if negb (actual =? expected) then Err (MalformedEncoding (M_array_length expected actual))
  else Ok tt.

Definition decode_fixed_bytes (n : nat) : dec (list Z) :=
  λ l, let? ' (b, r) := cbor_dec get_bytes l in
       if (length b =? n)%nat then Ok (b, r) else Err (MalformedEncoding (M_fixed_bytes n)).

(** A number that must name a constructor. *)
Definition decode_enum {A : Type} (max : Z) (of_value : Z → option A) (why : Z → malformed)
  : dec A :=
  λ l, let? ' (v, r) := cbor_dec (get_uint max) l in
       let? x := ok_or (of_value v) (MalformedEncoding (why v)) in Ok (x, r).

Definition decode_capability : dec Capability := decode_enum u16_max capability_of M_capability.

Definition role_of (value : Z) : option PeerRole :=
  match value with 1 => Some HostClient | 2 => Some GuestServer | _ => None end.

Definition decode_role : dec PeerRole := decode_enum u8_max role_of M_role.
Definition decode_response_status : dec ResponseStatus :=
  decode_enum u8_max status_of M_response_status.
Definition decode_event_kind : dec EventKind := decode_enum u8_max event_of M_event_kind.
Definition decode_close_code : dec CloseCode := decode_enum u8_max close_of M_close_code.
Definition decode_protocol_error_code : dec ProtocolErrorCode :=
  decode_enum u16_max error_of M_error_code.

Fixpoint decode_capability_list (n : nat) : dec (list Capability) :=
  λ l, match n with
       | O => Ok ([], l)
       | S n =>
           let? ' (c, r) := decode_capability l in
           let? ' (cs, r) := decode_capability_list n r in Ok (c :: cs, r)
       end.

Definition decode_capabilities : dec CapabilitySet :=
  λ l,
    let? ' (length_, r) := decode_array_length l in
    if CAPABILITY_COUNT <? length_ then Err (MalformedEncoding (M_capability_count length_))
    else
      let? ' (capabilities, r) := decode_capability_list (Z.to_nat length_) r in
      let set := caps_new capabilities in
      if negb (length (caps_iter set) =? length capabilities)%nat
      then Err (MalformedEncoding M_duplicate_capabilities)
      else Ok (set, r).

Definition get_u8 : dec Z := cbor_dec (get_uint u8_max).
Definition get_u16 : dec Z := cbor_dec (get_uint u16_max).
Definition get_u32 : dec Z := cbor_dec (get_uint u32_max).
Definition get_u64 : dec Z := cbor_dec (get_uint u64_max).

Definition decode_hello : dec Message :=
  λ l,
    let? ' (magic, l) := decode_fixed_bytes 8 l in
    let? ' (minimum, l) := get_u16 l in
    let? ' (maximum, l) := get_u16 l in
    let? ' (session, l) := decode_fixed_bytes 16 l in
    let? ' (role, l) := decode_role l in
    let? ' (nonce, l) := decode_fixed_bytes NONCE_BYTES l in
    let? ' (capabilities, l) := decode_capabilities l in
    let? ' (required, l) := decode_capabilities l in
    let? ' (max, l) := get_u32 l in
    Ok (MHello {| h_magic := magic;
                  h_versions := {| v_minimum := minimum; v_maximum := maximum |};
                  h_session_id := session; h_role := role; h_nonce := nonce;
                  h_capabilities := capabilities; h_required_capabilities := required;
                  h_max_frame_bytes := max |}, l).

Definition decode_negotiation : dec Message :=
  λ l,
    let? ' (magic, l) := decode_fixed_bytes 8 l in
    let? ' (minimum, l) := get_u16 l in
    let? ' (maximum, l) := get_u16 l in
    let? ' (selected, l) := get_u16 l in
    let? ' (session, l) := decode_fixed_bytes 16 l in
    let? ' (role, l) := decode_role l in
    let? ' (client, l) := decode_fixed_bytes NONCE_BYTES l in
    let? ' (server, l) := decode_fixed_bytes NONCE_BYTES l in
    let? ' (capabilities, l) := decode_capabilities l in
    let? ' (required, l) := decode_capabilities l in
    let? ' (negotiated, l) := decode_capabilities l in
    let? ' (max, l) := get_u32 l in
    let? ' (proof, l) := decode_fixed_bytes MAC_BYTES l in
    Ok (MNegotiation
          {| n_magic := magic;
             n_versions := {| v_minimum := minimum; v_maximum := maximum |};
             n_selected_version := selected; n_session_id := session; n_role := role;
             n_client_nonce := client; n_server_nonce := server;
             n_capabilities := capabilities; n_required_capabilities := required;
             n_negotiated_capabilities := negotiated; n_max_frame_bytes := max;
             n_proof := proof |}, l).

Definition decode_readiness : dec Message :=
  λ l,
    let? ' (role, l) := decode_role l in
    let? ' (session, l) := decode_fixed_bytes 16 l in
    let? ' (selected, l) := get_u16 l in
    let? ' (negotiated, l) := decode_capabilities l in
    let? ' (max, l) := get_u32 l in
    let? ' (proof, l) := decode_fixed_bytes MAC_BYTES l in
    Ok (MReadiness
          {| r_role := role; r_session_id := session; r_selected_version := selected;
             r_negotiated_capabilities := negotiated; r_max_frame_bytes := max;
             r_proof := proof |}, l).

Definition decode_cancellation : dec Message :=
  λ l,
    let? ' (id, l) := get_u64 l in
    let? type := ok_or (get_type l) (MalformedEncoding M_cbor) in
    match type with
    | TNull => let? ' (_, l) := cbor_dec get_null l in Ok (MCancellation id None, l)
    | TString => let? ' (reason, l) := cbor_dec get_str l in Ok (MCancellation id (Some reason), l)
    | TOther => Err (MalformedEncoding M_cancellation_reason)
    end.

Definition decode_message_from : dec Message :=
  λ l,
    let? ' (length_, l) := decode_array_length l in
    let? ' (kind, l) := get_u8 l in
    match kind with
    | 1 => check? require_array_length length_ 10 in decode_hello l
    | 2 => check? require_array_length length_ 14 in decode_negotiation l
    | 3 => check? require_array_length length_ 7 in decode_readiness l
    | 4 =>
        check? require_array_length length_ 4 in
        let? ' (id, l) := get_u64 l in
        let? ' (operation, l) := cbor_dec get_str l in
        let? ' (payload, l) := cbor_dec get_bytes l in
        Ok (MRequest id operation payload, l)
    | 5 =>
        check? require_array_length length_ 4 in
        let? ' (id, l) := get_u64 l in
        let? ' (status, l) := decode_response_status l in
        let? ' (payload, l) := cbor_dec get_bytes l in
        Ok (MResponse id status payload, l)
    | 6 =>
        check? require_array_length length_ 4 in
        let? ' (id, l) := get_u64 l in
        let? ' (kind, l) := decode_event_kind l in
        let? ' (payload, l) := cbor_dec get_bytes l in
        Ok (MEvent id kind payload, l)
    | 7 => check? require_array_length length_ 3 in decode_cancellation l
    | 8 =>
        check? require_array_length length_ 3 in
        let? ' (code, l) := decode_close_code l in
        let? ' (reason, l) := cbor_dec get_str l in
        Ok (MGracefulClose code reason, l)
    | 9 =>
        check? require_array_length length_ 3 in
        let? ' (code, l) := decode_protocol_error_code l in
        let? ' (detail, l) := cbor_dec get_str l in
        Ok (MProtocolError code detail, l)
    | kind => Err (UnsupportedMessageKind kind)
    end.

(** The position is the end exactly when nothing is left. *)
Definition decode_message (bytes : list Z) : result ProtocolError Message :=
  let? ' (message, rest) := decode_message_from bytes in
  if negb (bool_decide (rest = [])) then Err (MalformedEncoding M_trailing)
  else if negb (bool_decide (encode_message message = bytes)) then Err NonCanonicalEncoding
  else Ok message.

(** ** Well-formed messages: the values the Rust types hold *)

Definition wf_len (b : list Z) : Prop := Z.of_nat (length b) ≤ u64_max.
Definition wf_string (s : list Z) : Prop := wf_len s ∧ from_utf8 s = Some s.
Definition wf_versions (v : VersionRange) : Prop :=
  in_u u16_max (v_minimum v) ∧ in_u u16_max (v_maximum v).

Definition wf_negotiation (n : Negotiation) : Prop :=
  length (n_magic n) = 8%nat ∧ wf_versions (n_versions n) ∧
  in_u u16_max (n_selected_version n) ∧ length (n_session_id n) = 16%nat ∧
  length (n_client_nonce n) = NONCE_BYTES ∧ length (n_server_nonce n) = NONCE_BYTES ∧
  in_u u32_max (n_max_frame_bytes n) ∧ length (n_proof n) = MAC_BYTES.

Definition wf_message (m : Message) : Prop :=
  match m with
  | MHello h =>
      length (h_magic h) = 8%nat ∧ wf_versions (h_versions h) ∧
      length (h_session_id h) = 16%nat ∧ length (h_nonce h) = NONCE_BYTES ∧
      in_u u32_max (h_max_frame_bytes h)
  | MNegotiation n => wf_negotiation n
  | MReadiness r =>
      length (r_session_id r) = 16%nat ∧ in_u u16_max (r_selected_version r) ∧
      in_u u32_max (r_max_frame_bytes r) ∧ length (r_proof r) = MAC_BYTES
  | MRequest id operation payload => in_u u64_max id ∧ wf_string operation ∧ wf_len payload
  | MResponse id _ payload | MEvent id _ payload => in_u u64_max id ∧ wf_len payload
  | MCancellation id reason => in_u u64_max id ∧ from_option wf_string True reason
  | MGracefulClose _ reason => wf_string reason
  | MProtocolError _ detail => wf_string detail
  end.

(** ** What is encoded is decoded *)

Context {laws : CborLaws cbor}.

Lemma get_u_put (m v : Z) (r : list Z) :
  in_u m v → m ≤ u64_max → cbor_dec (get_uint m) (cbor_uint v ++ r) = Ok (v, r).
Proof. intros. unfold cbor_dec. by rewrite get_uint_put. Qed.

Lemma decode_array_put (n : Z) (r : list Z) :
  in_u u64_max n → decode_array_length (cbor_array n ++ r) = Ok (n, r).
Proof. intros. unfold decode_array_length, cbor_dec. by rewrite get_array_put. Qed.

Lemma decode_bytes_put (b r : list Z) :
  wf_len b → cbor_dec get_bytes (cbor_bytes b ++ r) = Ok (b, r).
Proof. intros. unfold cbor_dec. by rewrite get_bytes_put. Qed.

Lemma decode_str_put (s r : list Z) :
  wf_string s → cbor_dec get_str (cbor_str s ++ r) = Ok (s, r).
Proof. intros [? ?]. unfold cbor_dec. by rewrite get_str_put. Qed.

Lemma decode_fixed_put (n : nat) (b r : list Z) :
  length b = n → Z.of_nat n ≤ u64_max → decode_fixed_bytes n (cbor_bytes b ++ r) = Ok (b, r).
Proof.
  intros <- Hn. unfold decode_fixed_bytes. rewrite decode_bytes_put by done.
  by rewrite Nat.eqb_refl.
Qed.

Lemma decode_enum_put {A : Type} (m : Z) (f : Z → option A) why (v : Z) (x : A) (r : list Z) :
  f v = Some x → in_u m v → m ≤ u64_max →
  decode_enum m f why (cbor_uint v ++ r) = Ok (x, r).
Proof. intros Hf ? ?. unfold decode_enum. rewrite get_u_put by done. by rewrite Hf. Qed.

Lemma decode_capability_list_put (cs : list Capability) (r : list Z) :
  decode_capability_list (length cs)
    (flat_map (λ c, cbor_uint (capability_u16 c)) cs ++ r) = Ok (cs, r).
Proof.
  induction cs as [|c cs IH]; [done|]. cbn [length decode_capability_list].
  cbn [flat_map]. rewrite <-app_assoc.
  unfold decode_capability. rewrite (decode_enum_put _ _ _ _ c).
  - by rewrite IH.
  - apply capability_of_u16.
  - destruct c; split; done.
  - done.
Qed.

Lemma decode_capabilities_put (s : CapabilitySet) (r : list Z) :
  decode_capabilities (encode_capabilities s ++ r) = Ok (s, r).
Proof.
  pose proof (caps_iter_length s) as Hl. unfold decode_capabilities, encode_capabilities.
  rewrite <-app_assoc, decode_array_put by (unfold in_u, u64_max; lia).
  rewrite (proj2 (Z.ltb_ge _ _)) by (unfold CAPABILITY_COUNT; lia).
  by rewrite Nat2Z.id, decode_capability_list_put, caps_new_iter, Nat.eqb_refl.
Qed.

Lemma decode_role_put (role : PeerRole) (r : list Z) :
  decode_role (cbor_uint (role_u8 role) ++ r) = Ok (role, r).
Proof. by apply decode_enum_put; destruct role. Qed.

Lemma decode_status_put (s : ResponseStatus) (r : list Z) :
  decode_response_status (cbor_uint (status_code s) ++ r) = Ok (s, r).
Proof. by apply decode_enum_put; destruct s. Qed.

Lemma decode_event_put (k : EventKind) (r : list Z) :
  decode_event_kind (cbor_uint (event_u8 k) ++ r) = Ok (k, r).
Proof. by apply decode_enum_put; destruct k. Qed.

Lemma decode_close_put (c : CloseCode) (r : list Z) :
  decode_close_code (cbor_uint (close_u8 c) ++ r) = Ok (c, r).
Proof. by apply decode_enum_put; destruct c. Qed.

Lemma decode_error_put (c : ProtocolErrorCode) (r : list Z) :
  decode_protocol_error_code (cbor_uint (error_u16 c) ++ r) = Ok (c, r).
Proof. by apply decode_enum_put; destruct c. Qed.

(** Reads the next field that was written. *)
Ltac read_field :=
  first
    [ rewrite decode_role_put | rewrite decode_status_put | rewrite decode_event_put
    | rewrite decode_close_put | rewrite decode_error_put | rewrite decode_capabilities_put
    | rewrite decode_fixed_put by done | rewrite decode_bytes_put by done
    | rewrite decode_str_put by done
    | rewrite decode_array_put by done
    | rewrite get_u_put by done ]; cbn beta iota.

Lemma decode_message_from_put (m : Message) (r : list Z) :
  wf_message m → decode_message_from (encode_message m ++ r) = Ok (m, r).
Proof.
  destruct m as [h|n|rd|id op p|id st p|id k p|id reason|c reason|c detail];
    cbn [wf_message encode_message]; unfold wf_negotiation, wf_versions; intros Hwf;
    repeat match goal with H : _ ∧ _ |- _ => destruct H end;
    unfold negotiation_fields, readiness_fields; rewrite <-!app_assoc;
    unfold decode_message_from, decode_hello, decode_negotiation, decode_readiness,
      decode_cancellation, get_u8, get_u16, get_u32, get_u64;
    do 2 read_field; cbn [kind_u8 require_array_length Z.eqb Pos.eqb negb].
  1-6,8-9: repeat read_field; try done.
  - destruct h as [? []]; done.
  - destruct n as [? []]; done.
  - destruct rd; done.
  - read_field. destruct reason as [reason|]; simpl in *.
    + rewrite get_type_str by apply H0. cbn [ok_or]. by read_field.
    + rewrite get_type_null. cbn [ok_or]. unfold cbor_dec. by rewrite get_null_put.
Qed.

(** ** What is decoded is well formed *)

Lemma cbor_dec_ok {A : Type} (f : list Z → option (A * list Z)) (l r : list Z) (x : A) :
  cbor_dec f l = Ok (x, r) → f l = Some (x, r).
Proof. unfold cbor_dec. destruct (f l) as [[]|]; naive_solver. Qed.

Lemma get_u_ok (m : Z) (l r : list Z) (v : Z) :
  cbor_dec (get_uint m) l = Ok (v, r) → in_u m v.
Proof. intros H%cbor_dec_ok. by eapply get_uint_value. Qed.

Lemma get_bytes_ok (l r b : list Z) : cbor_dec get_bytes l = Ok (b, r) → wf_len b.
Proof. intros H%cbor_dec_ok. by eapply get_bytes_value. Qed.

Lemma get_str_ok (l r s : list Z) : cbor_dec get_str l = Ok (s, r) → wf_string s.
Proof. intros H%cbor_dec_ok. by eapply get_str_value. Qed.

Lemma decode_fixed_ok (n : nat) (l r b : list Z) :
  decode_fixed_bytes n l = Ok (b, r) → length b = n.
Proof.
  unfold decode_fixed_bytes. destruct (cbor_dec get_bytes l) as [[b' r']|]; [|done].
  destruct (Nat.eqb_spec (length b') n); naive_solver.
Qed.

(** Steps through a decoder that succeeded, keeping what each field is. *)
Ltac step_field H :=
  match type of H with
  | match ?e with Ok _ => _ | Err _ => _ end = Ok _ =>
      let E := fresh "E" in destruct e as [[? ?]|] eqn:E; [|discriminate H]
  end.
Ltac field_facts :=
  repeat match goal with
  | E : decode_fixed_bytes _ _ = Ok _ |- _ => apply decode_fixed_ok in E
  | E : cbor_dec (get_uint _) _ = Ok _ |- _ => apply get_u_ok in E
  | E : cbor_dec get_bytes _ = Ok _ |- _ => apply get_bytes_ok in E
  | E : cbor_dec get_str _ = Ok _ |- _ => apply get_str_ok in E
  end.

Lemma decode_cancellation_wf (l r : list Z) (m : Message) :
  decode_cancellation l = Ok (m, r) → wf_message m.
Proof.
  unfold decode_cancellation, get_u64. intros H. step_field H.
  destruct (get_type _) as [[]|]; simpl in H; [..|done|done]; step_field H; field_facts;
    naive_solver.
Qed.

Lemma decode_message_from_wf (l r : list Z) (m : Message) :
  decode_message_from l = Ok (m, r) → wf_message m.
Proof.
  unfold decode_message_from, get_u8. intros H. do 2 step_field H.
  repeat match type of H with
  | match ?z with _ => _ end = _ => is_var z; destruct z; try discriminate H
  end;
    (destruct (require_array_length _ _); [|discriminate H]);
    try (by eapply decode_cancellation_wf);
    unfold decode_hello, decode_negotiation, decode_readiness, get_u16, get_u32, get_u64 in H;
    repeat step_field H; injection H as <- <-; field_facts;
    unfold wf_message, wf_negotiation, wf_versions; simpl; tauto.
Qed.

Lemma decode_message_put (m : Message) :
  wf_message m → decode_message (encode_message m) = Ok m.
Proof.
  intros Hwf. pose proof (decode_message_from_put m [] Hwf) as H. rewrite app_nil_r in H.
  unfold decode_message. by rewrite H, !bool_decide_true.
Qed.

(** C30: A byte string is accepted as a message exactly when it is the encoding of a message the
    types can hold: the encoding is canonical and injective. *)
Theorem decode_message_exact (bytes : list Z) (m : Message) :
  decode_message bytes = Ok m ↔ wf_message m ∧ bytes = encode_message m.
Proof.
  split; [|intros [? ->]; by apply decode_message_put]. unfold decode_message.
  destruct (decode_message_from bytes) as [[m' rest]|] eqn:E; [|done].
  repeat case_bool_decide; simpl; [|done..]. intros [= ->].
  split; [by eapply decode_message_from_wf|done].
Qed.

Lemma encode_message_app_inj (m1 m2 : Message) (r1 r2 : list Z) :
  wf_message m1 → wf_message m2 → encode_message m1 ++ r1 = encode_message m2 ++ r2 →
  m1 = m2 ∧ r1 = r2.
Proof.
  intros H1 H2 E. pose proof (decode_message_from_put m1 r1 H1) as D1.
  pose proof (decode_message_from_put m2 r2 H2) as D2. rewrite E in D1. split; congruence.
Qed.

End Codec.

(** ** The CBOR of RFC 8949 *)

Module Rfc8949.

Definition head (major n : Z) : list Z :=
  if n <? 24 then [major * 32 + n]
  else if n <=? u8_max then (major * 32 + 24) :: be_bytes 1 n
  else if n <=? u16_max then (major * 32 + 25) :: be_bytes 2 n
  else if n <=? u32_max then (major * 32 + 26) :: be_bytes 4 n
  else (major * 32 + 27) :: be_bytes 8 n.

Definition take_be (n : nat) (l : list Z) : option (Z * list Z) :=
  if (n <=? length l)%nat then Some (be_value (take n l), drop n l) else None.

Definition get_head (major : Z) (l : list Z) : option (Z * list Z) :=
  match l with
  | [] => None
  | b :: r =>
      let info := b - major * 32 in
      if (info <? 0) || (27 <? info) then None
      else if info <? 24 then Some (info, r)
      else if info =? 24 then take_be 1 r
      else if info =? 25 then take_be 2 r
      else if info =? 26 then take_be 4 r
      else take_be 8 r
  end.

Definition get_chunk (major : Z) (l : list Z) : option (list Z * list Z) :=
  match get_head major l with
  | Some (n, r) =>
      if (0 <=? n) && (n <=? u64_max) && (n <=? Z.of_nat (length r))
      then Some (take (Z.to_nat n) r, drop (Z.to_nat n) r) else None
  | None => None
  end.

#[global] Instance api : CborApi := {
  cbor_array n := head 4 n;
  cbor_bytes b := head 2 (Z.of_nat (length b)) ++ b;
  cbor_str s := head 3 (Z.of_nat (length s)) ++ s;
  cbor_uint n := head 0 n;
  cbor_null := [246];
  get_array l :=
    match l with
    | 159 :: r => Some (None, r)
    | _ => match get_head 4 l with Some (n, r) => Some (Some n, r) | None => None end
    end;
  get_bytes l := get_chunk 2 l;
  get_str l :=
    match get_chunk 3 l with
    | Some (s, r) => match from_utf8 s with Some _ => Some (s, r) | None => None end
    | None => None
    end;
  get_uint m l :=
    match get_head 0 l with
    | Some (v, r) => if (0 <=? v) && (v <=? m) then Some (v, r) else None
    | None => None
    end;
  get_null l := match l with 246 :: r => Some (tt, r) | _ => None end;
  get_type l :=
    match l with
    | [] => None
    | b :: _ =>
        Some (if b =? 246 then TNull
              else if (96 <=? b) && (b <=? 123) then TString else TOther)
    end;
}.

Lemma take_be_put (n : nat) (v : Z) (r : list Z) :
  0 ≤ v < 2 ^ (8 * Z.of_nat n) → take_be n (be_bytes n v ++ r) = Some (v, r).
Proof.
  intros Hv. unfold take_be. rewrite length_app, length_be_bytes.
  rewrite (proj2 (Nat.leb_le _ _)) by lia.
  rewrite take_app_length' by (by rewrite length_be_bytes).
  rewrite drop_app_length' by (by rewrite length_be_bytes).
  by rewrite be_value_be_bytes, Z.mod_small.
Qed.

Lemma get_head_put (major n : Z) (r : list Z) :
  in_u u64_max n → get_head major (head major n ++ r) = Some (n, r).
Proof.
  unfold in_u, u64_max. intros Hn. unfold head, u8_max, u16_max, u32_max.
  repeat case_match; bool_to_prop; cbn [app get_head];
    rewrite ?Z.add_simpl_l.
  { rewrite (proj2 (Z.ltb_ge n 0)), (proj2 (Z.ltb_ge 27 n)), (proj2 (Z.ltb_lt n 24)) by lia.
    done. }
  all: cbn [Z.ltb Z.compare Pos.compare Pos.compare_cont orb Z.eqb Pos.eqb];
    apply take_be_put; lia.
Qed.

Lemma head_first (major n : Z) :
  0 ≤ n → ∃ b r, head major n = b :: r ∧ major * 32 ≤ b ≤ major * 32 + 27.
Proof.
  intros Hn. unfold head. repeat case_match; bool_to_prop; eexists _, _; split; try done; lia.
Qed.

Lemma get_chunk_put (major : Z) (b r : list Z) :
  Z.of_nat (length b) ≤ u64_max →
  get_chunk major ((head major (Z.of_nat (length b)) ++ b) ++ r) = Some (b, r).
Proof.
  intros Hb. unfold get_chunk. rewrite <-app_assoc, get_head_put by (unfold in_u; lia).
  rewrite (proj2 (Z.leb_le 0 _)), (proj2 (Z.leb_le _ u64_max)), (proj2 (Z.leb_le _ (Z.of_nat _)))
    by (rewrite ?length_app; lia). cbn [andb].
  by rewrite Nat2Z.id, take_app_length, drop_app_length.
Qed.

Lemma get_chunk_length (major : Z) (l b r : list Z) :
  get_chunk major l = Some (b, r) → Z.of_nat (length b) ≤ u64_max.
Proof.
  unfold get_chunk. destruct (get_head major l) as [[n r']|]; [|done].
  destruct (_ && _) eqn:E; [|done]. bool_to_prop. intros [= <- <-].
  rewrite length_take. lia.
Qed.

#[global] Instance laws : CborLaws api.
Proof.
  constructor; cbn [api cbor_array cbor_bytes cbor_str cbor_uint cbor_null get_array get_bytes
    get_str get_uint get_null get_type].
  - intros n r Hn. destruct (head_first 4 n) as (b & t & E & Hb); [apply Hn|].
    pose proof (get_head_put 4 n r Hn) as H. rewrite E in *. cbn [app] in *.
    destruct (decide (b = 159)) as [->|]; [lia|]. rewrite H.
    repeat (case_match; try done).
  - intros. by apply get_chunk_put.
  - intros s r Hs Hu. by rewrite get_chunk_put, Hu.
  - intros m v r [Hv Hm] Hu. rewrite get_head_put by (unfold in_u; lia).
    by rewrite (proj2 (Z.leb_le 0 v)), (proj2 (Z.leb_le v m)).
  - done.
  - done.
  - intros s r Hs. destruct (head_first 3 (Z.of_nat (length s))) as (b & t & -> & Hb); [lia|].
    cbn [app]. rewrite (proj2 (Z.eqb_neq b 246)) by lia.
    by rewrite (proj2 (Z.leb_le 96 b)), (proj2 (Z.leb_le b 123)) by lia.
  - intros. by eapply get_chunk_length.
  - intros l s r. destruct (get_chunk 3 l) as [[s' r']|] eqn:E; [|done].
    destruct (from_utf8 s') as [t|] eqn:Eu; [|done]. intros [= <- <-].
    split; [by eapply get_chunk_length|]. by rewrite <-(from_utf8_Some _ _ Eu) at 2.
  - intros m l v r. destruct (get_head 0 l) as [[v' r']|]; [|done].
    destruct (_ && _) eqn:E; [|done]. bool_to_prop. intros [= <- <-]. done.
Qed.

End Rfc8949.

Lemma decode_message_exact_witness :
  decode_message [132; 6; 1; 6; 66; 104; 105] = Ok (MEvent 1 StandardInput [104; 105]).
Proof.
  apply (decode_message_exact [132; 6; 1; 6; 66; 104; 105] (MEvent 1 StandardInput [104; 105])).
  split; [|reflexivity]. split; [split|]; vm_compute; discriminate.
Defined.
