(* ===== verification/ProtoFrame.v ===== *)
(** * The guest protocol: authenticated frames
      ([crates/sendbox-protocol/src/frame.rs], the MACs of [crypto.rs])

    A connection after the handshake: [send] writes length-prefixed, numbered and signed
    frames, [receive] reads them from a stream that delivers bytes in any pieces. The reader
    and the writer of a connection share the flag [terminal]. The HMAC is the interface
    [MacApi].

    The theorems show that whatever the stream holds, the messages received are a prefix of
    the messages sent ([authentic_channel]), that on an intact stream all of them are
    received, however it is cut ([channel_delivers]), and that the reader never holds more
    than one frame ([receive_bounded]). *)

From S2P Require Import Prelude RustStr ProtoTypes ProtoCodec.

(** ** The MAC *)

(** HMAC-SHA-256 accepts keys of any length. *)
Class MacApi : Type := { hmac_sha256 : list Z → list Z → list Z }.

Class MacLaws (mac : MacApi) : Prop := {
  hmac_length key data : length (hmac_sha256 key data) = MAC_BYTES;
}.

Section Mac.
Context {mac : MacApi}.

Definition mac_parts (key : list Z) (parts : list (list Z)) : list Z :=
  hmac_sha256 key (concat parts).

Definition verify_mac_parts (key : list Z) (parts : list (list Z)) (proof : list Z)
  : result ProtocolError () :=
  if bool_decide (hmac_sha256 key (concat parts) = proof) then Ok tt
  else Err AuthenticationFailed.

Definition FRAME_DOMAIN : list Z := str "sendbox protocol frame v2".

Definition frame_mac (key unsigned_frame : list Z) : list Z :=
  mac_parts key [FRAME_DOMAIN; unsigned_frame].

Definition verify_frame_mac (key unsigned_frame proof : list Z) : result ProtocolError () :=
  verify_mac_parts key [FRAME_DOMAIN; unsigned_frame] proof.

End Mac.

(** ** Frames *)

Record FrameMetadata : Type := {
  md_version : Z;
  md_session_id : list Z;
  md_direction : MessageDirection;
}.

Record WireFrame : Type := {
  wf_magic : list Z;
  wf_version : Z;
  wf_session_id : list Z;
  wf_direction : MessageDirection;
  wf_sequence : Z;
  wf_body : Message;
  wf_proof : list Z;
}.

Definition frame_metadata (f : WireFrame) : FrameMetadata :=
  {| md_version := wf_version f; md_session_id := wf_session_id f;
     md_direction := wf_direction f |}.

Definition direction_of (value : Z) : option MessageDirection :=
  match value with 1 => Some HostToGuest | 2 => Some GuestToHost | _ => None end.

Record NegotiatedSession : Type := {
  ng_version : Z;
  ng_session_id : list Z;
  ng_capabilities : CapabilitySet;
  ng_limits : FrameLimits;
}.

(** ** Readers, writers and connections *)

Record FramedWriter : Type := {
  w_metadata : FrameMetadata;
  w_limits : FrameLimits;
  w_key : list Z;
  w_next_sequence : Z;
  w_sending : bool;
}.

Record FramedReader : Type := {
  r_metadata : FrameMetadata;
  r_limits : FrameLimits;
  r_key : list Z;
  r_next_sequence : Z;
  r_buffer : list Z;
  r_declared_length : option Z;
}.

(** The two halves and the flag they share. *)
Record AuthenticatedConnection : Type := {
  c_negotiated : NegotiatedSession;
  c_reader : FramedReader;
  c_writer : FramedWriter;
  c_terminal : bool;
}.

Record ConnectionParameters : Type := {
  p_negotiated : NegotiatedSession;
  p_local_direction : MessageDirection;
  p_send_key : list Z;
  p_receive_key : list Z;
}.

Definition connection_new (p : ConnectionParameters) : AuthenticatedConnection :=
  let ng := p_negotiated p in
  {| c_negotiated := ng;
     c_reader :=
       {| r_metadata :=
            {| md_version := ng_version ng; md_session_id := ng_session_id ng;
               md_direction := match p_local_direction p with
                               | HostToGuest => GuestToHost
                               | GuestToHost => HostToGuest
                               end |};
          r_limits := ng_limits ng; r_key := p_receive_key p; r_next_sequence := 0;
          r_buffer := []; r_declared_length := None |};
     c_writer :=
       {| w_metadata :=
            {| md_version := ng_version ng; md_session_id := ng_session_id ng;
               md_direction := p_local_direction p |};
          w_limits := ng_limits ng; w_key := p_send_key p; w_next_sequence := 0;
          w_sending := false |};
     c_terminal := false |}.

Definition set_terminal (c : AuthenticatedConnection) : AuthenticatedConnection :=
  {| c_negotiated := c_negotiated c; c_reader := c_reader c; c_writer := c_writer c;
     c_terminal := true |}.

Definition set_reader (c : AuthenticatedConnection) (r : FramedReader)
  : AuthenticatedConnection :=
  {| c_negotiated := c_negotiated c; c_reader := r; c_writer := c_writer c;
     c_terminal := c_terminal c |}.

Definition set_writer (c : AuthenticatedConnection) (next : Z) (sending : bool)
  : AuthenticatedConnection :=
  let w := c_writer c in
  {| c_negotiated := c_negotiated c; c_reader := c_reader c;
     c_writer := {| w_metadata := w_metadata w; w_limits := w_limits w; w_key := w_key w;
                    w_next_sequence := next; w_sending := sending |};
     c_terminal := c_terminal c |}.

Definition set_input (r : FramedReader) (next : Z) (buffer : list Z) (declared : option Z)
  : FramedReader :=
  {| r_metadata := r_metadata r; r_limits := r_limits r; r_key := r_key r;
     r_next_sequence := next; r_buffer := buffer; r_declared_length := declared |}.

Section Frames.
Context {cbor : CborApi} {mac : MacApi}.

Definition frame_fields (magic : list Z) (md : FrameMetadata) (sequence : Z) (m : Message)
  : list Z :=
  cbor_bytes magic ++ cbor_uint (md_version md) ++ cbor_bytes (md_session_id md) ++
  cbor_uint (direction_u8 (md_direction md)) ++ cbor_uint sequence ++ encode_message m.

Definition encode_unsigned_frame (magic : list Z) (md : FrameMetadata) (sequence : Z)
    (m : Message) : list Z :=
  cbor_array 6 ++ frame_fields magic md sequence m.

Definition encode_signed_frame (md : FrameMetadata) (sequence : Z) (m : Message)
    (proof : list Z) : list Z :=
  cbor_array 7 ++ frame_fields PROTOCOL_MAGIC md sequence m ++ cbor_bytes proof.

Definition decode_signed_frame (bytes : list Z) : result ProtocolError WireFrame :=
  let? ' (length_, l) := cbor_dec get_array bytes in
  let? length_ := ok_or length_ (MalformedEncoding M_frame_indefinite) in
  if negb (length_ =? 7) then Err (MalformedEncoding (M_frame_array_length length_)) else
  let? ' (magic, l) := decode_fixed_bytes 8 l in
  let? ' (version, l) := get_u16 l in
  let? ' (session, l) := decode_fixed_bytes 16 l in
  let? ' (direction, l) := decode_enum u8_max direction_of M_direction l in
  let? ' (sequence, l) := get_u64 l in
  let? ' (message, l) := decode_message_from l in
  let? ' (proof, l) := decode_fixed_bytes MAC_BYTES l in
  let frame := {| wf_magic := magic; wf_version := version; wf_session_id := session;
                  wf_direction := direction; wf_sequence := sequence; wf_body := message;
                  wf_proof := proof |} in
  if negb (bool_decide (l = [])) then Err (MalformedEncoding M_frame_trailing)
  else
    if negb (bool_decide (encode_signed_frame (frame_metadata frame) sequence message proof
                          = bytes))
    then Err NonCanonicalEncoding
    else Ok frame.

(** *** Sending *)

(** How the transport serves a write: it is written and flushed; or the write fails, or the
    caller drops the future, after [n] bytes of the frame; or the flush fails. *)
Inductive write_io : Type :=
| Written
| WriteFailed (n : nat)
| FlushFailed
| SendDropped (n : nat).

Definition frame_bytes (payload : list Z) : list Z :=
  be_bytes 4 (Z.of_nat (length payload)) ++ payload.

(** The connection after, the bytes that left, and the result unless the future was dropped. *)
Definition send (c : AuthenticatedConnection) (m : Message) (io : write_io)
  : AuthenticatedConnection * list Z * option (result ProtocolError ()) :=
  let w := c_writer c in
  if w_sending w || c_terminal c then (c, [], Some (Err WriterPoisoned))
  else if is_handshake m then (c, [], Some (Err HandshakeMessageAfterReady))
  else if w_next_sequence w =? u64_max then (set_terminal c, [], Some (Err SequenceOverflow))
  else
    let unsigned := encode_unsigned_frame PROTOCOL_MAGIC (w_metadata w) (w_next_sequence w) m in
    let proof := frame_mac (w_key w) unsigned in
    let payload := encode_signed_frame (w_metadata w) (w_next_sequence w) m proof in
    let len := Z.of_nat (length payload) in
    let max := max_frame_bytes (w_limits w) in
    if max <? len then (c, [], Some (Err (FrameTooLarge len max)))
    else if u32_max <? len then (c, [], Some (Err (FrameTooLarge len max)))
    else
      let frame := frame_bytes payload in
      let next := w_next_sequence w in
      match io with
      | WriteFailed n => (set_terminal (set_writer c next false), take n frame, Some (Err Io))
      | FlushFailed => (set_terminal (set_writer c next false), frame, Some (Err Io))
      | SendDropped n => (set_terminal (set_writer c next true), take n frame, None)
      | Written => (set_writer c (next + 1) false, frame, Some (Ok tt))
      end.

(** *** Receiving *)

(** What reading from the transport gives, in order: some bytes, an error, or the future is
    dropped while it waits. Past the last event the stream has ended. *)
Inductive read_event : Type :=
| RData (bytes : list Z)
| RError
| RDropped.

Inductive read_result : Type :=
| Got (bytes : list Z)
| ReadFailed
| ReadDropped.

(** A read of at most [n] bytes. *)
Definition read_up_to (n : nat) (src : list read_event) : read_result * list read_event :=
  match src with
  | [] => (Got [], [])
  | RData b :: src =>
      if (length b <=? n)%nat then (Got b, src)
      else (Got (take n b), RData (drop n b) :: src)
  | RError :: src => (ReadFailed, src)
  | RDropped :: src => (ReadDropped, src)
  end.

(** The prefix, once four bytes are there. *)
Definition declare_length (r : FramedReader) : result ProtocolError FramedReader :=
  match r_declared_length r with
  | Some _ => Ok r
  | None =>
      if (4 <=? length (r_buffer r))%nat then
        let declared := be_value (take 4 (r_buffer r)) in
        if declared =? 0 then Err EmptyFrame
        else if max_frame_bytes (r_limits r) <? declared
        then Err (FrameTooLarge declared (max_frame_bytes (r_limits r)))
        else Ok (set_input r (r_next_sequence r) (r_buffer r) (Some declared))
      else Ok r
  end.

(** The checks of a complete payload. *)
Definition open_frame (r : FramedReader) (payload : list Z) : result ProtocolError Message :=
  let? frame := decode_signed_frame payload in
  let unsigned :=
    encode_unsigned_frame (wf_magic frame) (frame_metadata frame) (wf_sequence frame)
      (wf_body frame) in
  check? verify_frame_mac (r_key r) unsigned (wf_proof frame) in
  let md := r_metadata r in
  let next := r_next_sequence r in
  if negb (bool_decide (wf_magic frame = PROTOCOL_MAGIC)) then Err InvalidMagic
  else if negb (wf_version frame =? md_version md) then Err (VersionMismatch (wf_version frame))
  else if negb (bool_decide (wf_session_id frame = md_session_id md))
  then Err (SessionMismatch (md_session_id md) (wf_session_id frame))
  else if negb (bool_decide (wf_direction frame = md_direction md))
  then Err (DirectionMismatch (md_direction md) (wf_direction frame))
  else if wf_sequence frame <? next then Err (Replay next (wf_sequence frame))
  else if next <? wf_sequence frame then Err (OutOfOrder next (wf_sequence frame))
  else Ok (wf_body frame).

(** The buffered frame, if it is complete. *)
Definition take_frame (r : FramedReader)
  : option (result ProtocolError (Message * FramedReader)) :=
  match r_declared_length r with
  | None => None
  | Some declared =>
      let total := (4 + Z.to_nat declared)%nat in
      if (total <=? length (r_buffer r))%nat then
        Some (let? m := open_frame r (drop 4 (take total (r_buffer r))) in
              Ok (m, set_input r (r_next_sequence r + 1) (drop total (r_buffer r)) None))
      else None
  end.

Definition receive_target (r : FramedReader) : nat :=
  match r_declared_length r with None => 4 | Some declared => 4 + Z.to_nat declared end.

Inductive outcome : Type :=
| Delivered (m : Message)
| Failed (e : ProtocolError)
| Dropped.

(** One run of the loop, with the reader, whether it set [terminal], and what is left of the
    stream; [None] when the fuel is not enough. *)
Fixpoint receive_loop (fuel : nat) (r : FramedReader) (src : list read_event)
  : option (outcome * FramedReader * bool * list read_event) :=
  match fuel with
  | O => None
  | S fuel =>
      match declare_length r with
      | Err e => Some (Failed e, r, true, src)
      | Ok r =>
          match take_frame r with
          | Some (Err e) => Some (Failed e, r, true, src)
          | Some (Ok (m, r)) => Some (Delivered m, r, false, src)
          | None =>
              let target := receive_target r in
              let remaining := (target - length (r_buffer r))%nat in
              match read_up_to (Nat.min remaining (Z.to_nat 8192)) src with
              | (ReadFailed, src) => Some (Failed Io, r, true, src)
              | (ReadDropped, src) => Some (Dropped, r, false, src)
              | (Got [], src) =>
                  match r_buffer r with
                  | [] => Some (Failed EndOfStream, r, false, src)
                  | _ => Some (Failed (IncompleteFrame (Z.of_nat target)
                                         (Z.of_nat (length (r_buffer r)))), r, true, src)
                  end
              | (Got bytes, src) =>
                  receive_loop fuel
                    (set_input r (r_next_sequence r) (r_buffer r ++ bytes) (r_declared_length r))
                    src
              end
          end
      end
  end.

(** The reads a stream can serve. *)
Fixpoint stream_size (src : list read_event) : nat :=
  match src with
  | [] => 0
  | RData b :: src => S (length b + stream_size src)
  | _ :: src => S (stream_size src)
  end.

Definition receive (c : AuthenticatedConnection) (src : list read_event)
  : option (outcome * AuthenticatedConnection * list read_event) :=
  if c_terminal c then Some (Failed ReaderPoisoned, c, src)
  else if r_next_sequence (c_reader c) =? u64_max
  then Some (Failed SequenceOverflow, set_terminal c, src)
  else
    match receive_loop (S (stream_size src)) (c_reader c) src with
    | None => None
    | Some (o, r, poisoned, src) =>
        Some (o, (if poisoned then set_terminal (set_reader c r) else set_reader c r), src)
    end.

(** ** Sequences of calls *)

(** The messages whose frame went to the transport, at least in part. *)
Definition released (res : option (result ProtocolError ())) : bool :=
  match res with None | Some (Ok _) | Some (Err Io) => true | _ => false end.

(** The connection after the sends, the bytes that left and the messages released, with the
    sequence number each was signed with. *)
Fixpoint send_all (c : AuthenticatedConnection) (calls : list (Message * write_io))
  : AuthenticatedConnection * list Z * list (Z * Message) :=
  match calls with
  | [] => (c, [], [])
  | (m, io) :: calls =>
      let sequence := w_next_sequence (c_writer c) in
      let '(c, bytes, res) := send c m io in
      let '(c, more, log) := send_all c calls in
      (c, bytes ++ more, if released res then (sequence, m) :: log else log)
  end.

(** The messages [n] calls of [receive] deliver. *)
Fixpoint received (n : nat) (c : AuthenticatedConnection) (src : list read_event)
  : list Message :=
  match n with
  | O => []
  | S n =>
      match receive c src with
      | Some (Delivered m, c, src) => m :: received n c src
      | Some (_, c, src) => received n c src
      | None => []
      end
  end.

(** The bytes a stream delivers. *)
Fixpoint stream_bytes (src : list read_event) : list Z :=
  match src with
  | [] => []
  | RData b :: src => b ++ stream_bytes src
  | _ :: src => stream_bytes src
  end.

(** ** Frames are decoded exactly *)

Context {laws : CborLaws cbor} {mac_laws : MacLaws mac}.

Definition wf_metadata (md : FrameMetadata) : Prop :=
  in_u u16_max (md_version md) ∧ length (md_session_id md) = 16%nat.

Definition wf_frame (f : WireFrame) : Prop :=
  length (wf_magic f) = 8%nat ∧ wf_metadata (frame_metadata f) ∧
  in_u u64_max (wf_sequence f) ∧ wf_message (wf_body f) ∧ length (wf_proof f) = MAC_BYTES.

Lemma decode_direction_put (d : MessageDirection) (r : list Z) :
  decode_enum u8_max direction_of M_direction (cbor_uint (direction_u8 d) ++ r) = Ok (d, r).
Proof. by apply decode_enum_put; destruct d. Qed.

Lemma decode_signed_frame_put (md : FrameMetadata) (sequence : Z) (m : Message)
    (proof : list Z) :
  wf_metadata md → in_u u64_max sequence → wf_message m → length proof = MAC_BYTES →
  decode_signed_frame (encode_signed_frame md sequence m proof) =
  Ok {| wf_magic := PROTOCOL_MAGIC; wf_version := md_version md;
        wf_session_id := md_session_id md; wf_direction := md_direction md;
        wf_sequence := sequence; wf_body := m; wf_proof := proof |}.
Proof.
  intros [Hv Hs] Hq Hm Hp. unfold decode_signed_frame.
  set (bytes := encode_signed_frame md sequence m proof).
  assert (bytes = encode_signed_frame md sequence m proof) as Hb by done.
  unfold encode_signed_frame, frame_fields in Hb. rewrite <-!app_assoc in Hb.
  rewrite Hb at 1. unfold cbor_dec at 1, get_u16, get_u64. rewrite get_array_put by done.
  cbn [ok_or Z.eqb Pos.eqb negb].
  rewrite decode_fixed_put, get_u_put, decode_fixed_put, decode_direction_put, get_u_put by done.
  rewrite decode_message_from_put by done.
  rewrite <-(app_nil_r (cbor_bytes proof)), decode_fixed_put by done.
  rewrite bool_decide_true by done. cbn [negb frame_metadata wf_version wf_session_id wf_direction].
  rewrite bool_decide_true by (by destruct md). done.
Qed.

Lemma decode_signed_frame_exact (bytes : list Z) (f : WireFrame) :
  decode_signed_frame bytes = Ok f ↔
  wf_frame f ∧ wf_magic f = PROTOCOL_MAGIC ∧
  bytes = encode_signed_frame (frame_metadata f) (wf_sequence f) (wf_body f) (wf_proof f).
Proof.
  split.
  - intros H. pose proof H as H0. unfold decode_signed_frame, get_u16, get_u64 in H.
    destruct (cbor_dec get_array bytes) as [[[n|] l]|]; simpl in H; [|done..].
    destruct (n =? 7); [|done]. simpl in H.
    repeat match type of H with
    | match ?e with Ok _ => _ | Err _ => _ end = Ok _ =>
        let E := fresh "E" in destruct e as [[? ?]|] eqn:E; [|discriminate H]
    end.
    case_bool_decide; [|done]. case_bool_decide as Hc; [|done]. simpl in H.
    assert (wf_frame f) as Hwf.
    { injection H as <-.
      repeat match goal with
      | E : decode_fixed_bytes _ _ = Ok _ |- _ => apply decode_fixed_ok in E
      | E : cbor_dec (get_uint _) _ = Ok _ |- _ => apply get_u_ok in E
      | E : decode_message_from _ = Ok _ |- _ => apply decode_message_from_wf in E
      end. repeat split; simpl; try done; by apply E0 || by apply E3. }
    assert (bytes = encode_signed_frame (frame_metadata f) (wf_sequence f) (wf_body f)
                      (wf_proof f)) as Hb by (by injection H as <-).
    split; [done|]. split; [|done].
    destruct Hwf as (_ & ? & ? & ? & ?). rewrite Hb, decode_signed_frame_put in H0 by done.
    by injection H0 as <-.
  - intros ((_ & ? & ? & ? & ?) & Hm & ->). rewrite decode_signed_frame_put by done.
    destruct f; simpl in *. by subst.
Qed.

(** What the MAC covers determines the frame. *)
Lemma encode_unsigned_frame_inj (md1 md2 : FrameMetadata) (s1 s2 : Z) (m1 m2 : Message) :
  wf_metadata md1 → wf_metadata md2 → in_u u64_max s1 → in_u u64_max s2 →
  wf_message m1 → wf_message m2 →
  encode_unsigned_frame PROTOCOL_MAGIC md1 s1 m1 = encode_unsigned_frame PROTOCOL_MAGIC md2 s2 m2 →
  s1 = s2 ∧ m1 = m2.
Proof.
  intros H1 H2 Hs1 Hs2 Hm1 Hm2 E%app_inv_head.
  set (proof := replicate MAC_BYTES 0).
  pose proof (decode_signed_frame_put md1 s1 m1 proof H1 Hs1 Hm1 eq_refl) as D1.
  pose proof (decode_signed_frame_put md2 s2 m2 proof H2 Hs2 Hm2 eq_refl) as D2.
  unfold encode_signed_frame in D1, D2. rewrite E, D2 in D1. by injection D1.
Qed.

(** ** One call of [receive] *)

Lemma read_up_to_spec (n : nat) (src : list read_event) :
  match read_up_to n src with
  | (Got b, src') =>
      stream_bytes src = b ++ stream_bytes src' ∧ (length b ≤ n)%nat ∧
      (b ≠ [] → (stream_size src' < stream_size src)%nat)
  | (_, src') =>
      stream_bytes src' = stream_bytes src ∧ (stream_size src' < stream_size src)%nat
  end.
Proof.
  destruct src as [|[b| |] src]; simpl; [naive_solver lia| |split; [done|lia]..].
  destruct (Nat.leb_spec (length b) n) as [Hle|Hgt]; simpl.
  - split; [done|]. split; [done|]. lia.
  - rewrite app_assoc, take_drop, length_take, length_drop. split; [done|]. split; [lia|].
    intros Hb. destruct n; [done|]. lia.
Qed.

Lemma receive_loop_total (fuel : nat) (r : FramedReader) (src : list read_event) :
  (stream_size src < fuel)%nat → receive_loop fuel r src ≠ None.
Proof.
  revert r src. induction fuel as [|fuel IH]; intros r src Hf; [lia|]. cbn [receive_loop].
  destruct (declare_length r) as [r1|]; [|done].
  destruct (take_frame r1) as [[[]|]|]; [done..|].
  pose proof (read_up_to_spec (Nat.min (receive_target r1 - length (r_buffer r1)) (Z.to_nat 8192)) src)
    as Hs.
  destruct (read_up_to _ src) as [[[|b bs]| |] src']; [by destruct (r_buffer r1)| |done..].
  apply IH. destruct Hs as (_ & _ & Hs). specialize (Hs ltac:(done)). lia.
Qed.

(** What the reader holds is the start of one frame. *)
Definition reader_ok (r : FramedReader) : Prop :=
  match r_declared_length r with
  | None => (length (r_buffer r) ≤ 4)%nat
  | Some d =>
      d ≠ 0 ∧ d ≤ max_frame_bytes (r_limits r) ∧ (4 ≤ length (r_buffer r) ≤ 4 + Z.to_nat d)%nat ∧
      be_value (take 4 (r_buffer r)) = d
  end.

Definition same_session (r r' : FramedReader) : Prop :=
  r_metadata r' = r_metadata r ∧ r_limits r' = r_limits r ∧ r_key r' = r_key r.

Lemma declare_length_ok (r r' : FramedReader) :
  reader_ok r → declare_length r = Ok r' →
  reader_ok r' ∧ same_session r r' ∧ r_buffer r' = r_buffer r ∧
  r_next_sequence r' = r_next_sequence r ∧
  (r_declared_length r' = None → (length (r_buffer r) < 4)%nat).
Proof.
  unfold declare_length, reader_ok. intros Hr H.
  destruct (r_declared_length r) as [d|] eqn:Ed; [injection H as <-; rewrite Ed; done|].
  destruct (Nat.leb_spec 4 (length (r_buffer r))); [|injection H as <-; rewrite Ed; done].
  destruct (_ =? 0) eqn:E0; [done|]. destruct (_ <? _) eqn:E1; [done|]. bool_to_prop.
  injection H as <-. simpl. repeat split; try done; lia.
Qed.

(** What a call does to the stream of bytes still to be read, buffered or not. *)
Definition pending (r : FramedReader) (src : list read_event) : list Z :=
  r_buffer r ++ stream_bytes src.

Definition next_payload (l : list Z) : list Z :=
  take (Z.to_nat (be_value (take 4 l))) (drop 4 l).

Definition received_frame (r : FramedReader) (l : list Z) (m : Message) (rest : list Z) : Prop :=
  let d := be_value (take 4 l) in
  d ≠ 0 ∧ d ≤ max_frame_bytes (r_limits r) ∧ (4 + Z.to_nat d ≤ length l)%nat ∧
  open_frame r (next_payload l) = Ok m ∧ rest = drop (4 + Z.to_nat d) l.

Lemma take_frame_spec (r : FramedReader) (tail : list Z) :
  reader_ok r →
  match take_frame r with
  | Some (Ok (m, r')) =>
      reader_ok r' ∧ same_session r r' ∧ r_next_sequence r' = r_next_sequence r + 1 ∧
      received_frame r (r_buffer r ++ tail) m (r_buffer r' ++ tail)
  | Some (Err e) => True
  | None => (length (r_buffer r) < receive_target r)%nat ∨ r_declared_length r = None
  end.
Proof.
  unfold reader_ok, take_frame, receive_target. intros Hr.
  destruct (r_declared_length r) as [d|] eqn:Ed; [|by right].
  destruct Hr as (Hd0 & Hd & Hl & Hv).
  destruct (Nat.leb_spec (4 + Z.to_nat d) (length (r_buffer r))) as [Hle|]; [|by left].
  assert (length (r_buffer r) = (4 + Z.to_nat d)%nat) as Hlen by lia.
  rewrite <-Hlen, firstn_all.
  assert (take 4 (r_buffer r ++ tail) = take 4 (r_buffer r)) as Ht
    by (rewrite take_app_le by lia; done).
  destruct (open_frame r (drop 4 (r_buffer r))) as [m|e] eqn:Eo; [|done].
  rewrite drop_all. cbn [set_input r_buffer r_declared_length r_next_sequence].
  split; [simpl; lia|]. split; [done|]. split; [done|].
  unfold received_frame, next_payload. rewrite Ht, Hv. repeat split; try done.
  - rewrite length_app. lia.
  - rewrite drop_app_le by lia. rewrite take_app_le by (rewrite length_drop; lia).
    rewrite take_ge by (rewrite length_drop; lia). done.
  - by rewrite <-Hlen, drop_app_length.
Qed.

(** Whether a result leaves the connection usable. *)
Definition is_final (o : outcome) : bool :=
  match o with Delivered _ | Dropped | Failed EndOfStream => false | Failed _ => true end.

Definition loop_post (r : FramedReader) (src : list read_event) (o : outcome)
    (r' : FramedReader) (poisoned : bool) (src' : list read_event) : Prop :=
  reader_ok r' ∧ same_session r r' ∧ (is_final o = true → poisoned = true) ∧
  match o with
  | Delivered m =>
      poisoned = false ∧ r_next_sequence r' = r_next_sequence r + 1 ∧
      received_frame r (pending r src) m (pending r' src')
  | _ => r_next_sequence r' = r_next_sequence r ∧ pending r' src' = pending r src
  end.

(** The loop depends on the reader only through the session, the counter and the bytes. *)
Lemma loop_post_step (r1 r2 r' : FramedReader) (src1 src2 src' : list read_event)
    (o : outcome) (p : bool) :
  same_session r1 r2 → r_next_sequence r2 = r_next_sequence r1 →
  pending r2 src2 = pending r1 src1 →
  loop_post r2 src2 o r' p src' → loop_post r1 src1 o r' p src'.
Proof.
  intros (Hm & Hl & Hk) Hn Hp (Ho & (Hm' & Hl' & Hk') & Hf & H).
  split; [done|]. split; [repeat split; congruence|]. split; [done|].
  destruct o; [|naive_solver congruence..].
  destruct H as (? & ? & H). split; [done|]. split; [congruence|].
  unfold received_frame, open_frame in *. by rewrite Hm, Hk, Hl, Hn, Hp in H.
Qed.

Lemma reader_ok_target (r : FramedReader) :
  reader_ok r → (length (r_buffer r) ≤ receive_target r)%nat.
Proof. unfold reader_ok, receive_target. destruct (r_declared_length r); lia. Qed.

Lemma reader_ok_extend (r : FramedReader) (b : list Z) :
  reader_ok r → (length (r_buffer r) + length b ≤ receive_target r)%nat →
  reader_ok (set_input r (r_next_sequence r) (r_buffer r ++ b) (r_declared_length r)).
Proof.
  unfold reader_ok, receive_target. simpl. rewrite length_app.
  destruct (r_declared_length r) as [d|]; [|lia]. intros (? & ? & ? & <-) ?.
  rewrite take_app_le by lia. repeat split; try done; lia.
Qed.

Lemma receive_loop_spec (fuel : nat) (r r' : FramedReader) (src src' : list read_event)
    (o : outcome) (p : bool) :
  reader_ok r → receive_loop fuel r src = Some (o, r', p, src') →
  loop_post r src o r' p src'.
Proof.
  revert r src. induction fuel as [|fuel IH]; intros r src Hr H; [done|].
  cbn [receive_loop] in H.
  destruct (declare_length r) as [r1|e] eqn:Ed.
  2: { injection H as <- <- <- <-. by repeat split. }
  destruct (declare_length_ok r r1 Hr Ed) as (Hr1 & Hs & Hb & Hn & Hshort).
  apply (loop_post_step r r1 r' src src); [done..|unfold pending; by rewrite Hb|].
  pose proof (take_frame_spec r1 (stream_bytes src) Hr1) as Ht.
  destruct (take_frame r1) as [[[m r2]|e]|].
  { injection H as <- <- <- <-. destruct Ht as (? & ? & ? & ?). by split. }
  { injection H as <- <- <- <-. by repeat split. }
  pose proof (read_up_to_spec (Nat.min (receive_target r1 - length (r_buffer r1)) (Z.to_nat 8192)) src)
    as Hrd.
  destruct (read_up_to _ src) as [[[|b bs]| |] src2].
  - destruct Hrd as (Hrd & _ & _). simpl in Hrd.
    destruct (r_buffer r1) eqn:Eb; injection H as <- <- <- <-; repeat split; try done;
      unfold pending; by rewrite Hrd.
  - destruct Hrd as (Hrd & Hlen & _). eapply loop_post_step, IH, H; [done..| |].
    + unfold pending. simpl. by rewrite Hrd, <-app_assoc.
    + apply reader_ok_extend; [done|]. pose proof (reader_ok_target r1 Hr1). lia.
  - injection H as <- <- <- <-. repeat split; try done. unfold pending. by rewrite (proj1 Hrd).
  - injection H as <- <- <- <-. repeat split; try done. unfold pending. by rewrite (proj1 Hrd).
Qed.

Lemma receive_spec (c c' : AuthenticatedConnection) (src src' : list read_event) (o : outcome) :
  reader_ok (c_reader c) → receive c src = Some (o, c', src') →
  reader_ok (c_reader c') ∧ same_session (c_reader c) (c_reader c') ∧
  c_writer c' = c_writer c ∧ (is_final o = true → c_terminal c' = true) ∧
  match o with
  | Delivered m =>
      c_terminal c = false ∧ c_terminal c' = false ∧
      r_next_sequence (c_reader c) ≠ u64_max ∧
      r_next_sequence (c_reader c') = r_next_sequence (c_reader c) + 1 ∧
      received_frame (c_reader c) (pending (c_reader c) src) m (pending (c_reader c') src')
  | _ =>
      r_next_sequence (c_reader c') = r_next_sequence (c_reader c) ∧
      pending (c_reader c') src' = pending (c_reader c) src
  end.
Proof.
  unfold receive. intros Hr H. destruct (c_terminal c) eqn:Et.
  { injection H as <- <- <-. by repeat split. }
  destruct (_ =? u64_max) eqn:En.
  { injection H as <- <- <-. by repeat split. }
  destruct (receive_loop _ _ _) as [[[[o' r'] p] src2]|] eqn:El; [|done].
  apply receive_loop_spec in El as (? & ? & Hf & Hm); [|done]. bool_to_prop.
  injection H as <- <- <-.
  destruct p; simpl; rewrite ?Et; (split; [done|]); (split; [done|]); (split; [done|]);
    (split; [naive_solver|]); destruct o'; naive_solver.
Qed.

Lemma receive_total (c : AuthenticatedConnection) (src : list read_event) :
  is_Some (receive c src).
Proof.
  unfold receive. repeat case_match; try by eexists.
  exfalso. by eapply receive_loop_total; [|done]; lia.
Qed.

(** The reader of a connection holds at most one frame of the negotiated size, whatever the
    stream holds. *)
Lemma reader_bounded (r : FramedReader) :
  0 ≤ max_frame_bytes (r_limits r) → reader_ok r →
  Z.of_nat (length (r_buffer r)) ≤ 4 + max_frame_bytes (r_limits r).
Proof. unfold reader_ok. destruct (r_declared_length r); lia. Qed.

(** ** What is sent *)

Lemma send_spec (c c' : AuthenticatedConnection) (m : Message) (io : write_io)
    (bytes : list Z) (res : option (result ProtocolError ())) :
  send c m io = (c', bytes, res) →
  w_metadata (c_writer c') = w_metadata (c_writer c) ∧
  (if released res
   then c_terminal c = false ∧ w_next_sequence (c_writer c) ≠ u64_max ∧
        (c_terminal c' = true ∨ w_next_sequence (c_writer c') = w_next_sequence (c_writer c) + 1)
   else w_next_sequence (c_writer c') = w_next_sequence (c_writer c)).
Proof.
  unfold send. destruct (w_sending _ || _) eqn:E1; [intros [= <- <- <-]; done|].
  destruct (is_handshake m); [intros [= <- <- <-]; done|].
  destruct (_ =? u64_max) eqn:E2; [intros [= <- <- <-]; done|].
  destruct (_ <? _); [intros [= <- <- <-]; done|].
  destruct (_ <? _); [intros [= <- <- <-]; done|]. bool_to_prop.
  destruct io; intros [= <- <- <-]; simpl; auto.
Qed.

Lemma send_terminal (c : AuthenticatedConnection) (m : Message) (io : write_io) :
  c_terminal c = true → send c m io = (c, [], Some (Err WriterPoisoned)).
Proof. intros H. unfold send. by rewrite H, orb_true_r. Qed.

Lemma send_all_terminal (c : AuthenticatedConnection) (calls : list (Message * write_io)) :
  c_terminal c = true → send_all c calls = (c, [], []).
Proof.
  intros H. induction calls as [|[m io] calls IH]; [done|]. cbn [send_all].
  by rewrite send_terminal, IH.
Qed.

(** Every sequence number signs at most one message, in order, and none is the last. *)
Lemma send_all_sequence (calls : list (Message * write_io)) (c c' : AuthenticatedConnection)
    (bytes : list Z) (log : list (Z * Message)) :
  0 ≤ w_next_sequence (c_writer c) ≤ u64_max →
  send_all c calls = (c', bytes, log) →
  ∀ i s m, log !! i = Some (s, m) →
    s = w_next_sequence (c_writer c) + Z.of_nat i ∧ 0 ≤ s < u64_max ∧ ∃ io, (m, io) ∈ calls.
Proof.
  revert c c' bytes log. induction calls as [|[m io] calls IH]; intros c c' bytes log Hc H.
  { injection H as <- <- <-. done. }
  cbn [send_all] in H. destruct (send c m io) as [[c1 b1] res] eqn:Es.
  destruct (send_all c1 calls) as [[c2 b2] log2] eqn:Ea. injection H as <- <- <-.
  apply send_spec in Es as [_ Es].
  destruct (released res).
  - destruct Es as (_ & Hmax & [Ht|Hn]); intros [|i] s m' Hi; simpl in Hi.
    1,3: injection Hi as <- <-; split; [lia|]; split; [lia|set_solver].
    + rewrite send_all_terminal in Ea by done. injection Ea as <- <- <-. done.
    + destruct (IH c1 c2 b2 log2 ltac:(lia) Ea i s m' Hi) as (? & ? & ? & ?).
      split; [lia|]. split; [done|set_solver].
  - intros i s m' Hi. destruct (IH c1 c2 b2 log2 ltac:(lia) Ea i s m' Hi) as (? & ? & ? & ?).
    split; [lia|]. split; [done|set_solver].
Qed.

(** ** Authenticity *)

(** The bytes under the MAC of a frame. *)
Definition unsigned_of (f : WireFrame) : list Z :=
  encode_unsigned_frame (wf_magic f) (frame_metadata f) (wf_sequence f) (wf_body f).

(** Nothing in the stream that a reader could take for a frame carries the MAC of bytes that
    were not signed. *)
Definition unforged (key : list Z) (max : Z) (signed : list (list Z)) (l : list Z) : Prop :=
  ∀ (p : nat) (f : WireFrame),
    be_value (take 4 (drop p l)) ≤ max →
    decode_signed_frame (next_payload (drop p l)) = Ok f →
    frame_mac key (unsigned_of f) = wf_proof f → unsigned_of f ∈ signed.

Lemma open_frame_ok (r : FramedReader) (payload : list Z) (m : Message) :
  open_frame r payload = Ok m →
  ∃ f, decode_signed_frame payload = Ok f ∧ frame_mac (r_key r) (unsigned_of f) = wf_proof f ∧
    wf_magic f = PROTOCOL_MAGIC ∧ frame_metadata f = r_metadata r ∧
    wf_sequence f = r_next_sequence r ∧ wf_body f = m.
Proof.
  unfold open_frame. intros H. destruct (decode_signed_frame payload) as [f|] eqn:E; [|done].
  destruct (verify_frame_mac _ _ _) eqn:Ev; [|done].
  unfold verify_frame_mac, verify_mac_parts in Ev. case_bool_decide as Hmac; [|done].
  repeat (case_bool_decide; simpl in H; [|done]).
  destruct (_ =? _) eqn:Hver; simpl in H; [|done].
  repeat (case_bool_decide; simpl in H; [|done]).
  destruct (_ <? _) eqn:E1; [done|]. destruct (r_next_sequence r <? _) eqn:E2; [done|].
  bool_to_prop. injection H as <-. exists f. unfold unsigned_of. repeat split; try done; [|lia].
  unfold frame_metadata. destruct (r_metadata r). simpl in *. by subst.
Qed.

(** The two ends of a session. *)
Definition paired (ps pr : ConnectionParameters) : Prop :=
  p_negotiated ps = p_negotiated pr ∧ p_local_direction ps ≠ p_local_direction pr ∧
  p_send_key ps = p_receive_key pr.

Definition wf_session (ng : NegotiatedSession) : Prop :=
  in_u u16_max (ng_version ng) ∧ length (ng_session_id ng) = 16%nat ∧
  0 < max_frame_bytes (ng_limits ng) ≤ HARD_MAX_FRAME_BYTES.

Lemma paired_metadata (ps pr : ConnectionParameters) :
  paired ps pr →
  r_metadata (c_reader (connection_new pr)) = w_metadata (c_writer (connection_new ps)).
Proof.
  intros (Hn & Hd & _). simpl. rewrite Hn. f_equal.
  by destruct (p_local_direction ps), (p_local_direction pr).
Qed.

(** The unsigned frames of a log. *)
Definition signed_frames (md : FrameMetadata) (log : list (Z * Message)) : list (list Z) :=
  (λ e : Z * Message, encode_unsigned_frame PROTOCOL_MAGIC md e.1 e.2) <$> log.

(** The log of a sender: numbered from zero, of messages of the types. *)
Definition numbered (log : list (Z * Message)) : Prop :=
  ∀ i s m, log !! i = Some (s, m) → s = Z.of_nat i ∧ 0 ≤ s < u64_max ∧ wf_message m.

Lemma signed_frame_lookup (md : FrameMetadata) (log : list (Z * Message)) (f : WireFrame)
    (payload : list Z) (j : nat) :
  wf_metadata md → numbered log → decode_signed_frame payload = Ok f →
  wf_sequence f = Z.of_nat j →
  unsigned_of f ∈ signed_frames md log → log.*2 !! j = Some (wf_body f).
Proof.
  intros Hmd Hlog (Hwf & Hmagic & _)%decode_signed_frame_exact Hj.
  intros ([s m] & Heq & [i Hi]%list_elem_of_lookup)%list_elem_of_fmap. simpl in Heq.
  destruct (Hlog i s m Hi) as (-> & Hs & Hm). destruct Hwf as (_ & ? & ? & ? & _).
  unfold unsigned_of in Heq. rewrite Hmagic in Heq.
  apply encode_unsigned_frame_inj in Heq as [Hs' <-]; [|done..|unfold in_u; lia|done|done].
  rewrite list_lookup_fmap. replace j with i by lia. by rewrite Hi.
Qed.

Lemma received_prefix (md : FrameMetadata) (log : list (Z * Message)) (l : list Z)
    (n j k : nat) (c : AuthenticatedConnection) (src : list read_event) :
  wf_metadata md → numbered log → reader_ok (c_reader c) → r_metadata (c_reader c) = md →
  unforged (r_key (c_reader c)) (max_frame_bytes (r_limits (c_reader c)))
    (signed_frames md log) l →
  r_next_sequence (c_reader c) = Z.of_nat j → pending (c_reader c) src = drop k l →
  received n c src `prefix_of` drop j log.*2.
Proof.
  intros Hmd Hlog. revert j k c src. induction n as [|n IH]; intros j k c src Hr Em Hu Hj Hp.
  { apply prefix_nil. }
  cbn [received]. destruct (receive c src) as [[[o c'] src']|] eqn:Er; [|apply prefix_nil].
  apply receive_spec in Er as (Hr' & (Hm' & Hl' & Hk') & _ & _ & Ho); [|done].
  rewrite <-Hk', <-Hl' in Hu.
  destruct o as [m|e|]; [|destruct Ho as [Hn Hp']; apply (IH j k); [done|congruence|done|congruence..]..].
  destruct Ho as (_ & _ & _ & Hn & (Hd0 & Hd & Hlen & Ho & Hrest)).
  apply open_frame_ok in Ho as (f & Hf & Hmac & _ & _ & Hseq & Hbody).
  rewrite Hp in Hd, Hf. rewrite <-Hk' in Hmac. rewrite <-Hl' in Hd.
  assert (log.*2 !! j = Some m) as Hjm.
  { rewrite <-Hbody. eapply signed_frame_lookup; [done..| |by eapply Hu]. congruence. }
  rewrite (drop_S _ _ _ Hjm). apply prefix_cons.
  rewrite Hp, drop_drop in Hrest. eapply (IH (S j)); [done|congruence|done|lia|done].
Qed.

(** C7: Whatever bytes the stream delivers, in whatever pieces, with errors and dropped calls: as
    long as no MAC is forged, the messages [receive] delivers are a prefix of the messages the
    peer sent, in their order, each at most once. *)
Theorem authentic_channel (ps pr : ConnectionParameters) (calls : list (Message * write_io))
    (cs : AuthenticatedConnection) (out : list Z) (log : list (Z * Message))
    (src : list read_event) (n : nat) :
  paired ps pr → wf_session (p_negotiated ps) →
  (∀ m io, (m, io) ∈ calls → wf_message m) →
  send_all (connection_new ps) calls = (cs, out, log) →
  unforged (p_send_key ps) (max_frame_bytes (ng_limits (p_negotiated ps)))
    (signed_frames (w_metadata (c_writer (connection_new ps))) log) (stream_bytes src) →
  received n (connection_new pr) src `prefix_of` log.*2.
Proof.
  intros Hpair (Hv & Hs & _) Hcalls Hsend Hu. pose proof (paired_metadata ps pr Hpair) as Hmd.
  destruct Hpair as (Hng & _ & Hkey).
  assert (0 ≤ w_next_sequence (c_writer (connection_new ps)) ≤ u64_max) as H0 by done.
  apply (received_prefix (w_metadata (c_writer (connection_new ps))) log (stream_bytes src) n 0 0).
  - done.
  - intros i s m Hi. destruct (send_all_sequence _ _ _ _ _ H0 Hsend _ _ _ Hi)
      as (-> & ? & io & Hin). split; [done|]. split; [done|by eapply Hcalls].
  - unfold reader_ok. simpl. lia.
  - exact Hmd.
  - simpl. by rewrite <-Hng, <-Hkey.
  - done.
  - done.
Qed.

(** ** Delivery *)

(** A stream that does not fail: it delivers bytes, and calls may be dropped. *)
Definition no_errors (src : list read_event) : Prop :=
  Forall (λ e, match e with RData b => b ≠ [] | RError => False | RDropped => True end) src.

(** How many calls are dropped. *)
Fixpoint drops (src : list read_event) : nat :=
  match src with [] => 0 | RDropped :: src => S (drops src) | _ :: src => drops src end.

Lemma read_no_errors (n : nat) (src : list read_event) :
  no_errors src → (0 < n)%nat →
  match read_up_to n src with
  | (Got b, src') => no_errors src' ∧ drops src' = drops src ∧ (b = [] → src = [])
  | (ReadFailed, _) => False
  | (ReadDropped, src') => no_errors src' ∧ S (drops src') = drops src
  end.
Proof.
  destruct src as [|[b| |] src]; simpl; intros H Hn; [done| |by inversion H|].
  - apply Forall_cons in H as [Hb H]. destruct (Nat.leb_spec (length b) n); simpl.
    + by split.
    + split; [|split; [done|]].
      * constructor; [|done]. intros E%(f_equal length). rewrite length_drop in E. simpl in E. lia.
      * destruct n, b; simpl in *; try lia; done.
  - apply Forall_cons in H as [_ H]. by split.
Qed.

Lemma open_frame_ext (r r' : FramedReader) (payload : list Z) :
  same_session r r' → r_next_sequence r' = r_next_sequence r →
  open_frame r' payload = open_frame r payload.
Proof. unfold open_frame. by intros (-> & _ & ->) ->. Qed.

(** A stream that starts with a frame the reader accepts. *)
Definition stream_starts (r : FramedReader) (l payload : list Z) (m : Message) (rest : list Z)
  : Prop :=
  l = frame_bytes payload ++ rest ∧ payload ≠ [] ∧
  Z.of_nat (length payload) ≤ max_frame_bytes (r_limits r) ∧
  max_frame_bytes (r_limits r) ≤ HARD_MAX_FRAME_BYTES ∧ open_frame r payload = Ok m.

Lemma starts_prefix (r : FramedReader) (l payload rest : list Z) (m : Message) :
  stream_starts r l payload m rest →
  be_value (take 4 l) = Z.of_nat (length payload) ∧ next_payload l = payload ∧
  drop (4 + length payload) l = rest ∧ (4 + length payload ≤ length l)%nat.
Proof.
  intros (-> & Hne & Hl & Hm & _). unfold HARD_MAX_FRAME_BYTES in Hm.
  unfold next_payload, frame_bytes. rewrite <-app_assoc.
  rewrite take_app_length', drop_app_length' by (by rewrite length_be_bytes).
  rewrite be_value_be_bytes, Z.mod_small, Nat2Z.id by lia.
  rewrite take_app_length, app_assoc. split_and!; [done..| |].
  - by rewrite drop_app_length' by (by rewrite length_app, length_be_bytes).
  - rewrite !length_app, length_be_bytes. lia.
Qed.

Lemma pending_take (r : FramedReader) (src : list read_event) (k : nat) :
  (k ≤ length (r_buffer r))%nat → take k (pending r src) = take k (r_buffer r).
Proof. intros Hk. unfold pending. by rewrite take_app_le. Qed.

(** On such a stream the prefix is accepted, and what is declared is the payload. *)
Lemma declare_starts (r : FramedReader) (src : list read_event) (payload rest : list Z)
    (m : Message) :
  reader_ok r → stream_starts r (pending r src) payload m rest →
  ∃ r1, declare_length r = Ok r1 ∧ reader_ok r1 ∧ same_session r r1 ∧
    r_next_sequence r1 = r_next_sequence r ∧ r_buffer r1 = r_buffer r ∧
    (r_declared_length r1 = None ∧ (length (r_buffer r1) < 4)%nat ∨
     r_declared_length r1 = Some (Z.of_nat (length payload)) ∧
     (4 ≤ length (r_buffer r1) ≤ 4 + length payload)%nat).
Proof.
  intros Hr Hst. destruct (starts_prefix _ _ _ _ _ Hst) as (Hv & _ & _ & _).
  destruct Hst as (_ & Hne & Hmax & _).
  assert (0 < length payload)%nat by (destruct payload; [done|simpl; lia]).
  destruct (declare_length r) as [r1|e] eqn:Ed.
  - destruct (declare_length_ok r r1 Hr Ed) as (Hr1 & Hs & Hb & Hn & Hshort).
    exists r1. repeat (split; [done|]).
    pose proof Hr1 as Hr1'. unfold reader_ok in Hr1'. rewrite Hb in *.
    destruct (r_declared_length r1) as [d|]; [right|left; auto].
    destruct Hr1' as (_ & _ & Hl & Hd'). rewrite <-(pending_take r src), Hv in Hd' by lia.
    subst d. by rewrite Nat2Z.id in Hl.
  - exfalso. unfold declare_length in Ed. destruct (r_declared_length r); [done|].
    destruct (Nat.leb_spec 4 (length (r_buffer r))); [|done].
    rewrite <-(pending_take r src), Hv in Ed by done.
    rewrite (proj2 (Z.eqb_neq _ _)), (proj2 (Z.ltb_ge _ _)) in Ed by lia. done.
Qed.

(** A complete buffer is opened. *)
Lemma take_frame_starts (r : FramedReader) (src : list read_event) (payload rest : list Z)
    (m : Message) :
  stream_starts r (pending r src) payload m rest →
  r_declared_length r = Some (Z.of_nat (length payload)) →
  (4 + length payload ≤ length (r_buffer r))%nat →
  ∃ r', take_frame r = Some (Ok (m, r')).
Proof.
  intros Hst Hd Hl. destruct (starts_prefix _ _ _ _ _ Hst) as (Hv & Hpay & _ & _).
  destruct Hst as (_ & _ & _ & _ & Hopen). unfold take_frame. rewrite Hd, Nat2Z.id.
  rewrite (proj2 (Nat.leb_le _ _) Hl), <-(pending_take r src), skipn_firstn_comm by done.
  replace (4 + length payload - 4)%nat with (length payload) by lia.
  unfold next_payload in Hpay. rewrite Hv, Nat2Z.id in Hpay. rewrite Hpay, Hopen. by eexists.
Qed.

Lemma starts_with_ext (r r' : FramedReader) (l payload rest : list Z) (m : Message) :
  same_session r r' → r_next_sequence r' = r_next_sequence r →
  stream_starts r l payload m rest → stream_starts r' l payload m rest.
Proof.
  intros Hs Hn (? & ? & ? & ? & ?). unfold stream_starts.
  rewrite (open_frame_ext r r') by done. destruct Hs as (_ & -> & _). done.
Qed.

Lemma receive_loop_delivers (fuel : nat) (r r' : FramedReader) (src src' : list read_event)
    (o : outcome) (p : bool) (payload rest : list Z) (m : Message) :
  reader_ok r → no_errors src → stream_starts r (pending r src) payload m rest →
  receive_loop fuel r src = Some (o, r', p, src') →
  p = false ∧ no_errors src' ∧
  ((∃ m', o = Delivered m') ∧ drops src' = drops src ∨ o = Dropped ∧ S (drops src') = drops src).
Proof.
  revert r src. induction fuel as [|fuel IH]; intros r src Hr Hsrc Hst H; [done|].
  cbn [receive_loop] in H.
  destruct (declare_starts r src payload rest m Hr Hst) as (r1 & Ed & Hr1 & Hs & Hn & Hb & Hdecl).
  rewrite Ed in H. apply (starts_with_ext r r1) in Hst; [|done..].
  assert (pending r src = pending r1 src) as Hp by (unfold pending; by rewrite Hb).
  rewrite Hp in Hst. pose proof (starts_prefix _ _ _ _ _ Hst) as (_ & _ & _ & Hlen).
  pose proof (take_frame_starts r1 src payload rest m Hst) as Htk.
  destruct (take_frame r1) as [[[m1 r2]|e]|] eqn:Et.
  { injection H as <- <- <- <-. naive_solver. }
  { exfalso. unfold take_frame in Et. destruct Hdecl as [[E _]|[E Hb1]]; rewrite E in Et; [done|].
    rewrite Nat2Z.id in Et. destruct (Nat.leb_spec (4 + length payload) (length (r_buffer r1)));
      [|done]. by destruct Htk. }
  assert (length (r_buffer r1) < receive_target r1 ≤ 4 + length payload)%nat as Htarget.
  { unfold receive_target. destruct Hdecl as [[E ?]|[E ?]]; rewrite E; [lia|]. rewrite Nat2Z.id.
    destruct (decide (4 + length payload ≤ length (r_buffer r1))%nat); [|lia].
    by destruct Htk. }
  set (want := Nat.min (receive_target r1 - length (r_buffer r1)) (Z.to_nat 8192)) in *.
  pose proof (read_no_errors want src Hsrc ltac:(unfold want; lia)) as Hne'.
  pose proof (read_up_to_spec want src) as Hrd.
  destruct (read_up_to want src) as [[[|b bs]| |] src2]; [| |done|].
  - exfalso. destruct Hne' as (_ & _ & Hnil). unfold pending in Hlen.
    rewrite (Hnil eq_refl), app_nil_r in Hlen. lia.
  - destruct Hne' as (Hsrc2 & Hdr & _), Hrd as (Hrd & Hlb & _). rewrite <-Hdr.
    eapply IH; [..|exact H]; [|done|].
    + apply reader_ok_extend; [done|]. unfold want in Hlb. lia.
    + eapply starts_with_ext in Hst; [|done..]. unfold pending in Hst |- *. simpl.
      rewrite <-app_assoc, <-app_comm_cons. cbn [app] in Hrd. rewrite <-Hrd. exact Hst.
  - injection H as <- <- <- <-. split; [done|]. split; [apply Hne'|]. right. split; [done|].
    apply Hne'.
Qed.

(** One call on such a stream: the message, or the call was dropped. *)
Lemma receive_delivers (c : AuthenticatedConnection) (src : list read_event)
    (payload rest : list Z) (m : Message) :
  reader_ok (c_reader c) → no_errors src → c_terminal c = false →
  r_next_sequence (c_reader c) ≠ u64_max →
  stream_starts (c_reader c) (pending (c_reader c) src) payload m rest →
  ∃ o c' src', receive c src = Some (o, c', src') ∧ no_errors src' ∧ c_terminal c' = false ∧
    (o = Delivered m ∧ drops src' = drops src ∧ pending (c_reader c') src' = rest ∨
     o = Dropped ∧ S (drops src') = drops src).
Proof.
  intros Hr Hsrc Ht Hn Hst. pose proof (starts_prefix _ _ _ _ _ Hst) as (Hv & Hpay & Hrest & _).
  destruct (receive_total c src) as [[[o c'] src'] E]. exists o, c', src'. split; [done|].
  pose proof (receive_spec c c' src src' o Hr E) as (_ & _ & _ & _ & Ho).
  unfold receive in E. rewrite Ht, (proj2 (Z.eqb_neq _ _) Hn) in E.
  destruct (receive_loop _ _ _) as [[[[o1 r1] p1] src1]|] eqn:El; [|done].
  destruct (receive_loop_delivers _ _ _ _ _ _ _ _ _ _ Hr Hsrc Hst El) as (-> & ? & Hcase).
  injection E as <- <- <-. split; [done|]. split; [done|].
  destruct Hcase as [[[m' ->] ?]|[-> ?]]; [left|by right].
  destruct Ho as (_ & _ & _ & _ & (_ & _ & _ & Ho & Hp)).
  destruct Hst as (_ & _ & _ & _ & Hopen). rewrite Hpay, Hopen in Ho.
  rewrite Hv, Nat2Z.id, Hrest in Hp. naive_solver.
Qed.

Lemma cbor_bytes_not_nil (b : list Z) : wf_len b → cbor_bytes b ≠ [].
Proof.
  intros Hb E. set (b' := match b with [] => [0] | _ => [] end).
  pose proof (get_bytes_put b (cbor_bytes b' ++ []) Hb) as H. rewrite E in H. cbn [app] in H.
  rewrite get_bytes_put in H by (by destruct b). by destruct b.
Qed.

(** The frames of consecutive messages. *)
Definition signed_payload (md : FrameMetadata) (key : list Z) (k : Z) (m : Message) : list Z :=
  encode_signed_frame md k m (frame_mac key (encode_unsigned_frame PROTOCOL_MAGIC md k m)).

Fixpoint wire (md : FrameMetadata) (key : list Z) (k : Z) (ms : list Message) : list Z :=
  match ms with
  | [] => []
  | m :: ms => frame_bytes (signed_payload md key k m) ++ wire md key (k + 1) ms
  end.

Fixpoint sizes_ok (md : FrameMetadata) (key : list Z) (max k : Z) (ms : list Message) : Prop :=
  match ms with
  | [] => True
  | m :: ms =>
      Z.of_nat (length (signed_payload md key k m)) ≤ max ∧ k < u64_max ∧
      sizes_ok md key max (k + 1) ms
  end.

Lemma open_signed_payload (r : FramedReader) (m : Message) :
  wf_metadata (r_metadata r) → in_u u64_max (r_next_sequence r) → wf_message m →
  open_frame r (signed_payload (r_metadata r) (r_key r) (r_next_sequence r) m) = Ok m.
Proof.
  intros Hmd Hn Hm. unfold open_frame, signed_payload.
  rewrite decode_signed_frame_put by (done || apply hmac_length). simpl.
  unfold verify_frame_mac, verify_mac_parts, frame_mac, mac_parts, frame_metadata.
  cbn [wf_version wf_session_id wf_direction]. destruct (r_metadata r). simpl.
  rewrite bool_decide_true by done. simpl. rewrite !bool_decide_true by done. simpl.
  by rewrite Z.eqb_refl, !Z.ltb_irrefl.
Qed.

Lemma starts_wire (r : FramedReader) (m : Message) (ms : list Message) :
  wf_metadata (r_metadata r) → in_u u64_max (r_next_sequence r) → wf_message m →
  max_frame_bytes (r_limits r) ≤ HARD_MAX_FRAME_BYTES →
  sizes_ok (r_metadata r) (r_key r) (max_frame_bytes (r_limits r)) (r_next_sequence r) (m :: ms) →
  stream_starts r (wire (r_metadata r) (r_key r) (r_next_sequence r) (m :: ms))
    (signed_payload (r_metadata r) (r_key r) (r_next_sequence r) m) m
    (wire (r_metadata r) (r_key r) (r_next_sequence r + 1) ms).
Proof.
  intros Hmd Hn Hm Hhard (Hsize & _). pose proof (open_signed_payload r m Hmd Hn Hm) as Ho.
  repeat split; try done. intros E.
  assert (cbor_bytes (frame_mac (r_key r) (encode_unsigned_frame PROTOCOL_MAGIC (r_metadata r)
            (r_next_sequence r) m)) ≠ []) as Hne.
  { apply cbor_bytes_not_nil. unfold wf_len, frame_mac, mac_parts. by rewrite hmac_length. }
  apply Hne. unfold signed_payload, encode_signed_frame in E.
  apply app_nil in E as [_ E]. by apply app_nil in E as [_ E].
Qed.

Lemma received_empty (n : nat) (c : AuthenticatedConnection) (src : list read_event) :
  reader_ok (c_reader c) → pending (c_reader c) src = [] → received n c src = [].
Proof.
  revert c src. induction n as [|n IH]; intros c src Hr Hp; [done|]. cbn [received].
  destruct (receive c src) as [[[o c'] src']|] eqn:E; [|done].
  apply receive_spec in E as (? & _ & _ & _ & Ho); [|done].
  destruct o; [|apply IH; [done|]; destruct Ho; congruence..].
  destruct Ho as (_ & _ & _ & _ & (_ & _ & Hlen & _)). rewrite Hp in Hlen. simpl in Hlen. lia.
Qed.

Lemma received_wire (ms : list Message) (n : nat) (c : AuthenticatedConnection)
    (src : list read_event) :
  wf_metadata (r_metadata (c_reader c)) → 0 ≤ r_next_sequence (c_reader c) →
  max_frame_bytes (r_limits (c_reader c)) ≤ HARD_MAX_FRAME_BYTES →
  Forall wf_message ms →
  sizes_ok (r_metadata (c_reader c)) (r_key (c_reader c))
    (max_frame_bytes (r_limits (c_reader c))) (r_next_sequence (c_reader c)) ms →
  reader_ok (c_reader c) → c_terminal c = false → no_errors src →
  pending (c_reader c) src =
    wire (r_metadata (c_reader c)) (r_key (c_reader c)) (r_next_sequence (c_reader c)) ms →
  (length ms + drops src ≤ n)%nat → received n c src = ms.
Proof.
  revert ms c src. induction n as [|n IH]; intros ms c src Hmd H0 Hhard Hwf Hsz Hr Ht Hsrc Hp Hn.
  { by destruct ms; [|simpl in Hn; lia]. }
  destruct ms as [|m ms]; [by apply received_empty|].
  apply Forall_cons in Hwf as [Hm Hms]. pose proof (proj1 (proj2 Hsz)) as Hk.
  assert (stream_starts (c_reader c) (pending (c_reader c) src)
            (signed_payload (r_metadata (c_reader c)) (r_key (c_reader c))
               (r_next_sequence (c_reader c)) m) m
            (wire (r_metadata (c_reader c)) (r_key (c_reader c))
               (r_next_sequence (c_reader c) + 1) ms)) as Hst.
  { rewrite Hp. apply starts_wire; try done. unfold in_u. lia. }
  destruct (receive_delivers c src _ _ m Hr Hsrc Ht ltac:(lia) Hst)
    as (o & c' & src' & E & Hsrc' & Ht' & Hcase).
  cbn [received]. rewrite E. apply receive_spec in E as (Hr' & (Em & El & Ek) & _ & _ & Ho); [|done].
  destruct Hcase as [(-> & Hdr & Hp')|[-> Hdr]].
  - destruct Ho as (_ & _ & _ & Hnext & _). f_equal.
    apply IH; rewrite ?Em, ?El, ?Ek, ?Hnext; try done; [lia|apply Hsz|simpl in Hn; lia].
  - destruct Ho as [Hnext Hp']. apply IH; rewrite ?Em, ?El, ?Ek, ?Hnext; try done;
      [by constructor|congruence|lia].
Qed.

Lemma send_written (c c' : AuthenticatedConnection) (m : Message) (bytes : list Z)
    (res : option (result ProtocolError ())) :
  w_next_sequence (c_writer c) ≤ u64_max →
  send c m Written = (c', bytes, res) → released res = true →
  bytes = frame_bytes (signed_payload (w_metadata (c_writer c)) (w_key (c_writer c))
                         (w_next_sequence (c_writer c)) m) ∧
  Z.of_nat (length (signed_payload (w_metadata (c_writer c)) (w_key (c_writer c))
                      (w_next_sequence (c_writer c)) m)) ≤
    max_frame_bytes (w_limits (c_writer c)) ∧
  w_next_sequence (c_writer c) < u64_max ∧
  c' = set_writer c (w_next_sequence (c_writer c) + 1) false.
Proof.
  intros Hn. unfold send. destruct (w_sending _ || _); [intros [= <- <- <-]; done|].
  destruct (is_handshake m); [intros [= <- <- <-]; done|].
  destruct (_ =? u64_max) eqn:E; [intros [= <- <- <-]; done|].
  destruct (_ <? _) eqn:E1; [intros [= <- <- <-]; done|].
  destruct (u32_max <? _); [intros [= <- <- <-]; done|]. bool_to_prop.
  intros [= <- <- <-] _. split; [done|]. split; [done|]. split; [lia|done].
Qed.

Lemma send_all_length (calls : list (Message * write_io)) (c : AuthenticatedConnection) :
  (length (send_all c calls).2 ≤ length calls)%nat.
Proof.
  revert c. induction calls as [|[m io] calls IH]; intros c; [done|]. cbn [send_all].
  destruct (send c m io) as [[c1 b1] res]. specialize (IH c1).
  destruct (send_all c1 calls) as [[c2 b2] log]. simpl in *. destruct (released res); simpl; lia.
Qed.

Lemma send_all_written (ms : list Message) (c c' : AuthenticatedConnection) (out : list Z)
    (log : list (Z * Message)) :
  w_next_sequence (c_writer c) ≤ u64_max →
  send_all c ((λ m, (m, Written)) <$> ms) = (c', out, log) → log.*2 = ms →
  out = wire (w_metadata (c_writer c)) (w_key (c_writer c)) (w_next_sequence (c_writer c)) ms ∧
  sizes_ok (w_metadata (c_writer c)) (w_key (c_writer c))
    (max_frame_bytes (w_limits (c_writer c))) (w_next_sequence (c_writer c)) ms.
Proof.
  revert c out log. induction ms as [|m ms IH]; intros c out log Hn H Hlog.
  { injection H as <- <- <-. done. }
  rewrite fmap_cons in H. cbn [send_all] in H.
  destruct (send c m Written) as [[c1 b1] res] eqn:Es.
  pose proof (send_all_length ((λ m, (m, Written)) <$> ms) c1) as Hlen.
  destruct (send_all c1 _) as [[c2 b2] log2] eqn:Ea. injection H as <- <- <-.
  rewrite length_fmap in Hlen. simpl in Hlen. destruct (released res) eqn:Er.
  - destruct (send_written _ _ _ _ _ Hn Es Er) as (-> & Hsize & Hk & ->).
    simpl in Hlog. injection Hlog as Hlog.
    apply IH in Ea as [-> ?]; [by split|simpl; lia|done].
  - apply (f_equal length) in Hlog. rewrite length_fmap in Hlog. simpl in Hlog. lia.
Qed.

(** On a stream that carries the bytes sent, cut in any way, every message sent is delivered,
    once and in order; calls that are dropped while they wait lose nothing. *)
Theorem channel_delivers (ps pr : ConnectionParameters) (ms : list Message)
    (cs : AuthenticatedConnection) (out : list Z) (log : list (Z * Message))
    (src : list read_event) :
  paired ps pr → wf_session (p_negotiated ps) → Forall wf_message ms →
  send_all (connection_new ps) ((λ m, (m, Written)) <$> ms) = (cs, out, log) → log.*2 = ms →
  no_errors src → stream_bytes src = out →
  received (length ms + drops src) (connection_new pr) src = ms.
Proof.
  intros Hpair (Hv & Hs & Hlim) Hwf Hsend Hlog Hsrc Hout.
  pose proof (paired_metadata ps pr Hpair) as Hmd. destruct Hpair as (Hng & _ & Hkey).
  apply send_all_written in Hsend as [Hw Hsz]; [|done..].
  apply received_wire; rewrite ?Hmd; try done.
  - cbn. rewrite <-Hng. lia.
  - cbn in *. by rewrite <-Hng, <-Hkey.
  - unfold reader_ok. simpl. lia.
  - unfold pending. cbn in *. by rewrite Hout, <-Hkey.
Qed.

(** A frame that is refused ends the connection in both directions: nothing is delivered and
    nothing is written afterwards. *)
Theorem rejection_is_final (c c' : AuthenticatedConnection) (src src' : list read_event)
    (e : ProtocolError) :
  reader_ok (c_reader c) → receive c src = Some (Failed e, c', src') → e ≠ EndOfStream →
  (∀ n later, received n c' later = []) ∧
  (∀ m io, send c' m io = (c', [], Some (Err WriterPoisoned))).
Proof.
  intros Hr E He. apply receive_spec in E as (_ & _ & _ & Hf & _); [|done].
  assert (c_terminal c' = true) as Ht by (apply Hf; by destruct e).
  split; [|intros; by apply send_terminal].
  intros n. induction n as [|n IH]; intros later; [done|]. cbn [received].
  unfold receive. rewrite Ht. apply IH.
Qed.

(** Whatever the stream holds, a call returns, and the reader then holds at most a frame of the
    negotiated size. *)
Theorem receive_bounded (c : AuthenticatedConnection) (src : list read_event) :
  reader_ok (c_reader c) → 0 ≤ max_frame_bytes (r_limits (c_reader c)) →
  ∃ o c' src', receive c src = Some (o, c', src') ∧ reader_ok (c_reader c') ∧
    Z.of_nat (length (r_buffer (c_reader c'))) ≤ 4 + max_frame_bytes (r_limits (c_reader c)).
Proof.
  intros Hr Hmax. destruct (receive_total c src) as [[[o c'] src'] E]. exists o, c', src'.
  split; [done|]. apply receive_spec in E as (Hr' & (_ & El & _) & _); [|done].
  split; [done|]. rewrite <-El. apply reader_bounded; [by rewrite El|done].
Qed.

(** [unforged], computed for one stream. *)
Definition unforged_b (key : list Z) (max : Z) (signed : list (list Z)) (l : list Z) : bool :=
  forallb (λ p : nat,
    if be_value (take 4 (drop p l)) <=? max then
      match decode_signed_frame (next_payload (drop p l)) with
      | Ok f => implb (bool_decide (frame_mac key (unsigned_of f) = wf_proof f))
                      (bool_decide (unsigned_of f ∈ signed))
      | Err _ => true
      end
    else true) (seq 0 (S (length l))).

Lemma unforged_b_sound (key : list Z) (max : Z) (signed : list (list Z)) (l : list Z) :
  unforged_b key max signed l = true → unforged key max signed l.
Proof.
  unfold unforged_b. rewrite forallb_forall. intros H p f Hmax Hf Hmac.
  assert (drop p l = drop (Nat.min p (length l)) l) as E.
  { destruct (Nat.min_spec p (length l)) as [[_ ->]|[? ->]]; [done|].
    by rewrite !drop_ge. }
  rewrite E in Hmax, Hf. specialize (H (Nat.min p (length l))).
  rewrite (proj2 (Z.leb_le _ _) Hmax), Hf, bool_decide_true in H by done.
  cbn [implb] in H. rewrite bool_decide_eq_true in H. apply H, in_seq. lia.
Qed.

End Frames.

(** ** An instance *)

Module Sample.

(** A keyed checksum of 32 bytes. *)
#[global] Instance checksum : MacApi := {
  hmac_sha256 key data :=
    be_bytes 32 (foldl (λ h b, (h * 257 + b) mod 4294967291) 7 (key ++ data));
}.

#[global] Instance checksum_laws : MacLaws checksum.
Proof. constructor. intros. apply length_be_bytes. Qed.

Definition session : NegotiatedSession :=
  {| ng_version := 2; ng_session_id := replicate 16 5;
     ng_capabilities := caps_new [Lifecycle; Exec];
     ng_limits := {| max_frame_bytes := 256 |} |}.

Definition host : ConnectionParameters :=
  {| p_negotiated := session; p_local_direction := HostToGuest;
     p_send_key := replicate 32 1; p_receive_key := replicate 32 2 |}.
Definition guest : ConnectionParameters :=
  {| p_negotiated := session; p_local_direction := GuestToHost;
     p_send_key := replicate 32 2; p_receive_key := replicate 32 1 |}.

Definition first : Message := MEvent 1 StandardInput [104; 105].
Definition second : Message := MGracefulClose CloseNormal (str "bye").

Definition first_frame : list Z :=
  frame_bytes (signed_payload (w_metadata (c_writer (connection_new host))) (replicate 32 1) 0
                 first).
Definition both_frames : list Z :=
  wire (w_metadata (c_writer (connection_new host))) (replicate 32 1) 0 [first; second].
Definition pieces : list read_event :=
  [RData (take 20 both_frames); RDropped; RData (drop 20 both_frames)].

End Sample.

(** The peer sends two messages; the stream carries the first, and then a replay of it. *)
Lemma authentic_channel_witness :
  received 4 (connection_new Sample.guest)
    [RData (take 20 Sample.first_frame); RDropped; RData (drop 20 Sample.first_frame);
     RData Sample.first_frame]
  `prefix_of` [Sample.first; Sample.second].
Proof.
  refine (authentic_channel Sample.host Sample.guest
            [(Sample.first, Written); (Sample.second, WriteFailed 30)] _ _
            [(0, Sample.first); (1, Sample.second)] _ 4 _ _ _ _ _).
  - split; [reflexivity|]. split; [discriminate|reflexivity].
  - split; [|split]; vm_compute; intuition discriminate.
  - intros m io H. apply elem_of_cons in H as [[= -> ->]|H%list_elem_of_singleton].
    + split; [split|]; vm_compute; discriminate.
    + injection H as -> ->. split; [vm_compute; discriminate|reflexivity].
  - vm_compute. reflexivity.
  - apply unforged_b_sound. vm_compute. reflexivity.
Defined.

Lemma channel_delivers_witness :
  received (length [Sample.first; Sample.second] + drops Sample.pieces)
    (connection_new Sample.guest) Sample.pieces = [Sample.first; Sample.second].
Proof.
  refine (channel_delivers Sample.host Sample.guest [Sample.first; Sample.second] _ _
            [(0, Sample.first); (1, Sample.second)] Sample.pieces _ _ _ _ _ _ _).
  - split; [reflexivity|]. split; [discriminate|reflexivity].
  - split; [|split]; vm_compute; intuition discriminate.
  - repeat constructor; vm_compute; discriminate || reflexivity.
  - vm_compute. reflexivity.
  - reflexivity.
  - repeat constructor; vm_compute; discriminate.
  - vm_compute. reflexivity.
Defined.

(** A replayed frame. *)
Lemma rejection_is_final_witness :
  ∃ c src,
    receive (Build_AuthenticatedConnection Sample.session
               (set_input (c_reader (connection_new Sample.guest)) 1 [] None)
               (c_writer (connection_new Sample.guest)) false) [RData Sample.first_frame]
    = Some (Failed (Replay 1 0), c, src) ∧ received 7 c [RData Sample.both_frames] = [].
Proof.
  eexists _, _. split; [vm_compute; reflexivity|].
  refine (proj1 (rejection_is_final
    (Build_AuthenticatedConnection Sample.session
       (set_input (c_reader (connection_new Sample.guest)) 1 [] None)
       (c_writer (connection_new Sample.guest)) false) _ [RData Sample.first_frame] [] (Replay 1 0)
    _ _ _) 7%nat [RData Sample.both_frames]).
  - vm_compute. lia.
  - vm_compute. reflexivity.
  - discriminate.
Defined.

Lemma receive_bounded_witness :
  ∃ o c src,
    receive (connection_new Sample.guest) [RData (replicate 300 9)] = Some (o, c, src) ∧
    reader_ok (c_reader c) ∧ Z.of_nat (length (r_buffer (c_reader c))) ≤ 4 + 256.
Proof.
  apply (receive_bounded (connection_new Sample.guest)); [vm_compute; lia|vm_compute; discriminate].
Defined.
