(* ===== verification/ProtoHandshake.v ===== *)
(** * The guest protocol: the handshake
      ([crates/sendbox-protocol/src/handshake.rs], the key schedule of [crypto.rs])

    The host and the guest are programs over a stream ([hs]): they read, write, flush and draw
    random bytes. SHA-256 and HKDF are the interface [KdfApi]. [converse] runs the two programs
    against each other. *)

From S2P Require Import Prelude RustStr ProtoTypes ProtoCodec ProtoFrame.

(** ** Programs over a stream *)

(** A read of at most [n] bytes returns some of them, none at the end of the stream, or
    fails. *)
Inductive hs (A : Type) : Type :=
| HRet (a : A)
| HRandom (k : option (list Z) → hs A)
| HWrite (bytes : list Z) (k : bool → hs A)
| HFlush (k : bool → hs A)
| HRead (n : nat) (k : option (list Z) → hs A).

Arguments HRet {A} a.
Arguments HRandom {A} k.
Arguments HWrite {A} bytes k.
Arguments HFlush {A} k.
Arguments HRead {A} n k.

Fixpoint hs_bind {A B : Type} (p : hs A) (f : A → hs B) : hs B :=
  match p with
  | HRet a => f a
  | HRandom k => HRandom (λ r, hs_bind (k r) f)
  | HWrite b k => HWrite b (λ r, hs_bind (k r) f)
  | HFlush k => HFlush (λ r, hs_bind (k r) f)
  | HRead n k => HRead n (λ r, hs_bind (k r) f)
  end.

(** An async function that can fail, and [?]. *)
Definition hsr (A : Type) : Type := hs (result ProtocolError A).

Definition hs_try {A B : Type} (p : hsr A) (f : A → hsr B) : hsr B :=
  hs_bind p (λ r, match r with Ok a => f a | Err e => HRet (Err e) end).

Definition lift {A : Type} (r : result ProtocolError A) : hsr A := HRet r.

Notation "'let^' x ':=' e 'in' k" := (hs_try e (λ x, k))
  (at level 10, x name, k at level 200) : rust_scope.
Notation "'let^' ' p ':=' e 'in' k" := (hs_try e (λ x, match x with p => k end))
  (at level 10, p strict pattern, k at level 200) : rust_scope.
Notation "'do^' e 'in' k" := (hs_try e (λ _, k)) (at level 10, k at level 200) : rust_scope.

Definition write_all (bytes : list Z) : hsr () :=
  HWrite bytes (λ done, HRet (if done then Ok tt else Err Io)).
Definition flush : hsr () := HFlush (λ done, HRet (if done then Ok tt else Err Io)).

Definition random_nonce : hsr (list Z) :=
  HRandom (λ r, HRet (ok_or r Randomness)).

(** The bytes read; every read that is not the last returns one at least, so that [n] reads
    are enough. *)
Fixpoint read_counted (fuel n : nat) : hsr (list Z) :=
  match fuel, n with
  | O, _ | _, O => HRet (Ok [])
  | S fuel, _ =>
      HRead n (λ r,
        match r with
        | None => HRet (Err Io)
        | Some [] => HRet (Ok [])
        | Some bytes =>
            let^ more := read_counted fuel (n - length bytes) in HRet (Ok (bytes ++ more))
        end)
  end.

(** ** Keys *)

(** SHA-256, and HKDF-SHA-256 of a salt, a secret and an info string, expanded to 32 bytes. *)
Class KdfApi : Type := {
  sha256 : list Z → list Z;
  hkdf_sha256 : list Z → list Z → list Z → list Z;
}.

Definition TRANSCRIPT_DOMAIN : list Z := str "sendbox protocol transcript v2".
Definition NEGOTIATION_DOMAIN : list Z := str "sendbox protocol negotiation v2".
Definition READINESS_DOMAIN : list Z := str "sendbox protocol readiness v2".
Definition HKDF_SALT_DOMAIN : list Z := str "sendbox protocol hkdf salt v2".

Record SessionKeys : Type := {
  k_negotiation : list Z;
  k_host_to_guest : list Z;
  k_guest_to_host : list Z;
}.

Definition bootstrap_new (secret : list Z) : result ProtocolError (list Z) :=
  if (length secret <? 32)%nat then Err BootstrapSecretTooShort else Ok secret.

Record HandshakeConfig : Type := {
  g_session_id : list Z;
  g_versions : VersionRange;
  g_capabilities : CapabilitySet;
  g_required_capabilities : CapabilitySet;
  g_limits : FrameLimits;
  g_bootstrap_secret : list Z;
  g_boundary_plan_digest : list Z;
}.

(** [HandshakeConfig::new], on the fields. *)
Definition config_new (g : HandshakeConfig) : result ProtocolError HandshakeConfig :=
  let v := g_versions g in
  if negb (versions_valid v) || (v_minimum v <? PROTOCOL_VERSION)
  then Err (UnsupportedVersion (v_minimum v) (v_maximum v))
  else if negb (caps_is_subset (g_required_capabilities g) (g_capabilities g))
  then Err MissingRequiredCapabilities
  else Ok g.

Record Established : Type := {
  e_version : Z;
  e_session_id : list Z;
  e_capabilities : CapabilitySet;
  e_limits : FrameLimits;
  e_keys : SessionKeys;
}.

Inductive HandshakeState : Type := Initial | InProgress | HsEstablished | HsFailed.

#[global] Instance HandshakeState_eq_dec : EqDecision HandshakeState.
Proof. solve_decision. Defined.

Definition state_name (s : HandshakeState) : string :=
  match s with
  | Initial => "initial"
  | InProgress => "in_progress"
  | HsEstablished => "established"
  | HsFailed => "failed"
  end.

Record Handshake : Type := { hh_config : HandshakeConfig; hh_state : HandshakeState }.

Definition handshake_new (g : HandshakeConfig) : Handshake :=
  {| hh_config := g; hh_state := Initial |}.

(** A side that has finished, with the input it did not use, or one that waits for input. *)
Inductive status (A : Type) : Type :=
| Finished (a : A) (rest : list Z)
| Waiting (p : hs A).

Arguments Finished {A} a rest.
Arguments Waiting {A} p.

Section Handshake.
Context {cbor : CborApi} {mac : MacApi} {kdf : KdfApi}.

Definition transcript_hash (selected_version : Z) (digest hello_bytes core : list Z) : list Z :=
  sha256 (TRANSCRIPT_DOMAIN ++ be_bytes 2 selected_version ++ digest ++ hello_bytes ++ core).

Definition derive (secret : list Z) (selected_version : Z) (digest hello_bytes core : list Z)
  : result ProtocolError (SessionKeys * list Z) :=
  if selected_version <? PROTOCOL_VERSION then Err (VersionMismatch selected_version)
  else
    let hash := transcript_hash selected_version digest hello_bytes core in
    let salt := sha256 (HKDF_SALT_DOMAIN ++ hash) in
    Ok ({| k_negotiation := hkdf_sha256 salt secret (str "sendbox protocol negotiation key v2");
           k_host_to_guest :=
             hkdf_sha256 salt secret (str "sendbox protocol host-to-guest key v2");
           k_guest_to_host :=
             hkdf_sha256 salt secret (str "sendbox protocol guest-to-host key v2") |}, hash).

Definition negotiation_proof (keys : SessionKeys) (hello_bytes core : list Z) : list Z :=
  mac_parts (k_negotiation keys) [NEGOTIATION_DOMAIN; hello_bytes; core].

Definition verify_negotiation_proof (keys : SessionKeys) (hello_bytes core proof : list Z)
  : result ProtocolError () :=
  verify_mac_parts (k_negotiation keys) [NEGOTIATION_DOMAIN; hello_bytes; core] proof.

Definition directional_key (keys : SessionKeys) (host_to_guest : bool) : list Z :=
  if host_to_guest then k_host_to_guest keys else k_guest_to_host keys.

Definition readiness_proof (keys : SessionKeys) (host_to_guest : bool) (hash core : list Z)
  : list Z :=
  mac_parts (directional_key keys host_to_guest) [READINESS_DOMAIN; hash; core].

Definition verify_readiness_proof (keys : SessionKeys) (host_to_guest : bool)
    (hash core proof : list Z) : result ProtocolError () :=
  verify_mac_parts (directional_key keys host_to_guest) [READINESS_DOMAIN; hash; core] proof.

(** ** Bounded messages ([frame.rs]) *)

Definition write_bounded_message (m : Message) (limits : FrameLimits) : hsr () :=
  let payload := encode_message m in
  let len := Z.of_nat (length payload) in
  let max := max_frame_bytes limits in
  if max <? len then lift (Err (FrameTooLarge len max))
  else if u32_max <? len then lift (Err (FrameTooLarge len max))
  else
    do^ write_all (be_bytes 4 len) in
    do^ write_all payload in
    flush.

Definition read_bounded_message (limits : FrameLimits) : hsr (Message * list Z) :=
  let^ prefix := read_counted 4 4 in
  match prefix with
  | [] => lift (Err EndOfStream)
  | _ =>
      if negb (length prefix =? 4)%nat
      then lift (Err (IncompleteFrame 4 (Z.of_nat (length prefix))))
      else
        let declared := be_value prefix in
        if declared =? 0 then lift (Err EmptyFrame)
        else if max_frame_bytes limits <? declared
        then lift (Err (FrameTooLarge declared (max_frame_bytes limits)))
        else
          let^ payload := read_counted (Z.to_nat declared) (Z.to_nat declared) in
          if negb (length payload =? Z.to_nat declared)%nat
          then lift (Err (IncompleteFrame (declared + 4) (Z.of_nat (length payload) + 4)))
          else
            let^ message := lift (decode_message payload) in
            lift (Ok (message, payload))
  end.

(** ** Validation *)

Definition validate_capabilities (negotiated host_required guest_required : CapabilitySet)
  : result ProtocolError () :=
  if caps_is_empty negotiated then Err EmptyCapabilityIntersection
  else if negb (caps_is_subset host_required negotiated) ||
          negb (caps_is_subset guest_required negotiated)
  then Err MissingRequiredCapabilities
  else Ok tt.

Definition validate_hello (g : HandshakeConfig) (h : Hello) : result ProtocolError () :=
  if negb (bool_decide (h_magic h = PROTOCOL_MAGIC)) then Err InvalidMagic
  else if negb (bool_decide (h_role h = HostClient))
  then Err (RoleMismatch HostClient (h_role h))
  else if negb (bool_decide (h_session_id h = g_session_id g))
  then Err (SessionMismatch (g_session_id g) (h_session_id h))
  else if negb (versions_valid (h_versions h))
  then Err (UnsupportedVersion (v_minimum (h_versions h)) (v_maximum (h_versions h)))
  else
    check? limits_new (h_max_frame_bytes h) in
    if negb (caps_is_subset (h_required_capabilities h) (h_capabilities h))
    then Err MissingRequiredCapabilities
    else Ok tt.

(** [u32::try_from] of a limit *)
Definition limit_u32 (limits : FrameLimits) : result ProtocolError Z :=
  if max_frame_bytes limits <=? u32_max then Ok (max_frame_bytes limits)
  else Err InvalidNegotiatedFrameLimit.

Definition validate_negotiation (g : HandshakeConfig) (h : Hello) (n : Negotiation)
  : result ProtocolError () :=
  if negb (bool_decide (n_magic n = PROTOCOL_MAGIC)) then Err InvalidMagic
  else if negb (bool_decide (n_role n = GuestServer))
  then Err (RoleMismatch GuestServer (n_role n))
  else if negb (bool_decide (n_session_id n = g_session_id g))
  then Err (SessionMismatch (g_session_id g) (n_session_id n))
  else if negb (bool_decide (n_client_nonce n = h_nonce h)) then Err AuthenticationFailed
  else if negb (versions_valid (n_versions n))
  then Err (UnsupportedVersion (v_minimum (n_versions n)) (v_maximum (n_versions n)))
  else
    let? expected_version :=
      ok_or (versions_negotiate (h_versions h) (n_versions n))
        (UnsupportedVersion (v_minimum (h_versions h)) (v_maximum (h_versions h))) in
    if negb (n_selected_version n =? expected_version)
    then Err (VersionMismatch (n_selected_version n))
    else if negb (bool_decide (n_negotiated_capabilities n =
                               caps_intersection (h_capabilities h) (n_capabilities n)))
    then Err AuthenticationFailed
    else
      check? validate_capabilities (n_negotiated_capabilities n) (h_required_capabilities h)
               (n_required_capabilities n) in
      let? own := limit_u32 (g_limits g) in
      let expected_limit := Z.min (h_max_frame_bytes h) own in
      if negb (n_max_frame_bytes n =? expected_limit) then Err InvalidNegotiatedFrameLimit
      else
        check? limits_new (n_max_frame_bytes n) in
        Ok tt.

Definition readiness_unsigned (role : PeerRole) (n : Negotiation) (proof : list Z) : Readiness :=
  {| r_role := role; r_session_id := n_session_id n; r_selected_version := n_selected_version n;
     r_negotiated_capabilities := n_negotiated_capabilities n;
     r_max_frame_bytes := n_max_frame_bytes n; r_proof := proof |}.

Definition readiness (role : PeerRole) (n : Negotiation) (keys : SessionKeys) (hash : list Z)
  : Readiness :=
  let core := encode_readiness_core (readiness_unsigned role n (replicate MAC_BYTES 0)) in
  readiness_unsigned role n (readiness_proof keys (bool_decide (role = HostClient)) hash core).

Definition validate_readiness (expected_role : PeerRole) (n : Negotiation) (r : Readiness)
    (keys : SessionKeys) (hash : list Z) : result ProtocolError () :=
  if negb (bool_decide (r_role r = expected_role))
  then Err (RoleMismatch expected_role (r_role r))
  else if negb (bool_decide (r_session_id r = n_session_id n))
  then Err (SessionMismatch (n_session_id n) (r_session_id r))
  else if negb (r_selected_version r =? n_selected_version n)
  then Err (VersionMismatch (r_selected_version r))
  else if negb (bool_decide (r_negotiated_capabilities r = n_negotiated_capabilities n)) ||
          negb (r_max_frame_bytes r =? n_max_frame_bytes n)
  then Err AuthenticationFailed
  else
    verify_readiness_proof keys (bool_decide (expected_role = HostClient)) hash
      (encode_readiness_core r) (r_proof r).

(** ** The two sides *)

Definition unexpected (expected : string) (m : Message) : ProtocolError :=
  UnexpectedHandshakeMessage expected (kind_u8 (message_kind m)).

Definition established (n : Negotiation) (keys : SessionKeys)
  : result ProtocolError Established :=
  let? limits := limits_new (n_max_frame_bytes n) in
  Ok {| e_version := n_selected_version n; e_session_id := n_session_id n;
        e_capabilities := n_negotiated_capabilities n; e_limits := limits; e_keys := keys |}.

Definition host_hello (g : HandshakeConfig) (nonce : list Z) (max : Z) : Hello :=
  {| h_magic := PROTOCOL_MAGIC; h_versions := g_versions g; h_session_id := g_session_id g;
     h_role := HostClient; h_nonce := nonce; h_capabilities := g_capabilities g;
     h_required_capabilities := g_required_capabilities g; h_max_frame_bytes := max |}.

Definition host_establish_inner (g : HandshakeConfig) : hsr Established :=
  let^ client_nonce := random_nonce in
  let^ max := lift (limit_u32 (g_limits g)) in
  let hello := host_hello g client_nonce max in
  let hello_bytes := encode_message (MHello hello) in
  do^ write_bounded_message (MHello hello) (g_limits g) in
  let^ ' (message, _) := read_bounded_message (g_limits g) in
  let^ n := lift (match message with
                  | MNegotiation n => Ok n
                  | other => Err (unexpected "capability_negotiation" other)
                  end) in
  do^ lift (validate_negotiation g hello n) in
  let core := encode_negotiation_core n in
  let^ ' (keys, hash) :=
    lift (derive (g_bootstrap_secret g) (n_selected_version n) (g_boundary_plan_digest g)
            hello_bytes core) in
  do^ lift (verify_negotiation_proof keys hello_bytes core (n_proof n)) in
  do^ write_bounded_message (MReadiness (readiness HostClient n keys hash)) (g_limits g) in
  let^ ' (message, _) := read_bounded_message (g_limits g) in
  let^ r := lift (match message with
                  | MReadiness r => Ok r
                  | other => Err (unexpected "readiness" other)
                  end) in
  do^ lift (validate_readiness GuestServer n r keys hash) in
  lift (established n keys).

Definition guest_negotiation (g : HandshakeConfig) (h : Hello) (version : Z)
    (negotiated : CapabilitySet) (max : Z) (nonce proof : list Z) : Negotiation :=
  {| n_magic := PROTOCOL_MAGIC; n_versions := g_versions g; n_selected_version := version;
     n_session_id := g_session_id g; n_role := GuestServer; n_client_nonce := h_nonce h;
     n_server_nonce := nonce; n_capabilities := g_capabilities g;
     n_required_capabilities := g_required_capabilities g;
     n_negotiated_capabilities := negotiated; n_max_frame_bytes := max; n_proof := proof |}.

Definition guest_establish_inner (g : HandshakeConfig) : hsr Established :=
  let^ ' (message, hello_bytes) := read_bounded_message (g_limits g) in
  let^ h := lift (match message with
                  | MHello h => Ok h
                  | other => Err (unexpected "hello" other)
                  end) in
  do^ lift (validate_hello g h) in
  let^ version :=
    lift (ok_or (versions_negotiate (h_versions h) (g_versions g))
            (UnsupportedVersion (v_minimum (h_versions h)) (v_maximum (h_versions h)))) in
  let negotiated := caps_intersection (h_capabilities h) (g_capabilities g) in
  do^ lift (validate_capabilities negotiated (h_required_capabilities h)
              (g_required_capabilities g)) in
  let^ own := lift (limit_u32 (g_limits g)) in
  let max := Z.min (h_max_frame_bytes h) own in
  let^ nonce := random_nonce in
  let core := encode_negotiation_core
                (guest_negotiation g h version negotiated max nonce (replicate MAC_BYTES 0)) in
  let^ ' (keys, hash) :=
    lift (derive (g_bootstrap_secret g) version (g_boundary_plan_digest g) hello_bytes core) in
  let n := guest_negotiation g h version negotiated max nonce
             (negotiation_proof keys hello_bytes core) in
  do^ write_bounded_message (MNegotiation n) (g_limits g) in
  let^ ' (message, _) := read_bounded_message (g_limits g) in
  let^ r := lift (match message with
                  | MReadiness r => Ok r
                  | other => Err (unexpected "readiness" other)
                  end) in
  do^ lift (validate_readiness HostClient n r keys hash) in
  do^ write_bounded_message (MReadiness (readiness GuestServer n keys hash)) (g_limits g) in
  lift (established n keys).

Definition connection_from_established (role : PeerRole) (e : Established)
  : ConnectionParameters :=
  let keys := e_keys e in
  {| p_negotiated :=
       {| ng_version := e_version e; ng_session_id := e_session_id e;
          ng_capabilities := e_capabilities e; ng_limits := e_limits e |};
     p_local_direction := role_direction role;
     p_send_key := match role with
                   | HostClient => k_host_to_guest keys
                   | GuestServer => k_guest_to_host keys
                   end;
     p_receive_key := match role with
                      | HostClient => k_guest_to_host keys
                      | GuestServer => k_host_to_guest keys
                      end |}.

Definition establish_inner (role : PeerRole) (g : HandshakeConfig) : hsr Established :=
  match role with HostClient => host_establish_inner g | GuestServer => guest_establish_inner g end.

(** What [establish] makes of the result of [establish_inner]. *)
Definition close_handshake (role : PeerRole) (g : HandshakeConfig)
    (r : result ProtocolError Established)
  : Handshake * result ProtocolError AuthenticatedConnection :=
  match r with
  | Ok e => ({| hh_config := g; hh_state := HsEstablished |},
             Ok (connection_new (connection_from_established role e)))
  | Err e => ({| hh_config := g; hh_state := HsFailed |}, Err e)
  end.

Definition closing (role : PeerRole) (g : HandshakeConfig) (p : hsr Established)
  : hs (Handshake * result ProtocolError AuthenticatedConnection) :=
  hs_bind p (λ r, HRet (close_handshake role g r)).

(** [HostHandshake::establish] and [GuestHandshake::establish]; the first component is the
    state while the program runs, which is also the state a dropped call leaves. *)
Definition establish (role : PeerRole) (h : Handshake)
  : Handshake * hs (Handshake * result ProtocolError AuthenticatedConnection) :=
  let g := hh_config h in
  if negb (bool_decide (hh_state h = Initial))
  then (h, HRet (h, Err (RepeatedHandshake (state_name (hh_state h)))))
  else ({| hh_config := g; hh_state := InProgress |}, closing role g (establish_inner role g)).

(** ** Running a side *)

(** The output of a side, given the input so far and the random bytes it draws. *)
Fixpoint run {A : Type} (nonce : list Z) (p : hs A) (input : list Z) : list Z * status A :=
  match p with
  | HRet a => ([], Finished a input)
  | HRandom k => run nonce (k (Some nonce)) input
  | HWrite b k => let '(out, st) := run nonce (k true) input in (b ++ out, st)
  | HFlush k => run nonce (k true) input
  | HRead n k =>
      match input with
      | [] => ([], Waiting p)
      | _ => run nonce (k (Some (take n input))) (drop n input)
      end
  end.

Definition resume {A : Type} (nonce : list Z) (st : status A) (input : list Z)
  : list Z * status A :=
  match st with
  | Finished a rest => ([], Finished a (rest ++ input))
  | Waiting p => run nonce p input
  end.

(** The two sides in turn, each given what the other wrote. *)
Fixpoint converse {A B : Type} (rounds : nat) (host_nonce guest_nonce : list Z)
    (host : status A) (guest : status B) (to_host : list Z) : status A * status B :=
  match rounds with
  | O => (host, guest)
  | S rounds =>
      let '(to_guest, host) := resume host_nonce host to_host in
      let '(to_host, guest) := resume guest_nonce guest to_guest in
      converse rounds host_nonce guest_nonce host guest to_host
  end.

(** *** Steps of a run *)

Context {laws : CborLaws cbor} {mac_laws : MacLaws mac}.

Lemma run_bind {A B : Type} (nonce : list Z) (p : hs A) (f : A → hs B) (input : list Z) :
  run nonce (hs_bind p f) input =
  match run nonce p input with
  | (out, Finished a rest) => let '(more, st) := run nonce (f a) rest in (out ++ more, st)
  | (out, Waiting p') => (out, Waiting (hs_bind p' f))
  end.
Proof.
  revert input. induction p as [a|k IH|b k IH|k IH|n k IH]; intros input; cbn [hs_bind run].
  - by destruct (run nonce (f a) input).
  - apply IH.
  - rewrite IH. destruct (run nonce (k true) input) as [out [a rest|p']]; [|done].
    destruct (run nonce (f a) rest). by rewrite app_assoc.
  - apply IH.
  - destruct input; [done|apply IH].
Qed.

Lemma run_try_done {A B : Type} (nonce : list Z) (p : hsr A) (f : A → hsr B)
    (input out rest : list Z) (a : A) :
  run nonce p input = (out, Finished (Ok a) rest) →
  run nonce (hs_try p f) input =
  let '(more, st) := run nonce (f a) rest in (out ++ more, st).
Proof. intros H. unfold hs_try. by rewrite run_bind, H. Qed.

Lemma run_try_lift {A B : Type} (nonce : list Z) (a : A) (f : A → hsr B) (input : list Z) :
  run nonce (hs_try (lift (Ok a)) f) input = run nonce (f a) input.
Proof. done. Qed.

Lemma run_random {B : Type} (nonce : list Z) (f : list Z → hsr B) (input : list Z) :
  run nonce (hs_try random_nonce f) input = run nonce (f nonce) input.
Proof. done. Qed.

Lemma run_read_counted (nonce : list Z) (n : nat) (input : list Z) :
  (0 < n ≤ length input)%nat →
  run nonce (read_counted n n) input = ([], Finished (Ok (take n input)) (drop n input)).
Proof.
  intros Hn. destruct n as [|n], input as [|b input]; simpl in Hn; try lia.
  cbn [read_counted run]. rewrite firstn_cons, skipn_cons.
  rewrite length_cons, length_take_le by lia. rewrite Nat.sub_diag.
  destruct n; cbn; by rewrite ?app_nil_r.
Qed.

(** What is written and read of a message. *)
Definition message_frame (m : Message) : list Z := frame_bytes (encode_message m).

Definition fits (m : Message) (limits : FrameLimits) : Prop :=
  Z.of_nat (length (encode_message m)) ≤ max_frame_bytes limits ∧
  max_frame_bytes limits ≤ HARD_MAX_FRAME_BYTES.

Lemma run_write {B : Type} (nonce : list Z) (m : Message) (limits : FrameLimits)
    (f : () → hsr B) (input : list Z) :
  fits m limits →
  run nonce (hs_try (write_bounded_message m limits) f) input =
  let '(more, st) := run nonce (f tt) input in (message_frame m ++ more, st).
Proof.
  unfold fits, HARD_MAX_FRAME_BYTES. intros [Hfit Hmax]. apply run_try_done.
  unfold write_bounded_message.
  rewrite (proj2 (Z.ltb_ge _ _)), (proj2 (Z.ltb_ge u32_max _)) by (unfold u32_max; lia).
  unfold message_frame, frame_bytes. cbn. by rewrite app_nil_r.
Qed.

Lemma encode_message_not_nil (m : Message) : wf_message m → encode_message m ≠ [].
Proof.
  intros Hm E. set (c := match m with MGracefulClose CloseShutdown [] =>
    MGracefulClose CloseNormal [] | _ => MGracefulClose CloseShutdown [] end).
  pose proof (encode_message_app_inj m c (encode_message c) [] Hm) as H. rewrite E in H.
  assert (m = c ∧ encode_message c = []) as [Hmc _].
  { apply H; [|by rewrite app_nil_r]. destruct m as [| | | | | | |[] []|]; by repeat split. }
  unfold c in Hmc. destruct m as [| | | | | | |[] []|]; done.
Qed.

Lemma run_read {B : Type} (nonce : list Z) (m : Message) (limits : FrameLimits)
    (f : Message * list Z → hsr B) (rest : list Z) :
  wf_message m → fits m limits →
  run nonce (hs_try (read_bounded_message limits) f) (message_frame m ++ rest) =
  run nonce (f (m, encode_message m)) rest.
Proof.
  intros Hwf [Hfit Hmax]. unfold HARD_MAX_FRAME_BYTES in Hmax.
  pose proof (encode_message_not_nil m Hwf) as Hne.
  set (payload := encode_message m) in *.
  assert (0 < length payload)%nat as Hpos by (destruct payload; [done|simpl; lia]).
  assert (run nonce (read_bounded_message limits) (message_frame m ++ rest) =
          ([], Finished (Ok (m, payload)) rest)) as E.
  2: { rewrite (run_try_done _ _ _ _ _ _ _ E). by destruct (run nonce (f _) rest). }
  unfold read_bounded_message, message_frame, frame_bytes. fold payload. rewrite <-app_assoc.
  set (len := be_bytes 4 (Z.of_nat (length payload))).
  assert (length len = 4%nat) as Hlen by apply length_be_bytes.
  erewrite run_try_done.
  2: { apply run_read_counted. rewrite length_app. lia. }
  rewrite take_app_length', drop_app_length' by done.
  destruct len as [|b0 bs] eqn:Elen; [done|]. rewrite <-Elen in *. clear b0 bs Elen.
  rewrite Hlen. cbn [Nat.eqb negb].
  assert (be_value len = Z.of_nat (length payload)) as ->.
  { unfold len. rewrite be_value_be_bytes, Z.mod_small by lia. done. }
  rewrite (proj2 (Z.eqb_neq _ _)), (proj2 (Z.ltb_ge _ _)) by lia. rewrite Nat2Z.id.
  erewrite run_try_done by (apply run_read_counted; rewrite length_app; lia).
  rewrite take_app_length, drop_app_length, Nat.eqb_refl. cbn [negb].
  unfold payload at 1. by rewrite decode_message_put.
Qed.

Lemma run_wait {B : Type} (nonce : list Z) (limits : FrameLimits)
    (f : Message * list Z → hsr B) :
  run nonce (hs_try (read_bounded_message limits) f) [] =
  ([], Waiting (hs_try (read_bounded_message limits) f)).
Proof. done. Qed.

(** ** Two honest sides *)

(** Valid configurations of one session that can agree, the host's limit being the lower. *)
Record compatible (hg gg : HandshakeConfig) (version : Z) : Prop := {
  cp_host : config_new hg = Ok hg;
  cp_guest : config_new gg = Ok gg;
  cp_host_versions : wf_versions (g_versions hg);
  cp_guest_versions : wf_versions (g_versions gg);
  cp_session : g_session_id hg = g_session_id gg;
  cp_session_length : length (g_session_id gg) = 16%nat;
  cp_secret : g_bootstrap_secret hg = g_bootstrap_secret gg;
  cp_digest : g_boundary_plan_digest hg = g_boundary_plan_digest gg;
  cp_version : versions_negotiate (g_versions hg) (g_versions gg) = Some version;
  cp_capabilities :
    validate_capabilities (caps_intersection (g_capabilities hg) (g_capabilities gg))
      (g_required_capabilities hg) (g_required_capabilities gg) = Ok tt;
  cp_host_limit : 0 < max_frame_bytes (g_limits hg) ≤ HARD_MAX_FRAME_BYTES;
  cp_guest_limit : 0 < max_frame_bytes (g_limits gg) ≤ HARD_MAX_FRAME_BYTES;
}.

(** The messages of their handshake. *)
Section Messages.
Variables (hg gg : HandshakeConfig) (version : Z) (host_nonce guest_nonce : list Z).

Definition the_hello : Hello := host_hello hg host_nonce (max_frame_bytes (g_limits hg)).

Definition unsigned_negotiation (proof : list Z) : Negotiation :=
  guest_negotiation gg the_hello version
    (caps_intersection (g_capabilities hg) (g_capabilities gg))
    (Z.min (max_frame_bytes (g_limits hg)) (max_frame_bytes (g_limits gg))) guest_nonce proof.

Definition the_core : list Z :=
  encode_negotiation_core (unsigned_negotiation (replicate MAC_BYTES 0)).

Definition the_hash : list Z :=
  transcript_hash version (g_boundary_plan_digest gg) (encode_message (MHello the_hello)) the_core.

Definition the_keys : SessionKeys :=
  let salt := sha256 (HKDF_SALT_DOMAIN ++ the_hash) in
  let key info := hkdf_sha256 salt (g_bootstrap_secret gg) (str info) in
  {| k_negotiation := key "sendbox protocol negotiation key v2"%string;
     k_host_to_guest := key "sendbox protocol host-to-guest key v2"%string;
     k_guest_to_host := key "sendbox protocol guest-to-host key v2"%string |}.

Definition the_negotiation : Negotiation :=
  unsigned_negotiation
    (negotiation_proof the_keys (encode_message (MHello the_hello)) the_core).

Definition the_readiness (role : PeerRole) : Readiness :=
  readiness role the_negotiation the_keys the_hash.

(** All of them are within a limit. *)
Definition all_fit (limits : FrameLimits) : Prop :=
  Forall (λ m, Z.of_nat (length (encode_message m)) ≤ max_frame_bytes limits)
    [MHello the_hello; MNegotiation the_negotiation; MReadiness (the_readiness HostClient);
     MReadiness (the_readiness GuestServer)].

End Messages.

Lemma versions_negotiate_bounds (a b : VersionRange) (v : Z) :
  versions_negotiate a b = Some v →
  v_minimum a ≤ v ≤ v_maximum a ∧ v_minimum b ≤ v ≤ v_maximum b.
Proof. unfold versions_negotiate. destruct (_ <=? _) eqn:E; [|done]. bool_to_prop. intros [= <-]. lia. Qed.

Lemma config_new_ok (g : HandshakeConfig) :
  config_new g = Ok g →
  versions_valid (g_versions g) = true ∧ PROTOCOL_VERSION ≤ v_minimum (g_versions g) ∧
  caps_is_subset (g_required_capabilities g) (g_capabilities g) = true.
Proof.
  unfold config_new. destruct (negb _ || _) eqn:E1; [done|]. bool_to_prop.
  destruct (negb (caps_is_subset _ _)) eqn:E2; [done|]. bool_to_prop. done.
Qed.

Lemma limits_new_ok (z : Z) :
  0 < z ≤ HARD_MAX_FRAME_BYTES → limits_new z = Ok {| max_frame_bytes := z |}.
Proof.
  intros H. unfold limits_new.
  rewrite (proj2 (Z.eqb_neq _ _)), (proj2 (Z.ltb_ge _ _)) by lia. done.
Qed.

Lemma limit_u32_ok (l : FrameLimits) :
  max_frame_bytes l ≤ HARD_MAX_FRAME_BYTES → limit_u32 l = Ok (max_frame_bytes l).
Proof.
  unfold HARD_MAX_FRAME_BYTES, limit_u32, u32_max. intros H. by rewrite (proj2 (Z.leb_le _ _)) by lia.
Qed.

(** The fields of the messages the two sides build. *)
Ltac message_fields :=
  cbn [h_magic h_versions h_session_id h_role h_nonce h_capabilities h_required_capabilities
       h_max_frame_bytes n_magic n_versions n_selected_version n_session_id n_role n_client_nonce
       n_server_nonce n_capabilities n_required_capabilities n_negotiated_capabilities
       n_max_frame_bytes n_proof the_hello host_hello the_negotiation unsigned_negotiation
       guest_negotiation negb ok_or].

Section Honest.
Context (hg gg : HandshakeConfig) (version : Z) (host_nonce guest_nonce : list Z).
Hypothesis compat : compatible hg gg version.
Hypothesis host_nonce_length : length host_nonce = NONCE_BYTES.
Hypothesis guest_nonce_length : length guest_nonce = NONCE_BYTES.

Let hello := the_hello hg host_nonce.
Let negotiation := the_negotiation hg gg version host_nonce guest_nonce.
Let keys := the_keys hg gg version host_nonce guest_nonce.
Let hash := the_hash hg gg version host_nonce guest_nonce.

Lemma version_bound : in_u u16_max version ∧ PROTOCOL_VERSION ≤ version.
Proof using compat.
  clear host_nonce_length guest_nonce_length.
  pose proof (versions_negotiate_bounds _ _ _ (cp_version _ _ _ compat)) as Hv.
  destruct (config_new_ok _ (cp_guest _ _ _ compat)) as (_ & Hmin & _).
  destruct (cp_host_versions _ _ _ compat) as [_ [_ Hmax]].
  unfold in_u, u16_max, PROTOCOL_VERSION in *. lia.
Qed.

Lemma hello_wf : wf_message (MHello hello).
Proof.
  pose proof (cp_host_limit _ _ _ compat) as Hl. unfold HARD_MAX_FRAME_BYTES in Hl.
  split_and!; try done; simpl.
  - apply (cp_host_versions _ _ _ compat).
  - rewrite (cp_session _ _ _ compat). apply (cp_session_length _ _ _ compat).
  - unfold in_u, u32_max. lia.
Qed.

Lemma negotiation_wf : wf_message (MNegotiation negotiation).
Proof.
  pose proof (cp_host_limit _ _ _ compat) as Hh. pose proof (cp_guest_limit _ _ _ compat) as Hg.
  unfold HARD_MAX_FRAME_BYTES in *.
  split_and!; try done; simpl.
  - apply (cp_guest_versions _ _ _ compat).
  - apply version_bound.
  - apply (cp_session_length _ _ _ compat).
  - unfold in_u, u32_max. lia.
  - apply hmac_length.
Qed.

Lemma readiness_wf (role : PeerRole) :
  wf_message (MReadiness (readiness role negotiation keys hash)).
Proof.
  destruct negotiation_wf as (_ & _ & Hv & Hs & _ & _ & Hm & _).
  split_and!; try done. simpl. apply hmac_length.
Qed.

Lemma derive_keys :
  derive (g_bootstrap_secret gg) version (g_boundary_plan_digest gg)
    (encode_message (MHello hello)) (the_core hg gg version host_nonce guest_nonce)
  = Ok (keys, hash).
Proof.
  unfold derive. rewrite (proj2 (Z.ltb_ge _ _)) by apply version_bound. done.
Qed.

Lemma guest_accepts_hello : validate_hello gg hello = Ok tt.
Proof.
  destruct (config_new_ok _ (cp_host _ _ _ compat)) as (Hv & _ & Hc).
  unfold validate_hello, hello. message_fields.
  rewrite (cp_session _ _ _ compat), !bool_decide_true by done. message_fields. rewrite Hv.
  message_fields. rewrite limits_new_ok, Hc by apply (cp_host_limit _ _ _ compat). done.
Qed.

(** The host checks the limit against its own. *)
Lemma host_checks_negotiation :
  validate_negotiation hg hello negotiation =
  if max_frame_bytes (g_limits hg) <=? max_frame_bytes (g_limits gg) then Ok tt
  else Err InvalidNegotiatedFrameLimit.
Proof.
  destruct (config_new_ok _ (cp_guest _ _ _ compat)) as (Hv & _ & _).
  pose proof (cp_host_limit _ _ _ compat) as Hl.
  unfold validate_negotiation, hello, negotiation. message_fields.
  rewrite (cp_session _ _ _ compat), !bool_decide_true by done. message_fields.
  rewrite Hv, (cp_version _ _ _ compat). message_fields. rewrite Z.eqb_refl. message_fields.
  rewrite (cp_capabilities _ _ _ compat), limit_u32_ok by lia. rewrite Z.min_id. destruct (Z.leb_spec (max_frame_bytes (g_limits hg)) (max_frame_bytes (g_limits gg))).
  - rewrite Z.min_l, Z.eqb_refl, limits_new_ok by lia. done.
  - rewrite Z.min_r, (proj2 (Z.eqb_neq _ _)) by lia. done.
Qed.

Lemma readiness_accepted (role : PeerRole) :
  validate_readiness role negotiation (readiness role negotiation keys hash) keys hash = Ok tt.
Proof.
  unfold validate_readiness, verify_readiness_proof, verify_mac_parts, readiness. cbn [r_role
    r_session_id r_selected_version r_negotiated_capabilities r_max_frame_bytes r_proof
    readiness_unsigned].
  by rewrite !bool_decide_true, !Z.eqb_refl by done.
Qed.

Lemma negotiation_accepted :
  verify_negotiation_proof keys (encode_message (MHello hello))
    (the_core hg gg version host_nonce guest_nonce) (n_proof negotiation) = Ok tt.
Proof. unfold verify_negotiation_proof, verify_mac_parts. by rewrite bool_decide_true. Qed.

Lemma fits_limits (limits : FrameLimits) (m : Message) :
  all_fit hg gg version host_nonce guest_nonce limits →
  max_frame_bytes limits ≤ HARD_MAX_FRAME_BYTES →
  m ∈ [MHello hello; MNegotiation negotiation;
       MReadiness (readiness HostClient negotiation keys hash);
       MReadiness (readiness GuestServer negotiation keys hash)] → fits m limits.
Proof. intros Hfit Hmax Hm. split; [|done]. unfold all_fit in Hfit. rewrite Forall_forall in Hfit. by apply Hfit. Qed.

(** The next step of a run. *)
Ltac hs_step :=
  first
    [ rewrite run_random
    | rewrite run_try_lift
    | rewrite run_wait
    | rewrite run_write by (apply fits_limits; [done|lia|set_solver])
    | rewrite run_read by (done || (apply fits_limits; [done|lia|set_solver])) ].

Let ready (role : PeerRole) := MReadiness (readiness role negotiation keys hash).

Lemma host_turns :
  all_fit hg gg version host_nonce guest_nonce (g_limits hg) →
  ∃ h1, run host_nonce (host_establish_inner hg) [] = (message_frame (MHello hello), Waiting h1) ∧
    if max_frame_bytes (g_limits hg) <=? max_frame_bytes (g_limits gg)
    then ∃ h2,
      run host_nonce h1 (message_frame (MNegotiation negotiation)) =
        (message_frame (ready HostClient), Waiting h2) ∧
      run host_nonce h2 (message_frame (ready GuestServer)) =
        ([], Finished (established negotiation keys) [])
    else
      run host_nonce h1 (message_frame (MNegotiation negotiation)) =
        ([], Finished (Err InvalidNegotiatedFrameLimit) []).
Proof.
  intros Hfit. pose proof (cp_host_limit _ _ _ compat) as Hl.
  pose proof hello_wf as Hwf. pose proof negotiation_wf as Hn.
  pose proof (readiness_wf GuestServer) as Hr.
  unfold host_establish_inner. hs_step. rewrite limit_u32_ok by lia. hs_step.
  change (host_hello hg host_nonce (max_frame_bytes (g_limits hg))) with hello.
  do 2 hs_step. rewrite app_nil_r. eexists. split; [reflexivity|].
  rewrite <-(app_nil_r (message_frame (MNegotiation negotiation))). do 2 hs_step.
  rewrite host_checks_negotiation. destruct (_ <=? _); [|done]. hs_step.
  rewrite (cp_secret _ _ _ compat), (cp_digest _ _ _ compat).
  change (n_selected_version negotiation) with version.
  change (encode_negotiation_core negotiation)
    with (the_core hg gg version host_nonce guest_nonce).
  rewrite derive_keys. hs_step. rewrite negotiation_accepted. do 3 hs_step.
  rewrite app_nil_r. eexists. split; [reflexivity|].
  rewrite <-(app_nil_r (message_frame (ready GuestServer))). unfold ready. do 2 hs_step.
  by rewrite readiness_accepted.
Qed.

Lemma guest_turns :
  all_fit hg gg version host_nonce guest_nonce (g_limits gg) →
  ∃ g1, run guest_nonce (guest_establish_inner gg) (message_frame (MHello hello)) =
          (message_frame (MNegotiation negotiation), Waiting g1) ∧
    run guest_nonce g1 (message_frame (ready HostClient)) =
      (message_frame (ready GuestServer), Finished (established negotiation keys) []).
Proof.
  intros Hfit. pose proof (cp_guest_limit _ _ _ compat) as Hl.
  pose proof hello_wf as Hwf. pose proof (readiness_wf HostClient) as Hr.
  unfold guest_establish_inner. rewrite <-(app_nil_r (message_frame (MHello hello))).
  do 2 hs_step. rewrite guest_accepts_hello. hs_step.
  change (h_versions hello) with (g_versions hg). rewrite (cp_version _ _ _ compat). cbn [ok_or].
  hs_step.
  change (h_capabilities hello) with (g_capabilities hg).
  change (h_required_capabilities hello) with (g_required_capabilities hg).
  rewrite (cp_capabilities _ _ _ compat), limit_u32_ok by lia. do 3 hs_step.
  set (draft := guest_negotiation gg hello version _ _ guest_nonce).
  change draft with (unsigned_negotiation hg gg version host_nonce guest_nonce). clear draft.
  change (encode_negotiation_core (unsigned_negotiation hg gg version host_nonce guest_nonce _))
    with (the_core hg gg version host_nonce guest_nonce).
  rewrite derive_keys. hs_step.
  change (unsigned_negotiation hg gg version host_nonce guest_nonce _) with negotiation.
  do 2 hs_step. rewrite app_nil_r. eexists. split; [reflexivity|].
  rewrite <-(app_nil_r (message_frame (ready HostClient))). unfold ready. do 2 hs_step.
  rewrite readiness_accepted. do 2 hs_step. cbn. by rewrite app_nil_r.
Qed.

End Honest.

Lemma establish_new (role : PeerRole) (g : HandshakeConfig) :
  (establish role (handshake_new g)).2 = closing role g (establish_inner role g).
Proof. done. Qed.

Lemma run_closing (role : PeerRole) (g : HandshakeConfig) (nonce input out : list Z)
    (p : hsr Established) (st : status (result ProtocolError Established)) :
  run nonce p input = (out, st) →
  run nonce (closing role g p) input =
  (out, match st with
        | Finished r rest => Finished (close_handshake role g r) rest
        | Waiting p => Waiting (closing role g p)
        end).
Proof.
  intros H. unfold closing. rewrite run_bind, H. destruct st; [|done]. cbn. by rewrite app_nil_r.
Qed.

(** C29: Two sides whose configurations are compatible, the host's limit being at most the guest's,
    establish the same session: the highest common version, the common capabilities, the host's
    limit, and keys that match in both directions. *)
Theorem handshake_completes (hg gg : HandshakeConfig) (version : Z)
    (host_nonce guest_nonce : list Z) :
  compatible hg gg version →
  length host_nonce = NONCE_BYTES → length guest_nonce = NONCE_BYTES →
  all_fit hg gg version host_nonce guest_nonce (g_limits hg) →
  all_fit hg gg version host_nonce guest_nonce (g_limits gg) →
  max_frame_bytes (g_limits hg) ≤ max_frame_bytes (g_limits gg) →
  ∃ ph pg,
    converse 3 host_nonce guest_nonce
      (Waiting (establish HostClient (handshake_new hg)).2)
      (Waiting (establish GuestServer (handshake_new gg)).2) [] =
    (Finished ({| hh_config := hg; hh_state := HsEstablished |}, Ok (connection_new ph)) [],
     Finished ({| hh_config := gg; hh_state := HsEstablished |}, Ok (connection_new pg)) []) ∧
    paired ph pg ∧ paired pg ph ∧ wf_session (p_negotiated ph) ∧
    p_negotiated ph =
      {| ng_version := version; ng_session_id := g_session_id hg;
         ng_capabilities := caps_intersection (g_capabilities hg) (g_capabilities gg);
         ng_limits := g_limits hg |}.
Proof.
  intros Hc Hh Hg Hfh Hfg Hle. pose proof (cp_host_limit _ _ _ Hc) as Hl.
  destruct (host_turns hg gg version host_nonce guest_nonce Hc Hh Hg Hfh) as (h1 & E1 & E2).
  rewrite (proj2 (Z.leb_le _ _) Hle) in E2. destruct E2 as (h2 & E2 & E3).
  destruct (guest_turns hg gg version host_nonce guest_nonce Hc Hh Hg Hfg) as (g1 & F1 & F2).
  set (keys := the_keys hg gg version host_nonce guest_nonce) in *.
  set (n := the_negotiation hg gg version host_nonce guest_nonce) in *.
  set (e := {| e_version := version; e_session_id := g_session_id gg;
               e_capabilities := caps_intersection (g_capabilities hg) (g_capabilities gg);
               e_limits := g_limits hg; e_keys := keys |}).
  assert (established n keys = Ok e) as He.
  { unfold established. cbn. rewrite Z.min_l, limits_new_ok by lia. unfold e.
    by destruct (g_limits hg). }
  exists (connection_from_established HostClient e), (connection_from_established GuestServer e).
  split; [|split; [done|split; [done|]]].
  - rewrite !establish_new. cbn [converse resume establish_inner].
    rewrite (run_closing _ _ _ _ _ _ _ E1), (run_closing _ _ _ _ _ _ _ F1). cbn [resume].
    rewrite (run_closing _ _ _ _ _ _ _ E2), (run_closing _ _ _ _ _ _ _ F2). cbn [resume].
    by rewrite (run_closing _ _ _ _ _ _ _ E3), He.
  - destruct (version_bound hg gg version Hc) as [Hv _]. split.
    + split_and!; [apply Hv|apply (cp_session_length _ _ _ Hc)|apply Hl|apply Hl].
    + cbn. by rewrite (cp_session _ _ _ Hc).
Qed.

(** With the same configurations but a lower limit on the guest's side, the host refuses the
    guest's answer, although the guest selected the lower of the two limits. *)
Theorem lower_guest_limit_is_refused (hg gg : HandshakeConfig) (version : Z)
    (host_nonce guest_nonce : list Z) :
  compatible hg gg version →
  length host_nonce = NONCE_BYTES → length guest_nonce = NONCE_BYTES →
  all_fit hg gg version host_nonce guest_nonce (g_limits hg) →
  all_fit hg gg version host_nonce guest_nonce (g_limits gg) →
  max_frame_bytes (g_limits gg) < max_frame_bytes (g_limits hg) →
  (converse 2 host_nonce guest_nonce
     (Waiting (establish HostClient (handshake_new hg)).2)
     (Waiting (establish GuestServer (handshake_new gg)).2) []).1 =
  Finished ({| hh_config := hg; hh_state := HsFailed |}, Err InvalidNegotiatedFrameLimit) [].
Proof.
  intros Hc Hh Hg Hfh Hfg Hlt.
  destruct (host_turns hg gg version host_nonce guest_nonce Hc Hh Hg Hfh) as (h1 & E1 & E2).
  rewrite (proj2 (Z.leb_gt _ _) Hlt) in E2.
  destruct (guest_turns hg gg version host_nonce guest_nonce Hc Hh Hg Hfg) as (g1 & F1 & F2).
  rewrite !establish_new. cbn [converse resume establish_inner].
  rewrite (run_closing _ _ _ _ _ _ _ E1), (run_closing _ _ _ _ _ _ _ F1). cbn [resume].
  rewrite (run_closing _ _ _ _ _ _ _ E2). by destruct (run guest_nonce _ []).
Qed.

(** ** An arbitrary peer *)

(** [p] returns only values that satisfy [P], whatever the stream and the randomness give. *)
Fixpoint hs_post {A : Type} (P : A → Prop) (p : hs A) : Prop :=
  match p with
  | HRet a => P a
  | HRandom k => ∀ r, hs_post P (k r)
  | HWrite _ k => ∀ r, hs_post P (k r)
  | HFlush k => ∀ r, hs_post P (k r)
  | HRead _ k => ∀ r, hs_post P (k r)
  end.

Lemma hs_post_bind {A B : Type} (P : A → Prop) (Q : B → Prop) (p : hs A) (f : A → hs B) :
  hs_post P p → (∀ a, P a → hs_post Q (f a)) → hs_post Q (hs_bind p f).
Proof. intros Hp Hf. induction p; simpl in *; eauto. Qed.

Lemma hs_post_true {A : Type} (p : hs A) : hs_post (λ _, True) p.
Proof. by induction p; simpl. Qed.

(** Only successes matter. *)
Definition on_ok {A : Type} (P : A → Prop) (r : result ProtocolError A) : Prop :=
  match r with Ok a => P a | Err _ => True end.

Lemma hs_post_try {A B : Type} (P : A → Prop) (Q : B → Prop) (p : hsr A) (f : A → hsr B) :
  hs_post (on_ok P) p → (∀ a, P a → hs_post (on_ok Q) (f a)) →
  hs_post (on_ok Q) (hs_try p f).
Proof. intros Hp Hf. eapply hs_post_bind; [exact Hp|]. intros [a|e] Ha; [by apply Hf|done]. Qed.

Lemma hs_post_any {A B : Type} (Q : B → Prop) (p : hsr A) (f : A → hsr B) :
  (∀ a, hs_post (on_ok Q) (f a)) → hs_post (on_ok Q) (hs_try p f).
Proof.
  intros Hf. eapply hs_post_bind; [apply hs_post_true|]. intros [a|e] _; [apply Hf|done].
Qed.

Lemma hs_post_lift {A B : Type} (Q : B → Prop) (r : result ProtocolError A) (f : A → hsr B) :
  (∀ a, r = Ok a → hs_post (on_ok Q) (f a)) → hs_post (on_ok Q) (hs_try (lift r) f).
Proof. intros Hf. destruct r as [a|e]; [by apply Hf|done]. Qed.

(** What a side may rely on once it is established, whoever the peer is; [peer_host] says
    whether the peer is the host. *)
Definition within (g : HandshakeConfig) (peer_host : bool) (e : Established) : Prop :=
  e_session_id e = g_session_id g ∧ PROTOCOL_VERSION ≤ e_version e ∧
  v_minimum (g_versions g) ≤ e_version e ≤ v_maximum (g_versions g) ∧
  caps_is_empty (e_capabilities e) = false ∧
  caps_is_subset (g_required_capabilities g) (e_capabilities e) = true ∧
  caps_is_subset (e_capabilities e) (g_capabilities g) = true ∧
  0 < max_frame_bytes (e_limits e) ≤ max_frame_bytes (g_limits g) ∧
  ∃ hello core ready proof hash,
    derive (g_bootstrap_secret g) (e_version e) (g_boundary_plan_digest g) hello core
      = Ok (e_keys e, hash) ∧
    verify_readiness_proof (e_keys e) peer_host hash ready proof = Ok tt.

Lemma validate_capabilities_ok (negotiated host guest : CapabilitySet) (u : ()) :
  validate_capabilities negotiated host guest = Ok u →
  caps_is_empty negotiated = false ∧ caps_is_subset host negotiated = true ∧
  caps_is_subset guest negotiated = true.
Proof.
  unfold validate_capabilities. destruct (caps_is_empty negotiated); [done|].
  destruct (negb _ || _) eqn:E; [done|]. bool_to_prop. done.
Qed.

Lemma intersection_subset (s t : CapabilitySet) :
  caps_is_subset (caps_intersection s t) s = true ∧ caps_is_subset (caps_intersection s t) t = true.
Proof.
  split; apply caps_subset_spec; intros c; unfold caps_intersection;
    rewrite caps_contains_where; intros H; bool_to_prop; done.
Qed.

Lemma established_ok (n : Negotiation) (keys : SessionKeys) (e : Established) :
  established n keys = Ok e →
  e_version e = n_selected_version n ∧ e_session_id e = n_session_id n ∧
  e_capabilities e = n_negotiated_capabilities n ∧
  max_frame_bytes (e_limits e) = n_max_frame_bytes n ∧ n_max_frame_bytes n ≠ 0 ∧ e_keys e = keys.
Proof.
  unfold established, limits_new. destruct (_ || _) eqn:E; [done|]. bool_to_prop.
  intros [= <-]. done.
Qed.

Lemma validate_readiness_ok (role : PeerRole) (n : Negotiation) (r : Readiness)
    (keys : SessionKeys) (hash : list Z) (u : ()) :
  validate_readiness role n r keys hash = Ok u →
  verify_readiness_proof keys (bool_decide (role = HostClient)) hash
    (encode_readiness_core r) (r_proof r) = Ok tt.
Proof. unfold validate_readiness. destruct u. repeat case_match; try done. Qed.

Lemma validate_negotiation_ok (g : HandshakeConfig) (h : Hello) (n : Negotiation) (u : ()) :
  validate_negotiation g h n = Ok u →
  n_session_id n = g_session_id g ∧ n_client_nonce n = h_nonce h ∧
  versions_negotiate (h_versions h) (n_versions n) = Some (n_selected_version n) ∧
  n_negotiated_capabilities n = caps_intersection (h_capabilities h) (n_capabilities n) ∧
  validate_capabilities (n_negotiated_capabilities n) (h_required_capabilities h)
    (n_required_capabilities n) = Ok tt ∧
  n_max_frame_bytes n = Z.min (h_max_frame_bytes h) (max_frame_bytes (g_limits g)).
Proof.
  unfold validate_negotiation. intros H.
  do 4 (case_bool_decide; cbn [negb] in H; [|done]).
  destruct (versions_valid (n_versions n)); [|done]. cbn [negb] in H.
  destruct (versions_negotiate _ _) as [v|]; [|done]. cbn [ok_or] in H.
  destruct (_ =? v) eqn:Ev; [|done]. cbn [negb] in H. bool_to_prop. subst v.
  case_bool_decide; cbn [negb] in H; [|done].
  destruct (validate_capabilities _ _ _) as [[]|]; [|done].
  unfold limit_u32 in H. destruct (_ <=? _); [|done].
  destruct (_ =? Z.min _ _) eqn:El; [|done]. bool_to_prop. done.
Qed.

Lemma hs_post_read {B : Type} (Q : B → Prop) (limits : FrameLimits)
    (f : Message * list Z → hsr B) :
  (∀ m bytes, wf_message m → hs_post (on_ok Q) (f (m, bytes))) →
  hs_post (on_ok Q) (hs_try (read_bounded_message limits) f).
Proof.
  intros Hf. apply (hs_post_try (λ x, wf_message x.1)); [|by intros []; apply Hf].
  unfold read_bounded_message. apply hs_post_any. intros prefix.
  destruct prefix; [done|]. destruct (negb _); [done|]. destruct (_ =? 0); [done|].
  destruct (_ <? _); [done|]. apply hs_post_any. intros payload. destruct (negb _); [done|].
  apply hs_post_lift. intros m Hm. cbn. unfold decode_message in Hm.
  destruct (decode_message_from payload) as [[m' rest]|] eqn:E; [|done].
  repeat case_bool_decide; cbn [negb] in Hm; try done. injection Hm as <-.
  by eapply decode_message_from_wf.
Qed.

Lemma host_within (g : HandshakeConfig) :
  config_new g = Ok g → 0 < max_frame_bytes (g_limits g) ≤ HARD_MAX_FRAME_BYTES →
  hs_post (on_ok (within g false)) (host_establish_inner g).
Proof.
  intros Hc Hl. destruct (config_new_ok g Hc) as (_ & Hmin & _).
  unfold host_establish_inner. apply hs_post_any. intros nonce.
  rewrite limit_u32_ok by lia. apply hs_post_lift. intros max [= <-].
  apply hs_post_any. intros _. apply hs_post_read. intros m bytes _.
  apply hs_post_lift. intros n _. apply hs_post_lift. intros u Hn.
  apply validate_negotiation_ok in Hn as (Hs & _ & Hv & Hcap & Hval & Hmax).
  apply hs_post_lift. intros [keys hash] Hk. apply hs_post_lift. intros _ _.
  apply hs_post_any. intros _. apply hs_post_read. intros m' bytes' _.
  apply hs_post_lift. intros r _. apply hs_post_lift. intros u' Hr.
  apply validate_readiness_ok in Hr. unfold lift. cbn [hs_post].
  destruct (established n keys) as [e|] eqn:He; [|done]. cbn [on_ok].
  apply established_ok in He as (Ev & Es & Ec & El & _ & Ek).
  apply versions_negotiate_bounds in Hv. cbn in Hv, Hmax. rewrite Z.min_id in Hmax.
  apply validate_capabilities_ok in Hval as (Hne & Hreq & _).
  unfold within. rewrite Ev, Es, Ec, El, Ek, Hmax. split_and!; try done; try lia.
  - rewrite Hcap. apply (intersection_subset (g_capabilities g)).
  - by eexists _, _, _, _, hash.
Qed.

Lemma guest_within (g : HandshakeConfig) :
  config_new g = Ok g → 0 < max_frame_bytes (g_limits g) ≤ HARD_MAX_FRAME_BYTES →
  hs_post (on_ok (within g true)) (guest_establish_inner g).
Proof.
  intros Hc Hl. destruct (config_new_ok g Hc) as (_ & Hmin & _).
  unfold guest_establish_inner. apply hs_post_read. intros m bytes Hm.
  apply hs_post_lift. intros h Eh. destruct m; try done. injection Eh as ->.
  destruct Hm as (_ & _ & _ & _ & Hm). apply hs_post_lift. intros _ _.
  apply hs_post_lift. intros version Hv. destruct (versions_negotiate _ _) eqn:Ev; [|done].
  injection Hv as ->. apply versions_negotiate_bounds in Ev.
  apply hs_post_lift. intros u Hval. apply validate_capabilities_ok in Hval as (Hne & _ & Hreq).
  rewrite limit_u32_ok by lia. apply hs_post_lift. intros own [= <-].
  apply hs_post_any. intros nonce. apply hs_post_lift. intros [keys hash] Hk.
  apply hs_post_any. intros _. apply hs_post_read. intros m' bytes' _.
  apply hs_post_lift. intros r _. apply hs_post_lift. intros u' Hr.
  apply validate_readiness_ok in Hr. apply hs_post_any. intros _. unfold lift. cbn [hs_post].
  destruct (established _ keys) as [e|] eqn:He; [|done]. cbn [on_ok].
  apply established_ok in He as (Ev' & Es & Ec & El & H0 & Ek). cbn in Ev', Es, Ec, El, H0.
  unfold in_u in Hm. unfold within. rewrite Ev', Es, Ec, El, Ek. split_and!; try done; try lia.
  - apply intersection_subset.
  - by eexists _, _, _, _, hash.
Qed.


(** A handshake runs once: every call leaves a state in which the next one is refused without
    touching the stream. *)
Lemma establish_once (role : PeerRole) (h : Handshake) :
  hh_state (establish role h).1 ≠ Initial ∧
  hs_post (λ x, hh_state x.1 ≠ Initial) (establish role h).2 ∧
  (hh_state h ≠ Initial →
   establish role h = (h, HRet (h, Err (RepeatedHandshake (state_name (hh_state h)))))).
Proof.
  unfold establish. case_bool_decide as E; cbn [negb fst snd]; [|done].
  split; [done|]. split; [|done]. unfold closing. eapply hs_post_bind; [apply hs_post_true|].
  by intros [] _.
Qed.

End Handshake.

(** ** An instance *)

Module HandshakeSample.

#[global] Instance toy_kdf : KdfApi := {
  sha256 data := hmac_sha256 [1] data;
  hkdf_sha256 salt secret info := hmac_sha256 (salt ++ secret) info;
}.

Definition config (limit : Z) (capabilities : list Capability) : HandshakeConfig :=
  {| g_session_id := replicate 16 5; g_versions := {| v_minimum := 2; v_maximum := 2 |};
     g_capabilities := caps_new capabilities; g_required_capabilities := caps_new [Exec];
     g_limits := {| max_frame_bytes := limit |}; g_bootstrap_secret := replicate 32 3;
     g_boundary_plan_digest := replicate 32 4 |}.

Definition host : HandshakeConfig := config 1024 [Lifecycle; Exec; Signals].
Definition guest : HandshakeConfig := config 2048 [Exec; Signals; Health].
Definition small_guest : HandshakeConfig := config 512 [Exec; Signals; Health].
Definition host_nonce : list Z := replicate 32 6.
Definition guest_nonce : list Z := replicate 32 7.

Lemma compatible_guest : compatible host guest 2.
Proof. by split; vm_compute. Qed.

Lemma compatible_small : compatible host small_guest 2.
Proof. by split; vm_compute. Qed.

End HandshakeSample.

Lemma handshake_completes_witness :
  ∃ ph pg,
    converse 3 HandshakeSample.host_nonce HandshakeSample.guest_nonce
      (Waiting (establish HostClient (handshake_new HandshakeSample.host)).2)
      (Waiting (establish GuestServer (handshake_new HandshakeSample.guest)).2) [] =
    (Finished ({| hh_config := HandshakeSample.host; hh_state := HsEstablished |},
               Ok (connection_new ph)) [],
     Finished ({| hh_config := HandshakeSample.guest; hh_state := HsEstablished |},
               Ok (connection_new pg)) []) ∧
    paired ph pg ∧ paired pg ph ∧ wf_session (p_negotiated ph) ∧
    p_negotiated ph =
      {| ng_version := 2; ng_session_id := g_session_id HandshakeSample.host;
         ng_capabilities := caps_intersection (g_capabilities HandshakeSample.host)
                              (g_capabilities HandshakeSample.guest);
         ng_limits := g_limits HandshakeSample.host |}.
Proof.
  apply (handshake_completes HandshakeSample.host HandshakeSample.guest 2).
  - exact HandshakeSample.compatible_guest.
  - reflexivity.
  - reflexivity.
  - repeat constructor; vm_compute; discriminate.
  - repeat constructor; vm_compute; discriminate.
  - vm_compute. discriminate.
Defined.

Lemma lower_guest_limit_is_refused_witness :
  (converse 2 HandshakeSample.host_nonce HandshakeSample.guest_nonce
     (Waiting (establish HostClient (handshake_new HandshakeSample.host)).2)
     (Waiting (establish GuestServer (handshake_new HandshakeSample.small_guest)).2) []).1 =
  Finished ({| hh_config := HandshakeSample.host; hh_state := HsFailed |},
            Err InvalidNegotiatedFrameLimit) [].
Proof.
  apply (lower_guest_limit_is_refused HandshakeSample.host HandshakeSample.small_guest 2).
  - exact HandshakeSample.compatible_small.
  - reflexivity.
  - reflexivity.
  - repeat constructor; vm_compute; discriminate.
  - repeat constructor; vm_compute; discriminate.
  - vm_compute. reflexivity.
Defined.

