(* ===== verification/McpFraming.v ===== *)
(** * The MCP broker: framing ([crates/sendbox-mcp/src/framing.rs])

    The incremental decoder of newline-delimited and [Content-Length] frames.

    The theorems show that what is decoded does not depend on how the stream is cut
    ([feed_app]), that the bytes of the frames are the bytes of the stream, and that a frame
    decodes to itself ([feed_frames]), and that a frame and the buffers are bounded. *)

From S2P Require Import Prelude RustStr.

Definition CONTENT_LENGTH_PREFIX : list Z := str "content-length:".

Inductive FramingMode : Type := Newline | ContentLength | Auto.

#[global] Instance FramingMode_eq_dec : EqDecision FramingMode.
Proof. solve_decision. Defined.

Record DecodedFrame : Type := { f_payload : list Z; f_raw : list Z; f_mode : FramingMode }.

Inductive FrameError : Type :=
| McpFrameTooLarge (max : Z)
| HeaderTooLarge (max : Z)
| InvalidHeader (why : list Z)
| McpIncompleteFrame
| UndeterminedMode.

Record FrameDecoder : Type := {
  configured_mode : FramingMode;
  active_mode : option FramingMode;
  d_max_frame_bytes : Z;
  d_max_header_bytes : Z;
  newline_buffer : list Z;
  header_buffer : list Z;
  body_buffer : list Z;
  expected_body_bytes : option Z;
  auto_buffer : list Z;
}.

Definition with_header_limit (mode : FramingMode) (max_frame max_header : Z) : FrameDecoder :=
  {| configured_mode := mode;
     active_mode := if bool_decide (mode = Auto) then None else Some mode;
     d_max_frame_bytes := Z.max max_frame 1; d_max_header_bytes := Z.max max_header 32;
     newline_buffer := []; header_buffer := []; body_buffer := []; expected_body_bytes := None;
     auto_buffer := [] |}.

Definition decoder_new (mode : FramingMode) (max_frame : Z) : FrameDecoder :=
  with_header_limit mode max_frame (8 * 1024).

(** Updates of the fields the decoder changes. *)
Definition set_newline (d : FrameDecoder) (buffer : list Z) : FrameDecoder :=
  {| configured_mode := configured_mode d; active_mode := active_mode d;
     d_max_frame_bytes := d_max_frame_bytes d; d_max_header_bytes := d_max_header_bytes d;
     newline_buffer := buffer; header_buffer := header_buffer d; body_buffer := body_buffer d;
     expected_body_bytes := expected_body_bytes d; auto_buffer := auto_buffer d |}.
Definition set_body (d : FrameDecoder) (header body : list Z) (expected : option Z)
  : FrameDecoder :=
  {| configured_mode := configured_mode d; active_mode := active_mode d;
     d_max_frame_bytes := d_max_frame_bytes d; d_max_header_bytes := d_max_header_bytes d;
     newline_buffer := newline_buffer d; header_buffer := header; body_buffer := body;
     expected_body_bytes := expected; auto_buffer := auto_buffer d |}.
Definition set_mode (d : FrameDecoder) (mode : option FramingMode) (auto : list Z)
  : FrameDecoder :=
  {| configured_mode := configured_mode d; active_mode := mode;
     d_max_frame_bytes := d_max_frame_bytes d; d_max_header_bytes := d_max_header_bytes d;
     newline_buffer := newline_buffer d; header_buffer := header_buffer d;
     body_buffer := body_buffer d; expected_body_bytes := expected_body_bytes d;
     auto_buffer := auto |}.

Definition blen (l : list Z) : Z := Z.of_nat (length l).

(** ** Newline frames *)

(** The lengths of vectors are below [2^63], so that the saturating additions are exact. *)
Definition check_completed_newline_frame (d : FrameDecoder) (segment : list Z)
  : result FrameError () :=
  let raw_bytes := blen (newline_buffer d) + blen segment in
  let before_newline :=
    if (2 <=? length segment)%nat then segment !! (length segment - 2)%nat
    else last (newline_buffer d) in
  let delimiter_bytes := 1 + (if bool_decide (before_newline = Some ch_cr) then 1 else 0) in
  if d_max_frame_bytes d <? saturating_sub raw_bytes delimiter_bytes
  then Err (McpFrameTooLarge (d_max_frame_bytes d)) else Ok tt.

Definition newline_frame (raw : list Z) : DecodedFrame :=
  let fin := (length raw - 1)%nat in
  let fin := if (0 <? fin)%nat && bool_decide (raw !! (fin - 1)%nat = Some ch_cr)
             then (fin - 1)%nat else fin in
  {| f_payload := take fin raw; f_raw := raw; f_mode := Newline |}.

(** [segment] is what was read since the last newline. *)
Fixpoint newline_loop (d : FrameDecoder) (segment bytes : list Z)
  : result FrameError (list DecodedFrame * FrameDecoder) :=
  match bytes with
  | [] =>
      match segment with
      | [] => Ok ([], d)
      | _ =>
          if d_max_frame_bytes d + 1 <? blen (newline_buffer d) + blen segment
          then Err (McpFrameTooLarge (d_max_frame_bytes d))
          else Ok ([], set_newline d (newline_buffer d ++ segment))
      end
  | b :: rest =>
      let segment := segment ++ [b] in
      if b =? ch_lf then
        check? check_completed_newline_frame d segment in
        let raw := newline_buffer d ++ segment in
        let? ' (frames, d) := newline_loop (set_newline d []) [] rest in
        Ok (newline_frame raw :: frames, d)
      else newline_loop d segment rest
  end.

Definition feed_newline (d : FrameDecoder) (bytes : list Z)
  : result FrameError (list DecodedFrame * FrameDecoder) :=
  newline_loop d [] bytes.

(** ** [Content-Length] frames *)

Definition crlf2 : list Z := [ch_cr; ch_lf; ch_cr; ch_lf].

Definition header_complete (header : list Z) : bool :=
  ends_with header crlf2 || ends_with header [ch_lf; ch_lf].

(** [text.replace("\r\n", "\n")] *)
Fixpoint replace_crlf (s : list Z) : list Z :=
  match s with
  | 13 :: 10 :: rest => 10 :: replace_crlf rest
  | b :: rest => b :: replace_crlf rest
  | [] => []
  end.

(** [trim_matches([' ', '\t'])] *)
Fixpoint trim_start_blank (s : list Z) : list Z :=
  match s with
  | b :: r => if (b =? ch_space) || (b =? ch_tab) then trim_start_blank r else s
  | [] => []
  end.
Definition trim_blank (s : list Z) : list Z :=
  reverse (trim_start_blank (reverse (trim_start_blank s))).

(** The canonical decimal of a [usize]. *)
Definition parse_length (value : list Z) : result FrameError Z :=
  if bool_decide (value = []) ||
     ((1 <? length value)%nat && starts_with value [ch_zero]) ||
     negb (forallb is_ascii_digit value)
  then Err (InvalidHeader (str "Content-Length must be a canonical unsigned decimal"))
  else
    match parse_digits value with
    | Some n => if u64_max <? n then Err (InvalidHeader (str "Content-Length overflow")) else Ok n
    | None => Err (InvalidHeader (str "Content-Length overflow"))
    end.

Fixpoint header_lines (ls : list (list Z)) (content_length : option Z)
  : result FrameError (option Z) :=
  match ls with
  | [] => Ok content_length
  | line :: ls =>
      match split_once ch_colon line with
      | None => Err (InvalidHeader (str "header line is missing ':'"))
      | Some (name, value) =>
          if negb (eq_ignore_ascii_case name (str "content-length"))
          then Err (InvalidHeader (str "unexpected header '" ++ name ++ str "'"))
          else if bool_decide (content_length ≠ None)
          then Err (InvalidHeader (str "duplicate Content-Length header"))
          else let? n := parse_length (trim_blank value) in header_lines ls (Some n)
      end
  end.

Definition parse_content_length (header : list Z) : result FrameError Z :=
  let? text := ok_or (from_utf8 header) (InvalidHeader (str "header is not ASCII/UTF-8")) in
  let normalized := replace_crlf text in
  let? n := header_lines (split_on ch_lf (trim_end_matches ch_lf normalized)) None in
  ok_or n (InvalidHeader (str "missing Content-Length")).

(** Every iteration of the loop reads a byte or completes a frame that waits for none. *)
Fixpoint content_length_loop (fuel : nat) (d : FrameDecoder) (bytes : list Z)
  : result FrameError (list DecodedFrame * FrameDecoder) :=
  match fuel, bytes with
  | O, _ | _, [] => Ok ([], d)
  | S fuel, b :: rest =>
      match expected_body_bytes d with
      | Some expected =>
          let needed := Z.to_nat (saturating_sub expected (blen (body_buffer d))) in
          let body := body_buffer d ++ take needed bytes in
          let bytes := drop needed bytes in
          if blen body =? expected then
            let frame := {| f_payload := body; f_raw := header_buffer d ++ body;
                            f_mode := ContentLength |} in
            let? ' (frames, d) := content_length_loop fuel (set_body d [] [] None) bytes in
            Ok (frame :: frames, d)
          else content_length_loop fuel (set_body d (header_buffer d) body (Some expected)) bytes
      | None =>
          if d_max_header_bytes d <=? blen (header_buffer d)
          then Err (HeaderTooLarge (d_max_header_bytes d))
          else
            let header := header_buffer d ++ [b] in
            if header_complete header then
              let? length_ := parse_content_length header in
              if d_max_frame_bytes d <? length_
              then Err (McpFrameTooLarge (d_max_frame_bytes d))
              else if length_ =? 0 then
                let frame := {| f_payload := []; f_raw := header; f_mode := ContentLength |} in
                let? ' (frames, d) := content_length_loop fuel (set_body d [] [] None) rest in
                Ok (frame :: frames, d)
              else content_length_loop fuel (set_body d header [] (Some length_)) rest
            else content_length_loop fuel (set_body d header (body_buffer d) None) rest
      end
  end.

Definition feed_content_length (d : FrameDecoder) (bytes : list Z)
  : result FrameError (list DecodedFrame * FrameDecoder) :=
  content_length_loop (2 * length bytes + 1) d bytes.

(** ** The decoder *)

Definition feed_active (d : FrameDecoder) (bytes : list Z)
  : result FrameError (list DecodedFrame * FrameDecoder) :=
  match active_mode d with
  | Some Newline => feed_newline d bytes
  | Some ContentLength => feed_content_length d bytes
  | Some Auto | None => Err UndeterminedMode
  end.

(** The decoder and how many bytes it took. *)
Definition detect_mode (d : FrameDecoder) (bytes : list Z)
  : result FrameError (FrameDecoder * nat) :=
  if negb (bool_decide (configured_mode d = Auto))
  then Ok (set_mode d (Some (configured_mode d)) (auto_buffer d), 0%nat)
  else
    let needed := length CONTENT_LENGTH_PREFIX in
    let remaining := (needed - length (auto_buffer d))%nat in
    let n := Nat.min remaining (length bytes) in
    if d_max_header_bytes d <? blen (auto_buffer d) + Z.of_nat n
    then Err (HeaderTooLarge (d_max_header_bytes d))
    else
      let buffer := auto_buffer d ++ take n bytes in
      let lower := to_ascii_lowercase buffer in
      if starts_with CONTENT_LENGTH_PREFIX lower && (length lower <? needed)%nat
      then Ok (set_mode d None buffer, n)
      else Ok (set_mode d (Some (if starts_with lower CONTENT_LENGTH_PREFIX
                                 then ContentLength else Newline)) buffer, n).

Definition feed (d : FrameDecoder) (bytes : list Z)
  : result FrameError (list DecodedFrame * FrameDecoder) :=
  match active_mode d with
  | Some _ => feed_active d bytes
  | None =>
      let? ' (d, consumed) := detect_mode d bytes in
      match active_mode d with
      | None => Ok ([], d)
      | Some mode =>
          let buffered := auto_buffer d in
          let? ' (frames, d) := feed_active (set_mode d (Some mode) []) buffered in
          let? ' (more, d) := feed_active d (drop consumed bytes) in
          Ok (frames ++ more, d)
      end
  end.

Definition finish (d : FrameDecoder) : result FrameError () :=
  if bool_decide (active_mode d = None) && bool_decide (auto_buffer d = []) then Ok tt
  else if negb (bool_decide (auto_buffer d = [])) || negb (bool_decide (newline_buffer d = [])) ||
          negb (bool_decide (header_buffer d = [])) || negb (bool_decide (body_buffer d = [])) ||
          negb (bool_decide (expected_body_bytes d = None))
  then Err McpIncompleteFrame
  else Ok tt.

Definition encode_frame (payload : list Z) (mode : FramingMode) : list Z :=
  match mode with
  | Newline | Auto => payload ++ [ch_lf]
  | ContentLength =>
      str "Content-Length: " ++ show_dec (blen payload) ++ crlf2 ++ payload
  end.

(** ** Cutting the stream: newline frames *)

(** The decoder between two calls. *)
Definition newline_inv (d : FrameDecoder) : Prop :=
  blen (newline_buffer d) ≤ d_max_frame_bytes d + 1.

Lemma check_completed_move (d : FrameDecoder) (segment : list Z) :
  check_completed_newline_frame d (segment ++ [ch_lf]) =
  check_completed_newline_frame (set_newline d (newline_buffer d ++ segment)) [ch_lf].
Proof.
  unfold check_completed_newline_frame, blen. cbn [newline_buffer set_newline d_max_frame_bytes].
  rewrite !length_app. cbn [length].
  replace (Z.of_nat (length (newline_buffer d) + length segment)%nat + Z.of_nat 1)
    with (Z.of_nat (length (newline_buffer d)) + Z.of_nat (length segment + 1)%nat) by lia.
  destruct segment as [|b segment _] using rev_ind; [by rewrite app_nil_r|].
  rewrite length_app. cbn [length].
  rewrite (proj2 (Nat.leb_le 2 _)) by lia. cbn [Nat.leb].
  replace (length segment + 1 + 1 - 2)%nat with (length segment) by lia.
  assert (((segment ++ [b]) ++ [ch_lf]) !! length segment = Some b) as ->
    by (rewrite <-app_assoc; by apply list_lookup_middle).
  by rewrite app_assoc, last_snoc.
Qed.

Lemma check_completed_large (d : FrameDecoder) :
  d_max_frame_bytes d + 1 < blen (newline_buffer d) →
  check_completed_newline_frame d [ch_lf] = Err (McpFrameTooLarge (d_max_frame_bytes d)).
Proof.
  intros H. unfold check_completed_newline_frame, saturating_sub. cbn [length Nat.leb].
  unfold blen in *. rewrite (proj2 (Z.ltb_lt _ _)); [done|].
  case_bool_decide; cbn [length]; lia.
Qed.

(** The bytes since the last newline may as well be in the buffer. *)
Lemma newline_loop_segment (d : FrameDecoder) (segment bytes : list Z) :
  newline_inv d →
  newline_loop d segment bytes =
  if d_max_frame_bytes d + 1 <? blen (newline_buffer d) + blen segment
  then Err (McpFrameTooLarge (d_max_frame_bytes d))
  else newline_loop (set_newline d (newline_buffer d ++ segment)) [] bytes.
Proof.
  unfold newline_inv. revert d segment. induction bytes as [|b bytes IH]; intros d segment Hd.
  { destruct segment as [|a segment]; [|done]. cbn [newline_loop].
    rewrite (proj2 (Z.ltb_ge _ _)) by (unfold blen in *; cbn; lia).
    rewrite app_nil_r. by destruct d. }
  cbn [newline_loop]. destruct (Z.eqb_spec b ch_lf) as [->|Hb].
  - rewrite check_completed_move. destruct (Z.ltb_spec (d_max_frame_bytes d + 1)
      (blen (newline_buffer d) + blen segment)) as [Hlt|Hge].
    + rewrite check_completed_large; [done|]. cbn [set_newline newline_buffer d_max_frame_bytes].
      unfold blen in *. rewrite length_app. lia.
    + cbn [app newline_buffer set_newline]. by rewrite app_assoc.
  - rewrite IH by done. unfold blen. rewrite length_app. cbn [length].
    destruct (Z.ltb_spec (d_max_frame_bytes d + 1)
      (Z.of_nat (length (newline_buffer d)) + Z.of_nat (length segment))) as [Hlt|Hge].
    + by rewrite (proj2 (Z.ltb_lt _ _)) by lia.
    + cbn [app]. rewrite (IH (set_newline d (newline_buffer d ++ segment)) [b])
        by (unfold blen; cbn; rewrite length_app; lia).
      cbn [set_newline newline_buffer d_max_frame_bytes]. unfold blen.
      rewrite length_app, <-app_assoc. cbn [length].
      replace (Z.of_nat (length (newline_buffer d) + length segment)%nat + Z.of_nat 1)
        with (Z.of_nat (length (newline_buffer d)) + Z.of_nat (length segment + 1)%nat) by lia.
      done.
Qed.

Lemma newline_loop_app (l1 l2 : list Z) (d : FrameDecoder) (segment : list Z) :
  newline_inv d →
  newline_loop d segment (l1 ++ l2) =
  let? ' (f1, d1) := newline_loop d segment l1 in
  let? ' (f2, d2) := newline_loop d1 [] l2 in
  Ok (f1 ++ f2, d2).
Proof.
  revert d segment. induction l1 as [|b l1 IH]; intros d segment Hd; cbn [app].
  { rewrite newline_loop_segment by done. cbn [newline_loop].
    destruct segment as [|a segment].
    - rewrite (proj2 (Z.ltb_ge _ _)) by (unfold newline_inv, blen in *; cbn; lia).
      rewrite app_nil_r. replace (set_newline d (newline_buffer d)) with d by (by destruct d).
      by destruct (newline_loop d [] l2) as [[]|].
    - destruct (_ <? _); [done|]. by destruct (newline_loop _ [] l2) as [[]|]. }
  cbn [newline_loop]. destruct (b =? ch_lf); [|by apply IH].
  destruct (check_completed_newline_frame d _) as [u|]; [|done].
  rewrite IH by (unfold newline_inv, blen; cbn; unfold newline_inv, blen in Hd; lia).
  destruct (newline_loop (set_newline d []) [] l1) as [[f1 d1]|]; [|done].
  by destruct (newline_loop d1 [] l2) as [[f2 d2]|].
Qed.

(** ** Cutting the stream: [Content-Length] frames *)

Definition body_inv (d : FrameDecoder) : Prop :=
  match expected_body_bytes d with
  | Some expected => blen (body_buffer d) < expected
  | None => body_buffer d = []
  end.

Lemma parse_digits_nonneg (s : list Z) (n : Z) : parse_digits s = Some n → 0 ≤ n.
Proof.
  unfold parse_digits. destruct s as [|a s]; [done|]. set (l := a :: s). clearbody l.
  destruct (forallb is_ascii_digit l) eqn:E; [|done]. intros [= <-].
  cut (∀ acc, 0 ≤ acc → 0 ≤ foldl (λ acc b, acc * 10 + (b - 48)) acc l); [intros H; by apply H|].
  induction l as [|b l IH]; intros acc Hacc; [done|]. cbn [foldl forallb] in *.
  apply andb_true_iff in E as [Eb E]. apply in_range_true in Eb. apply IH; [done|lia].
Qed.

Lemma header_lines_nonneg (ls : list (list Z)) (acc : option Z) (n : Z) :
  (∀ a, acc = Some a → 0 ≤ a) → header_lines ls acc = Ok (Some n) → 0 ≤ n.
Proof.
  revert acc. induction ls as [|line ls IH]; intros acc Hacc H; cbn [header_lines] in H.
  { injection H as ->. by apply Hacc. }
  destruct (split_once ch_colon line) as [[name value]|]; [|done].
  destruct (negb _); [done|]. case_bool_decide; [done|].
  destruct (parse_length _) as [m|] eqn:Em; [|done]. eapply IH, H. intros a [= <-].
  unfold parse_length in Em. destruct (_ || _); [done|].
  destruct (parse_digits _) eqn:Ed; [|done]. destruct (u64_max <? _); [done|].
  injection Em as <-. by eapply parse_digits_nonneg.
Qed.

Lemma parse_content_length_nonneg (header : list Z) (n : Z) :
  parse_content_length header = Ok n → 0 ≤ n.
Proof.
  unfold parse_content_length. destruct (ok_or (from_utf8 header) _); [|done].
  destruct (header_lines _ None) as [[m|]|] eqn:E; simpl; [|done..]. intros [= <-].
  eapply header_lines_nonneg, E. done.
Qed.

Lemma needed_pos (d : FrameDecoder) (expected : Z) :
  body_inv d → expected_body_bytes d = Some expected →
  (0 < Z.to_nat (saturating_sub expected (blen (body_buffer d))))%nat.
Proof. unfold body_inv, saturating_sub. intros H E. rewrite E in H. lia. Qed.

Lemma body_inv_partial (d : FrameDecoder) (expected : Z) (bytes : list Z) :
  body_inv d → expected_body_bytes d = Some expected →
  let body := body_buffer d ++ take (Z.to_nat (saturating_sub expected (blen (body_buffer d)))) bytes in
  (blen body =? expected) = false → body_inv (set_body d (header_buffer d) body (Some expected)).
Proof.
  intros H E body Hne. unfold body_inv in *. rewrite E in H. bool_to_prop.
  cbn. unfold body, blen, saturating_sub in *. rewrite length_app, length_take in *. lia.
Qed.

Lemma content_length_fuel (fuel fuel' : nat) (d : FrameDecoder) (bytes : list Z) :
  body_inv d → (length bytes ≤ fuel)%nat → (length bytes ≤ fuel')%nat →
  content_length_loop fuel d bytes = content_length_loop fuel' d bytes.
Proof.
  revert fuel' d bytes. induction fuel as [|fuel IH]; intros fuel' d bytes Hd Hf Hf'.
  { destruct bytes; [by destruct fuel'|simpl in Hf; lia]. }
  destruct bytes as [|b rest]; [by destruct fuel'|].
  destruct fuel' as [|fuel']; [simpl in Hf'; lia|]. cbn [length] in *.
  cbn [content_length_loop]. destruct (expected_body_bytes d) as [expected|] eqn:Ee.
  - pose proof (needed_pos d expected Hd Ee) as Hn.
    set (needed := Z.to_nat _) in *.
    assert (length (drop needed (b :: rest)) ≤ length rest)%nat by (rewrite length_drop; simpl; lia).
    destruct (_ =? expected) eqn:Eq.
    + rewrite (IH fuel') by (done || lia). done.
    + apply IH; [|lia..]. by apply body_inv_partial.
  - destruct (_ <=? _); [done|]. destruct (header_complete _).
    + destruct (parse_content_length _) as [n|] eqn:Ep; [|done].
      destruct (_ <? _); [done|]. destruct (n =? 0) eqn:E0.
      * rewrite (IH fuel') by (done || lia). done.
      * apply IH; [|lia..]. apply parse_content_length_nonneg in Ep. bool_to_prop.
        unfold body_inv, blen. cbn. lia.
    + apply IH; [|lia..]. unfold body_inv in *. by rewrite Ee in Hd.
Qed.

Lemma content_length_nil (fuel : nat) (d : FrameDecoder) :
  content_length_loop fuel d [] = Ok ([], d).
Proof. by destruct fuel. Qed.

(** One byte of a body. *)
Lemma content_length_body (fuel : nat) (d : FrameDecoder) (b expected : Z) (rest : list Z) :
  body_inv d → expected_body_bytes d = Some expected → (length rest ≤ fuel)%nat →
  content_length_loop (S fuel) d (b :: rest) =
  let body := body_buffer d ++ [b] in
  if blen body =? expected then
    let? ' (frames, d') := content_length_loop fuel (set_body d [] [] None) rest in
    Ok ({| f_payload := body; f_raw := header_buffer d ++ body; f_mode := ContentLength |}
          :: frames, d')
  else content_length_loop fuel (set_body d (header_buffer d) body (Some expected)) rest.
Proof.
  intros Hd Ee Hf. pose proof (needed_pos d expected Hd Ee) as Hn.
  unfold body_inv in Hd. rewrite Ee in Hd. cbn [content_length_loop]. rewrite Ee.
  assert (∃ k, Z.to_nat (saturating_sub expected (blen (body_buffer d))) = S k) as [k Hk]
    by (exists (pred (Z.to_nat (saturating_sub expected (blen (body_buffer d))))); lia).
  rewrite Hk. rewrite firstn_cons, skipn_cons. cbn zeta.
  destruct k as [|k]; [by rewrite take_0, drop_0|].
  assert (blen (body_buffer d ++ [b]) < expected) as Hlt.
  { unfold saturating_sub, blen in *. rewrite length_app. simpl. lia. }
  rewrite (proj2 (Z.eqb_neq (blen (body_buffer d ++ [b])) expected)) by lia.
  destruct rest as [|c rest].
  { rewrite take_nil, drop_nil, (proj2 (Z.eqb_neq _ expected)), !content_length_nil by lia. done. }
  destruct fuel as [|fuel]; [simpl in Hf; lia|].
  set (d' := set_body d (header_buffer d) (body_buffer d ++ [b]) (Some expected)).
  rewrite (content_length_fuel (S fuel) (S (S fuel)) d') by
    (simpl in *; unfold body_inv; cbn; lia).
  cbn [content_length_loop]. cbn [expected_body_bytes d' set_body body_buffer header_buffer].
  assert (Z.to_nat (saturating_sub expected (blen (body_buffer d ++ [b]))) = S k) as ->.
  { unfold saturating_sub, blen in *. rewrite length_app. simpl. lia. }
  rewrite <-(app_assoc (body_buffer d) [b]). done.
Qed.

Lemma content_length_cons (f f' : nat) (d : FrameDecoder) (b : Z) (rest : list Z) :
  body_inv d → (length rest ≤ f)%nat → (length rest ≤ f')%nat →
  content_length_loop (S f) d (b :: rest) =
  let? ' (f1, d1) := content_length_loop 1 d [b] in
  let? ' (f2, d2) := content_length_loop f' d1 rest in
  Ok (f1 ++ f2, d2).
Proof.
  intros Hd Hf Hf'. destruct (expected_body_bytes d) as [expected|] eqn:Ee.
  - rewrite (content_length_body f d b expected rest), (content_length_body 0 d b expected [])
      by (done || simpl; lia). cbn zeta.
    pose proof (body_inv_partial d expected [b] Hd Ee) as Hpart.
    pose proof (needed_pos d expected Hd Ee) as Hn.
    rewrite take_ge in Hpart by (simpl; lia). cbn zeta in Hpart.
    destruct (_ =? expected); rewrite content_length_nil.
    + rewrite (content_length_fuel f f') by done.
      by destruct (content_length_loop f' _ rest) as [[]|].
    + rewrite (content_length_fuel f f') by (by try apply Hpart).
      by destruct (content_length_loop f' _ rest) as [[]|].
  - unfold body_inv in Hd. rewrite Ee in Hd.
    cbn [content_length_loop]. rewrite Ee. destruct (_ <=? _); [done|].
    destruct (header_complete _).
    + destruct (parse_content_length _) as [n|] eqn:Ep; [|done]. destruct (_ <? _); [done|].
      apply parse_content_length_nonneg in Ep. destruct (n =? 0) eqn:E0; bool_to_prop.
      * rewrite (content_length_fuel f f') by done.
        by destruct (content_length_loop f' _ rest) as [[]|].
      * rewrite (content_length_fuel f f') by (done || (unfold body_inv, blen; cbn; lia)).
        by destruct (content_length_loop f' _ rest) as [[]|].
    + rewrite (content_length_fuel f f') by done.
      by destruct (content_length_loop f' _ rest) as [[]|].
Qed.

(** ** The decoder between two calls *)

(** A header that is not yet complete, and one that has just been completed. *)
Definition open_header (header : list Z) : Prop :=
  ∀ p, p `prefix_of` header → header_complete p = false.
Definition closed_header (max : Z) (header : list Z) (n : Z) : Prop :=
  ∃ h b, header = h ++ [b] ∧ open_header h ∧ header_complete header = true ∧
    blen header ≤ max ∧ parse_content_length header = Ok n.

(** The bytes begin a [Content-Length] header, as far as they go. *)
Definition undetermined (bytes : list Z) : bool :=
  starts_with CONTENT_LENGTH_PREFIX (to_ascii_lowercase bytes) &&
  (length (to_ascii_lowercase bytes) <? length CONTENT_LENGTH_PREFIX)%nat.
Definition detected (bytes : list Z) : FramingMode :=
  if starts_with (to_ascii_lowercase bytes) CONTENT_LENGTH_PREFIX then ContentLength else Newline.

Definition decoder_ok (d : FrameDecoder) : Prop :=
  1 ≤ d_max_frame_bytes d ∧ 32 ≤ d_max_header_bytes d ∧
  match active_mode d with
  | None =>
      configured_mode d = Auto ∧ undetermined (auto_buffer d) = true ∧ newline_buffer d = [] ∧
      header_buffer d = [] ∧ body_buffer d = [] ∧ expected_body_bytes d = None
  | Some Newline =>
      auto_buffer d = [] ∧ newline_inv d ∧ ch_lf ∉ newline_buffer d ∧
      header_buffer d = [] ∧ body_buffer d = [] ∧ expected_body_bytes d = None
  | Some ContentLength =>
      auto_buffer d = [] ∧ newline_buffer d = [] ∧ body_inv d ∧
      match expected_body_bytes d with
      | None => open_header (header_buffer d) ∧ blen (header_buffer d) ≤ d_max_header_bytes d
      | Some n => closed_header (d_max_header_bytes d) (header_buffer d) n ∧
                  n ≤ d_max_frame_bytes d
      end
  | Some Auto => False
  end.

(** The bytes the decoder holds back. *)
Definition pending (d : FrameDecoder) : list Z :=
  auto_buffer d ++ newline_buffer d ++ header_buffer d ++ body_buffer d.

(** What a frame of a decoder with these limits is. *)
Definition frame_ok (max_frame max_header : Z) (f : DecodedFrame) : Prop :=
  blen (f_payload f) ≤ max_frame ∧
  match f_mode f with
  | Newline => ∃ line, ch_lf ∉ line ∧ f = newline_frame (line ++ [ch_lf])
  | ContentLength =>
      ∃ header, f_raw f = header ++ f_payload f ∧
        closed_header max_header header (blen (f_payload f))
  | Auto => False
  end.

Record feed_post (d : FrameDecoder) (bytes : list Z) (frames : list DecodedFrame)
    (d' : FrameDecoder) : Prop := {
  post_ok : decoder_ok d';
  post_frame : d_max_frame_bytes d' = d_max_frame_bytes d;
  post_header : d_max_header_bytes d' = d_max_header_bytes d;
  post_mode : ∀ m, active_mode d = Some m → active_mode d' = Some m;
  post_bytes : pending d ++ bytes = concat (f_raw <$> frames) ++ pending d';
  post_frames : Forall (frame_ok (d_max_frame_bytes d) (d_max_header_bytes d)) frames;
  post_modes : Forall (λ f, active_mode d' = Some (f_mode f)) frames;
}.

Lemma feed_post_nil (d : FrameDecoder) : decoder_ok d → feed_post d [] [] d.
Proof. intros H. split; try done. by rewrite app_nil_r. Qed.

Lemma feed_post_app (d d1 d2 : FrameDecoder) (l1 l2 : list Z) (f1 f2 : list DecodedFrame) :
  feed_post d l1 f1 d1 → feed_post d1 l2 f2 d2 → feed_post d (l1 ++ l2) (f1 ++ f2) d2.
Proof.
  intros [A1 A2 A3 A4 A5 A6 A7] [B1 B2 B3 B4 B5 B6 B7]. split; [done|congruence|congruence|..].
  - intros m Hm. auto.
  - by rewrite app_assoc, A5, <-app_assoc, B5, fmap_app, concat_app, app_assoc.
  - apply Forall_app. split; [done|]. by rewrite A2, A3 in B6.
  - apply Forall_app. split; [|done]. eapply Forall_impl; [exact A7|]. intros f Hf. by apply B4.
Qed.

(** A completed newline frame is exactly one whose payload is within the limit. *)
Lemma check_completed_payload (d : FrameDecoder) (line : list Z) :
  1 ≤ d_max_frame_bytes d →
  check_completed_newline_frame (set_newline d line) [ch_lf] =
  if d_max_frame_bytes d <? blen (f_payload (newline_frame (line ++ [ch_lf])))
  then Err (McpFrameTooLarge (d_max_frame_bytes d)) else Ok tt.
Proof.
  intros H1. unfold check_completed_newline_frame, newline_frame, blen, saturating_sub.
  cbn [set_newline newline_buffer d_max_frame_bytes f_payload length Nat.leb].
  rewrite length_take, length_app. cbn [length].
  replace (length line + 1 - 1)%nat with (length line) by lia.
  destruct line as [|a line _] using rev_ind; [done|].
  rewrite last_snoc, length_app. cbn [length].
  rewrite (proj2 (Nat.ltb_lt 0 _)) by lia. cbn [andb].
  replace (length line + 1 - 1)%nat with (length line) by lia.
  assert (((line ++ [a]) ++ [ch_lf]) !! length line = Some a) as ->
    by (rewrite <-app_assoc; by apply list_lookup_middle).
  destruct (bool_decide _);
    match goal with |- (if _ <? ?x then _ else _) = (if _ <? ?y then _ else _) =>
      replace y with x by lia end; done.
Qed.

(** One byte. *)
Lemma feed_newline_byte (d d' : FrameDecoder) (b : Z) (fs : list DecodedFrame) :
  decoder_ok d → active_mode d = Some Newline →
  feed_newline d [b] = Ok (fs, d') → feed_post d [b] fs d'.
Proof.
  intros Hok Em. unfold decoder_ok in Hok. rewrite Em in Hok.
  destruct Hok as (Hf & Hh & Ha & Hn & Hlf & Hhb & Hb & He).
  unfold feed_newline. cbn [newline_loop app].
  destruct (Z.eqb_spec b ch_lf) as [->|Hne].
  - pose proof (check_completed_payload d (newline_buffer d) Hf) as Hc.
    replace (set_newline d (newline_buffer d)) with d in Hc by (by destruct d). rewrite Hc.
    destruct (Z.ltb_spec (d_max_frame_bytes d)
      (blen (f_payload (newline_frame (newline_buffer d ++ [ch_lf]))))); [done|].
    intros [= <- <-]. split; cbn; try done.
    + unfold decoder_ok. cbn. rewrite Em. unfold newline_inv, blen. cbn.
      repeat split; try done; try lia. set_solver.
    + unfold pending. cbn. by rewrite Ha, Hhb, Hb, !app_nil_r.
    + constructor; [|done]. split; [done|]. cbn. eauto.
    + by constructor.
  - destruct (Z.ltb_spec (d_max_frame_bytes d + 1) (blen (newline_buffer d) + blen [b]));
      [done|]. intros [= <- <-]. split; cbn; try done.
    + unfold decoder_ok. cbn. rewrite Em. unfold newline_inv, blen in *. cbn.
      rewrite length_app. repeat split; try done; try (simpl in *; lia). set_solver.
    + unfold pending. cbn. by rewrite Ha, Hhb, Hb, !app_nil_r.
Qed.

Lemma open_header_snoc (h : list Z) (b : Z) :
  open_header h → header_complete (h ++ [b]) = false → open_header (h ++ [b]).
Proof.
  intros Hh Hc p [k Hk]. destruct k as [|c k _] using rev_ind.
  - by rewrite app_nil_r in Hk; subst.
  - rewrite app_assoc in Hk. apply app_inj_tail in Hk as [-> _]. apply Hh. by exists k.
Qed.

(** The bytes held back and the bytes of the frames add up. *)
Ltac bytes_eq Ha Hn :=
  unfold pending; cbn; rewrite ?Ha, ?Hn; try match goal with H : body_buffer _ = [] |- _ => rewrite H end;
  rewrite ?app_nil_r, <-?app_assoc; cbn; rewrite ?app_nil_r; done.

Lemma feed_content_length_byte (d d' : FrameDecoder) (b : Z) (fs : list DecodedFrame) :
  decoder_ok d → active_mode d = Some ContentLength →
  content_length_loop 1 d [b] = Ok (fs, d') → feed_post d [b] fs d'.
Proof.
  intros Hok Em. unfold decoder_ok in Hok. rewrite Em in Hok.
  destruct Hok as (Hf & Hh & Ha & Hn & Hb & He).
  destruct (expected_body_bytes d) as [expected|] eqn:Ee.
  - destruct He as [Hclosed Hmax]. rewrite (content_length_body 0 d b expected []) by done.
    unfold body_inv in Hb. rewrite Ee in Hb. cbn zeta.
    destruct (Z.eqb_spec (blen (body_buffer d ++ [b])) expected) as [Heq|Hneq]; intros [= <- <-].
    + split; cbn; try done.
      * unfold decoder_ok, blen. cbn. rewrite Em. repeat split; try done; try lia.
        intros p Hp. by apply prefix_nil_inv in Hp as ->.
      * bytes_eq Ha Hn.
      * constructor; [|done]. split; cbn; [lia|]. rewrite Heq. eauto.
      * by constructor.
    + split; cbn; try done.
      * unfold decoder_ok, body_inv. cbn. rewrite Em. repeat split; try done.
        unfold blen in *. rewrite length_app in *. simpl in *. lia.
      * bytes_eq Ha Hn.
  - destruct He as [Hopen Hlen]. unfold body_inv in Hb. rewrite Ee in Hb.
    cbn [content_length_loop]. rewrite Ee.
    destruct (Z.leb_spec (d_max_header_bytes d) (blen (header_buffer d))); [done|].
    assert (blen (header_buffer d ++ [b]) ≤ d_max_header_bytes d)
      by (unfold blen in *; rewrite length_app; simpl; lia).
    destruct (header_complete (header_buffer d ++ [b])) eqn:Ec.
    + destruct (parse_content_length _) as [n|] eqn:Ep; [|done].
      destruct (Z.ltb_spec (d_max_frame_bytes d) n); [done|].
      assert (closed_header (d_max_header_bytes d) (header_buffer d ++ [b]) n) by
        (by exists (header_buffer d), b).
      destruct (Z.eqb_spec n 0) as [->|Hn0]; intros [= <- <-].
      * split; cbn; try done.
        -- unfold decoder_ok, blen. cbn. rewrite Em. repeat split; try done; try lia.
           intros p Hp. by apply prefix_nil_inv in Hp as ->.
        -- bytes_eq Ha Hn.
        -- constructor; [|done]. split; cbn; [unfold blen; simpl; lia|]. exists (header_buffer d ++ [b]).
           by rewrite app_nil_r.
        -- by constructor.
      * apply parse_content_length_nonneg in Ep. split; cbn; try done.
        -- unfold decoder_ok, body_inv, blen. cbn. rewrite Em. repeat split; try done; lia.
        -- bytes_eq Ha Hn.
    + intros [= <- <-]. split; cbn; try done.
      * unfold decoder_ok, body_inv. cbn. rewrite Em. repeat split; try done.
        by apply open_header_snoc.
      * bytes_eq Ha Hn.
Qed.

Lemma feed_active_byte (d d' : FrameDecoder) (b : Z) (fs : list DecodedFrame) :
  decoder_ok d → feed_active d [b] = Ok (fs, d') → feed_post d [b] fs d'.
Proof.
  intros Hok. unfold feed_active. destruct (active_mode d) as [[]|] eqn:Em; [|..|done|done].
  - by apply feed_newline_byte.
  - unfold feed_content_length.
    rewrite (content_length_fuel _ 1) by (simpl; try lia; unfold decoder_ok in Hok;
      rewrite Em in Hok; naive_solver).
    by apply feed_content_length_byte.
Qed.

Lemma feed_active_nil (d : FrameDecoder) (m : FramingMode) :
  decoder_ok d → active_mode d = Some m → feed_active d [] = Ok ([], d).
Proof.
  intros (_ & _ & Hok) Em. rewrite Em in Hok. unfold feed_active. rewrite Em. by destruct m.
Qed.

Lemma feed_active_cons (d : FrameDecoder) (b : Z) (rest : list Z) :
  decoder_ok d →
  feed_active d (b :: rest) =
  let? ' (f1, d1) := feed_active d [b] in
  let? ' (f2, d2) := feed_active d1 rest in
  Ok (f1 ++ f2, d2).
Proof.
  intros Hok. pose proof (feed_active_byte d) as Hbyte. unfold feed_active in Hbyte |- *.
  destruct (active_mode d) as [[]|] eqn:Em; [| |done|done].
  - unfold feed_newline in *. change (b :: rest) with ([b] ++ rest). rewrite (newline_loop_app [b]) by
      (unfold decoder_ok in Hok; rewrite Em in Hok; naive_solver).
    destruct (newline_loop d [] [b]) as [[f1 d1]|] eqn:E1; [|done].
    destruct (Hbyte d1 b f1 Hok E1) as [_ _ _ Hm _ _ _]. by rewrite (Hm Newline).
  - unfold feed_content_length in *. assert (body_inv d) as Hd by
      (unfold decoder_ok in Hok; rewrite Em in Hok; naive_solver).
    replace (2 * length (b :: rest) + 1)%nat with (S (2 * length rest + 2)) by (simpl; lia).
    rewrite (content_length_cons _ (2 * length rest + 1)) by (done || lia).
    rewrite (content_length_fuel 1 (2 * length [b] + 1)) by (done || simpl; lia).
    destruct (content_length_loop _ d [b]) as [[f1 d1]|] eqn:E1; [|done].
    destruct (Hbyte d1 b f1 Hok E1) as [_ _ _ Hm _ _ _]. by rewrite (Hm ContentLength).
Qed.

Lemma feed_active_post (bytes : list Z) (d d' : FrameDecoder) (fs : list DecodedFrame) :
  decoder_ok d → feed_active d bytes = Ok (fs, d') → feed_post d bytes fs d'.
Proof.
  revert d fs. induction bytes as [|b rest IH]; intros d fs Hok.
  - destruct (active_mode d) as [m|] eqn:Em.
    + rewrite (feed_active_nil d m) by done. intros [= <- <-]. by apply feed_post_nil.
    + unfold feed_active. by rewrite Em.
  - rewrite feed_active_cons by done.
    destruct (feed_active d [b]) as [[f1 d1]|] eqn:E1; [|done].
    destruct (feed_active d1 rest) as [[f2 d2]|] eqn:E2; [|done]. intros [= <- <-].
    apply feed_active_byte in E1; [|done].
    apply (feed_post_app d d1 d2 [b]); [done|]. by apply IH, E2; apply E1.
Qed.

Lemma feed_active_app (l1 l2 : list Z) (d : FrameDecoder) :
  decoder_ok d →
  feed_active d (l1 ++ l2) =
  let? ' (f1, d1) := feed_active d l1 in
  let? ' (f2, d2) := feed_active d1 l2 in
  Ok (f1 ++ f2, d2).
Proof.
  revert d. induction l1 as [|b l1 IH]; intros d Hok.
  - destruct (active_mode d) as [m|] eqn:Em.
    + rewrite (feed_active_nil d m) by done. cbn. by destruct (feed_active d l2) as [[]|].
    + unfold feed_active. by rewrite Em.
  - cbn [app]. rewrite feed_active_cons by done. rewrite (feed_active_cons d b l1) by done.
    destruct (feed_active d [b]) as [[f1 d1]|] eqn:E1; [|done].
    apply feed_active_byte in E1; [|done]. rewrite IH by apply E1.
    destruct (feed_active d1 l1) as [[f2 d2]|]; [|done].
    destruct (feed_active d2 l2) as [[f3 d3]|]; [|done]. by rewrite app_assoc.
Qed.

(** ** Detecting the mode *)

Lemma starts_with_prefix (s p : list Z) : starts_with s p = true ↔ p `prefix_of` s.
Proof. apply starts_with_true. Qed.

Lemma undetermined_true (w : list Z) :
  undetermined w = true ↔
  to_ascii_lowercase w `prefix_of` CONTENT_LENGTH_PREFIX ∧
  (length w < length CONTENT_LENGTH_PREFIX)%nat.
Proof.
  unfold undetermined.
  by rewrite andb_true_iff, starts_with_prefix, length_to_ascii_lowercase, Nat.ltb_lt.
Qed.

Lemma undetermined_app (l1 l2 : list Z) :
  undetermined (l1 ++ l2) = true → undetermined l1 = true.
Proof.
  rewrite !undetermined_true. unfold to_ascii_lowercase. rewrite fmap_app, length_app.
  intros [Hp Hl]. split; [by eapply prefix_app_l|lia].
Qed.

Lemma detected_app (l1 l2 : list Z) :
  undetermined l1 = false → detected (l1 ++ l2) = detected l1.
Proof.
  intros Hu. unfold detected.
  assert (starts_with (to_ascii_lowercase (l1 ++ l2)) CONTENT_LENGTH_PREFIX =
          starts_with (to_ascii_lowercase l1) CONTENT_LENGTH_PREFIX) as ->; [|done].
  apply eq_true_iff_eq. rewrite !starts_with_prefix.
  assert (to_ascii_lowercase (l1 ++ l2) = to_ascii_lowercase l1 ++ to_ascii_lowercase l2) as ->
    by apply fmap_app.
  split; [|apply prefix_app_r]. intros Hp.
  destruct (prefix_weak_total CONTENT_LENGTH_PREFIX (to_ascii_lowercase l1)
    (to_ascii_lowercase l1 ++ to_ascii_lowercase l2)) as [|Hq]; [done|by eexists|done|].
  assert (length CONTENT_LENGTH_PREFIX ≤ length l1)%nat as Hlen.
  { destruct (decide (length l1 < length CONTENT_LENGTH_PREFIX)%nat); [|lia].
    by rewrite (proj2 (undetermined_true l1)) in Hu. }
  destruct Hq as [k Hk]. assert (k = []) as ->.
  { apply (f_equal length) in Hk. rewrite length_app, length_to_ascii_lowercase in Hk.
    destruct k; [done|]. cbn [length] in Hk. lia. }
  by rewrite Hk, app_nil_r.
Qed.

Lemma start_ok (d : FrameDecoder) (w : list Z) :
  decoder_ok d → active_mode d = None → decoder_ok (set_mode d (Some (detected w)) []).
Proof.
  intros (Hf & Hh & Hok) Em. rewrite Em in Hok. destruct Hok as (_ & _ & Hn & Hhb & Hb & He).
  split; [done|]. split; [done|]. cbn. unfold detected.
  assert (open_header []) by (intros p Hp; by apply prefix_nil_inv in Hp as ->).
  destruct (starts_with _ _); unfold newline_inv, body_inv, blen; cbn;
    rewrite Hn, Hhb, ?He, Hb; cbn; repeat split; try done; try lia. set_solver.
Qed.

(** Until the mode is known, the decoder holds what it has read. *)
Lemma feed_auto (d : FrameDecoder) (bytes : list Z) :
  decoder_ok d → active_mode d = None →
  let w := auto_buffer d ++ bytes in
  feed d bytes =
  if undetermined w then Ok ([], set_mode d None w)
  else feed_active (set_mode d (Some (detected w)) []) w.
Proof.
  intros Hok Em w. pose proof (start_ok d w Hok Em) as Hstart.
  destruct Hok as (Hf & Hh & Hok). rewrite Em in Hok.
  destruct Hok as (Hauto & Hu & _). pose proof (proj1 (undetermined_true _) Hu) as [_ Hlen].
  unfold feed, detect_mode. rewrite Em, Hauto. rewrite bool_decide_true by done. cbn [negb].
  set (a := auto_buffer d) in *. set (n := Nat.min _ _).
  assert (n ≤ length CONTENT_LENGTH_PREFIX - length a)%nat by lia.
  assert (length CONTENT_LENGTH_PREFIX = 15%nat) as Hp by done.
  rewrite (proj2 (Z.ltb_ge _ _)) by (unfold blen; lia).
  change (starts_with CONTENT_LENGTH_PREFIX (to_ascii_lowercase (a ++ take n bytes)) && _)
    with (undetermined (a ++ take n bytes)).
  assert (w = (a ++ take n bytes) ++ drop n bytes) as Hw
    by (unfold w; by rewrite <-app_assoc, take_drop).
  assert (undetermined w = undetermined (a ++ take n bytes)) as Huw.
  { destruct (decide (length bytes ≤ n)%nat) as [Hle|Hgt].
    - by rewrite Hw, drop_ge, app_nil_r by done.
    - destruct (undetermined w) eqn:E1; [symmetry; rewrite Hw in E1; by apply undetermined_app in E1|].
      destruct (undetermined (a ++ take n bytes)) eqn:E2; [|done].
      apply undetermined_true in E2 as [_ E2]. rewrite length_app, length_take in E2. lia. }
  rewrite Huw. destruct (undetermined (a ++ take n bytes)) eqn:Eu.
  - cbn. assert (length bytes ≤ n)%nat.
    { apply undetermined_true in Eu as [_ Eu]. rewrite length_app, length_take in Eu. lia. }
    unfold w. by rewrite take_ge.
  - cbn [active_mode set_mode auto_buffer].
    change (if starts_with (to_ascii_lowercase (a ++ take n bytes)) CONTENT_LENGTH_PREFIX
            then ContentLength else Newline) with (detected (a ++ take n bytes)).
    rewrite <-(detected_app _ (drop n bytes)), <-Hw by done.
    change (set_mode (set_mode d _ _) ?m []) with (set_mode d m []).
    rewrite <-feed_active_app, <-Hw by done. done.
Qed.

Lemma undetermined_ok (d : FrameDecoder) (w : list Z) :
  decoder_ok d → active_mode d = None → undetermined w = true → decoder_ok (set_mode d None w).
Proof. unfold decoder_ok. intros Hok Em Hw. rewrite Em in Hok. naive_solver. Qed.

Lemma feed_preserves (d d' : FrameDecoder) (bytes : list Z) (fs : list DecodedFrame) :
  decoder_ok d → feed d bytes = Ok (fs, d') → feed_post d bytes fs d'.
Proof.
  intros Hok Hfeed. destruct (active_mode d) as [m|] eqn:Em.
  { unfold feed in Hfeed. rewrite Em in Hfeed. by apply feed_active_post. }
  rewrite (feed_auto d bytes Hok Em) in Hfeed.
  assert (pending d = auto_buffer d) as Hpend.
  { destruct Hok as (_ & _ & Hok). rewrite Em in Hok.
    destruct Hok as (_ & _ & Hn & Hh & Hb & _). unfold pending. by rewrite Hn, Hh, Hb, app_nil_r. }
  assert (∀ m w, pending (set_mode d m w) = w) as Hpend'.
  { intros m w. unfold pending in *. cbn. revert Hpend.
    rewrite <-(app_nil_r (auto_buffer d)) at 2. intros ->%(inj _). apply app_nil_r. }
  destruct (undetermined _) eqn:Eu.
  - injection Hfeed as <- <-. split; try done; [by apply undetermined_ok|..].
    + intros m Hm. congruence.
    + by rewrite Hpend, Hpend'.
  - apply feed_active_post in Hfeed; [|by apply start_ok].
    destruct Hfeed as [A1 A2 A3 A4 A5 A6 A7]. split; try done; [intros m Hm; congruence|].
    rewrite Hpend' in A5. by rewrite Hpend, <-A5.
Qed.

(** What is decoded does not depend on how the stream is cut: feeding two pieces gives the
    frames, the decoder and the error of feeding them joined. *)
Theorem feed_app (d : FrameDecoder) (l1 l2 : list Z) :
  decoder_ok d →
  feed d (l1 ++ l2) =
  let? ' (f1, d1) := feed d l1 in
  let? ' (f2, d2) := feed d1 l2 in
  Ok (f1 ++ f2, d2).
Proof.
  intros Hok. destruct (active_mode d) as [m|] eqn:Em.
  { assert (∀ l, feed d l = feed_active d l) as Hact by (intros l; unfold feed; by rewrite Em).
    rewrite !Hact, feed_active_app by done.
    destruct (feed_active d l1) as [[f1 d1]|] eqn:E1; [|done].
    apply feed_active_post in E1; [|done]. unfold feed. by rewrite (post_mode _ _ _ _ E1 m). }
  rewrite !feed_auto by done. cbn zeta. rewrite app_assoc.
  destruct (undetermined (auto_buffer d ++ l1)) eqn:E1.
  - cbn beta iota. rewrite feed_auto by (done || by apply undetermined_ok). cbn zeta.
    cbn [auto_buffer set_mode]. destruct (undetermined ((auto_buffer d ++ l1) ++ l2)); [done|].
    change (set_mode (set_mode d _ _) ?m []) with (set_mode d m []).
    by destruct (feed_active _ _) as [[]|].
  - assert (undetermined ((auto_buffer d ++ l1) ++ l2) = false) as ->.
    { destruct (undetermined (_ ++ l2)) eqn:E2; [|done]. apply undetermined_app in E2. congruence. }
    rewrite detected_app by done. rewrite feed_active_app by (by apply start_ok).
    destruct (feed_active _ (auto_buffer d ++ l1)) as [[f1 d1]|] eqn:Ef; [|done].
    apply feed_active_post in Ef; [|by apply start_ok].
    unfold feed. by rewrite (post_mode _ _ _ _ Ef (detected (auto_buffer d ++ l1))).
Qed.

(** ** A frame decodes to itself *)

Lemma newline_loop_line (line rest : list Z) (d : FrameDecoder) (segment : list Z) :
  ch_lf ∉ line →
  newline_loop d segment (line ++ ch_lf :: rest) =
  check? check_completed_newline_frame d ((segment ++ line) ++ [ch_lf]) in
  let? ' (frames, d') := newline_loop (set_newline d []) [] rest in
  Ok (newline_frame (newline_buffer d ++ (segment ++ line) ++ [ch_lf]) :: frames, d').
Proof.
  revert segment. induction line as [|b line IH]; intros segment Hlf; cbn [app newline_loop].
  { by rewrite app_nil_r. }
  apply not_elem_of_cons in Hlf as [Hb Hlf]. rewrite (proj2 (Z.eqb_neq b ch_lf)) by done.
  rewrite IH by done. by rewrite <-(app_assoc segment).
Qed.

Lemma feed_header (h : list Z) (d : FrameDecoder) :
  decoder_ok d → active_mode d = Some ContentLength → expected_body_bytes d = None →
  open_header (header_buffer d ++ h) → blen (header_buffer d ++ h) ≤ d_max_header_bytes d →
  feed_active d h = Ok ([], set_body d (header_buffer d ++ h) [] None).
Proof.
  revert d. induction h as [|b h IH]; intros d Hok Em Ee Hopen Hlen.
  { rewrite (feed_active_nil d ContentLength) by done. rewrite app_nil_r.
    destruct Hok as (_ & _ & Hok). rewrite Em in Hok. destruct Hok as (_ & _ & Hb & _).
    unfold body_inv in Hb. rewrite Ee in Hb. destruct d; simpl in *; subst. done. }
  rewrite feed_active_cons by done.
  assert (body_buffer d = []) as Hb.
  { destruct Hok as (_ & _ & Hok). rewrite Em in Hok. destruct Hok as (_ & _ & Hb & _).
    unfold body_inv in Hb. by rewrite Ee in Hb. }
  assert (feed_active d [b] = Ok ([], set_body d (header_buffer d ++ [b]) [] None)) as E1.
  { unfold feed_active. rewrite Em. unfold feed_content_length. cbn [length Nat.mul Nat.add].
    cbn [content_length_loop]. rewrite Ee. unfold blen in *. rewrite length_app in Hlen.
    cbn [length] in Hlen. rewrite (proj2 (Z.leb_gt _ _)) by lia.
    rewrite (Hopen (header_buffer d ++ [b])) by (exists h; by rewrite <-app_assoc).
    by rewrite Hb. }
  rewrite E1. apply feed_active_byte in E1; [|done].
  rewrite IH; cbn; [by rewrite <-app_assoc|apply E1|done|done|by rewrite <-app_assoc..].
Qed.

Lemma feed_payload (fuel : nat) (d : FrameDecoder) (payload : list Z) :
  expected_body_bytes d = Some (blen payload) → body_buffer d = [] → payload ≠ [] →
  content_length_loop (S fuel) d payload =
  Ok ([{| f_payload := payload; f_raw := header_buffer d ++ payload; f_mode := ContentLength |}],
      set_body d [] [] None).
Proof.
  intros Ee Hb Hne. destruct payload as [|c payload]; [done|]. cbn [content_length_loop].
  rewrite Ee, Hb. cbn [app].
  assert (Z.to_nat (saturating_sub (blen (c :: payload)) (blen [])) = length (c :: payload)) as ->
    by (unfold saturating_sub, blen; cbn [length]; lia).
  rewrite firstn_all, skipn_all, Z.eqb_refl. by rewrite content_length_nil.
Qed.

Lemma feed_frame (d : FrameDecoder) (f : DecodedFrame) :
  decoder_ok d → active_mode d = Some (f_mode f) → pending d = [] →
  frame_ok (d_max_frame_bytes d) (d_max_header_bytes d) f →
  feed_active d (f_raw f) = Ok ([f], d).
Proof.
  intros Hok Em Hpend [Hmax Hf]. unfold pending in Hpend.
  apply app_nil in Hpend as [Hauto Hpend]. apply app_nil in Hpend as [Hn Hpend].
  apply app_nil in Hpend as [Hh Hb].
  destruct (f_mode f) eqn:Ef; [| |done].
  - destruct Hf as (line & Hlf & ->). unfold feed_active. rewrite Em. unfold feed_newline.
    cbn [f_raw newline_frame]. rewrite (newline_loop_line line []) by done.
    rewrite (check_completed_move d), Hn. cbn [app].
    rewrite check_completed_payload, (proj2 (Z.ltb_ge _ _)) by (done || apply Hok).
    cbn. destruct d; simpl in *; by subst.
  - destruct Hf as (h & Hraw & h0 & b & -> & Hopen & Hc & Hlen & Hp).
    assert (expected_body_bytes d = None) as Ee.
    { destruct Hok as (_ & _ & Hok). rewrite Em in Hok. destruct Hok as (_ & _ & _ & Hok).
      destruct (expected_body_bytes d) as [n|]; [|done]. destruct Hok as [(? & ? & Hcl & _) _].
      rewrite Hh in Hcl. by apply app_cons_not_nil in Hcl. }
    assert (blen (h0 ++ [b]) = blen h0 + 1) as Hlen0
      by (unfold blen; rewrite length_app; simpl; lia).
    rewrite Hraw, <-app_assoc, feed_active_app by done.
    rewrite feed_header by (rewrite ?Hh; try done; cbn; lia). rewrite Hh. cbn [app].
    unfold feed_active. cbn [active_mode set_body]. rewrite Em. unfold feed_content_length.
    remember (S (length (f_payload f))) as k eqn:Hk.
    rewrite (content_length_fuel _ (S k)) by (done || (cbn [length]; lia)).
    cbn [content_length_loop]. cbn [expected_body_bytes set_body header_buffer body_buffer
      d_max_header_bytes d_max_frame_bytes].
    rewrite (proj2 (Z.leb_gt _ _)), Hc, Hp, (proj2 (Z.ltb_ge _ _)) by lia.
    assert (set_body d [] [] None = d) as Hd by (destruct d; simpl in *; by subst).
    change (set_body (set_body d _ _ _) ?x ?y ?z) with (set_body d x y z).
    destruct f as [payload raw mode]. cbn [f_payload f_raw f_mode] in *. subst raw mode.
    destruct payload as [|c payload]; [cbn; by rewrite content_length_nil, Hd, app_nil_r|].
    rewrite (proj2 (Z.eqb_neq _ 0)) by (unfold blen; cbn [length]; lia).
    rewrite Hk, feed_payload by done.
    change (set_body (set_body d _ _ _) ?x ?y ?z) with (set_body d x y z).
    by rewrite Hd.
Qed.

Lemma feed_frames (d : FrameDecoder) (fs : list DecodedFrame) :
  decoder_ok d → pending d = [] → active_mode d ≠ None →
  Forall (frame_ok (d_max_frame_bytes d) (d_max_header_bytes d)) fs →
  Forall (λ f, active_mode d = Some (f_mode f)) fs →
  feed d (concat (f_raw <$> fs)) = Ok (fs, d).
Proof.
  intros Hok Hp Hm Hfs Hms. destruct (active_mode d) as [m|] eqn:Em; [|done].
  assert (∀ l, feed d l = feed_active d l) as -> by (intros l; unfold feed; by rewrite Em).
  induction fs as [|f fs IH]; [by apply (feed_active_nil d m)|].
  apply Forall_cons in Hfs as [Hf Hfs]. apply Forall_cons in Hms as [Hfm Hms].
  cbn [fmap list_fmap concat]. rewrite feed_active_app, feed_frame by (done || by rewrite Em).
  rewrite IH by done. done.
Qed.

(** A decoder between two frames: any selection of the frames another decoder with its limits
    and its mode has read decodes to exactly that selection. *)
Definition between_frames (d : FrameDecoder) : Prop := decoder_ok d ∧ pending d = [].

Lemma with_header_limit_ok (mode : FramingMode) (mf mh : Z) :
  between_frames (with_header_limit mode mf mh).
Proof.
  split; [|done]. split; [cbn; lia|]. split; [cbn; lia|]. cbn.
  assert (open_header []) by (intros p Hp; by apply prefix_nil_inv in Hp as ->).
  destruct mode; cbn; unfold newline_inv, body_inv, blen; cbn; repeat split; try done; try lia.
  set_solver.
Qed.

Lemma pending_bounded (d : FrameDecoder) :
  decoder_ok d → blen (pending d) ≤ d_max_frame_bytes d + d_max_header_bytes d.
Proof.
  intros (Hf & Hh & Hok). unfold pending.
  destruct (active_mode d) as [[]|]; [| |done|].
  - destruct Hok as (-> & Hn & _ & -> & -> & _). unfold newline_inv, blen in *.
    rewrite !app_nil_r. cbn [app]. lia.
  - destruct Hok as (-> & -> & Hb & He). unfold body_inv, blen in *. cbn [app].
    rewrite length_app. destruct (expected_body_bytes d) as [n|].
    + destruct He as [(h & b & _ & _ & _ & Hl & _) Hn]. unfold blen in Hl. lia.
    + rewrite Hb. destruct He as [_ Hl]. cbn. lia.
  - destruct Hok as (_ & Hu & -> & -> & -> & _). apply undetermined_true in Hu as [_ Hu].
    unfold blen. rewrite !app_nil_r. change (length CONTENT_LENGTH_PREFIX) with 15%nat in Hu. lia.
Qed.

(** C33: What the broker forwards is what it has read.  The receiver of the raw bytes of any
    selection of the decoded frames, at a frame boundary and with the decoder's limits and
    mode, decodes exactly the selected frames; every byte read is in a frame or held back, and
    what is held back is within the limits. *)
Theorem forwarded_frames_decode (d d' r : FrameDecoder) (bytes : list Z)
    (fs selected : list DecodedFrame) :
  decoder_ok d → feed d bytes = Ok (fs, d') →
  between_frames r → d_max_frame_bytes r = d_max_frame_bytes d →
  d_max_header_bytes r = d_max_header_bytes d → active_mode r = active_mode d' →
  selected ⊆ fs →
  feed r (concat (f_raw <$> selected)) = Ok (selected, r) ∧
  pending d ++ bytes = concat (f_raw <$> fs) ++ pending d' ∧
  blen (pending d') ≤ d_max_frame_bytes d + d_max_header_bytes d.
Proof.
  intros Hok Hfeed [Hr Hp] Hf Hh Hm Hsel. apply feed_preserves in Hfeed; [|done].
  destruct Hfeed as [A1 A2 A3 _ A5 A6 A7]. split; [|split; [done|]].
  - rewrite Forall_forall in A6. rewrite Forall_forall in A7.
    assert (Forall (frame_ok (d_max_frame_bytes r) (d_max_header_bytes r)) selected) as Hsok.
    { rewrite Hf, Hh. apply Forall_forall. auto. }
    assert (Forall (λ f, active_mode r = Some (f_mode f)) selected) as Hsm.
    { rewrite Hm. apply Forall_forall. auto. }
    destruct (active_mode r) as [m|] eqn:Er; [apply feed_frames; by rewrite ?Er|].
    destruct selected; [|by apply Forall_cons in Hsm as [? _]].
    rewrite feed_auto by done. unfold pending in Hp. apply app_nil in Hp as [Ha _].
    cbn. rewrite Ha. cbn. by destruct r; simpl in *; subst.
  - rewrite <-A2, <-A3. by apply pending_bounded.
Qed.

(** ** Encoding *)

Definition newlines (s : list Z) : nat := length (filter (λ b, b = ch_lf) s).

Lemma newlines_app (s t : list Z) : newlines (s ++ t) = (newlines s + newlines t)%nat.
Proof. unfold newlines. by rewrite filter_app, length_app. Qed.

Lemma newlines_0 (s : list Z) : ch_lf ∉ s → newlines s = 0%nat.
Proof.
  induction s as [|b s IH]; [done|]. rewrite not_elem_of_cons. intros [Hb Hs].
  unfold newlines in *. rewrite filter_cons_False by congruence. auto.
Qed.

(** A complete header has two newlines. *)
Lemma header_complete_newlines (h : list Z) : header_complete h = true → (2 ≤ newlines h)%nat.
Proof.
  unfold header_complete. rewrite orb_true_iff, !ends_with_true.
  intros [[r ->]|[r ->]]; rewrite newlines_app;
    [change (newlines crlf2) with 2%nat|change (newlines _) with 2%nat at 2]; lia.
Qed.

Lemma open_header_newlines (h : list Z) : (newlines h < 2)%nat → open_header h.
Proof.
  intros Hn p [k ->]. destruct (header_complete p) eqn:E; [|done].
  apply header_complete_newlines in E. rewrite newlines_app in Hn. lia.
Qed.

Lemma replace_crlf_text (t r : list Z) : ch_cr ∉ t → replace_crlf (t ++ r) = t ++ replace_crlf r.
Proof.
  induction t as [|b t IH]; [done|]. rewrite not_elem_of_cons. intros [Hb Ht].
  cbn [app]. rewrite <-(IH Ht). unfold ch_cr in Hb.
  destruct b as [|p|]; [done| |done]. repeat (destruct p as [p|p|]; try done).
Qed.

Lemma trim_end_matches_snoc (c b : Z) (t : list Z) (n : nat) :
  b ≠ c → trim_end_matches c ((t ++ [b]) ++ replicate n c) = t ++ [b].
Proof.
  intros Hb. unfold trim_end_matches. rewrite reverse_app, reverse_snoc, reverse_replicate.
  assert (trim_start_matches c (replicate n c ++ b :: reverse t) = b :: reverse t) as ->.
  { induction n as [|n IH]; cbn; [by rewrite (proj2 (Z.eqb_neq b c))|by rewrite Z.eqb_refl]. }
  by rewrite reverse_cons, reverse_involutive.
Qed.

Definition content_length_line (n : Z) : list Z := str "Content-Length: " ++ show_dec n.

Lemma digits_not (c : Z) (ds : list Z) :
  forallb is_ascii_digit ds = true → c < 48 ∨ 57 < c → c ∉ ds.
Proof.
  intros Hd Hc Hin. rewrite forallb_forall in Hd. apply list_elem_of_In in Hin.
  apply Hd, in_range_true in Hin. lia.
Qed.

Lemma trim_blank_digits (ds : list Z) :
  forallb is_ascii_digit ds = true → trim_blank (ch_space :: ds) = ds.
Proof.
  assert (∀ l, forallb is_ascii_digit l = true → trim_start_blank l = l) as Hid.
  { intros [|b l]; [done|]. cbn. rewrite andb_true_iff. intros [Hb _].
    apply in_range_true in Hb. unfold ch_space, ch_tab.
    rewrite (proj2 (Z.eqb_neq b 32)), (proj2 (Z.eqb_neq b 9)) by lia. done. }
  intros Hd. unfold trim_blank.
  change (trim_start_blank (ch_space :: ds)) with (trim_start_blank ds).
  rewrite (Hid ds) by done. rewrite Hid by (by rewrite forallb_reverse).
  apply reverse_involutive.
Qed.

Lemma parse_content_length_encoded (n : Z) :
  0 ≤ n ≤ u64_max → parse_content_length (content_length_line n ++ crlf2) = Ok n.
Proof.
  intros Hn. destruct (show_dec_canonical n) as (Hp & Hd & Hne & Hc); [lia|].
  unfold parse_content_length, content_length_line. set (ds := show_dec n) in *. clearbody ds.
  assert (forallb is_ascii ds = true) as Hascii.
  { apply forallb_forall. intros b Hb. rewrite forallb_forall in Hd. apply Hd, in_range_true in Hb.
    apply in_range_true. lia. }
  rewrite from_utf8_ascii by (rewrite !forallb_app, Hascii; done). cbn [ok_or].
  assert (∀ c, c ∉ str "Content-Length: " → c < 48 ∨ 57 < c → c ∉ str "Content-Length: " ++ ds)
    as Hnot.
  { intros c Hc1 Hc2. rewrite elem_of_app. intros [H|H]; [done|]. by eapply digits_not. }
  rewrite replace_crlf_text by (apply Hnot; [vm_compute; set_solver|left; done]).
  change (replace_crlf crlf2) with (replicate 2 ch_lf).
  destruct ds as [|b ds _] using rev_ind; [done|].
  rewrite app_assoc, trim_end_matches_snoc, <-app_assoc.
  2: { intros ->. by rewrite forallb_app, andb_comm in Hd. }
  rewrite split_on_none by (apply Hnot; [vm_compute; set_solver|left; done]).
  cbn [header_lines].
  assert (split_once ch_colon (str "Content-Length: " ++ ds ++ [b]) =
    Some (str "Content-Length", ch_space :: ds ++ [b])) as ->.
  { apply split_once_Some. split; [done|]. vm_compute. set_solver. }
  change (negb (eq_ignore_ascii_case (str "Content-Length") (str "content-length"))) with false.
  rewrite bool_decide_false by (intros H; by apply H). cbn beta iota.
  rewrite trim_blank_digits by done. unfold parse_length.
  change [ch_zero] with [48]. rewrite bool_decide_false, Hc, Hd, Hp by done. cbn.
  by rewrite (proj2 (Z.ltb_ge _ _)) by lia.
Qed.

(** The payloads an encoder of newline frames may be given. *)
Definition newline_payload (payload : list Z) : bool :=
  forallb (λ b, negb (b =? ch_lf)) payload && negb (ends_with payload [ch_cr]).

Lemma newline_payload_true (payload : list Z) :
  newline_payload payload = true →
  ch_lf ∉ payload ∧
  newline_frame (payload ++ [ch_lf]) =
  {| f_payload := payload; f_raw := payload ++ [ch_lf]; f_mode := Newline |}.
Proof.
  unfold newline_payload. rewrite andb_true_iff, negb_true_iff, forallb_forall. intros [Hlf Hcr].
  split.
  { intros Hin. apply list_elem_of_In, Hlf in Hin. by rewrite Z.eqb_refl in Hin. }
  unfold newline_frame. rewrite length_app. cbn [length].
  replace (length payload + 1 - 1)%nat with (length payload) by lia.
  assert (((0 <? length payload)%nat &&
    bool_decide ((payload ++ [ch_lf]) !! (length payload - 1)%nat = Some ch_cr)) = false) as ->.
  { destruct payload as [|b payload _] using rev_ind; [done|].
    rewrite length_app. cbn [length]. replace (length payload + 1 - 1)%nat with (length payload) by lia.
    assert (((payload ++ [b]) ++ [ch_lf]) !! length payload = Some b) as ->
      by (rewrite <-app_assoc; by apply list_lookup_middle).
    rewrite bool_decide_false; [by rewrite andb_false_r|]. intros [= ->].
    rewrite (proj2 (ends_with_true _ _)) in Hcr; [done|by eexists]. }
  by rewrite take_app_length.
Qed.

Lemma encode_frame_ok (payload : list Z) (mode : FramingMode) (mf mh : Z) :
  mode ≠ Auto → 64 ≤ mh → blen payload ≤ mf → blen payload ≤ u64_max →
  (mode = Newline → newline_payload payload = true) →
  frame_ok mf mh {| f_payload := payload; f_raw := encode_frame payload mode; f_mode := mode |}.
Proof.
  intros Hmode Hmh Hmf Hu Hnl. split; [done|]. destruct mode; [..|done]; cbn.
  - destruct (newline_payload_true payload (Hnl eq_refl)) as [Hlf Heq].
    exists payload. by rewrite Heq.
  - exists (content_length_line (blen payload) ++ crlf2).
    split; [unfold content_length_line; by rewrite <-!app_assoc|].
    exists (content_length_line (blen payload) ++ [ch_cr; ch_lf; ch_cr]), ch_lf.
    assert (0 ≤ blen payload) as Hpos by (unfold blen; lia).
    destruct (show_dec_canonical (blen payload) Hpos) as (_ & Hd & _).
    split; [by rewrite <-app_assoc|]. repeat split.
    + apply open_header_newlines. unfold content_length_line. rewrite !newlines_app.
      rewrite (newlines_0 (show_dec _)) by (eapply digits_not; [done|left; done]).
      change (newlines (str "Content-Length: ")) with 0%nat.
      change (newlines [ch_cr; ch_lf; ch_cr]) with 1%nat. lia.
    + unfold header_complete. apply orb_true_iff. left. apply ends_with_true. by eexists.
    + assert (length (show_dec (blen payload)) ≤ 20)%nat as Hl
        by (apply length_show_dec; [unfold u64_max in *|]; lia).
      unfold content_length_line. unfold blen at 1. rewrite !length_app.
      change (length (str "Content-Length: ")) with 16%nat. change (length crlf2) with 4%nat. lia.
    + apply parse_content_length_encoded. lia.
Qed.

(** What the broker encodes is decoded as it is: a payload within the limits, and without
    a line end in newline mode, encodes to bytes that a decoder at a frame boundary reads as
    that one frame. *)
Theorem encode_frame_roundtrip (payload : list Z) (d : FrameDecoder) (mode : FramingMode) :
  between_frames d → active_mode d = Some mode → 64 ≤ d_max_header_bytes d →
  blen payload ≤ d_max_frame_bytes d → blen payload ≤ u64_max →
  (mode = Newline → newline_payload payload = true) →
  feed d (encode_frame payload mode) =
  Ok ([{| f_payload := payload; f_raw := encode_frame payload mode; f_mode := mode |}], d).
Proof.
  intros [Hok Hp] Em Hmh Hmf Hu Hnl.
  assert (mode ≠ Auto) as Hmode.
  { intros ->. destruct Hok as (_ & _ & Hok). by rewrite Em in Hok. }
  pose proof (encode_frame_ok payload mode _ _ Hmode Hmh Hmf Hu Hnl) as Hf.
  unfold feed. rewrite Em. by apply (feed_frame d _ Hok) in Hf.
Qed.

(** ** Concrete streams *)

(** A [Content-Length] frame cut inside its header, while the mode is still being detected. *)
Lemma feed_app_witness :
  feed (decoder_new Auto 64) (str "Conte" ++ (str "nt-Length: 2" ++ crlf2 ++ str "hi")) =
    (let? ' (f1, d1) := feed (decoder_new Auto 64) (str "Conte") in
     let? ' (f2, d2) := feed d1 (str "nt-Length: 2" ++ crlf2 ++ str "hi") in
     Ok (f1 ++ f2, d2)) ∧
  (∃ d, feed (decoder_new Auto 64) (str "Conte") = Ok ([], d)).
Proof.
  split; [apply (feed_app (decoder_new Auto 64)), with_header_limit_ok|].
  eexists. vm_compute. reflexivity.
Defined.

Definition two_lines : list Z := str "{1}" ++ [ch_cr; ch_lf] ++ str "{2}" ++ [ch_lf] ++ str "{3".

(** Of two lines the second alone is forwarded. *)
Lemma forwarded_frames_decode_witness :
  let f := {| f_payload := str "{2}"; f_raw := str "{2}" ++ [ch_lf]; f_mode := Newline |} in
  ∃ fs d', feed (decoder_new Newline 64) two_lines = Ok (fs, d') ∧
    feed (decoder_new Newline 64) (concat (f_raw <$> [f])) = Ok ([f], decoder_new Newline 64).
Proof.
  intros f. eexists _, _. split; [vm_compute; reflexivity|].
  refine (proj1 (forwarded_frames_decode (decoder_new Newline 64) _ (decoder_new Newline 64)
    two_lines _ [f] _ _ _ _ _ _ _));
    [apply with_header_limit_ok|vm_compute; reflexivity|apply with_header_limit_ok|done|done|done|].
  intros x Hx. apply list_elem_of_singleton in Hx as ->. vm_compute. set_solver.
Defined.

Lemma encode_frame_roundtrip_witness :
  feed (decoder_new ContentLength 64) (encode_frame (str "{}") ContentLength) =
  Ok ([{| f_payload := str "{}"; f_raw := encode_frame (str "{}") ContentLength;
          f_mode := ContentLength |}], decoder_new ContentLength 64).
Proof.
  apply (encode_frame_roundtrip (str "{}") (decoder_new ContentLength 64) ContentLength);
    [apply with_header_limit_ok|done..].
Defined.
