(* ===== verification/McpJson.v ===== *)
(** * The MCP broker: JSON-RPC messages ([crates/sendbox-mcp/src/jsonrpc.rs])

    JSON as [serde_json] reads it, the strict reader that refuses an object with two members
    of one name, and the validation of a JSON-RPC message.

    The reader and the writer of JSON text are [serde_json]'s: an interface.  The theorems show
    that a validated message is unambiguous, every name at every depth of it once, so that
    whoever reads the same text sees the method and the id that were validated; and that its
    kind determines which of its fields are there. *)

From S2P Require Import Prelude RustStr.

(** ** JSON *)

(** [serde_json::Number]: a [u64], a negative [i64], or the bits of an [f64]. *)
Inductive Number : Type :=
| PosInt (n : Z)
| NegInt (n : Z)
| Float (bits : Z).

Definition is_finite (bits : Z) : bool := negb (Z.land (Z.shiftr bits 52) 2047 =? 2047).

(** The syntax of a text, the members of an object in their order.  A [serde_json::Value] is
    one whose objects are sorted by name, without a name twice. *)
Inductive Json : Type :=
| JNull
| JBool (b : bool)
| JNumber (n : Number)
| JString (s : list Z)
| JArray (items : list Json)
| JObject (members : list (list Z * Json)).

(** [serde_json::Map], a [BTreeMap]. *)
Definition Map : Type := list (list Z * Json).

Fixpoint map_get (key : list Z) (m : Map) : option Json :=
  match m with
  | [] => None
  | (k, v) :: m => if bool_decide (k = key) then Some v else map_get key m
  end.

Definition contains_key (key : list Z) (m : Map) : bool := bool_decide (is_Some (map_get key m)).

Fixpoint map_insert (key : list Z) (value : Json) (m : Map) : Map :=
  match m with
  | [] => [(key, value)]
  | (k, v) :: r =>
      if bool_decide (k = key) then (key, value) :: r
      else if bytes_leb key k then (key, value) :: m
      else (k, v) :: map_insert key value r
  end.

Definition as_str (v : Json) : option (list Z) := match v with JString s => Some s | _ => None end.
Definition as_object (v : Json) : option Map := match v with JObject m => Some m | _ => None end.
Definition as_array (v : Json) : option (list Json) :=
  match v with JArray l => Some l | _ => None end.

Definition i64_max : Z := 9223372036854775807.

Definition as_i64 (v : Json) : option Z :=
  match v with
  | JNumber (PosInt n) => if n <=? i64_max then Some n else None
  | JNumber (NegInt n) => Some n
  | _ => None
  end.

(** [serde_json]: the syntax tree of a text, or the reader's error; the text of the member [id]
    of an object ([RawFields]); a string literal; and the text of a value. *)
Class JsonApi : Type := {
  json_syntax : list Z → result (list Z) Json;
  jsonc_syntax : list Z → result (list Z) Json;
  raw_fields : list Z → result (list Z) (option (list Z));
  json_string : list Z → list Z;
  json_to_vec : Json → result (list Z) (list Z);
}.

(** What [serde_json] documents: the raw text of a member is there exactly when the member is,
    and it is the text of the member's value. *)
Class JsonLaws (api : JsonApi) : Prop := {
  raw_fields_member text members :
    json_syntax text = Ok (JObject members) → NoDup members.*1 →
    match raw_fields text with
    | Ok None => str "id" ∉ members.*1
    | Ok (Some raw) => ∃ v, (str "id", v) ∈ members ∧ json_syntax raw = Ok v
    | Err _ => False
    end;
}.

(** ** The strict reader *)

(** [visit_map] *)
Definition strict_members (f : Json → result (list Z) Json)
  : list (list Z * Json) → Map → result (list Z) Map :=
  fix go members values :=
    match members with
    | [] => Ok values
    | (key, v) :: members =>
        if contains_key key values
        then Err (str "duplicate object key '" ++ key ++ str "'")
        else let? v := f v in go members (map_insert key v values)
    end.

(** [StrictValueVisitor] *)
Fixpoint strict_value (j : Json) : result (list Z) Json :=
  match j with
  | JNumber (Float bits) =>
      if is_finite bits then Ok (JNumber (Float bits)) else Err (str "non-finite JSON number")
  | JArray items => let? items := collect strict_value items in Ok (JArray items)
  | JObject members => let? m := strict_members strict_value members [] in Ok (JObject m)
  | JNull | JBool _ | JNumber _ | JString _ => Ok j
  end.

(** [serde_json::from_str::<Value>]: of two members of one name the last one counts. *)
Fixpoint to_value (j : Json) : Json :=
  match j with
  | JArray items => JArray (to_value <$> items)
  | JObject members =>
      JObject (foldl (λ m p, map_insert p.1 p.2 m) [] ((λ p, (p.1, to_value p.2)) <$> members))
  | JNull | JBool _ | JNumber _ | JString _ => j
  end.

(** ** Messages *)

Inductive MessageKind : Type := Request | Notification | Response | Error_.
Inductive IdPresence : Type := IdMissing | IdPresent (raw : list Z).

#[global] Instance MessageKind_eq_dec : EqDecision MessageKind.
Proof. solve_decision. Defined.

Definition id_raw (id : IdPresence) : option (list Z) :=
  match id with IdMissing => None | IdPresent raw => Some raw end.

Record ValidatedMessage : Type := {
  m_kind : MessageKind;
  m_method : option (list Z);
  m_id : IdPresence;
  m_subject : option (list Z);
  m_error_code : option Z;
  m_error_message : option (list Z);
}.

Inductive JsonRpcError : Type :=
| InvalidUtf8
| InvalidJson (why : list Z)
| BatchUnsupported
| NotObject
| InvalidVersion
| InvalidShape (why : list Z)
| InvalidId.

Section Message.
Context `{Api : JsonApi}.

Definition parse_strict_value (text : list Z) (jsonc : bool) : result (list Z) Json :=
  let? j := if jsonc then jsonc_syntax text else json_syntax text in
  strict_value j.

Definition validate_raw_id (raw : list Z) : result JsonRpcError () :=
  if bool_decide (raw = str "null") then Ok tt
  else if starts_with raw [ch_dquote] then
    match json_syntax raw with Ok (JString _) => Ok tt | _ => Err InvalidId end
  else
    let digits := default raw (strip_prefix [ch_hyphen] raw) in
    if bool_decide (digits = []) || ((1 <? length digits)%nat && starts_with digits [ch_zero]) ||
       negb (forallb is_ascii_digit digits)
    then Err InvalidId else Ok tt.

(** The name of the tool, the resource or the referenced prompt. *)
Definition message_subject (object : Map) : option (list Z) :=
  match map_get (str "params") object ≫= as_object with
  | None => None
  | Some params =>
      match map_get (str "name") params ≫= as_str with
      | Some name => Some name
      | None =>
          match map_get (str "uri") params ≫= as_str with
          | Some uri => Some uri
          | None => ((map_get (str "ref") params ≫= as_object) ≫= map_get (str "name")) ≫= as_str
          end
      end
  end.

Definition validate_response (object : Map) (id : IdPresence)
  : result JsonRpcError ValidatedMessage :=
  match id with
  | IdMissing => Err (InvalidShape (str "responses must contain an id"))
  | IdPresent _ =>
      if contains_key (str "params") object
      then Err (InvalidShape (str "responses cannot contain params"))
      else
        let has_result := contains_key (str "result") object in
        let has_error := contains_key (str "error") object in
        if Bool.eqb has_result has_error
        then Err (InvalidShape (str "responses must contain exactly one of result or error"))
        else if has_error then
          let? error := ok_or (map_get (str "error") object ≫= as_object)
                          (InvalidShape (str "error must be an object")) in
          let? code := ok_or (map_get (str "code") error ≫= as_i64)
                         (InvalidShape (str "error.code must be an integer")) in
          let? message := ok_or (map_get (str "message") error ≫= as_str)
                            (InvalidShape (str "error.message must be a string")) in
          Ok {| m_kind := Error_; m_method := None; m_id := id; m_subject := None;
                m_error_code := Some code; m_error_message := Some message |}
        else
          Ok {| m_kind := Response; m_method := None; m_id := id; m_subject := None;
                m_error_code := None; m_error_message := None |}
  end.

Definition validate_object (object : Map) (id : IdPresence)
  : result JsonRpcError ValidatedMessage :=
  let? method :=
    match map_get (str "method") object with
    | Some (JString method) =>
        if bool_decide (method = [])
        then Err (InvalidShape (str "method must be a non-empty string")) else Ok (Some method)
    | Some _ => Err (InvalidShape (str "method must be a non-empty string"))
    | None => Ok None
    end in
  check?
    match map_get (str "params") object with
    | None | Some (JObject _) | Some (JArray _) => Ok tt
    | Some _ => Err (InvalidShape (str "params must be an object or array"))
    end in
  match method with
  | Some method =>
      if contains_key (str "result") object || contains_key (str "error") object
      then Err (InvalidShape (str "requests and notifications cannot contain result or error"))
      else
        Ok {| m_kind := match id with IdMissing => Notification | IdPresent _ => Request end;
              m_method := Some method; m_id := id; m_subject := message_subject object;
              m_error_code := None; m_error_message := None |}
  | None => validate_response object id
  end.

Definition validate_message (payload : list Z) : result JsonRpcError ValidatedMessage :=
  let? text := ok_or (from_utf8 payload) InvalidUtf8 in
  let? value := map_err InvalidJson (parse_strict_value text false) in
  match value with
  | JArray _ => Err BatchUnsupported
  | JObject object =>
      if negb (bool_decide (map_get (str "jsonrpc") object ≫= as_str = Some (str "2.0")))
      then Err InvalidVersion
      else
        let? raw := map_err InvalidJson (raw_fields text) in
        let? id :=
          match raw with
          | None => Ok IdMissing
          | Some raw => check? validate_raw_id raw in Ok (IdPresent raw)
          end in
        validate_object object id
  | _ => Err NotObject
  end.

(** [json_text] writes the double quote of a JSON text as a single one. *)
Definition json_text (s : string) : list Z :=
  (λ b, if b =? ch_quote then ch_dquote else b) <$> str s.

Definition denial_response (id_raw tool reason : list Z) : list Z :=
  json_text "{'error':{'code':-32001,'data':{'reason':" ++ json_string reason ++
  json_text ",'tool':" ++ json_string tool ++
  json_text "},'message':'Tool call denied by SendBox boundary policy'},'id':" ++ id_raw ++
  json_text ",'jsonrpc':'2.0'}".

End Message.

(** ** Induction on JSON *)

Lemma Json_nested_ind (P : Json → Prop) :
  P JNull → (∀ b, P (JBool b)) → (∀ n, P (JNumber n)) → (∀ s, P (JString s)) →
  (∀ items, Forall P items → P (JArray items)) →
  (∀ members, Forall (λ p, P p.2) members → P (JObject members)) →
  ∀ j, P j.
Proof.
  intros Hnull Hbool Hnum Hstr Harr Hobj. fix IH 1. intros [|b|n|s|items|members].
  - exact Hnull.
  - apply Hbool.
  - apply Hnum.
  - apply Hstr.
  - apply Harr. induction items as [|x items IHl]; constructor; [apply IH|exact IHl].
  - apply Hobj. induction members as [|[k v] members IHl]; constructor; [apply IH|exact IHl].
Qed.

(** ** Objects *)

Lemma map_get_insert (key k : list Z) (value : Json) (m : Map) :
  map_get k (map_insert key value m) = if bool_decide (key = k) then Some value else map_get k m.
Proof.
  induction m as [|[k0 v0] m IH]; cbn; [done|].
  destruct (bool_decide (k0 = key)) eqn:E; bool_to_prop; subst; cbn.
  { by case_bool_decide. }
  destruct (bytes_leb key k0); cbn; [done|]. rewrite IH.
  do 2 case_bool_decide; congruence.
Qed.

Lemma contains_key_false (key : list Z) (m : Map) :
  contains_key key m = false ↔ map_get key m = None.
Proof.
  unfold contains_key. rewrite bool_decide_eq_false, <-eq_None_not_Some. done.
Qed.

(** Every name of every object once. *)
Fixpoint unique_keys (j : Json) : bool :=
  match j with
  | JArray items => forallb unique_keys items
  | JObject members =>
      bool_decide (NoDup members.*1) && forallb (λ p, unique_keys p.2) members
  | JNull | JBool _ | JNumber _ | JString _ => true
  end.

(** What the strict reader accepts as the members of an object. *)
Lemma strict_members_spec (f : Json → result (list Z) Json) (ms : list (list Z * Json))
    (acc m : Map) :
  strict_members f ms acc = Ok m →
  NoDup ms.*1 ∧ (∀ k, k ∈ ms.*1 → map_get k acc = None) ∧
  Forall (λ p, ∃ v, f p.2 = Ok v) ms ∧
  (∀ k v, map_get k m = Some v ↔ map_get k acc = Some v ∨ ∃ j, (k, j) ∈ ms ∧ f j = Ok v).
Proof.
  revert acc. induction ms as [|[key j] ms IH]; intros acc H; cbn in H.
  { injection H as <-. split; [constructor|]. split; [set_solver|]. split; [done|]. set_solver. }
  destruct (contains_key key acc) eqn:Ek; [done|]. apply contains_key_false in Ek.
  destruct (f j) as [v|] eqn:Ef; [|done]. apply IH in H as (Hnd & Hacc & Hall & Hget).
  assert (key ∉ ms.*1) as Hkey.
  { intros Hin%Hacc. rewrite map_get_insert, bool_decide_true in Hin by done. done. }
  split; [cbn; by constructor|]. split.
  { intros k. cbn. rewrite elem_of_cons. intros [->|Hin]; [done|].
    specialize (Hacc k Hin). rewrite map_get_insert in Hacc. by case_bool_decide. }
  split; [constructor; eauto|]. intros k w. rewrite Hget, map_get_insert.
  setoid_rewrite elem_of_cons. case_bool_decide as Hk; subst; split.
  - intros [[= <-]|(j' & Hin & Hf)]; eauto.
  - intros [Hn|(j' & [[= ->]|Hin] & Hf)]; [congruence|left; congruence|eauto].
  - intros [Hn|(j' & Hin & Hf)]; eauto.
  - intros [Hn|(j' & [[= -> ->]|Hin] & Hf)]; [eauto|done|eauto].
Qed.

Lemma collect_Forall {E A B : Type} (f : A → result E B) (l : list A) (r : list B) :
  collect f l = Ok r → Forall2 (λ x y, f x = Ok y) l r.
Proof.
  revert r. induction l as [|x l IH]; intros r; cbn; [intros [= <-]; constructor|].
  destruct (f x) eqn:E1; [|done]. destruct (collect f l); [|done]. intros [= <-].
  constructor; auto.
Qed.

(** The strict reader refuses a name that occurs twice, at any depth. *)
Lemma strict_value_unique (j v : Json) : strict_value j = Ok v → unique_keys j = true.
Proof.
  revert v. induction j as [| | | |items IH|members IH] using Json_nested_ind;
    intros v H; cbn [unique_keys]; try done.
  - cbn [strict_value] in H. destruct (collect strict_value items) as [r|] eqn:Ec; [|done].
    apply collect_Forall in Ec. clear H.
    induction Ec as [|x y items r Hx Hr IHr]; [done|]. apply Forall_cons in IH as [IHx IH].
    cbn [forallb]. rewrite (IHx y) by done. auto.
  - cbn [strict_value] in H. destruct (strict_members _ _ _) as [m|] eqn:Em; [|done].
    apply strict_members_spec in Em as (Hnd & _ & Hall & _).
    rewrite bool_decide_true by done. cbn [andb]. clear H Hnd.
    induction members as [|[k x] members IHm]; [done|].
    apply Forall_cons in IH as [IHx IH]. apply Forall_cons in Hall as [[y Hy] Hall].
    cbn [forallb]. cbn in IHx, Hy |- *. rewrite (IHx y) by done. auto.
Qed.

Lemma strict_value_string (j : Json) (s : list Z) :
  strict_value j = Ok (JString s) ↔ j = JString s.
Proof.
  split; [|by intros ->]. destruct j as [|b|n|t|items|members]; cbn; try congruence.
  - destruct n; try congruence. by destruct (is_finite bits).
  - by destruct (collect _ _).
  - by destruct (strict_members _ _ _).
Qed.

(** The lenient reader agrees with the strict one where that accepts. *)
Lemma strict_value_lenient (j v : Json) : strict_value j = Ok v → to_value j = v.
Proof.
  revert v. induction j as [| |n| |items IH|members IH] using Json_nested_ind;
    intros v H; cbn [strict_value to_value] in *; try congruence.
  - destruct n; try congruence. destruct (is_finite bits); congruence.
  - destruct (collect strict_value items) as [r|] eqn:Ec; [|done]. injection H as <-. f_equal.
    apply collect_Forall in Ec. induction Ec as [|x y items r Hx Hr IHr]; [done|].
    apply Forall_cons in IH as [IHx IH]. cbn. f_equal; auto.
  - destruct (strict_members _ _ _) as [m|] eqn:Em; [|done]. injection H as <-. f_equal.
    revert Em. generalize (@nil (list Z * Json)) as acc.
    induction members as [|[k x] members IHm]; intros acc Em; cbn in *; [congruence|].
    apply Forall_cons in IH as [IHx IH]. destruct (contains_key k acc); [done|].
    destruct (strict_value x) as [y|] eqn:Ex; [|done]. cbn in IHx. rewrite (IHx y) by done. auto.
Qed.

(** ** Validated messages *)

(** The fields a message of each kind has. *)
Definition message_ok (m : ValidatedMessage) : Prop :=
  match m_kind m with
  | Request => is_Some (m_method m) ∧ is_Some (id_raw (m_id m))
  | Notification => is_Some (m_method m) ∧ m_id m = IdMissing
  | Response | Error_ => m_method m = None ∧ is_Some (id_raw (m_id m))
  end.

Section MessageTheorems.
Context `{Api : JsonApi}.

Lemma validate_object_id (object : Map) (id : IdPresence) (m : ValidatedMessage) :
  validate_object object id = Ok m → message_ok m ∧ m_id m = id.
Proof.
  unfold validate_object, validate_response, message_ok. intros H.
  repeat (case_match; try done; simplify_eq/=); split; eauto.
Qed.

(** The object, the id and the message of a validated text. *)
Lemma validate_message_Ok (payload : list Z) (m : ValidatedMessage) :
  validate_message payload = Ok m →
  ∃ members object raw,
    json_syntax payload = Ok (JObject members) ∧
    strict_members strict_value members [] = Ok object ∧
    map_get (str "jsonrpc") object ≫= as_str = Some (str "2.0") ∧
    raw_fields payload = Ok raw ∧
    m_id m = match raw with None => IdMissing | Some raw => IdPresent raw end ∧
    (∀ text, raw = Some text → validate_raw_id text = Ok tt) ∧
    validate_object object (m_id m) = Ok m ∧ message_ok m.
Proof.
  unfold validate_message, parse_strict_value. intros H.
  destruct (from_utf8 payload) as [text|] eqn:Eu; [|done]. apply from_utf8_Some in Eu as ->.
  cbn [ok_or] in H. destruct (json_syntax payload) as [j|] eqn:Ej; [|done].
  destruct (strict_value j) as [v|] eqn:Ev; [|done]. cbn [map_err] in H.
  destruct v as [| | | | |object]; try done.
  destruct j as [|b|n|s|items|members]; cbn in Ev; try done;
    [destruct n; try done; by destruct (is_finite bits)|by destruct (collect _ _)|].
  destruct (strict_members strict_value members []) as [object'|] eqn:Em; [|done].
  injection Ev as ->. case_bool_decide as Hv; [|done]. cbn [negb] in H.
  destruct (raw_fields payload) as [raw|] eqn:Er; [|done]. cbn [map_err] in H.
  exists members, object, raw. repeat (split; [done|]).
  destruct raw as [raw|].
  - destruct (validate_raw_id raw) as [[]|] eqn:Eid; [|done].
    pose proof (validate_object_id _ _ _ H) as [Hok Hid]. rewrite Hid.
    repeat split; try done. by intros text [= <-].
  - pose proof (validate_object_id _ _ _ H) as [Hok Hid]. rewrite Hid. by repeat split.
Qed.

Lemma validate_message_kind (payload : list Z) (m : ValidatedMessage) :
  validate_message payload = Ok m → message_ok m.
Proof. intros (? & ? & ? & _ & _ & _ & _ & _ & _ & _ & H)%validate_message_Ok. done. Qed.

Lemma validate_object_method (object : Map) (id : IdPresence) (m : ValidatedMessage) :
  validate_object object id = Ok m →
  (∀ method, m_method m = Some method ↔ map_get (str "method") object = Some (JString method)) ∧
  (m_method m ≠ None → m_subject m = message_subject object).
Proof.
  unfold validate_object, validate_response. intros H.
  repeat (case_match; try done; simplify_eq/=); split; try done; intros; split; congruence.
Qed.

Lemma strict_get_string (ms : list (list Z * Json)) (object : Map) (k s : list Z) :
  strict_members strict_value ms [] = Ok object →
  map_get k object = Some (JString s) ↔ (k, JString s) ∈ ms.
Proof.
  intros (_ & _ & _ & Hget)%strict_members_spec. rewrite Hget. split.
  - intros [?|(j & Hin & Hj)]; [done|]. by apply strict_value_string in Hj as ->.
  - intros Hin. right. eauto.
Qed.

(** The name the policy judges is the one every reader of the text sees. *)
Lemma message_subject_name (members params : list (list Z * Json)) (object : Map) (name : list Z) :
  strict_members strict_value members [] = Ok object →
  (str "params", JObject params) ∈ members → (str "name", JString name) ∈ params →
  message_subject object = Some name.
Proof.
  intros Hm Hp Hn. pose proof Hm as (_ & _ & Hall & Hget)%strict_members_spec.
  rewrite Forall_forall in Hall. destruct (Hall _ Hp) as [v Hv]. cbn in Hv.
  destruct (strict_members strict_value params []) as [p|] eqn:Ep; [|done]. injection Hv as <-.
  unfold message_subject.
  rewrite (proj2 (Hget (str "params") (JObject p))) by
    (right; exists (JObject params); cbn; by rewrite Ep).
  cbn [mbind option_bind as_object].
  by rewrite (proj2 (strict_get_string params p (str "name") name Ep)).
Qed.

(** C32: A validated message is unambiguous.  Its text is an object with every name at every
    depth once; the version, the method, the id and the name in its parameters, as validated,
    are the members of that object, which every other reader of the text sees too. *)
Theorem validated_unambiguous `{Laws : !JsonLaws Api} (payload : list Z) (m : ValidatedMessage) :
  validate_message payload = Ok m →
  ∃ members,
    json_syntax payload = Ok (JObject members) ∧ unique_keys (JObject members) = true ∧
    (str "jsonrpc", JString (str "2.0")) ∈ members ∧
    (∀ method, m_method m = Some method ↔ (str "method", JString method) ∈ members) ∧
    match m_id m with
    | IdMissing => str "id" ∉ members.*1
    | IdPresent raw => ∃ v, (str "id", v) ∈ members ∧ json_syntax raw = Ok v
    end ∧
    (∀ params name, m_method m ≠ None → (str "params", JObject params) ∈ members →
       (str "name", JString name) ∈ params → m_subject m = Some name).
Proof.
  intros (members & object & raw & Hj & Hm & Hv & Hr & Hid & _ & Ho & _)%validate_message_Ok.
  pose proof (strict_members_spec _ _ _ _ Hm) as (Hnd & _).
  pose proof (validate_object_method _ _ _ Ho) as [Hmeth Hsub].
  exists members. split; [done|]. split.
  { apply (strict_value_unique _ (JObject object)). cbn. by rewrite Hm. }
  split.
  { apply (strict_get_string _ _ _ _ Hm). destruct (map_get _ _) as [[]|]; by simplify_eq/=. }
  split; [intros method; by rewrite Hmeth, (strict_get_string _ _ _ _ Hm)|]. split.
  { pose proof (raw_fields_member _ _ Hj Hnd) as Hraw. rewrite Hr in Hraw. rewrite Hid.
    by destruct raw. }
  intros params name Hne Hp Hn. rewrite Hsub by done. by eapply message_subject_name.
Qed.

End MessageTheorems.

(** ** A concrete reader and writer

    A reader that knows a few texts, and a writer for values without escapes. *)
Module JsonSample.

Record entry : Type := { e_text : list Z; e_json : Json; e_id : option (list Z) }.

Definition table_find (t : list entry) (text : list Z) : option entry :=
  find (λ e, bool_decide (e_text e = text)) t.

Fixpoint join_comma (l : list (list Z)) : list Z :=
  match l with [] => [] | [x] => x | x :: l => x ++ str "," ++ join_comma l end.

Definition quoted (s : list Z) : list Z := [ch_dquote] ++ s ++ [ch_dquote].

Fixpoint write_json (j : Json) : list Z :=
  match j with
  | JNull => str "null"
  | JBool b => if b then str "true" else str "false"
  | JNumber (PosInt n) => show_dec n
  | JNumber (NegInt n) => str "-" ++ show_dec (- n)
  | JNumber (Float _) => str "0.0"
  | JString s => quoted s
  | JArray items => str "[" ++ join_comma (write_json <$> items) ++ str "]"
  | JObject members =>
      str "{" ++ join_comma ((λ p, quoted p.1 ++ str ":" ++ write_json p.2) <$> members) ++ str "}"
  end.

Definition table_syntax (t : list entry) (text : list Z) : result (list Z) Json :=
  match table_find t text with Some e => Ok (e_json e) | None => Err (str "unknown text") end.

Definition table_api (t : list entry) : JsonApi := {|
  json_syntax := table_syntax t;
  jsonc_syntax := table_syntax t;
  raw_fields text :=
    match table_find t text with Some e => Ok (e_id e) | None => Err (str "unknown text") end;
  json_string := quoted;
  json_to_vec v := Ok (write_json v);
|}.

Definition entry_ok (t : list entry) (e : entry) : Prop :=
  match e_json e, e_id e with
  | JObject members, None => str "id" ∉ members.*1
  | JObject members, Some raw =>
      ∃ v, (str "id", v) ∈ members ∧ table_syntax t raw = Ok v
  | _, _ => True
  end.

Lemma table_laws (t : list entry) : Forall (entry_ok t) t → JsonLaws (table_api t).
Proof.
  intros Hall. constructor. intros text members Hj _. cbn in *. unfold table_syntax in Hj.
  destruct (table_find t text) as [e|] eqn:Ef; [|done]. injection Hj as Hj.
  apply find_some in Ef as [Hin _]. rewrite Forall_forall in Hall.
  specialize (Hall e (proj2 (list_elem_of_In _ _) Hin)). unfold entry_ok in Hall.
  rewrite Hj in Hall. by destruct (e_id e).
Qed.

Definition version : list Z * Json := (str "jsonrpc", JString (str "2.0")).
Definition field (k s : string) : list Z * Json := (str k, JString (str s)).

Definition call_text (id tool : string) : list Z :=
  json_text "{'jsonrpc':'2.0','id':" ++ str id ++
  json_text ",'method':'tools/call','params':{'name':'" ++ str tool ++ json_text "'}}".
Definition call (n : Z) (id tool : string) : entry :=
  {| e_text := call_text id tool;
     e_json := JObject [version; (str "id", JNumber (PosInt n)); field "method" "tools/call";
                        (str "params", JObject [field "name" tool])];
     e_id := Some (str id) |}.

(** A request with the id [a], written in one way or the other. *)
Definition request_text (id : list Z) (method : string) : list Z :=
  json_text "{'jsonrpc':'2.0','id':" ++ id ++ json_text ",'method':'" ++ str method ++
  json_text "'}".
Definition request (id : list Z) (method : string) : entry :=
  {| e_text := request_text id method;
     e_json := JObject [version; field "id" "a"; field "method" method]; e_id := Some id |}.

Definition plain_id : list Z := json_text "'a'".
Definition escaped_id : list Z := json_text "'\u0061'".

(** The answer to [tools/list], with two tools. *)
Definition tools : Json :=
  JArray [JObject [field "name" "read_file"]; JObject [field "name" "delete_all"]].
Definition answer_text : list Z :=
  json_text "{'jsonrpc':'2.0','id':'a','result':{'tools':[{'name':'read_file'},{'name':'delete_all'}]}}".
Definition answer : entry :=
  {| e_text := answer_text;
     e_json := JObject [version; field "id" "a"; (str "result", JObject [(str "tools", tools)])];
     e_id := Some plain_id |}.

(** A call whose parameters have no name. *)
Definition unnamed_text : list Z :=
  json_text "{'jsonrpc':'2.0','id':1,'method':'tools/call','params':{'uri':'read_file'}}".
Definition unnamed : entry :=
  {| e_text := unnamed_text;
     e_json := JObject [version; (str "id", JNumber (PosInt 1)); field "method" "tools/call";
                        (str "params", JObject [field "uri" "read_file"])];
     e_id := Some (str "1") |}.

Definition texts : list entry :=
  [call 1 "1" "read_file"; call 2 "2" "delete_all"; unnamed;
   request plain_id "ping"; request plain_id "tools/list"; request escaped_id "tools/list"; answer;
   {| e_text := str "1"; e_json := JNumber (PosInt 1); e_id := None |};
   {| e_text := str "2"; e_json := JNumber (PosInt 2); e_id := None |};
   {| e_text := plain_id; e_json := JString (str "a"); e_id := None |};
   {| e_text := escaped_id; e_json := JString (str "a"); e_id := None |}].

#[export] Instance sample_api : JsonApi := table_api texts.

#[export] Instance sample_laws : JsonLaws sample_api.
Proof.
  apply table_laws.
  repeat constructor; eexists;
    (split; [do 1 right; left; reflexivity || right; left; reflexivity|vm_compute; reflexivity]).
Qed.

Lemma validated_unambiguous_witness :
  ∃ m, validate_message (call_text "1" "read_file") = Ok m ∧
    m_subject m = Some (str "read_file") ∧
    ∃ members, json_syntax (call_text "1" "read_file") = Ok (JObject members) ∧
      unique_keys (JObject members) = true.
Proof.
  eexists. split; [vm_compute; reflexivity|]. split; [done|].
  edestruct (validated_unambiguous (call_text "1" "read_file")) as (members & H1 & H2 & _);
    [vm_compute; reflexivity|]. by exists members.
Defined.

End JsonSample.
