(* ===== verification/McpPolicy.v ===== *)
(** * The MCP broker: tool policy ([crates/sendbox-mcp/src/policy.rs])

    Which server policy a command or a route selects, whether a tool may be called, what is
    done with a message of the client, and which tools of a [tools/list] answer are shown.

    [SHA-256] and the [url] crate are parameters.  The theorems show that the decision on a
    tool is deny rules first, then allow rules, then the default, as the patterns mean it; that
    a call is forwarded only for a permitted tool and is refused in the way its kind asks for;
    that a filtered list shows exactly the tools a call would be permitted for; and that a
    command selects the one server it names exactly. *)

From S2P Require Import Prelude RustStr Net NetPolicy Glob McpJson.

(** ** The policy document ([crates/sendbox-policy/src/lib.rs]) *)

Inductive ToolTransport : Type := Stdio | StreamableHttp | StreamableHttp2025.

Record ServerToolPolicy : Type := {
  stp_default_action : Action;
  stp_allowlist : list (list Z);
  stp_denylist : list (list Z);
}.

(** The authorization of a stdio server and the HTTP options play no part here. *)
Inductive McpServerPolicy : Type :=
| StdioServer (command : list (list Z)) (tools : ServerToolPolicy)
| HttpServer (url : list Z) (tools : ServerToolPolicy)
| Http2025Server (url : list Z) (tools : ServerToolPolicy).

Record ToolCallPolicy : Type := {
  tcp_transport : ToolTransport;
  tcp_default_action : Action;
  tcp_allowlist : list (list Z);
  tcp_denylist : list (list Z);
  tcp_max_frame_bytes : Z;
  tcp_server_command_patterns : list (list Z);
  tcp_allowed_server_commands : list (list (list Z));
  tcp_servers : list (list Z * McpServerPolicy);
}.

Definition uses_hierarchical_servers (policy : ToolCallPolicy) : bool :=
  negb (bool_decide (length (tcp_servers policy) = 0%nat)).

(** ** Identities *)

Record ServerIdentity : Type := {
  si_id : list Z;
  si_fingerprint : list Z;
  si_transport : ToolTransport;
  si_endpoint : option (list Z);
}.

Record ResolvedServerPolicy : Type := {
  r_identity : ServerIdentity;
  r_tools : ServerToolPolicy;
}.

Record CompiledToolPolicy : Type := {
  c_identity : ServerIdentity;
  c_default_action : Action;
  c_allowlist : list (list Z);
  c_denylist : list (list Z);
}.

Inductive AuditOutcome : Type := Allowed | Denied | Dropped.

#[global] Instance AuditOutcome_eq_dec : EqDecision AuditOutcome.
Proof. solve_decision. Defined.

Record AuditDecision : Type := {
  a_server_id : list Z;
  a_server_fingerprint : list Z;
  a_transport : ToolTransport;
  a_endpoint : option (list Z);
  a_method : list Z;
  a_tool : option (list Z);
  a_outcome : AuditOutcome;
  a_matched_rule : option (list Z);
  a_reason : option (list Z);
}.

Inductive PolicyAction : Type :=
| Forward (d : AuditDecision)
| Respond (response : list Z) (d : AuditDecision)
| Drop (d : AuditDecision)
| Terminate (why : list Z).

Record FilteredToolList : Type := {
  ft_payload : list Z;
  ft_decisions : list AuditDecision;
}.

(** ** Fingerprints *)

Section Fingerprint.
Variable sha256 : list Z → list Z.

Definition hex_digit (n : Z) : Z := if n <? 10 then 48 + n else 87 + n.

Definition sha256_hex (bytes : list Z) : list Z :=
  concat ((λ b, [hex_digit (b / 16); hex_digit (b mod 16)]) <$> sha256 bytes).

(** What is hashed: every part with its length before it. *)
Definition stdio_preimage (command : list (list Z)) : list Z :=
  str "sendbox-mcp-stdio-v1" ++ [0] ++
  concat ((λ part, be_bytes 8 (Z.of_nat (length part)) ++ part) <$> command).

Definition stdio_fingerprint (command : list (list Z)) : list Z :=
  sha256_hex (stdio_preimage command).

Definition http_fingerprint (transport : ToolTransport) (endpoint : list Z) : list Z :=
  let transport :=
    match transport with
    | Stdio => str "stdio"
    | StreamableHttp => str "streamable_http"
    | StreamableHttp2025 => str "streamable_http_2025"
    end in
  sha256_hex (str "sendbox-mcp-http-v1" ++ [0] ++ transport ++ [0] ++ endpoint).

(** ** Resolution *)

(** A parsed [url::Url]. *)
Inductive url_host_kind : Type :=
| HostDomain (domain : list Z)
| HostIpv4 (a : Z)
| HostIpv6 (a : Z).

Record mcp_url : Type := {
  u_scheme : list Z;
  u_username : list Z;
  u_password : option (list Z);
  u_query : option (list Z);
  u_fragment : option (list Z);
  u_host : option url_host_kind;
  u_port_or_known_default : option Z;
  u_path : list Z;
}.

Variable mcp_url_parse : list Z → result (list Z) mcp_url.

Definition normalize_parsed_http_endpoint (url : mcp_url) : result (list Z) (list Z) :=
  if negb (bool_decide (u_scheme url = str "http") || bool_decide (u_scheme url = str "https"))
  then Err (str "MCP endpoint scheme must be http or https")
  else if negb (bool_decide (u_username url = [])) || bool_decide (is_Some (u_password url))
  then Err (str "MCP endpoint URL cannot contain user information")
  else if bool_decide (is_Some (u_query url)) || bool_decide (is_Some (u_fragment url))
  then Err (str "MCP endpoint URL cannot contain a query or fragment")
  else
    let? host :=
      match u_host url with
      | Some (HostDomain domain) => Ok (to_ascii_lowercase domain)
      | Some (HostIpv4 a) => Ok (show_ipv4 a)
      | Some (HostIpv6 a) => Ok (str "[" ++ show_ipv6 a ++ str "]")
      | None => Err (str "MCP endpoint URL must contain a host")
      end in
    let? port := ok_or (u_port_or_known_default url)
                   (str "MCP endpoint URL must have a known port") in
    Ok (u_scheme url ++ str "://" ++ host ++ str ":" ++ show_dec port ++ u_path url).

Definition normalize_mcp_http_endpoint (value : list Z) : result (list Z) (list Z) :=
  let? parsed := map_err (λ e, str "invalid MCP endpoint URL: " ++ e) (mcp_url_parse value) in
  normalize_parsed_http_endpoint parsed.

(** The servers that the command selects. *)
Definition stdio_matches (policy : ToolCallPolicy) (command : list (list Z))
  : list (list Z * ServerToolPolicy) :=
  omap (λ '(id, server),
    match server with
    | StdioServer configured tools =>
        if bool_decide (configured = command) then Some (id, tools) else None
    | _ => None
    end) (tcp_servers policy).

Definition resolve_stdio_server (policy : ToolCallPolicy) (command : list (list Z))
  : result (list Z) ResolvedServerPolicy :=
  if uses_hierarchical_servers policy then
    match stdio_matches policy command with
    | [] => Err (str "MCP server command is not mapped to an allowed server policy")
    | [(id, tools)] =>
        Ok {| r_identity := {| si_id := id; si_fingerprint := stdio_fingerprint command;
                               si_transport := Stdio; si_endpoint := None |};
              r_tools := tools |}
    | _ => Err (str "MCP server command maps to more than one server policy")
    end
  else if negb (existsb (λ configured, bool_decide (configured = command))
                  (tcp_allowed_server_commands policy))
  then Err (str "MCP server command is not exactly approved")
  else
    let fingerprint := stdio_fingerprint command in
    Ok {| r_identity := {| si_id := str "legacy-" ++ take 16 fingerprint;
                           si_fingerprint := fingerprint; si_transport := Stdio;
                           si_endpoint := None |};
          r_tools := {| stp_default_action := tcp_default_action policy;
                        stp_allowlist := tcp_allowlist policy;
                        stp_denylist := tcp_denylist policy |} |}.

Fixpoint server_get (id : list Z) (servers : list (list Z * McpServerPolicy))
  : option McpServerPolicy :=
  match servers with
  | [] => None
  | (k, v) :: servers => if bool_decide (k = id) then Some v else server_get id servers
  end.

Definition resolve_http_server (policy : ToolCallPolicy) (server_id : list Z)
  : result (list Z) ResolvedServerPolicy :=
  let? server := ok_or (server_get server_id (tcp_servers policy))
                   (str "unknown MCP server policy") in
  let? ' (transport, endpoint, tools) :=
    match server with
    | HttpServer url tools => Ok (StreamableHttp, url, tools)
    | Http2025Server url tools => Ok (StreamableHttp2025, url, tools)
    | StdioServer _ _ => Err (str "MCP server policy is not an HTTP transport")
    end in
  let? endpoint := normalize_mcp_http_endpoint endpoint in
  Ok {| r_identity := {| si_id := server_id; si_fingerprint := http_fingerprint transport endpoint;
                         si_transport := transport; si_endpoint := Some endpoint |};
        r_tools := tools |}.

Definition compile_legacy_unbound (config : ToolCallPolicy) : CompiledToolPolicy :=
  {| c_identity := {| si_id := str "legacy-unbound"; si_fingerprint := stdio_fingerprint [];
                      si_transport := Stdio; si_endpoint := None |};
     c_default_action := tcp_default_action config;
     c_allowlist := tcp_allowlist config; c_denylist := tcp_denylist config |}.

End Fingerprint.

Definition compile_resolved (config : ResolvedServerPolicy) : CompiledToolPolicy :=
  {| c_identity := r_identity config;
     c_default_action := stp_default_action (r_tools config);
     c_allowlist := stp_allowlist (r_tools config);
     c_denylist := stp_denylist (r_tools config) |}.

(** ** Decisions *)

Definition policy_decision (p : CompiledToolPolicy) (method : list Z) (tool : option (list Z))
    (outcome : AuditOutcome) (matched_rule reason : option (list Z)) : AuditDecision :=
  {| a_server_id := si_id (c_identity p); a_server_fingerprint := si_fingerprint (c_identity p);
     a_transport := si_transport (c_identity p); a_endpoint := si_endpoint (c_identity p);
     a_method := method; a_tool := tool; a_outcome := outcome; a_matched_rule := matched_rule;
     a_reason := reason |}.

Definition evaluate_tool_for_method (p : CompiledToolPolicy) (tool method : list Z)
  : AuditDecision :=
  let tool := trim tool in
  if bool_decide (tool = []) then
    policy_decision p method None Denied None (Some (str "MCP tool entry is missing a name"))
  else
    match find (glob_matches tool) (c_denylist p) with
    | Some pattern =>
        policy_decision p method (Some tool) Denied (Some pattern)
          (Some (str "Tool '" ++ tool ++ str "' matches deny pattern '" ++ pattern ++ str "'"))
    | None =>
        match find (glob_matches tool) (c_allowlist p) with
        | Some pattern => policy_decision p method (Some tool) Allowed (Some pattern) None
        | None =>
            match c_default_action p with
            | Allow => policy_decision p method (Some tool) Allowed None None
            | Deny =>
                policy_decision p method (Some tool) Denied None
                  (Some (str "Tool '" ++ tool ++ str "' is not in the allowlist"))
            end
        end
    end.

Definition evaluate_tool (p : CompiledToolPolicy) (tool : list Z) : AuditDecision :=
  evaluate_tool_for_method p tool (str "tools/call").

Definition drop_decision (d : AuditDecision) : AuditDecision :=
  {| a_server_id := a_server_id d; a_server_fingerprint := a_server_fingerprint d;
     a_transport := a_transport d; a_endpoint := a_endpoint d; a_method := a_method d;
     a_tool := a_tool d; a_outcome := Dropped; a_matched_rule := a_matched_rule d;
     a_reason := a_reason d |}.

Section Evaluate.
Context `{Api : JsonApi}.

Definition evaluate_message (p : CompiledToolPolicy) (message : ValidatedMessage) : PolicyAction :=
  if negb (bool_decide (m_method message = Some (str "tools/call"))) then
    Forward (policy_decision p (default (str "response") (m_method message)) None Allowed None None)
  else
    match m_subject message with
    | None => Terminate (str "MCP tools/call request is missing params.name")
    | Some tool =>
        let decision := evaluate_tool p tool in
        if bool_decide (a_outcome decision = Allowed) then Forward decision
        else
          let reason := default (str "denied") (a_reason decision) in
          match m_kind message, m_id message with
          | Notification, IdMissing => Drop (drop_decision decision)
          | Request, IdPresent id => Respond (denial_response id (trim tool) reason) decision
          | _, _ => Terminate (str "invalid tools/call JSON-RPC shape")
          end
    end.

(** The name of an entry of the list. *)
Definition tool_name (tool : Json) : option (list Z) :=
  name ← (as_object tool ≫= map_get (str "name")) ≫= as_str;
  if bool_decide (trim name = []) then None else Some name.

(** [names] are those seen so far. *)
Fixpoint filter_tools (p : CompiledToolPolicy) (names : list (list Z)) (tools : list Json)
  : result JsonRpcError (list Json * list AuditDecision) :=
  match tools with
  | [] => Ok ([], [])
  | tool :: tools =>
      let? name := ok_or (tool_name tool)
        (InvalidShape (str "tools/list entries must contain a non-empty string name")) in
      if bool_decide (name ∈ names)
      then Err (InvalidShape (str "tools/list contains duplicate tool name '" ++ name ++ str "'"))
      else
        let decision := evaluate_tool_for_method p name (str "tools/list") in
        let? ' (filtered, decisions) := filter_tools p (name :: names) tools in
        Ok (if bool_decide (a_outcome decision = Allowed) then tool :: filtered else filtered,
            decision :: decisions)
  end.

Definition filter_tools_list_response (p : CompiledToolPolicy) (payload : list Z)
  : result JsonRpcError FilteredToolList :=
  let? message := validate_message payload in
  match m_kind message with
  | Error_ => Ok {| ft_payload := payload; ft_decisions := [] |}
  | Response =>
      let? syntax := map_err InvalidJson (json_syntax payload) in
      let? root := ok_or (as_object (to_value syntax))
                     (InvalidShape (str "tools/list result must be an object")) in
      let? result_ := ok_or (map_get (str "result") root ≫= as_object)
                        (InvalidShape (str "tools/list result must be an object")) in
      let? tools := ok_or (map_get (str "tools") result_ ≫= as_array)
                      (InvalidShape (str "tools/list result.tools must be an array")) in
      let? ' (filtered, decisions) := filter_tools p [] tools in
      let root := map_insert (str "result")
                    (JObject (map_insert (str "tools") (JArray filtered) result_)) root in
      let? payload := map_err InvalidJson (json_to_vec (JObject root)) in
      Ok {| ft_payload := payload; ft_decisions := decisions |}
  | Request | Notification =>
      Err (InvalidShape (str "tools/list result must be a JSON-RPC response"))
  end.

End Evaluate.

(** ** The decision on a tool *)

(** Deny rules first, then allow rules, then the default. *)
Definition tool_permitted (p : CompiledToolPolicy) (tool : list Z) : bool :=
  negb (bool_decide (trim tool = [])) && negb (existsb (glob_matches (trim tool)) (c_denylist p)) &&
  (existsb (glob_matches (trim tool)) (c_allowlist p) ||
   bool_decide (c_default_action p = Allow)).

Lemma find_existsb {A : Type} (f : A → bool) (l : list A) :
  match find f l with Some x => existsb f l = true | None => existsb f l = false end.
Proof. induction l as [|x l IH]; cbn; [done|]. by destruct (f x). Qed.

Lemma evaluate_tool_outcome (p : CompiledToolPolicy) (tool method : list Z) :
  a_outcome (evaluate_tool_for_method p tool method) =
    (if tool_permitted p tool then Allowed else Denied) ∧
  a_method (evaluate_tool_for_method p tool method) = method.
Proof.
  unfold evaluate_tool_for_method, tool_permitted.
  pose proof (find_existsb (glob_matches (trim tool)) (c_denylist p)) as Hd.
  pose proof (find_existsb (glob_matches (trim tool)) (c_allowlist p)) as Ha.
  case_bool_decide; [done|]. cbn [negb andb].
  destruct (find _ (c_denylist p)); rewrite Hd; [done|]. cbn [negb andb].
  destruct (find _ (c_allowlist p)); rewrite Ha; [done|]. by destruct (c_default_action p).
Qed.

(** The tool matches a rule of the list, as the patterns mean it. *)
Definition in_rules (rules : list (list Z)) (tool : list Z) : Prop :=
  ∃ pattern, pattern ∈ rules ∧ matches (glob_atoms (chars pattern)) (chars tool).

Lemma existsb_in_rules (rules : list (list Z)) (tool : list Z) :
  ch_star ∉ chars tool → existsb (glob_matches tool) rules = true ↔ in_rules rules tool.
Proof.
  intros Hs. rewrite existsb_exists. unfold in_rules. setoid_rewrite list_elem_of_In.
  split; intros (pattern & Hin & Hm); exists pattern; (split; [done|]); by apply glob_exact.
Qed.

(** A tool is permitted exactly when its trimmed name is not empty, matches no deny rule,
    and matches an allow rule or the default is to allow; for names without a star, a rule
    matches when its pattern does.  The decision does not depend on the method it is taken
    for. *)
Theorem tool_decision_exact (p : CompiledToolPolicy) (tool method : list Z) :
  ch_star ∉ chars (trim tool) →
  a_outcome (evaluate_tool_for_method p tool method) = Allowed ↔
  trim tool ≠ [] ∧ ¬ in_rules (c_denylist p) (trim tool) ∧
  (in_rules (c_allowlist p) (trim tool) ∨ c_default_action p = Allow).
Proof.
  intros Hs. destruct (evaluate_tool_outcome p tool method) as [-> _].
  rewrite <-!existsb_in_rules by done. unfold tool_permitted.
  destruct (bool_decide (trim tool = [])) eqn:E; bool_to_prop; cbn [negb andb]; [naive_solver|].
  destruct (existsb _ (c_denylist p)); cbn [negb andb]; [naive_solver|].
  destruct (existsb _ (c_allowlist p)); cbn [orb]; [naive_solver|].
  case_bool_decide; naive_solver.
Qed.

(** ** Messages *)

Section Messages.
Context `{Api : JsonApi}.

Lemma message_ok_call (m : ValidatedMessage) (method : list Z) :
  message_ok m → m_method m = Some method →
  (m_kind m = Request ∧ ∃ id, m_id m = IdPresent id) ∨
  (m_kind m = Notification ∧ m_id m = IdMissing).
Proof.
  unfold message_ok. intros Hok Hm. rewrite Hm in Hok.
  destruct (m_kind m); [left|by right; destruct Hok|by destruct Hok..].
  split; [done|]. destruct Hok as [_ [id Hid]]. exists id. by destruct (m_id m); simplify_eq/=.
Qed.

(** What the policy does with a message. *)
Lemma evaluate_message_cases (p : CompiledToolPolicy) (m : ValidatedMessage) :
  message_ok m → m_method m = Some (str "tools/call") →
  match m_subject m with
  | None => ∃ why, evaluate_message p m = Terminate why
  | Some tool =>
      if tool_permitted p tool then evaluate_message p m = Forward (evaluate_tool p tool)
      else match m_id m with
           | IdMissing => evaluate_message p m = Drop (drop_decision (evaluate_tool p tool))
           | IdPresent id =>
               evaluate_message p m =
               Respond (denial_response id (trim tool)
                          (default (str "denied") (a_reason (evaluate_tool p tool))))
                 (evaluate_tool p tool)
           end
  end.
Proof.
  intros Hok Hm. pose proof (message_ok_call m _ Hok Hm) as Hkind.
  unfold evaluate_message. rewrite Hm, bool_decide_true by done. cbn [negb].
  destruct (m_subject m) as [tool|]; [|eauto].
  pose proof (evaluate_tool_outcome p tool (str "tools/call")) as [Ho _].
  change (evaluate_tool_for_method p tool (str "tools/call")) with (evaluate_tool p tool) in Ho.
  rewrite Ho. destruct (tool_permitted p tool); [done|]. rewrite bool_decide_false by done.
  by destruct Hkind as [[-> [id ->]]|[-> ->]].
Qed.

(** A call reaches the server only for a permitted tool.  A forwarded [tools/call] names a
    permitted tool and its recorded decision says so; a refused request is answered with an
    error under its own id, a refused notification is dropped, each with the decision that
    refused it, and a call without a name ends the session. *)
Theorem forwarded_call_permitted (p : CompiledToolPolicy) (m : ValidatedMessage) :
  message_ok m → m_method m = Some (str "tools/call") →
  match evaluate_message p m with
  | Forward d =>
      ∃ tool, m_subject m = Some tool ∧ tool_permitted p tool = true ∧ a_outcome d = Allowed ∧
        a_tool d = Some (trim tool) ∧ a_method d = str "tools/call"
  | Respond response d =>
      ∃ tool id reason, m_subject m = Some tool ∧ tool_permitted p tool = false ∧ m_kind m = Request ∧
        m_id m = IdPresent id ∧ response = denial_response id (trim tool) reason ∧
        a_outcome d = Denied ∧ a_reason d = Some reason
  | Drop d =>
      ∃ tool, m_subject m = Some tool ∧ tool_permitted p tool = false ∧ m_kind m = Notification ∧
        a_outcome d = Dropped
  | Terminate _ => m_subject m = None
  end.
Proof.
  intros Hok Hm. pose proof (evaluate_message_cases p m Hok Hm) as Hcase.
  destruct (m_subject m) as [tool|] eqn:Es; [|by destruct Hcase as [why ->]].
  pose proof (evaluate_tool_outcome p tool (str "tools/call")) as [Ho Hmeth].
  change (evaluate_tool_for_method p tool (str "tools/call")) with (evaluate_tool p tool) in Ho, Hmeth.
  destruct (tool_permitted p tool) eqn:Ep.
  - rewrite Hcase. exists tool. repeat split; try done.
    unfold evaluate_tool, evaluate_tool_for_method in *. repeat case_match; simplify_eq/=; done.
  - destruct (message_ok_call m _ Hok Hm) as [[Hk [id Hid]]|[Hk Hid]];
      rewrite Hid in Hcase; rewrite Hcase.
    + assert (∃ reason, a_reason (evaluate_tool p tool) = Some reason) as [reason Hr].
      { clear - Ho. unfold evaluate_tool, evaluate_tool_for_method in *.
        repeat case_match; simplify_eq/=; eauto. }
      rewrite Hr. exists tool, id, reason. done.
    + by exists tool.
Qed.

(** ** The filtered list *)

(** The entries a call would be permitted for. *)
Definition shown (p : CompiledToolPolicy) (tool : Json) : bool :=
  match tool_name tool with Some name => tool_permitted p name | None => false end.

Lemma filter_tools_spec (p : CompiledToolPolicy) (tools : list Json) (seen : list (list Z))
    (filtered : list Json) (decisions : list AuditDecision) :
  filter_tools p seen tools = Ok (filtered, decisions) →
  filtered = filter (λ t, shown p t = true) tools ∧
  ∃ names, tool_name <$> tools = Some <$> names ∧ NoDup names ∧ (∀ n, n ∈ names → n ∉ seen) ∧
    decisions = (λ n, evaluate_tool_for_method p n (str "tools/list")) <$> names.
Proof.
  revert seen filtered decisions.
  induction tools as [|tool tools IH]; intros seen filtered decisions H; cbn [filter_tools] in H.
  { injection H as <- <-. split; [done|]. exists []. repeat split; [constructor|set_solver]. }
  destruct (tool_name tool) as [name|] eqn:En; [|done]. cbn [ok_or] in H.
  case_bool_decide as Hseen; [done|].
  destruct (filter_tools p (name :: seen) tools) as [[f ds]|] eqn:Ef; [|done].
  apply IH in Ef as (-> & names & Hnames & Hnd & Hns & ->).
  destruct (evaluate_tool_outcome p name (str "tools/list")) as [Ho _]. rewrite Ho in H.
  injection H as <- <-. split.
  { assert (shown p tool = tool_permitted p name) as Hsh by (unfold shown; by rewrite En).
    destruct (tool_permitted p name); [by rewrite filter_cons_True|].
    rewrite filter_cons_False by congruence. done. }
  exists (name :: names). cbn. rewrite En, Hnames. repeat split; [|set_solver].
  constructor; [|done]. intros Hin%Hns. set_solver.
Qed.

(** The client sees of a [tools/list] answer exactly the tools it may call.  An answer that
    is shown is the server's with the entries of the other tools taken out and nothing else
    changed; its names are distinct, and there is a decision for every tool the server listed.
    An error answer is shown as it is. *)
Theorem tools_list_filtered (p : CompiledToolPolicy) (payload : list Z) (out : FilteredToolList) :
  filter_tools_list_response p payload = Ok out →
  (∃ m, validate_message payload = Ok m ∧ m_kind m = Error_ ∧ ft_payload out = payload ∧
     ft_decisions out = []) ∨
  ∃ root result_ tools names,
    json_syntax payload = Ok root ∧
    ∃ members, to_value root = JObject members ∧
      map_get (str "result") members = Some (JObject result_) ∧
      map_get (str "tools") result_ = Some (JArray tools) ∧
      tool_name <$> tools = Some <$> names ∧ NoDup names ∧
      ft_decisions out = (λ n, evaluate_tool_for_method p n (str "tools/list")) <$> names ∧
      json_to_vec
        (JObject (map_insert (str "result")
           (JObject (map_insert (str "tools") (JArray (filter (λ t, shown p t = true) tools))
              result_)) members)) = Ok (ft_payload out).
Proof.
  unfold filter_tools_list_response. intros H.
  destruct (validate_message payload) as [m|] eqn:Em; [|done].
  destruct (m_kind m) eqn:Ek; [done|done| |]; last first.
  { injection H as <-. left. eauto. }
  right. destruct (json_syntax payload) as [root|] eqn:Ej; [|done]. cbn [map_err] in H.
  destruct (to_value root) as [| | | | |members] eqn:Ev; try done. cbn [as_object ok_or] in H.
  destruct (map_get (str "result") members) as [[| | | | |result_]|] eqn:Er; try done.
  cbn [mbind option_bind as_object ok_or] in H.
  destruct (map_get (str "tools") result_) as [[| | | |tools|]|] eqn:Et; try done.
  cbn [mbind option_bind as_array ok_or] in H.
  destruct (filter_tools p [] tools) as [[f ds]|] eqn:Ef; [|done].
  apply filter_tools_spec in Ef as (-> & names & Hnames & Hnd & _ & ->).
  destruct (json_to_vec _) as [bytes|] eqn:Eb; [|done]. cbn [map_err] in H. injection H as <-.
  exists root, result_, tools, names. split; [done|]. exists members. done.
Qed.

End Messages.

(** ** Resolution *)

Section Resolution.
Variable sha256 : list Z → list Z.

Lemma stdio_matches_elem (policy : ToolCallPolicy) (command : list (list Z)) (id : list Z)
    (tools : ServerToolPolicy) :
  (id, tools) ∈ stdio_matches policy command ↔ (id, StdioServer command tools) ∈ tcp_servers policy.
Proof.
  unfold stdio_matches. rewrite list_elem_of_omap. split.
  - intros ([id' server] & Hin & Heq). destruct server; try done.
    case_bool_decide; [|done]. by simplify_eq.
  - intros Hin. exists (id, StdioServer command tools). split; [done|].
    by rewrite bool_decide_true.
Qed.

(** Different commands are hashed as different bytes. *)
Lemma stdio_preimage_inj (c1 c2 : list (list Z)) :
  Forall (λ part, Z.of_nat (length part) ≤ u64_max) c1 →
  Forall (λ part, Z.of_nat (length part) ≤ u64_max) c2 →
  stdio_preimage c1 = stdio_preimage c2 → c1 = c2.
Proof.
  intros H1 H2 H. unfold stdio_preimage in H. do 2 apply app_inv_head in H. revert c2 H2 H.
  induction H1 as [|p1 c1 Hp1 H1 IH]; intros [|p2 c2] H2 H; cbn [fmap list_fmap concat] in H.
  - done.
  - apply (f_equal length) in H. rewrite !length_app, length_be_bytes in H. cbn in H. lia.
  - apply (f_equal length) in H. rewrite !length_app, length_be_bytes in H. cbn in H. lia.
  - apply Forall_cons in H2 as [Hp2 H2]. rewrite <-!app_assoc in H.
    apply app_inj_1 in H as [Hlen H]; [|by rewrite !length_be_bytes].
    assert (length p1 = length p2) as Hl.
    { apply (f_equal be_value) in Hlen.
      rewrite !be_value_be_bytes, !Z.mod_small in Hlen by (unfold u64_max in *; lia). lia. }
    apply app_inj_1 in H as [-> H]; [|done]. f_equal. auto.
Qed.

Lemma stdio_matches_ids (policy : ToolCallPolicy) (command : list (list Z)) :
  NoDup (tcp_servers policy).*1 → NoDup (stdio_matches policy command).*1.
Proof.
  unfold stdio_matches. generalize (tcp_servers policy) as servers.
  induction servers as [|[id server] servers IH]; intros Hnd; [constructor|].
  apply NoDup_cons in Hnd as [Hid Hnd]. cbn. specialize (IH Hnd).
  assert (id ∉ (omap (λ '(id, server), match server with
    | StdioServer configured tools =>
        if bool_decide (configured = command) then Some (id, tools) else None
    | _ => None end) servers).*1) as Hnot.
  { intros ([id' tools] & -> & Hin)%list_elem_of_fmap. apply Hid.
    apply list_elem_of_omap in Hin as ([id2 server2] & Hin & Heq).
    apply list_elem_of_fmap. exists (id2, server2). split; [|done].
    destruct server2; try done. case_bool_decide; by simplify_eq/=. }
  destruct server; cbn; [case_bool_decide; cbn; [by constructor|done]|done|done].
Qed.

(** A command selects a server policy exactly when one entry, and only one, names that
    command; without server entries, exactly when the command is one of those approved.  The
    identity it gets carries the fingerprint of that very command. *)
Theorem resolve_stdio_exact (policy : ToolCallPolicy) (command : list (list Z)) :
  NoDup (tcp_servers policy).*1 →
  (∀ r, resolve_stdio_server sha256 policy command = Ok r →
     si_fingerprint (r_identity r) = stdio_fingerprint sha256 command ∧
     si_transport (r_identity r) = Stdio ∧ si_endpoint (r_identity r) = None) ∧
  if uses_hierarchical_servers policy then
    ∀ id tools,
      (∃ r, resolve_stdio_server sha256 policy command = Ok r ∧ si_id (r_identity r) = id ∧
            r_tools r = tools) ↔
      (id, StdioServer command tools) ∈ tcp_servers policy ∧
      ∀ id' tools', (id', StdioServer command tools') ∈ tcp_servers policy → id' = id
  else
    (∃ r, resolve_stdio_server sha256 policy command = Ok r) ↔
    command ∈ tcp_allowed_server_commands policy.
Proof.
  intros Hnd. apply (stdio_matches_ids _ command) in Hnd. unfold resolve_stdio_server.
  split.
  { intros r. destruct (uses_hierarchical_servers policy).
    - destruct (stdio_matches _ _) as [|[id tools] [|]]; naive_solver.
    - destruct (negb _); naive_solver. }
  destruct (uses_hierarchical_servers policy).
  - intros id tools. setoid_rewrite <-stdio_matches_elem.
    destruct (stdio_matches policy command) as [|[id1 t1] [|[id2 t2] l]].
    + set_solver.
    + rewrite list_elem_of_singleton. split.
      * intros (r & [= <-] & <- & <-). cbn. split; [done|]. intros id' tools'.
        rewrite list_elem_of_singleton. naive_solver.
      * intros [[= -> ->] _]. eexists. done.
    + split; [naive_solver|]. intros [Hin Huniq]. exfalso.
      apply NoDup_cons in Hnd as [Hnot _]. apply Hnot. cbn.
      rewrite (Huniq id1 t1), (Huniq id2 t2) by set_solver. set_solver.
  - destruct (existsb _ _) eqn:E; cbn [negb].
    + apply existsb_exists in E as (c & Hin & Hc). bool_to_prop. subst.
      apply list_elem_of_In in Hin. naive_solver.
    + split; [naive_solver|]. intros Hin. exfalso.
      apply not_true_iff_false in E. apply E, existsb_exists. exists command.
      split; [by apply list_elem_of_In|by apply bool_decide_eq_true].
Qed.

End Resolution.

(** ** A concrete policy *)
Module PolicySample.
Import JsonSample.

Definition rules : ServerToolPolicy :=
  {| stp_default_action := Deny; stp_allowlist := [str "read*"; str "delete_one"];
     stp_denylist := [str "delete*"] |}.

Definition sample_command : list (list Z) := [str "/usr/bin/server"; str "--stdio"].

Definition sample_policy : ToolCallPolicy :=
  {| tcp_transport := Stdio; tcp_default_action := Deny; tcp_allowlist := []; tcp_denylist := [];
     tcp_max_frame_bytes := 1048576; tcp_server_command_patterns := [];
     tcp_allowed_server_commands := [];
     tcp_servers := [(str "files", StdioServer sample_command rules);
                     (str "remote", HttpServer (str "https://example.org/mcp") rules)] |}.

Definition compiled : CompiledToolPolicy :=
  compile_resolved {| r_identity := {| si_id := str "files"; si_fingerprint := [];
                                       si_transport := Stdio; si_endpoint := None |};
                      r_tools := rules |}.

Lemma tool_decision_exact_witness :
  a_outcome (evaluate_tool_for_method compiled (str " delete_one ") (str "tools/call")) = Denied ∧
  (a_outcome (evaluate_tool_for_method compiled (str "read_file") (str "tools/call")) = Allowed ↔
   trim (str "read_file") ≠ [] ∧ ¬ in_rules (c_denylist compiled) (trim (str "read_file")) ∧
   (in_rules (c_allowlist compiled) (trim (str "read_file")) ∨ c_default_action compiled = Allow)).
Proof.
  split; [vm_compute; reflexivity|].
  apply (tool_decision_exact compiled (str "read_file")). vm_compute. set_solver.
Defined.

Definition sample_call (tool : string) : ValidatedMessage :=
  {| m_kind := Request; m_method := Some (str "tools/call"); m_id := IdPresent (str "2");
     m_subject := Some (str tool); m_error_code := None; m_error_message := None |}.

Lemma forwarded_call_permitted_witness :
  (∃ d, evaluate_message compiled (sample_call "read_file") = Forward d) ∧
  ∃ response d, evaluate_message compiled (sample_call "delete_all") = Respond response d ∧
    ∃ tool id reason, m_subject (sample_call "delete_all") = Some tool ∧
      tool_permitted compiled tool = false ∧ m_kind (sample_call "delete_all") = Request ∧
      m_id (sample_call "delete_all") = IdPresent id ∧
      response = denial_response id (trim tool) reason ∧ a_outcome d = Denied ∧
      a_reason d = Some reason.
Proof.
  split; [eexists; vm_compute; reflexivity|].
  pose proof (forwarded_call_permitted compiled (sample_call "delete_all")) as H.
  specialize (H ltac:(split; eauto) eq_refl).
  destruct (evaluate_message compiled (sample_call "delete_all")) eqn:E;
    [vm_compute in E; discriminate| |vm_compute in E; discriminate|vm_compute in E; discriminate].
  exists response, d. split; [reflexivity|]. exact H.
Defined.

Lemma tools_list_filtered_witness :
  ∃ out, filter_tools_list_response compiled answer_text = Ok out ∧
    ft_payload out =
      json_text "{'id':'a','jsonrpc':'2.0','result':{'tools':[{'name':'read_file'}]}}" ∧
    ((∃ m, validate_message answer_text = Ok m ∧ m_kind m = Error_ ∧
        ft_payload out = answer_text ∧ ft_decisions out = []) ∨
     ∃ root result_ tools names, json_syntax answer_text = Ok root ∧
       ∃ members, to_value root = JObject members ∧
         map_get (str "result") members = Some (JObject result_) ∧
         map_get (str "tools") result_ = Some (JArray tools) ∧
         tool_name <$> tools = Some <$> names ∧ NoDup names ∧
         ft_decisions out =
           (λ n, evaluate_tool_for_method compiled n (str "tools/list")) <$> names ∧
         json_to_vec
           (JObject (map_insert (str "result")
              (JObject (map_insert (str "tools")
                 (JArray (filter (λ t, shown compiled t = true) tools)) result_)) members))
         = Ok (ft_payload out)).
Proof.
  eexists. split; [vm_compute; reflexivity|]. split; [vm_compute; reflexivity|].
  apply (tools_list_filtered compiled answer_text). vm_compute. reflexivity.
Defined.

Lemma resolve_stdio_exact_witness :
  ∃ r, resolve_stdio_server (λ _, []) sample_policy sample_command = Ok r ∧
    si_fingerprint (r_identity r) = stdio_fingerprint (λ _, []) sample_command.
Proof.
  eexists. split; [vm_compute; reflexivity|].
  apply (resolve_stdio_exact (λ _, []) sample_policy sample_command).
  - apply (bool_decide_unpack (NoDup _)). vm_compute. reflexivity.
  - vm_compute. reflexivity.
Defined.

(** A call without [params.name] is judged by its [params.uri], and forwarded. *)
Lemma unnamed_call_forwarded :
  ∃ m d, validate_message unnamed_text = Ok m ∧ m_method m = Some (str "tools/call") ∧
    evaluate_message compiled m = Forward d ∧
    ∃ members params, json_syntax unnamed_text = Ok (JObject members) ∧
      (str "params", JObject params) ∈ members ∧ str "name" ∉ params.*1.
Proof.
  eexists _, _. split; [vm_compute; reflexivity|]. split; [reflexivity|].
  split; [vm_compute; reflexivity|]. eexists _, _. split; [vm_compute; reflexivity|].
  split; [do 3 right; left|]. vm_compute. set_solver.
Qed.

(** A deny rule with a star misses a name with a star that its pattern matches. *)
Lemma starred_name_escapes_deny :
  let p := {| c_identity := c_identity compiled; c_default_action := Allow; c_allowlist := [];
              c_denylist := [str "*b"] |} in
  tool_permitted p (str "*ab") = true ∧ in_rules (c_denylist p) (trim (str "*ab")).
Proof.
  split; [vm_compute; reflexivity|]. exists (str "*b"). split; [left|].
  vm_compute. do 2 apply matches_more. apply matches_skip. repeat constructor.
Qed.

End PolicySample.
