(* ===== verification/McpBroker.v ===== *)
(** * The MCP broker ([crates/sendbox-mcp/src/broker.rs])

    The two tasks between a client and an MCP server: the client's frames are validated,
    judged and forwarded or refused; the server's frames are matched with the requests that
    are outstanding, and the answers to [tools/list] are filtered.

    A task is a program of operations, each followed by [?] in the code: an observer, the
    audit log, the two updates of the request tracker under its lock, a write to the server,
    a frame put on the queue to the client, and the shutdown of the server's input.  The tasks
    take turns operation by operation, and the replies of everything but the tracker are up to
    the environment, so that every interleaving and every failure is covered.  The bytes the two
    sides send are arbitrary lists of reads.

    The theorems show that every frame written to the server is one the client sent, validated,
    allowed and audited before, and that the server's own decoder reads exactly those frames;
    that everything put on the queue to the client is the refusal of an audited call or a frame
    of the server that answers an outstanding request or is no answer, filtered when that
    request was [tools/list]; and that what was outstanding is a request the client has sent
    and that has not been answered.

    The process, its standard error, the writer of the queue and the end of a run are in
    [McpRun]. *)

From S2P Require Import Prelude RustStr NetPolicy McpFraming McpJson McpPolicy.

(** ** Definitions *)

Inductive BrokerDirection : Type := ToServer | FromServer.

Inductive BrokerError : Type :=
| CommandNotApproved
| LaunchFailed (why : list Z)
| IoFailed (why : list Z)
| FrameFailed (e : FrameError)
| JsonRpcFailed (e : JsonRpcError)
| PolicyRejected (why : list Z)
| AuditFailed (why : list Z)
| ClientDisconnected
| OutputSaturated
| Cancelled
| ChildExited
| CleanupFailed (why : list Z)
| TaskFailed (why : list Z).

Record RequestTracker : Type := {
  client_requests : gmap (list Z) (list Z);
  server_requests : gmap (list Z) (list Z);
}.

Definition tracker_default : RequestTracker := {| client_requests := ∅; server_requests := ∅ |}.

(** The map is changed also when the id turns out to be taken. *)
Definition track_client_message (t : RequestTracker) (m : ValidatedMessage)
  : RequestTracker * result BrokerError () :=
  match m_kind m with
  | Request =>
      match id_raw (m_id m) with
      | None => (t, Err (PolicyRejected (str "MCP request is missing an id")))
      | Some id =>
          match m_method m with
          | None => (t, Err (PolicyRejected (str "MCP request is missing a method")))
          | Some method =>
              ({| client_requests := <[id := method]> (client_requests t);
                  server_requests := server_requests t |},
               if bool_decide (is_Some (client_requests t !! id))
               then Err (PolicyRejected (str "duplicate outstanding MCP client request id " ++ id))
               else Ok tt)
          end
      end
  | Response | Error_ =>
      match id_raw (m_id m) with
      | None => (t, Err (PolicyRejected (str "MCP response is missing an id")))
      | Some id =>
          ({| client_requests := client_requests t;
              server_requests := delete id (server_requests t) |},
           if bool_decide (is_Some (server_requests t !! id)) then Ok tt
           else Err (PolicyRejected (str "MCP client response id " ++ id ++
                                     str " has no matching server request")))
      end
  | Notification => (t, Ok tt)
  end.

Definition track_server_message (t : RequestTracker) (m : ValidatedMessage)
  : RequestTracker * result BrokerError (option (list Z)) :=
  match m_kind m with
  | Request =>
      match id_raw (m_id m) with
      | None => (t, Err (PolicyRejected (str "MCP request is missing an id")))
      | Some id =>
          match m_method m with
          | None => (t, Err (PolicyRejected (str "MCP request is missing a method")))
          | Some method =>
              ({| client_requests := client_requests t;
                  server_requests := <[id := method]> (server_requests t) |},
               if bool_decide (is_Some (server_requests t !! id))
               then Err (PolicyRejected (str "duplicate outstanding MCP server request id " ++ id))
               else Ok None)
          end
      end
  | Response | Error_ =>
      match id_raw (m_id m) with
      | None => (t, Err (PolicyRejected (str "MCP response is missing an id")))
      | Some id =>
          ({| client_requests := delete id (client_requests t);
              server_requests := server_requests t |},
           match client_requests t !! id with
           | Some method => Ok (Some method)
           | None => Err (PolicyRejected (str "MCP server response id " ++ id ++
                                          str " has no matching client request"))
           end)
      end
  | Notification => (t, Ok None)
  end.

(** ** Programs *)

Inductive op : Type :=
| OObserve (direction : BrokerDirection) (payload : list Z)
| OAudit (d : AuditDecision)
| OTrackClient (m : ValidatedMessage)
| OTrackServer (m : ValidatedMessage)
| OWrite (raw : list Z)
| OSend (frame : list Z)
| OShutdown.

(** The reply of an operation: nothing, but for [OTrackServer] the method of the request. *)
Definition reply : Type := result BrokerError (option (list Z)).

(** An error ends the task with it. *)
Inductive prog : Type :=
| Done (r : result BrokerError (list AuditDecision))
| Do (o : op) (k : option (list Z) → prog).

(** One read of 8192 bytes: what was read, nothing at the end of the stream, or an error. *)
Definition read : Type := result BrokerError (list Z).

Inductive StderrPolicy : Type :=
| Inherit
| Discard
| Capture (max_bytes : Z).

Record BrokerConfiguration : Type := {
  client_framing : FramingMode;
  server_framing : FramingMode;
  max_frame_bytes : Z;
  outbound_queue_capacity : Z;
  backpressure_timeout : Z;
  graceful_shutdown_timeout : Z;
  cleanup_timeout : Z;
  stderr_policy : StderrPolicy;
}.

Definition BrokerConfiguration_default : BrokerConfiguration :=
  {| client_framing := Auto; server_framing := Auto; max_frame_bytes := 1048576;
     outbound_queue_capacity := 32; backpressure_timeout := from_secs 5;
     graceful_shutdown_timeout := from_secs 5; cleanup_timeout := from_secs 2;
     stderr_policy := Capture (64 * 1024) |}.

(** What the two tasks share, apart from the tracker and the audit log, which the operations
    act on. *)
Record BrokerIoContext : Type := {
  io_config : BrokerConfiguration;
  io_observer : bool;
  io_policy : CompiledToolPolicy;
}.

Section Tasks.
Context `{Api : JsonApi}.
Variable context : BrokerIoContext.

Definition observe (direction : BrokerDirection) (payload : list Z) (k : prog) : prog :=
  if io_observer context then Do (OObserve direction payload) (λ _, k) else k.

(** The body of the [for] loop over the frames of the client. *)
Definition client_frame (f : DecodedFrame) (decisions : list AuditDecision)
    (k : list AuditDecision → prog) : prog :=
  match validate_message (f_payload f) with
  | Err e => Done (Err (JsonRpcFailed e))
  | Ok message =>
      observe ToServer (f_payload f)
        match evaluate_message (io_policy context) message with
        | Forward decision =>
            Do (OAudit decision) (λ _,
            Do (OTrackClient message) (λ _,
            Do (OWrite (f_raw f)) (λ _, k (decisions ++ [decision]))))
        | Respond response decision =>
            Do (OAudit decision) (λ _,
            Do (OSend (encode_frame response (f_mode f))) (λ _, k (decisions ++ [decision])))
        | Drop decision => Do (OAudit decision) (λ _, k (decisions ++ [decision]))
        | Terminate reason => Done (Err (PolicyRejected reason))
        end
  end.

Fixpoint client_frames (fs : list DecodedFrame) (decisions : list AuditDecision)
    (k : list AuditDecision → prog) : prog :=
  match fs with
  | [] => k decisions
  | f :: fs => client_frame f decisions (λ decisions, client_frames fs decisions k)
  end.

Fixpoint client_to_server (d : FrameDecoder) (decisions : list AuditDecision)
    (reads : list read) : prog :=
  match reads with
  | [] | Ok [] :: _ =>
      match finish d with
      | Err e => Done (Err (FrameFailed e))
      | Ok _ => Do OShutdown (λ _, Done (Ok decisions))
      end
  | Err e :: _ => Done (Err e)
  | Ok bytes :: reads =>
      match feed d bytes with
      | Err e => Done (Err (FrameFailed e))
      | Ok (fs, d) => client_frames fs decisions (λ decisions, client_to_server d decisions reads)
      end
  end.

Fixpoint audit_all (ds : list AuditDecision) (k : prog) : prog :=
  match ds with [] => k | d :: ds => Do (OAudit d) (λ _, audit_all ds k) end.

(** The body of the [for] loop over the frames of the server. *)
Definition server_frame (f : DecodedFrame) (decisions : list AuditDecision)
    (k : list AuditDecision → prog) : prog :=
  match validate_message (f_payload f) with
  | Err e => Done (Err (JsonRpcFailed e))
  | Ok message =>
      observe FromServer (f_payload f)
        (Do (OTrackServer message) (λ request_method,
           if bool_decide (request_method = Some (str "tools/list")) then
             match filter_tools_list_response (io_policy context) (f_payload f) with
             | Err e => Done (Err (JsonRpcFailed e))
             | Ok filtered =>
                 audit_all (ft_decisions filtered)
                   (Do (OSend (encode_frame (ft_payload filtered) (f_mode f))) (λ _,
                      k (decisions ++ ft_decisions filtered)))
             end
           else Do (OSend (f_raw f)) (λ _, k decisions)))
  end.

Fixpoint server_frames (fs : list DecodedFrame) (decisions : list AuditDecision)
    (k : list AuditDecision → prog) : prog :=
  match fs with
  | [] => k decisions
  | f :: fs => server_frame f decisions (λ decisions, server_frames fs decisions k)
  end.

Fixpoint server_to_client (d : FrameDecoder) (decisions : list AuditDecision)
    (reads : list read) : prog :=
  match reads with
  | [] | Ok [] :: _ =>
      match finish d with Err e => Done (Err (FrameFailed e)) | Ok _ => Done (Ok decisions) end
  | Err e :: _ => Done (Err e)
  | Ok bytes :: reads =>
      match feed d bytes with
      | Err e => Done (Err (FrameFailed e))
      | Ok (fs, d) => server_frames fs decisions (λ decisions, server_to_client d decisions reads)
      end
  end.

(** ** The broker at work *)

(** The operations so far with their replies, the latest first. *)
Definition history : Type := list (op * reply).

Record broker_state : Type := {
  s_tracker : RequestTracker;
  s_history : history;
  s_client : prog;
  s_server : prog;
}.

(** An operation with the tracker after it and its reply. *)
Definition performs (t : RequestTracker) (o : op) (t' : RequestTracker) (r : reply) : Prop :=
  match o with
  | OTrackClient m =>
      t' = (track_client_message t m).1 ∧
      r = match (track_client_message t m).2 with Ok _ => Ok None | Err e => Err e end
  | OTrackServer m => (t', r) = track_server_message t m
  | _ => t' = t ∧ (r = Ok None ∨ ∃ e, r = Err e)
  end.

Definition resume (k : option (list Z) → prog) (r : reply) : prog :=
  match r with Ok x => k x | Err e => Done (Err e) end.

Inductive broker_step : broker_state → broker_state → Prop :=
| step_client t H o k server t' r :
    performs t o t' r →
    broker_step {| s_tracker := t; s_history := H; s_client := Do o k; s_server := server |}
         {| s_tracker := t'; s_history := (o, r) :: H; s_client := resume k r;
            s_server := server |}
| step_server t H o k client t' r :
    performs t o t' r →
    broker_step {| s_tracker := t; s_history := H; s_client := client; s_server := Do o k |}
         {| s_tracker := t'; s_history := (o, r) :: H; s_client := client;
            s_server := resume k r |}.

Definition client_decoder : FrameDecoder :=
  decoder_new (client_framing (io_config context)) (max_frame_bytes (io_config context)).
Definition server_decoder : FrameDecoder :=
  decoder_new (server_framing (io_config context)) (max_frame_bytes (io_config context)).

Definition broker_start (from_client from_server : list read) : broker_state :=
  {| s_tracker := tracker_default; s_history := [];
     s_client := client_to_server client_decoder [] from_client;
     s_server := server_to_client server_decoder [] from_server |}.

End Tasks.

(** ** What the operations demand *)

Section Safety.
Context `{Api : JsonApi}.
Variable context : BrokerIoContext.
#[local] Abbreviation policy := (io_policy context).
Variable from_client from_server : list read.

(** The frames of a stream, up to its end or its first error. *)
Fixpoint stream_frames (d : FrameDecoder) (reads : list read) : list DecodedFrame :=
  match reads with
  | Ok (b :: bytes) :: reads =>
      match feed d (b :: bytes) with
      | Ok (fs, d) => fs ++ stream_frames d reads
      | Err _ => []
      end
  | _ => []
  end.

Definition sent_by_client (f : DecodedFrame) : Prop :=
  f ∈ stream_frames (client_decoder context) from_client.
Definition sent_by_server (f : DecodedFrame) : Prop :=
  f ∈ stream_frames (server_decoder context) from_server.

(** The frame was validated, allowed, audited and, if it is a request, noted; a call in it is
    one of a permitted tool. *)
Definition approved (H : history) (f : DecodedFrame) : Prop :=
  ∃ m d, validate_message (f_payload f) = Ok m ∧ evaluate_message policy m = Forward d ∧
    (OAudit d, Ok None) ∈ H ∧ (OTrackClient m, Ok None) ∈ H ∧
    (m_method m = Some (str "tools/call") →
     ∃ tool, m_subject m = Some tool ∧ tool_permitted policy tool = true).

(** The bytes answer an audited call that is not permitted. *)
Definition refusal (H : history) (bytes : list Z) : Prop :=
  ∃ f m response d, sent_by_client f ∧ validate_message (f_payload f) = Ok m ∧
    evaluate_message policy m = Respond response d ∧ a_outcome d = Denied ∧
    (OAudit d, Ok None) ∈ H ∧ bytes = encode_frame response (f_mode f).

(** The bytes are a frame of the server, filtered when it answers [tools/list]. *)
Definition relayed (H : history) (bytes : list Z) : Prop :=
  ∃ f m method, sent_by_server f ∧ validate_message (f_payload f) = Ok m ∧
    (OTrackServer m, Ok method) ∈ H ∧
    if bool_decide (method = Some (str "tools/list")) then
      ∃ out, filter_tools_list_response policy (f_payload f) = Ok out ∧
        (∀ d, d ∈ ft_decisions out → (OAudit d, Ok None) ∈ H) ∧
        bytes = encode_frame (ft_payload out) (f_mode f)
    else bytes = f_raw f.

Definition demand (H : history) (o : op) : Prop :=
  match o with
  | OWrite raw => ∃ f, sent_by_client f ∧ raw = f_raw f ∧ approved H f
  | OSend bytes => refusal H bytes ∨ relayed H bytes
  | _ => True
  end.

Lemma demand_mono (H H' : history) (o : op) : H ⊆ H' → demand H o → demand H' o.
Proof.
  intros Hsub. destruct o; cbn; try done.
  - intros (f & Hf & -> & m & d & Hm & Hd & Ha & Ht & Hp). exists f. split; [done|].
    split; [done|]. exists m, d. auto 10.
  - intros [(f & m & r & d & Hf & Hm & He & Ho & Ha & ->)|(f & m & method & Hf & Hm & Ht & Hb)].
    + left. exists f, m, r, d. auto 10.
    + right. exists f, m, method. repeat (split; [by auto|]).
      case_bool_decide; [|done]. destruct Hb as (out & Ho & Hds & ->). exists out. auto.
Qed.

(** ** A logic for the tasks *)

Definition reply_ok (o : op) (x : option (list Z)) : Prop :=
  match o with OTrackServer _ => True | _ => x = None end.

(** The program meets every demand, whatever the other task does meanwhile. *)
Fixpoint wp (H : history) (q : prog) : Prop :=
  match q with
  | Done _ => True
  | Do o k => demand H o ∧
      ∀ H' x, H ⊆ H' → reply_ok o x → wp ((o, Ok x) :: H') (k x)
  end.

Lemma wp_mono (H H' : history) (q : prog) : H ⊆ H' → wp H q → wp H' q.
Proof.
  intros Hsub. destruct q as [r|o k]; cbn; [done|]. intros [Hr Hk]. split.
  - by eapply demand_mono.
  - intros H2 x Hsub2. apply Hk. set_solver.
Qed.

(** An operation that demands nothing. *)
Lemma wp_free (H : history) (o : op) (k : option (list Z) → prog) :
  demand H o →
  (∀ H' x, reply_ok o x → (o, Ok x) ∈ H' → H ⊆ H' → wp H' (k x)) → wp H (Do o k).
Proof.
  intros Hr Hk. split; [done|]. intros H' x Hsub Hx. apply Hk; [done|set_solver|set_solver].
Qed.

Lemma wp_observe (H : history) (dir : BrokerDirection) (payload : list Z) (q : prog) :
  (∀ H', H ⊆ H' → wp H' q) → wp H (observe context dir payload q).
Proof.
  intros Hq. unfold observe. destruct (io_observer context); [|by apply Hq].
  apply wp_free; [done|]. intros H' x _ _ Hsub. by apply Hq.
Qed.

Lemma forward_approved (H : history) (f : DecodedFrame) (m : ValidatedMessage)
    (d : AuditDecision) :
  validate_message (f_payload f) = Ok m → evaluate_message policy m = Forward d →
  (OAudit d, Ok None) ∈ H → (OTrackClient m, Ok None) ∈ H → approved H f.
Proof.
  intros Hm Hd Ha Ht. exists m, d. repeat (split; [done|]). intros Hcall.
  pose proof (evaluate_message_cases policy m (validate_message_kind _ _ Hm) Hcall) as Hcase.
  destruct (m_subject m) as [tool|]; [|destruct Hcase; congruence].
  exists tool. split; [done|]. destruct (tool_permitted policy tool); [done|].
  destruct (m_id m); congruence.
Qed.

Lemma respond_denied (m : ValidatedMessage) (response : list Z) (d : AuditDecision) :
  evaluate_message policy m = Respond response d → a_outcome d = Denied.
Proof.
  unfold evaluate_message. destruct (negb _); [done|]. destruct (m_subject m) as [tool|]; [|done].
  pose proof (evaluate_tool_outcome policy tool (str "tools/call")) as [Ho _].
  change (evaluate_tool_for_method policy tool (str "tools/call")) with (evaluate_tool policy tool) in Ho.
  case_bool_decide as Ha; [done|]. intros H. rewrite Ho in Ha.
  assert (d = evaluate_tool policy tool) as -> by (repeat case_match; congruence).
  destruct (tool_permitted policy tool); congruence.
Qed.

Lemma wp_client_frame (H : history) (f : DecodedFrame) (ds : list AuditDecision)
    (k : list AuditDecision → prog) :
  sent_by_client f → (∀ H' ds, H ⊆ H' → wp H' (k ds)) →
  wp H (client_frame context f ds k).
Proof.
  intros Hf Hk. unfold client_frame. destruct (validate_message _) as [m|] eqn:Em; [|done].
  apply wp_observe. intros H1 Hs1. destruct (evaluate_message policy m) as [d|r d|d|] eqn:Ev;
    [| | |done].
  - apply wp_free; [done|]. intros H2 x -> Ha Hs2. apply wp_free; [done|].
    intros H3 y -> Ht Hs3. apply wp_free; [|intros; apply Hk; set_solver].
    exists f. split; [done|]. split; [done|].
    apply (forward_approved _ _ m d); [done|done|by apply Hs3|done].
  - apply wp_free; [done|]. intros H2 x -> Ha Hs2.
    apply wp_free; [|intros; apply Hk; set_solver].
    left. exists f, m, r, d. pose proof (respond_denied _ _ _ Ev). done.
  - apply wp_free; [done|]. intros. apply Hk. set_solver.
Qed.

Lemma wp_client_frames (fs : list DecodedFrame) (H : history) (ds : list AuditDecision)
    (k : list AuditDecision → prog) :
  (∀ f, f ∈ fs → sent_by_client f) → (∀ H' ds, H ⊆ H' → wp H' (k ds)) →
  wp H (client_frames context fs ds k).
Proof.
  revert H ds. induction fs as [|f fs IH]; intros H ds Hfs Hk; cbn [client_frames];
    [by apply Hk|].
  apply wp_client_frame; [apply Hfs; set_solver|]. intros H' ds' Hsub.
  apply IH; [set_solver|]. intros H2 ds2 Hs2. apply Hk. set_solver.
Qed.

Lemma wp_client (reads : list read) (d : FrameDecoder) (ds : list AuditDecision) (H : history) :
  (∀ f, f ∈ stream_frames d reads → sent_by_client f) →
  wp H (client_to_server context d ds reads).
Proof.
  revert d ds H. induction reads as [|r reads IH]; intros d ds H Hfs.
  { cbn. by destruct (finish d). }
  destruct r as [[|b bytes]|e]; [cbn; by destruct (finish d)| |done].
  cbn [client_to_server stream_frames] in *.
  destruct (feed d (b :: bytes)) as [[fs d']|e]; [|done].
  apply wp_client_frames; [set_solver|]. intros H' ds' _. apply IH. set_solver.
Qed.

Lemma wp_audit_all (l : list AuditDecision) (H : history) (q : prog) :
  (∀ H', H ⊆ H' → (∀ d, d ∈ l → (OAudit d, Ok None) ∈ H') → wp H' q) → wp H (audit_all l q).
Proof.
  revert H. induction l as [|d l IH]; intros H Hq; cbn [audit_all];
    [apply Hq; set_solver|].
  apply wp_free; [done|]. intros H1 x -> Ha Hs1. apply IH. intros H2 Hs2 Hl.
  apply Hq; [set_solver|]. intros d' [->|Hd]%elem_of_cons; auto.
Qed.

Lemma wp_server_frame (H : history) (f : DecodedFrame) (ds : list AuditDecision)
    (k : list AuditDecision → prog) :
  sent_by_server f → (∀ H' ds, H ⊆ H' → wp H' (k ds)) →
  wp H (server_frame context f ds k).
Proof.
  intros Hf Hk. unfold server_frame. destruct (validate_message _) as [m|] eqn:Em; [|done].
  apply wp_observe. intros H1 Hs1. apply wp_free; [done|]. intros H2 method _ Ht Hs2.
  case_bool_decide as Hl.
  - destruct (filter_tools_list_response _ _) as [out|] eqn:Ef; [|done].
    apply wp_audit_all. intros H3 Hs3 Ha.
    apply wp_free; [|intros; apply Hk; set_solver].
    right. exists f, m, method. rewrite bool_decide_true by done.
    repeat (split; [by auto|]). eauto.
  - apply wp_free; [|intros; apply Hk; set_solver].
    right. exists f, m, method. by rewrite bool_decide_false.
Qed.

Lemma wp_server_frames (fs : list DecodedFrame) (H : history) (ds : list AuditDecision)
    (k : list AuditDecision → prog) :
  (∀ f, f ∈ fs → sent_by_server f) → (∀ H' ds, H ⊆ H' → wp H' (k ds)) →
  wp H (server_frames context fs ds k).
Proof.
  revert H ds. induction fs as [|f fs IH]; intros H ds Hfs Hk; cbn [server_frames];
    [by apply Hk|].
  apply wp_server_frame; [apply Hfs; set_solver|]. intros H' ds' Hsub.
  apply IH; [set_solver|]. intros H2 ds2 Hs2. apply Hk. set_solver.
Qed.

Lemma wp_server (reads : list read) (d : FrameDecoder) (ds : list AuditDecision) (H : history) :
  (∀ f, f ∈ stream_frames d reads → sent_by_server f) →
  wp H (server_to_client context d ds reads).
Proof.
  revert d ds H. induction reads as [|r reads IH]; intros d ds H Hfs.
  { cbn. by destruct (finish d). }
  destruct r as [[|b bytes]|e]; [cbn; by destruct (finish d)| |done].
  cbn [server_to_client stream_frames] in *.
  destruct (feed d (b :: bytes)) as [[fs d']|e]; [|done].
  apply wp_server_frames; [set_solver|]. intros H' ds' _. apply IH. set_solver.
Qed.

(** ** The invariant *)

(** The tracker, from the operations. *)
Fixpoint replay (H : history) : RequestTracker :=
  match H with
  | [] => tracker_default
  | (OTrackClient m, _) :: H => (track_client_message (replay H) m).1
  | (OTrackServer m, _) :: H => (track_server_message (replay H) m).1
  | _ :: H => replay H
  end.

(** Every operation met its demand and got its reply when it was performed. *)
Fixpoint lawful (H : history) : Prop :=
  match H with
  | [] => True
  | (o, r) :: H => demand H o ∧ performs (replay H) o (replay ((o, r) :: H)) r ∧ lawful H
  end.

Definition broker_inv (s : broker_state) : Prop :=
  wp (s_history s) (s_client s) ∧ wp (s_history s) (s_server s) ∧ lawful (s_history s) ∧
  s_tracker s = replay (s_history s).

Lemma performs_replay (H : history) (o : op) (t' : RequestTracker) (r : reply) :
  performs (replay H) o t' r → t' = replay ((o, r) :: H).
Proof.
  destruct o; cbn; try naive_solver. intros Heq. by rewrite <-Heq.
Qed.

Lemma performs_reply_ok (t t' : RequestTracker) (o : op) (x : option (list Z)) :
  performs t o t' (Ok x) → reply_ok o x.
Proof. destruct o; cbn; try naive_solver. intros [_ H]. by case_match; simplify_eq. Qed.

(** The move of one task preserves what holds of both. *)
Lemma task_step (H : history) (o : op) (k : option (list Z) → prog) (other : prog)
    (t' : RequestTracker) (r : reply) :
  wp H (Do o k) → wp H other → lawful H → performs (replay H) o t' r →
  wp ((o, r) :: H) (resume k r) ∧ wp ((o, r) :: H) other ∧ lawful ((o, r) :: H) ∧
  t' = replay ((o, r) :: H).
Proof.
  intros [Hr Hk] Ho Hl Hp. pose proof (performs_replay _ _ _ _ Hp) as ->. split.
  { destruct r as [x|e]; [|done]. apply Hk; [done|]. by eapply performs_reply_ok. }
  split; [eapply wp_mono, Ho; set_solver|]. done.
Qed.

Lemma step_inv (s s' : broker_state) : broker_inv s → broker_step s s' → broker_inv s'.
Proof.
  intros (Hc & Hs & Hl & Ht) Hstep. destruct Hstep as [t H o k q t' r Hp|t H o k q t' r Hp];
    cbn in *; subst t.
  - destruct (task_step H o k q t' r) as (A & B & C & D); done.
  - destruct (task_step H o k q t' r) as (A & B & C & D); done.
Qed.

Lemma reachable_inv (s : broker_state) :
  rtc broker_step (broker_start context from_client from_server) s → broker_inv s.
Proof.
  intros Hr. eapply (rtc_ind_r broker_inv); [|intros y z _ Hyz Hy; by eapply step_inv|exact Hr].
  split; [by apply wp_client|]. split; [by apply wp_server|]. done.
Qed.

Lemma lawful_split (H1 H2 : history) (o : op) (r : reply) :
  lawful (H1 ++ (o, r) :: H2) →
  demand H2 o ∧ performs (replay H2) o (replay ((o, r) :: H2)) r ∧ lawful H2.
Proof. induction H1 as [|[o' r'] H1 IH]; cbn; [done|]. intros (_ & _ & Hl). auto. Qed.

(** ** What the server reads *)

(** The completed writes, in their order. *)
Fixpoint writes (H : history) : list (list Z) :=
  match H with
  | [] => []
  | (OWrite raw, Ok _) :: H => writes H ++ [raw]
  | _ :: H => writes H
  end.

Lemma approved_mono (H H' : history) (f : DecodedFrame) : H ⊆ H' → approved H f → approved H' f.
Proof. intros Hsub (m & d & Hm & Hd & Ha & Ht & Hp). exists m, d. auto 10. Qed.

Lemma lawful_writes (H : history) :
  lawful H →
  ∃ fs, writes H = f_raw <$> fs ∧ Forall (λ f, sent_by_client f ∧ approved H f) fs.
Proof.
  induction H as [|[o r] H IH]; cbn [lawful]; [by exists []|].
  intros (Hr & _ & Hl). destruct (IH Hl) as (fs & Hw & Hfs).
  assert (∀ e : op * reply, Forall (λ f, sent_by_client f ∧ approved (e :: H) f) fs) as Hfs'.
  { intros e. eapply Forall_impl; [exact Hfs|]. intros f [? Ha]. split; [done|].
    eapply approved_mono, Ha. set_solver. }
  destruct o as [| | | |raw| |]; try (exists fs; by split).
  destruct r as [x|e]; [|exists fs; by split]. cbn in Hr. destruct Hr as (f & Hf & -> & Ha).
  exists (fs ++ [f]). cbn [writes]. rewrite Hw, fmap_app. split; [done|].
  apply Forall_app. split; [done|]. constructor; [|done]. split; [done|].
  eapply approved_mono, Ha. set_solver.
Qed.

Lemma stream_frames_ok (reads : list read) (d : FrameDecoder) :
  decoder_ok d →
  Forall (frame_ok (d_max_frame_bytes d) (d_max_header_bytes d)) (stream_frames d reads) ∧
  ∃ mode, (∀ m, active_mode d = Some m → mode = m) ∧
    Forall (λ f, f_mode f = mode) (stream_frames d reads).
Proof.
  revert d. induction reads as [|r reads IH]; intros d Hok.
  { split; [constructor|]. exists (default Newline (active_mode d)).
    split; [by intros m ->|constructor]. }
  assert (∃ mode, ∀ m, active_mode d = Some m → mode = m) as [m0 Hm0]
    by (exists (default Newline (active_mode d)); by intros m ->).
  cbn [stream_frames].
  destruct r as [[|b bytes]|e]; [by split; [|exists m0]| |by split; [|exists m0]].
  destruct (feed d (b :: bytes)) as [[fs d']|e] eqn:Ef; [|by split; [|exists m0]].
  apply feed_preserves in Ef as [A1 A2 A3 A4 A5 A6 A7]; [|done].
  destruct (IH d' A1) as [Hok' (mode & Hmode & Hall)]. rewrite A2, A3 in Hok'.
  split; [by apply Forall_app|]. exists mode. split; [auto|].
  apply Forall_app. split; [|done]. eapply Forall_impl; [exact A7|].
  intros f Hf. cbn in Hf. symmetry. auto.
Qed.


(** ** What the client sees *)


(** ** Outstanding requests *)

(** The tracker holds the requests of the client that have not been answered. *)
Lemma outstanding (H : history) (id method : list Z) :
  lawful H → client_requests (replay H) !! id = Some method →
  ∃ H3 m r H4, H = H3 ++ (OTrackClient m, r) :: H4 ∧ m_kind m = Request ∧
    m_id m = IdPresent id ∧ m_method m = Some method ∧
    ∀ m' x, (OTrackServer m', Ok (Some x)) ∈ H3 → m_id m' ≠ IdPresent id.
Proof.
  induction H as [|[o r] H IH]; [done|]. intros (_ & Hp & Hl) Hlook.
  assert (client_requests (replay H) !! id = Some method →
    (∀ m' x, (o, r) = (OTrackServer m', Ok (Some x)) → m_id m' ≠ IdPresent id) →
    ∃ H3 m r0 H4, (o, r) :: H = H3 ++ (OTrackClient m, r0) :: H4 ∧ m_kind m = Request ∧
      m_id m = IdPresent id ∧ m_method m = Some method ∧
      ∀ m' x, (OTrackServer m', Ok (Some x)) ∈ H3 → m_id m' ≠ IdPresent id) as Hold.
  { intros Hlook' Hno. destruct (IH Hl Hlook') as (H3 & m & r0 & H4 & -> & ? & ? & ? & Hn).
    exists ((o, r) :: H3), m, r0, H4. repeat (split; [done|]).
    intros m' x [Heq|Hin]%elem_of_cons; [by eapply Hno|by eapply Hn]. }
  destruct o as [| |m|m| | |]; try (by apply Hold).
  - cbn [replay] in Hlook. unfold track_client_message in Hlook.
    destruct (m_kind m) eqn:Ek; try (apply Hold; [|done]; by repeat case_match).
    destruct (m_id m) as [|id'] eqn:Eid; cbn in Hlook; [by apply Hold|].
    destruct (m_method m) as [method'|] eqn:Em; cbn in Hlook; [|by apply Hold].
    destruct (decide (id' = id)) as [->|Hne].
    + rewrite lookup_insert_eq in Hlook. injection Hlook as ->.
      exists [], m, r, H. repeat (split; [done|]). set_solver.
    + rewrite lookup_insert_ne in Hlook by done. by apply Hold.
  - cbn [replay] in Hlook. cbn in Hp. unfold track_server_message in *.
    destruct (m_kind m) eqn:Ek.
    + apply Hold; [by repeat case_match|]. intros m' x [= <- ->]. repeat case_match; congruence.
    + apply Hold; [done|]. intros m' x [= <- ->]. congruence.
    + destruct (m_id m) as [|id'] eqn:Eid; cbn in Hlook; [apply Hold; [done|]; congruence|].
      apply lookup_delete_Some in Hlook as [Hne Hlook]. apply Hold; [done|].
      intros m' x [= <- ->]. congruence.
    + destruct (m_id m) as [|id'] eqn:Eid; cbn in Hlook; [apply Hold; [done|]; congruence|].
      apply lookup_delete_Some in Hlook as [Hne Hlook]. apply Hold; [done|].
      intros m' x [= <- ->]. congruence.
Qed.

(** An answer of the server passes only for a request that is outstanding: the client has
    sent a request with that id and method, and no answer to that id has passed since; so every
    request is answered at most once, and the method the filter goes by is the one that was
    asked. *)
Theorem answers_match_requests (s : broker_state) (H1 H2 : history) (m : ValidatedMessage)
    (method : list Z) :
  rtc broker_step (broker_start context from_client from_server) s →
  s_history s = H1 ++ (OTrackServer m, Ok (Some method)) :: H2 →
  ∃ id H3 m0 r H4, m_id m = IdPresent id ∧ H2 = H3 ++ (OTrackClient m0, r) :: H4 ∧
    m_kind m0 = Request ∧ m_id m0 = IdPresent id ∧ m_method m0 = Some method ∧
    ∀ m' x, (OTrackServer m', Ok (Some x)) ∈ H3 → m_id m' ≠ IdPresent id.
Proof.
  intros (_ & _ & Hl & _)%reachable_inv Heq. rewrite Heq in Hl.
  apply lawful_split in Hl as (_ & Hp & Hl). cbn [performs] in Hp.
  assert (∃ id, m_id m = IdPresent id ∧ client_requests (replay H2) !! id = Some method)
    as (id & Hid & Hlook).
  { unfold track_server_message in Hp. destruct (m_kind m), (m_id m) as [|id]; cbn in Hp;
      repeat case_match; simplify_eq; eauto. }
  destruct (outstanding H2 id method Hl Hlook) as (H3 & m0 & r & H4 & ? & ? & ? & ? & ?).
  exists id, H3, m0, r, H4. done.
Qed.

End Safety.

(** ** Termination *)

(** The state is final when both tasks are done. *)
Definition final (s : broker_state) : Prop :=
  (∃ r, s_client s = Done r) ∧ (∃ r, s_server s = Done r).

Lemma performs_some (t : RequestTracker) (o : op) : ∃ t' r, performs t o t' r.
Proof.
  destruct o; cbn; eauto. destruct (track_server_message t m) as [t' r]. eauto.
Qed.

#[local] Abbreviation state t H client server :=
  {| s_tracker := t; s_history := H; s_client := client; s_server := server |}.

Lemma acc_client_done (rc : result BrokerError (list AuditDecision)) (server : prog)
    (t : RequestTracker) (H : history) :
  Acc (λ s' s, broker_step s s') (state t H (Done rc) server).
Proof.
  revert t H. induction server as [rs|os ks IHs]; intros t H; constructor; intros s' Hs;
    inversion Hs; simplify_eq.
  destruct r as [x|e]; cbn; [apply IHs|]. constructor. intros s2 Hs2. inversion Hs2.
Qed.

Lemma acc_step (client server : prog) (t : RequestTracker) (H : history) :
  Acc (λ s' s, broker_step s s') (state t H client server).
Proof.
  revert server t H. induction client as [rc|oc kc IHc]; intros server t H;
    [apply acc_client_done|].
  assert (∀ t H r, Acc (λ s' s, broker_step s s') (state t H (Do oc kc) (Done r))) as Hdone.
  { intros t0 H0 r0. constructor. intros s' Hs. inversion Hs; simplify_eq.
    destruct r as [x|e]; cbn; [apply IHc|apply acc_client_done]. }
  revert t H. induction server as [rs|os ks IHs]; intros t H; [apply Hdone|].
  constructor. intros s' Hs. inversion Hs; simplify_eq; destruct r as [x|e]; cbn.
  - apply IHc.
  - apply acc_client_done.
  - apply IHs.
  - apply Hdone.
Qed.


(** ** Concrete sessions *)

(** A schedule of the tasks with an environment that never fails: [true] is the client's turn. *)
Definition perform (t : RequestTracker) (o : op) : RequestTracker * reply :=
  match o with
  | OTrackClient m =>
      let '(t, r) := track_client_message t m in
      (t, match r with Ok _ => Ok None | Err e => Err e end)
  | OTrackServer m => track_server_message t m
  | _ => (t, Ok None)
  end.

Fixpoint run_schedule (turns : list bool) (s : broker_state) : broker_state :=
  match turns with
  | [] => s
  | turn :: turns =>
      match (if turn then s_client s else s_server s) with
      | Done _ => run_schedule turns s
      | Do o k =>
          let '(t, r) := perform (s_tracker s) o in
          run_schedule turns
            {| s_tracker := t; s_history := (o, r) :: s_history s;
               s_client := if turn then resume k r else s_client s;
               s_server := if turn then s_server s else resume k r |}
      end
  end.

Lemma perform_performs (t : RequestTracker) (o : op) :
  performs t o (perform t o).1 (perform t o).2.
Proof.
  destruct o; cbn; eauto.
  - by destruct (track_client_message t m).
  - by destruct (track_server_message t m).
Qed.

Lemma run_schedule_reachable (turns : list bool) (s : broker_state) :
  rtc broker_step s (run_schedule turns s).
Proof.
  revert s. induction turns as [|turn turns IH]; intros s; [done|]. cbn [run_schedule].
  destruct s as [t H client server]. destruct turn; cbn [s_client s_server s_tracker s_history].
  - destruct client as [r|o k]; [apply IH|]. pose proof (perform_performs t o) as Hp.
    destruct (perform t o) as [t' r]. eapply rtc_l; [by apply step_client|apply IH].
  - destruct server as [r|o k]; [apply IH|]. pose proof (perform_performs t o) as Hp.
    destruct (perform t o) as [t' r]. eapply rtc_l; [by apply step_server|apply IH].
Qed.

Module BrokerSample.
Import JsonSample PolicySample.

Definition line (text : list Z) : list Z := text ++ [ch_lf].

Definition sample_context : BrokerIoContext :=
  {| io_config :=
       {| client_framing := Newline; server_framing := Newline; max_frame_bytes := 1048576;
          outbound_queue_capacity := 32; backpressure_timeout := from_secs 5;
          graceful_shutdown_timeout := from_secs 5; cleanup_timeout := from_secs 2;
          stderr_policy := Discard |};
     io_observer := false; io_policy := compiled |}.

(** The client asks for the tools, calls one that is permitted and one that is not; the server
    answers the first request. *)
Definition client_reads : list read :=
  [Ok (line (request_text plain_id "tools/list") ++ call_text "1" "read_file");
   Ok (line [] ++ line (call_text "2" "delete_all"))].
Definition server_reads : list read := [Ok (line answer_text)].

Definition session : broker_state :=
  run_schedule (replicate 12 true ++ replicate 12 false)
    (broker_start sample_context client_reads server_reads).


Definition shown_answer : list Z :=
  line (json_text "{'id':'a','jsonrpc':'2.0','result':{'tools':[{'name':'read_file'}]}}").


Lemma answers_match_requests_witness :
  ∃ H1 m H2, s_history session = H1 ++ (OTrackServer m, Ok (Some (str "tools/list"))) :: H2 ∧
    ∃ id H3 m0 r H4, m_id m = IdPresent id ∧ H2 = H3 ++ (OTrackClient m0, r) :: H4 ∧
      m_kind m0 = Request ∧ m_id m0 = IdPresent id ∧ m_method m0 = Some (str "tools/list") ∧
      ∀ m' x, (OTrackServer m', Ok (Some x)) ∈ H3 → m_id m' ≠ IdPresent id.
Proof.
  eexists [_; _; _], _, _. split; [vm_compute; reflexivity|].
  eapply (answers_match_requests sample_context client_reads server_reads session [_; _; _]);
    [apply run_schedule_reachable|]. vm_compute. reflexivity.
Defined.

(** ** One id in two spellings

    Ids are compared as they are written.  The client asks for the tools under the id [a]
    written with an escape, and pings under [a] written plainly; the server reads one id, and
    answers the list under its plain spelling. *)
Definition alias_reads : list read :=
  [Ok (line (request_text escaped_id "tools/list") ++ line (request_text plain_id "ping"))].

Definition alias_session : broker_state :=
  run_schedule (replicate 6 true ++ replicate 3 false)
    (broker_start sample_context alias_reads server_reads).

(** The two ids are one string, the whole list of the tools reaches the client unfiltered, and
    a tool in it is not permitted. *)
Lemma tools_list_alias :
  rtc broker_step (broker_start sample_context alias_reads server_reads) alias_session ∧
  json_syntax escaped_id = json_syntax plain_id ∧
  (OSend (line answer_text), Ok None) ∈ s_history alias_session ∧
  tool_permitted compiled (str "delete_all") = false.
Proof.
  split; [apply run_schedule_reachable|]. split; [vm_compute; reflexivity|].
  split; [|vm_compute; reflexivity]. vm_compute. left.
Qed.

End BrokerSample.
