(* ===== verification/McpRun.v ===== *)
(** * The MCP broker: a run ([crates/sendbox-mcp/src/broker.rs])

    The rest of the stdio broker around the two tasks of [McpBroker]: the writer of the queue to
    the client, the reader of the server's standard error, the loop that waits for the tasks and
    the process, and the clean-up.  What the process, the sockets and the clock reply are
    arguments: outcomes of writes, reads, and the order of the events of [select!].

    The theorems show that a report is made only when the client, the server, the writer, the
    standard error and the process are all done, with every decision of the two tasks in it; that
    nothing is started for a command that is not approved and that a failed run always tries to
    kill the process; and that the client gets a prefix of the queue and the report the first
    bytes of the standard error, within the limit. *)

From S2P Require Import Prelude RustStr McpFraming McpJson McpPolicy McpBroker.

(** ** Definitions *)

Inductive TaskOutcome : Type :=
| ClientDone (decisions : list AuditDecision)
| ServerDone (decisions : list AuditDecision)
| WriterDone
| StderrDone (bytes : list Z).

Record BrokerReport : Type := {
  report_status : Z;
  report_stderr : list Z;
  report_decisions : list AuditDecision;
}.

(** *** The writer *)

(** [queue] is what [recv] returns until the channel is closed, [io] the outcomes of the writes,
    the flushes and the shutdown; [written] are the frames written so far. *)
Fixpoint write_client (queue : list read) (io : list (result BrokerError ()))
    (written : list (list Z)) : list (list Z) * result BrokerError TaskOutcome :=
  match queue, io with
  | [], Ok _ :: _ => (written, Ok WriterDone)
  | Ok frame :: queue, Ok _ :: Ok _ :: io => write_client queue io (written ++ [frame])
  | Err e :: _, _ => (written, Err e)
  | _, Ok _ :: Err e :: _ => (written, Err e)
  | _, Err e :: _ => (written, Err e)
  | _, _ => (written, Err Cancelled)
  end.

(** *** Standard error *)

Definition stderr_maximum (policy : StderrPolicy) : Z :=
  match policy with Capture max_bytes => max_bytes | Inherit | Discard => 0 end.

Fixpoint drain_loop (maximum : Z) (captured : list Z) (reads : list read)
  : result BrokerError TaskOutcome :=
  match reads with
  | [] | Ok [] :: _ => Ok (StderrDone captured)
  | Err e :: _ => Err e
  | Ok bytes :: reads =>
      let remaining := saturating_sub maximum (blen captured) in
      drain_loop maximum (captured ++ take (Z.to_nat remaining) bytes) reads
  end.

Definition drain_stderr (policy : StderrPolicy) (reads : list read)
  : result BrokerError TaskOutcome :=
  drain_loop (stderr_maximum policy) [] reads.

(** *** Clean-up *)

(** [waited] is [None] when the wait timed out. *)
Definition cleanup_child (kill : result BrokerError ()) (waited : option (result BrokerError Z))
  : result BrokerError () :=
  check? kill in
  match waited with
  | None => Err (CleanupFailed (str "timed out waiting for killed child"))
  | Some (Ok _) => Ok tt
  | Some (Err e) => Err e
  end.

(** *** The loop *)

(** What [select!] returns next: the child's exit comes with whether the client's input was
    closed by then. *)
Inductive run_event : Type :=
| RunCancelled
| RunTask (r : result BrokerError TaskOutcome)
| RunChild (r : result BrokerError Z) (input_closed : bool)
| RunDeadline.

Record run_state : Type := {
  client_done : bool;
  server_done : bool;
  writer_done : bool;
  stderr_done : bool;
  run_decisions : list AuditDecision;
  run_stderr : list Z;
  run_status : option Z;
  shutdown_deadline : bool;
}.

Definition run_start : run_state :=
  {| client_done := false; server_done := false; writer_done := false; stderr_done := false;
     run_decisions := []; run_stderr := []; run_status := None; shutdown_deadline := false |}.

Definition task_done (s : run_state) (o : TaskOutcome) : run_state :=
  match o with
  | ClientDone ds =>
      {| client_done := true; server_done := server_done s; writer_done := writer_done s;
         stderr_done := stderr_done s; run_decisions := run_decisions s ++ ds;
         run_stderr := run_stderr s; run_status := run_status s; shutdown_deadline := true |}
  | ServerDone ds =>
      {| client_done := client_done s; server_done := true; writer_done := writer_done s;
         stderr_done := stderr_done s; run_decisions := run_decisions s ++ ds;
         run_stderr := run_stderr s; run_status := run_status s;
         shutdown_deadline := shutdown_deadline s |}
  | WriterDone =>
      {| client_done := client_done s; server_done := server_done s; writer_done := true;
         stderr_done := stderr_done s; run_decisions := run_decisions s;
         run_stderr := run_stderr s; run_status := run_status s;
         shutdown_deadline := shutdown_deadline s |}
  | StderrDone bytes =>
      {| client_done := client_done s; server_done := server_done s; writer_done := writer_done s;
         stderr_done := true; run_decisions := run_decisions s; run_stderr := bytes;
         run_status := run_status s; shutdown_deadline := shutdown_deadline s |}
  end.

Definition child_exited (s : run_state) (status : Z) : run_state :=
  {| client_done := client_done s; server_done := server_done s; writer_done := writer_done s;
     stderr_done := stderr_done s; run_decisions := run_decisions s; run_stderr := run_stderr s;
     run_status := Some status; shutdown_deadline := shutdown_deadline s |}.

(** The report, when everything is done. *)
Definition run_complete (s : run_state) : option BrokerReport :=
  match run_status s with
  | Some status =>
      if client_done s && server_done s && writer_done s && stderr_done s
      then Some {| report_status := status; report_stderr := run_stderr s;
                   report_decisions := run_decisions s |}
      else None
  | None => None
  end.

(** [None] while the loop waits; a branch whose guard is off does not run. *)
Fixpoint run_loop (s : run_state) (events : list run_event)
  : option (result BrokerError BrokerReport) :=
  match run_complete s with
  | Some report => Some (Ok report)
  | None =>
      match events with
      | [] => None
      | RunCancelled :: _ => Some (Err Cancelled)
      | RunTask (Err e) :: _ => Some (Err e)
      | RunTask (Ok o) :: events => run_loop (task_done s o) events
      | RunChild r input_closed :: events =>
          match run_status s with
          | Some _ => run_loop s events
          | None =>
              match r with
              | Err e => Some (Err e)
              | Ok status =>
                  if input_closed then run_loop (child_exited s status) events
                  else Some (Err ChildExited)
              end
          end
      | RunDeadline :: events =>
          if shutdown_deadline s
          then Some (Err (CleanupFailed
                 (str "broker tasks did not finish after client input closed")))
          else run_loop s events
      end
  end.

Section Run.
(** [Display] of an error. *)
Variable display : BrokerError → list Z.

(** What a process gives: its pipes, and how it is killed and waited for. *)
Record child_process : Type := {
  ch_stdin : bool;
  ch_stdout : bool;
  ch_kill : result BrokerError ();
  ch_wait : option (result BrokerError Z);
}.

Definition finish_run (child : child_process) (r : result BrokerError BrokerReport)
  : result BrokerError BrokerReport :=
  match r with
  | Ok report => Ok report
  | Err e =>
      match cleanup_child (ch_kill child) (ch_wait child) with
      | Ok _ => Err e
      | Err cleanup =>
          Err (CleanupFailed (str "primary failure: " ++ display e ++ str "; cleanup failure: " ++
                              display cleanup))
      end
  end.

Definition broker_run (approved_commands : list (list (list Z))) (command : list (list Z))
    (spawn : list (list Z) → result BrokerError child_process) (events : list run_event)
  : option (result BrokerError BrokerReport) :=
  if negb (bool_decide (command ∈ approved_commands)) then Some (Err CommandNotApproved)
  else
    match spawn command with
    | Err e => Some (Err e)
    | Ok child =>
        if negb (ch_stdin child) then
          Some (check? cleanup_child (ch_kill child) (ch_wait child) in
                Err (LaunchFailed (str "child stdin was not piped")))
        else if negb (ch_stdout child) then
          Some (check? cleanup_child (ch_kill child) (ch_wait child) in
                Err (LaunchFailed (str "child stdout was not piped")))
        else finish_run child <$> run_loop run_start events
    end.

End Run.

(** ** The writer and the standard error *)

Definition frames_of (queue : list read) : list (list Z) :=
  omap (λ r, match r with Ok frame => Some frame | Err _ => None end) queue.

Lemma write_client_prefix (queue : list read) (io : list (result BrokerError ()))
    (written : list (list Z)) :
  ∃ sent, (write_client queue io written).1 = written ++ sent ∧ sent `prefix_of` frames_of queue ∧
    ((write_client queue io written).2 = Ok WriterDone → sent = frames_of queue).
Proof.
  revert io written. induction queue as [|[frame|e] queue IH]; intros io written.
  - exists []. rewrite app_nil_r. split; [by destruct io as [|[] [|[]]]|]. split; [done|done].
  - destruct io as [|[[]|e1] [|[[]|e2] io]];
      try (exists []; rewrite app_nil_r; split; [done|]; split; [apply prefix_nil|done]).
    cbn [write_client]. destruct (IH io (written ++ [frame])) as (sent & Hs & Hp & Ho).
    exists (frame :: sent). split; [by rewrite Hs, <-app_assoc|].
    split; [by apply prefix_cons|]. intros H. cbn. by rewrite (Ho H).
  - exists []. rewrite app_nil_r. split; [done|]. split; [apply prefix_nil|done].
Qed.

(** The bytes of the reads up to the end. *)
Fixpoint read_bytes (reads : list read) : list Z :=
  match reads with
  | Ok (b :: bytes) :: reads => (b :: bytes) ++ read_bytes reads
  | _ => []
  end.

Lemma drain_loop_take (maximum : Z) (captured : list Z) (reads : list read) (o : TaskOutcome) :
  blen captured ≤ maximum → drain_loop maximum captured reads = Ok o →
  o = StderrDone (take (Z.to_nat maximum) (captured ++ read_bytes reads)).
Proof.
  revert captured. induction reads as [|[[|b bytes]|e] reads IH]; intros captured Hc H;
    cbn [drain_loop read_bytes] in *; try done;
    try (injection H as <-; rewrite app_nil_r, take_ge; [done|unfold blen in *; lia]).
  apply IH in H.
  - rewrite H. f_equal. unfold blen, saturating_sub in *.
    set (l := b :: bytes) in *. clearbody l.
    rewrite <-app_assoc, !take_app, take_take, length_take. f_equal. f_equal; f_equal; lia.
  - unfold blen, saturating_sub in *. rewrite length_app, length_take. lia.
Qed.

(** ** The report *)

Definition event_decisions (e : run_event) : list AuditDecision :=
  match e with
  | RunTask (Ok (ClientDone ds)) | RunTask (Ok (ServerDone ds)) => ds
  | _ => []
  end.

(** The event does not end the run. *)
Definition goes_on (e : run_event) : Prop :=
  match e with
  | RunCancelled | RunTask (Err _) => False
  | _ => True
  end.

(** What the state says of the events so far. *)
Record run_seen (s : run_state) (es : list run_event) : Prop := {
  seen_client : client_done s = true → ∃ ds, RunTask (Ok (ClientDone ds)) ∈ es;
  seen_server : server_done s = true → ∃ ds, RunTask (Ok (ServerDone ds)) ∈ es;
  seen_writer : writer_done s = true → RunTask (Ok WriterDone) ∈ es;
  seen_stderr : stderr_done s = true → RunTask (Ok (StderrDone (run_stderr s))) ∈ es;
  seen_child status : run_status s = Some status → RunChild (Ok status) true ∈ es;
}.

Lemma run_seen_mono (s : run_state) (es es' : list run_event) :
  es ⊆ es' → run_seen s es → run_seen s es'.
Proof.
  intros Hsub [Hc Hs Hw He Hst]. split; auto.
  - intros H. destruct (Hc H) as [ds Hin]. eauto.
  - intros H. destruct (Hs H) as [ds Hin]. eauto.
Qed.

Definition run_inv (s : run_state) (es : list run_event) : Prop :=
  run_seen s es ∧ run_decisions s = concat (event_decisions <$> es) ∧ Forall goes_on es.

Lemma run_inv_snoc (s s' : run_state) (es : list run_event) (e : run_event) :
  goes_on e → run_decisions s' = run_decisions s ++ event_decisions e →
  (run_seen s (es ++ [e]) → run_seen s' (es ++ [e])) → run_inv s es → run_inv s' (es ++ [e]).
Proof.
  intros Hg Hd Hseen (Hs & Hds & Hall). split; [apply Hseen; eapply run_seen_mono, Hs; set_solver|].
  rewrite Hd, Hds, fmap_app, concat_app. split; [cbn; by rewrite app_nil_r|].
  apply Forall_app. split; [done|by constructor].
Qed.

Lemma run_inv_task (s : run_state) (es : list run_event) (o : TaskOutcome) :
  run_inv s es → run_inv (task_done s o) (es ++ [RunTask (Ok o)]).
Proof.
  apply (run_inv_snoc s); [done|by destruct o; cbn; rewrite ?app_nil_r|].
  assert (RunTask (Ok o) ∈ es ++ [RunTask (Ok o)]) as Hin by set_solver.
  intros [Hc Hs Hw He Hst]. destruct o; split; cbn; eauto.
Qed.

Lemma run_inv_skip (s : run_state) (es : list run_event) (e : run_event) :
  goes_on e → event_decisions e = [] → run_inv s es → run_inv s (es ++ [e]).
Proof. intros Hg Hd. apply (run_inv_snoc s); [done|by rewrite Hd, app_nil_r|done]. Qed.

Lemma run_loop_inv (events es : list run_event) (s : run_state) (report : BrokerReport) :
  run_inv s es → run_loop s events = Some (Ok report) →
  ∃ es' rest s', es ++ events = es' ++ rest ∧ run_inv s' es' ∧ run_complete s' = Some report.
Proof.
  revert es s. induction events as [|e events IH]; intros es s Hinv H; cbn [run_loop] in H;
    destruct (run_complete s) as [r|] eqn:Er;
    try (injection H as ->; by eexists es, _, s); try done.
  assert (∀ s' : run_state, run_inv s' (es ++ [e]) → run_loop s' events = Some (Ok report) →
    ∃ es' rest s', es ++ e :: events = es' ++ rest ∧ run_inv s' es' ∧
      run_complete s' = Some report) as Hnext.
  { intros s' Hi Hl. destruct (IH _ _ Hi Hl) as (es' & rest & s2 & Heq & Hi2 & Hc2).
    exists es', rest, s2. by rewrite <-Heq, <-app_assoc. }
  destruct e as [|[o|e]|[status|e] closed|]; try done.
  - eapply Hnext, H. by apply run_inv_task.
  - destruct (run_status s) eqn:Es; [eapply Hnext, H; by apply run_inv_skip|].
    destruct closed; [|done]. eapply Hnext, H. revert Hinv.
    apply (run_inv_snoc s); [done|cbn; by rewrite app_nil_r|].
    intros [Hc Hs Hw He Hst]. split; cbn; try done. intros st [= <-]. set_solver.
  - destruct (run_status s) eqn:Es; [|done]. eapply Hnext, H. by apply run_inv_skip.
  - destruct (shutdown_deadline s); [done|]. eapply Hnext, H. by apply run_inv_skip.
Qed.

(** A run reports only when the command is approved and everything is done: both tasks, the
    writer, the standard error, and the process after the client's input was closed; the report
    has all the decisions of both tasks.  A command that is not approved starts nothing. *)
Theorem report_is_complete (display : BrokerError → list Z)
    (approved_commands : list (list (list Z))) (command : list (list Z))
    (spawn : list (list Z) → result BrokerError child_process) (events : list run_event)
    (report : BrokerReport) :
  broker_run display approved_commands command spawn events = Some (Ok report) →
  command ∈ approved_commands ∧
  ∃ es rest, events = es ++ rest ∧ Forall goes_on es ∧
    (∃ ds, RunTask (Ok (ClientDone ds)) ∈ es) ∧ (∃ ds, RunTask (Ok (ServerDone ds)) ∈ es) ∧
    RunTask (Ok WriterDone) ∈ es ∧ RunTask (Ok (StderrDone (report_stderr report))) ∈ es ∧
    RunChild (Ok (report_status report)) true ∈ es ∧
    report_decisions report = concat (event_decisions <$> es).
Proof.
  unfold broker_run. intros H. case_bool_decide as Hcmd; [|done]. split; [done|]. cbn [negb] in H.
  destruct (spawn command) as [child|]; [|done].
  destruct (ch_stdin child); [|cbn in H; by destruct (cleanup_child _ _)].
  destruct (ch_stdout child); [|cbn in H; by destruct (cleanup_child _ _)]. cbn [negb] in H.
  destruct (run_loop run_start events) as [r|] eqn:El; [|done]. cbn in H. injection H as H.
  destruct r as [report'|e]; [|unfold finish_run in H; by destruct (cleanup_child _ _)].
  injection H as ->.
  destruct (run_loop_inv events [] run_start report) as (es & rest & s & Heq & Hi & Hc); [|done|].
  { repeat split; try done. }
  destruct Hi as ([H1 H2 H3 H4 H5] & H6 & H7). unfold run_complete in Hc.
  destruct (run_status s) as [status|] eqn:Est; [|done].
  destruct (client_done s), (server_done s), (writer_done s), (stderr_done s); try done.
  injection Hc as <-. cbn. exists es, rest. repeat split; try done; auto.
Qed.
