(* ===== verification/Masking.v ===== *)
(** * Credential masking ([crates/sendbox-secrets/src/masking.rs])

    The filter between a workload's output and the terminal, the logs and the audit trail: a
    stream in, the stream with credentials replaced by a mask out, for any cut into chunks.

    The model is the whole automaton: registered values, recognizable prefixes, labels, URLs and
    private keys.  The main theorem shows that a registered credential never comes out, however
    the input is cut and whatever other values are registered meanwhile, when no byte of it is
    a blank, a quote, a bracket, or one of [< > ` / ? #], and it is not part of the word in the
    mask.  That side condition is needed: [url_splits_credential] is a credential with a slash
    that comes out unmasked.  Two further theorems show that what is held back is bounded, and
    that the last call leaves nothing behind. *)

From S2P Require Import Prelude RustStr.

(** ** Constants *)

Definition CREDENTIAL_MASK : list Z := str "[REDACTED]".
Definition MAX_REGISTERED_CREDENTIALS : nat := 512.
Definition MAX_SECRET_VALUE_BYTES : nat := Nat.mul 64 1024.

Definition TOKEN_PREFIXES : list (list Z) :=
  str <$> ["github_pat_"; "ghp_"; "gho_"; "ghu_"; "ghs_"; "ghr_"; "sk-ant-"; "sk-proj-"; "sk-";
           "AIza"; "glpat-"; "xoxb-"; "xoxp-"; "xoxa-"; "xoxr-"; "xoxs-"].

Definition SENSITIVE_LABELS : list (list Z) :=
  str <$> ["authorization"; "proxy-authorization"; "password"; "passwd"; "api_key"; "api-key";
           "apikey"; "token"; "access_token"; "refresh_token"; "client_secret"; "secret";
           "openai_api_key"; "anthropic_api_key"; "google_api_key"; "gemini_api_key";
           "copilot_github_token"; "github_token"; "gh_token"; "github_personal_access_token";
           "aws_secret_access_key"; "azure_client_secret"; "database_password"; "db_password"].

Definition URL_PREFIXES : list (list Z) :=
  str <$> ["https://"; "http://"; "postgres://"; "postgresql://"; "mysql://"; "redis://";
           "rediss://"; "mongodb://"; "ssh://"].

Definition HEADER_PREFIXES : list (list Z) := str <$> ["bearer "; "basic "; "bearer:"].

Definition PRIVATE_KEYS : list (list Z * list Z) :=
  (λ kind, (str "-----BEGIN " ++ kind ++ str "PRIVATE KEY-----",
            str "-----END " ++ kind ++ str "PRIVATE KEY-----")) <$>
  (str <$> [""; "ENCRYPTED "; "RSA "; "EC "; "OPENSSH "]).

(** ** Data *)

Inductive MaskingMode : Type :=
| Normal
| AwaitValue (whole_line : bool)
| Unquoted (whole_line : bool)
| Quoted (delimiter : Z) (escaped : bool)
| PrivateKey (end_ : list Z) (matched : nat)
| UrlAuthority.

Inductive PrefixKind : Type :=
| Token
| Label (whole_line : bool)
| KeyBlock (end_ : list Z)
| Url.

Inductive PrefixDecision : Type :=
| NoPrefix
| Partial
| Match (length_ : nat) (kind : PrefixKind).

Inductive CredentialMaskingError : Type :=
| StateUnavailable
| TooManyCredentials
| ValueTooLarge.

(** The registered values, by their first byte. *)
Record CredentialValues : Type := {
  values : gmap Z (list (list Z));
  count : nat;
}.

Definition CredentialValues_default : CredentialValues := {| values := ∅; count := 0 |}.

Record CredentialMaskingStream : Type := {
  m_pending : list Z;
  m_mode : MaskingMode;
  m_previous : option Z;
}.

Definition stream : CredentialMaskingStream :=
  {| m_pending := []; m_mode := Normal; m_previous := None |}.

(** The lock is never poisoned in the model. *)
Definition register (state : CredentialValues) (value : list Z)
  : result CredentialMaskingError CredentialValues :=
  match value with
  | [] => Ok state
  | first :: _ =>
      if (MAX_SECRET_VALUE_BYTES <? length value)%nat then Err ValueTooLarge
      else
        let bucket := default [] (values state !! first) in
        if bool_decide (value ∈ bucket) then Ok state
        else if (MAX_REGISTERED_CREDENTIALS <=? count state)%nat then Err TooManyCredentials
        else Ok {| values := <[first := bucket ++ [value]]> (values state);
                   count := S (count state) |}
  end.

(** ** Matching *)

(** [.map(len).max()] *)
Definition max_length (l : list (list Z)) : option nat :=
  foldr (λ v acc, Some (match acc with Some n => Nat.max (length v) n | None => length v end))
    None l.

(** The length of the longest value that the input starts with, and whether the input may be
    the beginning of one. *)
Definition known_match (state : CredentialValues) (input : list Z) : option nat * bool :=
  match input with
  | [] => (None, false)
  | first :: _ =>
      match values state !! first with
      | None => (None, false)
      | Some vs =>
          (max_length (filter (λ v, starts_with input v = true) vs),
           existsb (λ v, (length input <? length v)%nat && starts_with v input) vs)
      end
  end.

(** The values in a complete text replaced. *)
Fixpoint mask_known_loop (fuel : nat) (state : CredentialValues) (input : list Z) : list Z :=
  match fuel, input with
  | O, _ | _, [] => []
  | S fuel, b :: rest =>
      match (known_match state input).1 with
      | Some n => CREDENTIAL_MASK ++ mask_known_loop fuel state (drop n input)
      | None => b :: mask_known_loop fuel state rest
      end
  end.

Definition mask_known_values (state : CredentialValues) (input : list Z) : list Z :=
  mask_known_loop (length input) state input.

Definition token_boundary (b : Z) : bool :=
  is_ascii_whitespace b ||
  bool_decide (b ∈ [ch_dquote; ch_quote; 44; 59; 41; 93; 125; 60; 62; 96]).

Definition url_boundary (b : Z) : bool :=
  is_ascii_whitespace b || bool_decide (b ∈ [ch_dquote; 60; 62; 96; ch_slash; ch_question; 35]).

Definition line_boundary (b : Z) : bool := bool_decide (b ∈ [ch_cr; ch_lf; ch_dquote; ch_quote]).

Definition starts_ascii (input prefix : list Z) : bool :=
  (length prefix <=? length input)%nat && eq_ignore_ascii_case (take (length prefix) input) prefix.

Definition partial_ascii (input prefix : list Z) : bool :=
  (length input <? length prefix)%nat && eq_ignore_ascii_case (take (length input) prefix) input.

(** The first prefix of the list the input starts with. *)
Definition find_prefix (prefixes : list (list Z)) (input : list Z) : option (list Z) :=
  find (starts_ascii input) prefixes.

(** Blanks after a label, at most 65 counted from the end of the label. *)
Fixpoint skip_blanks (fuel : nat) (input : list Z) : nat :=
  match fuel, input with
  | S fuel, b :: rest =>
      if (b =? ch_space) || (b =? ch_tab) then S (skip_blanks fuel rest) else 0
  | _, _ => 0
  end.

(** What one label says: a match with its length, or whether it may still become one. *)
Definition label_decision (input label : list Z) : option nat * bool :=
  if partial_ascii input label then (None, true)
  else if negb (starts_ascii input label) then (None, false)
  else
    let offset := length label in
    let quote := match input !! offset with
                 | Some b => bool_decide (b ∈ [ch_dquote; ch_quote]) | None => false end in
    let offset := if quote then S offset else offset in
    let blanks := skip_blanks (65 - (offset - length label)) (drop offset input) in
    let offset := (offset + blanks)%nat in
    if (offset =? length input)%nat && (offset - length label <=? 64)%nat then (None, true)
    else match input !! offset with
         | Some b => if (b =? ch_colon) || (b =? 61) then (Some (S offset), false)
                     else (None, false)
         | None => (None, false)
         end.

Fixpoint detect_label (labels : list (list Z)) (input : list Z) (partial : bool)
  : PrefixDecision :=
  match labels with
  | [] => if partial then Partial else NoPrefix
  | label :: labels =>
      match label_decision input label with
      | (Some n, _) => Match n (Label (ends_with label (str "authorization")))
      | (None, p) => detect_label labels input (partial || p)
      end
  end.

Definition word_boundary (previous : option Z) : bool :=
  match previous with
  | None => true
  | Some b => negb (is_ascii_alphanumeric b) && negb ((b =? 95) || (b =? ch_hyphen))
  end.

Definition detect_prefix (input : list Z) (previous : option Z) : PrefixDecision :=
  let boundary := word_boundary previous in
  match find (λ '(begin_, _), starts_ascii input begin_) PRIVATE_KEYS with
  | Some (begin_, end_) => Match (length begin_) (KeyBlock end_)
  | None =>
  let partial := existsb (λ '(begin_, _), partial_ascii input begin_) PRIVATE_KEYS in
  match find_prefix TOKEN_PREFIXES input with
  | Some prefix => Match (length prefix) Token
  | None =>
  let partial := partial || existsb (partial_ascii input) TOKEN_PREFIXES in
  if negb boundary then (if partial then Partial else NoPrefix)
  else
  match find_prefix HEADER_PREFIXES input with
  | Some prefix => Match (length prefix) (Label false)
  | None =>
  let partial := partial || existsb (partial_ascii input) HEADER_PREFIXES in
  match find_prefix URL_PREFIXES input with
  | Some prefix => Match (length prefix) Url
  | None =>
  let partial := partial || existsb (partial_ascii input) URL_PREFIXES in
  detect_label SENSITIVE_LABELS input partial
  end end end end.

(** ** The automaton *)

(** The mode and the byte before the next one, the bytes left, and what is put out. *)
Definition step_result : Type := MaskingMode * option Z * list Z * list Z.

(** One byte of a private key block. *)
Definition key_next (end_ : list Z) (matched : nat) (b : Z) : nat :=
  if bool_decide (end_ !! matched = Some b) then S matched
  else if bool_decide (head end_ = Some b) then 1 else 0.

(** The end of the block in the bytes of a value: found, or how much of it is matched. *)
Fixpoint key_scan (end_ : list Z) (matched : nat) (consumed : list Z) : option nat :=
  match consumed with
  | [] => Some matched
  | b :: consumed =>
      let matched := key_next end_ matched b in
      if (matched =? length end_)%nat then None else key_scan end_ matched consumed
  end.

(** A registered value inside what is being masked. *)
Definition mode_after_value (mode : MaskingMode) (consumed : list Z) : MaskingMode :=
  match mode with
  | Unquoted whole_line =>
      if existsb (if whole_line then line_boundary else token_boundary) consumed then Normal
      else mode
  | PrivateKey end_ matched =>
      match key_scan end_ matched consumed with
      | None => Normal
      | Some matched => PrivateKey end_ matched
      end
  | _ => mode
  end.

(** The mode a prefix starts. *)
Definition mode_of_prefix (kind : PrefixKind) (consumed : list Z) : MaskingMode :=
  match kind with
  | Token => Unquoted false
  | Label whole_line => AwaitValue whole_line
  | KeyBlock end_ => if contains_sub consumed end_ then Normal else PrivateKey end_ 0
  | Url => UrlAuthority
  end.

(** [rposition] *)
Definition rposition (f : Z → bool) (l : list Z) : option nat :=
  match position f (reverse l) with Some i => Some (length l - 1 - i)%nat | None => None end.

Section Drain.
Variable state : CredentialValues.
Variables final_chunk mask_partial_value : bool.

(** A URL without a value at its start: [remaining] begins with the [length_] bytes of the
    scheme. *)
Definition drain_url (remaining : list Z) (length_ : nat) : option step_result :=
  let authority := drop length_ remaining in
  let found := position url_boundary authority in
  if bool_decide (found = None) && negb final_chunk &&
     (length authority <=? MAX_SECRET_VALUE_BYTES)%nat
  then None
  else
    let end_ := default (length authority) found in
    let scheme := mask_known_values state (take length_ remaining) in
    let '(mode, text) :=
      if (MAX_SECRET_VALUE_BYTES <? end_)%nat then
        (if (length_ + end_ =? length remaining)%nat && negb final_chunk then UrlAuthority
         else Normal, CREDENTIAL_MASK)
      else
        match rposition (λ b, b =? ch_at) (take end_ authority) with
        | Some at_ =>
            (Normal, CREDENTIAL_MASK ++
                     mask_known_values state (drop at_ (take end_ authority)))
        | None => (Normal, mask_known_values state (take end_ authority))
        end in
    Some (mode, last (take (length_ + end_) remaining), drop (length_ + end_) remaining,
          scheme ++ text).

(** Outside of a value; [None] is to wait for more input. *)
Definition drain_normal (previous : option Z) (remaining : list Z) : option step_result :=
  if starts_with remaining CREDENTIAL_MASK then
    Some (Normal, last CREDENTIAL_MASK, drop (length CREDENTIAL_MASK) remaining, CREDENTIAL_MASK)
  else if negb final_chunk && starts_with CREDENTIAL_MASK remaining then None
  else
    let '(matched, partial) := known_match state remaining in
    if partial && negb final_chunk then None
    else if bool_decide (is_Some matched) && negb final_chunk &&
            match detect_prefix remaining previous with Partial => true | _ => false end
    then None
    else if partial && final_chunk && mask_partial_value then
      Some (Normal, last remaining, [], CREDENTIAL_MASK)
    else
      match matched with
      | Some n =>
          let '(n, mode) :=
            match detect_prefix remaining previous with
            | Match prefix_length kind =>
                let n := Nat.max n prefix_length in
                (n, mode_of_prefix kind (take n remaining))
            | _ => (n, Normal)
            end in
          Some (mode, remaining !! (n - 1)%nat, drop n remaining, CREDENTIAL_MASK)
      | None =>
          let copy := Some (Normal, head remaining, tail remaining, take 1 remaining) in
          match detect_prefix remaining previous with
          | Partial => if final_chunk then copy else None
          | Match n Token =>
              Some (Unquoted false, remaining !! (n - 1)%nat, drop n remaining, CREDENTIAL_MASK)
          | Match n (Label whole_line) =>
              Some (AwaitValue whole_line, remaining !! (n - 1)%nat, drop n remaining,
                    mask_known_values state (take n remaining))
          | Match n (KeyBlock end_) =>
              Some (PrivateKey end_ 0, remaining !! (n - 1)%nat, drop n remaining,
                    CREDENTIAL_MASK)
          | Match n Url => drain_url remaining n
          | NoPrefix => copy
          end
      end.

(** After a label. *)
Definition drain_await (whole_line : bool) (b : Z) (remaining : list Z) : option step_result :=
  if (b =? ch_space) || (b =? ch_tab) then
    Some (AwaitValue whole_line, Some b, tail remaining, [b])
  else if (b =? ch_cr) || (b =? ch_lf) then Some (Normal, Some b, tail remaining, [b])
  else if starts_with remaining CREDENTIAL_MASK then
    Some (Normal, last CREDENTIAL_MASK, drop (length CREDENTIAL_MASK) remaining, CREDENTIAL_MASK)
  else if negb final_chunk && starts_with CREDENTIAL_MASK remaining then None
  else
    let '(matched, partial) := known_match state remaining in
    if partial && negb final_chunk then None
    else
      match matched with
      | Some n =>
          Some (Unquoted whole_line, remaining !! (n - 1)%nat, drop n remaining, CREDENTIAL_MASK)
      | None =>
          if (b =? ch_dquote) || (b =? ch_quote)
          then Some (Quoted b false, Some b, tail remaining, b :: CREDENTIAL_MASK)
          else Some (Unquoted whole_line, Some b, tail remaining, CREDENTIAL_MASK)
      end.

(** The byte ends the value: it is looked at again outside of it. *)
Definition leave (mode : MaskingMode) (b : Z) : MaskingMode :=
  match mode with
  | Unquoted whole_line =>
      if (if whole_line then line_boundary b else token_boundary b) then Normal else mode
  | UrlAuthority => if url_boundary b then Normal else mode
  | _ => mode
  end.

(** The byte in its mode, when no registered value begins at it inside a value. *)
Definition drain_mode (mode : MaskingMode) (previous : option Z) (b : Z) (remaining : list Z)
  : option step_result :=
  match mode with
  | Normal => drain_normal previous remaining
  | AwaitValue whole_line => drain_await whole_line b remaining
  | Unquoted _ | UrlAuthority => Some (mode, Some b, tail remaining, [])
  | Quoted delimiter escaped =>
      if escaped then Some (Quoted delimiter false, Some b, tail remaining, [])
      else if b =? ch_backslash then Some (Quoted delimiter true, Some b, tail remaining, [])
      else if b =? delimiter then Some (Normal, Some b, tail remaining, [b])
      else Some (mode, Some b, tail remaining, [])
  | PrivateKey end_ matched =>
      let matched := key_next end_ matched b in
      Some (if (matched =? length end_)%nat then Normal else PrivateKey end_ matched, Some b,
            tail remaining, [])
  end.

(** One iteration of the loop; [b] is the first byte of [remaining].  The mode is the one the
    stream is left in when the iteration breaks. *)
Definition drain_step (mode : MaskingMode) (previous : option Z) (b : Z) (remaining : list Z)
  : MaskingMode * option step_result :=
  match mode with
  | Normal | AwaitValue _ => (mode, drain_mode mode previous b remaining)
  | _ =>
      let '(matched, partial) := known_match state remaining in
      if partial && negb final_chunk then (mode, None)
      else
        match matched with
        | Some n =>
            let consumed := take n remaining in
            (mode, Some (mode_after_value mode consumed, last consumed, drop n remaining, []))
        | None => (leave mode b, drain_mode (leave mode b) previous b remaining)
        end
  end.

Fixpoint drain_loop (fuel : nat) (mode : MaskingMode) (previous : option Z) (remaining : list Z)
  : list Z * CredentialMaskingStream :=
  let stop mode := ([], {| m_pending := remaining; m_mode := mode; m_previous := previous |}) in
  match fuel, remaining with
  | S fuel, b :: _ =>
      match drain_step mode previous b remaining with
      | (mode, None) => stop mode
      | (_, Some (mode, previous, rest, text)) =>
          let '(output, s) := drain_loop fuel mode previous rest in (text ++ output, s)
      end
  | _, _ => stop mode
  end.

Definition drain (s : CredentialMaskingStream) : list Z * CredentialMaskingStream :=
  let '(output, s) := drain_loop (length (m_pending s)) (m_mode s) (m_previous s) (m_pending s) in
  (output, {| m_pending := m_pending s; m_mode := if final_chunk then Normal else m_mode s;
              m_previous := m_previous s |}).

End Drain.

Definition with_input (s : CredentialMaskingStream) (input : list Z) : CredentialMaskingStream :=
  {| m_pending := m_pending s ++ input; m_mode := m_mode s; m_previous := m_previous s |}.

Definition push (state : CredentialValues) (s : CredentialMaskingStream) (input : list Z)
  : list Z * CredentialMaskingStream :=
  drain state false true (with_input s input).

Definition finish_stream (state : CredentialValues) (s : CredentialMaskingStream)
  : list Z * CredentialMaskingStream :=
  drain state true true s.

Definition mask (state : CredentialValues) (input : list Z) : list Z :=
  let '(output, s) := push state stream input in
  output ++ (finish_stream state s).1.

Definition mask_complete (state : CredentialValues) (input : list Z) : list Z :=
  (drain state true false (with_input stream input)).1.

(** The calls of [push] on a stream, each with the values registered by then. *)
Fixpoint pushes (calls : list (CredentialValues * list Z)) (s : CredentialMaskingStream)
  : list Z * CredentialMaskingStream :=
  match calls with
  | [] => ([], s)
  | (state, input) :: calls =>
      let '(output, s) := push state s input in
      let '(rest, s) := pushes calls s in (output ++ rest, s)
  end.

Definition is_credential_name (name : list Z) : bool :=
  existsb (eq_ignore_ascii_case name) SENSITIVE_LABELS.

(** ** Registered values *)

Definition registered (state : CredentialValues) (c : list Z) : Prop :=
  match c with
  | [] => False
  | first :: _ => ∃ vs, values state !! first = Some vs ∧ c ∈ vs
  end.

(** Every value is in the list of its first byte, not empty and within the limit. *)
Definition registry_ok (state : CredentialValues) : Prop :=
  ∀ first vs v, values state !! first = Some vs → v ∈ vs →
    head v = Some first ∧ (length v ≤ MAX_SECRET_VALUE_BYTES)%nat.

(** Further values are registered. *)
Definition extends : CredentialValues → CredentialValues → Prop :=
  rtc (λ state state', ∃ v, register state v = Ok state').

Lemma register_keeps (state state' : CredentialValues) (v c : list Z) :
  register state v = Ok state' → registered state c → registered state' c.
Proof.
  unfold register. destruct v as [|first v]; [by intros [= <-]|].
  destruct (_ <? _)%nat; [done|]. case_bool_decide; [by intros [= <-]|].
  destruct (_ <=? _)%nat; [done|]. intros [= <-]. destruct c as [|b c]; [done|].
  intros (vs & Hvs & Hin). cbn. destruct (decide (b = first)) as [->|Hne].
  - rewrite lookup_insert_eq. eexists. split; [done|]. rewrite Hvs. cbn. set_solver.
  - rewrite lookup_insert_ne by done. eauto.
Qed.

Lemma register_registers (state state' : CredentialValues) (v : list Z) :
  register state v = Ok state' → v ≠ [] → registered state' v.
Proof.
  unfold register. destruct v as [|first v]; [done|]. intros H _.
  destruct (_ <? _)%nat; [done|]. case_bool_decide as Hin.
  - injection H as <-. cbn. destruct (values state !! first) as [vs|]; [eauto|].
    by apply not_elem_of_nil in Hin.
  - destruct (_ <=? _)%nat; [done|]. injection H as <-. cbn. rewrite lookup_insert_eq.
    eexists. split; [done|]. set_solver.
Qed.

Lemma extends_registered (state state' : CredentialValues) (c : list Z) :
  extends state state' → registered state c → registered state' c.
Proof.
  induction 1 as [|x y z [v Hv] _ IH]; [done|]. intros Hc. apply IH. by eapply register_keeps.
Qed.

Lemma register_ok (state state' : CredentialValues) (v : list Z) :
  register state v = Ok state' → registry_ok state → registry_ok state'.
Proof.
  unfold register. destruct v as [|first v]; [by intros [= <-]|].
  destruct (Nat.ltb_spec MAX_SECRET_VALUE_BYTES (length (first :: v))) as [|Hlen]; [done|].
  case_bool_decide; [by intros [= <-]|]. destruct (_ <=? _)%nat; [done|].
  intros [= <-] Hok b vs w. cbn [values]. destruct (decide (b = first)) as [->|Hne].
  - rewrite lookup_insert_eq. intros [= <-]. rewrite elem_of_app, list_elem_of_singleton.
    intros [Hin| ->]; [|done]. destruct (values state !! first) as [vs|] eqn:E; [by eapply Hok|].
    by apply not_elem_of_nil in Hin.
  - rewrite lookup_insert_ne by done. apply Hok.
Qed.

Lemma extends_ok (state state' : CredentialValues) :
  extends state state' → registry_ok state → registry_ok state'.
Proof.
  induction 1 as [|x y z [v Hv] _ IH]; [done|]. intros Hok. apply IH. by eapply register_ok.
Qed.

Lemma max_length_None (l : list (list Z)) : max_length l = None → l = [].
Proof. by destruct l. Qed.

Lemma max_length_elem (l : list (list Z)) (n : nat) :
  max_length l = Some n → ∃ v, v ∈ l ∧ length v = n.
Proof.
  revert n. induction l as [|v l IH]; intros n H; [done|]. cbn in H. injection H as <-.
  fold (max_length l). destruct (max_length l) as [k|]; [|exists v; set_solver].
  destruct (IH k eq_refl) as (w & Hw & Hk).
  destruct (Nat.max_spec (length v) k) as [[_ ->]|[_ ->]]; [exists w|exists v]; set_solver.
Qed.

(** A match is the length of a value the input starts with. *)
Lemma known_match_Some (state : CredentialValues) (input : list Z) (n : nat) :
  registry_ok state → (known_match state input).1 = Some n →
  (0 < n ≤ length input)%nat.
Proof.
  intros Hok. unfold known_match. destruct input as [|b input]; [done|].
  destruct (values state !! b) as [vs|] eqn:Ev; [|done]. cbn [fst]. intros Hm.
  apply max_length_elem in Hm as (v & Hv & <-). apply list_elem_of_filter in Hv as [Hs Hv].
  apply starts_with_true in Hs as [r Hr]. destruct (Hok b vs v Ev Hv) as [Hhead _].
  rewrite Hr, length_app. destruct v; [done|]. cbn. lia.
Qed.

Lemma known_partial_length (state : CredentialValues) (input : list Z) :
  registry_ok state → (known_match state input).2 = true →
  (length input < MAX_SECRET_VALUE_BYTES)%nat.
Proof.
  intros Hok. unfold known_match. destruct input as [|b input]; [done|].
  destruct (values state !! b) as [vs|] eqn:Ev; [|done]. cbn [snd]. rewrite existsb_exists.
  intros (v & Hv & Hp). apply andb_true_iff in Hp as [Hl _]. apply Nat.ltb_lt in Hl.
  destruct (Hok b vs v Ev (proj2 (list_elem_of_In _ _) Hv)) as [_ Hmax]. lia.
Qed.

(** ** Prefixes *)

Lemma starts_ascii_length (input prefix : list Z) :
  starts_ascii input prefix = true → (length prefix ≤ length input)%nat.
Proof. unfold starts_ascii. intros [H _]%andb_true_iff. by apply Nat.leb_le. Qed.

Lemma partial_ascii_length (input prefix : list Z) :
  partial_ascii input prefix = true → (length input < length prefix)%nat.
Proof. unfold partial_ascii. intros [H _]%andb_true_iff. by apply Nat.ltb_lt. Qed.

Lemma find_prefix_Some (prefixes : list (list Z)) (input p : list Z) :
  find_prefix prefixes input = Some p → p ∈ prefixes ∧ starts_ascii input p = true.
Proof. intros [H ?]%find_some. split; [by apply list_elem_of_In|done]. Qed.

Lemma partial_bound (prefixes : list (list Z)) (input : list Z) (k : nat) :
  Forall (λ p, (length p ≤ k)%nat) prefixes → existsb (partial_ascii input) prefixes = true →
  (length input ≤ k)%nat.
Proof.
  rewrite Forall_forall, existsb_exists. intros Hk (p & Hp%list_elem_of_In%Hk & H).
  apply partial_ascii_length in H. lia.
Qed.

(** A scheme ends with a slash, whatever its case. *)
Lemma scheme_slash (input p : list Z) :
  p ∈ URL_PREFIXES → starts_ascii input p = true → last (take (length p) input) = Some ch_slash.
Proof.
  intros Hp. unfold starts_ascii, eq_ignore_ascii_case, to_ascii_lowercase.
  intros [_ H]%andb_true_iff. apply bool_decide_eq_true in H.
  assert (last p = Some ch_slash) as Hl.
  { revert p Hp H. apply (Forall_forall (λ p, _ → last p = Some ch_slash)).
    repeat constructor. }
  apply (f_equal last) in H. rewrite !fmap_last, Hl in H. cbn in H.
  destruct (last (take _ _)) as [y|]; [|done]. cbn in H. injection H as H.
  change (to_ascii_lower ch_slash) with ch_slash in H. unfold to_ascii_lower in H.
  destruct (is_ascii_uppercase y) eqn:Ey; [|by subst].
  unfold is_ascii_uppercase, in_range, ch_slash in *. lia.
Qed.

Lemma label_match_length (input label : list Z) (n : nat) (p : bool) :
  label_decision input label = (Some n, p) → (0 < n ≤ length input)%nat.
Proof.
  unfold label_decision. destruct (partial_ascii _ _); [done|]. destruct (negb _); [done|].
  cbv zeta. destruct (_ && _); [done|]. destruct (input !! _) as [b|] eqn:E; [|done].
  apply lookup_lt_Some in E. destruct (_ || _); [|done]. intros [= <- _]. lia.
Qed.

Lemma label_partial_length (input label : list Z) (o : option nat) :
  label_decision input label = (o, true) → (length input ≤ length label + 64)%nat.
Proof.
  unfold label_decision. destruct (partial_ascii input label) eqn:Ep.
  { apply partial_ascii_length in Ep. lia. }
  destruct (negb _); [done|]. cbv zeta. destruct (_ && _) eqn:E.
  - apply andb_true_iff in E as [E1%Nat.eqb_eq E2%Nat.leb_le]. lia.
  - intros H. exfalso. clear E. repeat case_match; discriminate H.
Qed.

Lemma detect_label_match (labels : list (list Z)) (input : list Z) (partial : bool) (n : nat)
    (kind : PrefixKind) :
  detect_label labels input partial = Match n kind →
  (0 < n ≤ length input)%nat ∧ ∃ whole_line, kind = Label whole_line.
Proof.
  revert partial. induction labels as [|label labels IH]; intros partial; simpl.
  { by destruct partial. }
  destruct (label_decision input label) as [[k|] q] eqn:E; [|apply IH].
  intros [= <- <-]. split; [by eapply label_match_length|eauto].
Qed.

Lemma detect_label_partial (labels : list (list Z)) (input : list Z) (partial : bool) :
  detect_label labels input partial = Partial →
  partial = true ∨ ∃ label, label ∈ labels ∧ (length input ≤ length label + 64)%nat.
Proof.
  revert partial. induction labels as [|label labels IH]; intros partial; simpl.
  { destruct partial; [by left|done]. }
  destruct (label_decision input label) as [[k|] q] eqn:E; [done|].
  intros [H|(l & Hl & Hlen)]%IH; [|right; exists l; set_solver].
  destruct partial; [by left|]. cbn in H. subst q. right. exists label.
  split; [set_solver|by eapply label_partial_length].
Qed.

Definition lengths_within (lo hi : nat) (l : list (list Z)) : Prop :=
  Forall (λ p, lo ≤ length p ∧ length p ≤ hi)%nat l.

Lemma prefix_lengths :
  lengths_within 1 40 PRIVATE_KEYS.*1 ∧ lengths_within 1 40 TOKEN_PREFIXES ∧
  lengths_within 1 40 HEADER_PREFIXES ∧ lengths_within 1 13 URL_PREFIXES ∧
  lengths_within 1 40 SENSITIVE_LABELS.
Proof. unfold lengths_within. repeat split; apply (bool_decide_unpack _); by vm_compute. Qed.

Lemma find_prefix_length (lo hi : nat) (prefixes : list (list Z)) (input p : list Z) :
  lengths_within lo hi prefixes → find_prefix prefixes input = Some p →
  (lo ≤ length p ≤ hi ∧ length p ≤ length input)%nat.
Proof.
  intros Hl [Hp Hs%starts_ascii_length]%find_prefix_Some.
  unfold lengths_within in Hl. rewrite Forall_forall in Hl. apply Hl in Hp. lia.
Qed.

Lemma find_key (input begin_ end_ : list Z) :
  find (λ '(begin_, _), starts_ascii input begin_) PRIVATE_KEYS = Some (begin_, end_) →
  (1 ≤ length begin_ ≤ length input)%nat.
Proof.
  intros [Hin Hs%starts_ascii_length]%find_some. apply list_elem_of_In in Hin.
  destruct prefix_lengths as [Hk _]. unfold lengths_within in Hk. rewrite Forall_forall in Hk.
  destruct (Hk begin_); [|lia]. apply list_elem_of_fmap. by exists (begin_, end_).
Qed.

(** A prefix that is found is in the input; one of a URL ends with a slash. *)
Lemma detect_prefix_match (input : list Z) (previous : option Z) (n : nat) (kind : PrefixKind) :
  detect_prefix input previous = Match n kind →
  (0 < n ≤ length input)%nat ∧
  (kind = Url → (n ≤ 13)%nat ∧ last (take n input) = Some ch_slash).
Proof.
  destruct prefix_lengths as (_ & HT & HH & HU & _). unfold detect_prefix.
  destruct (find _ PRIVATE_KEYS) as [[begin_ end_]|] eqn:E1.
  { intros [= <- <-]. apply find_key in E1. split; [lia|done]. }
  destruct (find_prefix TOKEN_PREFIXES input) as [p|] eqn:E2.
  { intros [= <- <-]. apply (find_prefix_length _ _ _ _ _ HT) in E2. split; [lia|done]. }
  cbv zeta. destruct (negb _); [by destruct (_ || _)|].
  destruct (find_prefix HEADER_PREFIXES input) as [p|] eqn:E3.
  { intros [= <- <-]. apply (find_prefix_length _ _ _ _ _ HH) in E3. split; [lia|done]. }
  destruct (find_prefix URL_PREFIXES input) as [p|] eqn:E4.
  { intros [= <- <-]. pose proof (find_prefix_length _ _ _ _ _ HU E4). split; [lia|]. intros _.
    split; [lia|]. apply find_prefix_Some in E4 as [? ?]. by apply scheme_slash. }
  intros [? [w ->]]%detect_label_match. done.
Qed.

Lemma partial_within (lo hi : nat) (prefixes : list (list Z)) (input : list Z) :
  lengths_within lo hi prefixes → existsb (partial_ascii input) prefixes = true →
  (length input ≤ hi)%nat.
Proof. intros H. apply partial_bound. eapply Forall_impl; [exact H|]. cbv beta. lia. Qed.

(** What may become a prefix is short. *)
Lemma detect_prefix_partial (input : list Z) (previous : option Z) :
  detect_prefix input previous = Partial → (length input ≤ 104)%nat.
Proof.
  destruct prefix_lengths as (HK & HT & HH & HU & HL). unfold detect_prefix.
  destruct (find _ PRIVATE_KEYS) as [[begin_ end_]|]; [done|].
  destruct (find_prefix TOKEN_PREFIXES input); [done|]. cbv zeta.
  set (p1 := existsb _ PRIVATE_KEYS). assert (p1 = true → length input ≤ 104)%nat as H1.
  { intros H. cut (length input ≤ 40)%nat; [lia|]. apply (partial_within _ _ _ _ HK).
    apply existsb_exists in H as ([b e] & Hin & H). apply existsb_exists. exists b.
    split; [|done]. apply in_map_iff. by exists (b, e). }
  set (p2 := existsb _ TOKEN_PREFIXES). assert (p2 = true → length input ≤ 104)%nat as H2.
  { intros H%(partial_within _ _ _ _ HT). lia. }
  destruct (negb _).
  { destruct p1; [auto|]. destruct p2; [auto|done]. }
  destruct (find_prefix HEADER_PREFIXES input); [done|].
  destruct (find_prefix URL_PREFIXES input); [done|].
  intros [H|(l & Hl & Hlen)]%detect_label_partial.
  - apply orb_true_iff in H as [H|H%(partial_within _ _ _ _ HU)]; [|lia].
    apply orb_true_iff in H as [H|H%(partial_within _ _ _ _ HH)]; [|lia].
    apply orb_true_iff in H as [H|H]; auto.
  - unfold lengths_within in HL. rewrite Forall_forall in HL. apply HL in Hl. lia.
Qed.

(** ** Progress *)

(** A byte that no delimiter of the automaton is. *)
Definition plain (b : Z) : bool :=
  negb (is_ascii_whitespace b) &&
  negb (bool_decide (b ∈ [ch_dquote; ch_quote; 60; 62; 96; ch_slash; ch_question; 35; 91; 93])).

(** The closing delimiter is a quote. *)
Definition mode_ok (mode : MaskingMode) : Prop :=
  match mode with Quoted delimiter _ => plain delimiter = false | _ => True end.

(** The most a stream holds back: a scheme and an authority without an end. *)
Definition HELD_BACK : nat := MAX_SECRET_VALUE_BYTES + 13.

Lemma HELD_BACK_prefix : (104 ≤ HELD_BACK)%nat.
Proof. apply Nat.leb_le. by vm_compute. Qed.

Section Progress.
Variable state : CredentialValues.
Hypothesis Hok : registry_ok state.
Variables final_chunk mask_partial_value : bool.

(** An iteration takes at least a byte, or is to wait with few. *)
Definition progress (remaining : list Z) (o : option step_result) : Prop :=
  match o with
  | None => final_chunk = false ∧ (length remaining ≤ HELD_BACK)%nat
  | Some (mode, _, rest, _) => mode_ok mode ∧ (length rest < length remaining)%nat
  end.

Lemma drop_shorter (n : nat) (l : list Z) :
  (0 < n ≤ length l)%nat → (length (drop n l) < length l)%nat.
Proof. rewrite length_drop. lia. Qed.

Lemma tail_shorter (l : list Z) : l ≠ [] → (length (tail l) < length l)%nat.
Proof. destruct l; [done|]. simpl. lia. Qed.

Lemma mode_of_prefix_ok (kind : PrefixKind) (consumed : list Z) :
  mode_ok (mode_of_prefix kind consumed).
Proof. destruct kind; simpl; try done. by case_match. Qed.

Lemma mode_after_value_ok (mode : MaskingMode) (consumed : list Z) :
  mode_ok mode → mode_ok (mode_after_value mode consumed).
Proof. destruct mode; simpl; try done; by case_match. Qed.

Lemma mask_wait (remaining : list Z) :
  negb final_chunk && starts_with CREDENTIAL_MASK remaining = true → progress remaining None.
Proof.
  intros [Hf [r Hr]%starts_with_true]%andb_true_iff. split; [by destruct final_chunk|].
  apply (f_equal length) in Hr. rewrite length_app in Hr. cbn in Hr.
  unfold HELD_BACK. lia.
Qed.

Lemma known_wait (remaining : list Z) :
  (known_match state remaining).2 && negb final_chunk = true → progress remaining None.
Proof.
  intros [Hp Hf]%andb_true_iff. split; [by destruct final_chunk|].
  apply known_partial_length in Hp; [|done]. unfold HELD_BACK. lia.
Qed.

Lemma mask_there (remaining : list Z) (mode : MaskingMode) (p : option Z) (text : list Z) :
  starts_with remaining CREDENTIAL_MASK = true → mode_ok mode →
  progress remaining (Some (mode, p, drop (length CREDENTIAL_MASK) remaining, text)).
Proof.
  intros [r ->]%starts_with_true Hm. split; [done|]. apply drop_shorter.
  rewrite length_app. cbn. lia.
Qed.

Lemma url_progress (remaining : list Z) (n : nat) :
  (0 < n ≤ length remaining)%nat → (n ≤ 13)%nat →
  progress remaining (drain_url state final_chunk remaining n).
Proof.
  intros Hn H13. unfold drain_url. set (authority := drop n remaining).
  destruct (_ && _) eqn:E.
  - apply andb_true_iff in E as [[_ Hf]%andb_true_iff Hl%Nat.leb_le].
    split; [by destruct final_chunk|]. unfold authority in Hl. rewrite length_drop in Hl.
    unfold HELD_BACK. lia.
  - cbv zeta. set (found := default _ _). set (r := if (_ <? found)%nat then _ else _).
    destruct r as [mode text] eqn:Er. split.
    + unfold r in Er. repeat case_match; simplify_eq/=; done.
    + rewrite length_drop. lia.
Qed.

Lemma normal_progress (previous : option Z) (remaining : list Z) :
  remaining ≠ [] →
  progress remaining (drain_normal state final_chunk mask_partial_value previous remaining).
Proof.
  intros Hne. unfold drain_normal.
  destruct (starts_with remaining CREDENTIAL_MASK) eqn:E1; [by apply mask_there|].
  destruct (negb final_chunk && _) eqn:E2; [by apply mask_wait|].
  pose proof (known_wait remaining) as Hw. pose proof (known_match_Some state remaining) as Hm.
  destruct (known_match state remaining) as [matched partial]. cbn [fst snd] in *.
  destruct (partial && negb final_chunk) eqn:E3; [by apply Hw|].
  destruct (bool_decide (is_Some matched) && _ && _) eqn:E4.
  { apply andb_true_iff in E4 as [[_ Hf]%andb_true_iff Hp]. split; [by destruct final_chunk|].
    destruct (detect_prefix remaining previous) eqn:Ed; try done.
    apply detect_prefix_partial in Ed. pose proof HELD_BACK_prefix. lia. }
  destruct (_ && mask_partial_value).
  { split; [done|]. destruct remaining; [done|simpl; lia]. }
  destruct matched as [n|].
  - specialize (Hm n Hok eq_refl).
    destruct (detect_prefix remaining previous) as [| |k kind] eqn:Ed;
      try (split; [done|by apply drop_shorter]).
    apply detect_prefix_match in Ed as [Hk _]. split; [apply mode_of_prefix_ok|].
    apply drop_shorter. lia.
  - destruct (detect_prefix remaining previous) as [| |k kind] eqn:Ed.
    + split; [done|by apply tail_shorter].
    + destruct final_chunk eqn:Ef; [split; [done|by apply tail_shorter]|]. split; [done|].
      apply detect_prefix_partial in Ed. pose proof HELD_BACK_prefix. lia.
    + apply detect_prefix_match in Ed as [Hk Hu].
      destruct kind; try (split; [done|by apply drop_shorter]).
      apply url_progress; [done|]. by apply Hu.
Qed.

Lemma await_progress (whole_line : bool) (b : Z) (remaining : list Z) :
  remaining ≠ [] → progress remaining (drain_await state final_chunk whole_line b remaining).
Proof.
  intros Hne. unfold drain_await.
  destruct (_ || _); [split; [done|by apply tail_shorter]|].
  destruct (_ || _); [split; [done|by apply tail_shorter]|].
  destruct (starts_with remaining CREDENTIAL_MASK) eqn:E1; [by apply mask_there|].
  destruct (negb final_chunk && _) eqn:E2; [by apply mask_wait|].
  pose proof (known_wait remaining) as Hw. pose proof (known_match_Some state remaining) as Hm.
  destruct (known_match state remaining) as [matched partial]. cbn [fst snd] in *.
  destruct (partial && negb final_chunk) eqn:E3; [by apply Hw|].
  destruct matched as [n|]; [split; [done|]; apply drop_shorter; by apply Hm|].
  destruct (_ || _) eqn:Eq; (split; [|by apply tail_shorter]); [|done].
  apply orb_true_iff in Eq as [->%Z.eqb_eq| ->%Z.eqb_eq]; done.
Qed.

Lemma step_progress (mode : MaskingMode) (previous : option Z) (b : Z) (remaining : list Z) :
  remaining ≠ [] → mode_ok mode →
  mode_ok (drain_step state final_chunk mask_partial_value mode previous b remaining).1 ∧
  progress remaining
    (drain_step state final_chunk mask_partial_value mode previous b remaining).2.
Proof.
  intros Hne Hmode.
  assert (∀ m, mode_ok m → progress remaining
            (drain_mode state final_chunk mask_partial_value m previous b remaining)) as Hin.
  { intros m Hm. destruct m; cbn [drain_mode]; [by apply normal_progress|by apply await_progress|..];
      repeat case_match; (split; [done|by apply tail_shorter]). }
  assert (mode_ok (leave mode b)) as Hleave by (destruct mode; simpl; repeat case_match; done).
  pose proof (known_wait remaining) as Hw. pose proof (known_match_Some state remaining) as Hm.
  unfold drain_step. destruct (known_match state remaining) as [matched partial].
  cbn [fst snd] in *.
  destruct mode; (try by (split; [|apply Hin]));
    (destruct (partial && negb final_chunk); [split; [done|by apply Hw]|]);
    (destruct matched as [n|]; [|split; [done|by apply Hin]]);
    (split; [done|]; split; [by apply mode_after_value_ok|apply drop_shorter; by apply Hm]).
Qed.

Lemma drain_loop_progress (fuel : nat) (mode : MaskingMode) (previous : option Z)
    (remaining : list Z) :
  (length remaining ≤ fuel)%nat → mode_ok mode →
  let s := (drain_loop state final_chunk mask_partial_value fuel mode previous remaining).2 in
  mode_ok (m_mode s) ∧ (length (m_pending s) ≤ HELD_BACK)%nat ∧
  (final_chunk = true → m_pending s = []).
Proof.
  revert mode previous remaining. induction fuel as [|fuel IH]; intros mode previous remaining Hf Hm.
  { destruct remaining; [|simpl in Hf; lia]. simpl. split_and!; [done|lia|done]. }
  destruct remaining as [|b rest]; [simpl; split_and!; [done|lia|done]|].
  pose proof (step_progress mode previous b (b :: rest) ltac:(done) Hm) as [Hm' Hp].
  cbn [drain_loop]. destruct (drain_step _ _ _ _ _ _ _) as [m' [[[[m p] r] text]|]];
    cbn [fst snd] in *.
  - destruct Hp as [Hmok Hlen]. specialize (IH m p r ltac:(simpl in *; lia) Hmok).
    destruct (drain_loop _ _ _ _ _ _ _) as [output s]. exact IH.
  - destruct Hp as [Hfin Hlen]. cbn [snd m_mode m_pending]. split; [exact Hm'|]. split; [exact Hlen|congruence].
Qed.

End Progress.

(** ** What comes out *)

Definition occurs (c out : list Z) : Prop := ∃ l r, out = l ++ c ++ r.

(** The credentials the theorem is about. *)
Record maskable (c : list Z) : Prop := {
  maskable_ne : c ≠ [];
  maskable_plain b : b ∈ c → plain b = true;
  maskable_word : ¬ occurs c (str "REDACTED");
}.

Section Safety.
Variable c : list Z.
Hypothesis Hc : maskable c.

Lemma maskable_cons : ∃ b c', c = b :: c'.
Proof. pose proof (maskable_ne c Hc). destruct c as [|b c']; [done|eauto]. Qed.

Lemma occurs_separator (l r : list Z) (x : Z) :
  plain x = false → occurs c (l ++ x :: r) → occurs c l ∨ occurs c r.
Proof.
  intros Hx (a & b & Heq). pose proof (maskable_ne c Hc) as Hne.
  assert (x ∉ c) as Hxc by (intros Hin; apply (maskable_plain c Hc) in Hin; congruence).
  symmetry in Heq. apply app_eq_inv in Heq as [(k & Ha & Hr)|(k & Hl & Hr)].
  - destruct k as [|y k].
    + exfalso. apply Hxc. destruct maskable_cons as (y & c' & Ec). rewrite Ec in Hr |- *.
      cbn in Hr. injection Hr as <- _. set_solver.
    + cbn in Hr. injection Hr as <- ->. right. by exists k, b.
  - symmetry in Hr. apply app_eq_inv in Hr as [(k2 & Hc2 & Hr)|(k2 & Hk & Hr)].
    + left. exists a, k2. by rewrite Hl, Hc2.
    + destruct k2 as [|y k2].
      { left. exists a, []. by rewrite Hl, Hk, !app_nil_r. }
      cbn in Hr. injection Hr as <- _. exfalso. apply Hxc. rewrite Hk. set_solver.
Qed.

(** The mask separates what is before it from what is after it. *)
Lemma occurs_mask (l r : list Z) :
  occurs c (l ++ CREDENTIAL_MASK ++ r) → occurs c l ∨ occurs c r.
Proof.
  change (l ++ CREDENTIAL_MASK ++ r) with (l ++ 91 :: str "REDACTED" ++ 93 :: r).
  intros [H|H]%occurs_separator; [by left| |done].
  apply occurs_separator in H as [H|H]; [|by right|done]. by apply (maskable_word c Hc) in H.
Qed.

(** The bytes [t] may come next: they are there, or what is there may become them. *)
Definition may_follow (final : bool) (t pend : list Z) : Prop :=
  t `prefix_of` pend ∨ (final = false ∧ pend `prefix_of` t).

(** Nothing has come out, and nothing that has begun to come out can be completed. *)
Definition ready (final : bool) (out pend : list Z) : Prop :=
  ¬ occurs c out ∧
  ∀ s t, c = s ++ t → s ≠ [] → s `suffix_of` out → ¬ may_follow final t pend.

(** The output ends with a delimiter. *)
Definition sealed (out : list Z) : Prop := out = [] ∨ ∃ o x, out = o ++ [x] ∧ plain x = false.

Lemma sealed_ready (final : bool) (out pend : list Z) :
  ¬ occurs c out → sealed out → ready final out pend.
Proof.
  intros Hno Hs. split; [done|]. intros s t Hst Hne Hsuf. exfalso.
  destruct s as [|y s _] using rev_ind; [done|]. destruct Hsuf as [k Hk].
  destruct Hs as [->|(o & x & -> & Hx)].
  - destruct k; discriminate Hk || (destruct s; discriminate Hk).
  - rewrite app_assoc in Hk. apply app_inj_tail in Hk as [_ ->].
    assert (y ∈ c) as Hy by (rewrite Hst; set_solver).
    apply (maskable_plain c Hc) in Hy. congruence.
Qed.

Lemma mask_sealed (out : list Z) :
  ¬ occurs c out → ¬ occurs c (out ++ CREDENTIAL_MASK) ∧ sealed (out ++ CREDENTIAL_MASK).
Proof.
  intros Hno. split.
  - rewrite <-(app_nil_r CREDENTIAL_MASK). intros [H|H]%occurs_mask; [done|].
    destruct H as (l & r & H). destruct maskable_cons as (b & c' & ->). by destruct l.
  - right. exists (out ++ str "[REDACTED"), 93. by rewrite <-app_assoc.
Qed.

Lemma delimiter_sealed (out : list Z) (x : Z) :
  plain x = false → ¬ occurs c out → ¬ occurs c (out ++ [x]) ∧ sealed (out ++ [x]).
Proof.
  intros Hx Hno. split; [|right; eauto]. intros [H|H]%occurs_separator; [done| |done].
  destruct H as (l & r & H). destruct maskable_cons as (b & c' & ->). by destruct l.
Qed.

(** One byte is copied where no value begins. *)
Lemma ready_copy (final : bool) (out pend : list Z) (b : Z) :
  ready final out (b :: pend) → ¬ may_follow final c (b :: pend) → ready final (out ++ [b]) pend.
Proof.
  intros [Hno Hr] Hc0.
  assert (∀ s t, c = s ++ t → s ≠ [] → s `suffix_of` out ++ [b] → ¬ may_follow final t pend)
    as Hnext.
  { intros s t Hst Hne [k Hk] Hm. destruct s as [|y s _] using rev_ind; [done|].
    rewrite app_assoc in Hk. apply app_inj_tail in Hk as [Hk ->].
    rewrite <-app_assoc in Hst. cbn in Hst.
    assert (may_follow final (y :: t) (y :: pend)) as Hm'.
    { destruct Hm as [Hm|[Hf Hm]]; [left|right; split; [done|]]; by apply prefix_cons. }
    destruct s as [|z s]; [cbn in Hst; by rewrite Hst in Hc0|].
    apply (Hr (z :: s) (y :: t)); [done|done|by exists k|done]. }
  split; [|done]. intros (l & r & Heq).
  destruct r as [|x r _] using rev_ind.
  - apply (Hnext c []); [by rewrite app_nil_r|apply Hc|exists l; by rewrite app_nil_r in Heq|].
    left. apply prefix_nil.
  - rewrite !app_assoc in Heq. apply app_inj_tail in Heq as [Heq _]. apply Hno.
    exists l, r. by rewrite Heq, <-app_assoc.
Qed.

(** A prefix of what is there, taken as complete. *)
Lemma ready_region (final : bool) (out pend region : list Z) :
  region `prefix_of` pend → ready final out pend → ready true out region.
Proof.
  intros Hp [Hno Hr]. split; [done|]. intros s t Hst Hne Hs [Ht|[? _]]; [|done].
  apply (Hr s t); try done. left. by trans region.
Qed.

(** More input. *)
Lemma ready_more (final : bool) (out pend more : list Z) :
  ready false out pend → ready final out (pend ++ more).
Proof.
  intros [Hno Hr]. split; [done|]. intros s t Hst Hne Hs Hm. apply (Hr s t Hst Hne Hs).
  destruct Hm as [Hm|[_ Hm]].
  - destruct (prefix_weak_total t pend (pend ++ more)) as [H|H]; [done|by eexists|by left|by right].
  - right. split; [done|]. trans (pend ++ more); [by eexists|done].
Qed.

Section Known.
Variable state : CredentialValues.
Hypothesis Hreg : registered state c.
Hypothesis Hok : registry_ok state.

(** Where no value is found and none may begin, the credential does not begin. *)
Lemma known_clear (final partial : bool) (pend : list Z) :
  known_match state pend = (None, partial) → (partial = true → final = true) → pend ≠ [] →
  ¬ may_follow final c pend.
Proof.
  destruct maskable_cons as (b & c' & Ec). rewrite Ec in Hreg. destruct Hreg as (vs & Hvs & Hin).
  rewrite <-Ec in Hin. intros Hk Hp Hne. destruct pend as [|first pend]; [done|].
  unfold known_match in Hk. intros [Hm|[-> Hm]].
  - destruct Hm as [r Hr]. pose proof Hr as Hr'. rewrite Ec in Hr'. cbn in Hr'.
    injection Hr' as -> _. rewrite Hvs in Hk. injection Hk as Hk _.
    apply max_length_None in Hk. assert (c ∈ filter (λ v, starts_with (b :: pend) v = true) vs) as Hf.
    { apply list_elem_of_filter. split; [|done]. apply starts_with_true. by exists r. }
    rewrite Hk in Hf. by apply not_elem_of_nil in Hf.
  - pose proof Hm as [r Hr]. rewrite Ec in Hr. cbn in Hr. injection Hr as <- Hr.
    rewrite Hvs in Hk. injection Hk as Hk Hpart. apply max_length_None in Hk.
    destruct r as [|y r].
    + assert (c ∈ filter (λ v, starts_with (b :: pend) v = true) vs) as Hf.
      { apply list_elem_of_filter. split; [|done]. apply starts_with_true. exists [].
        by rewrite Ec, Hr, !app_nil_r. }
      rewrite Hk in Hf. by apply not_elem_of_nil in Hf.
    + assert (partial = true) as ->; [|by specialize (Hp eq_refl)].
      rewrite <-Hpart. apply existsb_exists. exists c. split; [by apply list_elem_of_In|].
      apply andb_true_iff. split; [|apply starts_with_true; by exists (y :: r); rewrite Ec, Hr].
      apply Nat.ltb_lt. rewrite Ec, Hr. cbn. rewrite length_app. cbn. lia.
Qed.

Lemma mask_known_ready (fuel : nat) (out region : list Z) :
  (length region ≤ fuel)%nat → ready true out region →
  ready true (out ++ mask_known_loop fuel state region) [].
Proof.
  revert out region. induction fuel as [|fuel IH]; intros out region Hf Hr.
  { destruct region; [|simpl in Hf; lia]. cbn. by rewrite app_nil_r. }
  destruct region as [|b rest]; [cbn; by rewrite app_nil_r|]. cbn [mask_known_loop].
  destruct (known_match state (b :: rest)) as [[n|] partial] eqn:Ek; cbn [fst].
  - destruct (mask_sealed out (proj1 Hr)) as [Hno Hs]. rewrite app_assoc.
    pose proof (known_match_Some state (b :: rest) n Hok) as Hn. rewrite Ek in Hn.
    specialize (Hn eq_refl). apply IH; [rewrite length_drop; lia|by apply sealed_ready].
  - rewrite cons_middle, app_assoc. apply IH; [simpl in Hf; lia|].
    apply ready_copy; [done|]. by eapply known_clear.
Qed.

Lemma mask_known_last (fuel : nat) (region : list Z) :
  (length region ≤ fuel)%nat → region ≠ [] →
  last (mask_known_loop fuel state region) = Some 93 ∨
  last (mask_known_loop fuel state region) = last region.
Proof.
  revert region. induction fuel as [|fuel IH]; intros region Hf Hne.
  { destruct region; [done|simpl in Hf; lia]. }
  destruct region as [|b rest]; [done|]. cbn [mask_known_loop].
  destruct (known_match state (b :: rest)) as [[n|] partial] eqn:Ek; cbn [fst].
  - pose proof (known_match_Some state (b :: rest) n Hok) as Hn. rewrite Ek in Hn.
    specialize (Hn eq_refl). rewrite last_app.
    destruct (decide (drop n (b :: rest) = [])) as [->|Hd]; [left; by destruct fuel|].
    destruct (IH (drop n (b :: rest))) as [-> | ->]; [rewrite length_drop; lia|done|by left|].
    right. rewrite <-(take_drop n (b :: rest)) at 2. rewrite last_app.
    by destruct (drop n (b :: rest)) using rev_ind; [|rewrite last_snoc].
  - rewrite !last_cons. destruct rest as [|y rest]; [right; by destruct fuel|].
    destruct (IH (y :: rest)) as [-> | ->]; [simpl in *; lia|done|by left|by right].
Qed.

(** A region that ends with a delimiter. *)
Lemma mask_known_sealed (out region : list Z) (x : Z) :
  last region = Some x → plain x = false → ready true out region →
  ¬ occurs c (out ++ mask_known_values state region) ∧
  sealed (out ++ mask_known_values state region).
Proof.
  intros Hl Hx Hr. split; [by apply mask_known_ready|]. right.
  assert (∃ y, last (mask_known_values state region) = Some y ∧ plain y = false) as (y & Hy & Hp).
  { destruct (mask_known_last (length region) region) as [E|E]; [done|by intros ->|eauto|].
    rewrite Hl in E. eauto. }
  apply last_Some in Hy as [o Ho]. exists (out ++ o), y. split; [|done].
  by rewrite Ho, app_assoc.
Qed.

(** What holds between iterations: [out] has come out and [pend] is to be looked at. *)
Definition mode_inv (final : bool) (mode : MaskingMode) (out pend : list Z) : Prop :=
  mode_ok mode ∧ ¬ occurs c out ∧
  match mode with
  | Normal => ready final out pend
  | AwaitValue _ => True
  | _ => sealed out
  end.

Lemma sealed_inv (final : bool) (mode : MaskingMode) (out pend : list Z) :
  mode_ok mode → ¬ occurs c out → sealed out → mode_inv final mode out pend.
Proof. intros Hm Hno Hs. split_and!; [done|done|]. destruct mode; try done. by apply sealed_ready. Qed.

Lemma mask_inv (final : bool) (mode : MaskingMode) (out pend : list Z) :
  mode_ok mode → ¬ occurs c out → mode_inv final mode (out ++ CREDENTIAL_MASK) pend.
Proof. intros Hm [??]%mask_sealed. by apply sealed_inv. Qed.

Lemma delimiter_inv (final : bool) (mode : MaskingMode) (out pend : list Z) (x : Z) :
  mode_ok mode → plain x = false → ¬ occurs c out → mode_inv final mode (out ++ [x]) pend.
Proof. intros Hm Hx Hno. destruct (delimiter_sealed out x Hx Hno). by apply sealed_inv. Qed.

(** The output and what is left after an iteration. *)
Definition step_inv (final : bool) (out remaining : list Z) (mode : MaskingMode)
    (o : option step_result) : Prop :=
  match o with
  | None => mode_inv final mode out remaining
  | Some (mode, _, rest, text) => mode_inv final mode (out ++ text) rest
  end.

(** A delimiter stops whatever has begun. *)
Lemma ready_boundary (final : bool) (out pend : list Z) :
  ready true out [] → (∀ b, head pend = Some b → plain b = false) →
  (pend = [] → final = true) → ready final out pend.
Proof.
  intros [Hno Hr] Hp Hfin. split; [done|]. intros s t Hst Hne Hs Hm. apply (Hr s t Hst Hne Hs).
  destruct t as [|y t]; [left; done|]. exfalso.
  assert (plain y = true) as Hy by (apply (maskable_plain c Hc); rewrite Hst; set_solver).
  destruct pend as [|b pend].
  - rewrite (Hfin eq_refl) in Hm. destruct Hm as [[? Hm]|[? _]]; discriminate.
  - specialize (Hp b eq_refl). destruct Hm as [Hm|[_ Hm]]; apply prefix_cons_inv_1 in Hm; congruence.
Qed.

Lemma position_Some (f : Z → bool) (l : list Z) (i : nat) :
  position f l = Some i → ∃ b, head (drop i l) = Some b ∧ f b = true.
Proof.
  revert i. induction l as [|b l IH]; intros i; [done|]. simpl. destruct (f b) eqn:E.
  - intros [= <-]. by exists b.
  - destruct (position f l) as [j|]; [|done]. cbn. intros [= <-]. by apply IH.
Qed.

Lemma url_boundary_plain (b : Z) : url_boundary b = true → plain b = false.
Proof.
  unfold url_boundary, plain. destruct (is_ascii_whitespace b); [done|]. cbn.
  intros H%bool_decide_eq_true. rewrite bool_decide_true; [done|]. set_solver.
Qed.

(** The text of an authority is masked, and what follows it is a delimiter or nothing. *)
Lemma authority_inv (final : bool) (out authority region : list Z) (found : option nat) :
  found = position url_boundary authority →
  bool_decide (found = None) && negb final && (length authority <=? MAX_SECRET_VALUE_BYTES)%nat
    = false →
  (default (length authority) found ≤ MAX_SECRET_VALUE_BYTES)%nat →
  ¬ occurs c out → sealed out →
  mode_inv final Normal (out ++ mask_known_values state region)
    (drop (default (length authority) found) authority).
Proof.
  intros Hfound Hcond Hend Hno Hs.
  assert (ready true (out ++ mask_known_values state region) []) as Hr.
  { apply mask_known_ready; [done|]. by apply sealed_ready. }
  split_and!; [done|by apply Hr|]. apply ready_boundary; [done|..].
  - intros b Hb. destruct found as [i|]; cbn in Hb; [|by rewrite drop_all in Hb].
    destruct (position_Some url_boundary authority i) as (x & Hx & Hu); [done|].
    apply url_boundary_plain. congruence.
  - intros Hnil. destruct found as [i|].
    + cbn in Hnil. destruct (position_Some url_boundary authority i) as (x & Hx & Hu); [done|].
      by rewrite Hnil in Hx.
    + change (length authority ≤ MAX_SECRET_VALUE_BYTES)%nat in Hend.
      apply Nat.leb_le in Hend. rewrite Hend, andb_true_r in Hcond. by destruct final.
Qed.

Lemma url_inv (final : bool) (out remaining : list Z) (n : nat) :
  ready final out remaining → last (take n remaining) = Some ch_slash →
  step_inv final out remaining Normal (drain_url state final remaining n).
Proof.
  intros Hr Hlast. unfold drain_url. set (authority := drop n remaining).
  destruct (bool_decide _ && _ && _) eqn:Econd; [split_and!; [done|by apply Hr|done]|].
  cbv zeta. destruct (mask_known_sealed out (take n remaining) ch_slash) as [Hno Hs]; [done..| |].
  { eapply ready_region; [|exact Hr]. exists (drop n remaining). by rewrite take_drop. }
  rewrite <-drop_drop. fold authority.
  destruct (Nat.ltb_spec MAX_SECRET_VALUE_BYTES
    (default (length authority) (position url_boundary authority))) as [_|Hend].
  { cbn [step_inv]. rewrite app_assoc. apply mask_inv; [by case_match|done]. }
  destruct (rposition _ _) as [at_|]; cbn [step_inv]; rewrite app_assoc.
  - rewrite app_assoc. destruct (mask_sealed _ Hno) as [Hno' Hs'].
    by apply (authority_inv final _ authority _ (position url_boundary authority)).
  - by apply (authority_inv final _ authority _ (position url_boundary authority)).
Qed.

Lemma normal_inv (final mpv : bool) (previous : option Z) (out remaining : list Z) :
  remaining ≠ [] → ready final out remaining →
  step_inv final out remaining Normal (drain_normal state final mpv previous remaining).
Proof.
  intros Hne Hr. pose proof (proj1 Hr) as Hno. unfold drain_normal.
  assert (mode_inv final Normal out remaining) as Hwait by done.
  destruct (starts_with remaining CREDENTIAL_MASK); [by apply mask_inv|].
  destruct (negb final && _); [done|].
  destruct (known_match state remaining) as [matched partial] eqn:Ek.
  destruct (partial && negb final) eqn:Ep; [done|].
  destruct (bool_decide (is_Some matched) && _ && _); [done|].
  destruct (_ && mpv); [by apply mask_inv|].
  destruct matched as [n|].
  { destruct (detect_prefix remaining previous); apply mask_inv; try done.
    apply mode_of_prefix_ok. }
  assert (mode_inv final Normal (out ++ take 1 remaining) (tail remaining)) as Hcopy.
  { destruct remaining as [|b rest]; [done|]. cut (ready final (out ++ [b]) rest).
    { intros H. split_and!; [done|by apply H|done]. }
    apply ready_copy; [done|]. eapply known_clear; [exact Ek| |done].
    intros ->. by destruct final. }
  destruct (detect_prefix remaining previous) as [| |n kind] eqn:Ed; [done|by destruct final|].
  apply detect_prefix_match in Ed as [Hn Hu]. destruct kind.
  - by apply mask_inv.
  - cbn [step_inv]. split_and!; [done| |done]. apply mask_known_ready; [done|].
    eapply ready_region; [|exact Hr]. exists (drop n remaining). by rewrite take_drop.
  - by apply mask_inv.
  - apply url_inv; [done|]. by apply Hu.
Qed.

Lemma await_inv (final whole_line : bool) (b : Z) (out remaining : list Z) :
  ¬ occurs c out →
  step_inv final out remaining (AwaitValue whole_line)
    (drain_await state final whole_line b remaining).
Proof.
  intros Hno. unfold drain_await.
  destruct ((b =? ch_space) || (b =? ch_tab)) eqn:E1.
  { apply orb_true_iff in E1 as [->%Z.eqb_eq| ->%Z.eqb_eq]; by apply delimiter_inv. }
  destruct ((b =? ch_cr) || (b =? ch_lf)) eqn:E2.
  { apply orb_true_iff in E2 as [->%Z.eqb_eq| ->%Z.eqb_eq]; by apply delimiter_inv. }
  destruct (starts_with remaining CREDENTIAL_MASK); [by apply mask_inv|].
  destruct (negb final && _); [done|]. destruct (known_match state remaining) as [matched partial].
  destruct (partial && negb final); [done|]. destruct matched as [n|]; [by apply mask_inv|].
  destruct ((b =? ch_dquote) || (b =? ch_quote)) eqn:E3; [|by apply mask_inv].
  assert (plain b = false) as Hb.
  { apply orb_true_iff in E3 as [->%Z.eqb_eq| ->%Z.eqb_eq]; done. }
  cbn [step_inv]. rewrite cons_middle, app_assoc. apply mask_inv; [done|].
  by apply delimiter_sealed.
Qed.

Lemma step_keeps (final mpv : bool) (mode : MaskingMode) (previous : option Z) (b : Z)
    (out remaining : list Z) :
  remaining ≠ [] → mode_inv final mode out remaining →
  let r := drain_step state final mpv mode previous b remaining in
  step_inv final out remaining r.1 r.2.
Proof.
  intros Hne Hinv. destruct (Hinv) as (Hm & Hno & Hmode). unfold drain_step.
  assert (∀ m, mode_ok m → sealed out →
            step_inv final out remaining m (drain_mode state final mpv m previous b remaining)) as Hin.
  { intros m Hmok Hs. pose proof (sealed_ready final out) as Hready.
    destruct m; cbn [drain_mode]; [apply normal_inv; auto|by apply await_inv|..];
      try (cbn [step_inv]; rewrite app_nil_r; apply sealed_inv; [by repeat case_match|done..]).
    destruct escaped; [|destruct (b =? ch_backslash); [|destruct (Z.eqb_spec b delimiter) as [->|]]];
      cbn [step_inv]; rewrite ?app_nil_r;
      [by apply sealed_inv..|by apply delimiter_inv|by apply sealed_inv]. }
  assert (sealed out → mode_ok (leave mode b)) as Hleave
    by (destruct mode; simpl; repeat case_match; done).
  destruct (known_match state remaining) as [matched partial].
  destruct mode; [by apply normal_inv|by apply await_inv|..];
    (destruct (partial && negb final); [done|]);
    (destruct matched as [n|]; [|by apply Hin; auto]); cbn [fst snd step_inv]; rewrite app_nil_r;
    (apply sealed_inv; [by apply mode_after_value_ok|done..]).
Qed.

Lemma drain_loop_keeps (final mpv : bool) (fuel : nat) (mode : MaskingMode) (previous : option Z)
    (out remaining : list Z) :
  mode_inv final mode out remaining →
  let r := drain_loop state final mpv fuel mode previous remaining in
  mode_inv final (m_mode r.2) (out ++ r.1) (m_pending r.2).
Proof.
  revert mode previous out remaining.
  induction fuel as [|fuel IH]; intros mode previous out remaining Hinv.
  { cbn. by rewrite app_nil_r. }
  destruct remaining as [|b rest]; [cbn; by rewrite app_nil_r|]. cbn [drain_loop].
  pose proof (step_keeps final mpv mode previous b out (b :: rest) ltac:(done) Hinv) as Hstep.
  cbv zeta in Hstep.
  destruct (drain_step _ _ _ _ _ _ _) as [m' [[[[m p] r] text]|]]; cbn [fst snd step_inv] in *.
  - specialize (IH m p _ r Hstep). destruct (drain_loop _ _ _ _ _ _ _) as [output s].
    cbn [fst snd] in *. by rewrite app_assoc.
  - by rewrite app_nil_r.
Qed.

End Known.

Lemma mode_inv_more (final : bool) (mode : MaskingMode) (out pend more : list Z) :
  mode_inv false mode out pend → mode_inv final mode out (pend ++ more).
Proof.
  intros (? & ? & Hm). split_and!; [done..|]. destruct mode; try done. by apply ready_more.
Qed.

Lemma mode_inv_start (mode : MaskingMode) (pend : list Z) :
  mode_ok mode → mode_inv false mode [] pend.
Proof.
  intros Hm. apply sealed_inv; [done| |by left]. intros (l & r & H).
  destruct maskable_cons as (b & c' & ->). by destruct l.
Qed.

Lemma push_keeps (state : CredentialValues) (s : CredentialMaskingStream) (out input : list Z) :
  registered state c → registry_ok state → mode_inv false (m_mode s) out (m_pending s) →
  let r := push state s input in mode_inv false (m_mode r.2) (out ++ r.1) (m_pending r.2).
Proof.
  intros Hreg Hok Hinv. unfold push, drain, with_input. cbn [m_pending m_mode m_previous].
  pose proof (drain_loop_keeps state Hreg Hok false true (length (m_pending s ++ input)) (m_mode s)
    (m_previous s) out (m_pending s ++ input)) as H.
  destruct (drain_loop _ _ _ _ _ _ _) as [output s']. apply H. by apply mode_inv_more.
Qed.

Lemma pushes_keep (calls : list (CredentialValues * list Z)) (s : CredentialMaskingStream)
    (out : list Z) :
  Forall (λ call, registered call.1 c ∧ registry_ok call.1) calls →
  mode_inv false (m_mode s) out (m_pending s) →
  let r := pushes calls s in mode_inv false (m_mode r.2) (out ++ r.1) (m_pending r.2).
Proof.
  intros Hcalls. revert s out. induction Hcalls as [|[state input] calls [Hreg Hok] _ IH];
    intros s out Hinv; cbn [pushes]; [cbn; by rewrite app_nil_r|].
  pose proof (push_keeps state s out input Hreg Hok Hinv) as Hp.
  destruct (push state s input) as [output s']. specialize (IH s' _ Hp).
  destruct (pushes calls s') as [rest s'']. cbn [fst snd] in *. by rewrite app_assoc.
Qed.

Lemma last_drain_keeps (state : CredentialValues) (mpv : bool) (s : CredentialMaskingStream)
    (out : list Z) :
  registered state c → registry_ok state → mode_inv false (m_mode s) out (m_pending s) →
  ¬ occurs c (out ++ (drain state true mpv s).1).
Proof.
  intros Hreg Hok Hinv. unfold drain.
  pose proof (drain_loop_keeps state Hreg Hok true mpv (length (m_pending s)) (m_mode s)
    (m_previous s) out (m_pending s)) as H.
  destruct (drain_loop _ _ _ _ _ _ _) as [output s']. apply H.
  rewrite <-(app_nil_r (m_pending s)). by apply mode_inv_more.
Qed.

End Safety.

(** ** The stream *)

(** The values of every call were registered one by one. *)
Definition registered_by (calls : list (CredentialValues * list Z)) : Prop :=
  Forall (λ call, extends CredentialValues_default call.1) calls.

Lemma default_ok : registry_ok CredentialValues_default.
Proof. intros first vs v H. cbn in H. by rewrite lookup_empty in H. Qed.

Lemma push_bounded (state : CredentialValues) (s : CredentialMaskingStream) (input : list Z) :
  registry_ok state → mode_ok (m_mode s) →
  let r := (push state s input).2 in
  mode_ok (m_mode r) ∧ (length (m_pending r) ≤ HELD_BACK)%nat.
Proof.
  intros Hok Hm. unfold push, drain, with_input. cbn [m_pending m_mode m_previous].
  pose proof (drain_loop_progress state Hok false true (length (m_pending s ++ input)) (m_mode s)
    (m_previous s) (m_pending s ++ input) ltac:(done) Hm) as (H1 & H2 & _).
  destruct (drain_loop _ _ _ _ _ _ _) as [output s']. exact (conj H1 H2).
Qed.

Lemma pushes_bounded (calls : list (CredentialValues * list Z)) (s : CredentialMaskingStream) :
  registered_by calls → mode_ok (m_mode s) → (length (m_pending s) ≤ HELD_BACK)%nat →
  let r := (pushes calls s).2 in
  mode_ok (m_mode r) ∧ (length (m_pending r) ≤ HELD_BACK)%nat.
Proof.
  intros Hcalls. revert s. induction Hcalls as [|[state input] calls Hext _ IH];
    intros s Hm Hlen; cbn [pushes]; [exact (conj Hm Hlen)|].
  destruct (push_bounded state s input (extends_ok _ _ Hext default_ok) Hm) as [Hm' Hlen'].
  destruct (push state s input) as [output s']. specialize (IH s' Hm' Hlen').
  destruct (pushes calls s') as [rest s'']. exact IH.
Qed.

(** C8: A registered credential does not come out: from its registration on, at any point of a
    stream, however the rest is cut into calls of [push] and whatever is registered between
    them, neither in what the calls and [finish] return nor in the result of [mask] and
    [mask_complete].  It is about credentials of plain bytes that are no part of the word in
    the mask. *)
Theorem credential_never_comes_out (before calls : list (CredentialValues * list Z))
    (state0 state1 final_state : CredentialValues) (c : list Z) :
  maskable c → registered_by before → extends CredentialValues_default state0 →
  register state0 c = Ok state1 →
  Forall (λ call, extends state1 call.1) calls → extends state1 final_state →
  (let '(output, s) := pushes calls (pushes before stream).2 in
   ¬ occurs c (output ++ (finish_stream final_state s).1)) ∧
  ∀ input, ¬ occurs c (mask final_state input) ∧ ¬ occurs c (mask_complete final_state input).
Proof.
  intros Hc Hbefore H0 Hreg1 Hcalls Hfinal.
  assert (∀ state, extends state1 state → registered state c ∧ registry_ok state) as Hgood.
  { intros state Hext. split.
    - eapply extends_registered; [exact Hext|]. eapply register_registers; [done|apply Hc].
    - eapply extends_ok; [exact Hext|]. eapply register_ok; [done|].
      eapply extends_ok; [exact H0|exact default_ok]. }
  destruct (Hgood _ Hfinal) as [Hfreg Hfok]. split.
  - destruct (pushes_bounded before stream Hbefore I (Nat.le_0_l _)) as [Hm _].
    pose proof (pushes_keep c Hc calls (pushes before stream).2 []) as Hk.
    destruct (pushes calls _) as [output s]. apply (last_drain_keeps c Hc); [done..|].
    apply Hk; [|by apply mode_inv_start]. eapply Forall_impl; [exact Hcalls|].
    intros call. apply Hgood.
  - intros input. split.
    + unfold mask. pose proof (push_keeps c Hc final_state stream [] input Hfreg Hfok
        (mode_inv_start c Hc Normal [] I)) as Hp.
      destruct (push final_state stream input) as [output s].
      by apply (last_drain_keeps c Hc).
    + unfold mask_complete.
      apply (last_drain_keeps c Hc final_state false (with_input stream input) []); [done..|].
      by apply mode_inv_start.
Qed.

(** A stream holds back no more than a secret value and a scheme, however much has been pushed,
    and after [finish] it holds nothing. *)
Theorem held_back_bounded (calls : list (CredentialValues * list Z))
    (final_state : CredentialValues) :
  registered_by calls → extends CredentialValues_default final_state →
  let s := (pushes calls stream).2 in
  (length (m_pending s) ≤ MAX_SECRET_VALUE_BYTES + 13)%nat ∧
  m_pending (finish_stream final_state s).2 = [] ∧ m_mode (finish_stream final_state s).2 = Normal.
Proof.
  intros Hcalls Hfinal.
  destruct (pushes_bounded calls stream Hcalls I (Nat.le_0_l _)) as [Hm Hlen].
  cbv zeta. split; [exact Hlen|]. unfold finish_stream, drain.
  set (s := (pushes calls stream).2) in *.
  pose proof (drain_loop_progress final_state (extends_ok _ _ Hfinal default_ok) true true
    (length (m_pending s)) (m_mode s) (m_previous s) (m_pending s) ltac:(done) Hm) as (_ & _ & H).
  destruct (drain_loop _ _ _ _ _ _ _) as [output s']. split; [by apply H|done].
Qed.

(** ** Examples *)

Module MaskingSample.

Definition registered_one (c : list Z) : CredentialValues :=
  match register CredentialValues_default c with
  | Ok state => state
  | Err _ => CredentialValues_default
  end.

Definition secret : list Z := str "pa55word1".
Definition state : CredentialValues := registered_one secret.
Definition calls : list (CredentialValues * list Z) :=
  [(state, str "login pa5"); (state, str "5word1 or GHP_abc, token = 'x")].

(** The value is cut by the calls; the token and the label are found by their form. *)
Example masked_stream :
  let '(output, s) := pushes calls stream in
  output = str "login [REDACTED] or [REDACTED], token = '[REDACTED]" ∧
  (finish_stream state s).1 = [].
Proof. by vm_compute. Qed.

Lemma secret_maskable : maskable secret.
Proof.
  split; [done| |].
  - intros b Hb. revert b Hb. apply Forall_forall. apply (bool_decide_unpack _). by vm_compute.
  - intros H. apply contains_sub_true in H. by vm_compute in H.
Qed.

Lemma state_extends : extends CredentialValues_default state.
Proof. apply rtc_once. exists secret. by vm_compute. Qed.

Lemma credential_never_comes_out_witness :
  let '(output, s) := pushes calls (pushes [] stream).2 in
  ¬ occurs secret (output ++ (finish_stream state s).1).
Proof.
  refine (proj1 (credential_never_comes_out [] calls CredentialValues_default state state secret
    secret_maskable _ (rtc_refl _ _) _ _ (rtc_refl _ _))).
  - constructor.
  - by vm_compute.
  - repeat constructor.
Defined.

Lemma held_back_bounded_witness :
  (length (m_pending (pushes calls stream).2) ≤ MAX_SECRET_VALUE_BYTES + 13)%nat.
Proof.
  refine (proj1 (held_back_bounded calls state _ state_extends)).
  repeat constructor; exact state_extends.
Defined.

(** A registered value with a slash comes out whole after a scheme: the authority is masked up
    to the slash, where the value is cut. *)
Lemma url_splits_credential :
  mask (registered_one (str "abc/def")) (str "https://abc/def") = str "https://abc/def" ∧
  mask (registered_one (str "abc/def")) (str "see abc/def") = str "see [REDACTED]".
Proof. by vm_compute. Qed.

End MaskingSample.
