(* ===== verification/Digest.v ===== *)
(** * Digests and serialized values

    What the components that chain digests share: hexadecimal text, the interfaces of SHA-256
    and of [serde_json] for one type, and the form in which a theorem speaks of collisions:
    none among the inputs that were hashed. *)

From S2P Require Import Prelude RustStr Net.

(** ** Hexadecimal *)

(** [format!("{byte:02x}")] of every byte *)
Fixpoint hex_encode (bytes : list Z) : list Z :=
  match bytes with
  | [] => []
  | b :: bytes => hex_char (b / 16) :: hex_char (b mod 16) :: hex_encode bytes
  end.

(** [u8::from_str_radix(_, 16)] of two bytes; the first may be a plus sign *)
Definition u8_from_hex (a b : Z) : option Z :=
  if a =? ch_plus then hex_digit b
  else x ← hex_digit a; y ← hex_digit b; Some (16 * x + y).

(** The bytes of every two digits. *)
Fixpoint hex_decode (s : list Z) : option (list Z) :=
  match s with
  | [] => Some []
  | a :: b :: s => x ← u8_from_hex a b; rest ← hex_decode s; Some (x :: rest)
  | [_] => None
  end.

Definition is_ascii_hexdigit (b : Z) : bool := bool_decide (is_Some (hex_digit b)).

Lemma hex_digit_char (d : Z) : 0 ≤ d < 16 → hex_digit (hex_char d) = Some d.
Proof.
  intros Hd. unfold hex_char, hex_digit, is_ascii_digit, in_range.
  destruct (Z.ltb_spec d 10).
  - rewrite (proj2 (Z.leb_le 48 _)), (proj2 (Z.leb_le _ 57)) by lia. simpl. f_equal. lia.
  - rewrite (proj2 (Z.leb_gt _ 57)), andb_false_r by lia.
    rewrite (proj2 (Z.leb_le 97 _)), (proj2 (Z.leb_le _ 102)) by lia. simpl. f_equal. lia.
Qed.

Lemma length_hex_encode (bytes : list Z) : length (hex_encode bytes) = (2 * length bytes)%nat.
Proof. induction bytes as [|b bytes IH]; simpl; [done|]. rewrite IH. lia. Qed.

Lemma hex_decode_encode (bytes : list Z) :
  Forall is_byte bytes → hex_decode (hex_encode bytes) = Some bytes.
Proof.
  induction 1 as [|b bytes Hb _ IH]; [done|]. simpl. unfold is_byte in Hb.
  pose proof (Z.div_mod b 16 ltac:(lia)). pose proof (Z.mod_pos_bound b 16 ltac:(lia)).
  unfold u8_from_hex. destruct (Z.eqb_spec (hex_char (b / 16)) ch_plus) as [E|_].
  { exfalso. revert E. unfold hex_char, ch_plus. destruct (_ <? _) eqn:?; bool_to_prop; lia. }
  rewrite !hex_digit_char by lia. simpl. rewrite IH. simpl. do 2 f_equal. lia.
Qed.

Lemma hex_decode_length (s bytes : list Z) :
  hex_decode s = Some bytes → length s = (2 * length bytes)%nat.
Proof.
  revert s. induction bytes as [|b bytes IH]; intros [|x [|y s]]; simpl; try done; intros H.
  - destruct (u8_from_hex x y), (hex_decode s); discriminate H.
  - destruct (u8_from_hex x y), (hex_decode s) as [bytes'|] eqn:E; simpl in H; try discriminate H.
    injection H as _ ->. rewrite (IH s E). lia.
Qed.

Lemma hex_encode_inj (b1 b2 : list Z) :
  Forall is_byte b1 → Forall is_byte b2 → hex_encode b1 = hex_encode b2 → b1 = b2.
Proof.
  intros H1 H2 Heq. apply (f_equal hex_decode) in Heq.
  rewrite !hex_decode_encode in Heq by done. by injection Heq.
Qed.

Lemma hex_encode_digits (bytes : list Z) :
  Forall is_byte bytes → forallb is_ascii_hexdigit (hex_encode bytes) = true.
Proof.
  induction 1 as [|b bytes Hb _ IH]; [done|]. simpl. unfold is_byte in Hb.
  pose proof (Z.div_mod b 16 ltac:(lia)). pose proof (Z.mod_pos_bound b 16 ltac:(lia)).
  unfold is_ascii_hexdigit at 1 2. rewrite !hex_digit_char by lia. by rewrite IH.
Qed.

(** The text is lower case. *)
Lemma hex_encode_lower (bytes : list Z) :
  Forall is_byte bytes →
  forallb (λ b, is_ascii_digit b || in_range 97 102 b) (hex_encode bytes) = true.
Proof.
  assert (∀ d, 0 ≤ d < 16 →
    is_ascii_digit (hex_char d) || in_range 97 102 (hex_char d) = true) as Hlow.
  { intros d Hd. unfold hex_char, is_ascii_digit. rewrite orb_true_iff, !in_range_true.
    destruct (Z.ltb_spec d 10); lia. }
  induction 1 as [|b bytes Hb _ IH]; [done|]. simpl. unfold is_byte in Hb.
  pose proof (Z.div_mod b 16 ltac:(lia)). pose proof (Z.mod_pos_bound b 16 ltac:(lia)).
  rewrite !Hlow by lia. done.
Qed.

(** ** SHA-256 *)

Class Sha256Api : Type := { sha256 : list Z → list Z }.

Class Sha256Laws (api : Sha256Api) : Prop := {
  sha256_length input : length (sha256 input) = 32%nat;
  sha256_bytes input : Forall is_byte (sha256 input);
}.

(** No two of these inputs have one digest. *)
Definition collision_free {api : Sha256Api} (inputs : list (list Z)) : Prop :=
  ∀ a b, a ∈ inputs → b ∈ inputs → sha256 a = sha256 b → a = b.

Lemma collision_free_sub {api : Sha256Api} (l1 l2 : list (list Z)) :
  l1 ⊆ l2 → collision_free l2 → collision_free l1.
Proof. intros Hsub Hf a b Ha Hb. apply Hf; auto. Qed.

Definition collision_check {api : Sha256Api} (inputs : list (list Z)) : bool :=
  let digests := (λ a, (a, sha256 a)) <$> inputs in
  forallb (λ x, forallb (λ y, negb (bool_decide (x.2 = y.2)) || bool_decide (x.1 = y.1))
    digests) digests.

Lemma collision_check_true {api : Sha256Api} (inputs : list (list Z)) :
  collision_check inputs = true → collision_free inputs.
Proof.
  unfold collision_check. rewrite forallb_forall. intros H a b Ha Hb Heq.
  specialize (H (a, sha256 a)). rewrite forallb_forall in H.
  rewrite <-list_elem_of_In in H.
  specialize (H ltac:(apply list_elem_of_fmap; by exists a) (b, sha256 b)).
  rewrite <-list_elem_of_In in H. specialize (H ltac:(apply list_elem_of_fmap; by exists b)).
  cbn in H. rewrite (bool_decide_true (sha256 a = sha256 b)) in H by done.
  by apply bool_decide_eq_true in H.
Qed.

Lemma sha256_hex_inj {api : Sha256Api} `{!Sha256Laws api} (a b : list Z) :
  hex_encode (sha256 a) = hex_encode (sha256 b) → sha256 a = sha256 b.
Proof. apply hex_encode_inj; apply sha256_bytes. Qed.

(** ** Serialized values

    [serde_json::to_vec] and [serde_json::from_slice] at one type; the errors are texts. *)

Class Serde (A : Type) : Type := {
  to_vec : A → result (list Z) (list Z);
  from_slice : list Z → result (list Z) A;
}.

(** What [serde_json] documents of types without floating-point numbers and with text keys:
    writing does not fail, what is written is read back, and compact text has no raw control
    character and is not empty. *)
Class SerdeLaws (A : Type) {api : Serde A} : Prop := {
  to_vec_total (x : A) : ∃ bytes, to_vec x = Ok bytes;
  from_to_vec (x : A) bytes : to_vec x = Ok bytes → from_slice bytes = Ok x;
  to_vec_compact (x : A) bytes : to_vec x = Ok bytes → bytes ≠ [] ∧ ch_lf ∉ bytes;
}.

Lemma to_vec_inj {A : Type} `{SerdeLaws A} (x y : A) (bytes : list Z) :
  to_vec x = Ok bytes → to_vec y = Ok bytes → x = y.
Proof. intros Hx%from_to_vec Hy%from_to_vec. congruence. Qed.

(** ** Concrete instances

    A digest that is collision free on what the examples hash, and a reader and writer of any
    countable type. *)

Module DigestSample.

Definition checksum (input : list Z) : list Z :=
  be_bytes 16 (foldl (λ acc b, Z.land (acc * 1009 + b + 7) (Z.ones 96)) 0 input) ++
  be_bytes 16 (foldl (λ acc b, Z.land (acc * 1013 + b + 11) (Z.ones 96)) 5 input).

#[global] Instance checksum_api : Sha256Api := { sha256 := checksum }.

#[global] Instance checksum_laws : Sha256Laws checksum_api.
Proof.
  split; intros input; change (sha256 input) with (checksum input); unfold checksum.
  - by rewrite length_app, !length_be_bytes.
  - apply Forall_app; split; apply be_bytes_is_byte.
Qed.

(** Values as words: [get] reads what [put] wrote off the front of the text. *)
Class Words (A : Type) : Type := {
  put : A → list Z;
  get : list Z → option (A * list Z);
  get_put (x : A) (rest : list Z) : get (put x ++ rest) = Some (x, rest);
  put_compact (x : A) : ch_lf ∉ put x;
}.

(** A number is one word that is not a line feed. *)
#[global] Instance Z_words : Words Z.
Proof.
  refine {|
    put z := [if z <? ch_lf then z else z + 1];
    get text :=
      match text with
      | [] => None
      | w :: rest => Some (if w <? ch_lf then w else w - 1, rest)
      end |}.
  - intros z rest. cbn. do 2 f_equal. destruct (Z.ltb_spec z ch_lf) as [H|H].
    + by rewrite (proj2 (Z.ltb_lt _ _) H).
    + rewrite (proj2 (Z.ltb_ge _ _)) by lia. lia.
  - intros z. rewrite list_elem_of_singleton. destruct (Z.ltb_spec z ch_lf); lia.
Defined.

(** Through another type. *)
Definition words_via {A B : Type} `{Words B} (f : A → B) (g : B → A)
    (Hgf : ∀ x, g (f x) = x) : Words A.
Proof.
  refine {| put x := put (f x); get text := '(y, rest) ← get text; Some (g y, rest) |}.
  - intros x rest. rewrite get_put. cbn. by rewrite Hgf.
  - intros x. apply put_compact.
Defined.

#[global] Instance bool_words : Words bool.
Proof.
  refine (words_via (λ b : bool, if b then 1 else 0) (λ z, z =? 1) _). by intros [].
Defined.

#[global] Instance prod_words {A B : Type} `{Words A, Words B} : Words (A * B).
Proof.
  refine {|
    put p := put p.1 ++ put p.2;
    get text := '(x, text) ← get text; '(y, text) ← get text; Some ((x, y), text) |}.
  - intros [x y] rest. cbn. rewrite <-app_assoc, get_put. cbn. by rewrite get_put.
  - intros [x y]. cbn. rewrite elem_of_app. intros [H1|H1]; by apply put_compact in H1.
Defined.

#[global] Instance option_words {A : Type} `{Words A} : Words (option A).
Proof.
  refine {|
    put o := match o with Some x => 1 :: put x | None => [0] end;
    get text :=
      match text with
      | [] => None
      | w :: text => if w =? 0 then Some (None, text) else '(x, text) ← get text; Some (Some x, text)
      end |}.
  - intros [x|] rest; cbn; [by rewrite get_put|done].
  - intros [x|]; rewrite ?elem_of_cons; [|set_solver by lia].
    intros [?|H1]; [done|]. by apply put_compact in H1.
Defined.

Fixpoint get_list {A : Type} `{Words A} (n : nat) (text : list Z) : option (list A * list Z) :=
  match n with
  | O => Some ([], text)
  | S n => '(x, text) ← get text; '(l, text) ← get_list n text; Some (x :: l, text)
  end.

Lemma get_list_put {A : Type} `{Words A} (l : list A) (rest : list Z) :
  get_list (length l) ((l ≫= put) ++ rest) = Some (l, rest).
Proof.
  induction l as [|x l IH]; cbn; [done|]. rewrite <-app_assoc, get_put. cbn. by rewrite IH.
Qed.

#[global] Instance list_words {A : Type} `{Words A} : Words (list A).
Proof.
  refine {|
    put l := put (Z.of_nat (length l)) ++ (l ≫= put);
    get text := '(n, text) ← get text; get_list (Z.to_nat n) text |}.
  - intros l rest. rewrite <-app_assoc, get_put. cbn. rewrite Nat2Z.id. apply get_list_put.
  - intros l. rewrite elem_of_app, list_elem_of_bind. intros [H1|(x & H1 & _)];
      by apply put_compact in H1.
Defined.

#[global] Instance gmap_words {K V : Type} `{Countable K, Words K, Words V} : Words (gmap K V).
Proof. refine (words_via (B := list (K * V)) map_to_list list_to_map _). apply list_to_map_to_list. Defined.

#[global] Instance gset_words {K : Type} `{Countable K, Words K} : Words (gset K).
Proof. refine (words_via (B := list K) elements list_to_set _). apply list_to_set_elements_L. Defined.

(** Through the place in a list of all values. *)
Definition words_enum {A : Type} `{EqDecision A} (all : list A) (x0 : A)
    (Hall : ∀ x, nth (default 0%nat (position (λ y, bool_decide (y = x)) all)) all x0 = x) : Words A.
Proof.
  refine (words_via (λ x, Z.of_nat (default 0%nat (position (λ y, bool_decide (y = x)) all)))
    (λ z, nth (Z.to_nat z) all x0) _).
  intros x. by rewrite Nat2Z.id.
Defined.

Definition words_serde (A : Type) `{Words A} : Serde A := {|
  to_vec x := Ok (0 :: put x);
  from_slice bytes :=
    match bytes with
    | _ :: text => match get text with Some (x, []) => Ok x | _ => Err (str "invalid") end
    | [] => Err (str "invalid")
    end;
|}.

Lemma words_serde_laws (A : Type) `{Words A} : SerdeLaws A (api := words_serde A).
Proof.
  split; cbn.
  - eauto.
  - intros x bytes [= <-]. rewrite <-(app_nil_r (put x)), get_put. done.
  - intros x bytes [= <-]. split; [done|]. rewrite elem_of_cons. intros [?|H1]; [done|].
    by apply put_compact in H1.
Qed.

End DigestSample.
