(* ===== verification/AuditLog.v ===== *)
(** * The audit log ([crates/sendbox-security/src/audit.rs])

    Events in a chain of digests, with the Merkle tree over the digests, its inclusion proofs,
    and the stored form of a log.

    The theorems show that a log grows only by events that verify, that a log with a known head
    has the records it had when the head was taken, that the Merkle root binds every record,
    that a proof is made for every record and for nothing else, and that what is stored is read
    back; all of it for digests without collisions among the inputs that were hashed. *)

From S2P Require Import Prelude RustStr Net Digest.

(** ** Constants *)

Definition AUDIT_FORMAT_VERSION : Z := 1.
Definition DEFAULT_MAX_EVENTS : Z := 1000000.
Definition MAX_METADATA_ENTRIES : Z := 64.
Definition MAX_METADATA_KEY_BYTES : Z := 128.
Definition MAX_METADATA_VALUE_BYTES : Z := 4 * 1024.
Definition MAX_METADATA_TOTAL_BYTES : Z := 32 * 1024.
Definition AUDIT_FORMAT : list Z := str "sendbox-audit".
Definition CHAIN_DOMAIN : list Z := str "sendbox-audit-chain-v1" ++ [0].
Definition LEGACY_AUDIT_GENESIS : list Z := str "sendbox-genesis-v1".

(** ** Data *)

Inductive AuditCategory : Type :=
| CatCommand | CatFileAccess | CatNetwork | CatPermission | CatSecret | CatLifecycle
| CatPolicy | CatMcp | CatProvenance | CatSnapshot.

Inductive AuditResult : Type := ResAllowed | ResDenied | ResError | ResSuccess.

#[global] Instance AuditCategory_eq_dec : EqDecision AuditCategory.
Proof. solve_decision. Defined.
#[global] Instance AuditResult_eq_dec : EqDecision AuditResult.
Proof. solve_decision. Defined.

(** [BTreeMap<String, String>] *)
Definition metadata_map : Type := gmap (list Z) (list Z).

(** In the order of the keys. *)
Definition btree_iter {A : Type} (m : gmap (list Z) A) : list (list Z * A) :=
  sort_by (λ x y, bytes_leb x.1 y.1) (map_to_list m).

Record AuditEvent : Type := {
  ev_version : Z;
  ev_sequence : Z;
  ev_session_id : list Z;
  ev_timestamp_unix_nanos : Z;
  ev_category : AuditCategory;
  ev_action : list Z;
  ev_subject : list Z;
  ev_result : AuditResult;
  ev_metadata : metadata_map;
}.

Record AuditRecord : Type := {
  r_event : AuditEvent;
  r_previous_hash : list Z;
  r_hash : list Z;
}.

Record AuditHeader : Type := {
  h_format : list Z;
  h_version : Z;
}.

Record AuditLog : Type := {
  l_session_id : list Z;
  l_records : list AuditRecord;
}.

Record AuditQuery : Type := {
  q_category : option AuditCategory;
  q_result : option AuditResult;
  q_from_unix_nanos : option Z;
  q_to_unix_nanos : option Z;
  q_action : option (list Z);
}.

Record MerkleProofNode : Type := {
  n_hash : list Z;
  n_sibling_is_left : bool;
}.

Record MerkleProof : Type := {
  p_leaf_index : nat;
  p_leaf_hash : list Z;
  p_nodes : list MerkleProofNode;
  p_root_hash : list Z;
}.

#[global] Instance AuditEvent_eq_dec : EqDecision AuditEvent.
Proof. solve_decision. Defined.
#[global] Instance AuditRecord_eq_dec : EqDecision AuditRecord.
Proof. solve_decision. Defined.

(** The errors of the crate that the log and its store return; of an I/O error only whether
    the file is missing matters. *)
Inductive SecurityError : Type :=
| SecIo (not_found : bool)
| SecSizeLimit (limit : Z)
| SecUnsupportedVersion (format : list Z) (version : Z)
| SecMalformed (format detail : list Z)
| SecIntegrity (detail : list Z).

Notation SecurityResult := (result SecurityError).

(** ** Validation *)

Definition validate_text (label value : list Z) (max : Z) : SecurityResult unit :=
  if bool_decide (value = []) || (max <? Z.of_nat (length value)) || contains_byte value 0
  then Err (SecMalformed AUDIT_FORMAT (label ++ str " is empty, oversized, or contains NUL"))
  else Ok tt.

Fixpoint validate_entries (entries : list (list Z * list Z)) (total : Z) : SecurityResult Z :=
  match entries with
  | [] => Ok total
  | (key, value) :: entries =>
      check? validate_text (str "metadata key") key MAX_METADATA_KEY_BYTES in
      check? validate_text (str "metadata value") value MAX_METADATA_VALUE_BYTES in
      validate_entries entries (total + Z.of_nat (length key + length value))
  end.

Definition validate_metadata (metadata : metadata_map) : SecurityResult unit :=
  if MAX_METADATA_ENTRIES <? Z.of_nat (size metadata)
  then Err (SecMalformed AUDIT_FORMAT (str "metadata entry count exceeds limit"))
  else
    let? total := validate_entries (btree_iter metadata) 0 in
    if MAX_METADATA_TOTAL_BYTES <? total
    then Err (SecMalformed AUDIT_FORMAT (str "metadata total size exceeds limit"))
    else Ok tt.

(** ** Digests *)

Definition encode_hash (hash : list Z) : list Z := hex_encode hash.

Definition decode_hash (value : list Z) : SecurityResult (list Z) :=
  if negb (length value =? 64)%nat || negb (forallb is_ascii_hexdigit value)
  then Err (SecMalformed (str "sha256") (str "expected 64 hexadecimal characters"))
  else
    match hex_decode value with
    | Some hash => Ok hash
    | None => Err (SecMalformed (str "sha256") (str "invalid digit found in string"))
    end.

(** ** Canonical text ([canonical.rs]) *)

Definition canonical_encode {A : Type} {api : Serde A} (value : A) (format : list Z)
  : SecurityResult (list Z) :=
  map_err (SecMalformed format) (to_vec value).

Definition decode_canonical {A : Type} {api : Serde A} (bytes format : list Z)
  : SecurityResult A :=
  let? value := map_err (SecMalformed format) (from_slice bytes) in
  let? canonical := canonical_encode value format in
  if negb (bool_decide (canonical = bytes))
  then Err (SecMalformed format (str "non-canonical encoding"))
  else Ok value.

Section Log.
Context {sha : Sha256Api} {event_json : Serde AuditEvent} {record_json : Serde AuditRecord}
        {header_json : Serde AuditHeader} {events_json : Serde (list AuditEvent)}.

(** ** The chain *)

(** What is hashed for one event. *)
Definition chain_input (previous encoded : list Z) : list Z :=
  CHAIN_DOMAIN ++ previous ++ encoded.

Definition chain_hash (previous_hash : list Z) (event : AuditEvent) : SecurityResult (list Z) :=
  let? previous := decode_hash previous_hash in
  let? encoded := canonical_encode event AUDIT_FORMAT in
  Ok (encode_hash (sha256 (chain_input previous encoded))).

Definition genesis_input : list Z := str "sendbox-audit-genesis-v1".

Definition genesis_hash : list Z := encode_hash (sha256 genesis_input).

Definition new_log (session_id : list Z) : SecurityResult AuditLog :=
  check? validate_text (str "session id") session_id 256 in
  Ok {| l_session_id := session_id; l_records := [] |}.

(** The hash the next record links to. *)
Definition head_hash (records : list AuditRecord) : list Z :=
  match last records with Some record => r_hash record | None => genesis_hash end.

(** [append]; the second value is the record it returns. *)
Definition append (log : AuditLog) (timestamp_unix_nanos : Z) (category : AuditCategory)
    (action subject : list Z) (res : AuditResult) (metadata : metadata_map)
  : SecurityResult (AuditLog * AuditRecord) :=
  check? validate_metadata metadata in
  check? validate_text (str "action") action 512 in
  check? validate_text (str "subject") subject 4096 in
  let event := {| ev_version := AUDIT_FORMAT_VERSION;
                  ev_sequence := Z.of_nat (length (l_records log));
                  ev_session_id := l_session_id log;
                  ev_timestamp_unix_nanos := timestamp_unix_nanos;
                  ev_category := category; ev_action := action; ev_subject := subject;
                  ev_result := res; ev_metadata := metadata |} in
  let previous_hash := head_hash (l_records log) in
  let? hash := chain_hash previous_hash event in
  let record := {| r_event := event; r_previous_hash := previous_hash; r_hash := hash |} in
  Ok ({| l_session_id := l_session_id log; l_records := l_records log ++ [record] |}, record).

Definition at_record (text : string) (index : nat) : list Z :=
  str text ++ show_dec (Z.of_nat index).

(** One record of [verify], with the hash it has to link to. *)
Definition verify_record (session_id : list Z) (index : nat) (previous : list Z)
    (record : AuditRecord) : SecurityResult unit :=
  let event := r_event record in
  if negb (ev_version event =? AUDIT_FORMAT_VERSION)
  then Err (SecUnsupportedVersion AUDIT_FORMAT (ev_version event))
  else if negb (bool_decide (ev_session_id event = session_id))
  then Err (SecIntegrity (at_record "audit session mismatch at record " index))
  else if negb (ev_sequence event =? Z.of_nat index)
  then Err (SecIntegrity (at_record "audit sequence mismatch at record " index))
  else
    check? validate_metadata (ev_metadata event) in
    check? validate_text (str "action") (ev_action event) 512 in
    check? validate_text (str "subject") (ev_subject event) 4096 in
    if negb (bool_decide (r_previous_hash record = previous))
    then Err (SecIntegrity (at_record "audit chain reordered or truncated before record " index))
    else
      let? expected := chain_hash previous event in
      if negb (bool_decide (r_hash record = expected))
      then Err (SecIntegrity (at_record "audit record " index ++ str " hash mismatch"))
      else Ok tt.

Fixpoint verify_from (session_id : list Z) (index : nat) (previous : list Z)
    (records : list AuditRecord) : SecurityResult unit :=
  match records with
  | [] => Ok tt
  | record :: records =>
      check? verify_record session_id index previous record in
      verify_from session_id (S index) (r_hash record) records
  end.

Definition verify (log : AuditLog) : SecurityResult unit :=
  if DEFAULT_MAX_EVENTS <? Z.of_nat (length (l_records log))
  then Err (SecMalformed AUDIT_FORMAT (str "event count exceeds limit"))
  else verify_from (l_session_id log) 0 genesis_hash (l_records log).

Definition is_none_or {A : Type} (o : option A) (f : A → bool) : bool :=
  match o with None => true | Some x => f x end.

Definition query (log : AuditLog) (q : AuditQuery) : list AuditRecord :=
  filter (λ record,
    is_none_or (q_category q) (λ value, bool_decide (ev_category (r_event record) = value)) &&
    is_none_or (q_result q) (λ value, bool_decide (ev_result (r_event record) = value)) &&
    is_none_or (q_from_unix_nanos q) (λ value, value <=? ev_timestamp_unix_nanos (r_event record)) &&
    is_none_or (q_to_unix_nanos q) (λ value, ev_timestamp_unix_nanos (r_event record) <=? value) &&
    is_none_or (q_action q) (λ value, bool_decide (ev_action (r_event record) = value)) = true)
    (l_records log).

(** [redact] is the caller's [AuditRedactor]. *)
Definition export (log : AuditLog) (redact : AuditEvent → AuditEvent) : SecurityResult (list Z) :=
  check? verify log in
  canonical_encode (redact <$> (r_event <$> l_records log)) (str "audit export").

(** ** The stored form *)

Definition audit_header : AuditHeader :=
  {| h_format := AUDIT_FORMAT; h_version := AUDIT_FORMAT_VERSION |}.

Fixpoint encode_records (records : list AuditRecord) : SecurityResult (list Z) :=
  match records with
  | [] => Ok []
  | record :: records =>
      let? line := canonical_encode record AUDIT_FORMAT in
      let? rest := encode_records records in
      Ok (line ++ ch_lf :: rest)
  end.

Definition encode (log : AuditLog) : SecurityResult (list Z) :=
  check? verify log in
  let? header := canonical_encode audit_header AUDIT_FORMAT in
  let? records := encode_records (l_records log) in
  Ok (header ++ ch_lf :: records).

Fixpoint decode_lines (lines : list (list Z)) (records : list AuditRecord) (max_events : Z)
  : SecurityResult (list AuditRecord) :=
  match lines with
  | [] => Ok records
  | line :: lines =>
      if bool_decide (line = []) then decode_lines lines records max_events
      else if max_events <=? Z.of_nat (length records)
      then Err (SecMalformed AUDIT_FORMAT (str "event count exceeds limit"))
      else
        let? record := decode_canonical line AUDIT_FORMAT in
        decode_lines lines (records ++ [record]) max_events
  end.

Definition decode (bytes : list Z) (max_events : Z) : SecurityResult AuditLog :=
  if bool_decide (bytes = []) || negb (ends_with bytes [ch_lf])
  then Err (SecIntegrity (str "audit log is empty or truncated"))
  else
    let lines := split_on ch_lf bytes in
    let? header := decode_canonical (A := AuditHeader) (default [] (head lines)) AUDIT_FORMAT in
    if negb (bool_decide (h_format header = AUDIT_FORMAT)) ||
       negb (h_version header =? AUDIT_FORMAT_VERSION)
    then Err (SecUnsupportedVersion AUDIT_FORMAT (h_version header))
    else
      let? records := decode_lines (tail lines) [] max_events in
      match records with
      | [] => Err (SecMalformed AUDIT_FORMAT (str "audit log has no records"))
      | first :: _ =>
          let log := {| l_session_id := ev_session_id (r_event first); l_records := records |} in
          check? verify log in Ok log
      end.

(** ** The Merkle tree *)

Definition merkle_leaf (hash : list Z) : list Z := sha256 (0 :: hash).
Definition merkle_node (left right : list Z) : list Z := sha256 (1 :: left ++ right).

Fixpoint next_merkle_level (level : list (list Z)) : list (list Z) :=
  match level with
  | a :: b :: level => merkle_node a b :: next_merkle_level level
  | _ => level
  end.

(** [while level.len() > 1], with the length as fuel *)
Fixpoint merkle_reduce (fuel : nat) (level : list (list Z)) : list (list Z) :=
  match fuel with
  | S fuel =>
      if (1 <? length level)%nat then merkle_reduce fuel (next_merkle_level level) else level
  | O => level
  end.

Definition empty_merkle_input : list Z := str "sendbox-audit-empty-merkle-v1".

Definition merkle_root_of (hashes : list (list Z)) : list Z :=
  let level := merkle_leaf <$> omap (λ hash, ok (decode_hash hash)) hashes in
  match merkle_reduce (length level) level with
  | [] => encode_hash (sha256 empty_merkle_input)
  | root :: _ => encode_hash root
  end.

Definition merkle_root (log : AuditLog) : list Z := merkle_root_of (r_hash <$> l_records log).

(** The siblings on the way to the root, and the root. *)
Fixpoint proof_loop (fuel : nat) (level : list (list Z)) (cursor : nat)
  : list MerkleProofNode * list (list Z) :=
  match fuel with
  | O => ([], level)
  | S fuel =>
      if (1 <? length level)%nat then
        let nodes :=
          if (cursor mod 2 =? 1)%nat then
            [{| n_hash := encode_hash (default [] (level !! (cursor - 1)%nat));
                n_sibling_is_left := true |}]
          else if (cursor + 1 <? length level)%nat then
            [{| n_hash := encode_hash (default [] (level !! (cursor + 1)%nat));
                n_sibling_is_left := false |}]
          else [] in
        let '(rest, root) := proof_loop fuel (next_merkle_level level) (cursor / 2) in
        (nodes ++ rest, root)
      else ([], level)
  end.

Definition merkle_proof (log : AuditLog) (index : nat) : option MerkleProof :=
  record ← l_records log !! index;
  level ← mapM (λ record, merkle_leaf <$> ok (decode_hash (r_hash record))) (l_records log);
  let '(nodes, root) := proof_loop (length level) level index in
  Some {| p_leaf_index := index; p_leaf_hash := r_hash record; p_nodes := nodes;
          p_root_hash := encode_hash (default [] (head root)) |}.

Fixpoint climb (current : list Z) (nodes : list MerkleProofNode) : option (list Z) :=
  match nodes with
  | [] => Some current
  | node :: nodes =>
      sibling ← ok (decode_hash (n_hash node));
      climb (if n_sibling_is_left node then merkle_node sibling current
             else merkle_node current sibling) nodes
  end.

Definition proof_verify (proof : MerkleProof) : bool :=
  match ok (decode_hash (p_leaf_hash proof)) with
  | None => false
  | Some leaf =>
      match climb (merkle_leaf leaf) (p_nodes proof) with
      | None => false
      | Some current => bool_decide (encode_hash current = p_root_hash proof)
      end
  end.

(** ** The store

    The operations of [SecureRoot] on the file of a session. *)

Record SecureRoot : Type := {
  create_dir_all : SecurityResult unit;
  lock_exclusive : SecurityResult unit;
  read_bounded : SecurityResult (list Z);
  write_atomic : list Z → SecurityResult unit;
}.

Definition store_save (root : SecureRoot) (log : AuditLog) : SecurityResult unit :=
  check? create_dir_all root in
  check? lock_exclusive root in
  let? bytes := encode log in
  write_atomic root bytes.

Definition store_load (root : SecureRoot) (session_id : list Z) : SecurityResult AuditLog :=
  let? bytes := read_bounded root in
  let? log := decode bytes DEFAULT_MAX_EVENTS in
  if negb (bool_decide (l_session_id log = session_id))
  then Err (SecIntegrity (str "audit filename does not match session"))
  else Ok log.

(** [change] is the caller's closure. *)
Definition store_append (root : SecureRoot) (session_id : list Z)
    (change : AuditLog → SecurityResult AuditLog) : SecurityResult AuditLog :=
  check? create_dir_all root in
  check? lock_exclusive root in
  let? log := match read_bounded root with
              | Ok bytes => decode bytes DEFAULT_MAX_EVENTS
              | Err (SecIo true) => new_log session_id
              | Err error => Err error
              end in
  let? log := change log in
  let? bytes := encode log in
  check? write_atomic root bytes in
  Ok log.

(** ** Records that verify *)

Section Laws.
Context {sha_laws : Sha256Laws sha} {event_laws : SerdeLaws AuditEvent}
        {record_laws : SerdeLaws AuditRecord} {header_laws : SerdeLaws AuditHeader}.

Lemma decode_encode_hash (hash : list Z) :
  length hash = 32%nat → Forall is_byte hash → decode_hash (encode_hash hash) = Ok hash.
Proof.
  intros Hlen Hb. unfold decode_hash, encode_hash.
  rewrite length_hex_encode, Hlen, hex_encode_digits by done. simpl.
  by rewrite hex_decode_encode.
Qed.

Lemma decode_sha256 (input : list Z) : decode_hash (encode_hash (sha256 input)) = Ok (sha256 input).
Proof. apply decode_encode_hash; [apply sha256_length|apply sha256_bytes]. Qed.

(** A text that is some digest. *)
Definition is_digest (hash : list Z) : Prop := ∃ input, hash = encode_hash (sha256 input).

Lemma chain_hash_ok (previous : list Z) (event : AuditEvent) :
  is_digest previous →
  ∃ prev encoded, decode_hash previous = Ok prev ∧ length prev = 32%nat ∧
    previous = encode_hash prev ∧ to_vec event = Ok encoded ∧
    chain_hash previous event = Ok (encode_hash (sha256 (chain_input prev encoded))).
Proof.
  intros [input ->]. destruct (to_vec_total event) as [encoded He].
  exists (sha256 input), encoded. unfold chain_hash, canonical_encode.
  rewrite decode_sha256, He. split_and!; [done|apply sha256_length|done..].
Qed.

Lemma chain_hash_digest (previous : list Z) (event : AuditEvent) (hash : list Z) :
  chain_hash previous event = Ok hash → is_digest hash.
Proof.
  unfold chain_hash. destruct (decode_hash _); [|done]. destruct (canonical_encode _ _); [|done].
  intros [= <-]. by eexists.
Qed.

(** What [verify] checks of one record. *)
Record record_ok (session_id : list Z) (index : nat) (previous : list Z) (record : AuditRecord)
  : Prop := {
  ok_version : ev_version (r_event record) = AUDIT_FORMAT_VERSION;
  ok_session : ev_session_id (r_event record) = session_id;
  ok_sequence : ev_sequence (r_event record) = Z.of_nat index;
  ok_metadata : validate_metadata (ev_metadata (r_event record)) = Ok tt;
  ok_action : validate_text (str "action") (ev_action (r_event record)) 512 = Ok tt;
  ok_subject : validate_text (str "subject") (ev_subject (r_event record)) 4096 = Ok tt;
  ok_link : r_previous_hash record = previous;
  ok_hash : chain_hash previous (r_event record) = Ok (r_hash record);
}.

Lemma verify_record_ok (session_id : list Z) (index : nat) (previous : list Z)
    (record : AuditRecord) :
  verify_record session_id index previous record = Ok tt ↔
  record_ok session_id index previous record.
Proof.
  unfold verify_record. split.
  - intros H. repeat (destruct_match_in H; try discriminate H); bool_to_prop; subst.
    all: repeat match goal with x : unit |- _ => destruct x end. by constructor; congruence.
  - intros []. rewrite ok_version0, Z.eqb_refl, ok_session0, ok_sequence0, Z.eqb_refl. simpl.
    rewrite bool_decide_true by done. simpl.
    rewrite ok_metadata0, ok_action0, ok_subject0, ok_link0, ok_hash0.
    by rewrite !bool_decide_true by done.
Qed.

(** The hash after records that follow the hash [previous]. *)
Definition link (previous : list Z) (records : list AuditRecord) : list Z :=
  match last records with Some record => r_hash record | None => previous end.

Lemma link_snoc (previous : list Z) (records : list AuditRecord) (record : AuditRecord) :
  link previous (records ++ [record]) = r_hash record.
Proof. unfold link. by rewrite last_snoc. Qed.

Lemma verify_from_snoc (session_id : list Z) (index : nat) (previous : list Z)
    (records : list AuditRecord) (record : AuditRecord) :
  verify_from session_id index previous (records ++ [record]) = Ok tt ↔
  verify_from session_id index previous records = Ok tt ∧
  record_ok session_id (index + length records) (link previous records) record.
Proof.
  revert index previous. induction records as [|r records IH]; intros index previous; simpl.
  - rewrite Nat.add_0_r, <-verify_record_ok. unfold link. simpl.
    destruct (verify_record _ _ _ _) as [[]|]; naive_solver.
  - destruct (verify_record session_id index previous r) as [[]|]; [|naive_solver].
    rewrite IH, Nat.add_succ_r. unfold link. rewrite last_cons.
    by destruct (last records).
Qed.

Lemma head_is_digest (session_id : list Z) (records : list AuditRecord) :
  verify_from session_id 0 genesis_hash records = Ok tt → is_digest (head_hash records).
Proof.
  destruct records as [|record records _] using rev_ind; intros H.
  - by exists genesis_input.
  - apply verify_from_snoc in H as [_ []]. unfold head_hash. rewrite last_snoc.
    by eapply chain_hash_digest.
Qed.

(** What was hashed for a record that verifies. *)
Definition record_input (record : AuditRecord) : list Z :=
  match decode_hash (r_previous_hash record), to_vec (r_event record) with
  | Ok previous, Ok encoded => chain_input previous encoded
  | _, _ => []
  end.

(** What was hashed for a log. *)
Definition log_inputs (log : AuditLog) : list (list Z) :=
  genesis_input :: (record_input <$> l_records log).

Lemma record_ok_input (session_id : list Z) (index : nat) (previous : list Z)
    (record : AuditRecord) :
  is_digest previous → record_ok session_id index previous record →
  ∃ prev encoded, previous = encode_hash prev ∧ length prev = 32%nat ∧
    to_vec (r_event record) = Ok encoded ∧ record_input record = chain_input prev encoded ∧
    r_hash record = encode_hash (sha256 (record_input record)).
Proof.
  intros Hd []. destruct (chain_hash_ok previous (r_event record) Hd)
    as (prev & encoded & Hdec & Hlen & Hprev & Henc & Hhash).
  exists prev, encoded.
  assert (record_input record = chain_input prev encoded) as Hin.
  { unfold record_input. by rewrite ok_link0, Hdec, Henc. }
  split_and!; [done..|]. rewrite Hin. congruence.
Qed.

Lemma chain_input_inj (p1 p2 e1 e2 : list Z) :
  length p1 = length p2 → chain_input p1 e1 = chain_input p2 e2 → p1 = p2 ∧ e1 = e2.
Proof.
  unfold chain_input. intros Hlen H. apply app_inj_1 in H as [_ H]; [|done].
  by apply app_inj_1 in H.
Qed.

Lemma genesis_not_chained (prev encoded : list Z) : genesis_input ≠ chain_input prev encoded.
Proof. intros H. apply (f_equal (take 15)) in H. discriminate H. Qed.

(** One head, one chain. *)
Lemma heads_bind (s1 s2 : list Z) (l1 l2 : list AuditRecord) :
  verify_from s1 0 genesis_hash l1 = Ok tt → verify_from s2 0 genesis_hash l2 = Ok tt →
  collision_free (genesis_input :: (record_input <$> l1) ++ (record_input <$> l2)) →
  head_hash l1 = head_hash l2 → l1 = l2.
Proof.
  revert l2. induction l1 as [|x l1 IH] using rev_ind; intros l2 H1 H2 Hf Hhead.
  - destruct l2 as [|y l2 _] using rev_ind; [done|]. exfalso.
    apply verify_from_snoc in H2 as [H2 Hy].
    destruct (record_ok_input _ _ _ _ (head_is_digest _ _ H2) Hy) as (p & e & _ & _ & _ & Hin & Hh).
    unfold head_hash in Hhead. rewrite last_snoc, Hh in Hhead.
    apply sha256_hex_inj, Hf in Hhead; [|set_solver..].
    rewrite Hin in Hhead. by apply genesis_not_chained in Hhead.
  - apply verify_from_snoc in H1 as [H1 Hx].
    destruct (record_ok_input _ _ _ _ (head_is_digest _ _ H1) Hx)
      as (px & ex & Hpx & Hlx & Hex & Hinx & Hhx).
    destruct l2 as [|y l2 _] using rev_ind.
    { exfalso. unfold head_hash in Hhead. rewrite last_snoc, Hhx in Hhead.
      apply sha256_hex_inj, Hf in Hhead; [|set_solver..].
      rewrite Hinx in Hhead. by apply symmetry, genesis_not_chained in Hhead. }
    apply verify_from_snoc in H2 as [H2 Hy].
    destruct (record_ok_input _ _ _ _ (head_is_digest _ _ H2) Hy)
      as (py & ey & Hpy & Hly & Hey & Hiny & Hhy).
    unfold head_hash in Hhead. rewrite !last_snoc in Hhead.
    assert (record_input x = record_input y) as Hin.
    { rewrite Hhx, Hhy in Hhead. apply sha256_hex_inj, Hf in Hhead; set_solver. }
    rewrite Hinx, Hiny in Hin. apply chain_input_inj in Hin as [<- <-]; [|congruence].
    assert (r_event x = r_event y) as Hev by (by eapply to_vec_inj).
    assert (link genesis_hash l1 = link genesis_hash l2) as Hlink
      by (etrans; [exact Hpx|symmetry; exact Hpy]).
    f_equal.
    + apply IH; [done..| |exact Hlink]. eapply collision_free_sub; [|exact Hf]. set_solver.
    + destruct Hx, Hy, x, y. simpl in *. f_equal; congruence.
Qed.

Lemma verify_from_take (session_id : list Z) (n : nat) (records : list AuditRecord) :
  verify_from session_id 0 genesis_hash records = Ok tt →
  verify_from session_id 0 genesis_hash (take n records) = Ok tt.
Proof.
  revert n. induction records as [|record records IH] using rev_ind; intros n H;
    [by rewrite take_nil|].
  apply verify_from_snoc in H as H'. destruct H' as [Hr _].
  destruct (decide (n ≤ length records)%nat).
  - rewrite take_app_le by done. by apply IH.
  - rewrite take_ge; [done|]. rewrite length_app. simpl. lia.
Qed.

Lemma verify_ok (log : AuditLog) :
  verify log = Ok tt ↔
  Z.of_nat (length (l_records log)) ≤ DEFAULT_MAX_EVENTS ∧
  verify_from (l_session_id log) 0 genesis_hash (l_records log) = Ok tt.
Proof. unfold verify. destruct (Z.ltb_spec DEFAULT_MAX_EVENTS (Z.of_nat (length (l_records log)))); naive_solver lia. Qed.

(** ** Growth *)

(** What [append] asks of an event. *)
Definition event_valid (action subject : list Z) (metadata : metadata_map) : Prop :=
  validate_metadata metadata = Ok tt ∧ validate_text (str "action") action 512 = Ok tt ∧
  validate_text (str "subject") subject 4096 = Ok tt.

(** The records form a chain. *)
Definition chained (log : AuditLog) : Prop :=
  verify_from (l_session_id log) 0 genesis_hash (l_records log) = Ok tt.

(** What an append adds. *)
Definition appended (log : AuditLog) (ts : Z) (category : AuditCategory)
    (action subject : list Z) (res : AuditResult) (metadata : metadata_map)
    (log' : AuditLog) (record : AuditRecord) : Prop :=
  event_valid action subject metadata ∧
  log' = {| l_session_id := l_session_id log; l_records := l_records log ++ [record] |} ∧
  r_event record =
    {| ev_version := AUDIT_FORMAT_VERSION; ev_sequence := Z.of_nat (length (l_records log));
       ev_session_id := l_session_id log; ev_timestamp_unix_nanos := ts;
       ev_category := category; ev_action := action; ev_subject := subject;
       ev_result := res; ev_metadata := metadata |}.

Lemma append_chained (log : AuditLog) (ts : Z) (category : AuditCategory)
    (action subject : list Z) (res : AuditResult) (metadata : metadata_map) :
  chained log →
  match append log ts category action subject res metadata with
  | Ok (log', record) =>
      appended log ts category action subject res metadata log' record ∧ chained log'
  | Err _ => ¬ event_valid action subject metadata
  end.
Proof.
  unfold chained. intros Hv. unfold append, appended, event_valid.
  destruct (validate_metadata metadata) as [[]|] eqn:E1; [|naive_solver].
  destruct (validate_text (str "action") action 512) as [[]|] eqn:E2; [|naive_solver].
  destruct (validate_text (str "subject") subject 4096) as [[]|] eqn:E3; [|naive_solver].
  cbv zeta. set (event := {| ev_version := _ |}).
  destruct (chain_hash_ok (head_hash (l_records log)) event (head_is_digest _ _ Hv))
    as (p & e & _ & _ & _ & _ & Hh).
  rewrite Hh. split_and!; [done..|]. cbn [l_records l_session_id].
  rewrite verify_from_snoc. split; [done|]. by constructor.
Qed.

(** An append to a log that verifies adds exactly one record, with the next number and the
    event that was given, when the event is valid, and is an error otherwise; the log still
    verifies, up to the number of events that [verify] accepts. *)
Theorem append_exact (log : AuditLog) (ts : Z) (category : AuditCategory)
    (action subject : list Z) (res : AuditResult) (metadata : metadata_map) :
  verify log = Ok tt →
  match append log ts category action subject res metadata with
  | Ok (log', record) =>
      appended log ts category action subject res metadata log' record ∧
      (verify log' = Ok tt ↔ Z.of_nat (length (l_records log)) < DEFAULT_MAX_EVENTS)
  | Err _ => ¬ event_valid action subject metadata
  end.
Proof.
  intros [Hmax Hv]%verify_ok.
  pose proof (append_chained log ts category action subject res metadata Hv) as H.
  destruct (append _ _ _ _ _ _ _) as [[log' record]|e]; [|done]. destruct H as [Ha Hc].
  split; [done|]. rewrite verify_ok. destruct Ha as (_ & -> & _). cbn [l_records].
  rewrite length_app. cbn [length]. split; [lia|]. intros Hlt. split; [lia|done].
Qed.

(** ** Tamper evidence *)

(** C23: A log whose head was taken earlier is a prefix of every log that verifies and has a record
    with that hash: nothing of it was changed, reordered or removed. *)
Theorem head_binds_prefix (earlier later : AuditLog) (i : nat) (record : AuditRecord) :
  verify earlier = Ok tt → verify later = Ok tt →
  collision_free (log_inputs earlier ++ log_inputs later) →
  l_records later !! i = Some record → r_hash record = head_hash (l_records earlier) →
  l_records earlier = take (S i) (l_records later).
Proof.
  intros [_ H1]%verify_ok [_ H2]%verify_ok Hf Hi Hhash.
  eapply heads_bind; [exact H1|by apply verify_from_take| |].
  - eapply collision_free_sub; [|exact Hf]. unfold log_inputs. rewrite fmap_take.
    intros x. rewrite !elem_of_app, !elem_of_cons, !elem_of_app.
    intros [?|[?|?%take_elem]]; auto.
  - unfold head_hash at 2. rewrite (take_S_r _ _ _ Hi), last_snoc. done.
Qed.

(** ** The stored form *)

Lemma canonical_roundtrip {A : Type} {api : Serde A} {laws : SerdeLaws A} (x : A)
    (bytes format : list Z) :
  to_vec x = Ok bytes → decode_canonical bytes format = Ok x.
Proof.
  intros H. unfold decode_canonical, canonical_encode. rewrite (from_to_vec _ _ H). simpl.
  rewrite H. simpl. by rewrite bool_decide_true.
Qed.

(** Every record has a line of its own. *)
Lemma encode_records_lines (records : list AuditRecord) :
  ∃ bytes lines, encode_records records = Ok bytes ∧ split_on ch_lf bytes = lines ++ [[]] ∧
    ends_with (ch_lf :: bytes) [ch_lf] = true ∧
    Forall2 (λ record line, to_vec record = Ok line ∧ line ≠ []) records lines.
Proof.
  induction records as [|record records (bytes & lines & Hb & Hs & He & Hl)].
  { exists [], []. by repeat constructor. }
  destruct (to_vec_total record) as [line Hline].
  destruct (to_vec_compact _ _ Hline) as [Hne Hlf].
  exists (line ++ ch_lf :: bytes), (line :: lines). cbn [encode_records].
  unfold canonical_encode at 1. rewrite Hline. simpl. rewrite Hb. split_and!.
  - done.
  - rewrite split_on_app by done. by rewrite Hs.
  - apply ends_with_true in He as [r Hr]. apply ends_with_true. rewrite Hr.
    exists (ch_lf :: line ++ r). simpl. by rewrite app_assoc.
  - by constructor.
Qed.

Lemma decode_lines_records (records done_ : list AuditRecord) (lines : list (list Z)) (max : Z) :
  Forall2 (λ record line, to_vec record = Ok line ∧ line ≠ []) records lines →
  Z.of_nat (length done_ + length records) ≤ max →
  decode_lines (lines ++ [[]]) done_ max = Ok (done_ ++ records).
Proof.
  intros Hl. revert done_. induction Hl as [|record line records lines [Hline Hne] _ IH];
    intros done_ Hmax; simpl; [by rewrite app_nil_r|].
  rewrite bool_decide_false by done. simpl in Hmax.
  rewrite (proj2 (Z.leb_gt _ _)) by lia. rewrite (canonical_roundtrip _ _ _ Hline).
  rewrite IH; [by rewrite <-app_assoc|]. rewrite length_app. simpl. lia.
Qed.

(** A log that verifies, is not empty and is within the reader's limit is read back from its
    stored form. *)
Theorem stored_log_roundtrip (log : AuditLog) (max_events : Z) :
  verify log = Ok tt → l_records log ≠ [] → Z.of_nat (length (l_records log)) ≤ max_events →
  ∃ bytes, encode log = Ok bytes ∧ decode bytes max_events = Ok log.
Proof.
  intros Hv Hne Hmax. destruct (to_vec_total audit_header) as [header Hh].
  destruct (to_vec_compact _ _ Hh) as [_ Hlf].
  destruct (encode_records_lines (l_records log)) as (bytes & lines & Hb & Hs & He & Hl).
  exists (header ++ ch_lf :: bytes). split.
  { unfold encode, canonical_encode. rewrite Hv, Hh. simpl. by rewrite Hb. }
  unfold decode. rewrite bool_decide_false by (by destruct header).
  assert (ends_with (header ++ ch_lf :: bytes) [ch_lf] = true) as ->.
  { apply ends_with_true in He as [r Hr]. apply ends_with_true. exists (header ++ r).
    by rewrite Hr, app_assoc. }
  rewrite split_on_app, Hs by done. cbn [negb orb head tail default from_option].
  rewrite (canonical_roundtrip _ _ _ Hh). cbn. rewrite (decode_lines_records _ [] _ _ Hl) by done.
  cbn [app]. destruct log as [sid [|first records]]; [done|]. cbn [l_records].
  pose proof Hv as [_ Hf]%verify_ok. cbn in Hf.
  destruct (verify_record sid 0 genesis_hash first) as [[]|] eqn:E; [|done].
  apply verify_record_ok in E as []. rewrite ok_session0, Hv. done.
Qed.

(** What [append] of the store returns is what [load] reads from the bytes it wrote. *)
Theorem store_append_load (root : SecureRoot) (session_id : list Z)
    (change : AuditLog → SecurityResult AuditLog) (log : AuditLog) :
  store_append root session_id change = Ok log → l_records log ≠ [] →
  l_session_id log = session_id →
  ∃ bytes, encode log = Ok bytes ∧ write_atomic root bytes = Ok tt ∧
    ∀ root', read_bounded root' = Ok bytes → store_load root' session_id = Ok log.
Proof.
  unfold store_append. intros H Hne Hsid.
  destruct (create_dir_all root); [|done]. destruct (lock_exclusive root); [|done].
  destruct (match read_bounded root with Ok _ => _ | Err _ => _ end) as [log0|]; [|done].
  destruct (change log0) as [log1|]; [|done]. destruct (encode log1) as [bytes|] eqn:He; [|done].
  destruct (write_atomic root bytes) as [[]|] eqn:Hw; [|done]. injection H as ->.
  exists bytes. split_and!; [done..|]. intros root' Hr. unfold store_load. rewrite Hr.
  assert (verify log = Ok tt) as Hv.
  { unfold encode in He. by destruct (verify log) as [[]|]. }
  destruct (stored_log_roundtrip log DEFAULT_MAX_EVENTS Hv Hne) as (bytes' & He' & Hd).
  { by apply verify_ok in Hv as [? _]. }
  assert (bytes' = bytes) as -> by congruence. rewrite Hd, Hsid. by rewrite bool_decide_true.
Qed.

(** What is read verifies and is within the limit. *)
Lemma decode_verifies (bytes : list Z) (max_events : Z) (log : AuditLog) :
  decode bytes max_events = Ok log → verify log = Ok tt.
Proof.
  unfold decode. intros H. repeat (destruct_match_in H; try discriminate H).
  injection H as <-. by repeat match goal with x : unit |- _ => destruct x end.
Qed.

(** ** The Merkle tree *)

(** The tree whose levels [merkle_root_of] computes. *)
Inductive mtree : Type :=
| MLeaf (hash : list Z)
| MNode (l r : mtree).

Fixpoint tree_hash (t : mtree) : list Z :=
  match t with
  | MLeaf hash => merkle_leaf hash
  | MNode l r => merkle_node (tree_hash l) (tree_hash r)
  end.

Fixpoint leaves (t : mtree) : list (list Z) :=
  match t with MLeaf hash => [hash] | MNode l r => leaves l ++ leaves r end.

(** What was hashed for a tree. *)
Fixpoint tree_inputs (t : mtree) : list (list Z) :=
  match t with
  | MLeaf hash => [0 :: hash]
  | MNode l r => (1 :: tree_hash l ++ tree_hash r) :: tree_inputs l ++ tree_inputs r
  end.

Fixpoint pair_trees (level : list mtree) : list mtree :=
  match level with
  | a :: b :: level => MNode a b :: pair_trees level
  | _ => level
  end.

Fixpoint reduce_trees (fuel : nat) (level : list mtree) : list mtree :=
  match fuel with
  | S fuel => if (1 <? length level)%nat then reduce_trees fuel (pair_trees level) else level
  | O => level
  end.

Definition trees_of (hashes : list (list Z)) : list mtree :=
  reduce_trees (length hashes) (MLeaf <$> hashes).

(** Induction that takes two elements at a time. *)
Lemma pairs_ind {A : Type} (P : list A → Prop) :
  P [] → (∀ a, P [a]) → (∀ a b l, P l → P (a :: b :: l)) → ∀ l, P l.
Proof.
  intros H0 H1 H2. fix IH 1. intros [|a [|b l]]; [exact H0|exact (H1 a)|exact (H2 a b l (IH l))].
Qed.

Lemma next_level_trees (ts : list mtree) :
  next_merkle_level (tree_hash <$> ts) = tree_hash <$> pair_trees ts.
Proof. induction ts as [| |a b ts IH] using pairs_ind; simpl; [done..|]. f_equal. exact IH. Qed.

Lemma reduce_trees_hash (fuel : nat) (ts : list mtree) :
  merkle_reduce fuel (tree_hash <$> ts) = tree_hash <$> reduce_trees fuel ts.
Proof.
  revert ts. induction fuel as [|fuel IH]; intros ts; simpl; [done|].
  rewrite length_fmap. destruct (_ <? _)%nat; [|done]. by rewrite next_level_trees, IH.
Qed.

Lemma pair_trees_leaves (ts : list mtree) :
  concat (leaves <$> pair_trees ts) = concat (leaves <$> ts).
Proof.
  induction ts as [| |a b ts IH] using pairs_ind; simpl; [done..|].
  rewrite <-app_assoc. do 2 f_equal. exact IH.
Qed.

Lemma reduce_trees_leaves (fuel : nat) (ts : list mtree) :
  concat (leaves <$> reduce_trees fuel ts) = concat (leaves <$> ts).
Proof.
  revert ts. induction fuel as [|fuel IH]; intros ts; simpl; [done|].
  destruct (_ <? _)%nat; [|done]. by rewrite IH, pair_trees_leaves.
Qed.

Lemma pair_trees_length (ts : list mtree) :
  (2 * length (pair_trees ts) ≤ S (length ts))%nat ∧ (ts ≠ [] → pair_trees ts ≠ []).
Proof.
  induction ts as [| |a b ts [IH _]] using pairs_ind; simpl; [split; [lia|done]..|].
  split; [lia|done].
Qed.

Lemma reduce_trees_one (fuel : nat) (ts : list mtree) :
  (length ts ≤ S fuel)%nat → ts ≠ [] → ∃ t, reduce_trees fuel ts = [t].
Proof.
  revert ts. induction fuel as [|fuel IH]; intros ts Hlen Hne; simpl.
  { destruct ts as [|t [|]]; [done|eauto|simpl in Hlen; lia]. }
  destruct (Nat.ltb_spec 1 (length ts)) as [H|H].
  - destruct (pair_trees_length ts) as [Hl Hn]. apply IH; [lia|auto].
  - destruct ts as [|t [|]]; [done|eauto|simpl in H; lia].
Qed.

Lemma trees_of_spec (hashes : list (list Z)) :
  hashes ≠ [] → ∃ t, trees_of hashes = [t] ∧ leaves t = hashes.
Proof.
  intros Hne. unfold trees_of.
  destruct (reduce_trees_one (length hashes) (MLeaf <$> hashes)) as [t Ht].
  { rewrite length_fmap. lia. }
  { by destruct hashes. }
  exists t. split; [done|]. pose proof (reduce_trees_leaves (length hashes) (MLeaf <$> hashes)) as Hl.
  rewrite Ht in Hl. cbn in Hl. rewrite app_nil_r in Hl. rewrite Hl.
  clear. induction hashes as [|h hashes IH]; [done|]. cbn. f_equal. exact IH.
Qed.

Lemma tree_hash_wf (t : mtree) : length (tree_hash t) = 32%nat ∧ Forall is_byte (tree_hash t).
Proof. destruct t; (split; [apply sha256_length|apply sha256_bytes]). Qed.

(** One root, one tree. *)
Lemma tree_hash_inj (t1 t2 : mtree) :
  collision_free (tree_inputs t1 ++ tree_inputs t2) → tree_hash t1 = tree_hash t2 → t1 = t2.
Proof.
  revert t2. induction t1 as [h1|l1 IHl r1 IHr]; intros [h2|l2 r2] Hf Heq;
    (apply Hf in Heq; [|set_solver..]); try discriminate Heq.
  - by injection Heq as ->.
  - injection Heq as Heq. apply app_inj_1 in Heq as [Hl Hr].
    2: { by rewrite !(proj1 (tree_hash_wf _)). }
    f_equal; [apply IHl|apply IHr]; try done;
      (eapply collision_free_sub; [|exact Hf]); set_solver.
Qed.

(** A record and the bytes of its hash. *)
Definition hash_of (record : AuditRecord) (hash : list Z) : Prop :=
  decode_hash (r_hash record) = Ok hash ∧ r_hash record = encode_hash hash ∧
  length hash = 32%nat ∧ Forall is_byte hash.

Lemma verified_hashes (session_id : list Z) (records : list AuditRecord) :
  verify_from session_id 0 genesis_hash records = Ok tt → ∃ hs, Forall2 hash_of records hs.
Proof.
  induction records as [|record records IH] using rev_ind; intros H; [by exists []|].
  apply verify_from_snoc in H as [H []]. destruct (IH H) as [hs Hhs].
  apply chain_hash_digest in ok_hash0 as [input Hin]. exists (hs ++ [sha256 input]).
  apply Forall2_app; [done|]. repeat constructor; [|done|apply sha256_length|apply sha256_bytes].
  by rewrite Hin, decode_sha256.
Qed.

(** The bytes of the hashes of a log. *)
Definition log_hashes (log : AuditLog) : list (list Z) :=
  omap (λ hash, ok (decode_hash hash)) (r_hash <$> l_records log).

Lemma hashes_decoded (records : list AuditRecord) (hs : list (list Z)) :
  Forall2 hash_of records hs →
  omap (λ hash, ok (decode_hash hash)) (r_hash <$> records) = hs ∧
  mapM (λ record, merkle_leaf <$> ok (decode_hash (r_hash record))) records =
    Some (merkle_leaf <$> hs) ∧
  r_hash <$> records = encode_hash <$> hs.
Proof.
  induction 1 as [|record h records hs (Hd & He & _) _ (IH1 & IH2 & IH3)]; [done|].
  cbn [fmap list_fmap omap list_omap]. rewrite Hd. cbn [ok]. split_and!.
  - f_equal. exact IH1.
  - cbn [mapM]. rewrite Hd. cbn. rewrite IH2. done.
  - f_equal; [exact He|exact IH3].
Qed.

Lemma leaf_hashes (hs : list (list Z)) : merkle_leaf <$> hs = tree_hash <$> (MLeaf <$> hs).
Proof. by rewrite <-list_fmap_compose. Qed.

Lemma merkle_root_tree (log : AuditLog) :
  merkle_root log =
    match trees_of (log_hashes log) with
    | t :: _ => encode_hash (tree_hash t)
    | [] => encode_hash (sha256 empty_merkle_input)
    end.
Proof.
  unfold merkle_root, merkle_root_of, trees_of. fold (log_hashes log).
  rewrite length_fmap, leaf_hashes, reduce_trees_hash. by destruct (reduce_trees _ _).
Qed.

(** What was hashed for the root of a log. *)
Definition merkle_inputs (log : AuditLog) : list (list Z) :=
  empty_merkle_input :: concat (tree_inputs <$> trees_of (log_hashes log)).

Lemma tree_not_empty (t : mtree) : empty_merkle_input ∉ tree_inputs t.
Proof.
  induction t as [h|l IHl r IHr]; cbn [tree_inputs].
  - rewrite list_elem_of_singleton. discriminate.
  - rewrite elem_of_cons, elem_of_app. intros [H|[H|H]]; [discriminate H|auto..].
Qed.

Lemma tree_hash_input (t : mtree) :
  ∃ input, input ∈ tree_inputs t ∧ tree_hash t = sha256 input.
Proof. destruct t; eexists; (split; [apply list_elem_of_here|done]). Qed.

Lemma encode_tree_inj (t : mtree) (hash : list Z) :
  length hash = 32%nat → Forall is_byte hash → encode_hash (tree_hash t) = encode_hash hash →
  tree_hash t = hash.
Proof. intros _ Hb. apply hex_encode_inj; [apply tree_hash_wf|done]. Qed.

(** The Merkle root binds the whole log: two logs that verify and have one root have the same
    records. *)
Theorem merkle_root_binds (l1 l2 : AuditLog) :
  verify l1 = Ok tt → verify l2 = Ok tt →
  collision_free (merkle_inputs l1 ++ merkle_inputs l2) →
  collision_free (log_inputs l1 ++ log_inputs l2) →
  merkle_root l1 = merkle_root l2 → l_records l1 = l_records l2.
Proof.
  intros [_ H1]%verify_ok [_ H2]%verify_ok Hm Hl Hroot.
  destruct (verified_hashes _ _ H1) as [hs1 Hh1]. destruct (verified_hashes _ _ H2) as [hs2 Hh2].
  pose proof (hashes_decoded _ _ Hh1) as (E1 & _ & R1).
  pose proof (hashes_decoded _ _ Hh2) as (E2 & _ & R2).
  rewrite !merkle_root_tree in Hroot. unfold merkle_inputs in Hm.
  assert (hs1 = hs2) as ->.
  { unfold log_hashes in *. rewrite E1, E2 in *.
    destruct (decide (hs1 = [])) as [->|N1], (decide (hs2 = [])) as [->|N2]; [done|..].
    - exfalso. destruct (trees_of_spec hs2 N2) as (t & Ht & _). rewrite Ht in *. cbn in *.
      destruct (tree_hash_input t) as (input & Hin & Heq). rewrite Heq in Hroot.
      apply sha256_hex_inj, Hm in Hroot; [|set_solver..]. subst. by apply tree_not_empty in Hin.
    - exfalso. destruct (trees_of_spec hs1 N1) as (t & Ht & _). rewrite Ht in *. cbn in *.
      destruct (tree_hash_input t) as (input & Hin & Heq). rewrite Heq in Hroot.
      apply sha256_hex_inj, Hm in Hroot; [|set_solver..]. subst. by apply tree_not_empty in Hin.
    - destruct (trees_of_spec hs1 N1) as (t1 & Ht1 & <-).
      destruct (trees_of_spec hs2 N2) as (t2 & Ht2 & <-). rewrite Ht1, Ht2 in *. cbn in Hm.
      f_equal. apply tree_hash_inj; [eapply collision_free_sub; [|exact Hm]; set_solver|].
      apply encode_tree_inj; [apply tree_hash_wf..|done]. }
  eapply heads_bind; [exact H1|exact H2| |].
  - eapply collision_free_sub; [|exact Hl]. unfold log_inputs. set_solver.
  - apply (f_equal last) in R1, R2. rewrite !fmap_last in R1, R2. unfold head_hash.
    rewrite <-R2 in R1. destruct (last (l_records l1)), (last (l_records l2)); naive_solver.
Qed.

(** ** Inclusion proofs *)

(** The place of an element after one level, and what it was hashed with. *)
Lemma next_level_lookup (level : list (list Z)) (cursor : nat) (x : list Z) :
  level !! cursor = Some x →
  next_merkle_level level !! (cursor / 2)%nat =
    if (cursor mod 2 =? 1)%nat
    then (λ y, merkle_node y x) <$> level !! (cursor - 1)%nat
    else match level !! (cursor + 1)%nat with Some y => Some (merkle_node x y) | None => Some x end.
Proof.
  revert cursor. induction level as [|a|a b level IH] using pairs_ind; intros cursor Hx; [done|..].
  { destruct cursor; [by injection Hx as <-|done]. }
  destruct cursor as [|[|cursor]]; [by injection Hx as <-..|].
  assert (next_merkle_level (a :: b :: level) !! (S (S cursor) / 2)%nat =
          next_merkle_level level !! (cursor / 2)%nat) as ->.
  { change (S (S cursor)) with (1 * 2 + cursor)%nat. by rewrite Nat.div_add_l by lia. }
  assert (S (S cursor) mod 2 = cursor mod 2)%nat as ->.
  { change (S (S cursor)) with (2 + cursor)%nat. rewrite (Nat.add_comm 2).
    by rewrite <-(Nat.Div0.mod_add cursor 1 2), Nat.mul_1_l. }
  rewrite (IH cursor Hx). destruct (cursor mod 2 =? 1)%nat eqn:E; [|done].
  apply Nat.eqb_eq in E. destruct cursor as [|cursor]; [done|].
  by replace (S (S (S cursor)) - 1)%nat with (S (S (S cursor - 1))) by lia.
Qed.

Definition digests (level : list (list Z)) : Prop :=
  Forall (λ hash, length hash = 32%nat ∧ Forall is_byte hash) level.

Lemma node_digest (a b : list Z) :
  length (merkle_node a b) = 32%nat ∧ Forall is_byte (merkle_node a b).
Proof. split; [apply sha256_length|apply sha256_bytes]. Qed.

Lemma next_level_digests (level : list (list Z)) : digests level → digests (next_merkle_level level).
Proof.
  induction level as [| |a b level IH] using pairs_ind; [done..|].
  intros [_ [_ H]%Forall_cons]%Forall_cons. constructor; [apply node_digest|by apply IH].
Qed.

Lemma digests_lookup (level : list (list Z)) (i : nat) (x : list Z) :
  digests level → level !! i = Some x → decode_hash (encode_hash x) = Ok x.
Proof.
  intros Hd Hi. destruct (proj1 (Forall_lookup _ _) Hd i x Hi). by apply decode_encode_hash.
Qed.

Lemma proof_loop_climbs (fuel cursor : nat) (level : list (list Z)) (x : list Z) :
  digests level → level !! cursor = Some x → (length level ≤ S fuel)%nat →
  let '(nodes, root) := proof_loop fuel level cursor in
  root = merkle_reduce fuel level ∧ climb x nodes = head root.
Proof.
  revert cursor level x. induction fuel as [|fuel IH]; intros cursor level x Hd Hx Hlen.
  { destruct level as [|y [|]]; [done|by destruct cursor as [|[]]|simpl in Hlen; lia]. }
  cbn [proof_loop merkle_reduce]. destruct (Nat.ltb_spec 1 (length level)) as [Hl|Hl].
  2: { destruct level as [|y [|]]; [done|by destruct cursor as [|[]]|simpl in Hl; lia]. }
  pose proof (next_level_lookup level cursor x Hx) as Hnext.
  assert (length (next_merkle_level level) ≤ S fuel)%nat as Hlen'.
  { assert (∀ l : list (list Z), 2 * length (next_merkle_level l) ≤ S (length l))%nat as Hhalf.
    { clear. intros l. induction l as [| |a b l IH] using pairs_ind; simpl in *; lia. }
    specialize (Hhalf level). lia. }
  apply next_level_digests in Hd as Hd'.
  destruct (cursor mod 2 =? 1)%nat eqn:Eodd.
  - apply Nat.eqb_eq in Eodd. destruct (level !! (cursor - 1)%nat) as [y|] eqn:Ey.
    2: { apply lookup_ge_None in Ey. apply lookup_lt_Some in Hx. lia. }
    specialize (IH _ _ _ Hd' Hnext Hlen'). destruct (proof_loop _ _ _) as [nodes root].
    destruct IH as [-> Hc]. split; [done|]. cbn [app climb n_hash n_sibling_is_left from_option id].
    rewrite (digests_lookup _ _ _ Hd Ey). done.
  - destruct (level !! (cursor + 1)%nat) as [y|] eqn:Ey.
    + rewrite (proj2 (Nat.ltb_lt _ _)) by (by eapply lookup_lt_Some).
      specialize (IH _ _ _ Hd' Hnext Hlen'). destruct (proof_loop _ _ _) as [nodes root].
      destruct IH as [-> Hc]. split; [done|]. cbn [app climb n_hash n_sibling_is_left from_option id].
      rewrite (digests_lookup _ _ _ Hd Ey). done.
    + rewrite (proj2 (Nat.ltb_ge _ _)) by (by apply lookup_ge_None).
      specialize (IH _ _ _ Hd' Hnext Hlen'). by destruct (proof_loop _ _ _) as [nodes root].
Qed.

(** Every record of a log that verifies has a proof, and the proof verifies against the root
    of the log. *)
Theorem merkle_proof_complete (log : AuditLog) (index : nat) (record : AuditRecord) :
  verify log = Ok tt → l_records log !! index = Some record →
  ∃ proof, merkle_proof log index = Some proof ∧ p_leaf_hash proof = r_hash record ∧
    p_root_hash proof = merkle_root log ∧ proof_verify proof = true.
Proof.
  intros [_ Hv]%verify_ok Hi. destruct (verified_hashes _ _ Hv) as [hs Hhs].
  pose proof (hashes_decoded _ _ Hhs) as (E1 & E2 & _).
  destruct (Forall2_lookup_l _ _ _ _ _ Hhs Hi) as (h & Hh & Hd & _).
  unfold merkle_proof, merkle_root, merkle_root_of. rewrite Hi, E1, E2. cbn [mbind option_bind].
  pose proof (proof_loop_climbs (length (merkle_leaf <$> hs)) index (merkle_leaf <$> hs)
    (merkle_leaf h)) as Hc.
  destruct (proof_loop _ _ _) as [nodes root]. destruct Hc as [-> Hc].
  { apply Forall_fmap, Forall_true. intros x. split; [apply sha256_length|apply sha256_bytes]. }
  { by rewrite list_lookup_fmap, Hh. }
  { lia. }
  destruct (trees_of_spec hs) as (t & Ht & _); [by intros ->|].
  assert (merkle_reduce (length (merkle_leaf <$> hs)) (merkle_leaf <$> hs) = [tree_hash t]) as Hred.
  { rewrite length_fmap, leaf_hashes, reduce_trees_hash. unfold trees_of in Ht. by rewrite Ht. }
  rewrite Hred in *. eexists. split; [done|]. cbn. split_and!; [done..|].
  unfold proof_verify. cbn [p_leaf_hash p_nodes p_root_hash]. rewrite Hd. cbn [ok].
  rewrite Hc. cbn. by rewrite bool_decide_true.
Qed.

(** What the reader of a proof hashes above the leaf. *)
Fixpoint climb_inputs (current : list Z) (nodes : list MerkleProofNode) : list (list Z) :=
  match nodes with
  | [] => []
  | node :: nodes =>
      match decode_hash (n_hash node) with
      | Ok sibling =>
          let input := if n_sibling_is_left node then 1 :: sibling ++ current
                       else 1 :: current ++ sibling in
          input :: climb_inputs (sha256 input) nodes
      | Err _ => []
      end
  end.

Definition proof_inputs (proof : MerkleProof) : list (list Z) :=
  match decode_hash (p_leaf_hash proof) with
  | Ok leaf => (0 :: leaf) :: climb_inputs (merkle_leaf leaf) (p_nodes proof)
  | Err _ => []
  end.

Lemma decode_hash_length (value hash : list Z) :
  decode_hash value = Ok hash → length hash = 32%nat.
Proof.
  unfold decode_hash. destruct (length value =? 64)%nat eqn:El; [|done]. apply Nat.eqb_eq in El.
  destruct (forallb _ _); [|done]. cbn. destruct (hex_decode value) eqn:E; [|done].
  intros [= <-]. apply hex_decode_length in E. lia.
Qed.

(** The last step of a climb. *)
Lemma climb_snoc (current final : list Z) (nodes : list MerkleProofNode) (node : MerkleProofNode) :
  climb current (nodes ++ [node]) = Some final →
  ∃ y sibling, climb current nodes = Some y ∧ length sibling = 32%nat ∧
    let input := if n_sibling_is_left node then 1 :: sibling ++ y else 1 :: y ++ sibling in
    final = sha256 input ∧
    climb_inputs current (nodes ++ [node]) = climb_inputs current nodes ++ [input].
Proof.
  revert current. induction nodes as [|n nodes IH]; intros current; simpl.
  - destruct (decode_hash (n_hash node)) as [sibling|] eqn:E; [|done]. simpl.
    intros [= <-]. exists current, sibling. split; [done|].
    split; [by eapply decode_hash_length|]. by destruct (n_sibling_is_left node).
  - destruct (decode_hash (n_hash n)) as [sibling|] eqn:E; [|done]. simpl.
    intros H. apply IH in H as (y & sb & Hc & Hl & Hf & Hi). exists y, sb.
    split_and!; [done..|]. destruct (n_sibling_is_left n); (f_equal; exact Hi).
Qed.

Lemma climb_digest (leaf final : list Z) (nodes : list MerkleProofNode) :
  climb (merkle_leaf leaf) nodes = Some final → length final = 32%nat.
Proof.
  destruct nodes as [|n nodes _] using rev_ind; intros H.
  - injection H as <-. apply sha256_length.
  - apply climb_snoc in H as (? & ? & _ & _ & -> & _). apply sha256_length.
Qed.

Lemma climb_sound (leaf : list Z) (nodes : list MerkleProofNode) (t : mtree) :
  collision_free ((0 :: leaf) :: climb_inputs (merkle_leaf leaf) nodes ++ tree_inputs t) →
  climb (merkle_leaf leaf) nodes = Some (tree_hash t) → leaf ∈ leaves t.
Proof.
  revert t. induction nodes as [|n nodes IH] using rev_ind; intros t Hf Hc.
  - injection Hc as Hc. destruct t as [h|l r]; (apply Hf in Hc; [|set_solver..]).
    + injection Hc as ->. apply list_elem_of_here.
    + discriminate Hc.
  - apply climb_snoc in Hc as (y & sb & Hy & Hl & Hin & Hci). rewrite Hci in Hf.
    pose proof (climb_digest _ _ _ Hy) as Hly.
    destruct t as [h|l r]; cbn [tree_hash] in Hin.
    { symmetry in Hin. apply Hf in Hin; [|destruct (n_sibling_is_left n); set_solver..].
      by destruct (n_sibling_is_left n). }
    assert (1 :: tree_hash l ++ tree_hash r =
            if n_sibling_is_left n then 1 :: sb ++ y else 1 :: y ++ sb) as Heq.
    { apply Hf; [set_solver..|done]. }
    cbn [leaves]. apply elem_of_app. destruct (n_sibling_is_left n); injection Heq as Heq;
      (apply app_inj_1 in Heq as [<- <-]; [|by rewrite ?Hl, ?Hly, (proj1 (tree_hash_wf l))]);
      [right|left]; (apply IH; [|done]); (eapply collision_free_sub; [|exact Hf]); set_solver.
Qed.

(** C24: Nothing else has a proof: the leaf of a proof that verifies against the root of a log is
    the hash of one of its records. *)
Theorem merkle_proof_sound (log : AuditLog) (proof : MerkleProof) :
  verify log = Ok tt → proof_verify proof = true → p_root_hash proof = merkle_root log →
  collision_free (proof_inputs proof ++ merkle_inputs log) →
  ∃ record, record ∈ l_records log ∧ decode_hash (p_leaf_hash proof) = decode_hash (r_hash record).
Proof.
  intros [_ Hv]%verify_ok Hp Hroot Hf. destruct (verified_hashes _ _ Hv) as [hs Hhs].
  pose proof (hashes_decoded _ _ Hhs) as (E1 & _ & _).
  unfold proof_verify, proof_inputs in *. destruct (decode_hash (p_leaf_hash proof)) as [leaf|] eqn:El;
    [|done]. cbn [ok] in Hp. destruct (climb _ _) as [final|] eqn:Ec; [|done].
  apply bool_decide_eq_true in Hp. rewrite merkle_root_tree in Hroot. unfold merkle_inputs in Hf.
  unfold log_hashes in *. rewrite E1 in *.
  assert (∃ input, input ∈ (0 :: leaf) :: climb_inputs (merkle_leaf leaf) (p_nodes proof) ∧
            final = sha256 input ∧ input ≠ empty_merkle_input) as (input & Hin & -> & Hne).
  { destruct (p_nodes proof) as [|n nodes _] using rev_ind.
    - injection Ec as <-. exists (0 :: leaf). split; [set_solver|]. done.
    - apply climb_snoc in Ec as (y & sb & _ & _ & -> & ->).
      eexists. split; [|split; [done|]]; [set_solver|]. by destruct (n_sibling_is_left n). }
  destruct (decide (hs = [])) as [->|Hn].
  { exfalso. cbn in Hroot. rewrite Hroot in Hp. apply sha256_hex_inj, Hf in Hp; [done|set_solver..]. }
  destruct (trees_of_spec hs Hn) as (t & Ht & Hleaves). rewrite Ht in *. cbn in Hroot, Hf.
  rewrite app_nil_r in Hf. rewrite Hroot in Hp. symmetry in Hp. apply encode_tree_inj in Hp;
    [|apply sha256_length|apply sha256_bytes].
  assert (leaf ∈ hs) as Hleaf.
  { rewrite <-Hleaves. eapply climb_sound; [|by rewrite Hp]. eapply collision_free_sub; [|exact Hf].
    set_solver. }
  apply list_elem_of_lookup in Hleaf as [i Hi].
  destruct (Forall2_lookup_r _ _ _ _ _ Hhs Hi) as (record & Hrec & Hd & _).
  exists record. split; [by eapply list_elem_of_lookup_2|]. by rewrite Hd.
Qed.

End Laws.
End Log.

(** ** Examples *)

Module AuditSample.
Import DigestSample.

#[global] Instance AuditCategory_words : Words AuditCategory.
Proof.
  refine (words_enum [CatCommand; CatFileAccess; CatNetwork; CatPermission; CatSecret;
    CatLifecycle; CatPolicy; CatMcp; CatProvenance; CatSnapshot] CatCommand _).
  by intros [].
Defined.

#[global] Instance AuditResult_words : Words AuditResult.
Proof. refine (words_enum [ResAllowed; ResDenied; ResError; ResSuccess] ResAllowed _). by intros []. Defined.

#[global] Instance AuditEvent_words : Words AuditEvent.
Proof.
  refine (words_via
    (λ e, (ev_version e, ev_sequence e, ev_session_id e, ev_timestamp_unix_nanos e,
           (ev_category e, ev_action e, ev_subject e, ev_result e, ev_metadata e)))
    (λ '(v, s, i, t, (c, a, u, r, m)), Build_AuditEvent v s i t c a u r m) _).
  by intros [].
Defined.

#[global] Instance AuditRecord_words : Words AuditRecord.
Proof.
  refine (words_via (λ r, (r_event r, r_previous_hash r, r_hash r))
    (λ '(e, p, h), Build_AuditRecord e p h) _).
  by intros [].
Defined.

#[global] Instance AuditHeader_words : Words AuditHeader.
Proof.
  refine (words_via (λ h, (h_format h, h_version h)) (λ '(f, v), Build_AuditHeader f v) _).
  by intros [].
Defined.

#[global] Instance event_json : Serde AuditEvent := words_serde AuditEvent.
#[global] Instance record_json : Serde AuditRecord := words_serde AuditRecord.
#[global] Instance header_json : Serde AuditHeader := words_serde AuditHeader.
#[global] Instance event_laws : SerdeLaws AuditEvent := words_serde_laws AuditEvent.
#[global] Instance record_laws : SerdeLaws AuditRecord := words_serde_laws AuditRecord.
#[global] Instance header_laws : SerdeLaws AuditHeader := words_serde_laws AuditHeader.

Definition log0 : AuditLog := {| l_session_id := str "s"; l_records := [] |}.

Definition add (log : AuditLog) (action : string) : AuditLog :=
  match append log 7 CatCommand (str action) (str "x") ResAllowed {[ str "k" := str "v" ]} with
  | Ok (log, _) => log
  | Err _ => log
  end.

Definition log1 : AuditLog := Eval vm_compute in add log0 "a".
Definition log3 : AuditLog := Eval vm_compute in add (add log1 "b") "c".

Lemma log1_verifies : verify log1 = Ok tt.
Proof. by vm_compute. Qed.

Lemma log3_verifies : verify log3 = Ok tt.
Proof. by vm_compute. Qed.

Example log3_decodes :
  match encode log3 with Ok bytes => decode bytes 3 | Err e => Err e end = Ok log3.
Proof. by vm_compute. Qed.

Lemma append_exact_witness :
  match append log1 7 CatCommand (str "b") (str "x") ResAllowed ∅ with
  | Ok (log', record) => l_records log' = l_records log1 ++ [record]
  | Err _ => False
  end.
Proof.
  pose proof (append_exact log1 7 CatCommand (str "b") (str "x") ResAllowed ∅
    log1_verifies) as H.
  destruct (append _ _ _ _ _ _ _) as [[log' record]|e].
  - destruct H as [(_ & -> & _) _]. done.
  - apply H. by vm_compute.
Defined.

Lemma head_binds_prefix_witness : l_records log1 = take 1 (l_records log3).
Proof.
  refine (head_binds_prefix log1 log3 0 (default (Build_AuditRecord
    (Build_AuditEvent 0 0 [] 0 CatCommand [] [] ResError ∅) [] []) (head (l_records log3)))
    _ _ _ _ _); [by vm_compute..| |by vm_compute|by vm_compute].
  apply collision_check_true. by vm_compute.
Defined.

Lemma stored_log_roundtrip_witness :
  ∃ bytes, encode log3 = Ok bytes ∧ decode bytes 3 = Ok log3.
Proof. apply (stored_log_roundtrip log3 3); [exact log3_verifies|done|done]. Defined.

Lemma merkle_root_binds_witness : l_records log3 = l_records (add (add log1 "b") "c").
Proof.
  apply (merkle_root_binds log3 (add (add log1 "b") "c")); [by vm_compute..| | |by vm_compute];
    apply collision_check_true; by vm_compute.
Defined.

Definition proof2 : MerkleProof :=
  default (Build_MerkleProof 0 [] [] []) (merkle_proof log3 2).

Lemma merkle_proof_complete_witness :
  ∃ proof, merkle_proof log3 2 = Some proof ∧ proof_verify proof = true.
Proof.
  destruct (l_records log3 !! 2%nat) as [record|] eqn:E; [|by vm_compute in E].
  destruct (merkle_proof_complete log3 2 record log3_verifies E) as (p & Hp & _ & _ & Hv).
  by exists p.
Defined.

Lemma merkle_proof_sound_witness :
  ∃ record, record ∈ l_records log3 ∧
    decode_hash (p_leaf_hash proof2) = decode_hash (r_hash record).
Proof.
  apply (merkle_proof_sound log3 proof2); [exact log3_verifies|by vm_compute..|].
  apply collision_check_true. by vm_compute.
Defined.

(** The log takes events beyond the number that [verify] accepts. *)
Lemma append_past_limit (log : AuditLog) :
  verify log = Ok tt → Z.of_nat (length (l_records log)) = DEFAULT_MAX_EVENTS →
  ∃ log' record, append log 7 CatCommand (str "b") (str "x") ResAllowed ∅ = Ok (log', record) ∧
    verify log' = Err (SecMalformed AUDIT_FORMAT (str "event count exceeds limit")).
Proof.
  intros [_ Hv]%verify_ok Hlen. unfold append.
  change (validate_metadata ∅) with (Ok (E := SecurityError) tt).
  change (validate_text (str "action") (str "b") 512) with (Ok (E := SecurityError) tt).
  change (validate_text (str "subject") (str "x") 4096) with (Ok (E := SecurityError) tt).
  cbv zeta. set (event := {| ev_version := _ |}).
  destruct (chain_hash_ok (head_hash (l_records log)) event (head_is_digest _ _ Hv))
    as (p & e & _ & _ & _ & _ & Hh).
  rewrite Hh. do 2 eexists. split; [done|]. unfold verify. cbn [l_records].
  rewrite (proj2 (Z.ltb_lt _ _)); [done|]. rewrite length_app. cbn [length]. lia.
Qed.

End AuditSample.
