(* ===== verification/Permission.v ===== *)
(** * The permission supervisor ([crates/sendbox-session-security/src/supervisor.rs])

    The state of the supervisor and its operations: requests decided by deny rules, grants,
    automatic rules or an approval handler, the management of grants and deny rules, and the
    stored form with its chain of state hashes.  An operation takes the state and the replies
    of its environment, and gives its result, the new state and the events that the sink
    recorded.  The theorems are in [PermissionSafety]. *)

From S2P Require Import Prelude RustStr Net Glob Digest.

(** ** Constants *)

Definition SUPERVISOR_FORMAT : list Z := str "sendbox-permission-supervisor".
Definition SUPERVISOR_VERSION : Z := 1.
Definition STATE_HASH_DOMAIN : list Z := str "sendbox-permission-supervisor-state-v1" ++ [0].
Definition ZERO_HASH : list Z := replicate 64 ch_zero.
Definition MAX_PERSISTED_BYTES : Z := 1024 * 1024.
Definition HARD_MAX_RULES : Z := 4096.
Definition HARD_MAX_HISTORY : Z := 100000.
Definition HARD_MAX_REQUEST_IDS : Z := 100000.
Definition HARD_MAX_PATTERN_BYTES : Z := 1024.
Definition HARD_MAX_SUBJECT_BYTES : Z := 16 * 1024.
Definition HARD_MAX_ID_BYTES : Z := 256.
Definition HARD_MAX_PROMPTS : Z := 100000.
Definition HARD_MAX_TIMEOUT_MS : Z := 24 * 60 * 60 * 1000.

(** ** Requests *)

Inductive PermissionCategory : Type := Command | Network | FileWrite | SecretAccess | SystemCall.

#[global] Instance PermissionCategory_eq_dec : EqDecision PermissionCategory.
Proof. solve_decision. Defined.

#[global] Instance PermissionCategory_countable : Countable PermissionCategory.
Proof.
  refine (inj_countable'
    (λ c, match c with Command => 0 | Network => 1 | FileWrite => 2 | SecretAccess => 3
                     | SystemCall => 4 end)
    (λ n, match n with 0 => Command | 1 => Network | 2 => FileWrite | 3 => SecretAccess
                     | _ => SystemCall end) _).
  by intros [].
Defined.

Definition category_as_str (category : PermissionCategory) : list Z :=
  match category with
  | Command => str "command"
  | Network => str "network"
  | FileWrite => str "file_write"
  | SecretAccess => str "secret_access"
  | SystemCall => str "system_call"
  end.

Inductive RiskLevel : Type := Low | Medium | High | Critical.

Definition contains_any (subject : list Z) (patterns : list string) : bool :=
  existsb (λ pattern, contains_sub subject (str pattern)) patterns.

Definition starts_with_any (subject : list Z) (prefixes : list string) : bool :=
  existsb (λ prefix, starts_with subject (str prefix)) prefixes.

Definition classify_risk (category : PermissionCategory) (subject : list Z) : RiskLevel :=
  match category with
  | SystemCall =>
      if contains_any subject ["mount"; "umount"; "reboot"; "shutdown"; "kexec"; "insmod"]
      then Critical else High
  | SecretAccess => High
  | Network =>
      if contains_any subject ["github.com"; "npmjs.org"; "pypi.org"; "crates.io"; "docker.io";
                               "docker.com"]
      then Medium else High
  | Command =>
      if starts_with_any subject ["sudo"; "su"; "chmod"; "chown"; "dd"; "mkfs"; "fdisk";
                                  "iptables"; "systemctl"]
      then High else Medium
  | FileWrite =>
      if starts_with_any subject ["/etc"; "/usr"; "/sys"; "/proc"] then High else Low
  end.

Record PermissionPattern : Type := {
  pp_category : PermissionCategory;
  pp_pattern : list Z;
}.

Record AutoApproveRule : Type := {
  ar_matcher : PermissionPattern;
  ar_max_uses : option Z;
}.

Record SupervisorLimits : Type := {
  max_grants : Z;
  max_deny_rules : Z;
  max_history : Z;
  max_request_ids : Z;
  max_pattern_bytes : Z;
  max_subject_bytes : Z;
}.

Definition SupervisorLimits_default : SupervisorLimits :=
  {| max_grants := 1024; max_deny_rules := 1024; max_history := 10000; max_request_ids := 10000;
     max_pattern_bytes := 512; max_subject_bytes := 4096 |}.

Record SupervisorConfig : Type := {
  interactive : bool;
  auto_approve : list AutoApproveRule;
  prompt_budget : Z;
  allow_session_grants : bool;
  approval_timeout_ms : Z;
  limits : SupervisorLimits;
}.

Definition SupervisorConfig_default : SupervisorConfig :=
  {| interactive := true; auto_approve := []; prompt_budget := 50; allow_session_grants := true;
     approval_timeout_ms := 30000; limits := SupervisorLimits_default |}.

Definition strict : SupervisorConfig :=
  {| interactive := true; auto_approve := []; prompt_budget := 100; allow_session_grants := false;
     approval_timeout_ms := 15000; limits := SupervisorLimits_default |}.

Definition autonomous : SupervisorConfig :=
  {| interactive := false;
     auto_approve :=
       (λ category, {| ar_matcher := {| pp_category := category; pp_pattern := str "*" |};
                       ar_max_uses := None |}) <$> [Command; FileWrite; Network];
     prompt_budget := 0; allow_session_grants := true; approval_timeout_ms := 0;
     limits := SupervisorLimits_default |}.

Record PermissionRequest : Type := {
  rq_request_id : list Z;
  rq_category : PermissionCategory;
  rq_subject : list Z;
  rq_context : list Z;
  rq_timestamp_unix_ms : Z;
}.

Inductive ApprovalDecision : Type :=
| ApproveOnce
| ApproveSession (expires_at_unix_ms max_uses : option Z)
| ApprovePattern (pattern : list Z) (expires_at_unix_ms max_uses : option Z)
| Deny
| DenyAlways.

Record ApprovalContext : Type := {
  ac_risk : RiskLevel;
  ac_deadline_unix_ms : Z;
}.

Record PermissionDecision : Type := {
  pd_allowed : bool;
  pd_reason : list Z;
  pd_risk : RiskLevel;
  pd_generation : Z;
  pd_state_hash : list Z;
}.

Record PermissionEvent : Type := {
  pe_timestamp_unix_ms : Z;
  pe_category : PermissionCategory;
  pe_subject : list Z;
  pe_action : list Z;
  pe_allowed : bool;
  pe_generation : Z;
  pe_state_hash : list Z;
}.

Inductive SupervisorError : Type :=
| InvalidConfig (detail : list Z)
| InvalidRequest (detail : list Z)
| Replay (request_id : list Z)
| ApprovalHandlerFailed (message : list Z)
| InvalidDecision (detail : list Z)
| EventSink (message : list Z)
| PersistedTooLarge
| Corrupt (detail : list Z)
| HashMismatch
| CheckpointReplay (actual anchored : Z)
| CheckpointEquivocation (generation : Z)
| CheckpointJump (actual anchored : Z)
| CheckpointLink
| UnknownGrant (grant_id : list Z)
| UnknownDenyRule.

(** The [Display] text of an error that is wrapped in another. *)
Definition error_text (error : SupervisorError) : list Z :=
  match error with
  | InvalidConfig detail => str "invalid supervisor configuration: " ++ detail
  | InvalidRequest detail => str "invalid permission request: " ++ detail
  | InvalidDecision detail => str "approval decision is invalid: " ++ detail
  | _ => str "error"
  end.

(** ** State *)

Record ExactDenyRule : Type := {
  dr_category : PermissionCategory;
  dr_subject : list Z;
}.

#[global] Instance ExactDenyRule_eq_dec : EqDecision ExactDenyRule.
Proof. solve_decision. Defined.

#[global] Instance ExactDenyRule_countable : Countable ExactDenyRule.
Proof.
  refine (inj_countable' (λ r, (dr_category r, dr_subject r))
    (λ '(c, s), {| dr_category := c; dr_subject := s |}) _).
  by intros [].
Defined.

Inductive GrantMatcher : Type :=
| Exact (subject : list Z)
| Pattern (pattern : list Z).

Inductive GrantType : Type := GrantOnce | GrantSession | GrantPattern.

Record PermissionGrant : Type := {
  g_id : list Z;
  g_category : PermissionCategory;
  g_matcher : GrantMatcher;
  g_granted_at_unix_ms : Z;
  g_expires_at_unix_ms : option Z;
  g_uses_remaining : option Z;
  g_grant_type : GrantType;
}.

(** [is_some_and(|expiry| expiry <= now)] *)
Definition expired (expiry : option Z) (now : Z) : bool :=
  match expiry with Some expiry => expiry <=? now | None => false end.

Definition grant_matches (grant : PermissionGrant) (request : PermissionRequest) (now : Z)
  : bool :=
  if negb (bool_decide (g_category grant = rq_category request)) ||
     expired (g_expires_at_unix_ms grant) now || bool_decide (g_uses_remaining grant = Some 0)
  then false
  else
    match g_matcher grant with
    | Exact subject => bool_decide (subject = rq_subject request)
    | Pattern pattern => row_glob_matches pattern (rq_subject request)
    end.

Inductive HistoryKind : Type :=
| AllowedGrant | AllowedAuto | AllowedApproval | DeniedRule | DeniedNoninteractive | DeniedBudget
| DeniedNoHandler | DeniedApproval | DeniedTimeout | DeniedCancelled | HandlerError | GrantAdded
| GrantRevoked | GrantsRevokedAll | DenyAdded | DenyRevoked.

#[global] Instance HistoryKind_eq_dec : EqDecision HistoryKind.
Proof. solve_decision. Defined.

Record HistoryEntry : Type := {
  he_generation : Z;
  he_previous_state_hash : list Z;
  he_timestamp_unix_ms : Z;
  he_kind : HistoryKind;
  he_request_id : option (list Z);
  he_category : option PermissionCategory;
  he_subject : option (list Z);
  he_detail : list Z;
}.

(** [PersistedState] without its own hash, which is what is hashed: [StateHashPayload] *)
Record StateHashPayload : Type := {
  sp_format : list Z;
  sp_version : Z;
  sp_session_id : list Z;
  sp_generation : Z;
  sp_previous_state_hash : list Z;
  sp_config : SupervisorConfig;
  sp_grants : gmap (list Z) PermissionGrant;
  sp_deny_rules : gset ExactDenyRule;
  sp_auto_use_counters : gmap PermissionCategory Z;
  sp_request_ids : gset (list Z);
  sp_prompts_used : Z;
  sp_history : list HistoryEntry;
}.

Record PersistedState : Type := {
  st_payload : StateHashPayload;
  st_state_hash : list Z;
}.

Record HistoryDraft : Type := {
  hd_timestamp_unix_ms : Z;
  hd_kind : HistoryKind;
  hd_request_id : option (list Z);
  hd_category : option PermissionCategory;
  hd_subject : option (list Z);
  hd_detail : list Z;
}.

Record SupervisorCheckpoint : Type := {
  cp_generation : Z;
  cp_state_hash : list Z;
}.

(** Changes of one field. *)
Definition set_grants (p : StateHashPayload) (grants : gmap (list Z) PermissionGrant)
  : StateHashPayload :=
  {| sp_format := sp_format p; sp_version := sp_version p; sp_session_id := sp_session_id p;
     sp_generation := sp_generation p; sp_previous_state_hash := sp_previous_state_hash p;
     sp_config := sp_config p; sp_grants := grants; sp_deny_rules := sp_deny_rules p;
     sp_auto_use_counters := sp_auto_use_counters p; sp_request_ids := sp_request_ids p;
     sp_prompts_used := sp_prompts_used p; sp_history := sp_history p |}.

Definition set_deny_rules (p : StateHashPayload) (rules : gset ExactDenyRule)
  : StateHashPayload :=
  {| sp_format := sp_format p; sp_version := sp_version p; sp_session_id := sp_session_id p;
     sp_generation := sp_generation p; sp_previous_state_hash := sp_previous_state_hash p;
     sp_config := sp_config p; sp_grants := sp_grants p; sp_deny_rules := rules;
     sp_auto_use_counters := sp_auto_use_counters p; sp_request_ids := sp_request_ids p;
     sp_prompts_used := sp_prompts_used p; sp_history := sp_history p |}.

Definition set_auto_use_counters (p : StateHashPayload) (counters : gmap PermissionCategory Z)
  : StateHashPayload :=
  {| sp_format := sp_format p; sp_version := sp_version p; sp_session_id := sp_session_id p;
     sp_generation := sp_generation p; sp_previous_state_hash := sp_previous_state_hash p;
     sp_config := sp_config p; sp_grants := sp_grants p; sp_deny_rules := sp_deny_rules p;
     sp_auto_use_counters := counters; sp_request_ids := sp_request_ids p;
     sp_prompts_used := sp_prompts_used p; sp_history := sp_history p |}.

Definition insert_request_id (p : StateHashPayload) (id : list Z) : StateHashPayload :=
  {| sp_format := sp_format p; sp_version := sp_version p; sp_session_id := sp_session_id p;
     sp_generation := sp_generation p; sp_previous_state_hash := sp_previous_state_hash p;
     sp_config := sp_config p; sp_grants := sp_grants p; sp_deny_rules := sp_deny_rules p;
     sp_auto_use_counters := sp_auto_use_counters p;
     sp_request_ids := {[ id ]} ∪ sp_request_ids p;
     sp_prompts_used := sp_prompts_used p; sp_history := sp_history p |}.

(** [prompts_used += 1], below the budget and so without overflow *)
Definition count_prompt (p : StateHashPayload) : StateHashPayload :=
  {| sp_format := sp_format p; sp_version := sp_version p; sp_session_id := sp_session_id p;
     sp_generation := sp_generation p; sp_previous_state_hash := sp_previous_state_hash p;
     sp_config := sp_config p; sp_grants := sp_grants p; sp_deny_rules := sp_deny_rules p;
     sp_auto_use_counters := sp_auto_use_counters p; sp_request_ids := sp_request_ids p;
     sp_prompts_used := sp_prompts_used p + 1; sp_history := sp_history p |}.

(** The generation, the link and the history of the next state. *)
Definition next_generation (p : StateHashPayload) (generation : Z) (previous : list Z)
    (entry : HistoryEntry) : StateHashPayload :=
  {| sp_format := sp_format p; sp_version := sp_version p; sp_session_id := sp_session_id p;
     sp_generation := generation; sp_previous_state_hash := previous;
     sp_config := sp_config p; sp_grants := sp_grants p; sp_deny_rules := sp_deny_rules p;
     sp_auto_use_counters := sp_auto_use_counters p; sp_request_ids := sp_request_ids p;
     sp_prompts_used := sp_prompts_used p; sp_history := sp_history p ++ [entry] |}.

(** In the order of the keys. *)
Definition grants_iter (grants : gmap (list Z) PermissionGrant)
  : list (list Z * PermissionGrant) :=
  sort_by (λ x y, bytes_leb x.1 y.1) (map_to_list grants).

(** ** Validation *)

Notation SupervisorResult := (result SupervisorError).

Definition validate_id (value : list Z) : result (list Z) unit :=
  if bool_decide (value = []) || (HARD_MAX_ID_BYTES <? Z.of_nat (length value)) ||
     has_control value
  then Err (str "identifier is empty, too long, or contains control characters")
  else Ok tt.

Definition validate_subject (subject : list Z) (l : SupervisorLimits) : SupervisorResult unit :=
  if bool_decide (subject = []) || (max_subject_bytes l <? Z.of_nat (length subject)) ||
     has_control subject
  then Err (InvalidRequest (str "subject is empty, too long, or contains control characters"))
  else Ok tt.

Definition validate_pattern (pattern : list Z) (l : SupervisorLimits) : SupervisorResult unit :=
  if bool_decide (pattern = []) || (max_pattern_bytes l <? Z.of_nat (length pattern)) ||
     has_control pattern
  then Err (InvalidConfig (str "pattern is empty, too long, or contains control characters"))
  else Ok tt.

Definition outside (value hard_max : Z) : bool := (value =? 0) || (hard_max <? value).

(** The loop over a collection that stops at the first error. *)
Fixpoint check_each {A E : Type} (f : A → result E unit) (l : list A) : result E unit :=
  match l with
  | [] => Ok tt
  | x :: l => check? f x in check_each f l
  end.

Definition validate_rule (l : SupervisorLimits) (rule : AutoApproveRule) : SupervisorResult unit :=
  check? validate_pattern (pp_pattern (ar_matcher rule)) l in
  if bool_decide (ar_max_uses rule = Some 0)
  then Err (InvalidConfig (str "auto-approve max_uses must be positive"))
  else Ok tt.

Definition validate_config (config : SupervisorConfig) : SupervisorResult unit :=
  let l := limits config in
  if outside (max_grants l) HARD_MAX_RULES || outside (max_deny_rules l) HARD_MAX_RULES ||
     outside (max_history l) HARD_MAX_HISTORY || outside (max_request_ids l) HARD_MAX_REQUEST_IDS ||
     outside (max_pattern_bytes l) HARD_MAX_PATTERN_BYTES ||
     outside (max_subject_bytes l) HARD_MAX_SUBJECT_BYTES ||
     (HARD_MAX_PROMPTS <? prompt_budget config) ||
     (HARD_MAX_TIMEOUT_MS <? approval_timeout_ms config) ||
     (max_grants l <? Z.of_nat (length (auto_approve config)))
  then Err (InvalidConfig (str "one or more bounded limits are invalid"))
  else check_each (validate_rule l) (auto_approve config).

Definition validate_request (request : PermissionRequest) (l : SupervisorLimits)
  : SupervisorResult unit :=
  check? map_err InvalidRequest (validate_id (rq_request_id request)) in
  check? validate_subject (rq_subject request) l in
  if (max_subject_bytes l <? Z.of_nat (length (rq_context request))) ||
     has_control (rq_context request)
  then Err (InvalidRequest (str "context is too long or contains control characters"))
  else Ok tt.

Definition validate_grant_limits (max_uses expiry : option Z) (now : Z) : SupervisorResult unit :=
  if bool_decide (max_uses = Some 0)
  then Err (InvalidDecision (str "grant max_uses must be positive"))
  else if expired expiry now
  then Err (InvalidDecision (str "grant expiry must be in the future"))
  else Ok tt.

Definition validate_grant (grant : PermissionGrant) (l : SupervisorLimits) (now : Z)
  : SupervisorResult unit :=
  check? map_err InvalidDecision (validate_id (g_id grant)) in
  if expired (g_expires_at_unix_ms grant) now
  then Err (InvalidDecision (str "grant expiry must be after its validation time"))
  else if bool_decide (g_uses_remaining grant = Some 0)
  then Err (InvalidDecision (str "grant uses must be positive"))
  else
    match g_matcher grant with
    | Exact subject => validate_subject subject l
    | Pattern pattern => validate_pattern pattern l
    end.

Definition validate_hash (value : list Z) : SupervisorResult unit :=
  if negb (length value =? 64)%nat ||
     negb (forallb (λ b, is_ascii_digit b || in_range 97 102 b) value)
  then Err (Corrupt (str "hash is not lowercase 64-character hexadecimal"))
  else Ok tt.

(** The kinds that used a prompt. *)
Definition is_prompt (kind : HistoryKind) : bool :=
  match kind with
  | AllowedApproval | DeniedApproval | DeniedTimeout | DeniedCancelled | HandlerError => true
  | _ => false
  end.

(** One entry of the history, at [index] of [total]. *)
Definition validate_entry (p : StateHashPayload) (total index : nat) (entry : HistoryEntry)
  : SupervisorResult unit :=
  if negb (he_generation entry =? Z.of_nat index + 1)
  then Err (Corrupt (str "history generations are not contiguous"))
  else
    check? validate_hash (he_previous_state_hash entry) in
    if bool_decide (he_previous_state_hash entry = ZERO_HASH)
    then Err (Corrupt (str "history links to the zero hash"))
    else if (index + 1 =? total)%nat &&
            negb (bool_decide (he_previous_state_hash entry = sp_previous_state_hash p))
    then Err (Corrupt (str "latest history link does not match state link"))
    else
      check? match he_request_id entry with
             | Some id => map_err Corrupt (validate_id id)
             | None => Ok tt
             end in
      check? match he_subject entry with
             | Some subject =>
                 map_err (λ e, Corrupt (error_text e)) (validate_subject subject (limits (sp_config p)))
             | None => Ok tt
             end in
      if (HARD_MAX_PATTERN_BYTES <? Z.of_nat (length (he_detail entry))) ||
         has_control (he_detail entry)
      then Err (Corrupt (str "history detail is invalid"))
      else Ok tt.

(** The loop over the history; the number of prompts fits, as the history does. *)
Fixpoint validate_entries (p : StateHashPayload) (total index : nat) (history : list HistoryEntry)
  : SupervisorResult unit :=
  match history with
  | [] => Ok tt
  | entry :: history =>
      check? validate_entry p total index entry in
      validate_entries p total (S index) history
  end.

Definition history_request_ids (history : list HistoryEntry) : gset (list Z) :=
  list_to_set (omap he_request_id history).

Definition history_prompts (history : list HistoryEntry) : Z :=
  Z.of_nat (length (filter (λ entry, is_prompt (he_kind entry) = true) history)).

Definition validate_stored_grant (l : SupervisorLimits) (entry : list Z * PermissionGrant)
  : SupervisorResult unit :=
  let '(id, grant) := entry in
  check? map_err Corrupt (validate_id id) in
  if negb (bool_decide (g_id grant = id)) || bool_decide (g_uses_remaining grant = Some 0)
  then Err (Corrupt (str "grant key, identifier, or use count is invalid"))
  else
    map_err (λ e, Corrupt (error_text e)) (validate_grant grant l (g_granted_at_unix_ms grant)).

Definition validate_state (s : PersistedState) : SupervisorResult unit :=
  let p := st_payload s in
  let l := limits (sp_config p) in
  if negb (bool_decide (sp_format p = SUPERVISOR_FORMAT)) ||
     negb (sp_version p =? SUPERVISOR_VERSION)
  then Err (Corrupt (str "unsupported format or version"))
  else
    check? validate_config (sp_config p) in
    check? validate_hash (sp_previous_state_hash p) in
    check? validate_hash (st_state_hash s) in
    check? if sp_generation p =? 0 then
             if negb (bool_decide (sp_previous_state_hash p = ZERO_HASH)) ||
                negb (bool_decide (sp_history p = []))
             then Err (Corrupt (str "generation zero has an invalid link or history"))
             else Ok tt
           else if bool_decide (sp_previous_state_hash p = ZERO_HASH)
           then Err (Corrupt (str "nonzero generation links to the zero hash"))
           else Ok tt in
    if negb (Z.of_nat (length (sp_history p)) =? sp_generation p) ||
       (max_history l <? Z.of_nat (length (sp_history p))) ||
       (max_grants l <? Z.of_nat (size (sp_grants p))) ||
       (max_deny_rules l <? Z.of_nat (size (sp_deny_rules p))) ||
       (max_request_ids l <? Z.of_nat (size (sp_request_ids p))) ||
       (prompt_budget (sp_config p) <? sp_prompts_used p) ||
       (5 <? Z.of_nat (size (sp_auto_use_counters p)))
    then Err (Corrupt (str "persisted collection count exceeds limits"))
    else
      check? validate_entries p (length (sp_history p)) 0 (sp_history p) in
      if negb (bool_decide (history_request_ids (sp_history p) = sp_request_ids p)) ||
         negb (history_prompts (sp_history p) =? sp_prompts_used p)
      then Err (Corrupt (str "replay set or prompt count does not match history"))
      else
        check? check_each (λ id, map_err Corrupt (validate_id id)) (elements (sp_request_ids p)) in
        check? check_each (λ rule, map_err (λ e, Corrupt (error_text e))
                                     (validate_subject (dr_subject rule) l))
                 (elements (sp_deny_rules p)) in
        check? check_each (validate_stored_grant l) (grants_iter (sp_grants p)) in
        if existsb (λ kv, kv.2 =? 0) (map_to_list (sp_auto_use_counters p))
        then Err (Corrupt (str "auto-rule use counter is invalid"))
        else Ok tt.

(** ** Grants *)

Definition insert_grant (p : StateHashPayload) (grant : PermissionGrant)
  : SupervisorResult StateHashPayload :=
  if bool_decide (g_uses_remaining grant = Some 0) then Ok p
  else if max_grants (limits (sp_config p)) <=? Z.of_nat (size (sp_grants p))
  then Err (InvalidDecision (str "grant limit reached"))
  else if bool_decide (is_Some (sp_grants p !! g_id grant))
  then Err (InvalidDecision (str "grant identifier collision"))
  else Ok (set_grants p (<[g_id grant := grant]> (sp_grants p))).

(** [uses] is positive: [validate_grant_limits] *)
Definition current_consumed_uses (max_uses : option Z) : option Z :=
  match max_uses with Some uses => Some (uses - 1) | None => None end.

(** [grants.retain]: those that have not expired *)
Definition retain_grants (p : StateHashPayload) (now : Z) : StateHashPayload :=
  set_grants p (filter (λ kv, expired (g_expires_at_unix_ms kv.2) now = false) (sp_grants p)).

(** One use of a grant. *)
Definition consume_grant (grant_id : list Z) (p : StateHashPayload)
  : SupervisorResult StateHashPayload :=
  match sp_grants p !! grant_id with
  | None => Err (UnknownGrant grant_id)
  | Some grant =>
      match g_uses_remaining grant with
      | Some 1 => Ok (set_grants p (delete grant_id (sp_grants p)))
      | Some remaining =>
          Ok (set_grants p (<[grant_id :=
            {| g_id := g_id grant; g_category := g_category grant; g_matcher := g_matcher grant;
               g_granted_at_unix_ms := g_granted_at_unix_ms grant;
               g_expires_at_unix_ms := g_expires_at_unix_ms grant;
               g_uses_remaining := Some (remaining - 1);
               g_grant_type := g_grant_type grant |}]> (sp_grants p)))
      | None => Ok p
      end
  end.

(** The identifier of a grant made by an approval. *)
Definition approval_grant_id (p : StateHashPayload) : list Z :=
  str "grant-" ++ show_dec (saturating_add u64_max (sp_generation p) 1).

Definition auto_rule_applies (p : StateHashPayload) (request : PermissionRequest)
    (rule : AutoApproveRule) : bool :=
  let used := default 0 (sp_auto_use_counters p !! rq_category request) in
  bool_decide (pp_category (ar_matcher rule) = rq_category request) &&
  row_glob_matches (pp_pattern (ar_matcher rule)) (rq_subject request) &&
  match ar_max_uses rule with None => true | Some maximum => used <? maximum end.

Definition count_auto_use (category : PermissionCategory) (p : StateHashPayload)
  : SupervisorResult StateHashPayload :=
  match checked_add u32_max (default 0 (sp_auto_use_counters p !! category)) 1 with
  | None => Err (Corrupt (str "auto-use counter overflow"))
  | Some used => Ok (set_auto_use_counters p (<[category := used]> (sp_auto_use_counters p)))
  end.

Definition matcher_text (matcher : GrantMatcher) : list Z :=
  match matcher with Exact subject => subject | Pattern pattern => pattern end.

(** ** Operations *)

Section Operations.
Context {sha : Sha256Api} {payload_json : Serde StateHashPayload}
        {state_json : Serde PersistedState}.

(** What is hashed for a state. *)
Definition state_input (p : StateHashPayload) : SupervisorResult (list Z) :=
  let? encoded := map_err Corrupt (to_vec p) in Ok (STATE_HASH_DOMAIN ++ encoded).

Definition compute_state_hash (p : StateHashPayload) : SupervisorResult (list Z) :=
  let? input := state_input p in Ok (hex_encode (sha256 input)).

(** [PermissionSupervisor::new] *)
Definition new_supervisor (session_id : list Z) (config : SupervisorConfig)
  : SupervisorResult PersistedState :=
  check? validate_config config in
  let p := {| sp_format := SUPERVISOR_FORMAT; sp_version := SUPERVISOR_VERSION;
              sp_session_id := hex_encode session_id; sp_generation := 0;
              sp_previous_state_hash := ZERO_HASH; sp_config := config; sp_grants := ∅;
              sp_deny_rules := ∅; sp_auto_use_counters := ∅; sp_request_ids := ∅;
              sp_prompts_used := 0; sp_history := [] |} in
  let? hash := compute_state_hash p in
  Ok {| st_payload := p; st_state_hash := hash |}.

Definition checkpoint (s : PersistedState) : SupervisorCheckpoint :=
  {| cp_generation := sp_generation (st_payload s); cp_state_hash := st_state_hash s |}.

(** The result of an operation, the state after it, and the events the sink recorded. *)
Definition outcome (A : Type) : Type := SupervisorResult A * PersistedState * list PermissionEvent.

Definition fail {A : Type} (s : PersistedState) (error : SupervisorError) : outcome A :=
  (Err error, s, []).

(** The event of a change, before its generation and hash are known. *)
Definition draft_event (timestamp : Z) (category : PermissionCategory) (subject action : list Z)
    (allowed : bool) : PermissionEvent :=
  {| pe_timestamp_unix_ms := timestamp; pe_category := category; pe_subject := subject;
     pe_action := action; pe_allowed := allowed; pe_generation := 0; pe_state_hash := [] |}.

Section Sink.
(** The sink's reply to an event. *)
Variable sink : PermissionEvent → result (list Z) unit.

Definition commit (s : PersistedState) (next : StateHashPayload) (draft : HistoryDraft)
    (event : PermissionEvent) : outcome unit :=
  if max_history (limits (sp_config next)) <=? Z.of_nat (length (sp_history next))
  then fail s (InvalidConfig (str "history limit reached"))
  else
    let previous := st_state_hash s in
    match checked_add u64_max (sp_generation (st_payload s)) 1 with
    | None => fail s (Corrupt (str "generation overflow"))
    | Some generation =>
        let next := next_generation next generation previous
          {| he_generation := generation; he_previous_state_hash := previous;
             he_timestamp_unix_ms := hd_timestamp_unix_ms draft; he_kind := hd_kind draft;
             he_request_id := hd_request_id draft; he_category := hd_category draft;
             he_subject := hd_subject draft; he_detail := hd_detail draft |} in
        match compute_state_hash next with
        | Err e => fail s e
        | Ok hash =>
            let next := {| st_payload := next; st_state_hash := hash |} in
            match validate_state next with
            | Err e => fail s e
            | Ok _ =>
                let event := {| pe_timestamp_unix_ms := pe_timestamp_unix_ms event;
                                pe_category := pe_category event; pe_subject := pe_subject event;
                                pe_action := pe_action event; pe_allowed := pe_allowed event;
                                pe_generation := generation; pe_state_hash := hash |} in
                match sink event with
                | Err message => fail s (EventSink message)
                | Ok _ => (Ok tt, next, [event])
                end
            end
        end
    end.

(** A commit followed by a result that is read off the new state. *)
Definition commit_then {A : Type} (k : PersistedState → A) (o : outcome unit) : outcome A :=
  match o with
  | (Ok _, s, events) => (Ok (k s), s, events)
  | (Err e, s, events) => (Err e, s, events)
  end.

Definition record_request_decision (s : PersistedState) (request : PermissionRequest)
    (risk : RiskLevel) (allowed : bool) (reason : list Z) (kind : HistoryKind) (timestamp : Z)
    (mutate : StateHashPayload → SupervisorResult StateHashPayload)
  : outcome PermissionDecision :=
  let p := st_payload s in
  if max_request_ids (limits (sp_config p)) <=? Z.of_nat (size (sp_request_ids p))
  then fail s (InvalidConfig (str "request replay-set limit reached"))
  else
    match mutate p with
    | Err e => fail s e
    | Ok next =>
        commit_then
          (λ s, {| pd_allowed := allowed; pd_reason := reason; pd_risk := risk;
                   pd_generation := sp_generation (st_payload s);
                   pd_state_hash := st_state_hash s |})
          (commit s (insert_request_id next (rq_request_id request))
             {| hd_timestamp_unix_ms := timestamp; hd_kind := kind;
                hd_request_id := Some (rq_request_id request);
                hd_category := Some (rq_category request);
                hd_subject := Some (rq_subject request); hd_detail := reason |}
             (draft_event (rq_timestamp_unix_ms request) (rq_category request)
                (rq_subject request) reason allowed))
    end.

(** A decision with an error after it is recorded. *)
Definition recorded_error {A B : Type} (o : outcome A) (error : SupervisorError) : outcome B :=
  match o with
  | (Ok _, s, events) => (Err error, s, events)
  | (Err e, s, events) => (Err e, s, events)
  end.

Definition ok_prompt (p : StateHashPayload) : SupervisorResult StateHashPayload :=
  Ok (count_prompt p).

Definition approval_grant (id : list Z) (request : PermissionRequest) (matcher : GrantMatcher)
    (timestamp : Z) (expiry uses : option Z) (type : GrantType) : PermissionGrant :=
  {| g_id := id; g_category := rq_category request; g_matcher := matcher;
     g_granted_at_unix_ms := timestamp; g_expires_at_unix_ms := expiry;
     g_uses_remaining := uses; g_grant_type := type |}.

(** [ApproveOnce], also for a session approval that the configuration does not allow *)
Definition apply_once (s : PersistedState) (request : PermissionRequest) (risk : RiskLevel)
    (timestamp : Z) : outcome PermissionDecision :=
  record_request_decision s request risk true (str "approval_once") AllowedApproval timestamp
    (λ p, let p := count_prompt p in
          insert_grant p (approval_grant (approval_grant_id p) request
            (Exact (rq_subject request)) timestamp None (Some 1) GrantOnce)).

Definition apply_approval_decision (s : PersistedState) (request : PermissionRequest)
    (risk : RiskLevel) (decision : ApprovalDecision) (timestamp : Z)
  : outcome PermissionDecision :=
  let p := st_payload s in
  let config := sp_config p in
  match decision with
  | ApproveOnce => apply_once s request risk timestamp
  | ApproveSession expiry max_uses =>
      if negb (allow_session_grants config) then apply_once s request risk timestamp
      else
        match validate_grant_limits max_uses expiry timestamp with
        | Err e => fail s e
        | Ok _ =>
            record_request_decision s request risk true (str "approval_session") AllowedApproval
              timestamp
              (λ next, insert_grant (retain_grants (count_prompt next) timestamp)
                 (approval_grant (approval_grant_id p) request (Exact (rq_subject request))
                    timestamp expiry (current_consumed_uses max_uses) GrantSession))
        end
  | ApprovePattern pattern expiry max_uses =>
      if negb (allow_session_grants config)
      then record_request_decision s request risk false (str "session_grants_disabled")
             DeniedApproval timestamp ok_prompt
      else
        match validate_pattern pattern (limits config) with
        | Err e => fail s e
        | Ok _ =>
            match validate_grant_limits max_uses expiry timestamp with
            | Err e => fail s e
            | Ok _ =>
                if negb (row_glob_matches pattern (rq_subject request))
                then recorded_error
                       (record_request_decision s request risk false
                          (str "approval_pattern_does_not_match_request") DeniedApproval timestamp
                          ok_prompt)
                       (InvalidDecision (str "approved pattern does not match the current request"))
                else
                  record_request_decision s request risk true (str "approval_pattern")
                    AllowedApproval timestamp
                    (λ next, insert_grant (retain_grants (count_prompt next) timestamp)
                       (approval_grant (approval_grant_id p) request (Pattern pattern)
                          timestamp expiry (current_consumed_uses max_uses) GrantPattern))
            end
        end
  | Deny =>
      record_request_decision s request risk false (str "approval_denied") DeniedApproval timestamp
        ok_prompt
  | DenyAlways =>
      if max_deny_rules (limits config) <=? Z.of_nat (size (sp_deny_rules p))
      then fail s (InvalidDecision (str "deny-rule limit reached"))
      else
        record_request_decision s request risk false (str "approval_deny_always") DeniedApproval
          timestamp
          (λ next, let next := count_prompt next in
             Ok (set_deny_rules next
               ({[ {| dr_category := rq_category request; dr_subject := rq_subject request |} ]} ∪
                sp_deny_rules next)))
  end.

(** What surrounds an evaluation: the clock before and after the handler, the cancellation
    token before and after it, and the handler. *)
Record EvaluationEnv : Type := {
  env_now : Z;
  env_after : Z;
  env_cancelled : bool;
  env_cancelled_after : bool;
  env_handler : option (PermissionRequest → ApprovalContext → result (list Z) ApprovalDecision);
}.

(** No prompt has to be made. *)
Definition deny (s : PersistedState) (request : PermissionRequest) (risk : RiskLevel)
    (reason : string) (kind : HistoryKind) (timestamp : Z) : outcome PermissionDecision :=
  record_request_decision s request risk false (str reason) kind timestamp Ok.

Definition deny_prompted (s : PersistedState) (request : PermissionRequest) (risk : RiskLevel)
    (reason : string) (kind : HistoryKind) (timestamp : Z) : outcome PermissionDecision :=
  record_request_decision s request risk false (str reason) kind timestamp ok_prompt.

(** From the prompt on. *)
Definition prompt (s : PersistedState) (request : PermissionRequest) (risk : RiskLevel)
    (env : EvaluationEnv) : outcome PermissionDecision :=
  let config := sp_config (st_payload s) in
  let now := env_now env in
  match env_handler env with
  | None => deny s request risk "no_approval_handler" DeniedNoHandler now
  | Some approve =>
      match (if approval_timeout_ms config =? 0 then Some u64_max
             else checked_add u64_max now (approval_timeout_ms config)) with
      | None => fail s (InvalidConfig (str "approval deadline overflow"))
      | Some deadline =>
          if env_cancelled env
          then deny_prompted s request risk "approval_cancelled" DeniedCancelled now
          else
            match approve request {| ac_risk := risk; ac_deadline_unix_ms := deadline |} with
            | Err message =>
                recorded_error
                  (deny_prompted s request risk "approval_handler_error" HandlerError
                     (env_after env))
                  (ApprovalHandlerFailed message)
            | Ok decision =>
                if env_cancelled_after env
                then deny_prompted s request risk "approval_cancelled" DeniedCancelled
                       (env_after env)
                else if env_after env <=? deadline
                then apply_approval_decision s request risk decision (env_after env)
                else deny_prompted s request risk "approval_timeout" DeniedTimeout (env_after env)
            end
      end
  end.

Definition evaluate_with_cancellation (s : PersistedState) (request : PermissionRequest)
    (env : EvaluationEnv) : outcome PermissionDecision :=
  let p := st_payload s in
  match validate_request request (limits (sp_config p)) with
  | Err e => fail s e
  | Ok _ =>
  if bool_decide (rq_request_id request ∈ sp_request_ids p)
  then fail s (Replay (rq_request_id request))
  else
    let risk := classify_risk (rq_category request) (rq_subject request) in
    let now := env_now env in
    if bool_decide ({| dr_category := rq_category request; dr_subject := rq_subject request |}
                      ∈ sp_deny_rules p)
    then deny s request risk "exact_deny_rule" DeniedRule now
    else
      match find (λ '(_, grant), grant_matches grant request now) (grants_iter (sp_grants p)) with
      | Some (grant_id, _) =>
          record_request_decision s request risk true (str "grant:" ++ grant_id) AllowedGrant now
            (consume_grant grant_id)
      | None =>
          match position (auto_rule_applies p request) (auto_approve (sp_config p)) with
          | Some index =>
              if u32_max <? Z.of_nat index
              then fail s (InvalidConfig (str "too many auto rules"))
              else
                record_request_decision s request risk true
                  (str "auto_rule:" ++ show_dec (Z.of_nat index)) AllowedAuto now
                  (count_auto_use (rq_category request))
          | None =>
              if negb (interactive (sp_config p))
              then deny s request risk "noninteractive" DeniedNoninteractive now
              else if prompt_budget (sp_config p) <=? sp_prompts_used p
              then deny s request risk "prompt_budget_exhausted" DeniedBudget now
              else prompt s request risk env
          end
      end
  end.

Definition add_exact_deny (s : PersistedState) (category : PermissionCategory)
    (subject : list Z) (timestamp : Z) : outcome SupervisorCheckpoint :=
  let p := st_payload s in
  match validate_subject subject (limits (sp_config p)) with
  | Err e => fail s e
  | Ok _ =>
      if max_deny_rules (limits (sp_config p)) <=? Z.of_nat (size (sp_deny_rules p))
      then fail s (InvalidConfig (str "deny-rule limit reached"))
      else
        commit_then checkpoint
          (commit s
             (set_deny_rules p
                ({[ {| dr_category := category; dr_subject := subject |} ]} ∪ sp_deny_rules p))
             {| hd_timestamp_unix_ms := timestamp; hd_kind := DenyAdded; hd_request_id := None;
                hd_category := Some category; hd_subject := Some subject;
                hd_detail := str "manual_exact_deny" |}
             (draft_event timestamp category subject (str "deny_added") false))
  end.

Definition grant (s : PersistedState) (g : PermissionGrant) (timestamp : Z)
  : outcome SupervisorCheckpoint :=
  let p := st_payload s in
  match validate_grant g (limits (sp_config p)) timestamp with
  | Err e => fail s e
  | Ok _ =>
      if starts_with (g_id g) (str "grant-")
      then fail s (InvalidDecision
             (str "manual grant identifiers cannot use the reserved grant- prefix"))
      else if bool_decide (is_Some (sp_grants p !! g_id g))
      then fail s (InvalidDecision (str "grant identifier already exists"))
      else
        match insert_grant p g with
        | Err e => fail s e
        | Ok next =>
            commit_then checkpoint
              (commit s next
                 {| hd_timestamp_unix_ms := timestamp; hd_kind := GrantAdded;
                    hd_request_id := None; hd_category := Some (g_category g);
                    hd_subject := Some (matcher_text (g_matcher g)); hd_detail := g_id g |}
                 (draft_event timestamp (g_category g) (matcher_text (g_matcher g))
                    (str "grant_added") true))
        end
  end.

Definition revoke_exact_deny (s : PersistedState) (category : PermissionCategory)
    (subject : list Z) (timestamp : Z) : outcome SupervisorCheckpoint :=
  let p := st_payload s in
  let rule := {| dr_category := category; dr_subject := subject |} in
  if negb (bool_decide (rule ∈ sp_deny_rules p)) then fail s UnknownDenyRule
  else
    commit_then checkpoint
      (commit s (set_deny_rules p (sp_deny_rules p ∖ {[ rule ]}))
         {| hd_timestamp_unix_ms := timestamp; hd_kind := DenyRevoked; hd_request_id := None;
            hd_category := Some category; hd_subject := Some subject;
            hd_detail := str "manual_exact_deny_revoked" |}
         (draft_event timestamp category subject (str "deny_revoked") false)).

Definition revoke_grant (s : PersistedState) (grant_id : list Z) (timestamp : Z)
  : outcome SupervisorCheckpoint :=
  let p := st_payload s in
  match sp_grants p !! grant_id with
  | None => fail s (UnknownGrant grant_id)
  | Some g =>
      commit_then checkpoint
        (commit s (set_grants p (delete grant_id (sp_grants p)))
           {| hd_timestamp_unix_ms := timestamp; hd_kind := GrantRevoked; hd_request_id := None;
              hd_category := Some (g_category g);
              hd_subject := Some (matcher_text (g_matcher g)); hd_detail := grant_id |}
           (draft_event timestamp (g_category g) (matcher_text (g_matcher g))
              (str "grant_revoked") false))
  end.

Definition revoke_all_grants (s : PersistedState) (timestamp : Z)
  : outcome SupervisorCheckpoint :=
  let p := st_payload s in
  commit_then checkpoint
    (commit s (set_grants p ∅)
       {| hd_timestamp_unix_ms := timestamp; hd_kind := GrantsRevokedAll; hd_request_id := None;
          hd_category := None; hd_subject := None;
          hd_detail := show_dec (Z.of_nat (size (sp_grants p))) |}
       (draft_event timestamp SystemCall (str "all_grants") (str "grants_revoked_all") false)).

End Sink.

(** ** The stored form *)

Definition encode_canonical (s : PersistedState) : SupervisorResult (list Z) :=
  let? bytes := map_err Corrupt (to_vec s) in
  if MAX_PERSISTED_BYTES <? Z.of_nat (length bytes) then Err PersistedTooLarge else Ok bytes.

(** The bytes of the session, from its text. *)
Definition decode_session_id (value : list Z) : SupervisorResult (list Z) :=
  if negb (length value =? 32)%nat
  then Err (Corrupt (str "session ID is not 32-character hexadecimal"))
  else
    match hex_decode value with
    | None => Err (Corrupt (str "invalid digit found in string"))
    | Some bytes =>
        if negb (bool_decide (hex_encode bytes = value))
        then Err (Corrupt (str "session ID is not canonical lowercase hexadecimal"))
        else Ok bytes
    end.

Definition decode_state (bytes : list Z) : SupervisorResult PersistedState :=
  if MAX_PERSISTED_BYTES <? Z.of_nat (length bytes) then Err PersistedTooLarge
  else
    let? s := map_err Corrupt (from_slice bytes) in
    let? canonical := map_err Corrupt (to_vec s) in
    if negb (bool_decide (canonical = bytes))
    then Err (Corrupt (str "input is not canonical JSON"))
    else
      check? validate_state s in
      let? hash := compute_state_hash (st_payload s) in
      if negb (bool_decide (hash = st_state_hash s)) then Err HashMismatch
      else
        check? decode_session_id (sp_session_id (st_payload s)) in
        Ok s.

Definition decode_with_checkpoint (bytes : list Z) (cp : SupervisorCheckpoint)
  : SupervisorResult PersistedState :=
  check? validate_hash (cp_state_hash cp) in
  let? s := decode_state bytes in
  let actual := sp_generation (st_payload s) in
  if actual <? cp_generation cp then Err (CheckpointReplay actual (cp_generation cp))
  else if actual =? cp_generation cp then
    if negb (bool_decide (st_state_hash s = cp_state_hash cp))
    then Err (CheckpointEquivocation actual)
    else Ok s
  else if negb (actual =? saturating_add u64_max (cp_generation cp) 1)
  then Err (CheckpointJump actual (cp_generation cp))
  else if negb (bool_decide (sp_previous_state_hash (st_payload s) = cp_state_hash cp))
  then Err CheckpointLink
  else Ok s.

(** ** Reports *)

Definition active_grants (s : PersistedState) (now : Z) : list PermissionGrant :=
  filter (λ g, negb (expired (g_expires_at_unix_ms g) now) &&
               negb (bool_decide (g_uses_remaining g = Some 0)) = true)
    (snd <$> grants_iter (sp_grants (st_payload s))).

Record PermissionHistoryRecord : Type := {
  hr_request_id : list Z;
  hr_timestamp_unix_ms : Z;
  hr_category : PermissionCategory;
  hr_action : list Z;
  hr_response : list Z;
  hr_automated : bool;
}.

Definition is_automated (kind : HistoryKind) : bool :=
  match kind with
  | AllowedGrant | AllowedAuto | DeniedRule | DeniedNoninteractive | DeniedBudget
  | DeniedNoHandler => true
  | _ => false
  end.

Definition history_record (entry : HistoryEntry) : option PermissionHistoryRecord :=
  id ← he_request_id entry; category ← he_category entry; subject ← he_subject entry;
  Some {| hr_request_id := id; hr_timestamp_unix_ms := he_timestamp_unix_ms entry;
          hr_category := category; hr_action := subject; hr_response := he_detail entry;
          hr_automated := is_automated (he_kind entry) |}.

Definition history (s : PersistedState) : list PermissionHistoryRecord :=
  omap history_record (sp_history (st_payload s)).

Record SupervisorSummary : Type := {
  total_requests : Z;
  approved : Z;
  denied : Z;
  auto_approved : Z;
  active_grant_count : Z;
  category_counts : gmap PermissionCategory Z;
}.

Definition is_allowed_kind (kind : HistoryKind) : bool :=
  match kind with AllowedGrant | AllowedAuto | AllowedApproval => true | _ => false end.

Definition summary (s : PersistedState) (now : Z) : SupervisorSummary :=
  let entries := sp_history (st_payload s) in
  let requests := history s in
  let approved := Z.of_nat (length (filter (λ entry, bool_decide (is_Some (he_request_id entry)) &&
                                              is_allowed_kind (he_kind entry) = true) entries)) in
  {| total_requests := Z.of_nat (length requests);
     approved := approved;
     denied := saturating_sub (Z.of_nat (length requests)) approved;
     auto_approved := Z.of_nat (length (filter (λ entry, he_kind entry = AllowedAuto) entries));
     active_grant_count := Z.of_nat (length (active_grants s now));
     category_counts :=
       foldl (λ counts r, <[hr_category r := default 0 (counts !! hr_category r) + 1]> counts) ∅
         requests |}.

End Operations.
