(* ===== verification/PermissionSample.v ===== *)
(** * A supervisor to compute with

    A writer and reader of the supervisor's state, and a session in which a request is approved
    for some uses, a second one uses the grant, and a third one is denied for good. *)

From S2P Require Import Prelude RustStr Net Glob Digest Permission.

Module PermissionSample.
Export DigestSample.

(** ** Writing states *)

#[global] Instance PermissionCategory_words : Words PermissionCategory.
Proof.
  refine (words_enum [Command; Network; FileWrite; SecretAccess; SystemCall] Command _).
  by intros [].
Defined.

#[global] Instance ExactDenyRule_words : Words ExactDenyRule.
Proof.
  refine (words_via (λ r, (dr_category r, dr_subject r))
    (λ '(c, s), {| dr_category := c; dr_subject := s |}) _).
  by intros [].
Defined.

#[global] Instance GrantMatcher_words : Words GrantMatcher.
Proof.
  refine (words_via (λ m, match m with Exact s => (true, s) | Pattern p => (false, p) end)
    (λ '(b, s), if b : bool then Exact s else Pattern s) _).
  by intros [].
Defined.

#[global] Instance GrantType_eq_dec : EqDecision GrantType.
Proof. solve_decision. Defined.

#[global] Instance GrantType_words : Words GrantType.
Proof. refine (words_enum [GrantOnce; GrantSession; GrantPattern] GrantOnce _). by intros []. Defined.

#[global] Instance HistoryKind_words : Words HistoryKind.
Proof.
  refine (words_enum
    [AllowedGrant; AllowedAuto; AllowedApproval; DeniedRule; DeniedNoninteractive; DeniedBudget;
     DeniedNoHandler; DeniedApproval; DeniedTimeout; DeniedCancelled; HandlerError; GrantAdded;
     GrantRevoked; GrantsRevokedAll; DenyAdded; DenyRevoked] AllowedGrant _).
  by intros [].
Defined.

#[global] Instance PermissionGrant_words : Words PermissionGrant.
Proof.
  refine (words_via
    (λ g, (g_id g, g_category g, g_matcher g, g_granted_at_unix_ms g, g_expires_at_unix_ms g,
           g_uses_remaining g, g_grant_type g))
    (λ '(a, b, c, d, e, f, g),
       {| g_id := a; g_category := b; g_matcher := c; g_granted_at_unix_ms := d;
          g_expires_at_unix_ms := e; g_uses_remaining := f; g_grant_type := g |}) _).
  by intros [].
Defined.

#[global] Instance HistoryEntry_words : Words HistoryEntry.
Proof.
  refine (words_via
    (λ h, (he_generation h, he_previous_state_hash h, he_timestamp_unix_ms h, he_kind h,
           he_request_id h, he_category h, he_subject h, he_detail h))
    (λ '(a, b, c, d, e, f, g, h),
       {| he_generation := a; he_previous_state_hash := b; he_timestamp_unix_ms := c;
          he_kind := d; he_request_id := e; he_category := f; he_subject := g;
          he_detail := h |}) _).
  by intros [].
Defined.

#[global] Instance AutoApproveRule_words : Words AutoApproveRule.
Proof.
  refine (words_via
    (λ r, (pp_category (ar_matcher r), pp_pattern (ar_matcher r), ar_max_uses r))
    (λ '(c, p, m), {| ar_matcher := {| pp_category := c; pp_pattern := p |}; ar_max_uses := m |}) _).
  by intros [[]].
Defined.

#[global] Instance SupervisorLimits_words : Words SupervisorLimits.
Proof.
  refine (words_via
    (λ l, (max_grants l, max_deny_rules l, max_history l, max_request_ids l, max_pattern_bytes l,
           max_subject_bytes l))
    (λ '(a, b, c, d, e, f),
       {| max_grants := a; max_deny_rules := b; max_history := c; max_request_ids := d;
          max_pattern_bytes := e; max_subject_bytes := f |}) _).
  by intros [].
Defined.

#[global] Instance SupervisorConfig_words : Words SupervisorConfig.
Proof.
  refine (words_via
    (λ c, (interactive c, auto_approve c, prompt_budget c, allow_session_grants c,
           approval_timeout_ms c, limits c))
    (λ '(a, b, c, d, e, f),
       {| interactive := a; auto_approve := b; prompt_budget := c; allow_session_grants := d;
          approval_timeout_ms := e; limits := f |}) _).
  by intros [].
Defined.

#[global] Instance StateHashPayload_words : Words StateHashPayload.
Proof.
  refine (words_via
    (λ p, (sp_format p, sp_version p, sp_session_id p, sp_generation p, sp_previous_state_hash p,
           sp_config p, sp_grants p, sp_deny_rules p, sp_auto_use_counters p, sp_request_ids p,
           sp_prompts_used p, sp_history p))
    (λ '(a, b, c, d, e, f, g, h, i, j, k, l),
       {| sp_format := a; sp_version := b; sp_session_id := c; sp_generation := d;
          sp_previous_state_hash := e; sp_config := f; sp_grants := g; sp_deny_rules := h;
          sp_auto_use_counters := i; sp_request_ids := j; sp_prompts_used := k;
          sp_history := l |}) _).
  by intros [].
Defined.

#[global] Instance PersistedState_words : Words PersistedState.
Proof.
  refine (words_via (λ s, (st_payload s, st_state_hash s))
    (λ '(p, h), {| st_payload := p; st_state_hash := h |}) _).
  by intros [].
Defined.

#[global] Instance payload_serde : Serde StateHashPayload := words_serde StateHashPayload.
#[global] Instance state_serde : Serde PersistedState := words_serde PersistedState.
#[global] Instance payload_serde_laws : SerdeLaws StateHashPayload :=
  words_serde_laws StateHashPayload.
#[global] Instance state_serde_laws : SerdeLaws PersistedState := words_serde_laws PersistedState.

(** ** A session *)

Definition session : list Z := be_bytes 16 77.

Definition accepting : PermissionEvent → result (list Z) unit := λ _, Ok tt.

Definition request (id subject : string) : PermissionRequest :=
  {| rq_request_id := str id; rq_category := Command; rq_subject := str subject;
     rq_context := str "build"; rq_timestamp_unix_ms := 1000 |}.

Definition asking (decision : ApprovalDecision) (now : Z) : EvaluationEnv :=
  {| env_now := now; env_after := now + 5; env_cancelled := false; env_cancelled_after := false;
     env_handler := Some (λ _ _, Ok decision) |}.

Definition evaluate (s : PersistedState) (id subject : string) (env : EvaluationEnv)
  : PersistedState :=
  (evaluate_with_cancellation accepting s (request id subject) env).1.2.

Definition started : PersistedState :=
  match new_supervisor session SupervisorConfig_default with
  | Ok s => s
  | Err _ =>
      {| st_payload := {| sp_format := []; sp_version := 0; sp_session_id := [];
           sp_generation := 0; sp_previous_state_hash := []; sp_config := SupervisorConfig_default;
           sp_grants := ∅; sp_deny_rules := ∅; sp_auto_use_counters := ∅; sp_request_ids := ∅;
           sp_prompts_used := 0; sp_history := [] |}; st_state_hash := [] |}
  end.

Definition granting : EvaluationEnv := asking (ApproveSession None (Some 3)) 1000.

Definition granted : PersistedState := evaluate started "r1" "cargo test" granting.

Lemma started_new : new_supervisor session SupervisorConfig_default = Ok started.
Proof. by vm_compute. Qed.

Lemma granted_grant :
  g_uses_remaining <$> sp_grants (st_payload granted) !! str "grant-1" = Some (Some 2).
Proof. by vm_compute. Qed.

Lemma session_wf : length session = 16%nat ∧ Forall is_byte session.
Proof. split; [done|apply be_bytes_is_byte]. Qed.

End PermissionSample.
