(* ===== verification/PermissionSafety.v ===== *)
(** * What the permission supervisor guarantees

    [decided] is the contract of an evaluation: the branch that decides, its outcome and the
    change of the state.  The operations of [Permission] implement it.  From it follow what an
    allowed request rests on, that every change is recorded and a failed operation changes
    nothing, that a request is decided once, that grants and prompts stay within their limits,
    and that the stored form is read back and cannot be rolled back. *)

From S2P Require Import Prelude RustStr Net Glob Digest Permission PermissionSample.

Section Supervisor.
Context {sha : Sha256Api} {sha_laws : Sha256Laws sha}
        {payload_json : Serde StateHashPayload} {payload_laws : SerdeLaws StateHashPayload}
        {state_json : Serde PersistedState} {state_laws : SerdeLaws PersistedState}.

Section Sink.
Variable sink : PermissionEvent → result (list Z) unit.

(** ** Commits *)

Definition entry_of (s : PersistedState) (draft : HistoryDraft) : HistoryEntry :=
  {| he_generation := sp_generation (st_payload s) + 1;
     he_previous_state_hash := st_state_hash s;
     he_timestamp_unix_ms := hd_timestamp_unix_ms draft; he_kind := hd_kind draft;
     he_request_id := hd_request_id draft; he_category := hd_category draft;
     he_subject := hd_subject draft; he_detail := hd_detail draft |}.

(** The state and the event that a commit makes. *)
Record committed (s : PersistedState) (next : StateHashPayload) (draft : HistoryDraft)
    (event : PermissionEvent) (s' : PersistedState) (ev : PermissionEvent) : Prop := {
  com_payload : st_payload s' =
    next_generation next (sp_generation (st_payload s) + 1) (st_state_hash s) (entry_of s draft);
  com_generation : sp_generation (st_payload s) + 1 ≤ u64_max;
  com_hash : compute_state_hash (st_payload s') = Ok (st_state_hash s');
  com_valid : validate_state s' = Ok tt;
  com_event : ev =
    {| pe_timestamp_unix_ms := pe_timestamp_unix_ms event; pe_category := pe_category event;
       pe_subject := pe_subject event; pe_action := pe_action event;
       pe_allowed := pe_allowed event; pe_generation := sp_generation (st_payload s');
       pe_state_hash := st_state_hash s' |};
  com_sink : sink ev = Ok tt;
}.

Lemma commit_cases (s : PersistedState) (next : StateHashPayload) (draft : HistoryDraft)
    (event : PermissionEvent) :
  (∃ e, commit sink s next draft event = (Err e, s, [])) ∨
  (∃ s' ev, commit sink s next draft event = (Ok tt, s', [ev]) ∧
     committed s next draft event s' ev).
Proof.
  unfold commit, fail. destruct (_ <=? _); [by left; eexists|].
  unfold checked_add. destruct (_ <=? u64_max) eqn:Eg; [|by left; eexists]. bool_to_prop.
  cbv zeta. destruct (compute_state_hash _) as [hash|] eqn:Eh; [|by left; eexists].
  destruct (validate_state _) as [[]|] eqn:Ev; [|by left; eexists].
  destruct (sink _) as [[]|] eqn:Es; [|by left; eexists].
  right. do 2 eexists. split; [done|]. by constructor.
Qed.

(** ** Evaluation *)

Definition deny_rule_of (request : PermissionRequest) : ExactDenyRule :=
  {| dr_category := rq_category request; dr_subject := rq_subject request |}.

(** The handler is asked, and answers in time. *)
Definition answered (s : PersistedState) (request : PermissionRequest) (env : EvaluationEnv)
    (decision : ApprovalDecision) : Prop :=
  ∃ approve deadline,
    env_handler env = Some approve ∧
    env_cancelled env = false ∧ env_cancelled_after env = false ∧ env_after env ≤ deadline ∧
    (approval_timeout_ms (sp_config (st_payload s)) ≠ 0 →
     deadline = env_now env + approval_timeout_ms (sp_config (st_payload s))) ∧
    approve request
      {| ac_risk := classify_risk (rq_category request) (rq_subject request);
         ac_deadline_unix_ms := deadline |} = Ok decision.

(** The grant that an approval makes, the grants that are kept, and the reason. *)
Inductive approval (s : PersistedState) (request : PermissionRequest) (now : Z)
  : ApprovalDecision → list Z → StateHashPayload → PermissionGrant → Prop :=
| approval_once decision :
    decision = ApproveOnce ∨
    (∃ expiry uses, decision = ApproveSession expiry uses ∧
       allow_session_grants (sp_config (st_payload s)) = false) →
    approval s request now decision (str "approval_once") (count_prompt (st_payload s))
      (approval_grant (approval_grant_id (st_payload s)) request (Exact (rq_subject request)) now
         None (Some 1) GrantOnce)
| approval_session expiry uses :
    allow_session_grants (sp_config (st_payload s)) = true →
    validate_grant_limits uses expiry now = Ok tt →
    approval s request now (ApproveSession expiry uses) (str "approval_session")
      (retain_grants (count_prompt (st_payload s)) now)
      (approval_grant (approval_grant_id (st_payload s)) request (Exact (rq_subject request)) now
         expiry (current_consumed_uses uses) GrantSession)
| approval_pattern pattern expiry uses :
    allow_session_grants (sp_config (st_payload s)) = true →
    validate_grant_limits uses expiry now = Ok tt →
    row_glob_matches pattern (rq_subject request) = true →
    approval s request now (ApprovePattern pattern expiry uses) (str "approval_pattern")
      (retain_grants (count_prompt (st_payload s)) now)
      (approval_grant (approval_grant_id (st_payload s)) request (Pattern pattern) now
         expiry (current_consumed_uses uses) GrantPattern).

(** No deny rule and no grant decides. *)
Definition ungranted (s : PersistedState) (request : PermissionRequest) (env : EvaluationEnv)
  : Prop :=
  deny_rule_of request ∉ sp_deny_rules (st_payload s) ∧
  ∀ id g, sp_grants (st_payload s) !! id = Some g → grant_matches g request (env_now env) = false.

(** No automatic rule decides either. *)
Definition unmatched (s : PersistedState) (request : PermissionRequest) (env : EvaluationEnv)
  : Prop :=
  ungranted s request env ∧
  ∀ rule, rule ∈ auto_approve (sp_config (st_payload s)) →
    auto_rule_applies (st_payload s) request rule = false.

(** A prompt may be made. *)
Definition prompted (s : PersistedState) (request : PermissionRequest) (env : EvaluationEnv)
  : Prop :=
  unmatched s request env ∧ interactive (sp_config (st_payload s)) = true ∧
  sp_prompts_used (st_payload s) < prompt_budget (sp_config (st_payload s)).

(** Why no prompt is made. *)
Definition unasked (s : PersistedState) (env : EvaluationEnv) (kind : HistoryKind) : Prop :=
  (kind = DeniedNoninteractive ∧ interactive (sp_config (st_payload s)) = false) ∨
  (kind = DeniedBudget ∧ prompt_budget (sp_config (st_payload s)) ≤ sp_prompts_used (st_payload s)) ∨
  (kind = DeniedNoHandler ∧ env_handler env = None).

(** Why a prompt does not lead to an approval. *)
Definition refusal (s : PersistedState) (request : PermissionRequest) (env : EvaluationEnv)
    (kind : HistoryKind) : Prop :=
  (kind = DeniedCancelled ∧ (env_cancelled env = true ∨ env_cancelled_after env = true)) ∨
  (kind = DeniedTimeout ∧ approval_timeout_ms (sp_config (st_payload s)) ≠ 0 ∧
     env_now env + approval_timeout_ms (sp_config (st_payload s)) < env_after env ∨
   kind = DeniedTimeout ∧ u64_max < env_after env) ∨
  (kind = HandlerError ∧ ∃ approve context message,
     env_handler env = Some approve ∧ approve request context = Err message) ∨
  (kind = DeniedApproval ∧ ∃ decision, answered s request env decision ∧
     (decision = Deny ∨ ∃ pattern expiry uses, decision = ApprovePattern pattern expiry uses ∧
        (allow_session_grants (sp_config (st_payload s)) = false ∨
         row_glob_matches pattern (rq_subject request) = false))).

(** The contract: whether the request is allowed, the reason, the kind and the time of the
    entry, and the state without the request and the entry. *)
Inductive decided (s : PersistedState) (request : PermissionRequest) (env : EvaluationEnv)
  : bool → list Z → HistoryKind → Z → StateHashPayload → Prop :=
| decided_rule :
    deny_rule_of request ∈ sp_deny_rules (st_payload s) →
    decided s request env false (str "exact_deny_rule") DeniedRule (env_now env) (st_payload s)
| decided_grant id g next :
    deny_rule_of request ∉ sp_deny_rules (st_payload s) →
    sp_grants (st_payload s) !! id = Some g → grant_matches g request (env_now env) = true →
    consume_grant id (st_payload s) = Ok next →
    decided s request env true (str "grant:" ++ id) AllowedGrant (env_now env) next
| decided_auto index rule next :
    ungranted s request env → auto_approve (sp_config (st_payload s)) !! index = Some rule →
    auto_rule_applies (st_payload s) request rule = true →
    count_auto_use (rq_category request) (st_payload s) = Ok next →
    decided s request env true (str "auto_rule:" ++ show_dec (Z.of_nat index)) AllowedAuto
      (env_now env) next
| decided_unasked reason kind :
    unmatched s request env → unasked s env kind →
    decided s request env false reason kind (env_now env) (st_payload s)
| decided_refused reason kind now :
    prompted s request env → refusal s request env kind →
    now = env_now env ∨ now = env_after env →
    decided s request env false reason kind now (count_prompt (st_payload s))
| decided_always :
    prompted s request env → answered s request env DenyAlways →
    decided s request env false (str "approval_deny_always") DeniedApproval (env_after env)
      (set_deny_rules (count_prompt (st_payload s))
         ({[ deny_rule_of request ]} ∪ sp_deny_rules (st_payload s)))
| decided_approved decision reason base g next :
    prompted s request env → answered s request env decision →
    approval s request (env_after env) decision reason base g → insert_grant base g = Ok next →
    decided s request env true reason AllowedApproval (env_after env) next.

(** A decision of the contract that is committed. *)
Definition recorded (s : PersistedState) (request : PermissionRequest) (allowed : bool)
    (reason : list Z) (kind : HistoryKind) (now : Z) (next : StateHashPayload)
    (s' : PersistedState) (ev : PermissionEvent) : Prop :=
  committed s (insert_request_id next (rq_request_id request))
    {| hd_timestamp_unix_ms := now; hd_kind := kind;
       hd_request_id := Some (rq_request_id request);
       hd_category := Some (rq_category request); hd_subject := Some (rq_subject request);
       hd_detail := reason |}
    (draft_event (rq_timestamp_unix_ms request) (rq_category request) (rq_subject request)
       reason allowed) s' ev.

(** The outcome of one decision: an error that changes nothing, or the decision, recorded. *)
Definition decision_outcome (s : PersistedState) (request : PermissionRequest)
    (env : EvaluationEnv) (o : outcome PermissionDecision) : Prop :=
  match o with
  | (r, s', events) =>
      (s' = s ∧ events = [] ∧ ∃ e, r = Err e) ∨
      ∃ allowed reason kind now next ev,
        decided s request env allowed reason kind now next ∧
        recorded s request allowed reason kind now next s' ev ∧ events = [ev] ∧
        match r with
        | Ok d => d = {| pd_allowed := allowed; pd_reason := reason;
                         pd_risk := classify_risk (rq_category request) (rq_subject request);
                         pd_generation := sp_generation (st_payload s');
                         pd_state_hash := st_state_hash s' |}
        | Err _ => allowed = false
        end
  end.

Lemma record_outcome (s : PersistedState) (request : PermissionRequest) (env : EvaluationEnv)
    (allowed : bool) (reason : list Z) (kind : HistoryKind) (now : Z)
    (mutate : StateHashPayload → SupervisorResult StateHashPayload) :
  (∀ next, mutate (st_payload s) = Ok next →
     decided s request env allowed reason kind now next) →
  decision_outcome s request env
    (record_request_decision sink s request (classify_risk (rq_category request) (rq_subject request))
       allowed reason kind now mutate).
Proof.
  intros Hd. unfold record_request_decision, fail. cbv zeta.
  destruct (_ <=? _); [left; eauto|]. destruct (mutate (st_payload s)) as [next|e] eqn:Em;
    [|left; eauto]. specialize (Hd next eq_refl).
  destruct (commit_cases s (insert_request_id next (rq_request_id request))
    {| hd_timestamp_unix_ms := now; hd_kind := kind;
       hd_request_id := Some (rq_request_id request); hd_category := Some (rq_category request);
       hd_subject := Some (rq_subject request); hd_detail := reason |}
    (draft_event (rq_timestamp_unix_ms request) (rq_category request) (rq_subject request)
       reason allowed)) as [[e ->]|(s' & ev & -> & Hc)]; cbn [commit_then]; [left; eauto|].
  right. by exists allowed, reason, kind, now, next, ev.
Qed.

Lemma record_allowed (s s' : PersistedState) (request : PermissionRequest) (risk : RiskLevel)
    (allowed : bool) (reason : list Z) (kind : HistoryKind) (now : Z)
    (mutate : StateHashPayload → SupervisorResult StateHashPayload) (d : PermissionDecision)
    (events : list PermissionEvent) :
  record_request_decision sink s request risk allowed reason kind now mutate = (Ok d, s', events) →
  pd_allowed d = allowed.
Proof.
  unfold record_request_decision, fail. cbv zeta. destruct (_ <=? _); [done|].
  destruct (mutate _); [|done]. destruct (commit _ _ _ _ _) as [[[]]]; cbn; [|done].
  by intros [= <- _ _].
Qed.

(** A denial that is recorded and then reported as an error. *)
Lemma recorded_error_outcome (s : PersistedState) (request : PermissionRequest)
    (env : EvaluationEnv) (o : outcome PermissionDecision) (error : SupervisorError) :
  decision_outcome s request env o →
  (∀ d s' events, o = (Ok d, s', events) → pd_allowed d = false) →
  decision_outcome s request env (recorded_error o error).
Proof.
  destruct o as [[[d|e] s'] events]; cbn; [|done]. intros [(-> & -> & e & [=])|H] Hd.
  right. destruct H as (allowed & reason & kind & now & next & ev & Hdec & Hrec & -> & Hd').
  exists allowed, reason, kind, now, next, ev. split_and!; [done..|].
  specialize (Hd _ _ _ eq_refl). by rewrite Hd' in Hd.
Qed.

Lemma prompt_denied_outcome (s : PersistedState) (request : PermissionRequest)
    (env : EvaluationEnv) (reason : list Z) (kind : HistoryKind) (now : Z) :
  prompted s request env → refusal s request env kind → now = env_now env ∨ now = env_after env →
  decision_outcome s request env
    (record_request_decision sink s request
       (classify_risk (rq_category request) (rq_subject request)) false reason kind now ok_prompt).
Proof. intros Hp Hr Hn. apply record_outcome. intros next [= <-]. by constructor. Qed.

Lemma apply_outcome (s : PersistedState) (request : PermissionRequest) (env : EvaluationEnv)
    (decision : ApprovalDecision) :
  prompted s request env → answered s request env decision →
  decision_outcome s request env
    (apply_approval_decision sink s request
       (classify_risk (rq_category request) (rq_subject request)) decision (env_after env)).
Proof.
  intros Hp Ha. unfold apply_approval_decision, fail. cbv zeta.
  assert (∀ d, d = ApproveOnce ∨ (∃ expiry uses, d = ApproveSession expiry uses ∧
            allow_session_grants (sp_config (st_payload s)) = false) →
          answered s request env d →
          decision_outcome s request env (apply_once sink s request
            (classify_risk (rq_category request) (rq_subject request)) (env_after env))) as Honce.
  { intros d Hd Had. apply record_outcome. intros next Hi.
    eapply decided_approved; [done..|by apply approval_once|exact Hi]. }
  destruct decision as [|expiry uses|pattern expiry uses| |].
  - apply (Honce ApproveOnce); auto.
  - destruct (allow_session_grants _) eqn:Eallow; cbn [negb]; [|eapply Honce; eauto 10].
    destruct (validate_grant_limits uses expiry (env_after env)) as [[]|] eqn:El; [|left; eauto].
    apply record_outcome. intros next Hi.
    eapply decided_approved; [done..|by apply approval_session|exact Hi].
  - destruct (allow_session_grants _) eqn:Eallow; cbn [negb].
    2: { apply prompt_denied_outcome; [done| |auto]. do 3 right. eauto 10. }
    destruct (validate_pattern _ _) as [[]|]; [|left; eauto].
    destruct (validate_grant_limits uses expiry (env_after env)) as [[]|] eqn:El; [|left; eauto].
    destruct (row_glob_matches _ _) eqn:Eg; cbn [negb].
    + apply record_outcome. intros next Hi.
      eapply decided_approved; [done..|by apply approval_pattern|exact Hi].
    + apply recorded_error_outcome; [|by intros; eapply record_allowed].
      apply prompt_denied_outcome; [done| |auto]. do 3 right. eauto 10.
  - apply prompt_denied_outcome; [done| |auto]. do 3 right. eauto 10.
  - destruct (_ <=? _); [left; eauto|]. apply record_outcome. intros next [= <-].
    by apply decided_always.
Qed.

Lemma prompt_outcome (s : PersistedState) (request : PermissionRequest) (env : EvaluationEnv) :
  prompted s request env →
  decision_outcome s request env
    (prompt sink s request (classify_risk (rq_category request) (rq_subject request)) env).
Proof.
  intros Hp. unfold prompt, fail, deny, deny_prompted. cbv zeta.
  destruct (env_handler env) as [approve|] eqn:Eh.
  2: { apply record_outcome. intros next [= <-]. apply decided_unasked; [apply Hp|].
       do 2 right. done. }
  set (timeout := approval_timeout_ms _).
  destruct (if timeout =? 0 then _ else _) as [deadline|] eqn:Ed; [|left; eauto].
  assert (timeout ≠ 0 → deadline = env_now env + timeout) as Hdl.
  { intros Ht. rewrite (proj2 (Z.eqb_neq _ _) Ht) in Ed. unfold checked_add in Ed.
    destruct (_ <=? _); congruence. }
  destruct (env_cancelled env) eqn:Ec.
  { apply prompt_denied_outcome; [done| |auto]. left. auto. }
  destruct (approve _ _) as [decision|message] eqn:Ea.
  - destruct (env_cancelled_after env) eqn:Eca.
    { apply prompt_denied_outcome; [done| |auto]. left. auto. }
    destruct (Z.leb_spec (env_after env) deadline).
    + apply apply_outcome; [done|]. exists approve, deadline. auto 10.
    + apply prompt_denied_outcome; [done| |auto]. right; left.
      destruct (Z.eq_dec timeout 0) as [Ht|Ht].
      * right. rewrite Ht in Ed. injection Ed as <-. done.
      * left. rewrite (Hdl Ht) in *. auto.
  - apply recorded_error_outcome; [|by intros; eapply record_allowed].
    apply prompt_denied_outcome; [done| |auto]. do 2 right; left. eauto 10.
Qed.

Lemma grants_iter_elem (grants : gmap (list Z) PermissionGrant) (id : list Z)
    (g : PermissionGrant) :
  (id, g) ∈ grants_iter grants ↔ grants !! id = Some g.
Proof. unfold grants_iter. by rewrite elem_of_sort_by, elem_of_map_to_list. Qed.

(** An evaluation is an error that changes nothing, or one decision of the contract, on a valid
    request with a new identifier. *)
Lemma evaluate_outcome (s : PersistedState) (request : PermissionRequest) (env : EvaluationEnv) :
  let o := evaluate_with_cancellation sink s request env in
  decision_outcome s request env o ∧
  (o.2 ≠ [] → validate_request request (limits (sp_config (st_payload s))) = Ok tt ∧
              rq_request_id request ∉ sp_request_ids (st_payload s)).
Proof.
  unfold evaluate_with_cancellation, fail, deny. cbv zeta.
  destruct (validate_request request (limits (sp_config (st_payload s)))) as [[]|] eqn:Ev;
    [|split; [left; eauto|done]].
  case_bool_decide as Hid; [split; [left; eauto|done]|]. split; [|done].
  case_bool_decide as Hrule.
  { apply record_outcome. intros next [= <-]. by apply decided_rule. }
  destruct (find _ (grants_iter (sp_grants (st_payload s)))) as [[id g]|] eqn:Ef.
  { apply find_some in Ef as [Hin Hm]. apply list_elem_of_In, grants_iter_elem in Hin.
    apply record_outcome. intros next Hc. by eapply decided_grant. }
  assert (ungranted s request env) as Hun.
  { split; [done|]. intros id g Hg. apply grants_iter_elem, list_elem_of_In in Hg.
    by apply (find_none _ _ Ef (id, g)) in Hg. }
  pose proof (position_lookup (auto_rule_applies (st_payload s) request)
    (auto_approve (sp_config (st_payload s)))) as Hpos.
  destruct (position _ _) as [index|].
  { destruct Hpos as (rule & Hr & Ha). destruct (_ <? _); [left; eauto|].
    apply record_outcome. intros next Hc. by eapply decided_auto. }
  destruct (interactive _) eqn:Ei; cbn [negb].
  2: { apply record_outcome. intros next [= <-]. apply decided_unasked; [done|]. left. auto. }
  destruct (Z.leb_spec (prompt_budget (sp_config (st_payload s))) (sp_prompts_used (st_payload s))).
  { apply record_outcome. intros next [= <-]. apply decided_unasked; [done|]. right; left. auto. }
  by apply prompt_outcome.
Qed.

(** ** Every operation *)

Inductive operation : Type :=
| OpEvaluate (request : PermissionRequest) (env : EvaluationEnv)
| OpAddExactDeny (category : PermissionCategory) (subject : list Z) (timestamp : Z)
| OpGrant (g : PermissionGrant) (timestamp : Z)
| OpRevokeExactDeny (category : PermissionCategory) (subject : list Z) (timestamp : Z)
| OpRevokeGrant (grant_id : list Z) (timestamp : Z)
| OpRevokeAllGrants (timestamp : Z).

(** The decision is there when the operation is an evaluation. *)
Definition perform (op : operation) (s : PersistedState) : outcome (option PermissionDecision) :=
  let managed (o : outcome SupervisorCheckpoint) : outcome (option PermissionDecision) :=
    match o with
    | (Ok _, s, events) => (Ok None, s, events)
    | (Err e, s, events) => (Err e, s, events)
    end in
  match op with
  | OpEvaluate request env =>
      match evaluate_with_cancellation sink s request env with
      | (Ok d, s, events) => (Ok (Some d), s, events)
      | (Err e, s, events) => (Err e, s, events)
      end
  | OpAddExactDeny category subject timestamp =>
      managed (add_exact_deny sink s category subject timestamp)
  | OpGrant g timestamp => managed (grant sink s g timestamp)
  | OpRevokeExactDeny category subject timestamp =>
      managed (revoke_exact_deny sink s category subject timestamp)
  | OpRevokeGrant grant_id timestamp => managed (revoke_grant sink s grant_id timestamp)
  | OpRevokeAllGrants timestamp => managed (revoke_all_grants sink s timestamp)
  end.

(** The contract of all operations: the state without the entry, the entry, whether something
    was allowed. *)
Inductive changed (s : PersistedState)
  : operation → StateHashPayload → HistoryDraft → bool → Prop :=
| changed_request request env allowed reason kind now next :
    validate_request request (limits (sp_config (st_payload s))) = Ok tt →
    rq_request_id request ∉ sp_request_ids (st_payload s) →
    decided s request env allowed reason kind now next →
    changed s (OpEvaluate request env) (insert_request_id next (rq_request_id request))
      {| hd_timestamp_unix_ms := now; hd_kind := kind;
         hd_request_id := Some (rq_request_id request);
         hd_category := Some (rq_category request); hd_subject := Some (rq_subject request);
         hd_detail := reason |} allowed
| changed_deny category subject timestamp :
    changed s (OpAddExactDeny category subject timestamp)
      (set_deny_rules (st_payload s)
         ({[ {| dr_category := category; dr_subject := subject |} ]} ∪
          sp_deny_rules (st_payload s)))
      {| hd_timestamp_unix_ms := timestamp; hd_kind := DenyAdded; hd_request_id := None;
         hd_category := Some category; hd_subject := Some subject;
         hd_detail := str "manual_exact_deny" |} false
| changed_grant g timestamp next :
    starts_with (g_id g) (str "grant-") = false → insert_grant (st_payload s) g = Ok next →
    validate_grant g (limits (sp_config (st_payload s))) timestamp = Ok tt →
    changed s (OpGrant g timestamp) next
      {| hd_timestamp_unix_ms := timestamp; hd_kind := GrantAdded; hd_request_id := None;
         hd_category := Some (g_category g); hd_subject := Some (matcher_text (g_matcher g));
         hd_detail := g_id g |} true
| changed_undeny category subject timestamp :
    changed s (OpRevokeExactDeny category subject timestamp)
      (set_deny_rules (st_payload s)
         (sp_deny_rules (st_payload s) ∖ {[ {| dr_category := category; dr_subject := subject |} ]}))
      {| hd_timestamp_unix_ms := timestamp; hd_kind := DenyRevoked; hd_request_id := None;
         hd_category := Some category; hd_subject := Some subject;
         hd_detail := str "manual_exact_deny_revoked" |} false
| changed_revoke grant_id g timestamp :
    sp_grants (st_payload s) !! grant_id = Some g →
    changed s (OpRevokeGrant grant_id timestamp)
      (set_grants (st_payload s) (delete grant_id (sp_grants (st_payload s))))
      {| hd_timestamp_unix_ms := timestamp; hd_kind := GrantRevoked; hd_request_id := None;
         hd_category := Some (g_category g); hd_subject := Some (matcher_text (g_matcher g));
         hd_detail := grant_id |} false
| changed_revoke_all timestamp :
    changed s (OpRevokeAllGrants timestamp) (set_grants (st_payload s) ∅)
      {| hd_timestamp_unix_ms := timestamp; hd_kind := GrantsRevokedAll; hd_request_id := None;
         hd_category := None; hd_subject := None;
         hd_detail := show_dec (Z.of_nat (size (sp_grants (st_payload s)))) |} false.

(** What an operation does: nothing, with an error; or one committed change. *)
Definition op_outcome (s : PersistedState) (op : operation)
    (o : outcome (option PermissionDecision)) : Prop :=
  match o with
  | (r, s', events) =>
      (s' = s ∧ events = [] ∧ ∃ e, r = Err e) ∨
      ∃ next draft event allowed ev,
        changed s op next draft allowed ∧ committed s next draft event s' ev ∧ events = [ev] ∧
        pe_allowed ev = allowed ∧
        match r with Ok (Some d) => pd_allowed d = allowed | Ok None => True | Err _ => allowed = false end
  end.

Lemma managed_outcome (s : PersistedState) (op : operation) (next : StateHashPayload)
    (draft : HistoryDraft) (event : PermissionEvent) :
  changed s op next draft (pe_allowed event) →
  op_outcome s op
    match commit_then checkpoint (commit sink s next draft event) with
    | (Ok _, s, events) => (Ok None, s, events)
    | (Err e, s, events) => (Err e, s, events)
    end.
Proof.
  intros Hch. destruct (commit_cases s next draft event) as [[e ->]|(s' & ev & -> & Hc)]; cbn.
  - left. eauto.
  - right. exists next, draft, event, (pe_allowed event), ev. split_and!; try done.
    by destruct Hc as [_ _ _ _ -> _].
Qed.

Lemma perform_outcome (op : operation) (s : PersistedState) : op_outcome s op (perform op s).
Proof.
  destruct op as [request env|category subject ts|g ts|category subject ts|id ts|ts];
    cbn [perform].
  - pose proof (evaluate_outcome s request env) as [Ho Hv]. cbv zeta in *.
    destruct (evaluate_with_cancellation _ _ _ _) as [[r s'] events]. cbn in Ho, Hv.
    destruct Ho as [(-> & -> & e & ->)|H]; [left; eauto|].
    destruct H as (allowed & reason & kind & now & next & ev & Hd & Hr & -> & Hres).
    destruct Hv as [Hval Hid]; [done|]. unfold recorded in Hr.
    assert (pe_allowed ev = allowed) as Hev by (by destruct Hr as [_ _ _ _ -> _]).
    destruct r as [d|e]; right; do 5 eexists;
      (split; [by apply changed_request|]); (split; [exact Hr|]); split_and!; try done.
    by rewrite Hres.
  - unfold add_exact_deny, fail. cbv zeta. destruct (validate_subject _ _); [|left; eauto].
    destruct (_ <=? _); [left; eauto|]. apply managed_outcome. constructor.
  - unfold grant, fail. cbv zeta. destruct (validate_grant _ _ _) as [[]|] eqn:Ev; [|left; eauto].
    destruct (starts_with _ _) eqn:Ep; [left; eauto|]. destruct (bool_decide _); [left; eauto|].
    destruct (insert_grant _ _) as [next|] eqn:Ei; [|left; eauto].
    apply managed_outcome. by constructor.
  - unfold revoke_exact_deny, fail. cbv zeta. destruct (negb _); [left; eauto|].
    apply managed_outcome. constructor.
  - unfold revoke_grant, fail. cbv zeta. destruct (sp_grants _ !! id) eqn:Eg; [|left; eauto].
    apply managed_outcome. by constructor.
  - unfold revoke_all_grants. apply managed_outcome. constructor.
Qed.

(** C3: An allowed request is valid and new, has no deny rule, and rests on a live grant that
    matches it, on an automatic rule below its limit, or on an approval of the handler that
    was given in time, not cancelled and within the budget of prompts. *)
Theorem allowed_is_justified (s s' : PersistedState) (request : PermissionRequest)
    (env : EvaluationEnv) (d : PermissionDecision) (events : list PermissionEvent) :
  evaluate_with_cancellation sink s request env = (Ok d, s', events) → pd_allowed d = true →
  let p := st_payload s in
  validate_request request (limits (sp_config p)) = Ok tt ∧
  rq_request_id request ∉ sp_request_ids p ∧
  {| dr_category := rq_category request; dr_subject := rq_subject request |} ∉ sp_deny_rules p ∧
  ((∃ id g, sp_grants p !! id = Some g ∧ g_category g = rq_category request ∧
      g_uses_remaining g ≠ Some 0 ∧
      (∀ expiry, g_expires_at_unix_ms g = Some expiry → env_now env < expiry) ∧
      match g_matcher g with
      | Exact subject => subject = rq_subject request
      | Pattern pattern => matches (glob_atoms (chars pattern)) (chars (rq_subject request))
      end) ∨
   (∃ rule, rule ∈ auto_approve (sp_config p) ∧
      pp_category (ar_matcher rule) = rq_category request ∧
      matches (glob_atoms (chars (pp_pattern (ar_matcher rule)))) (chars (rq_subject request)) ∧
      ∀ maximum, ar_max_uses rule = Some maximum →
        default 0 (sp_auto_use_counters p !! rq_category request) < maximum) ∨
   (interactive (sp_config p) = true ∧ sp_prompts_used p < prompt_budget (sp_config p) ∧
    ∃ decision, answered s request env decision ∧ decision ≠ Deny ∧ decision ≠ DenyAlways ∧
      ∀ pattern expiry uses, decision = ApprovePattern pattern expiry uses →
        matches (glob_atoms (chars pattern)) (chars (rq_subject request)))).
Proof.
  intros He Hd. destruct (evaluate_outcome s request env) as [Ho Hv]. rewrite He in Ho, Hv.
  cbn in Ho, Hv. destruct Ho as [(_ & _ & e & [=])|H].
  destruct H as (allowed & reason & kind & now & next & ev & Hdec & _ & -> & ->).
  cbn in Hd. subst allowed. destruct Hv as [Hval Hid]; [done|]. cbv zeta.
  split; [done|]. split; [done|].
  inversion Hdec as [|id g ? Hr Hg Hm _|index rule ? [Hr _] Hl Ha _| | | |
                     decision ? ? g ? ((Hun & _) & Hi & Hb) Ha Hap _]; subst.
  - split; [done|]. left. exists id, g. split; [done|]. unfold grant_matches in Hm.
    destruct (_ || _ || _) eqn:E; [done|]. bool_to_prop. split_and!; [done|done| |].
    + intros expiry He'. rewrite He' in *. cbn in *. bool_to_prop. done.
    + destruct (g_matcher g); [by bool_to_prop|]. by apply row_glob_matches_exact.
  - split; [done|]. right; left. exists rule. unfold auto_rule_applies in Ha. bool_to_prop.
    split_and!; [by eapply list_elem_of_lookup_2|done|by apply row_glob_matches_exact|].
    intros maximum Hmax. rewrite Hmax in *. by bool_to_prop.
  - split; [apply Hun|]. do 2 right. split_and!; [done..|]. exists decision.
    split; [done|]. inversion Hap as [? Hx| |]; subst.
    + by destruct Hx as [->|(? & ? & -> & _)].
    + done.
    + split_and!; [done..|]. intros ? ? ? [= -> -> ->]. by apply row_glob_matches_exact.
Qed.

End Sink.

(** ** Runs *)

(** A call: the operation, and the replies of the sink during it. *)
Definition call : Type := operation * (PermissionEvent → result (list Z) unit).

(** The state after the calls, and the events that were recorded. *)
Fixpoint run (calls : list call) (s : PersistedState) : PersistedState * list PermissionEvent :=
  match calls with
  | [] => (s, [])
  | (op, sink) :: calls =>
      let '(_, s, events) := perform sink op s in
      let '(s, rest) := run calls s in (s, events ++ rest)
  end.

(** What a change leaves alone. *)
Lemma decided_keeps (s : PersistedState) (request : PermissionRequest) (env : EvaluationEnv)
    (allowed : bool) (reason : list Z) (kind : HistoryKind) (now : Z) (next : StateHashPayload) :
  decided s request env allowed reason kind now next →
  sp_config next = sp_config (st_payload s) ∧ sp_history next = sp_history (st_payload s) ∧
  sp_request_ids next = sp_request_ids (st_payload s) ∧
  sp_session_id next = sp_session_id (st_payload s) ∧
  sp_prompts_used next =
    sp_prompts_used (st_payload s) + (if is_prompt kind then 1 else 0).
Proof.
  intros Hd. inversion Hd as [|id g ? _ Hg _ Hc|index rule ? _ _ _ Hc|? ? _ Hk|? ? ? _ Hk _| |
    decision ? base g ? _ _ Hap Hi]; subst.
  - cbn. split_and!; try done. lia.
  - unfold consume_grant in Hc. rewrite Hg in Hc.
    assert (∃ m, next = set_grants (st_payload s) m ∨ next = st_payload s) as [m [->| ->]].
    { destruct (g_uses_remaining g) as [[|[]|]|]; injection Hc as <-; by first [eexists; left; reflexivity|exists ∅; right]. }
    all: cbn; split_and!; try done; lia.
  - unfold count_auto_use in Hc. destruct (checked_add _ _ _); [|done]. injection Hc as <-.
    cbn. split_and!; try done. lia.
  - assert (is_prompt kind = false) as -> by (destruct Hk as [[-> _]|[[-> _]|[-> _]]]; done).
    split_and!; try done. lia.
  - assert (is_prompt kind = true) as ->; [|by cbn].
    destruct Hk as [[-> _]|[[[-> _]|[-> _]]|[[-> _]|[-> _]]]]; done.
  - done.
  - unfold insert_grant in Hi.
    assert (∃ m, next = set_grants base m ∨ next = base) as (m & Hnext).
    { repeat (case_match; simplify_eq);
        by first [eexists; left; reflexivity|exists ∅; right]. }
    inversion Hap; subst; destruct Hnext as [->| ->]; done.
Qed.

Lemma changed_keeps (s : PersistedState) (op : operation) (next : StateHashPayload)
    (draft : HistoryDraft) (allowed : bool) :
  changed s op next draft allowed →
  sp_config next = sp_config (st_payload s) ∧ sp_history next = sp_history (st_payload s) ∧
  sp_session_id next = sp_session_id (st_payload s).
Proof.
  destruct 1 as [? ? ? ? ? ? ? _ _ Hd| |g ts next _ Hi _| | |]; try done.
  - by destruct (decided_keeps _ _ _ _ _ _ _ _ Hd) as (? & ? & _ & ? & _).
  - unfold insert_grant in Hi. by repeat (case_match; simplify_eq).
Qed.

(** What [validate_state] checks of the collections. *)
Lemma validate_state_facts (s : PersistedState) :
  validate_state s = Ok tt →
  let p := st_payload s in
  validate_config (sp_config p) = Ok tt ∧ validate_hash (st_state_hash s) = Ok tt ∧
  sp_generation p = Z.of_nat (length (sp_history p)) ∧
  Z.of_nat (length (sp_history p)) ≤ max_history (limits (sp_config p)) ∧
  Z.of_nat (size (sp_grants p)) ≤ max_grants (limits (sp_config p)) ∧
  Z.of_nat (size (sp_deny_rules p)) ≤ max_deny_rules (limits (sp_config p)) ∧
  Z.of_nat (size (sp_request_ids p)) ≤ max_request_ids (limits (sp_config p)) ∧
  sp_prompts_used p ≤ prompt_budget (sp_config p) ∧
  history_request_ids (sp_history p) = sp_request_ids p ∧
  history_prompts (sp_history p) = sp_prompts_used p ∧
  check_each (validate_stored_grant (limits (sp_config p))) (grants_iter (sp_grants p)) = Ok tt.
Proof.
  unfold validate_state. cbv zeta. intros H.
  repeat (destruct_match_in H; try discriminate H); bool_to_prop;
    repeat match goal with x : unit |- _ => destruct x end; split_and!; try done; lia.
Qed.

(** A state that the supervisor can be in. *)
Record state_ok (s : PersistedState) : Prop := {
  so_valid : validate_state s = Ok tt;
  so_hash : compute_state_hash (st_payload s) = Ok (st_state_hash s);
  so_once : NoDup (omap he_request_id (sp_history (st_payload s)));
  so_session : ∃ bytes, length bytes = 16%nat ∧ Forall is_byte bytes ∧
    sp_session_id (st_payload s) = hex_encode bytes;
}.

Lemma compute_hash_valid (p : StateHashPayload) (hash : list Z) :
  compute_state_hash p = Ok hash → validate_hash hash = Ok tt.
Proof.
  unfold compute_state_hash. destruct (state_input p) as [input|]; [|done]. intros [= <-].
  unfold validate_hash. rewrite length_hex_encode, sha256_length, hex_encode_lower; [done|].
  apply sha256_bytes.
Qed.

Lemma compute_hash_total (p : StateHashPayload) : ∃ hash, compute_state_hash p = Ok hash.
Proof.
  destruct (to_vec_total p) as [encoded He]. unfold compute_state_hash, state_input.
  rewrite He. cbn. eauto.
Qed.

(** The numbers of a configuration are in the ranges of their types. *)
Definition config_wf (config : SupervisorConfig) : Prop :=
  let l := limits config in
  Forall (λ limit, in_range 0 u64_max limit = true)
    [max_grants l; max_deny_rules l; max_history l; max_request_ids l; max_pattern_bytes l;
     max_subject_bytes l; approval_timeout_ms config] ∧
  in_range 0 u32_max (prompt_budget config) = true ∧
  Forall (λ rule, ∀ uses, ar_max_uses rule = Some uses → in_range 0 u32_max uses = true)
    (auto_approve config).

Lemma new_ok (session_id : list Z) (config : SupervisorConfig) (s : PersistedState) :
  length session_id = 16%nat → Forall is_byte session_id → config_wf config →
  new_supervisor session_id config = Ok s → state_ok s.
Proof.
  intros Hlen Hbytes (Hl & H5 & _) Hnew. unfold new_supervisor in Hnew.
  repeat (apply Forall_cons in Hl as [? Hl]). unfold in_range in *.
  destruct (validate_config config) as [[]|] eqn:Ec; [|done]. cbv zeta in Hnew.
  set (p := {| sp_format := _ |}) in Hnew.
  destruct (compute_state_hash p) as [hash|] eqn:Eh; [|done]. injection Hnew as <-.
  constructor; cbn [st_payload st_state_hash]; [|done|constructor|by exists session_id].
  unfold validate_state. cbn [st_payload st_state_hash]. subst p. cbn [sp_format sp_version
    sp_config sp_previous_state_hash sp_generation sp_history sp_grants sp_deny_rules
    sp_request_ids sp_prompts_used sp_auto_use_counters].
  rewrite Ec, (compute_hash_valid _ _ Eh), bool_decide_true by done.
  change (validate_hash ZERO_HASH) with (Ok (E := SupervisorError) tt). cbn [negb orb Z.eqb].
  rewrite !(bool_decide_true) by done. cbn [negb orb length].
  match goal with |- context [_ || (5 <? ?n)] =>
    match goal with |- context [?c || (5 <? n)] => assert (c || (5 <? n) = false) as -> end end.
  { rewrite ?map_size_empty, ?size_empty. change (Z.of_nat 0) with 0.
    repeat (apply orb_false_iff; split); lia. }
  cbn [validate_entries].
  rewrite !elements_empty. unfold grants_iter. rewrite !map_to_list_empty.
  done.
Qed.

(** A call keeps it. *)
Lemma perform_ok (sink : PermissionEvent → result (list Z) unit) (op : operation)
    (s : PersistedState) :
  state_ok s → state_ok (perform sink op s).1.2.
Proof.
  intros Hs. pose proof (perform_outcome sink op s) as Ho.
  destruct (perform sink op s) as [[r s'] events]. cbn in *.
  destruct Ho as [(-> & _)|(next & draft & event & allowed & ev & Hch & Hc & _)]; [done|].
  destruct (changed_keeps _ _ _ _ _ Hch) as (_ & Hh & Hsid). destruct Hs as [Hv Hhash Honce Hsess].
  destruct Hc as [Hp _ Hh' Hv' _ _]. constructor; [done..| |].
  - rewrite Hp. cbn [next_generation sp_history]. rewrite Hh, omap_app. apply NoDup_app.
    split; [done|]. cbn. split.
    + intros id Hid. destruct (hd_request_id draft) as [id'|] eqn:Ed; [|set_solver].
      rewrite list_elem_of_singleton. intros ->.
      destruct Hch as [request env ? ? ? ? ? _ Hnew _| | | | |]; try discriminate Ed.
      injection Ed as <-. apply Hnew.
      destruct (validate_state_facts s Hv) as (_ & _ & _ & _ & _ & _ & _ & _ & <- & _).
      unfold history_request_ids. by rewrite elem_of_list_to_set.
    + destruct (hd_request_id draft); [apply NoDup_singleton|constructor].
  - rewrite Hp. cbn [next_generation sp_session_id]. by rewrite Hsid.
Qed.

Lemma run_ok (calls : list call) (s : PersistedState) : state_ok s → state_ok (run calls s).1.
Proof.
  revert s. induction calls as [|[op sink] calls IH]; intros s Hs; cbn [run]; [done|].
  pose proof (perform_ok sink op s Hs) as Hs'.
  destruct (perform sink op s) as [[r s'] events]. specialize (IH s' Hs').
  by destruct (run calls s').
Qed.

(** The states of a supervisor of this session and configuration. *)
Definition reachable (session_id : list Z) (config : SupervisorConfig) (s : PersistedState)
  : Prop :=
  ∃ s0 calls, new_supervisor session_id config = Ok s0 ∧ s = (run calls s0).1.

Lemma reachable_ok (session_id : list Z) (config : SupervisorConfig) (s : PersistedState) :
  length session_id = 16%nat → Forall is_byte session_id → config_wf config →
  reachable session_id config s → state_ok s.
Proof. intros Hl Hb Hc (s0 & calls & Hn & ->). apply run_ok. by eapply new_ok. Qed.

(** ** The record of events *)

Lemma perform_events (sink : PermissionEvent → result (list Z) unit) (op : operation)
    (s s' : PersistedState) (r : SupervisorResult (option PermissionDecision))
    (events : list PermissionEvent) :
  perform sink op s = (r, s', events) →
  (s' = s ∧ events = []) ∨
  ∃ ev, events = [ev] ∧ sink ev = Ok tt ∧ pe_generation ev = sp_generation (st_payload s) + 1 ∧
    sp_generation (st_payload s') = sp_generation (st_payload s) + 1 ∧
    sp_previous_state_hash (st_payload s') = st_state_hash s ∧
    pe_state_hash ev = st_state_hash s'.
Proof.
  intros Hp. pose proof (perform_outcome sink op s) as Ho. rewrite Hp in Ho.
  destruct Ho as [(-> & -> & _)|(next & draft & event & allowed & ev & _ & Hc & -> & _)]; [by left|].
  right. exists ev. destruct Hc as [Hpay Hg _ _ -> Hs]. rewrite Hpay in *. done.
Qed.

(** Every change of the state is recorded by the sink before it takes effect, with the
    generation and the hash of the state it leads to: the events of a run are numbered without
    a gap, and the last one has the hash of the state the run ends in. *)
Theorem every_change_is_recorded (calls : list call) (s : PersistedState) :
  let '(s', events) := run calls s in
  sp_generation (st_payload s') = sp_generation (st_payload s) + Z.of_nat (length events) ∧
  (∀ i ev, events !! i = Some ev →
     pe_generation ev = sp_generation (st_payload s) + Z.of_nat i + 1) ∧
  match last events with Some ev => pe_state_hash ev = st_state_hash s' | None => s' = s end.
Proof.
  revert s. induction calls as [|[op sink] calls IH]; intros s; cbn [run].
  { split_and!; [cbn; lia|done..]. }
  destruct (perform sink op s) as [[r s1] events] eqn:Ep. specialize (IH s1).
  destruct (run calls s1) as [s' rest]. destruct IH as (IH1 & IH2 & IH3).
  destruct (perform_events _ _ _ _ _ _ Ep) as [[-> ->]|(ev & -> & _ & Hev & Hg & _ & Hh)];
    [done|].
  cbn [app length]. split_and!; [rewrite IH1, Hg; lia| |].
  - intros [|i] e He; [injection He as <-; lia|]. cbn in He. rewrite (IH2 i e He), Hg. lia.
  - rewrite last_cons. destruct (last rest); [done|]. by subst s1.
Qed.

(** ** The stored form *)

Lemma session_roundtrip (bytes : list Z) :
  length bytes = 16%nat → Forall is_byte bytes → decode_session_id (hex_encode bytes) = Ok bytes.
Proof.
  intros Hl Hb. unfold decode_session_id. rewrite length_hex_encode, Hl, hex_decode_encode by done.
  cbn [negb Nat.eqb Nat.mul Nat.add]. by rewrite bool_decide_true.
Qed.

Lemma stored_state_decodes (s : PersistedState) (bytes : list Z) :
  state_ok s → encode_canonical s = Ok bytes → decode_state bytes = Ok s.
Proof.
  intros [Hv Hh _ (sid & Hsl & Hsb & Hs)] He.
  unfold encode_canonical in He. destruct (to_vec s) as [b|] eqn:Et; [|done]. cbn in He.
  destruct (_ <? _) eqn:El; [done|]. injection He as ->. unfold decode_state.
  rewrite El, (from_to_vec _ _ Et). cbn [map_err]. rewrite Et. cbn [map_err].
  rewrite bool_decide_true by done. cbn [negb]. rewrite Hv, Hh.
  rewrite bool_decide_true by done. cbn [negb]. by rewrite Hs, session_roundtrip.
Qed.

(** C27: What is stored is read back, for every state a supervisor can be in; it is accepted against
    its own checkpoint, and against that of the state before it. *)
Theorem stored_state_roundtrip (session_id : list Z) (config : SupervisorConfig)
    (s : PersistedState) (bytes : list Z) :
  length session_id = 16%nat → Forall is_byte session_id → config_wf config →
  reachable session_id config s → encode_canonical s = Ok bytes →
  decode_state bytes = Ok s ∧ decode_with_checkpoint bytes (checkpoint s) = Ok s ∧
  ∀ s0 sink op r ev, state_ok s0 → perform sink op s0 = (r, s, [ev]) →
    decode_with_checkpoint bytes (checkpoint s0) = Ok s.
Proof.
  intros Hl Hb Hc Hr He. pose proof (reachable_ok _ _ _ Hl Hb Hc Hr) as Hok.
  pose proof (stored_state_decodes s bytes Hok He) as Hd.
  split; [done|]. unfold decode_with_checkpoint. split.
  - destruct (validate_state_facts s (so_valid _ Hok)) as (_ & Hvh & _).
    cbn [checkpoint cp_state_hash cp_generation]. rewrite Hvh, Hd.
    rewrite Z.ltb_irrefl, Z.eqb_refl. by rewrite bool_decide_true.
  - intros s0 sink op r ev Hok0 Hp.
    destruct (validate_state_facts s0 (so_valid _ Hok0)) as (_ & Hvh & _).
    pose proof (perform_outcome sink op s0) as Ho. rewrite Hp in Ho. cbn in Ho.
    destruct Ho as [(_ & [=] & _)|(next & draft & event & allowed & ev' & _ & Hcom & _)].
    destruct Hcom as [Hpay Hg _ _ _ _].
    cbn [checkpoint cp_state_hash cp_generation]. rewrite Hvh, Hd. cbv zeta. rewrite Hpay.
    cbn [next_generation sp_generation sp_previous_state_hash]. unfold saturating_add.
    rewrite (proj2 (Z.ltb_ge _ _)), (proj2 (Z.eqb_neq _ _)) by lia.
    rewrite Z.min_l, Z.eqb_refl by lia. by rewrite bool_decide_true.
Qed.

(** What was hashed for a state. *)
Definition hash_input (s : PersistedState) : list Z :=
  match state_input (st_payload s) with Ok input => input | Err _ => [] end.

Lemma hash_binds (s1 s2 : PersistedState) :
  compute_state_hash (st_payload s1) = Ok (st_state_hash s1) →
  compute_state_hash (st_payload s2) = Ok (st_state_hash s2) →
  collision_free [hash_input s1; hash_input s2] → st_state_hash s1 = st_state_hash s2 → s1 = s2.
Proof.
  destruct s1 as [p1 h1], s2 as [p2 h2]. cbn. intros H1 H2 Hf ->. f_equal.
  unfold compute_state_hash, hash_input in *. cbn [st_payload] in Hf.
  destruct (state_input p1) as [i1|] eqn:E1, (state_input p2) as [i2|] eqn:E2; try done.
  assert (i1 = i2) as ->.
  { apply Hf; [by left|by right; left|].
    apply sha256_hex_inj. congruence. }
  unfold state_input in E1, E2.
  destruct (to_vec p1) as [e1|] eqn:T1, (to_vec p2) as [e2|] eqn:T2; try done.
  cbn [map_err] in E1, E2. assert (e1 = e2) as ->.
  { apply (app_inv_head STATE_HASH_DOMAIN). congruence. }
  by eapply to_vec_inj.
Qed.

(** A checkpoint cannot be rolled back: what is accepted against the checkpoint of a state is
    that very state, or one step on from it. *)
Theorem checkpoint_binds (session_id : list Z) (config : SupervisorConfig)
    (s s' : PersistedState) (bytes : list Z) :
  length session_id = 16%nat → Forall is_byte session_id → config_wf config →
  reachable session_id config s → decode_with_checkpoint bytes (checkpoint s) = Ok s' →
  collision_free [hash_input s'; hash_input s] →
  s' = s ∨
  (sp_generation (st_payload s') = sp_generation (st_payload s) + 1 ∧
   sp_previous_state_hash (st_payload s') = st_state_hash s ∧ validate_state s' = Ok tt).
Proof.
  intros Hl Hb Hc Hr Hd Hf. destruct (reachable_ok _ _ _ Hl Hb Hc Hr) as [Hv Hh _ _].
  unfold decode_with_checkpoint in Hd. cbn [checkpoint cp_state_hash cp_generation] in Hd.
  destruct (validate_hash _); [|done]. destruct (decode_state bytes) as [s1|] eqn:Es; [|done].
  assert (compute_state_hash (st_payload s1) = Ok (st_state_hash s1) ∧ validate_state s1 = Ok tt)
    as [Hh1 Hv1].
  { unfold decode_state in Es. repeat (destruct_match_in Es; try discriminate Es).
    bool_to_prop. injection Es as ->. repeat match goal with x : unit |- _ => destruct x end.
    split; congruence. }
  cbv zeta in Hd.
  destruct (Z.ltb_spec (sp_generation (st_payload s1)) (sp_generation (st_payload s))); [done|].
  destruct (Z.eqb_spec (sp_generation (st_payload s1)) (sp_generation (st_payload s))).
  - destruct (bool_decide _) eqn:Eb; [|done]. injection Hd as ->. bool_to_prop.
    left. by apply hash_binds.
  - destruct (_ =? saturating_add _ _ _) eqn:Ej; [|done]. cbn [negb] in Hd.
    destruct (bool_decide _) eqn:Eb; [|done]. injection Hd as ->. bool_to_prop. right.
    unfold saturating_add in Ej. split_and!; [lia|done..].
Qed.

End Supervisor.

(** ** A session *)

Module PermissionSafetySample.
Import PermissionSample.

Definition approving : call := (OpEvaluate (request "r1" "cargo test") granting, accepting).

Lemma run_one (c : call) (s : PersistedState) : (run [c] s).1 = (perform c.2 c.1 s).1.2.
Proof. destruct c as [op sink]. cbn. by destruct (perform sink op s) as [[]]. Qed.

Lemma granted_run : granted = (run [approving] started).1.
Proof.
  rewrite run_one. unfold granted, evaluate. cbn [approving fst snd perform].
  by destruct (evaluate_with_cancellation _ _ _ _) as [[[]]].
Qed.

Lemma granted_reachable : reachable session SupervisorConfig_default granted.
Proof. exists started, [approving]. split; [apply started_new|apply granted_run]. Qed.

Lemma default_wf : config_wf SupervisorConfig_default.
Proof. split_and!; [by repeat constructor|done|constructor]. Qed.

(** The second request, which the grant allows. *)
Definition second : outcome PermissionDecision :=
  evaluate_with_cancellation accepting granted (request "r2" "cargo test") (asking Deny 2000).

Definition decision_of (o : outcome PermissionDecision) : option PermissionDecision :=
  match o with (Ok d, _, _) => Some d | _ => None end.

Lemma second_allowed : pd_allowed <$> decision_of second = Some true.
Proof. by vm_compute. Qed.

Lemma second_result :
  ∃ d s events, second = (Ok d, s, events) ∧ pd_allowed d = true.
Proof.
  pose proof second_allowed as H. revert H. generalize second. intros [[[d|] s] events] H; [|done].
  exists d, s, events. cbn in H. split; congruence.
Qed.

Lemma allowed_is_justified_witness :
  rq_request_id (request "r2" "cargo test") ∉ sp_request_ids (st_payload granted).
Proof.
  destruct second_result as (d & s & events & He & Hd). unfold second in He.
  exact (proj1 (proj2 (allowed_is_justified accepting granted s
    (request "r2" "cargo test") (asking Deny 2000) d events He Hd))).
Defined.

Definition granted_bytes : list Z := match encode_canonical granted with Ok b => b | Err _ => [] end.

Lemma ok_default {E A : Type} (r : result E A) (x : A) :
  match r with Ok _ => true | Err _ => false end = true →
  r = Ok match r with Ok y => y | Err _ => x end.
Proof. by destruct r. Qed.

Lemma granted_encoded : encode_canonical granted = Ok granted_bytes.
Proof. apply ok_default. by vm_compute. Qed.

Lemma stored_state_roundtrip_witness :
  decode_state granted_bytes = Ok granted ∧
  decode_with_checkpoint granted_bytes (checkpoint granted) = Ok granted.
Proof.
  destruct (stored_state_roundtrip session SupervisorConfig_default granted granted_bytes
    (proj1 session_wf) (proj2 session_wf) default_wf granted_reachable granted_encoded)
    as (Hd & Hc & _). exact (conj Hd Hc).
Defined.

(** The state after the first request, against the checkpoint before it. *)
Lemma started_ok : state_ok started.
Proof.
  apply (new_ok session SupervisorConfig_default); [apply session_wf..|apply default_wf|].
  apply started_new.
Qed.

Lemma started_reachable : reachable session SupervisorConfig_default started.
Proof. exists started, []. split; [apply started_new|done]. Qed.

Lemma granted_accepted : decode_with_checkpoint granted_bytes (checkpoint started) = Ok granted.
Proof.
  assert (decode_state granted_bytes = Ok granted) as Hd.
  { apply stored_state_decodes; [|apply granted_encoded].
    by apply (reachable_ok session SupervisorConfig_default); [apply session_wf..|apply default_wf|
      apply granted_reachable]. }
  unfold decode_with_checkpoint. rewrite Hd. by vm_compute.
Qed.

Lemma granted_collision_free : collision_free [hash_input granted; hash_input started].
Proof. apply collision_check_true. by vm_compute. Qed.

Lemma checkpoint_binds_witness :
  granted = started ∨
  (sp_generation (st_payload granted) = sp_generation (st_payload started) + 1 ∧
   sp_previous_state_hash (st_payload granted) = st_state_hash started ∧
   validate_state granted = Ok tt).
Proof.
  exact (checkpoint_binds session SupervisorConfig_default started granted granted_bytes
    (proj1 session_wf) (proj2 session_wf) default_wf started_reachable granted_accepted
    granted_collision_free).
Defined.

End PermissionSafetySample.
