(* ===== verification/PermissionLimits.v ===== *)
(** * Limits and ranges of the permission supervisor

    What holds of every state that calls lead to: the limits of [validate_state], the requests
    that are decided once, the uses of a grant, and the ranges of the machine integers, which
    the unchecked arithmetic of the code relies on. *)

From S2P Require Import Prelude RustStr Net Glob Digest Permission PermissionSample PermissionSafety.

Section Limits.
Context {sha : Sha256Api} {sha_laws : Sha256Laws sha}
        {payload_json : Serde StateHashPayload} {payload_laws : SerdeLaws StateHashPayload}
        {state_json : Serde PersistedState} {state_laws : SerdeLaws PersistedState}.

(** ** Runs *)

(** One committed change. *)
Definition stepped (c : call) (s s' : PersistedState) : Prop :=
  ∃ next draft event allowed ev,
    changed s c.1 next draft allowed ∧ committed c.2 s next draft event s' ev.

Lemma perform_stepped (c : call) (s : PersistedState) :
  (perform c.2 c.1 s).1.2 = s ∨ stepped c s (perform c.2 c.1 s).1.2.
Proof.
  pose proof (perform_outcome c.2 c.1 s) as Ho.
  destruct (perform c.2 c.1 s) as [[r s'] events]. cbn in *.
  destruct Ho as [(-> & _)|(next & draft & event & allowed & ev & Hch & Hc & _)]; [by left|].
  right. by exists next, draft, event, allowed, ev.
Qed.

(** What a change keeps, a run keeps. *)
Lemma run_keeps (good : call → Prop) (I : PersistedState → Prop) (calls : list call)
    (s : PersistedState) :
  (∀ c s s', good c → I s → stepped c s s' → I s') →
  Forall good calls → I s → I (run calls s).1.
Proof.
  intros Hstep Hgood. revert s. induction Hgood as [|[op sink] calls Hc _ IH]; intros s Hs;
    cbn [run]; [done|].
  pose proof (perform_stepped (op, sink) s) as Hp. cbn in Hp.
  destruct (perform sink op s) as [[r s1] events]. cbn in Hp.
  assert (I s1) as Hs1 by (destruct Hp as [->|Hp]; [done|by eapply Hstep]).
  specialize (IH s1 Hs1). by destruct (run calls s1).
Qed.

Lemma Forall_anything {A : Type} (l : list A) : Forall (λ _, True) l.
Proof. by apply Forall_true. Qed.

Lemma stepped_keeps (c : call) (s s' : PersistedState) :
  stepped c s s' →
  sp_config (st_payload s') = sp_config (st_payload s) ∧
  sp_session_id (st_payload s') = sp_session_id (st_payload s) ∧
  sp_generation (st_payload s') = sp_generation (st_payload s) + 1.
Proof.
  intros (next & draft & event & allowed & ev & Hch & Hc).
  destruct (changed_keeps _ _ _ _ _ Hch) as (Hcf & _ & Hs). rewrite (com_payload _ _ _ _ _ _ _ Hc).
  cbn. by rewrite Hcf, Hs.
Qed.

(** Every state of a supervisor passes its own validation and has its own hash; no request is
    decided twice, the replay set holds the requests of the history, and the prompts in the
    history are counted and within the budget of the configuration. *)
Theorem supervisor_invariant (session_id : list Z) (config : SupervisorConfig)
    (s : PersistedState) :
  length session_id = 16%nat → Forall is_byte session_id → config_wf config →
  reachable session_id config s →
  let p := st_payload s in
  validate_state s = Ok tt ∧ compute_state_hash p = Ok (st_state_hash s) ∧
  sp_config p = config ∧ sp_session_id p = hex_encode session_id ∧
  sp_generation p = Z.of_nat (length (sp_history p)) ∧
  NoDup (omap he_request_id (sp_history p)) ∧
  sp_request_ids p = list_to_set (omap he_request_id (sp_history p)) ∧
  sp_prompts_used p =
    Z.of_nat (length (filter (λ entry, is_prompt (he_kind entry) = true) (sp_history p))) ∧
  sp_prompts_used p ≤ prompt_budget config ∧
  Z.of_nat (size (sp_grants p)) ≤ max_grants (limits config).
Proof.
  intros Hl Hb Hc Hr. destruct (reachable_ok _ _ _ Hl Hb Hc Hr) as [Hv Hh Hn _].
  destruct Hr as (s0 & calls & Hnew & ->).
  assert (sp_config (st_payload (run calls s0).1) = config ∧
          sp_session_id (st_payload (run calls s0).1) = hex_encode session_id) as [Hcf Hsid].
  { apply (run_keeps (λ _, True)
      (λ s, sp_config (st_payload s) = config ∧ sp_session_id (st_payload s) = hex_encode session_id)).
    - intros c s s' _ [<- <-] Hst. by destruct (stepped_keeps _ _ _ Hst) as (-> & -> & _).
    - apply Forall_anything.
    - unfold new_supervisor in Hnew. destruct (validate_config config); [|done]. cbv zeta in Hnew.
      destruct (compute_state_hash _); [|done]. by injection Hnew as <-. }
  destruct (validate_state_facts _ Hv) as (_ & _ & Hg & _ & Hgr & _ & _ & Hp & Hids & Hpr & _).
  cbv zeta in *. rewrite Hcf in *. unfold history_request_ids, history_prompts in *.
  by split_and!.
Qed.

(** ** Requests *)

Lemma stepped_ids (c : call) (s s' : PersistedState) :
  stepped c s s' → sp_request_ids (st_payload s) ⊆ sp_request_ids (st_payload s').
Proof.
  intros (next & draft & event & allowed & ev & Hch & Hc). rewrite (com_payload _ _ _ _ _ _ _ Hc).
  cbn. destruct Hch as [? ? ? ? ? ? ? _ _ Hd| |g ts next _ Hi _| | |]; cbn; try done.
  - destruct (decided_keeps _ _ _ _ _ _ _ _ Hd) as (_ & _ & -> & _). set_solver.
  - unfold insert_grant in Hi. by repeat (case_match; simplify_eq).
Qed.

(** A request that was decided, allowed or not, is never decided again: whatever is done in
    between, its identifier is refused, and the refusal changes nothing. *)
Theorem decided_once (op_sink sink : PermissionEvent → result (list Z) unit)
    (s : PersistedState) (first second : PermissionRequest) (env env' : EvaluationEnv)
    (calls : list call) :
  let '(_, s1, events) := evaluate_with_cancellation op_sink s first env in
  let s2 := (run calls s1).1 in
  events ≠ [] → rq_request_id second = rq_request_id first →
  validate_request second (limits (sp_config (st_payload s2))) = Ok tt →
  evaluate_with_cancellation sink s2 second env' = (Err (Replay (rq_request_id first)), s2, []).
Proof.
  destruct (evaluate_outcome op_sink s first env) as [Ho _]. cbv zeta in Ho.
  destruct (evaluate_with_cancellation op_sink s first env) as [[r s1] events]. cbn in Ho.
  intros s2 Hev Hid Hval.
  destruct Ho as [(_ & -> & _)|(allowed & reason & kind & now & next & ev & _ & Hrec & _)]; [done|].
  assert (rq_request_id first ∈ sp_request_ids (st_payload s2)) as Hin.
  { apply (run_keeps (λ _, True) (λ s, rq_request_id first ∈ sp_request_ids (st_payload s))).
    - intros c t t' _ Ht Hst. by apply (stepped_ids _ _ _ Hst).
    - apply Forall_anything.
    - rewrite (com_payload _ _ _ _ _ _ _ Hrec). cbn. set_solver. }
  unfold evaluate_with_cancellation, fail. cbv zeta. rewrite Hval, Hid.
  by rewrite bool_decide_true.
Qed.

(** ** Grants *)

(** The grant with one use less. *)
Definition used_once (g : PermissionGrant) (uses : Z) : PermissionGrant :=
  {| g_id := g_id g; g_category := g_category g; g_matcher := g_matcher g;
     g_granted_at_unix_ms := g_granted_at_unix_ms g;
     g_expires_at_unix_ms := g_expires_at_unix_ms g; g_uses_remaining := Some (uses - 1);
     g_grant_type := g_grant_type g |}.

(** Where a grant of the next state comes from. *)
Inductive grant_from (s : PersistedState) (op : operation) (draft : HistoryDraft) (id : list Z)
  : PermissionGrant → Prop :=
| from_before g : sp_grants (st_payload s) !! id = Some g → grant_from s op draft id g
| from_use g uses :
    sp_grants (st_payload s) !! id = Some g → g_uses_remaining g = Some uses → uses ≠ 0 →
    uses ≠ 1 → grant_from s op draft id (used_once g uses)
| from_approval request env decision reason base g :
    op = OpEvaluate request env → answered s request env decision →
    approval s request (env_after env) decision reason base g →
    id = approval_grant_id (st_payload s) → grant_from s op draft id g
| from_operation g timestamp :
    op = OpGrant g timestamp → starts_with id (str "grant-") = false → id = g_id g →
    grant_from s op draft id g.

Lemma insert_grant_lookup (p next : StateHashPayload) (g g' : PermissionGrant) (id : list Z) :
  insert_grant p g = Ok next → sp_grants next !! id = Some g' →
  sp_grants p !! id = Some g' ∨ (id = g_id g ∧ g' = g).
Proof.
  unfold insert_grant. intros Hi Hl. repeat (case_match; simplify_eq); [by left|].
  cbn in Hl. apply lookup_insert_Some in Hl as [[<- <-]|[_ Hl]]; auto.
Qed.

Lemma changed_grants (s : PersistedState) (op : operation) (next : StateHashPayload)
    (draft : HistoryDraft) (allowed : bool) (id : list Z) (g : PermissionGrant) :
  changed s op next draft allowed → sp_grants next !! id = Some g → grant_from s op draft id g.
Proof.
  intros Hch Hl. destruct Hch as [request env allowed reason kind now next _ _ Hd|
    |g0 ts next Hp Hi _| |id' g' ts Hg'|ts]; cbn in Hl; try by apply from_before.
  - inversion Hd as [|id0 g0 ? Hr Hg Hm Hc|index rule ? _ _ _ Hc| | | |
      decision ? base g0 ? _ Ha Hap Hi]; subst; try by apply from_before.
    + unfold consume_grant in Hc. rewrite Hg in Hc. unfold grant_matches in Hm.
      destruct (_ || _ || _) eqn:Em; [done|]. bool_to_prop.
      destruct (g_uses_remaining g0) as [uses|] eqn:Eu; [|injection Hc as <-; by apply from_before].
      assert (uses = 1 ∧ next = set_grants (st_payload s) (delete id0 (sp_grants (st_payload s))) ∨
              uses ≠ 1 ∧ next = set_grants (st_payload s)
                (<[id0 := used_once g0 uses]> (sp_grants (st_payload s)))) as [[-> ->]|[Hu ->]].
      { unfold used_once. destruct uses as [|[]|]; injection Hc as <-; auto. }
      * cbn in Hl. apply lookup_delete_Some in Hl as [_ Hl]. by apply from_before.
      * cbn in Hl. apply lookup_insert_Some in Hl as [[<- <-]|[_ Hl]]; [|by apply from_before].
        apply from_use; [done..|congruence|done].
    + unfold count_auto_use in Hc. destruct (checked_add _ _ _); [|done]. injection Hc as <-.
      by apply from_before.
    + destruct (insert_grant_lookup _ _ _ _ _ Hi Hl) as [Hb|[-> ->]].
      * apply from_before. inversion Hap; subst; cbn in Hb; [done|..];
          by apply map_lookup_filter_Some in Hb as [Hb _].
      * eapply from_approval; [done..|]. by inversion Hap.
  - destruct (insert_grant_lookup _ _ _ _ _ Hi Hl) as [Hb|[-> ->]]; [by apply from_before|].
    by eapply from_operation.
  - apply lookup_delete_Some in Hl as [_ Hl]. by apply from_before.
Qed.

(** The identifiers of the grants of approvals are those of the generations so far. *)
Definition ids_fresh (s : PersistedState) : Prop :=
  0 ≤ sp_generation (st_payload s) ∧
  ∀ id g, sp_grants (st_payload s) !! id = Some g → starts_with id (str "grant-") = true →
    ∃ k, 0 ≤ k ≤ sp_generation (st_payload s) ∧ id = str "grant-" ++ show_dec k.

(** Not the identifier of an approval to come. *)
Definition past_id (id : list Z) (s : PersistedState) : Prop :=
  ∀ k, sp_generation (st_payload s) < k → id ≠ str "grant-" ++ show_dec k.

Lemma fresh_past (s : PersistedState) (id : list Z) (g : PermissionGrant) :
  ids_fresh s → sp_grants (st_payload s) !! id = Some g → past_id id s.
Proof.
  intros [Hg Hf] Hl k Hk ->. apply Hf in Hl; [|apply starts_with_true; by eexists].
  destruct Hl as (j & Hj & He). apply app_inv_head, show_dec_inj in He; lia.
Qed.

Lemma stepped_fresh (c : call) (s s' : PersistedState) :
  ids_fresh s → stepped c s s' → ids_fresh s'.
Proof.
  intros [Hg Hf] Hst. destruct (stepped_keeps _ _ _ Hst) as (_ & _ & Hgen).
  destruct Hst as (next & draft & event & allowed & ev & Hch & Hc). split; [lia|].
  rewrite Hgen. rewrite (com_payload _ _ _ _ _ _ _ Hc). cbn [next_generation sp_grants].
  intros id g Hl Hp. pose proof (com_generation _ _ _ _ _ _ _ Hc).
  destruct (changed_grants _ _ _ _ _ _ _ Hch Hl) as [g Hb|g uses Hb _ _ _|
    request env decision reason base g _ _ _ Hid|g ts _ Hn _].
  - destruct (Hf _ _ Hb Hp) as (k & ? & ->). exists k. split; [lia|done].
  - destruct (Hf _ _ Hb Hp) as (k & ? & ->). exists k. split; [lia|done].
  - exists (sp_generation (st_payload s) + 1).
    split; [lia|]. rewrite Hid. unfold approval_grant_id, saturating_add. by rewrite Z.min_l.
  - congruence.
Qed.

(** How often the grant was used. *)
Definition grant_use (id : list Z) (entry : HistoryEntry) : Prop :=
  he_kind entry = AllowedGrant ∧ he_detail entry = str "grant:" ++ id.

#[local] Instance grant_use_dec (id : list Z) (entry : HistoryEntry) :
  Decision (grant_use id entry).
Proof. unfold grant_use. apply _. Defined.

Definition grant_uses (id : list Z) (p : StateHashPayload) : Z :=
  Z.of_nat (length (filter (grant_use id) (sp_history p))).

(** At most so many uses are left. *)
Definition uses_left (id : list Z) (n : Z) (s : PersistedState) : Prop :=
  0 ≤ n ∧
  ∀ g, sp_grants (st_payload s) !! id = Some g →
    ∃ uses, g_uses_remaining g = Some uses ∧ 0 ≤ uses ≤ n.

(** A use of the grant is one of a grant that is there, and takes one use from it. *)
Lemma changed_use (s : PersistedState) (op : operation) (next : StateHashPayload)
    (draft : HistoryDraft) (allowed : bool) (id : list Z) :
  changed s op next draft allowed → hd_kind draft = AllowedGrant →
  hd_detail draft = str "grant:" ++ id →
  ∃ g, sp_grants (st_payload s) !! id = Some g ∧ g_uses_remaining g ≠ Some 0 ∧
    ∀ uses, g_uses_remaining g = Some uses →
      sp_grants next !! id = None ∨ sp_grants next !! id = Some (used_once g uses).
Proof.
  intros Hch Hk Hdt. destruct Hch as [request env allowed reason kind now next _ _ Hd| | | | |];
    try discriminate Hk. cbn [hd_kind hd_detail insert_request_id sp_grants] in *.
  destruct Hd as [|id0 g0 next Hr Hg Hm Hc| |? kind _ Hu|? kind ? _ Hr _| |]; try discriminate Hk.
  - apply app_inv_head in Hdt. subst id0. exists g0. unfold grant_matches in Hm. destruct (_ || _ || _) eqn:Em; [done|]. bool_to_prop.
    split_and!; [done..|]. intros uses Hu. unfold consume_grant in Hc. rewrite Hg, Hu in Hc.
    unfold used_once. destruct uses as [|[]|]; injection Hc as <-; cbn;
      first [left; by apply lookup_delete_eq|right; by apply lookup_insert_eq].
  - by destruct Hu as [[-> _]|[[-> _]|[-> _]]].
  - by destruct Hr as [[-> _]|[[[-> _]|[-> _]]|[[-> _]|[-> _]]]].
Qed.

(** The call does not add a grant of this identifier by hand. *)
Definition not_regranted (id : list Z) (c : call) : Prop :=
  ∀ g timestamp, c.1 = OpGrant g timestamp → g_id g ≠ id.

Lemma stepped_uses (c : call) (s s' : PersistedState) (id : list Z) (n : Z) :
  not_regranted id c → past_id id s →
  uses_left id n s → stepped c s s' →
  ∃ n', uses_left id n' s' ∧
    grant_uses id (st_payload s') + n' ≤ grant_uses id (st_payload s) + n.
Proof.
  intros Hop Hpast [Hn Hl] (next & draft & event & allowed & ev & Hch & Hc).
  pose proof (com_generation _ _ _ _ _ _ _ Hc). destruct (changed_keeps _ _ _ _ _ Hch) as (_ & Hh & _).
  assert (sp_grants (st_payload s') = sp_grants next) as Hgs
    by by rewrite (com_payload _ _ _ _ _ _ _ Hc).
  assert (grant_uses id (st_payload s') = grant_uses id (st_payload s) +
    (if decide (grant_use id (entry_of s draft)) then 1 else 0)) as ->.
  { unfold grant_uses. rewrite (com_payload _ _ _ _ _ _ _ Hc). cbn [next_generation sp_history].
    rewrite Hh, filter_app, length_app, filter_cons, filter_nil.
    destruct (decide _); cbn [length]; lia. }
  destruct (decide (grant_use id (entry_of s draft))) as [[Hk Hd]|Hnot].
  - destruct (changed_use _ _ _ _ _ id Hch Hk Hd) as (g & Hg & Hz & Hu).
    destruct (Hl g Hg) as (uses & Hus & Hle). exists (n - 1).
    assert (uses ≠ 0) by congruence. split; [|lia]. split; [lia|]. rewrite Hgs.
    intros g' Hg'. destruct (Hu uses Hus) as [Hnone|Hsome]; [congruence|].
    exists (uses - 1). rewrite Hsome in Hg'. injection Hg' as <-. split; [done|lia].
  - exists n. split; [|lia]. split; [done|]. rewrite Hgs. intros g' Hg'.
    destruct (changed_grants _ _ _ _ _ _ _ Hch Hg') as [g Hb|g uses Hb Hu Hz _|
      request env decision reason base g _ _ _ Hid|g ts Hg _ Hid].
    + by apply Hl.
    + destruct (Hl g Hb) as (uses' & Hus & Hle). exists (uses - 1). split; [done|].
      assert (uses' = uses) by congruence. lia.
    + exfalso. apply (Hpast (sp_generation (st_payload s) + 1)); [lia|]. rewrite Hid.
      unfold approval_grant_id, saturating_add. by rewrite Z.min_l.
    + exfalso. by apply (Hop g ts).
Qed.

Lemma run_uses (calls : list call) (s : PersistedState) (id : list Z) (n : Z) :
  Forall (not_regranted id) calls →
  past_id id s → uses_left id n s →
  grant_uses id (st_payload (run calls s).1) ≤ grant_uses id (st_payload s) + n.
Proof.
  intros Hgood Hpast Hl.
  enough (past_id id (run calls s).1 ∧ ∃ n', uses_left id n' (run calls s).1 ∧
    grant_uses id (st_payload (run calls s).1) + n' ≤ grant_uses id (st_payload s) + n)
    as [_ (n' & [? _] & ?)] by lia.
  apply (run_keeps (not_regranted id) (λ t, past_id id t ∧ ∃ n', uses_left id n' t ∧
    grant_uses id (st_payload t) + n' ≤ grant_uses id (st_payload s) + n) calls s); [|done|].
  - intros c t t' Hc [Hp (n1 & Hn1 & Hle)] Hst. split.
    + destruct (stepped_keeps _ _ _ Hst) as (_ & _ & Hg). intros k Hk. apply Hp. lia.
    + destruct (stepped_uses c t t' id n1 Hc Hp Hn1 Hst) as (n2 & Hn2 & Hle2).
      exists n2. split; [done|lia].
  - split; [done|]. exists n. split; [done|lia].
Qed.

Lemma reachable_fresh (session_id : list Z) (config : SupervisorConfig) (s : PersistedState) :
  reachable session_id config s → ids_fresh s.
Proof.
  intros (s0 & calls & Hnew & ->). apply (run_keeps (λ _, True)).
  - intros c t t' _. apply stepped_fresh.
  - apply Forall_anything.
  - unfold new_supervisor in Hnew. destruct (validate_config config); [|done]. cbv zeta in Hnew.
    destruct (compute_state_hash _); [|done]. injection Hnew as <-. by split.
Qed.

(** C25: A grant with a number of uses left allows at most that many requests from then on,
    whatever else is done, until a grant is added by hand under the same identifier. *)
Theorem grant_uses_bounded (session_id : list Z) (config : SupervisorConfig)
    (s : PersistedState) (calls : list call) (id : list Z) (g : PermissionGrant) (uses : Z) :
  reachable session_id config s → sp_grants (st_payload s) !! id = Some g →
  g_uses_remaining g = Some uses → 0 ≤ uses →
  Forall (not_regranted id) calls →
  grant_uses id (st_payload (run calls s).1) ≤ grant_uses id (st_payload s) + uses.
Proof.
  intros Hr Hg Hu Hz Hgood. apply run_uses; [done|eapply fresh_past; [by eapply reachable_fresh|done]|].
  split; [done|]. intros g' Hg'. exists uses. split; [congruence|lia].
Qed.

(** ** Machine integers *)

Definition is_u32 (n : Z) : Prop := 0 ≤ n ≤ u32_max.
Definition is_u64 (n : Z) : Prop := 0 ≤ n ≤ u64_max.
Definition option_of (P : Z → Prop) (o : option Z) : Prop := ∀ n, o = Some n → P n.

Record grant_typed (g : PermissionGrant) : Prop := {
  gt_granted : is_u64 (g_granted_at_unix_ms g);
  gt_expires : option_of is_u64 (g_expires_at_unix_ms g);
  gt_uses : option_of is_u32 (g_uses_remaining g);
}.

Definition entry_typed (entry : HistoryEntry) : Prop :=
  is_u64 (he_generation entry) ∧ is_u64 (he_timestamp_unix_ms entry).

Record payload_typed (p : StateHashPayload) : Prop := {
  pt_generation : is_u64 (sp_generation p);
  pt_config : config_wf (sp_config p);
  pt_grants : ∀ id g, sp_grants p !! id = Some g → grant_typed g;
  pt_counters : ∀ category n, sp_auto_use_counters p !! category = Some n → is_u32 n;
  pt_prompts : is_u32 (sp_prompts_used p);
  pt_history : Forall entry_typed (sp_history p);
}.

Definition decision_typed (decision : ApprovalDecision) : Prop :=
  match decision with
  | ApproveSession expiry uses | ApprovePattern _ expiry uses =>
      option_of is_u64 expiry ∧ option_of is_u32 uses
  | _ => True
  end.

Record env_typed (env : EvaluationEnv) : Prop := {
  et_now : is_u64 (env_now env);
  et_after : is_u64 (env_after env);
  et_handler : ∀ approve request context decision,
    env_handler env = Some approve → approve request context = Ok decision →
    decision_typed decision;
}.

Definition op_typed (op : operation) : Prop :=
  match op with
  | OpEvaluate _ env => env_typed env
  | OpGrant g timestamp => grant_typed g ∧ is_u64 timestamp
  | OpAddExactDeny _ _ timestamp | OpRevokeExactDeny _ _ timestamp | OpRevokeGrant _ timestamp
  | OpRevokeAllGrants timestamp => is_u64 timestamp
  end.

Lemma approval_typed (s : PersistedState) (request : PermissionRequest) (env : EvaluationEnv)
    (decision : ApprovalDecision) (reason : list Z) (base : StateHashPayload)
    (g : PermissionGrant) :
  env_typed env → answered s request env decision →
  approval s request (env_after env) decision reason base g → grant_typed g.
Proof.
  intros He (approve & deadline & Hh & _ & _ & _ & _ & Ha) Hap.
  pose proof (et_handler _ He _ _ _ _ Hh Ha) as Hd.
  destruct Hap as [decision _|expiry uses _ Hlim|pattern expiry uses _ Hlim _]; constructor; cbn;
    try apply He; try apply Hd.
  - done.
  - intros n [= <-]. done.
  - destruct uses as [n|]; [|done]. intros m [= <-]. destruct Hd as [_ Hu].
    specialize (Hu n eq_refl). unfold validate_grant_limits in Hlim.
    case_bool_decide as Hz; [done|]. unfold is_u32 in *. assert (n ≠ 0) by congruence. lia.
  - destruct uses as [n|]; [|done]. intros m [= <-]. destruct Hd as [_ Hu].
    specialize (Hu n eq_refl). unfold validate_grant_limits in Hlim.
    case_bool_decide as Hz; [done|]. unfold is_u32 in *. assert (n ≠ 0) by congruence. lia.
Qed.

Lemma changed_prompts (s : PersistedState) (op : operation) (next : StateHashPayload)
    (draft : HistoryDraft) (allowed : bool) :
  changed s op next draft allowed →
  sp_prompts_used next = sp_prompts_used (st_payload s) ∨
  sp_prompts_used next = sp_prompts_used (st_payload s) + 1 ∧
  sp_prompts_used (st_payload s) < prompt_budget (sp_config (st_payload s)).
Proof.
  destruct 1 as [request env allowed reason kind now next _ _ Hd| |g ts next _ Hi _| | |];
    try by left.
  - destruct (decided_keeps _ _ _ _ _ _ _ _ Hd) as (_ & _ & _ & _ & Hp). cbn. rewrite Hp.
    destruct Hd as [| | |? ? _ Hu|? ? ? (_ & _ & Hlt) _ _|(_ & _ & Hlt) _|? ? ? ? ? (_ & _ & Hlt) _ _ _];
      cbn; try (left; lia); try by right.
  - left. unfold insert_grant in Hi. by repeat (case_match; simplify_eq).
Qed.

Lemma changed_counters (s : PersistedState) (op : operation) (next : StateHashPayload)
    (draft : HistoryDraft) (allowed : bool) (category : PermissionCategory) (n : Z) :
  changed s op next draft allowed →
  (∀ category n, sp_auto_use_counters (st_payload s) !! category = Some n → is_u32 n) →
  sp_auto_use_counters next !! category = Some n → is_u32 n.
Proof.
  intros Hch Hs. destruct Hch as [request env allowed reason kind now next _ _ Hd| |g ts next _ Hi _| | |];
    cbn; try apply Hs.
  - destruct Hd as [|id0 g0 next Hr Hg Hm Hc|index rule next _ _ _ Hc| | | |
      decision ? base g0 next _ Ha Hap Hi]; cbn; try apply Hs.
    + unfold consume_grant in Hc. rewrite Hg in Hc. repeat (case_match; simplify_eq); apply Hs.
    + unfold count_auto_use, checked_add in Hc. destruct (_ <=? u32_max) eqn:El; [|done].
      injection Hc as <-. cbn. rewrite lookup_insert_Some. intros [[<- <-]|[_ Hl]]; [|by eapply Hs].
      bool_to_prop. unfold is_u32.
      destruct (sp_auto_use_counters (st_payload s) !! rq_category request) as [m|] eqn:Em;
        cbn in *; [apply Hs in Em; unfold is_u32 in Em|]; lia.
    + assert (sp_auto_use_counters next = sp_auto_use_counters (st_payload s)) as ->; [|apply Hs].
      unfold insert_grant in Hi. repeat (case_match; simplify_eq); by inversion Hap; subst.
  - unfold insert_grant in Hi. repeat (case_match; simplify_eq); apply Hs.
Qed.

Lemma changed_time (s : PersistedState) (op : operation) (next : StateHashPayload)
    (draft : HistoryDraft) (allowed : bool) :
  op_typed op → changed s op next draft allowed → is_u64 (hd_timestamp_unix_ms draft).
Proof.
  intros Ht Hch. destruct Hch as [request env ? ? ? ? ? _ _ Hd| |g ts ? _ _ _| | |]; cbn in *;
    try apply Ht. destruct Hd as [| | | |? ? ? _ _ [-> | ->]| |]; apply Ht.
Qed.

Lemma stepped_typed (c : call) (s s' : PersistedState) :
  op_typed c.1 → payload_typed (st_payload s) → stepped c s s' → payload_typed (st_payload s').
Proof.
  intros Ht [Hg Hcf Hgr Hco Hpr Hh] Hst. destruct (stepped_keeps _ _ _ Hst) as (Ecf & _ & Eg).
  destruct Hst as (next & draft & event & allowed & ev & Hch & Hc).
  pose proof (com_generation _ _ _ _ _ _ _ Hc). unfold is_u64 in Hg.
  constructor.
  - rewrite Eg. unfold is_u64. lia.
  - by rewrite Ecf.
  - rewrite (com_payload _ _ _ _ _ _ _ Hc). cbn. intros id g Hl.
    destruct (changed_grants _ _ _ _ _ _ _ Hch Hl) as [g Hb|g uses Hb Hu Hz _|
      request env decision reason base g Eop Ha Hap _|g ts Eop _ _].
    + by eapply Hgr.
    + destruct (Hgr _ _ Hb) as [G1 G2 G3]. constructor; [done..|]. cbn. intros n [= <-].
      specialize (G3 uses Hu). unfold is_u32 in *. lia.
    + rewrite Eop in Ht. by eapply approval_typed.
    + rewrite Eop in Ht. apply Ht.
  - rewrite (com_payload _ _ _ _ _ _ _ Hc). cbn. intros category n.
    by apply (changed_counters _ _ _ _ _ _ _ Hch).
  - rewrite (com_payload _ _ _ _ _ _ _ Hc). cbn. destruct Hcf as (_ & Hb & _).
    apply in_range_true in Hb. unfold is_u32 in *.
    destruct (changed_prompts _ _ _ _ _ Hch) as [->|[-> ?]]; lia.
  - rewrite (com_payload _ _ _ _ _ _ _ Hc). cbn.
    destruct (changed_keeps _ _ _ _ _ Hch) as (_ & -> & _). apply Forall_app. split; [done|].
    constructor; [|done]. split; cbn; [unfold is_u64; lia|]. by eapply changed_time.
Qed.

(** C26: Every number of the state stays in the range of its type when those of the calls are:
    generations and times in 64 bits, uses, counters and prompts in 32.  So
    [prompts_used += 1], [remaining - 1] and [uses - 1], which the code does not check, never
    overflow and never go below zero. *)
Theorem numbers_stay_in_range (session_id : list Z) (config : SupervisorConfig)
    (s : PersistedState) (calls : list call) :
  config_wf config → new_supervisor session_id config = Ok s →
  Forall (λ c : call, op_typed c.1) calls → payload_typed (st_payload (run calls s).1).
Proof.
  intros Hcf Hnew Hcalls.
  apply (run_keeps (λ c : call, op_typed c.1) (λ s, payload_typed (st_payload s))); [|done|].
  - intros c t t' Hc Ht Hst. by eapply stepped_typed.
  - unfold new_supervisor in Hnew. destruct (validate_config config); [|done]. cbv zeta in Hnew.
    destruct (compute_state_hash _); [|done]. injection Hnew as <-.
    constructor; cbn; [done|done|by intros ? ? ?|by intros ? ? ?|done|constructor].
Qed.

(** ** Invalid approvals *)

(** An approval that [validate_pattern] or [validate_grant_limits] refuses, or [DenyAlways] when
    there is no room for a rule, is an error that leaves no trace: the prompt is not counted and
    the request may be asked again. *)
Lemma invalid_approval_is_free (sink : PermissionEvent → result (list Z) unit)
    (s : PersistedState) (request : PermissionRequest) (risk : RiskLevel) (now : Z)
    (decision : ApprovalDecision) :
  allow_session_grants (sp_config (st_payload s)) = true →
  match decision with
  | ApproveSession expiry uses => validate_grant_limits uses expiry now ≠ Ok tt
  | ApprovePattern pattern expiry uses =>
      validate_pattern pattern (limits (sp_config (st_payload s))) ≠ Ok tt ∨
      validate_grant_limits uses expiry now ≠ Ok tt
  | DenyAlways => max_deny_rules (limits (sp_config (st_payload s))) ≤
                  Z.of_nat (size (sp_deny_rules (st_payload s)))
  | _ => False
  end →
  ∃ e, apply_approval_decision sink s request risk decision now = (Err e, s, []).
Proof.
  intros Ha Hd. unfold apply_approval_decision, fail. cbv zeta. rewrite Ha. cbn [negb].
  destruct decision as [|expiry uses|pattern expiry uses| |]; try done.
  - destruct (validate_grant_limits _ _ _) as [[]|]; [done|by eexists].
  - destruct (validate_pattern _ _) as [[]|]; [|by eexists].
    destruct (validate_grant_limits _ _ _) as [[]|]; [|by eexists]. by destruct Hd.
  - apply Z.leb_le in Hd. rewrite Hd. by eexists.
Qed.

End Limits.

(** ** A session *)

Module PermissionLimitsSample.
Import PermissionSample PermissionSafetySample.

Lemma supervisor_invariant_witness :
  validate_state granted = Ok tt ∧
  sp_prompts_used (st_payload granted) ≤ prompt_budget SupervisorConfig_default.
Proof.
  destruct (supervisor_invariant session SupervisorConfig_default granted (proj1 session_wf)
    (proj2 session_wf) default_wf granted_reachable) as (H & _ & _ & _ & _ & _ & _ & _ & Hp & _).
  exact (conj H Hp).
Defined.

(** The first request, asked again after the second one. *)
Definition again : PermissionRequest := request "r1" "cargo build".

Definition reusing : call := (OpEvaluate (request "r2" "cargo test") (asking Deny 2000), accepting).

Definition later : PersistedState := (run [reusing] granted).1.

Lemma first_recorded :
  bool_decide ((evaluate_with_cancellation accepting started (request "r1" "cargo test")
    granting).2 = []) = false.
Proof. by vm_compute. Qed.

Lemma again_valid :
  match validate_request again (limits (sp_config (st_payload later))) with
  | Ok tt => true | Err _ => false
  end = true.
Proof. by vm_compute. Qed.

Lemma decided_once_witness :
  evaluate_with_cancellation accepting later again (asking ApproveOnce 3000) =
  (Err (Replay (str "r1")), later, []).
Proof.
  pose proof (decided_once accepting accepting started (request "r1" "cargo test") again granting
    (asking ApproveOnce 3000) [reusing]) as H.
  pose proof first_recorded as Hr. pose proof again_valid as Hv.
  unfold later, granted, evaluate in *.
  destruct (evaluate_with_cancellation accepting started (request "r1" "cargo test") granting)
    as [[r s1] events]. cbv zeta in H. cbn [fst snd] in *.
  apply bool_decide_eq_false in Hr. apply H; [exact Hr|reflexivity|].
  destruct (validate_request again _) as [[]|]; [reflexivity|discriminate Hv].
Defined.

Lemma grant_uses_bounded_witness :
  grant_uses (str "grant-1") (st_payload later) ≤ grant_uses (str "grant-1") (st_payload granted) + 2.
Proof.
  pose proof granted_grant as H.
  destruct (sp_grants (st_payload granted) !! str "grant-1") as [g|] eqn:Eg; [|discriminate H].
  apply (grant_uses_bounded session SupervisorConfig_default granted [reusing] (str "grant-1") g 2
    granted_reachable Eg).
  - cbn in H. congruence.
  - lia.
  - constructor; [|constructor]. intros g' timestamp He. discriminate He.
Defined.

Lemma asking_typed (decision : ApprovalDecision) (now : Z) :
  decision_typed decision → 0 ≤ now → now + 5 ≤ u64_max → env_typed (asking decision now).
Proof.
  intros Hd H1 H2. constructor; cbn; [split; lia..|].
  intros approve r c d [= <-] [= <-]. done.
Qed.

Lemma numbers_stay_in_range_witness :
  payload_typed (st_payload (run [approving; reusing] started).1).
Proof.
  apply (numbers_stay_in_range session SupervisorConfig_default started _ default_wf started_new).
  apply Forall_cons. split; [|apply Forall_singleton]; apply asking_typed; try done.
  split; [done|]. intros n [= <-]. done.
Defined.

End PermissionLimitsSample.
