(* ===== verification/Session.v ===== *)
(** * The security session ([crates/sendbox-session-security/src/lifecycle.rs])

    A session is prepared by a fixed sequence of hooks, records what happens in the audit log,
    and is finalized once.  The hooks are traits that the host implements: a hook is a reply
    that may depend on all that happened before, and while it runs others may write to the
    shared log.  [World] is what the hooks and the log have seen; an operation is a function of
    it.  The sink of the permission supervisor writes to the same log ([record_permission]).

    The theorems are in [SessionSafety]. *)

From S2P Require Import Prelude RustStr Net Glob Digest AuditLog Permission PermissionSample PermissionSafety.

(** ** Errors *)

Inductive SessionSecurityError : Type :=
| Operation (stage message : list Z)
| InvalidState (expected actual : list Z)
| FailureAggregate (stage primary : list Z) (rollback cleanup : option (list Z)).

Notation SessionSecurityResult := (result SessionSecurityError).

(** The [Display] text of the errors of the log.  [SecIo] and [SecSizeLimit] are errors of the
    store of logs, which carry a path; the recorder does not use the store. *)
Definition security_error_text (error : SecurityError) : list Z :=
  match error with
  | SecIo _ => str "open failed"
  | SecSizeLimit limit => str "size limit exceeded: limit " ++ show_dec limit ++ str " bytes"
  | SecUnsupportedVersion format version =>
      str "unsupported persisted format " ++ format ++ str " version " ++ show_dec version
  | SecMalformed format detail => str "malformed " ++ format ++ str ": " ++ detail
  | SecIntegrity detail => str "integrity verification failed: " ++ detail
  end.

Definition operation_error (stage message : list Z) : SessionSecurityError :=
  Operation stage message.

(** ** What the hooks exchange *)

Inductive SubjectKind : Type := Content | Configuration | Artifact.

Record SignedSubject : Type := {
  ss_kind : SubjectKind;
  ss_sha256 : list Z;
  ss_name : option (list Z);
}.

Record VerificationResult : Type := {
  vr_subject : SignedSubject;
  vr_valid_signers : gset (list Z);
}.

Inductive SnapshotEntryKind : Type :=
| Directory
| Regular (content_hash : list Z) (size : Z)
| Symlink (target : list Z)
| Hardlink (source : list Z) (size : Z).

Record SnapshotEntry : Type := {
  se_path : list Z;
  se_mode : Z;
  se_kind : SnapshotEntryKind;
}.

Record SnapshotManifest : Type := {
  sm_format : list Z;
  sm_version : Z;
  sm_id : list Z;
  sm_entries : list SnapshotEntry;
  sm_total_size : Z;
}.

Record SnapshotDiff : Type := {
  sd_added : list (list Z);
  sd_modified : list (list Z);
  sd_deleted : list (list Z);
  sd_unchanged : list (list Z);
}.

Record PreparedCredentialRules : Type := {
  pc_rule_count : Z;
  pc_preparation_id : list Z;
}.

Record PreparedSecretEnvelope : Type := {
  pe_secret_name : list Z;
  pe_sequence : Z;
  pe_expires_at_unix_ms : Z;
  pe_encoded : list Z;
}.

Record AuditPublication : Type := { ap_signature : option (list Z) }.

Record AuditSummary : Type := {
  as_event_count : Z;
  as_merkle_root : list Z;
  as_head_hash : list Z;
}.

Inductive SessionOutcome : Type := Completed | Failed (reason : list Z).

Inductive LifecycleState : Type := StRunning | StCompleted | StFailed.

#[global] Instance LifecycleState_eq_dec : EqDecision LifecycleState.
Proof. solve_decision. Defined.

Definition state_name (state : LifecycleState) : list Z :=
  match state with
  | StRunning => str "running"
  | StCompleted => str "completed"
  | StFailed => str "failed"
  end.

Record FinalizationReport : Type := {
  fr_outcome : SessionOutcome;
  fr_after_snapshot : SnapshotManifest;
  fr_diff : SnapshotDiff;
  fr_audit : AuditSummary;
  fr_publication : AuditPublication;
}.

(** What is written to the log in one call. *)
Record Entry : Type := {
  en_timestamp : Z;
  en_category : AuditCategory;
  en_action : list Z;
  en_subject : list Z;
  en_result : AuditResult;
  en_metadata : metadata_map;
}.

(** [BTreeMap::from], of different keys *)
Definition btree_from (entries : list (list Z * list Z)) : metadata_map := list_to_map entries.

Section Session.
Context {sha : Sha256Api} {event_json : Serde AuditEvent}.

(** Data that only the hooks look into. *)
Context {ProvenanceDocument SecretEnvelopeRequest CredentialPolicy : Type}.

(** The text of [{:?}] of a string. *)
Variable debug_str : list Z → list Z.

Definition debug_option (o : option (list Z)) : list Z :=
  match o with Some s => str "Some(" ++ debug_str s ++ str ")" | None => str "None" end.

Definition error_display (error : SessionSecurityError) : list Z :=
  match error with
  | Operation stage message => stage ++ str " failed: " ++ message
  | InvalidState expected actual =>
      str "invalid lifecycle state: expected " ++ expected ++ str ", found " ++ actual
  | FailureAggregate stage primary rollback cleanup =>
      stage ++ str " failed: " ++ primary ++ str "; rollback: " ++ debug_option rollback ++
      str "; cleanup: " ++ debug_option cleanup
  end.

(** ** The world *)

Inductive HookCall : Type :=
| CallVerifyPolicy (document : ProvenanceDocument)
| CallVerifyConfig (document : ProvenanceDocument)
| CallCaptureBefore
| CallCaptureAfter
| CallDiff (before after : SnapshotManifest)
| CallRollback (before : SnapshotManifest)
| CallPrepareSecret (request : SecretEnvelopeRequest)
| CallPrepareRules (policies : list CredentialPolicy)
| CallListenerReady (prepared : PreparedCredentialRules) (maximum_requests : Z)
| CallSupervisorReady
| CallPublish (merkle_root head_hash : list Z)
| CallCleanup.

Record World : Type := {
  w_log : AuditLog;
  w_calls : list HookCall;
}.

(** The replies of the hooks, the clock, and what others write to the log meanwhile. *)
Record LifecycleHooks : Type := {
  hk_verify_policy : World → SessionSecurityResult VerificationResult;
  hk_verify_config : World → SessionSecurityResult VerificationResult;
  hk_capture_before : World → SessionSecurityResult SnapshotManifest;
  hk_capture_after : World → SessionSecurityResult SnapshotManifest;
  hk_diff : World → SessionSecurityResult SnapshotDiff;
  hk_rollback : World → SessionSecurityResult unit;
  hk_prepare_secret : World → SessionSecurityResult PreparedSecretEnvelope;
  hk_prepare_rules : World → SessionSecurityResult PreparedCredentialRules;
  hk_listener_ready : World → SessionSecurityResult unit;
  hk_supervisor_ready : World → SessionSecurityResult SupervisorCheckpoint;
  hk_publish : World → SessionSecurityResult AuditPublication;
  hk_cleanup : World → SessionSecurityResult unit;
  hk_clock : World → Z;
  hk_others : World → list Entry;
}.

Record PrepareRequest : Type := {
  pr_policy_provenance : ProvenanceDocument;
  pr_config_provenance : ProvenanceDocument;
  pr_secret_requests : list SecretEnvelopeRequest;
  pr_credential_policies : list CredentialPolicy;
  pr_credential_listener_maximum_requests : Z;
}.

Record PreparedSession : Type := {
  ps_policy_verification : VerificationResult;
  ps_config_verification : VerificationResult;
  ps_before_snapshot : SnapshotManifest;
  ps_secret_envelopes : list PreparedSecretEnvelope;
  ps_credential_rules : PreparedCredentialRules;
  ps_supervisor_checkpoint : SupervisorCheckpoint;
}.

Record SecuritySession : Type := {
  s_session_id : list Z;
  s_prepared : PreparedSession;
  s_state : LifecycleState;
}.

(** ** The recorder *)

Definition append_entry (log : AuditLog) (entry : Entry) : SecurityResult (AuditLog * AuditRecord) :=
  append log (en_timestamp entry) (en_category entry) (en_action entry) (en_subject entry)
    (en_result entry) (en_metadata entry).

(** What others write: an entry that is refused leaves the log as it is. *)
Definition append_others (log : AuditLog) (entries : list Entry) : AuditLog :=
  foldl (λ log entry, match append_entry log entry with Ok (log, _) => log | Err _ => log end)
    log entries.

Section Hooks.
Variable hooks : LifecycleHooks.

Definition action (A : Type) : Type := World → SessionSecurityResult A * World.

Definition ret {A : Type} (x : A) : action A := λ w, (Ok x, w).
Definition throw {A : Type} (e : SessionSecurityError) : action A := λ w, (Err e, w).

(** [?]: the first error ends the sequence *)
Definition bind {A B : Type} (m : action A) (f : A → action B) : action B := λ w,
  match m w with
  | (Ok x, w) => f x w
  | (Err e, w) => (Err e, w)
  end.

#[local] Notation "'let!' x := m 'in' k" := (bind m (λ x, k))
  (at level 200, x name, m at level 100, k at level 200, right associativity).
#[local] Notation "'do!' m 'in' k" := (bind m (λ _, k))
  (at level 200, m at level 100, k at level 200, right associativity).

(** The others' turn. *)
Definition others (w : World) : World :=
  {| w_log := append_others (w_log w) (hk_others hooks w); w_calls := w_calls w |}.

(** The reply is that to the last call. *)
Definition hook {A : Type} (call : HookCall) (reply : World → SessionSecurityResult A) : action A :=
  λ w, let w := {| w_log := w_log w; w_calls := w_calls w ++ [call] |} in (reply w, others w).

(** [AuditRecorder::record] at the time of the clock.  The lock is never poisoned: nothing that
    holds it panics. *)
Definition record (category : AuditCategory) (act subject : list Z) (res : AuditResult)
    (metadata : metadata_map) : action AuditRecord :=
  λ w, let timestamp := hk_clock hooks w in
       let w := others w in
       match append (w_log w) timestamp category act subject res metadata with
       | Ok (log, record) => (Ok record, {| w_log := log; w_calls := w_calls w |})
       | Err e => (Err (operation_error (str "audit_append") (security_error_text e)), w)
       end.

(** [AuditRecorder::snapshot], its summary *)
Definition summary_of (log : AuditLog) : AuditSummary :=
  {| as_event_count := Z.of_nat (length (l_records log)); as_merkle_root := merkle_root log;
     as_head_hash := match last (l_records log) with Some r => r_hash r | None => [] end |}.

Definition audit_summary : action AuditSummary :=
  λ w, let w := others w in
       match verify (w_log w) with
       | Ok _ => (Ok (summary_of (w_log w)), w)
       | Err e => (Err (operation_error (str "audit_verify") (security_error_text e)), w)
       end.

Definition record_lifecycle (act subject : list Z) (res : AuditResult) : action unit :=
  let! r := record CatLifecycle act subject res {[ str "audit_version" := show_dec AUDIT_FORMAT_VERSION ]} in
  if negb (length (ev_session_id (r_event r)) =? 32)%nat
  then throw (operation_error (str "audit_session_identity")
              (str "audit session ID is not canonical 32-character hexadecimal"))
  else ret ().

(** ** Preparation *)

Fixpoint prepare_secrets (requests : list SecretEnvelopeRequest)
  : action (list PreparedSecretEnvelope) :=
  match requests with
  | [] => ret []
  | request :: requests =>
      let! envelope := hook (CallPrepareSecret request) (hk_prepare_secret hooks) in
      do! record CatSecret (str "secret_envelope_prepared") (pe_secret_name envelope) ResSuccess
            {[ str "sequence" := show_dec (pe_sequence envelope) ]} in
      let! envelopes := prepare_secrets requests in
      ret (envelope :: envelopes)
  end.

(** From the prepared secrets on. *)
Definition prepare_ready (session_id : list Z) (request : PrepareRequest)
    (policy config : VerificationResult) (captured : SnapshotManifest)
    (envelopes : list PreparedSecretEnvelope) : action PreparedSession :=
  let! rules := hook (CallPrepareRules (pr_credential_policies request)) (hk_prepare_rules hooks) in
  do! hook (CallListenerReady rules (pr_credential_listener_maximum_requests request))
        (hk_listener_ready hooks) in
  let! cp := hook CallSupervisorReady (hk_supervisor_ready hooks) in
  do! record CatPermission (str "permission_supervisor_ready") (hex_encode session_id) ResSuccess
        (btree_from [(str "generation", show_dec (cp_generation cp));
                     (str "state_hash", cp_state_hash cp)]) in
  ret {| ps_policy_verification := policy; ps_config_verification := config;
         ps_before_snapshot := captured; ps_secret_envelopes := envelopes;
         ps_credential_rules := rules; ps_supervisor_checkpoint := cp |}.

(** From the captured snapshot on. *)
Definition prepare_captured (session_id : list Z) (request : PrepareRequest)
    (policy config : VerificationResult) (captured : SnapshotManifest) : action PreparedSession :=
  do! record_lifecycle (str "session_prepare") (hex_encode session_id) ResSuccess in
  do! record_lifecycle (str "policy_provenance_verified") (ss_sha256 (vr_subject policy))
        ResSuccess in
  do! record_lifecycle (str "config_provenance_verified") (ss_sha256 (vr_subject config))
        ResSuccess in
  do! record CatSnapshot (str "before_snapshot_captured") (sm_id captured) ResSuccess ∅ in
  let! envelopes := prepare_secrets (pr_secret_requests request) in
  prepare_ready session_id request policy config captured envelopes.

(** The closure of [prepare], with the snapshot that it leaves in [before_snapshot]. *)
Definition prepare_body (session_id : list Z) (request : PrepareRequest) (w : World)
  : SessionSecurityResult PreparedSession * option SnapshotManifest * World :=
  match (let! policy := hook (CallVerifyPolicy (pr_policy_provenance request)) (hk_verify_policy hooks) in
         let! config := hook (CallVerifyConfig (pr_config_provenance request)) (hk_verify_config hooks) in
         let! captured := hook CallCaptureBefore (hk_capture_before hooks) in
         ret (policy, config, captured)) w with
  | (Err e, w) => (Err e, None, w)
  | (Ok (policy, config, captured), w) =>
      let '(r, w) := prepare_captured session_id request policy config captured w in
      (r, Some captured, w)
  end.

(** The error of a hook, as text. *)
Definition error_text_of (r : SessionSecurityResult unit) : option (list Z) :=
  match r with Ok _ => None | Err e => Some (error_display e) end.

Definition prepare (session_id : list Z) (request : PrepareRequest)
    : SessionSecurityResult SecuritySession * option World :=
  match new_log (hex_encode session_id) with
  | Err e => (Err (operation_error (str "audit_initialize") (security_error_text e)), None)
  | Ok log =>
      let w := {| w_log := log; w_calls := [] |} in
      match prepare_body session_id request w with
      | (Ok prepared, _, w) =>
          (Ok {| s_session_id := session_id; s_prepared := prepared; s_state := StRunning |}, Some w)
      | (Err primary, before, w) =>
          let '(rollback, w) :=
            match before with
            | Some snapshot =>
                let '(r, w) := hook (CallRollback snapshot) (hk_rollback hooks) w in
                (error_text_of r, w)
            | None => (None, w)
            end in
          let '(r, w) := hook CallCleanup (hk_cleanup hooks) w in
          (Err (FailureAggregate (str "prepare") (error_display primary) rollback (error_text_of r)),
           Some w)
      end
  end.

(** ** Running *)

Definition record_event (s : SecuritySession) (entry : Entry) (w : World)
  : SessionSecurityResult AuditRecord * World :=
  if negb (bool_decide (s_state s = StRunning))
  then (Err (InvalidState (str "running") (state_name (s_state s))), w)
  else
    let w := others w in
    match append_entry (w_log w) entry with
    | Ok (log, record) => (Ok record, {| w_log := log; w_calls := w_calls w |})
    | Err e => (Err (operation_error (str "audit_append") (security_error_text e)), w)
    end.

(** ** Finalization *)

Definition set_state (s : SecuritySession) (state : LifecycleState) : SecuritySession :=
  {| s_session_id := s_session_id s; s_prepared := s_prepared s; s_state := state |}.

Definition combine_operation_and_audit_error (operation audit : option (list Z))
  : option (list Z) :=
  match operation, audit with
  | Some operation, Some audit => Some (operation ++ str "; audit recording also failed: " ++ audit)
  | Some operation, None => Some operation
  | None, Some audit => Some (str "audit recording failed: " ++ audit)
  | None, None => None
  end.

(** A hook whose result is recorded. *)
Definition recorded_hook (call : HookCall) (reply : World → SessionSecurityResult unit)
    (category : AuditCategory) (act subject : list Z) (w : World) : option (list Z) * World :=
  let '(r, w) := hook call reply w in
  let error := error_text_of r in
  let '(recorded, w) :=
    record category act subject (match r with Ok _ => ResSuccess | Err _ => ResError end)
      (match error with Some message => {[ str "error" := message ]} | None => ∅ end) w in
  (combine_operation_and_audit_error error
     (match recorded with Ok _ => None | Err e => Some (error_display e) end), w).

Definition rollback_with_audit (s : SecuritySession) : World → option (list Z) * World :=
  let before := ps_before_snapshot (s_prepared s) in
  recorded_hook (CallRollback before) (hk_rollback hooks) CatSnapshot (str "snapshot_rollback")
    (sm_id before).

Definition cleanup_with_audit (s : SecuritySession) : World → option (list Z) * World :=
  recorded_hook CallCleanup (hk_cleanup hooks) CatLifecycle (str "session_cleanup")
    (hex_encode (s_session_id s)).

Definition publish_audit (audit : AuditSummary) : action AuditPublication :=
  hook (CallPublish (as_merkle_root audit) (as_head_hash audit)) (hk_publish hooks).

Definition finalization_primary (outcome : SessionOutcome) (operation_error : list Z) : list Z :=
  match outcome with
  | Completed => operation_error
  | Failed reason =>
      str "session failed: " ++ reason ++ str "; finalization also failed: " ++ operation_error
  end.

Definition finalized : Type :=
  SessionSecurityResult FinalizationReport * SecuritySession * World.

Definition abort (s : SecuritySession) (stage primary : list Z) (w : World) : finalized :=
  let '(recorded, w) :=
    record CatLifecycle (str "session_abort") stage ResError {[ str "primary" := primary ]} w in
  let primary :=
    match recorded with
    | Ok _ => primary
    | Err e => primary ++ str "; failure audit recording also failed: " ++ error_display e
    end in
  let '(rollback, w) := rollback_with_audit s w in
  let '(cleanup, w) := cleanup_with_audit s w in
  let '(audit, w) := audit_summary w in
  let '(primary, w) :=
    match audit with
    | Err _ => (primary, w)
    | Ok audit =>
        match publish_audit audit w with
        | (Ok _, w) => (primary, w)
        | (Err e, w) => (primary ++ str "; audit publication also failed: " ++ error_display e, w)
        end
    end in
  (Err (FailureAggregate stage primary rollback cleanup), set_state s StFailed, w).

(** A session that failed: from the record of its outcome on. *)
Definition finalize_failed (s : SecuritySession) (reason : list Z) (after : SnapshotManifest)
    (diff : SnapshotDiff) (w : World) : finalized :=
  let '(rollback, w) := rollback_with_audit s w in
  let '(cleanup, w) := cleanup_with_audit s w in
  let s := set_state s StFailed in
  match audit_summary w with
  | (Err e, w) => (Err e, s, w)
  | (Ok audit, w) =>
      let '(publication, w) := publish_audit audit w in
      match rollback, cleanup, publication with
      | None, None, Ok publication =>
          (Ok {| fr_outcome := Failed reason; fr_after_snapshot := after; fr_diff := diff;
                 fr_audit := audit; fr_publication := publication |}, s, w)
      | _, _, _ =>
          (Err (FailureAggregate (str "failure_finalize")
             (match publication with
              | Ok _ => reason
              | Err e => reason ++ str "; audit publication also failed: " ++ error_display e
              end) rollback cleanup), s, w)
      end
  end.

(** A session that completed: from the record of its outcome on.  The errors of the summary
    leave the state as it is. *)
Definition finalize_completed (s : SecuritySession) (after : SnapshotManifest)
    (diff : SnapshotDiff) (w : World) : finalized :=
  let '(cleanup, w) := cleanup_with_audit s w in
  match cleanup with
  | Some cleanup_error =>
      let '(rollback, w) := rollback_with_audit s w in
      match audit_summary w with
      | (Err e, w) => (Err e, s, w)
      | (Ok audit, w) =>
          let '(publication, w) := publish_audit audit w in
          (Err (FailureAggregate (str "finalize_cleanup")
             (match publication with
              | Ok _ => cleanup_error
              | Err e => cleanup_error ++ str "; audit publication also failed: " ++ error_display e
              end) rollback (Some cleanup_error)), set_state s StFailed, w)
      end
  | None =>
      match audit_summary w with
      | (Err e, w) => (Err e, s, w)
      | (Ok audit, w) =>
          match publish_audit audit w with
          | (Err e, w) =>
              let '(rollback, w) := rollback_with_audit s w in
              (Err (FailureAggregate (str "audit_publication") (error_display e) rollback None),
               set_state s StFailed, w)
          | (Ok publication, w) =>
              (Ok {| fr_outcome := Completed; fr_after_snapshot := after; fr_diff := diff;
                     fr_audit := audit; fr_publication := publication |},
               set_state s StCompleted, w)
          end
      end
  end.

Definition outcome_result (outcome : SessionOutcome) : AuditResult :=
  match outcome with Completed => ResSuccess | Failed _ => ResError end.

Definition outcome_name (outcome : SessionOutcome) : list Z :=
  match outcome with Completed => str "completed" | Failed _ => str "failed" end.

Definition finalize (s : SecuritySession) (outcome : SessionOutcome) (w : World) : finalized :=
  if negb (bool_decide (s_state s = StRunning))
  then (Err (InvalidState (str "running") (state_name (s_state s))), s, w)
  else
    match hook CallCaptureAfter (hk_capture_after hooks) w with
    | (Err e, w) =>
        abort s (str "finalize") (finalization_primary outcome (error_display e)) w
    | (Ok after, w) =>
        match hook (CallDiff (ps_before_snapshot (s_prepared s)) after) (hk_diff hooks) w with
        | (Err e, w) =>
            abort s (str "finalize") (finalization_primary outcome (error_display e)) w
        | (Ok diff, w) =>
            match record CatLifecycle (str "session_finalized") (outcome_name outcome)
                    (outcome_result outcome)
                    (btree_from [(str "added", show_dec (Z.of_nat (length (sd_added diff))));
                                 (str "deleted", show_dec (Z.of_nat (length (sd_deleted diff))));
                                 (str "modified", show_dec (Z.of_nat (length (sd_modified diff))))])
                    w with
            | (Err e, w) =>
                abort s (str "finalize") (finalization_primary outcome (error_display e)) w
            | (Ok _, w) =>
                match outcome with
                | Failed reason => finalize_failed s reason after diff w
                | Completed => finalize_completed s after diff w
                end
            end
        end
    end.

End Hooks.

(** ** Permission events *)

(** [AuditPermissionEventSink::record] *)
Definition permission_entry (event : PermissionEvent) : result (list Z) Entry :=
  match checked_mul u64_max (pe_timestamp_unix_ms event) 1000000 with
  | None => Err (str "permission event timestamp overflows nanoseconds")
  | Some timestamp =>
      Ok {| en_timestamp := timestamp; en_category := CatPermission;
            en_action := pe_action event; en_subject := pe_subject event;
            en_result := if pe_allowed event then ResAllowed else ResDenied;
            en_metadata :=
              btree_from [(str "category", category_as_str (pe_category event));
                          (str "generation", show_dec (pe_generation event));
                          (str "state_hash", pe_state_hash event)] |}
  end.

Definition record_permission (log : AuditLog) (event : PermissionEvent)
  : result (list Z) AuditLog :=
  let? entry := permission_entry event in
  match append_entry log entry with
  | Ok (log, _) => Ok log
  | Err e => Err (error_display (operation_error (str "audit_append") (security_error_text e)))
  end.

End Session.
