(* ===== verification/SessionSafety.v ===== *)
(** * What the security session guarantees

    Which hooks run, in which order, on every path of [Session]: a session that does not
    complete is rolled back and cleaned up, a session is finalized once, and what is published
    is the root and the head of a log that verifies and holds the record of the outcome.  The
    permission records of the shared log are the changes of the supervisor. *)

From S2P Require Import Prelude RustStr Net Glob Digest AuditLog Permission PermissionSample PermissionSafety Session.

Section Safety.
Context {sha : Sha256Api} {sha_laws : Sha256Laws sha}
        {event_json : Serde AuditEvent} {event_laws : SerdeLaws AuditEvent}.
Context {ProvenanceDocument SecretEnvelopeRequest CredentialPolicy : Type}.
Variable debug_str : list Z → list Z.

#[local] Notation World := (@World ProvenanceDocument SecretEnvelopeRequest CredentialPolicy).
#[local] Notation HookCall := (@HookCall ProvenanceDocument SecretEnvelopeRequest CredentialPolicy).
#[local] Notation LifecycleHooks :=
  (@LifecycleHooks ProvenanceDocument SecretEnvelopeRequest CredentialPolicy).

#[local] Notation PrepareRequest :=
  (@PrepareRequest ProvenanceDocument SecretEnvelopeRequest CredentialPolicy).

(** ** The log only grows *)

Record log_grows (log log' : AuditLog) : Prop := {
  lg_session : l_session_id log' = l_session_id log;
  lg_prefix : l_records log `prefix_of` l_records log';
  lg_chained : chained log → chained log';
}.

#[global] Instance log_grows_preorder : PreOrder log_grows.
Proof.
  split.
  - by intros log.
  - intros l1 l2 l3 [S1 P1 C1] [S2 P2 C2]. split; [congruence|by trans (l_records l2)|auto].
Qed.

Lemma append_shape (log log' : AuditLog) (ts : Z) (category : AuditCategory)
    (act subject : list Z) (res : AuditResult) (metadata : metadata_map) (r : AuditRecord) :
  append log ts category act subject res metadata = Ok (log', r) →
  log' = {| l_session_id := l_session_id log; l_records := l_records log ++ [r] |} ∧
  ev_session_id (r_event r) = l_session_id log ∧ ev_category (r_event r) = category ∧
  ev_action (r_event r) = act ∧ ev_subject (r_event r) = subject ∧ ev_result (r_event r) = res ∧
  ev_metadata (r_event r) = metadata.
Proof.
  unfold append. destruct (validate_metadata _); [|done]. do 2 (destruct (validate_text _ _ _); [|done]).
  cbv zeta. destruct (chain_hash _ _); [|done]. intros [= <- <-]. done.
Qed.

Lemma append_grows (log log' : AuditLog) (ts : Z) (category : AuditCategory)
    (act subject : list Z) (res : AuditResult) (metadata : metadata_map) (r : AuditRecord) :
  append log ts category act subject res metadata = Ok (log', r) → log_grows log log'.
Proof.
  intros Ha. split.
  - by destruct (append_shape _ _ _ _ _ _ _ _ _ Ha) as [-> _].
  - destruct (append_shape _ _ _ _ _ _ _ _ _ Ha) as [-> _]. by exists [r].
  - intros Hc. pose proof (append_chained log ts category act subject res metadata Hc) as H.
    rewrite Ha in H. apply H.
Qed.

Lemma append_others_grows (log : AuditLog) (entries : list Entry) :
  log_grows log (append_others log entries).
Proof.
  revert log. induction entries as [|entry entries IH]; intros log; cbn; [done|].
  etrans; [|apply IH]. unfold append_entry. destruct (append _ _ _ _ _ _ _) as [[log' r]|] eqn:Ea;
    [|done]. by eapply append_grows.
Qed.

(** ** Steps *)

(** The calls that were made, and that the log grew. *)
Record ran (w : World) (calls : list HookCall) (w' : World) : Prop := {
  ran_calls : w_calls w' = w_calls w ++ calls;
  ran_log : log_grows (w_log w) (w_log w');
}.

Lemma ran_refl (w : World) : ran w [] w.
Proof. split; [by rewrite app_nil_r|done]. Qed.

Lemma ran_trans (w1 w2 w3 : World) (c1 c2 : list HookCall) :
  ran w1 c1 w2 → ran w2 c2 w3 → ran w1 (c1 ++ c2) w3.
Proof. intros [C1 G1] [C2 G2]. split; [by rewrite C2, C1, app_assoc|by etrans]. Qed.

Section Hooks.
Variable hooks : LifecycleHooks.

Lemma others_ran (w : World) : ran w [] (others hooks w).
Proof. split; [by rewrite app_nil_r|apply append_others_grows]. Qed.

Lemma hook_ran {A : Type} (call : HookCall) (reply : World → SessionSecurityResult A) (w : World) :
  ran w [call] (hook hooks call reply w).2 ∧
  ∃ w1, w_calls w1 = w_calls w ++ [call] ∧ (hook hooks call reply w).1 = reply w1.
Proof.
  split; [|by exists {| w_log := w_log w; w_calls := w_calls w ++ [call] |}]. change [call] with ([call] ++ []). eapply ran_trans; [|apply others_ran].
  by split.
Qed.

(** The hook was called, and this was its reply. *)
Definition replied {A : Type} (call : HookCall) (reply : World → SessionSecurityResult A) (x : A)
    (w : World) : Prop :=
  ∃ w1, w_calls w1 `prefix_of` w_calls w ∧ last (w_calls w1) = Some call ∧ reply w1 = Ok x.

Lemma replied_ran {A : Type} (call : HookCall) (reply : World → SessionSecurityResult A) (x : A)
    (w w' : World) (calls : list HookCall) :
  ran w calls w' → replied call reply x w → replied call reply x w'.
Proof.
  intros [Hc _] (w1 & Hp & H). exists w1. split; [|done]. rewrite Hc. by apply prefix_app_r.
Qed.

Lemma hook_replied {A : Type} (call : HookCall) (reply : World → SessionSecurityResult A) (x : A)
    (w w' : World) :
  hook hooks call reply w = (Ok x, w') → ran w [call] w' ∧ replied call reply x w'.
Proof.
  intros Hh. destruct (hook_ran call reply w) as [Hr (w1 & Hc & Hx)]. rewrite Hh in *. cbn in *.
  split; [done|]. exists w1. rewrite (ran_calls _ _ _ Hr), Hc. split; [done|].
  by rewrite last_snoc.
Qed.

(** The record of a call, in the log after it. *)
Definition logged (category : AuditCategory) (act subject : list Z) (res : AuditResult)
    (metadata : metadata_map) (log : AuditLog) : Prop :=
  ∃ record, record ∈ l_records log ∧ ev_category (r_event record) = category ∧
    ev_action (r_event record) = act ∧ ev_subject (r_event record) = subject ∧
    ev_result (r_event record) = res ∧ ev_metadata (r_event record) = metadata.

Lemma logged_grows (category : AuditCategory) (act subject : list Z) (res : AuditResult)
    (metadata : metadata_map) (log log' : AuditLog) :
  log_grows log log' → logged category act subject res metadata log →
  logged category act subject res metadata log'.
Proof.
  intros [_ [ext Hp] _] (r & Hr & H). exists r. split; [|done]. rewrite Hp. set_solver.
Qed.

Lemma record_ran (category : AuditCategory) (act subject : list Z) (res : AuditResult)
    (metadata : metadata_map) (w : World) :
  let '(r, w') := record hooks category act subject res metadata w in
  ran w [] w' ∧
  match r with
  | Ok record => logged category act subject res metadata (w_log w') ∧
                 ev_session_id (r_event record) = l_session_id (w_log w)
  | Err _ => chained (w_log w) → ¬ event_valid act subject metadata
  end.
Proof.
  unfold record. cbv zeta. pose proof (others_ran w) as Ho. set (w1 := others hooks w) in *.
  destruct (append (w_log w1) _ _ _ _ _ _) as [[log' r]|e] eqn:Ea.
  - split.
    + change (@nil HookCall) with (@nil HookCall ++ []). eapply ran_trans; [exact Ho|].
      split; cbn; [by rewrite app_nil_r|]. by eapply append_grows.
    + destruct (append_shape _ _ _ _ _ _ _ _ _ Ea) as (-> & Hs & Hr). split.
      * exists r. split; [cbn; apply elem_of_app; right; by left|done].
      * rewrite Hs. apply Ho.
  - split; [done|]. intros Hc. apply (lg_chained _ _ (ran_log _ _ _ Ho)) in Hc.
    pose proof (append_chained (w_log w1) (hk_clock hooks w) category act subject res metadata Hc)
      as H. by rewrite Ea in H.
Qed.

Lemma summary_ran (w : World) :
  let '(r, w') := audit_summary hooks w in
  ran w [] w' ∧
  match r with
  | Ok audit => verify (w_log w') = Ok tt ∧ audit = summary_of (w_log w')
  | Err _ => chained (w_log w) → DEFAULT_MAX_EVENTS < Z.of_nat (length (l_records (w_log w')))
  end.
Proof.
  unfold audit_summary. cbv zeta. pose proof (others_ran w) as Ho. set (w1 := others hooks w) in *.
  destruct (verify (w_log w1)) as [[]|] eqn:Ev; [done|]. split; [done|]. intros Hc.
  apply (lg_chained _ _ (ran_log _ _ _ Ho)) in Hc. unfold verify in Ev.
  destruct (Z.ltb_spec DEFAULT_MAX_EVENTS (Z.of_nat (length (l_records (w_log w1))))); [done|].
  unfold chained in Hc. congruence.
Qed.

Lemma recorded_hook_ran (call : HookCall) (reply : World → SessionSecurityResult unit)
    (category : AuditCategory) (act subject : list Z) (w : World) :
  let '(error, w') := recorded_hook debug_str hooks call reply category act subject w in
  ran w [call] w' ∧ (error = None → replied call reply tt w').
Proof.
  unfold recorded_hook. destruct (hook_ran call reply w) as [Hh _].
  pose proof (hook_replied call reply tt w) as Hr.
  destruct (hook hooks call reply w) as [r w2]. cbn in Hh. cbv zeta.
  match goal with |- context [record hooks ?c ?a ?s ?r ?m w2] =>
    pose proof (record_ran c a s r m w2) as H; destruct (record hooks c a s r m w2) as [rec w3] end.
  destruct H as [Hrec _]. split.
  - change [call] with ([call] ++ []). by eapply ran_trans.
  - intros He. eapply replied_ran; [exact Hrec|]. destruct r as [[]|]; [by apply Hr|].
    cbn in He. by destruct rec.
Qed.

(** ** Finalization *)

(** Rollback, cleanup and, when the log verifies, publication. *)
Definition undo_calls (before : SnapshotManifest) (calls : list HookCall) : Prop :=
  ∃ published, calls = [CallRollback before; CallCleanup] ++ published ∧
    (published = [] ∨ ∃ root head, published = [CallPublish root head]).

(** The hooks of a finalization that fails. *)
Inductive failure_calls (before : SnapshotManifest) : list HookCall → Prop :=
| failed_capture undo : undo_calls before undo → failure_calls before (CallCaptureAfter :: undo)
| failed_after after undo :
    undo_calls before undo →
    failure_calls before ([CallCaptureAfter; CallDiff before after] ++ undo)
| failed_cleanup after root head :
    failure_calls before
      [CallCaptureAfter; CallDiff before after; CallCleanup; CallRollback before;
       CallPublish root head]
| failed_publication after root head :
    failure_calls before
      [CallCaptureAfter; CallDiff before after; CallCleanup; CallPublish root head;
       CallRollback before].

(** The hooks of a finalization that makes a report. *)
Definition report_calls (before : SnapshotManifest) (report : FinalizationReport)
  : list HookCall :=
  [CallCaptureAfter; CallDiff before (fr_after_snapshot report)] ++
  match fr_outcome report with
  | Completed => [CallCleanup]
  | Failed _ => [CallRollback before; CallCleanup]
  end ++
  [CallPublish (as_merkle_root (fr_audit report)) (as_head_hash (fr_audit report))].

(** What is published: a log that verifies and has the record of the outcome. *)
Definition published (outcome : SessionOutcome) (audit : AuditSummary) (log' : AuditLog) : Prop :=
  ∃ log metadata, verify log = Ok tt ∧ log_grows log log' ∧ audit = summary_of log ∧
    logged CatLifecycle (str "session_finalized") (outcome_name outcome) (outcome_result outcome)
      metadata log.

Definition oversized (w : World) : Prop :=
  DEFAULT_MAX_EVENTS < Z.of_nat (length (l_records (w_log w))).

Lemma oversized_ran (w w' : World) (calls : list HookCall) :
  ran w calls w' → oversized w → oversized w'.
Proof.
  intros [_ [_ [ext Hp] _]]. unfold oversized. rewrite Hp, length_app. lia.
Qed.

Lemma ran_eq (w w' : World) (calls calls' : list HookCall) :
  ran w calls w' → calls = calls' → ran w calls' w'.
Proof. by intros H <-. Qed.

Lemma ran_chained (w w' : World) (calls : list HookCall) :
  ran w calls w' → chained (w_log w) → chained (w_log w').
Proof. intros H. apply H. Qed.

Lemma publish_ran (audit : AuditSummary) (w : World) :
  ran w [CallPublish (as_merkle_root audit) (as_head_hash audit)] (publish_audit hooks audit w).2.
Proof. apply hook_ran. Qed.

Lemma rollback_ran (s : SecuritySession) (w : World) :
  let '(error, w') := rollback_with_audit debug_str hooks s w in
  ran w [CallRollback (ps_before_snapshot (s_prepared s))] w' ∧
  (error = None →
   replied (CallRollback (ps_before_snapshot (s_prepared s))) (hk_rollback hooks) tt w').
Proof.
  unfold rollback_with_audit. cbv zeta.
  pose proof (recorded_hook_ran (CallRollback (ps_before_snapshot (s_prepared s))) (hk_rollback hooks)
    CatSnapshot (str "snapshot_rollback") (sm_id (ps_before_snapshot (s_prepared s))) w) as H.
  destruct (recorded_hook _ _ _ _ _ _ _ w). apply H.
Qed.

Lemma cleanup_ran (s : SecuritySession) (w : World) :
  let '(error, w') := cleanup_with_audit debug_str hooks s w in
  ran w [CallCleanup] w' ∧ (error = None → replied CallCleanup (hk_cleanup hooks) tt w').
Proof.
  unfold cleanup_with_audit.
  pose proof (recorded_hook_ran CallCleanup (hk_cleanup hooks)
    CatLifecycle (str "session_cleanup") (hex_encode (s_session_id s)) w) as H.
  destruct (recorded_hook _ _ _ _ _ _ _ w). apply H.
Qed.

Lemma abort_ran (s : SecuritySession) (stage primary : list Z) (w : World) :
  let '(r, s', w') := abort debug_str hooks s stage primary w in
  s' = set_state s StFailed ∧ (∃ e, r = Err e) ∧
  ∃ undo, ran w undo w' ∧ undo_calls (ps_before_snapshot (s_prepared s)) undo.
Proof.
  unfold abort.
  match goal with |- context [record hooks ?c ?a ?s ?r ?m w] =>
    pose proof (record_ran c a s r m w) as H; destruct (record hooks c a s r m w) as [rec w1] end.
  destruct H as [H1 _].
  pose proof (rollback_ran s w1) as H2. destruct (rollback_with_audit _ _ _ w1) as [rollback w2].
  pose proof (cleanup_ran s w2) as H3. destruct (cleanup_with_audit _ _ _ w2) as [cleanup w3].
  destruct H2 as [H2 _], H3 as [H3 _].
  pose proof (summary_ran w3) as H4. destruct (audit_summary hooks w3) as [audit w4].
  destruct H4 as [H4 _].
  pose proof (ran_trans _ _ _ _ _ (ran_trans _ _ _ _ _ H1 H2) (ran_trans _ _ _ _ _ H3 H4)) as H5.
  destruct audit as [audit|].
  - pose proof (publish_ran audit w4) as H6.
    destruct (publish_audit hooks audit w4) as [[publication|e] w5];
      (split; [done|]); (split; [by eexists|]); eexists;
      (split; [exact (ran_trans _ _ _ _ _ H5 H6)|]); eexists; (split; [reflexivity|]); eauto.
  - split; [done|]. split; [by eexists|]. eexists. split; [exact H5|]. exists []. auto.
Qed.

(** How a finalization ends. *)
Definition finalize_ends (s : SecuritySession) (outcome : SessionOutcome) (w : World)
    (calls : list HookCall) (f : finalized) : Prop :=
  let '(r, s', w') := f in
  let before := ps_before_snapshot (s_prepared s) in
  ran w calls w' ∧
  match r with
  | Ok report =>
      fr_outcome report = outcome ∧ calls = report_calls before report ∧
      s' = set_state s (match outcome with Completed => StCompleted | Failed _ => StFailed end) ∧
      published outcome (fr_audit report) (w_log w') ∧
      replied CallCleanup (hk_cleanup hooks) tt w' ∧
      (outcome ≠ Completed → replied (CallRollback before) (hk_rollback hooks) tt w')
  | Err _ => failure_calls before calls ∧ s' = set_state s StFailed ∨ oversized w'
  end.

Lemma finalize_failed_ran (s : SecuritySession) (reason : list Z) (after : SnapshotManifest)
    (diff : SnapshotDiff) (w w0 : World) (metadata : metadata_map) :
  ran w0 [CallCaptureAfter; CallDiff (ps_before_snapshot (s_prepared s)) after] w →
  chained (w_log w) →
  logged CatLifecycle (str "session_finalized") (outcome_name (Failed reason))
    (outcome_result (Failed reason)) metadata (w_log w) →
  ∃ calls, finalize_ends s (Failed reason) w0 calls
    (finalize_failed debug_str hooks s reason after diff w).
Proof.
  intros H0 Hc Hl. unfold finalize_failed.
  pose proof (rollback_ran s w) as H1. destruct (rollback_with_audit _ _ _ w) as [rollback w1].
  pose proof (cleanup_ran s w1) as H2. destruct (cleanup_with_audit _ _ _ w1) as [cleanup w2].
  destruct H1 as [H1 R1], H2 as [H2 R2].
  pose proof (summary_ran w2) as H3. destruct (audit_summary hooks w2) as [audit w3].
  pose proof (ran_trans _ _ _ _ _ H1 H2) as H12.
  destruct H3 as [H3 Haudit]. pose proof (ran_trans _ _ _ _ _ H12 H3) as H13.
  pose proof (ran_trans _ _ _ _ _ H0 H13) as H.
  destruct audit as [audit|e].
  2: { eexists. split; [exact H|]. right. apply Haudit. by eapply ran_chained. }
  destruct Haudit as [Hv Haudit].
  pose proof (publish_ran audit w3) as H4. destruct (publish_audit hooks audit w3) as [publication w4].
  pose proof (ran_trans _ _ _ _ _ H H4) as H'.
  assert (∀ e, finalize_ends s (Failed reason) w0
    ([CallCaptureAfter; CallDiff (ps_before_snapshot (s_prepared s)) after] ++
     [CallRollback (ps_before_snapshot (s_prepared s)); CallCleanup] ++
     [CallPublish (as_merkle_root audit) (as_head_hash audit)]) (Err e, set_state s StFailed, w4)) as Herr.
  { intros e. split; [exact H'|]. left. split; [|done]. apply failed_after.
    eexists. split; [done|eauto]. }
  eexists. destruct rollback, cleanup, publication as [publication|]; try exact (Herr _).
  split; [exact H'|]. split_and!; [done..| | |].
  - exists (w_log w3), metadata. split_and!; [done|apply H4|done|].
    eapply logged_grows; [|exact Hl]. apply H13.
  - eapply replied_ran; [exact (ran_trans _ _ _ _ _ H3 H4)|]. by apply R2.
  - intros _. eapply replied_ran; [exact (ran_trans _ _ _ _ _ H2 (ran_trans _ _ _ _ _ H3 H4))|].
    by apply R1.
Qed.

Lemma finalize_completed_ran (s : SecuritySession) (after : SnapshotManifest)
    (diff : SnapshotDiff) (w w0 : World) (metadata : metadata_map) :
  ran w0 [CallCaptureAfter; CallDiff (ps_before_snapshot (s_prepared s)) after] w →
  chained (w_log w) →
  logged CatLifecycle (str "session_finalized") (outcome_name Completed)
    (outcome_result Completed) metadata (w_log w) →
  ∃ calls, finalize_ends s Completed w0 calls (finalize_completed debug_str hooks s after diff w).
Proof.
  intros H0 Hc Hl. unfold finalize_completed.
  pose proof (cleanup_ran s w) as H1. destruct (cleanup_with_audit _ _ _ w) as [cleanup w1].
  destruct H1 as [H1 R1]. destruct cleanup as [cleanup_error|].
  - pose proof (rollback_ran s w1) as H2. destruct (rollback_with_audit _ _ _ w1) as [rollback w2].
    destruct H2 as [H2 _]. pose proof (ran_trans _ _ _ _ _ H1 H2) as H12.
    pose proof (summary_ran w2) as H3. destruct (audit_summary hooks w2) as [audit w3].
    destruct H3 as [H3 Haudit].
    pose proof (ran_trans _ _ _ _ _ H0 (ran_trans _ _ _ _ _ H12 H3)) as H.
    destruct audit as [audit|e].
    2: { eexists. split; [exact H|]. right. apply Haudit. by eapply ran_chained. }
    pose proof (publish_ran audit w3) as H4.
    destruct (publish_audit hooks audit w3) as [publication w4].
    eexists. split; [exact (ran_trans _ _ _ _ _ H H4)|]. left. split; [|done].
    apply failed_cleanup.
  - pose proof (summary_ran w1) as H3. destruct (audit_summary hooks w1) as [audit w3].
    destruct H3 as [H3 Haudit].
    pose proof (ran_trans _ _ _ _ _ H0 (ran_trans _ _ _ _ _ H1 H3)) as H.
    destruct audit as [audit|e].
    2: { eexists. split; [exact H|]. right. apply Haudit. by eapply ran_chained. }
    destruct Haudit as [Hv Haudit].
    pose proof (publish_ran audit w3) as H4.
    destruct (publish_audit hooks audit w3) as [[publication|e] w4];
      pose proof (ran_trans _ _ _ _ _ H H4) as H'.
    + eexists. split; [exact H'|]. split_and!; [done..| | |done].
      * exists (w_log w3), metadata. split_and!; [done|apply H4|done|].
        eapply logged_grows; [|exact Hl]. apply (ran_log _ _ _ (ran_trans _ _ _ _ _ H1 H3)).
      * eapply replied_ran; [exact (ran_trans _ _ _ _ _ H3 H4)|]. by apply R1.
    + pose proof (rollback_ran s w4) as H5. destruct (rollback_with_audit _ _ _ w4) as [rollback w5].
      destruct H5 as [H5 _].
      eexists. split; [exact (ran_trans _ _ _ _ _ H' H5)|]. left. split; [|done].
      apply failed_publication.
Qed.

Lemma abort_ends (s : SecuritySession) (outcome : SessionOutcome) (stage primary : list Z)
    (w w0 : World) (calls : list HookCall) :
  ran w0 calls w →
  (∀ undo, undo_calls (ps_before_snapshot (s_prepared s)) undo →
     failure_calls (ps_before_snapshot (s_prepared s)) (calls ++ undo)) →
  ∃ calls', finalize_ends s outcome w0 calls' (abort debug_str hooks s stage primary w).
Proof.
  intros H0 Hf. pose proof (abort_ran s stage primary w) as H.
  destruct (abort _ _ _ _ _ _) as [[r s'] w']. destruct H as (-> & [e ->] & undo & Hr & Hu).
  eexists. split; [exact (ran_trans _ _ _ _ _ H0 Hr)|]. left. split; [by apply Hf|done].
Qed.


(** ** Preparation *)

(** The hooks of a preparation, in order. *)
Definition verify_calls (request : PrepareRequest) : list HookCall :=
  [CallVerifyPolicy (pr_policy_provenance request); CallVerifyConfig (pr_config_provenance request);
   CallCaptureBefore].

Definition ready_calls (request : PrepareRequest) (rules : PreparedCredentialRules)
  : list HookCall :=
  (CallPrepareSecret <$> pr_secret_requests request) ++
  [CallPrepareRules (pr_credential_policies request);
   CallListenerReady rules (pr_credential_listener_maximum_requests request);
   CallSupervisorReady].

Lemma bind_cases {A B : Type} (m : action A) (f : A → action B) (w : World)
    (Q : SessionSecurityResult B * World → Prop) :
  match m w with (Ok x, w') => Q (f x w') | (Err e, w') => Q (Err e, w') end → Q (bind m f w).
Proof. unfold bind. by destruct (m w) as [[]]. Qed.

Lemma prepare_secrets_ran (requests : list SecretEnvelopeRequest) (w : World) :
  let '(r, w') := prepare_secrets hooks requests w in
  ∃ calls, ran w calls w' ∧ calls `prefix_of` (CallPrepareSecret <$> requests) ∧
    match r with
    | Ok envelopes => calls = CallPrepareSecret <$> requests ∧ length envelopes = length requests
    | Err _ => True
    end.
Proof.
  revert w. induction requests as [|request requests IH]; intros w; cbn [prepare_secrets].
  { exists []. split; [apply ran_refl|done]. }
  apply bind_cases. destruct (hook_ran (CallPrepareSecret request) (hk_prepare_secret hooks) w)
    as [H1 _]. destruct (hook hooks _ _ w) as [[envelope|e] w1]; cbn in H1.
  2: { eexists. split; [exact H1|]. split; [|done]. by eexists. }
  apply bind_cases.
  match goal with |- context [record hooks ?c ?a ?s ?r ?m w1] =>
    pose proof (record_ran c a s r m w1) as H2; destruct (record hooks c a s r m w1) as [[rec|e] w2] end;
    destruct H2 as [H2 _]; pose proof (ran_trans _ _ _ _ _ H1 H2) as H12; rewrite app_nil_r in H12.
  2: { eexists. split; [exact H12|]. split; [|done]. by eexists. }
  apply bind_cases. specialize (IH w2). destruct (prepare_secrets hooks requests w2) as [[envs|e] w3];
    destruct IH as (calls & H3 & Hp & Hok); pose proof (ran_trans _ _ _ _ _ H12 H3) as H.
  - destruct Hok as [-> Hlen]. eexists. split; [exact H|]. split; [done|]. split; [done|].
    cbn. by rewrite Hlen.
  - eexists. split; [exact H|]. split; [|done]. by apply prefix_cons.
Qed.

Lemma lifecycle_ran (act subject : list Z) (res : AuditResult) (w : World) :
  ran w [] (record_lifecycle hooks act subject res w).2.
Proof.
  unfold record_lifecycle. apply (bind_cases _ _ _ (λ o, ran w [] o.2)).
  match goal with |- context [record hooks ?c ?a ?s ?r ?m w] =>
    pose proof (record_ran c a s r m w) as H; destruct (record hooks c a s r m w) as [[rec|e] w1] end;
    destruct H as [H _]; [|done]. by destruct (negb _).
Qed.

Lemma prefix_app_mid {A : Type} (l1 l2 l3 : list A) : l1 `prefix_of` l2 → l1 `prefix_of` l2 ++ l3.
Proof. apply prefix_app_r. Qed.

(** The part after the snapshot: a prefix of the hooks ran, all of them when it succeeds. *)
Definition captured_ends (request : PrepareRequest) (policy config : VerificationResult)
    (captured : SnapshotManifest) (w : World)
    (o : SessionSecurityResult PreparedSession * World) : Prop :=
  ∃ calls rules, ran w calls o.2 ∧ calls `prefix_of` ready_calls request rules ∧
    match o.1 with
    | Ok p =>
        calls = ready_calls request rules ∧ ps_credential_rules p = rules ∧
        ps_policy_verification p = policy ∧ ps_config_verification p = config ∧
        ps_before_snapshot p = captured ∧
        length (ps_secret_envelopes p) = length (pr_secret_requests request) ∧
        replied CallSupervisorReady (hk_supervisor_ready hooks) (ps_supervisor_checkpoint p) o.2
    | Err _ => True
    end.

Lemma captured_stops (request : PrepareRequest) (policy config : VerificationResult)
    (captured : SnapshotManifest) (w w' : World) (calls : list HookCall)
    (rules : PreparedCredentialRules) (e : SessionSecurityError) :
  ran w calls w' → calls `prefix_of` ready_calls request rules →
  captured_ends request policy config captured w (Err e, w').
Proof. intros Hr Hp. by exists calls, rules. Qed.

Lemma prepare_ready_ran (session_id : list Z) (request : PrepareRequest)
    (policy config : VerificationResult) (captured : SnapshotManifest)
    (envelopes : list PreparedSecretEnvelope) (w0 w : World) :
  ran w0 (CallPrepareSecret <$> pr_secret_requests request) w →
  length envelopes = length (pr_secret_requests request) →
  captured_ends request policy config captured w0
    (prepare_ready hooks session_id request policy config captured envelopes w).
Proof.
  intros H Hlen. unfold prepare_ready. apply bind_cases.
  destruct (hook_ran (CallPrepareRules (pr_credential_policies request)) (hk_prepare_rules hooks) w)
    as [H6 _]. destruct (hook hooks (CallPrepareRules _) _ w) as [[rules|e] w6]; cbn in H6;
    pose proof (ran_trans _ _ _ _ _ H H6) as H1.
  2: { eapply (captured_stops _ _ _ _ _ _ _ {| pc_rule_count := 0; pc_preparation_id := [] |});
         [exact H1|]. apply prefix_app. by eexists. }
  apply bind_cases.
  destruct (hook_ran (CallListenerReady rules (pr_credential_listener_maximum_requests request))
    (hk_listener_ready hooks) w6) as [H7 _].
  destruct (hook hooks (CallListenerReady _ _) _ w6) as [[[]|e] w7]; cbn in H7;
    pose proof (ran_trans _ _ _ _ _ H1 H7) as H2; rewrite <-app_assoc in H2.
  2: { eapply (captured_stops _ _ _ _ _ _ _ rules); [exact H2|]. apply prefix_app. by eexists. }
  apply bind_cases.
  destruct (hook_ran CallSupervisorReady (hk_supervisor_ready hooks) w7) as [H8 _].
  pose proof (λ x, hook_replied CallSupervisorReady (hk_supervisor_ready hooks) x w7) as Hrep.
  destruct (hook hooks CallSupervisorReady _ w7) as [[cp|e] w8]; cbn in H8;
    pose proof (ran_trans _ _ _ _ _ H2 H8) as H3; rewrite <-app_assoc in H3.
  2: { eapply (captured_stops _ _ _ _ _ _ _ rules); [exact H3|]. done. }
  apply bind_cases.
  match goal with |- context [record hooks ?c ?a ?s ?r ?m w8] =>
    pose proof (record_ran c a s r m w8) as H9; destruct (record hooks c a s r m w8) as [[rec|e] w9] end;
    destruct H9 as [H9 _]; pose proof (ran_trans _ _ _ _ _ H3 H9) as H4; rewrite app_nil_r in H4.
  2: { eapply (captured_stops _ _ _ _ _ _ _ rules); [exact H4|]. done. }
  eexists _, rules. split; [exact H4|]. split; [done|]. cbn. split_and!; try done.
  eapply replied_ran; [exact H9|]. by eapply Hrep.
Qed.

Lemma prepare_captured_ran (session_id : list Z) (request : PrepareRequest)
    (policy config : VerificationResult) (captured : SnapshotManifest) (w : World) :
  captured_ends request policy config captured w
    (prepare_captured hooks session_id request policy config captured w).
Proof.
  unfold prepare_captured.
  set (no_rules := {| pc_rule_count := 0; pc_preparation_id := [] |}).
  assert (∀ w', ran w [] w' → ∀ e, captured_ends request policy config captured w (Err e, w'))
    as Hstop.
  { intros w' H e. eapply (captured_stops _ _ _ _ _ _ [] no_rules); [done|]. apply prefix_nil. }
  assert (∀ w1 act subject, ran w [] w1 → ∀ (f : unit → action PreparedSession),
    (∀ w2, ran w [] w2 → captured_ends request policy config captured w (f tt w2)) →
    captured_ends request policy config captured w
      (bind (record_lifecycle hooks act subject ResSuccess) f w1)) as Hlife.
  { intros w1 act subject H f Hf. apply bind_cases.
    pose proof (lifecycle_ran act subject ResSuccess w1) as H1.
    destruct (record_lifecycle hooks act subject ResSuccess w1) as [[[]|e] w2];
      pose proof (ran_trans _ _ _ _ _ H H1); auto. }
  apply Hlife; [apply ran_refl|intros w1 H1]. apply Hlife; [done|intros w2 H2].
  apply Hlife; [done|intros w3 H3]. apply bind_cases.
  match goal with |- context [record hooks ?c ?a ?s ?r ?m w3] =>
    pose proof (record_ran c a s r m w3) as H4; destruct (record hooks c a s r m w3) as [[rec|e] w4] end;
    destruct H4 as [H4 _]; pose proof (ran_trans _ _ _ _ _ H3 H4) as H; [|by apply Hstop].
  apply bind_cases. pose proof (prepare_secrets_ran (pr_secret_requests request) w4) as H5.
  destruct (prepare_secrets hooks _ w4) as [[envs|e] w5];
    destruct H5 as (calls & H5 & Hp & Hok); pose proof (ran_trans _ _ _ _ _ H H5) as H'; cbn [app] in H'.
  - destruct Hok as [-> Hlen]. by apply prepare_ready_ran.
  - eapply (captured_stops _ _ _ _ _ _ _ no_rules); [exact H'|]. by apply prefix_app_r.
Qed.

(** The three hooks before anything else. *)
Lemma verify_ran (request : PrepareRequest) (w0 : World) :
  let '(r, w) :=
    bind (hook hooks (CallVerifyPolicy (pr_policy_provenance request)) (hk_verify_policy hooks))
      (λ policy, bind (hook hooks (CallVerifyConfig (pr_config_provenance request))
                        (hk_verify_config hooks))
        (λ config, bind (hook hooks CallCaptureBefore (hk_capture_before hooks))
          (λ captured, ret (policy, config, captured)))) w0 in
  match r with
  | Ok (policy, config, captured) =>
      ran w0 (verify_calls request) w ∧
      replied (CallVerifyPolicy (pr_policy_provenance request)) (hk_verify_policy hooks) policy w ∧
      replied (CallVerifyConfig (pr_config_provenance request)) (hk_verify_config hooks) config w ∧
      replied CallCaptureBefore (hk_capture_before hooks) captured w
  | Err _ => ∃ calls, ran w0 calls w ∧ calls `prefix_of` verify_calls request
  end.
Proof.
  apply bind_cases. destruct (hook_ran (CallVerifyPolicy (pr_policy_provenance request))
    (hk_verify_policy hooks) w0) as [H1 _].
  pose proof (λ x, hook_replied (CallVerifyPolicy (pr_policy_provenance request))
    (hk_verify_policy hooks) x w0) as R1.
  destruct (hook hooks (CallVerifyPolicy _) _ w0) as [[policy|e] w1]; cbn in H1.
  2: { eexists. split; [exact H1|]. by eexists. }
  apply bind_cases. destruct (hook_ran (CallVerifyConfig (pr_config_provenance request))
    (hk_verify_config hooks) w1) as [H2 _].
  pose proof (λ x, hook_replied (CallVerifyConfig (pr_config_provenance request))
    (hk_verify_config hooks) x w1) as R2.
  destruct (hook hooks (CallVerifyConfig _) _ w1) as [[config|e] w2]; cbn in H2;
    pose proof (ran_trans _ _ _ _ _ H1 H2) as H12.
  2: { eexists. split; [exact H12|]. by eexists. }
  apply bind_cases. destruct (hook_ran CallCaptureBefore (hk_capture_before hooks) w2) as [H3 _].
  pose proof (λ x, hook_replied CallCaptureBefore (hk_capture_before hooks) x w2) as R3.
  destruct (hook hooks CallCaptureBefore _ w2) as [[captured|e] w3]; cbn in H3;
    pose proof (ran_trans _ _ _ _ _ H12 H3) as H.
  2: { eexists. split; [exact H|]. by eexists. }
  cbn. split_and!; [done|..].
  - eapply replied_ran; [exact (ran_trans _ _ _ _ _ H2 H3)|]. by apply R1.
  - eapply replied_ran; [exact H3|]. by apply R2.
  - by apply R3.
Qed.


(** A log beyond what [verify] accepts: the completed session stays running, and nothing is
    rolled back or published. *)
Lemma summary_error_keeps_running (s : SecuritySession) (after : SnapshotManifest)
    (diff : SnapshotDiff) (w w1 w2 : World) (e : SessionSecurityError) :
  cleanup_with_audit debug_str hooks s w = (None, w1) → audit_summary hooks w1 = (Err e, w2) →
  finalize_completed debug_str hooks s after diff w = (Err e, s, w2) ∧
  ran w [CallCleanup] w2.
Proof.
  intros Hc Ha. pose proof (cleanup_ran s w) as H1. rewrite Hc in H1. destruct H1 as [H1 _].
  pose proof (summary_ran w1) as H2. rewrite Ha in H2. destruct H2 as [H2 _].
  split; [|by apply (ran_trans _ _ _ _ _ H1 H2)].
  unfold finalize_completed. by rewrite Hc, Ha.
Qed.

End Hooks.

(** ** The supervisor of the session *)

Section Supervised.
Context {payload_json : Serde StateHashPayload}.

(** The sink of the session's supervisor, and what it leaves in the log. *)
Definition audit_sink (log : AuditLog) (event : PermissionEvent) : result (list Z) unit :=
  match record_permission debug_str log event with Ok _ => Ok tt | Err e => Err e end.

Definition after_event (log : AuditLog) (event : PermissionEvent) : AuditLog :=
  match record_permission debug_str log event with Ok log => log | Err _ => log end.

(** Operations of the supervisor, each followed by what others write to the log. *)
Fixpoint supervise (steps : list (operation * list Entry)) (s : PersistedState) (log : AuditLog)
  : PersistedState * AuditLog * list PermissionEvent :=
  match steps with
  | [] => (s, log, [])
  | (op, entries) :: steps =>
      let '(_, s, events) := perform (audit_sink log) op s in
      let log := append_others (foldl after_event log events) entries in
      let '(s, log, rest) := supervise steps s log in (s, log, events ++ rest)
  end.

(** The record of a permission event. *)
Definition permission_record (event : PermissionEvent) (record : AuditRecord) : Prop :=
  let e := r_event record in
  ev_category e = CatPermission ∧ ev_action e = pe_action event ∧
  ev_subject e = pe_subject event ∧
  ev_result e = (if pe_allowed event then ResAllowed else ResDenied) ∧
  ev_metadata e =
    btree_from [(str "category", category_as_str (pe_category event));
                (str "generation", show_dec (pe_generation event));
                (str "state_hash", pe_state_hash event)].

Lemma record_permission_ok (log log' : AuditLog) (event : PermissionEvent) :
  record_permission debug_str log event = Ok log' →
  log_grows log log' ∧
  ∃ record, l_records log' = l_records log ++ [record] ∧ permission_record event record.
Proof.
  unfold record_permission, permission_entry, append_entry. intros H.
  destruct (checked_mul _ _ _) as [ts|]; [|done]. cbn in H.
  destruct (append _ _ _ _ _ _ _) as [[l r]|] eqn:Ea; [|done]. injection H as <-.
  split; [by eapply append_grows|]. exists r.
  destruct (append_shape _ _ _ _ _ _ _ _ _ Ea) as (-> & _ & Hr).
  split; [reflexivity|]. exact Hr.
Qed.

(** C22: The log of a session has, among what others write, one record for every change of the
    supervisor, in order and without a gap in the generations, and the last one names the hash
    of the state the supervisor is in.  A change that cannot be recorded is not made. *)
Theorem log_follows_supervisor (steps : list (operation * list Entry)) (s : PersistedState)
    (log : AuditLog) :
  let '(s', log', events) := supervise steps s log in
  log_grows log log' ∧
  (∃ new records, l_records log' = l_records log ++ new ∧ sublist records new ∧
     Forall2 permission_record events records) ∧
  sp_generation (st_payload s') = sp_generation (st_payload s) + Z.of_nat (length events) ∧
  (∀ i ev, events !! i = Some ev →
     pe_generation ev = sp_generation (st_payload s) + Z.of_nat i + 1) ∧
  match last events with Some ev => pe_state_hash ev = st_state_hash s' | None => s' = s end.
Proof.
  revert s log. induction steps as [|[op entries] steps IH]; intros s log; cbn [supervise].
  { split_and!; try done; [|cbn; lia]. exists [], []. by rewrite app_nil_r. }
  destruct (perform (audit_sink log) op s) as [[r s1] events] eqn:Ep.
  set (log1 := append_others _ _). specialize (IH s1 log1).
  destruct (supervise steps s1 log1) as [[s' log'] rest].
  destruct IH as (Hg & (new & records & Hn & Hsub & Hall) & IH1 & IH2 & IH3).
  destruct (perform_events _ _ _ _ _ _ Ep) as [[-> ->]|(ev & -> & Hs & Hev & Hgen & _ & Hh)].
  - pose proof (append_others_grows log entries) as Ho. change log1 with (append_others log entries) in *.
    destruct (lg_prefix _ _ Ho) as [ext Hext]. split_and!; [by etrans| |done..].
    exists (ext ++ new), records. rewrite Hn, Hext. split; [by rewrite app_assoc|].
    split; [by apply sublist_inserts_l|done].
  - unfold audit_sink in Hs. cbn [foldl] in log1. unfold after_event in log1.
    destruct (record_permission debug_str log ev) as [log0|] eqn:Er; [|done].
    destruct (record_permission_ok _ _ _ Er) as (Hg0 & rec & Hrec & Hper).
    pose proof (append_others_grows log0 entries) as Ho.
    destruct (lg_prefix _ _ Ho) as [ext Hext]. cbn [app length].
    split_and!; [by etrans; [|etrans]; [exact Hg0|exact Ho|]| |lia| |].
    + exists (rec :: ext ++ new), (rec :: records). rewrite Hn. unfold log1. rewrite Hext, Hrec.
      split; [by rewrite <-!app_assoc|]. split; [|by constructor].
      apply sublist_skip. by apply sublist_inserts_l.
    + intros [|i] e He; [injection He as <-; lia|]. cbn in He. rewrite (IH2 i e He), Hgen. lia.
    + rewrite last_cons. destruct (last rest); [done|]. by subst s1.
Qed.

End Supervised.
End Safety.

(** ** A session *)

Module SessionSample.
Import DigestSample AuditSample.

Definition manifest (id : string) : SnapshotManifest :=
  {| sm_format := str "sendbox-snapshot"; sm_version := 1; sm_id := str id; sm_entries := [];
     sm_total_size := 0 |}.

Definition verification (name : string) : VerificationResult :=
  {| vr_subject := {| ss_kind := Configuration; ss_sha256 := str name; ss_name := None |};
     vr_valid_signers := {[ str "signer" ]} |}.

Definition rules : PreparedCredentialRules :=
  {| pc_rule_count := 1; pc_preparation_id := str "p" |}.

Definition envelope : PreparedSecretEnvelope :=
  {| pe_secret_name := str "token"; pe_sequence := 1; pe_expires_at_unix_ms := 9;
     pe_encoded := [1] |}.

Definition start : SupervisorCheckpoint := {| cp_generation := 0; cp_state_hash := str "hash" |}.

(** Hooks that succeed, while others write to the log during the first call. *)
Definition good_hooks : @LifecycleHooks unit unit unit :=
  {| hk_verify_policy _ := Ok (verification "policy");
     hk_verify_config _ := Ok (verification "config");
     hk_capture_before _ := Ok (manifest "before");
     hk_capture_after _ := Ok (manifest "after");
     hk_diff _ := Ok {| sd_added := []; sd_modified := []; sd_deleted := []; sd_unchanged := [] |};
     hk_rollback _ := Ok tt; hk_prepare_secret _ := Ok envelope; hk_prepare_rules _ := Ok rules;
     hk_listener_ready _ := Ok tt; hk_supervisor_ready _ := Ok start;
     hk_publish _ := Ok {| ap_signature := None |}; hk_cleanup _ := Ok tt;
     hk_clock _ := 7;
     hk_others w := if (length (w_calls w) =? 1)%nat
       then [{| en_timestamp := 5; en_category := CatNetwork; en_action := str "connect";
                en_subject := str "host"; en_result := ResAllowed; en_metadata := ∅ |}]
       else [] |}.

Definition sample_request : @PrepareRequest unit unit unit :=
  {| pr_policy_provenance := tt; pr_config_provenance := tt; pr_secret_requests := [tt];
     pr_credential_policies := []; pr_credential_listener_maximum_requests := 4 |}.

Definition id_debug (s : list Z) : list Z := s.

Definition preparing : SessionSecurityResult SecuritySession * option World :=
  prepare id_debug good_hooks (be_bytes 16 77) sample_request.

Lemma prepared_calls :
  match preparing with (Ok _, Some w) => (length (w_calls w) =? 7)%nat | _ => false end = true.
Proof. by vm_compute. Qed.


Definition running : SecuritySession :=
  {| s_session_id := be_bytes 16 77; s_state := StRunning;
     s_prepared := {| ps_policy_verification := verification "policy";
       ps_config_verification := verification "config"; ps_before_snapshot := manifest "before";
       ps_secret_envelopes := [envelope]; ps_credential_rules := rules;
       ps_supervisor_checkpoint := start |} |}.

Definition world0 : @World unit unit unit := {| w_log := log0; w_calls := [] |}.

(** The supervisor approves a request and records it between two records of others. *)
Definition supervised : PersistedState * AuditLog * list PermissionEvent :=
  supervise id_debug
    [(OpEvaluate (PermissionSample.request "r1" "cargo test") PermissionSample.granting,
      hk_others good_hooks {| w_log := log0; w_calls := [CallCleanup] |})]
    PermissionSample.started log1.

Lemma supervised_recorded :
  let '(s', log', events) := supervised in length events = 1%nat ∧ length (l_records log') = 3%nat.
Proof. by vm_compute. Qed.

Lemma log_follows_supervisor_witness :
  let '(s', log', events) := supervised in
  length events = 1%nat ∧ length (l_records log') = 3%nat ∧ log_grows log1 log' ∧
  ∃ new records, l_records log' = l_records log1 ++ new ∧ sublist records new ∧
    Forall2 permission_record events records.
Proof.
  pose proof supervised_recorded as Hr.
  pose proof (log_follows_supervisor id_debug
    [(OpEvaluate (PermissionSample.request "r1" "cargo test") PermissionSample.granting,
      hk_others good_hooks {| w_log := log0; w_calls := [CallCleanup] |})]
    PermissionSample.started log1) as H.
  change (supervise _ _ _ _) with supervised in H.
  destruct supervised as [[s' log'] events]. destruct Hr as [H1 H2], H as (H3 & H4 & _).
  exact (conj H1 (conj H2 (conj H3 H4))).
Defined.


Example completed_calls :
  match finalize id_debug good_hooks running Completed world0 with
  | (Ok _, s, w) => s_state s = StCompleted ∧ length (w_calls w) = 4%nat
  | _ => False
  end.
Proof. by vm_compute. Qed.

End SessionSample.
