(* ===== verification/Runtime.v ===== *)
(** * The runtime's lifecycle, clean-up and output ([crates/sendbox-runtime])

    The state machine of a sandbox ([lifecycle.rs]), the compensation stack that undoes a
    partially completed start ([cleanup.rs]), and the output of a process with the account of
    what was dropped ([output.rs]).

    The theorems show that a sandbox runs at most once and only after it was created, that a
    clean-up step is tried in every pass until it succeeds and never after, in reverse order,
    and that every chunk of output is either delivered or counted in exactly one loss, which is
    reported where it happened. *)

From S2P Require Import Prelude.

(** ** Lifecycle *)

Module Lifecycle.

Inductive LifecycleState : Type :=
| New | Initialized | Created | Running | Stopping | Stopped | Cleaning | Cleaned | Failed.

#[global] Instance LifecycleState_eq_dec : EqDecision LifecycleState.
Proof. solve_decision. Defined.

Definition can_transition_to (state next : LifecycleState) : bool :=
  match state, next with
  | New, (Initialized | Cleaning | Failed)
  | Initialized, (Created | Cleaning | Failed)
  | Created, (Running | Stopped | Cleaning | Failed)
  | Running, (Stopping | Stopped | Failed)
  | Stopping, (Stopped | Failed)
  | Stopped, (Cleaning | Cleaned | Failed)
  | Cleaning, (Cleaned | Failed)
  | Failed, (Cleaning | Cleaned) => true
  | _, _ => false
  end.

Inductive LifecycleTransitionError : Type :=
| Duplicate (state : LifecycleState)
| Invalid (from to : LifecycleState).

(** The check and the update are one critical section; the state comes first. *)
Definition transition (state next : LifecycleState)
  : LifecycleState * result LifecycleTransitionError LifecycleState :=
  if bool_decide (state = next) then (state, Err (Duplicate next))
  else if negb (can_transition_to state next) then (state, Err (Invalid state next))
  else (next, Ok state).

(** Requests of any number of threads, in the order of the lock: the states that were entered. *)
Fixpoint run (state : LifecycleState) (requests : list LifecycleState)
  : LifecycleState * list LifecycleState :=
  match requests with
  | [] => (state, [])
  | next :: requests =>
      match transition state next with
      | (state, Ok _) => let '(final, entered) := run state requests in (final, state :: entered)
      | (state, Err _) => run state requests
      end
  end.

Lemma transition_cases (state next : LifecycleState) :
  (transition state next).1 = state ∧ (∃ e, (transition state next).2 = Err e) ∨
  transition state next = (next, Ok state) ∧ can_transition_to state next = true.
Proof.
  unfold transition. case_bool_decide; [left; eauto|].
  destruct (can_transition_to state next); cbn; [by right|left; eauto].
Qed.

Fixpoint path (state : LifecycleState) (entered : list LifecycleState) : Prop :=
  match entered with
  | [] => True
  | next :: entered => can_transition_to state next = true ∧ path next entered
  end.

Lemma run_path (state : LifecycleState) (requests : list LifecycleState) :
  path state (run state requests).2.
Proof.
  revert state. induction requests as [|next requests IH]; intros state; cbn [run]; [done|].
  destruct (transition_cases state next) as [[Hs [e He]]|[-> Hc]].
  - destruct (transition state next) as [s1 r]. cbn in *. subst s1 r. apply IH.
  - specialize (IH next). by destruct (run next requests).
Qed.

Lemma path_app (state : LifecycleState) (l1 l2 : list LifecycleState) (s : LifecycleState) :
  path state (l1 ++ s :: l2) ↔ path state (l1 ++ [s]) ∧ path s l2.
Proof. revert state. induction l1 as [|x l1 IH]; intros state; cbn; [naive_solver|]. rewrite IH. naive_solver. Qed.

(** The states after the sandbox ran. *)
Definition after_running (s : LifecycleState) : Prop :=
  match s with Stopping | Stopped | Cleaning | Cleaned | Failed => True | _ => False end.

Lemma path_after (state : LifecycleState) (l : list LifecycleState) :
  state = Running ∨ after_running state → path state l → Forall after_running l.
Proof.
  revert state. induction l as [|s l IH]; intros state Hs; cbn; [done|]. intros [Hc Hp].
  assert (after_running s) as H by (destruct Hs as [->|Hs]; [|destruct state; cbn in Hs; try done]; by destruct s).
  constructor; [done|]. eapply IH; [by right|done].
Qed.

Lemma path_to_running (l : list LifecycleState) :
  path New (l ++ [Running]) → l = [Initialized; Created].
Proof.
  assert (∀ s l, s = Running ∨ after_running s → ¬ path s (l ++ [Running])) as Hno.
  { intros s l' Hs Hp. apply (path_after s) in Hp; [|done].
    apply Forall_app in Hp as [_ Hp]. exact (Forall_inv Hp). }
  destruct l as [|[] [|[] [|[] l]]]; cbn; intros Hp; try done; destruct_and!; try done;
    exfalso; match goal with H : path ?s (?l ++ [Running]) |- _ => apply (Hno s l); [first [by left|by right]|done]
                           | _ => idtac end.
Qed.

(** Whatever is asked, in any order and by any number of threads, a sandbox runs at most once,
    only after it was initialized and created, and after that only stops and is cleaned up. *)
Theorem runs_once_after_creation (requests before after : list LifecycleState) :
  (run New requests).2 = before ++ Running :: after →
  before = [Initialized; Created] ∧ Forall after_running after ∧ Running ∉ after.
Proof.
  intros He. pose proof (run_path New requests) as Hp. rewrite He in Hp.
  apply path_app in Hp as [H1 H2]. apply path_to_running in H1.
  assert (Forall after_running after) as H3 by (by apply (path_after Running); [left|]).
  split_and!; [done..|]. intros Hin. rewrite Forall_forall in H3. exact (H3 _ Hin).
Qed.

Lemma cleaned_is_final (requests : list LifecycleState) : run Cleaned requests = (Cleaned, []).
Proof.
  induction requests as [|next requests IH]; cbn [run]; [done|]. destruct next; cbn; exact IH.
Qed.

Lemma runs_once_after_creation_witness :
  [Initialized; Created] = [Initialized; Created] ∧ Forall after_running [Stopped; Cleaned] ∧
  Running ∉ [Stopped; Cleaned].
Proof.
  exact (runs_once_after_creation
    [Running; Initialized; Created; Created; Running; Running; Stopped; Running; Cleaned]
    [Initialized; Created] [Stopped; Cleaned] eq_refl).
Defined.

End Lifecycle.

(** ** Clean-up *)

Module Cleanup.
Section Cleanup.
Context {Step RuntimeError : Type}.
Variable name : Step → list Z.

Record StepState : Type := {
  step : Step;
  completed : bool;
}.

Record CleanupFailure : Type := {
  failed_step : list Z;
  error : RuntimeError;
}.

Record CleanupReport : Type := {
  attempted : Z;
  succeeded : Z;
  remaining : Z;
  failures : list CleanupFailure;
}.

Definition push (steps : list StepState) (s : Step) : list StepState :=
  steps ++ [{| step := s; completed := false |}].

Section Pass.
(** The reply of the last of the steps that were tried in this pass. *)
Variable reply : list nat → result RuntimeError unit.

(** [for index in (0..steps.len()).rev()]: the indices that are still to come are below [n];
    the steps, the indices that were tried, the number of successes and the failures. *)
Fixpoint cleanup_loop (n : nat) (steps : list StepState) (tried : list nat) (succeeded : Z)
    (failures : list CleanupFailure)
  : list StepState * list nat * Z * list CleanupFailure :=
  match n with
  | O => (steps, tried, succeeded, failures)
  | S index =>
      match steps !! index with
      | None => cleanup_loop index steps tried succeeded failures
      | Some state =>
          if completed state then cleanup_loop index steps tried succeeded failures
          else
            let tried := tried ++ [index] in
            match reply tried with
            | Ok _ =>
                cleanup_loop index (<[index := {| step := step state; completed := true |}]> steps)
                  tried (succeeded + 1) failures
            | Err e =>
                cleanup_loop index steps tried succeeded
                  (failures ++ [{| failed_step := name (step state); error := e |}])
            end
      end
  end.

Definition cleanup (steps : list StepState) : list StepState * list nat * CleanupReport :=
  let '(steps, tried, succeeded, failures) := cleanup_loop (length steps) steps [] 0 [] in
  (steps, tried,
   {| attempted := Z.of_nat (length tried); succeeded := succeeded;
      remaining := Z.of_nat (length (filter (λ state, completed state = false) steps));
      failures := failures |}).

Definition is_complete (report : CleanupReport) : bool :=
  (remaining report =? 0) && bool_decide (length (failures report) = 0%nat).

(** ** What a pass does *)

Definition incomplete (steps : list StepState) (i : nat) : bool :=
  match steps !! i with Some state => negb (completed state) | None => false end.

(** The incomplete steps from [i] on, the last one first. *)
Definition incomplete_from (steps : list StepState) (i : nat) : list nat :=
  reverse (filter (λ j, incomplete steps j = true) (seq i (length steps - i))).

(** What the pass makes of a step. *)
Definition processed (steps : list StepState) (i : nat) (state : StepState) : StepState :=
  if completed state then state
  else match reply (incomplete_from steps i) with
       | Ok _ => {| step := step state; completed := true |}
       | Err _ => state
       end.

Definition failure_of (steps : list StepState) (i : nat) : option CleanupFailure :=
  match steps !! i, reply (incomplete_from steps i) with
  | Some state, Err e => Some {| failed_step := name (step state); error := e |}
  | _, _ => None
  end.

Lemma incomplete_from_S (steps : list StepState) (i : nat) :
  (i < length steps)%nat →
  incomplete_from steps i =
  incomplete_from steps (S i) ++ (if incomplete steps i then [i] else []).
Proof.
  intros Hi. unfold incomplete_from. replace (length steps - i)%nat with (S (length steps - S i)) by lia.
  cbn [seq]. rewrite filter_cons. destruct (decide _) as [->|Hn].
  - by rewrite reverse_cons.
  - apply not_true_is_false in Hn. by rewrite Hn, app_nil_r.
Qed.

(** The loop after the indices from [n] on. *)
Lemma cleanup_loop_spec (steps : list StepState) (n : nat) (now : list StepState) :
  (n ≤ length steps)%nat → length now = length steps →
  (∀ i, now !! i = (if (n <=? i)%nat then processed steps i <$> steps !! i else steps !! i)) →
  let failed i := omap (failure_of steps) (incomplete_from steps i) in
  let '(final, tried, succeeded, failures) :=
    cleanup_loop n now (incomplete_from steps n)
      (Z.of_nat (length (incomplete_from steps n)) - Z.of_nat (length (failed n))) (failed n) in
  length final = length steps ∧ (∀ i, final !! i = processed steps i <$> steps !! i) ∧
  tried = incomplete_from steps 0 ∧ failures = failed 0%nat ∧
  succeeded = Z.of_nat (length tried) - Z.of_nat (length failures).
Proof.
  revert now. induction n as [|n IH]; intros now Hn Hlen Hnow; cbv zeta; cbn [cleanup_loop].
  { by split_and!. }
  assert (now !! n = steps !! n) as Hnn by (by rewrite Hnow, (proj2 (Nat.leb_gt _ _)) by lia).
  destruct (lookup_lt_is_Some_2 steps n) as [state Hs]; [lia|]. rewrite Hnn, Hs.
  assert (∀ i, (S n <=? i)%nat = (n <=? i)%nat ∨ i = n) as Hcase.
  { intros i. destruct (decide (i = n)); [by right|left].
    destruct (Nat.leb_spec (S n) i), (Nat.leb_spec n i); lia || done. }
  pose proof (incomplete_from_S steps n) as Hfrom. specialize (Hfrom ltac:(lia)).
  unfold incomplete in Hfrom. rewrite Hs in Hfrom.
  destruct (completed state) eqn:Ec; cbn [negb] in Hfrom.
  { rewrite app_nil_r in Hfrom. rewrite <-Hfrom. apply IH; [lia|done|].
    intros i. rewrite Hnow. destruct (Hcase i) as [->| ->]; [done|].
    rewrite (proj2 (Nat.leb_gt _ _)), (proj2 (Nat.leb_le _ _)) by lia. rewrite Hs. cbn.
    unfold processed. by rewrite Ec. }
  cbv zeta. rewrite <-Hfrom.
  assert (omap (failure_of steps) (incomplete_from steps n) =
    omap (failure_of steps) (incomplete_from steps (S n)) ++
    match reply (incomplete_from steps n) with
    | Ok _ => []
    | Err e => [{| failed_step := name (step state); error := e |}]
    end) as Hfail.
  { rewrite Hfrom at 1. rewrite omap_app. f_equal. cbn. unfold failure_of at 1. rewrite Hs.
    by destruct (reply (incomplete_from steps n)). }
  assert (length (incomplete_from steps n) = S (length (incomplete_from steps (S n)))) as Hlen'.
  { rewrite Hfrom, length_app. cbn. lia. }
  destruct (reply (incomplete_from steps n)) as [[]|e] eqn:Er.
  - rewrite app_nil_r in Hfail. rewrite <-Hfail.
    replace (_ - _ + 1) with (Z.of_nat (length (incomplete_from steps n)) -
      Z.of_nat (length (omap (failure_of steps) (incomplete_from steps n)))) by lia.
    apply IH; [lia|by rewrite length_insert|]. intros i.
    destruct (decide (i = n)) as [->|Hi].
    + rewrite list_lookup_insert_eq by lia. rewrite (proj2 (Nat.leb_le _ _)), Hs by lia. cbn.
      unfold processed. by rewrite Ec, Er.
    + rewrite list_lookup_insert_ne by done. rewrite Hnow. destruct (Hcase i) as [->| ->]; done.
  - rewrite <-Hfail.
    replace (Z.of_nat (length (incomplete_from steps (S n))) - _) with
      (Z.of_nat (length (incomplete_from steps n)) -
       Z.of_nat (length (omap (failure_of steps) (incomplete_from steps n))))
      by (rewrite Hfail, length_app; cbn; lia).
    apply IH; [lia|done|]. intros i. rewrite Hnow. destruct (Hcase i) as [->| ->]; [done|].
    rewrite (proj2 (Nat.leb_gt _ _)), (proj2 (Nat.leb_le _ _)) by lia. rewrite Hs. cbn.
    unfold processed. by rewrite Ec, Er.
Qed.

Lemma incomplete_from_elem (steps : list StepState) (i j : nat) :
  j ∈ incomplete_from steps i ↔ (i ≤ j)%nat ∧ incomplete steps j = true.
Proof.
  unfold incomplete_from. rewrite elem_of_reverse, list_elem_of_filter, elem_of_seq. split; [intuition lia|].
  intros [Hi Hj]. split; [done|]. unfold incomplete in Hj. destruct (steps !! j) eqn:Es; [|done].
  apply lookup_lt_Some in Es. lia.
Qed.

Lemma incomplete_from_NoDup (steps : list StepState) (i : nat) : NoDup (incomplete_from steps i).
Proof. unfold incomplete_from. rewrite reverse_Permutation. apply NoDup_filter, NoDup_seq. Qed.

Lemma cleanup_pass_spec (steps : list StepState) :
  let '(final, tried, report) := cleanup steps in
  tried = incomplete_from steps 0 ∧ (∀ i, final !! i = processed steps i <$> steps !! i) ∧
  failures report = omap (failure_of steps) tried ∧
  attempted report = Z.of_nat (length tried) ∧
  attempted report = succeeded report + Z.of_nat (length (failures report)) ∧
  remaining report = Z.of_nat (length (filter (λ state, completed state = false) final)).
Proof.
  unfold cleanup.
  assert (∀ i, steps !! i = (if (length steps <=? i)%nat then processed steps i <$> steps !! i
                             else steps !! i)) as Hpre.
  { intros i. destruct (Nat.leb_spec (length steps) i); [|done].
    by rewrite lookup_ge_None_2 by lia. }
  pose proof (cleanup_loop_spec steps (length steps) steps (le_n _) eq_refl Hpre) as H.
  assert (incomplete_from steps (length steps) = []) as E.
  { unfold incomplete_from. by rewrite Nat.sub_diag. }
  cbv zeta beta in H. rewrite !E in H.
  change (omap (failure_of steps) []) with (@nil CleanupFailure) in H. cbn [length] in H.
  change (Z.of_nat 0 - Z.of_nat 0) with 0 in H.
  destruct (cleanup_loop (length steps) steps [] 0 []) as [[[final tried] succ] fails].
  destruct H as (_ & Hfinal & -> & -> & ->).
  cbn. split_and!; try done; lia.
Qed.

(** A pass tries exactly the steps that have not succeeded, the last registered first, each of
    them once and whatever became of the others; those that succeed are complete from then on,
    and the others are reported with their errors and stay.  The report is complete exactly when
    every step is. *)
Theorem cleanup_pass_exact (steps : list StepState) :
  let '(final, tried, report) := cleanup steps in
  tried = incomplete_from steps 0 ∧
  (∀ i, final !! i = processed steps i <$> steps !! i) ∧
  failures report = omap (failure_of steps) tried ∧
  attempted report = Z.of_nat (length tried) ∧
  attempted report = succeeded report + Z.of_nat (length (failures report)) ∧
  (is_complete report = true ↔ ∀ i state, final !! i = Some state → completed state = true).
Proof.
  pose proof (cleanup_pass_spec steps) as H. destruct (cleanup steps) as [[final tried] report].
  destruct H as (-> & Hfinal & Hfails & Hatt & Hsucc & Hrem). split_and!; try done.
  unfold is_complete. rewrite Hrem, Hfails. split.
  - intros Hc i state Hi. apply andb_true_iff in Hc as [Hc _]. apply Z.eqb_eq in Hc.
    destruct (completed state) eqn:Es; [done|]. exfalso.
    assert (state ∈ filter (λ state, completed state = false) final) as Hin.
    { apply list_elem_of_filter. split; [done|]. by eapply list_elem_of_lookup_2. }
    destruct (filter _ final); [by apply not_elem_of_nil in Hin|]. cbn in Hc. lia.
  - intros Hall. apply andb_true_iff. split.
    + apply Z.eqb_eq. destruct (filter _ final) as [|state l] eqn:Ef; [done|]. exfalso.
      assert (state ∈ filter (λ state, completed state = false) final) as Hin by (rewrite Ef; by left).
      apply list_elem_of_filter in Hin as [Hs Hin]. apply list_elem_of_lookup in Hin as [i Hi].
      rewrite (Hall i state Hi) in Hs. done.
    + apply bool_decide_true. destruct (omap _ _) as [|f l] eqn:Ef; [done|]. exfalso.
      assert (f ∈ omap (failure_of steps) (incomplete_from steps 0)) as Hin by (rewrite Ef; by left).
      apply list_elem_of_omap in Hin as (i & Hi & Hf). apply incomplete_from_elem in Hi as [_ Hi].
      unfold incomplete in Hi. unfold failure_of in Hf. specialize (Hfinal i).
      destruct (steps !! i) as [state|]; [|done]. cbn in Hfinal. unfold processed in Hfinal.
      destruct (completed state) eqn:Es; [done|]. destruct (reply (incomplete_from steps i)); [done|].
      specialize (Hall i state Hfinal). congruence.
Qed.

End Pass.

(** ** Passes *)

Inductive event : Type :=
| Push (s : Step)
| Pass (reply : list nat → result RuntimeError unit).

Definition is_done (steps : list StepState) (i : nat) : bool :=
  match steps !! i with Some state => completed state | None => false end.

(** The steps after the events, and every try with its success. *)
Fixpoint run_events (events : list event) (steps : list StepState)
  : list StepState * list (nat * bool) :=
  match events with
  | [] => (steps, [])
  | Push s :: events => run_events events (push steps s)
  | Pass reply :: events =>
      let '(after, tried, _) := cleanup reply steps in
      let '(final, log) := run_events events after in
      (final, ((λ i, (i, is_done after i)) <$> tried) ++ log)
  end.

(** The tries of one step. *)
Definition tries (i : nat) (log : list (nat * bool)) : list bool :=
  snd <$> filter (λ try, try.1 = i) log.

Lemma tries_once (i : nat) (tried : list nat) (f : nat → bool) :
  NoDup tried → tries i ((λ j, (j, f j)) <$> tried) = if decide (i ∈ tried) then [f i] else [].
Proof.
  unfold tries. induction 1 as [|j tried Hj _ IH]; [done|].
  rewrite fmap_cons, filter_cons. cbn [fst]. destruct (decide (j = i)) as [->|Hne].
  - rewrite fmap_cons, IH, decide_False by done. by rewrite decide_True by by left.
  - rewrite IH. destruct (decide (i ∈ tried)) as [Hin|Hin].
    + by rewrite decide_True by by right.
    + rewrite decide_False; [done|]. rewrite elem_of_cons. naive_solver.
Qed.

Lemma run_events_tries (events : list event) (steps : list StepState) (i : nat) :
  let '(final, log) := run_events events steps in
  if is_done steps i then tries i log = [] ∧ is_done final i = true
  else ∃ k, tries i log = replicate k false ++ (if is_done final i then [true] else []).
Proof.
  revert steps. induction events as [|[s|reply] events IH]; intros steps; cbn [run_events].
  { destruct (is_done steps i); [done|]. by exists 0%nat. }
  - specialize (IH (push steps s)). destruct (run_events events (push steps s)) as [final log].
    assert (is_done (push steps s) i = is_done steps i) as Hd; [|by rewrite <-Hd].
    unfold is_done, push. destruct (decide (i < length steps)%nat) as [Hi|Hi].
    + by rewrite lookup_app_l.
    + rewrite lookup_app_r, (lookup_ge_None_2 steps) by lia. by destruct (_ - _)%nat.
  - pose proof (cleanup_pass_spec reply steps) as Hp.
    destruct (cleanup reply steps) as [[after tried] report]. destruct Hp as (-> & Hf & _).
    specialize (IH after). destruct (run_events events after) as [final log].
    assert (tries i (((λ j, (j, is_done after j)) <$> incomplete_from steps 0) ++ log) =
      (if incomplete steps i then [is_done after i] else []) ++ tries i log) as ->.
    { unfold tries. rewrite filter_app, fmap_app. f_equal. fold (tries i
        ((λ j, (j, is_done after j)) <$> incomplete_from steps 0)).
      rewrite (tries_once i (incomplete_from steps 0) (is_done after)) by apply incomplete_from_NoDup.
      destruct (decide _) as [Hin|Hin]; rewrite incomplete_from_elem in Hin.
      - by destruct Hin as [_ ->].
      - destruct (incomplete steps i); [|done]. exfalso. apply Hin. split; [lia|done]. }
    specialize (Hf i). unfold is_done at 1. unfold incomplete.
    assert (is_done after i = default false (completed <$> (processed reply steps i <$> steps !! i)))
      as Ha by (unfold is_done; rewrite Hf; by destruct (steps !! i)).
    destruct (steps !! i) as [state|]; cbn in Ha; [|by rewrite Ha in IH].
    unfold processed in Ha. destruct (completed state) eqn:Ec; cbn [negb app].
    + rewrite Ec in Ha. by rewrite Ha in IH.
    + destruct (is_done after i).
      * destruct IH as [-> ->]. by exists 0%nat.
      * destruct IH as [k ->]. by exists (S k).
Qed.

(** A step is tried in pass after pass until it succeeds, and never again after that, however
    passes and registrations interleave. *)
Theorem each_step_succeeds_once (events : list event) (i : nat) :
  let '(final, log) := run_events events [] in
  ∃ k, tries i log = replicate k false ++ (if is_done final i then [true] else []).
Proof. pose proof (run_events_tries events [] i) as H. by destruct (run_events events []). Qed.


End Cleanup.
End Cleanup.

(** ** Output *)

Module Output.

Inductive OutputStream : Type := Stdout | Stderr.

#[global] Instance OutputStream_eq_dec : EqDecision OutputStream.
Proof. solve_decision. Defined.

Record OutputLoss : Type := {
  dropped_events : Z;
  dropped_bytes : Z;
  first_global_sequence : Z;
  last_global_sequence : Z;
  stdout_events : Z;
  stderr_events : Z;
}.

Definition OutputLoss_default : OutputLoss :=
  {| dropped_events := 0; dropped_bytes := 0; first_global_sequence := 0;
     last_global_sequence := 0; stdout_events := 0; stderr_events := 0 |}.

(** [OutputLoss::record] *)
Definition record (loss : OutputLoss) (stream : OutputStream) (sequence bytes : Z) : OutputLoss :=
  {| dropped_events := saturating_add u64_max (dropped_events loss) 1;
     dropped_bytes := saturating_add u64_max (dropped_bytes loss) bytes;
     first_global_sequence :=
       if dropped_events loss =? 0 then sequence else first_global_sequence loss;
     last_global_sequence := sequence;
     stdout_events :=
       match stream with
       | Stdout => saturating_add u64_max (stdout_events loss) 1
       | Stderr => stdout_events loss
       end;
     stderr_events :=
       match stream with
       | Stderr => saturating_add u64_max (stderr_events loss) 1
       | Stdout => stderr_events loss
       end |}.

Inductive OutputEvent : Type :=
| Data (stream : OutputStream) (global_sequence stream_sequence : Z) (bytes : list Z)
    (dropped_before : option OutputLoss)
| Loss (global_sequence : Z) (dropped : OutputLoss).

Record OutputStats : Type := {
  delivered_events : Z;
  dropped : OutputLoss;
}.

Record PublisherState : Type := {
  next_global_sequence : Z;
  next_stdout_sequence : Z;
  next_stderr_sequence : Z;
  pending_loss : option OutputLoss;
  stats : OutputStats;
}.

Definition PublisherState_default : PublisherState :=
  {| next_global_sequence := 1; next_stdout_sequence := 1; next_stderr_sequence := 1;
     pending_loss := None;
     stats := {| delivered_events := 0; dropped := OutputLoss_default |} |}.

Inductive RuntimeError : Type := OutputSequenceExhausted | Cancelled.

(** [publish], with the answer of [try_send]: the result, the state and the event that was sent.
    The sequence numbers are advanced one after the other, so the first one stays advanced when
    the second one is exhausted. *)
Definition publish (accepted : bool) (st : PublisherState) (stream : OutputStream)
    (bytes : list Z) : result RuntimeError unit * PublisherState * option OutputEvent :=
  let global_sequence := next_global_sequence st in
  match checked_add u64_max global_sequence 1 with
  | None => (Err OutputSequenceExhausted, st, None)
  | Some next_global =>
      let stream_sequence :=
        match stream with Stdout => next_stdout_sequence st | Stderr => next_stderr_sequence st end in
      match checked_add u64_max stream_sequence 1 with
      | None =>
          (Err OutputSequenceExhausted,
           {| next_global_sequence := next_global; next_stdout_sequence := next_stdout_sequence st;
              next_stderr_sequence := next_stderr_sequence st; pending_loss := pending_loss st;
              stats := stats st |}, None)
      | Some next_stream =>
          let loss := default OutputLoss_default (pending_loss st) in
          let count := Z.of_nat (length bytes) in
          (Ok tt,
           {| next_global_sequence := next_global;
              next_stdout_sequence :=
                match stream with Stdout => next_stream | Stderr => next_stdout_sequence st end;
              next_stderr_sequence :=
                match stream with Stderr => next_stream | Stdout => next_stderr_sequence st end;
              pending_loss :=
                if accepted then None else Some (record loss stream global_sequence count);
              stats :=
                if accepted
                then {| delivered_events := saturating_add u64_max (delivered_events (stats st)) 1;
                        dropped := dropped (stats st) |}
                else {| delivered_events := delivered_events (stats st);
                        dropped := record (dropped (stats st)) stream global_sequence count |} |},
           if accepted
           then Some (Data stream global_sequence stream_sequence bytes (pending_loss st))
           else None)
      end
  end.

(** [ChannelOutputSubscription::next], with the cancellation and the answer of the channel, which
    is [None] when every publisher is gone and all that was accepted was received. *)
Definition next (cancelled : bool) (received : option OutputEvent) (final_loss_emitted : bool)
    (st : PublisherState)
  : result RuntimeError (option OutputEvent) * bool * PublisherState :=
  if cancelled then (Err Cancelled, final_loss_emitted, st)
  else
    match received with
    | Some event => (Ok (Some event), final_loss_emitted, st)
    | None =>
        if final_loss_emitted then (Ok None, true, st)
        else
          (Ok ((λ loss, Loss (last_global_sequence loss) loss) <$> pending_loss st), true,
           {| next_global_sequence := next_global_sequence st;
              next_stdout_sequence := next_stdout_sequence st;
              next_stderr_sequence := next_stderr_sequence st; pending_loss := None;
              stats := stats st |})
    end.

(** ** A whole output *)

(** A chunk, and whether the channel had room for it. *)
Definition attempt : Type := OutputStream * list Z * bool.

(** What the publishers of a process do, in the order of the lock: the events that are sent. *)
Fixpoint publish_all (attempts : list attempt) (st : PublisherState)
  : result RuntimeError unit * PublisherState * list OutputEvent :=
  match attempts with
  | [] => (Ok tt, st, [])
  | (stream, bytes, accepted) :: attempts =>
      match publish accepted st stream bytes with
      | (Err e, st, _) => (Err e, st, [])
      | (Ok _, st, sent) =>
          let '(r, st, events) := publish_all attempts st in
          (r, st, option_list sent ++ events)
      end
  end.

(** What the subscriber reads: what was sent, in order, and then the rest of the account. *)
Definition read_all (attempts : list attempt) : result RuntimeError (list OutputEvent) :=
  match publish_all attempts PublisherState_default with
  | (Err e, _, _) => Err e
  | (Ok _, st, events) =>
      match next false None false st with
      | (Err e, _, _) => Err e
      | (Ok final, _, _) => Ok (events ++ option_list final)
      end
  end.

(** ** The account *)

Definition is_stream (stream : OutputStream) (a : attempt) : bool := bool_decide (a.1.1 = stream).

Definition count_stream (stream : OutputStream) (l : list attempt) : Z :=
  Z.of_nat (length (filter (λ a, is_stream stream a = true) l)).

Definition bytes_of (l : list attempt) : Z :=
  foldr (λ a n, Z.of_nat (length a.1.2) + n) 0 l.

(** The loss of chunks that follow each other, of which the first has number [first]. *)
Definition loss_of (first : Z) (l : list attempt) : option OutputLoss :=
  match l with
  | [] => None
  | _ => Some {| dropped_events := Z.of_nat (length l);
                 dropped_bytes := Z.min (bytes_of l) u64_max;
                 first_global_sequence := first;
                 last_global_sequence := first + Z.of_nat (length l) - 1;
                 stdout_events := count_stream Stdout l; stderr_events := count_stream Stderr l |}
  end.

(** The chunks that were refused at the end of [l]. *)
Definition refused_run (l : list attempt) : list attempt :=
  foldl (λ run a, if a.2 : bool then [] else run ++ [a]) [] l.

(** The loss that is reported after [l]. *)
Definition loss_after (l : list attempt) : option OutputLoss :=
  loss_of (Z.of_nat (length l) - Z.of_nat (length (refused_run l)) + 1) (refused_run l).

(** The event of the chunk [i], when there was room for it: its number, its number in its
    stream, its bytes, and the chunks that were refused just before it. *)
Definition event_at (attempts : list attempt) (i : nat) : option OutputEvent :=
  match attempts !! i with
  | Some (stream, bytes, true) =>
      Some (Data stream (Z.of_nat i + 1) (count_stream stream (take i attempts) + 1) bytes
              (loss_after (take i attempts)))
  | _ => None
  end.

Lemma refused_run_snoc (l : list attempt) (a : attempt) :
  refused_run (l ++ [a]) = if a.2 then [] else refused_run l ++ [a].
Proof. unfold refused_run. by rewrite foldl_app. Qed.

Lemma refused_run_length (l : list attempt) : (length (refused_run l) ≤ length l)%nat.
Proof.
  induction l as [|a l IH] using rev_ind; [done|]. rewrite refused_run_snoc.
  destruct (a.2); rewrite ?length_app; cbn; lia.
Qed.

Lemma bytes_of_snoc (l : list attempt) (a : attempt) :
  bytes_of (l ++ [a]) = bytes_of l + Z.of_nat (length a.1.2).
Proof. unfold bytes_of. induction l as [|b l IH]; cbn [foldr app]; lia. Qed.

Lemma bytes_of_nonneg (l : list attempt) : 0 ≤ bytes_of l.
Proof. unfold bytes_of. induction l as [|a l IH]; cbn [foldr]; lia. Qed.

Lemma count_stream_snoc (stream : OutputStream) (l : list attempt) (a : attempt) :
  count_stream stream (l ++ [a]) = count_stream stream l + (if is_stream stream a then 1 else 0).
Proof.
  unfold count_stream. rewrite filter_app, length_app, filter_cons, filter_nil.
  destruct (decide _) as [->|Hn%not_true_is_false]; [|rewrite Hn]; cbn [length]; lia.
Qed.

Lemma count_stream_bound (stream : OutputStream) (l : list attempt) :
  0 ≤ count_stream stream l ≤ Z.of_nat (length l).
Proof. unfold count_stream. pose proof (length_filter (λ a, is_stream stream a = true) l). lia. Qed.

(** The account of one more refused chunk. *)
Lemma record_loss (first : Z) (l : list attempt) (stream : OutputStream) (bytes : list Z) :
  Z.of_nat (length l) < u64_max →
  loss_of first (l ++ [(stream, bytes, false)]) =
  Some (record (default OutputLoss_default (loss_of first l)) stream
          (first + Z.of_nat (length l)) (Z.of_nat (length bytes))).
Proof.
  intros Hl. pose proof (count_stream_bound Stdout l). pose proof (count_stream_bound Stderr l).
  pose proof (bytes_of_nonneg l).
  unfold loss_of at 1. destruct (l ++ _) as [|x l'] eqn:E; [by destruct l|]. rewrite <-E.
  f_equal. rewrite length_app, bytes_of_snoc, !count_stream_snoc. cbn [length fst snd].
  destruct l as [|y l0].
  - cbn. unfold record, saturating_add, count_stream, u64_max, is_stream. cbn.
    destruct stream; cbn; f_equal; lia.
  - set (l := y :: l0) in *. change (loss_of first l) with (Some
      {| dropped_events := Z.of_nat (length l); dropped_bytes := Z.min (bytes_of l) u64_max;
         first_global_sequence := first; last_global_sequence := first + Z.of_nat (length l) - 1;
         stdout_events := count_stream Stdout l; stderr_events := count_stream Stderr l |}).
    assert (0 < Z.of_nat (length l)) by (cbn; lia). clearbody l.
    unfold record, saturating_add, is_stream.
    destruct stream; cbn; f_equal; repeat case_bool_decide; try done; try lia;
      by rewrite (proj2 (Z.eqb_neq _ _)) by lia.
Qed.

(** The chunks with this answer. *)
Definition count_answer (accepted : bool) (l : list attempt) : Z :=
  Z.of_nat (length (filter (λ a : attempt, eqb a.2 accepted = true) l)).

Lemma count_answer_snoc (b : bool) (l : list attempt) (a : attempt) :
  count_answer b (l ++ [a]) = count_answer b l + (if eqb a.2 b then 1 else 0).
Proof.
  unfold count_answer. rewrite filter_app, length_app, filter_cons, filter_nil.
  destruct (decide _) as [->|Hn%not_true_is_false]; [|rewrite Hn]; cbn [length]; lia.
Qed.

Lemma count_answer_bound (b : bool) (l : list attempt) :
  0 ≤ count_answer b l ≤ Z.of_nat (length l).
Proof.
  unfold count_answer. pose proof (length_filter (λ a : attempt, eqb a.2 b = true) l). lia.
Qed.

(** What the state says of the chunks so far. *)
Record describes (l : list attempt) (st : PublisherState) : Prop := {
  de_global : next_global_sequence st = Z.of_nat (length l) + 1;
  de_stdout : next_stdout_sequence st = count_stream Stdout l + 1;
  de_stderr : next_stderr_sequence st = count_stream Stderr l + 1;
  de_pending : pending_loss st = loss_after l;
  de_delivered : delivered_events (stats st) = count_answer true l;
  de_dropped : dropped_events (dropped (stats st)) = count_answer false l;
}.

Lemma publish_step (l : list attempt) (st : PublisherState) (stream : OutputStream)
    (bytes : list Z) (accepted : bool) :
  Z.of_nat (length l) + 1 < u64_max → describes l st →
  ∃ st', publish accepted st stream bytes =
    (Ok tt, st', if accepted
                 then Some (Data stream (Z.of_nat (length l) + 1) (count_stream stream l + 1) bytes
                              (loss_after l))
                 else None) ∧
    describes (l ++ [(stream, bytes, accepted)]) st'.
Proof.
  intros Hl [Hg Ho He Hp Hd Hx]. unfold publish, checked_add. rewrite Hg.
  pose proof (count_stream_bound Stdout l). pose proof (count_stream_bound Stderr l).
  rewrite (proj2 (Z.leb_le (Z.of_nat (length l) + 1 + 1) u64_max)) by lia.
  assert (match stream with Stdout => next_stdout_sequence st | Stderr => next_stderr_sequence st end =
          count_stream stream l + 1) as -> by (destruct stream; done).
  rewrite (proj2 (Z.leb_le (count_stream stream l + 1 + 1) u64_max)) by (destruct stream; lia).
  eexists. split; [by rewrite Hp|]. constructor; cbn [next_global_sequence next_stdout_sequence
    next_stderr_sequence pending_loss stats]; rewrite ?length_app, ?count_stream_snoc,
    ?count_answer_snoc; cbn [length fst snd].
  - lia.
  - rewrite Ho. unfold is_stream. destruct stream; cbn; repeat case_bool_decide; try done; lia.
  - rewrite He. unfold is_stream. destruct stream; cbn; repeat case_bool_decide; try done; lia.
  - unfold loss_after. rewrite refused_run_snoc, length_app. cbn [snd length].
    destruct accepted; [done|]. pose proof (refused_run_length l).
    rewrite record_loss, length_app by lia. cbn [length].
    replace (Z.of_nat (length l + 1) - Z.of_nat (length (refused_run l) + 1) + 1)
      with (Z.of_nat (length l) - Z.of_nat (length (refused_run l)) + 1) by lia.
    do 2 f_equal. lia.
  - pose proof (count_answer_bound true l). destruct accepted; cbn; unfold saturating_add; lia.
  - pose proof (count_answer_bound false l). destruct accepted; cbn; unfold saturating_add; lia.
Qed.

Lemma publish_all_snoc (l : list attempt) (st : PublisherState) (a : attempt) :
  publish_all (l ++ [a]) st =
  match publish_all l st with
  | (Err e, st, events) => (Err e, st, events)
  | (Ok _, st, events) =>
      match publish a.2 st a.1.1 a.1.2 with
      | (Err e, st, _) => (Err e, st, events)
      | (Ok _, st, sent) => (Ok tt, st, events ++ option_list sent)
      end
  end.
Proof.
  revert st. induction l as [|[[stream bytes] accepted] l IH]; intros st; cbn [app publish_all].
  - destruct a as [[stream bytes] accepted]. cbn [fst snd].
    destruct (publish accepted st stream bytes) as [[[[]|e] st'] sent]; [|done]. by rewrite app_nil_r.
  - destruct (publish accepted st stream bytes) as [[[u|e] st'] sent]; [|done]. rewrite IH.
    destruct (publish_all l st') as [[[[]|e] st2] events]; [|done].
    destruct (publish a.2 st2 a.1.1 a.1.2) as [[[u2|e] st3] sent3]; [|done]. by rewrite app_assoc.
Qed.

Lemma events_snoc (l : list attempt) (stream : OutputStream) (bytes : list Z) (accepted : bool) :
  omap (event_at (l ++ [(stream, bytes, accepted)])) (seq 0 (S (length l))) =
  omap (event_at l) (seq 0 (length l)) ++
  option_list (if accepted
               then Some (Data stream (Z.of_nat (length l) + 1) (count_stream stream l + 1) bytes
                            (loss_after l))
               else None).
Proof.
  rewrite seq_S, omap_app. f_equal.
  - apply list_omap_ext, Forall_Forall2_diag, Forall_seq. intros i Hi. unfold event_at.
    rewrite (lookup_app_l l) by lia. by rewrite (take_app_le l) by lia.
  - cbn. unfold event_at. rewrite list_lookup_middle, take_app_length by done. by destruct accepted.
Qed.

Lemma publish_all_spec (l : list attempt) :
  Z.of_nat (length l) < u64_max →
  ∃ st, publish_all l PublisherState_default =
          (Ok tt, st, omap (event_at l) (seq 0 (length l))) ∧ describes l st.
Proof.
  induction l as [|[[stream bytes] accepted] l IH] using rev_ind; intros Hl.
  { eexists. split; [done|]. by constructor. }
  rewrite length_app in Hl. cbn [length] in Hl. destruct IH as (st & Hp & Hd); [lia|].
  destruct (publish_step l st stream bytes accepted) as (st' & Hpub & Hd'); [lia|done|].
  exists st'. split; [|done]. rewrite publish_all_snoc, Hp. cbn [fst snd].
  rewrite Hpub, length_app. cbn [length]. rewrite Nat.add_1_r, events_snoc. done.
Qed.

(** Every chunk is delivered, in order and with its numbers, or counted in the one loss that is
    reported where it was refused: with the next chunk that is delivered, or at the end. *)
Theorem output_is_accounted (attempts : list attempt) :
  Z.of_nat (length attempts) < u64_max →
  read_all attempts =
  Ok (omap (event_at attempts) (seq 0 (length attempts)) ++
      option_list ((λ loss, Loss (Z.of_nat (length attempts)) loss) <$> loss_after attempts)).
Proof.
  intros Hl. destruct (publish_all_spec attempts Hl) as (st & Hp & Hd).
  unfold read_all. rewrite Hp. cbn [next]. rewrite (de_pending _ _ Hd). do 3 f_equal.
  unfold loss_after, loss_of. pose proof (refused_run_length attempts).
  destruct (refused_run attempts) as [|a l] eqn:E; [done|]. cbn. do 2 f_equal. cbn in *. lia.
Qed.

Lemma output_is_accounted_witness :
  read_all [(Stdout, [1], true); (Stderr, [2; 3], false); (Stdout, [4], false); (Stdout, [5], true);
            (Stderr, [6], false)] =
  Ok [Data Stdout 1 1 [1] None;
      Data Stdout 4 3 [5] (Some {| dropped_events := 2; dropped_bytes := 3;
        first_global_sequence := 2; last_global_sequence := 3; stdout_events := 1;
        stderr_events := 1 |});
      Loss 5 {| dropped_events := 1; dropped_bytes := 1; first_global_sequence := 5;
        last_global_sequence := 5; stdout_events := 0; stderr_events := 1 |}].
Proof. rewrite output_is_accounted; [reflexivity|done]. Defined.

End Output.
