(* ===== verification/GuestService.v ===== *)
(** * The services of the guest ([guest/sendbox-guest/src/service.rs])

    The guest starts its services in the order of their dependencies, watches them, and stops
    them in the reverse order.  Processes are seen through the replies of the operating system.

    The theorems show that the order is a topological order exactly when there is one, that
    after a start all mandatory services run and were started after what they depend on, that a
    failed start or a shutdown leaves nothing running and no readiness, and that the readiness
    gate, once revoked, stays shut until it is armed. *)

From S2P Require Import Prelude RustStr.

(** ** Data *)

Inductive ServiceId : Type := Exec | Mcp | Dns | Egress | Audit | Bpf | SafeOutputs.

#[global] Instance ServiceId_eq_dec : EqDecision ServiceId.
Proof. solve_decision. Defined.

(** In the order of the type. *)
Definition all_ids : list ServiceId := [Exec; Mcp; Dns; Egress; Audit; Bpf; SafeOutputs].

#[global] Instance ServiceId_countable : Countable ServiceId.
Proof.
  refine (inj_countable (λ id, default 0%nat (position (λ j, bool_decide (j = id)) all_ids))
    (λ n, all_ids !! n) _).
  by intros [].
Defined.

Definition service_name (id : ServiceId) : list Z :=
  str match id with
      | Exec => "exec" | Mcp => "mcp" | Dns => "dns" | Egress => "egress" | Audit => "audit"
      | Bpf => "bpf" | SafeOutputs => "safe_outputs"
      end.

Record RestartPolicy : Type := {
  max_restarts : Z;
  backoff_ms : Z;
}.

Inductive HealthCheck : Type :=
| ProcessAlive (delay_ms : Z)
| UnixSocket (path : list Z) (timeout_ms : Z).

Record ServiceSpec : Type := {
  ssp_id : ServiceId;
  ssp_dependencies : list ServiceId;
  ssp_executable : list Z;
  ssp_args : list (list Z);
  ssp_mandatory : bool;
  ssp_restart : RestartPolicy;
  ssp_health : HealthCheck;
  ssp_graceful_shutdown_ms : Z;
  ssp_forced_shutdown_ms : Z;
  ssp_max_log_bytes : Z;
}.

Inductive GuestError : Type :=
| Bootstrap (detail : list Z)
| BootstrapConsumedError
| BootstrapTooLarge (limit : Z)
| Manifest (detail : list Z)
| Artifact (path detail : list Z)
| Runtime (detail : list Z)
| InvalidTransition (from to : list Z)
| ControlNotVerified (control : list Z)
| ServiceConfig (detail : list Z)
| Service (service detail : list Z)
| Protocol (detail : list Z)
| Io (context source : list Z).

(** [Display] *)
Definition guest_error_text (error : GuestError) : list Z :=
  match error with
  | Bootstrap detail => str "invalid bootstrap material: " ++ detail
  | BootstrapConsumedError => str "bootstrap material was already consumed"
  | BootstrapTooLarge limit =>
      str "bootstrap material exceeds the " ++ show_dec limit ++ str "-byte limit"
  | Manifest detail => str "artifact manifest is invalid: " ++ detail
  | Artifact path detail => str "artifact verification failed for " ++ path ++ str ": " ++ detail
  | Runtime detail => str "runtime state is invalid: " ++ detail
  | InvalidTransition from to =>
      str "startup state transition from " ++ from ++ str " to " ++ to ++ str " is not allowed"
  | ControlNotVerified control =>
      str "required platform control " ++ control ++ str " was not verified"
  | ServiceConfig detail => str "service configuration is invalid: " ++ detail
  | Service service detail => str "service " ++ service ++ str " failed: " ++ detail
  | Protocol detail => str "protocol failed: " ++ detail
  | Io context source => str "I/O failed while " ++ context ++ str ": " ++ source
  end.

Notation GuestResult := (result GuestError).

(** A [BTreeMap] over the services, and its iteration. *)
Notation service_map := (gmap ServiceId).

Definition keys {A : Type} (m : service_map A) : list ServiceId :=
  filter (λ id, is_Some (m !! id)) all_ids.

Definition values {A : Type} (m : service_map A) : list A := omap (λ id, m !! id) all_ids.

Lemma all_ids_elem (id : ServiceId) : id ∈ all_ids.
Proof. destruct id; unfold all_ids; set_solver. Qed.

Lemma all_ids_NoDup : NoDup all_ids.
Proof. apply (bool_decide_unpack _). by vm_compute. Qed.

Lemma keys_elem {A : Type} (m : service_map A) (id : ServiceId) : id ∈ keys m ↔ is_Some (m !! id).
Proof. unfold keys. rewrite list_elem_of_filter. pose proof (all_ids_elem id). naive_solver. Qed.

Lemma keys_NoDup {A : Type} (m : service_map A) : NoDup (keys m).
Proof. apply NoDup_filter, all_ids_NoDup. Qed.

(** ** Logs *)

Record BoundedLog : Type := {
  bl_bytes : list Z;
  bl_limit : nat;
  bl_truncated : bool;
}.

Definition new_bounded_log (limit : nat) : BoundedLog :=
  {| bl_bytes := []; bl_limit := limit; bl_truncated := false |}.

Definition push (log : BoundedLog) (chunk : list Z) : BoundedLog :=
  let remaining := (bl_limit log - length (bl_bytes log))%nat in
  {| bl_bytes := bl_bytes log ++ take (Nat.min (length chunk) remaining) chunk;
     bl_limit := bl_limit log;
     bl_truncated := bl_truncated log || (remaining <? length chunk)%nat |}.

(** [drain_log]: the chunks that are read until the end or an error *)
Definition drain_log (log : BoundedLog) (chunks : list (list Z)) : BoundedLog :=
  foldl push log chunks.

(** ** Validation *)

Inductive ArtifactKind : Type :=
| GuestBinary | ServiceBinary | BpfObject | UnikraftShellKernel | Initrd.

(** The verified artifacts: their kinds and descriptors *)
Definition VerifiedManifest : Type := gmap (list Z) (ArtifactKind * Z).

Section Validation.
(** The reply of the operating system when a descriptor is duplicated. *)
Variable try_clone : Z → result (list Z) Z.

Definition executable_descriptor (manifest : VerifiedManifest) (path : list Z) : GuestResult Z :=
  match manifest !! path with
  | None => Err (Artifact path (str "service executable is not a verified artifact"))
  | Some (kind, descriptor) =>
      match kind with
      | GuestBinary | ServiceBinary =>
          map_err (Io (str "duplicating verified executable")) (try_clone descriptor)
      | _ => Err (Artifact path (str "artifact is not executable service material"))
      end
  end.

Definition check_spec (manifest : VerifiedManifest) (spec : ServiceSpec) : GuestResult Z :=
  if (ssp_max_log_bytes spec =? 0) || (1024 * 1024 <? ssp_max_log_bytes spec)
  then Err (ServiceConfig (service_name (ssp_id spec) ++
              str " log limit must be between 1 and 1048576"))
  else map_err (λ e, ServiceConfig (guest_error_text e))
         (executable_descriptor manifest (ssp_executable spec)).

(** The specifications by their identifiers. *)
Fixpoint collect_specs (manifest : VerifiedManifest) (specs : list ServiceSpec)
    (by_id : service_map ServiceSpec) (executables : service_map Z)
  : GuestResult (service_map ServiceSpec * service_map Z) :=
  match specs with
  | [] => Ok (by_id, executables)
  | spec :: specs =>
      let? descriptor := check_spec manifest spec in
      let executables := <[ssp_id spec := descriptor]> executables in
      if bool_decide (is_Some (by_id !! ssp_id spec))
      then Err (ServiceConfig (str "duplicate service identifier"))
      else collect_specs manifest specs (<[ssp_id spec := spec]> by_id) executables
  end.

Fixpoint check_required (by_id : service_map ServiceSpec) (required : list ServiceId)
  : GuestResult unit :=
  match required with
  | [] => Ok tt
  | id :: required =>
      match by_id !! id with
      | None => Err (ServiceConfig (str "required service " ++ service_name id ++ str " is missing"))
      | Some spec =>
          if negb (ssp_mandatory spec)
          then Err (ServiceConfig (str "required service " ++ service_name id ++
                      str " must be mandatory"))
          else check_required by_id required
      end
  end.

Fixpoint check_dependencies (by_id : service_map ServiceSpec) (spec : ServiceSpec)
    (dependencies : list ServiceId) : GuestResult unit :=
  match dependencies with
  | [] => Ok tt
  | dependency :: dependencies =>
      match by_id !! dependency with
      | None => Err (ServiceConfig (service_name (ssp_id spec) ++ str " depends on missing service " ++
                       service_name dependency))
      | Some dependency_spec =>
          if ssp_mandatory spec && negb (ssp_mandatory dependency_spec)
          then Err (ServiceConfig (str "mandatory service " ++ service_name (ssp_id spec) ++
                      str " depends on optional service " ++ service_name dependency))
          else check_dependencies by_id spec dependencies
      end
  end.

Fixpoint check_all (by_id : service_map ServiceSpec) (specs : list ServiceSpec) : GuestResult unit :=
  match specs with
  | [] => Ok tt
  | spec :: specs =>
      check? check_dependencies by_id spec (ssp_dependencies spec) in check_all by_id specs
  end.

(** [for id in ready]: what remains, without the services that are ready *)
Definition remove_ready (remaining : service_map (gset ServiceId)) (ready : list ServiceId)
  : service_map (gset ServiceId) :=
  foldl (λ remaining id, (λ dependencies, dependencies ∖ {[ id ]}) <$> delete id remaining)
    remaining ready.

Definition ready_ids (remaining : service_map (gset ServiceId)) : list ServiceId :=
  filter (λ id, remaining !! id = Some ∅) (keys remaining).

(** A round takes at least one service, so there are no more rounds than services. *)
Fixpoint order_loop (fuel : nat) (remaining : service_map (gset ServiceId))
    (order : list ServiceId) : GuestResult (list ServiceId) :=
  if bool_decide (remaining = ∅) then Ok order
  else
    match fuel with
    | O => Err (Runtime (str "out of rounds"))
    | S fuel =>
        let ready := ready_ids remaining in
        if bool_decide (ready = []) then Err (ServiceConfig (str "service dependency cycle detected"))
        else order_loop fuel (remove_ready remaining ready) (order ++ ready)
    end.

Definition topological_order (specs : service_map ServiceSpec) : GuestResult (list ServiceId) :=
  order_loop (size specs) ((λ spec, list_to_set (ssp_dependencies spec)) <$> specs) [].

Definition validate_specs (manifest : VerifiedManifest) (specs : list ServiceSpec)
    (required : list ServiceId)
  : GuestResult (service_map ServiceSpec * list ServiceId * service_map Z) :=
  let? ' (by_id, executables) := collect_specs manifest specs ∅ ∅ in
  check? check_required by_id required in
  check? check_all by_id (values by_id) in
  let? order := topological_order by_id in
  Ok (by_id, order, executables).

End Validation.

(** ** Processes *)

(** [try_wait] *)
Inductive TryWait : Type :=
| StillRunning
| Exited (status : list Z)
| WaitError (error : list Z).

Record RunningService : Type := {
  rs_spec : ServiceSpec;
  rs_process_group : Z;
  rs_restart_count : Z;
}.

Definition service_error (spec : ServiceSpec) (detail : list Z) : GuestError :=
  Service (service_name (ssp_id spec)) detail.

(** The polls of a socket until the deadline: whether the process is there, whether the socket
    accepts.  The check times out after the last one. *)
Fixpoint check_socket (spec : ServiceSpec) (path : list Z) (polls : list (TryWait * bool))
  : GuestResult unit :=
  match polls with
  | [] => Err (service_error spec (str "socket health check timed out: " ++ path))
  | (WaitError error, _) :: _ => Err (service_error spec (str "checking socket health: " ++ error))
  | (Exited status, _) :: _ =>
      Err (service_error spec (str "exited before socket health check: " ++ status))
  | (StillRunning, true) :: _ => Ok tt
  | (StillRunning, false) :: polls => check_socket spec path polls
  end.

(** What a health check sees. *)
Record HealthReplies : Type := {
  hr_alive : TryWait;
  hr_polls : list (TryWait * bool);
}.

Definition check_health (spec : ServiceSpec) (replies : HealthReplies) : GuestResult unit :=
  match ssp_health spec with
  | ProcessAlive _ =>
      match hr_alive replies with
      | WaitError error => Err (service_error spec (str "checking startup health: " ++ error))
      | Exited status =>
          Err (service_error spec (str "exited during startup health check: " ++ status))
      | StillRunning => Ok tt
      end
  | UnixSocket path _ => check_socket spec path (hr_polls replies)
  end.

Record SpawnReplies : Type := {
  sr_spawn : result (list Z) (option Z);
  sr_health : HealthReplies;
}.

(** A process that was started, and a service value that was dropped, which kills its group. *)
Inductive ProcEvent : Type :=
| Spawned (id : ServiceId) (group : Z)
| Dropped (id : ServiceId) (group : Z).

(** The verified file, by its descriptor. *)
Definition executable_path (executable : Z) : list Z := str "/proc/self/fd/" ++ show_dec executable.

Definition spawn_service (executable : Z) (spec : ServiceSpec) (restart_count : Z)
    (replies : SpawnReplies) : GuestResult RunningService * list ProcEvent :=
  match sr_spawn replies with
  | Err error =>
      (Err (service_error spec (str "spawning " ++ executable_path executable ++ str ": " ++ error)), [])
  | Ok None => (Err (service_error spec (str "spawned process has no PID")), [])
  | Ok (Some pid) =>
      if pid =? 0 then (Err (service_error spec (str "spawned process has an invalid PID")), [])
      else
        match check_health spec (sr_health replies) with
        | Err e => (Err e, [Spawned (ssp_id spec) pid; Dropped (ssp_id spec) pid])
        | Ok _ =>
            (Ok {| rs_spec := spec; rs_process_group := pid; rs_restart_count := restart_count |},
             [Spawned (ssp_id spec) pid])
        end
  end.

(** [kill_process_group]: no such group is success *)
Inductive SignalReply : Type := Signalled | NoSuchGroup | SignalError (error : list Z).

Definition signal_group (reply : SignalReply) : GuestResult unit :=
  match reply with
  | Signalled | NoSuchGroup => Ok tt
  | SignalError error => Err (Io (str "signalling service process group") error)
  end.

(** [timeout(child.wait())] *)
Inductive WaitReply : Type := Reaped | ReapError (error : list Z) | TimedOut.

Record TerminateReplies : Type := {
  tr_term : SignalReply;
  tr_wait : WaitReply;
  tr_kill : SignalReply;
  tr_wait_killed : WaitReply;
  tr_group_live : bool;
  tr_kill_group : SignalReply;
  tr_group_gone : bool;
}.

Definition terminate_service (spec : ServiceSpec) (replies : TerminateReplies) : GuestResult unit :=
  check? signal_group (tr_term replies) in
  check? match tr_wait replies with
         | Reaped => Ok tt
         | ReapError error =>
             Err (service_error spec (str "reaping process after SIGTERM: " ++ error))
         | TimedOut =>
             check? signal_group (tr_kill replies) in
             match tr_wait_killed replies with
             | TimedOut =>
                 Err (service_error spec (str "process group did not terminate after SIGKILL"))
             | ReapError error =>
                 Err (service_error spec (str "reaping process after SIGKILL: " ++ error))
             | Reaped => Ok tt
             end
         end in
  if tr_group_live replies then
    check? signal_group (tr_kill_group replies) in
    if tr_group_gone replies then Ok tt
    else Err (service_error spec (str "service descendants remained live after SIGKILL"))
  else Ok tt.

(** ** The manager *)

Record ReadinessGate : Type := {
  rg_ready : bool;
  rg_mandatory_groups : service_map Z;
}.

Record ServiceManager : Type := {
  m_specs : service_map ServiceSpec;
  m_executables : service_map Z;
  m_order : list ServiceId;
  m_running : service_map RunningService;
  m_readiness : ReadinessGate;
  m_audit : list (list Z * ServiceId * list Z);
  m_trace : list ProcEvent;
}.

Definition set_running (m : ServiceManager) (running : service_map RunningService)
    (events : list ProcEvent) : ServiceManager :=
  {| m_specs := m_specs m; m_executables := m_executables m; m_order := m_order m; 
     m_running := running; m_readiness := m_readiness m; m_audit := m_audit m; m_trace := m_trace m ++ events |}.

Definition set_readiness (m : ServiceManager) (gate : ReadinessGate) : ServiceManager :=
  {| m_specs := m_specs m; m_executables := m_executables m; m_order := m_order m; 
     m_running := m_running m; m_readiness := gate; m_audit := m_audit m; m_trace := m_trace m |}.

Definition record (m : ServiceManager) (code : string) (id : ServiceId) (detail : list Z)
  : ServiceManager :=
  {| m_specs := m_specs m; m_executables := m_executables m; m_order := m_order m; 
     m_running := m_running m; m_readiness := m_readiness m; m_audit := m_audit m ++ [(str code, id, detail)];
     m_trace := m_trace m |}.

(** [ServiceManager::new], with the replies when descriptors are duplicated *)
Definition new_manager (try_clone : Z → result (list Z) Z) (manifest : VerifiedManifest)
    (specs : list ServiceSpec) (required : list ServiceId) : GuestResult ServiceManager :=
  let? ' (specs, order, executables) := validate_specs try_clone manifest specs required in
  Ok
  {| m_specs := specs; m_executables := executables; m_order := order; m_running := ∅;
     m_readiness := {| rg_ready := false; rg_mandatory_groups := ∅ |}; m_audit := [];
     m_trace := [] |}.

(** [ReadinessGate::arm] *)
Definition arm (services : service_map RunningService) : ReadinessGate :=
  {| rg_ready := true;
     rg_mandatory_groups :=
       rs_process_group <$> filter (λ kv, ssp_mandatory (rs_spec kv.2) = true) services |}.

Definition arm_readiness (m : ServiceManager) : ServiceManager := set_readiness m (arm (m_running m)).

Definition revoke (gate : ReadinessGate) : ReadinessGate :=
  {| rg_ready := false; rg_mandatory_groups := rg_mandatory_groups gate |}.

(** With what the operating system says of the groups; a group that is gone shuts the gate. *)
Definition verified_live (live : Z → bool) (gate : ReadinessGate) : bool * ReadinessGate :=
  if negb (rg_ready gate) then (false, gate)
  else
    let all_live := forallb live (values (rg_mandatory_groups gate)) in
    (all_live, if all_live then gate else revoke gate).

(** [failures.join(separator)] *)
Fixpoint join_texts (separator : list Z) (texts : list (list Z)) : list Z :=
  match texts with
  | [] => []
  | [text] => text
  | text :: texts => text ++ separator ++ join_texts separator texts
  end.

Definition stop_service (replies : ServiceId → TerminateReplies)
    (acc : ServiceManager * list (list Z)) (id : ServiceId) : ServiceManager * list (list Z) :=
  let '(m, failures) := acc in
  match m_running m !! id with
  | None => (m, failures)
  | Some service =>
      let r := terminate_service (rs_spec service) (replies id) in
      let m := set_running m (delete id (m_running m)) [Dropped id (rs_process_group service)] in
      match r with
      | Ok _ => (record m "service_stopped" id (str "process group reaped"), failures)
      | Err e =>
          (record m "service_stop_failed" id (guest_error_text e),
           failures ++ [service_name id ++ str ": " ++ guest_error_text e])
      end
  end.

Definition shutdown (replies : ServiceId → TerminateReplies) (m : ServiceManager)
  : GuestResult unit * ServiceManager :=
  let m := set_readiness m (revoke (m_readiness m)) in
  let '(m, failures) := foldl (stop_service replies) (m, []) (reverse (m_order m)) in
  match failures with
  | [] => (Ok tt, m)
  | _ => (Err (Runtime (str "service shutdown failures: " ++ join_texts (str "; ") failures)), m)
  end.

Section Start.
Variable spawn : ServiceId → SpawnReplies.
Variable stop : ServiceId → TerminateReplies.

(** The order has only services with a specification and an executable, see [co_order] and
    [co_executables]: the last case is a panic that does not come. *)
Fixpoint start_loop (ids : list ServiceId) (m : ServiceManager) : GuestResult unit * ServiceManager :=
  match ids with
  | [] => (Ok tt, m)
  | id :: ids =>
      match m_specs m !! id, m_executables m !! id with
      | Some spec, Some executable =>
          match spawn_service executable spec 0 (spawn id) with
          | (Ok service, events) =>
              start_loop ids
                (set_running (record m "service_started" id (str "health check passed"))
                   (<[id := service]> (m_running m)) events)
          | (Err e, events) =>
              let m := set_running m (m_running m) events in
              if negb (ssp_mandatory spec)
              then start_loop ids (record m "optional_service_failed" id (guest_error_text e))
              else
                match shutdown stop m with
                | (Err e', m) => (Err e', m)
                | (Ok _, m) => (Err e, m)
                end
          end
      | _, _ => (Err (Runtime (str "panic")), m)
      end
  end.

Definition start_all (m : ServiceManager) : GuestResult unit * ServiceManager :=
  start_loop (m_order m) m.

End Start.

(** ** Watching *)

Definition restart_allowed (policy : RestartPolicy) (next_restart : Z) : bool :=
  next_restart <=? max_restarts policy.

(** The first running service that is not there any more, or whose state cannot be read. *)
Fixpoint find_exited (wait : ServiceId → TryWait) (ids : list ServiceId)
  : option (ServiceId * TryWait) :=
  match ids with
  | [] => None
  | id :: ids =>
      match wait id with
      | StillRunning => find_exited wait ids
      | reply => Some (id, reply)
      end
  end.

(** The services that depend on [dependency], and that run, are checked again. *)
Fixpoint recheck (health : ServiceId → HealthReplies) (m : ServiceManager)
    (dependents : list ServiceSpec) : GuestResult unit :=
  match dependents with
  | [] => Ok tt
  | spec :: dependents =>
      match m_running m !! ssp_id spec with
      | None => recheck health m dependents
      | Some service =>
          check? check_health (rs_spec service) (health (ssp_id spec)) in
          recheck health m dependents
      end
  end.

Definition recheck_dependents (health : ServiceId → HealthReplies) (m : ServiceManager)
    (dependency : ServiceId) : GuestResult unit :=
  recheck health m
    (filter (λ spec, dependency ∈ ssp_dependencies spec) (values (m_specs m))).

(** One round of [wait_for_mandatory_failure]; the failure ends the loop. *)
Definition watch_round (wait : ServiceId → TryWait) (spawn : ServiceId → SpawnReplies)
    (health : ServiceId → HealthReplies) (m : ServiceManager)
  : option GuestError * ServiceManager :=
  match find_exited wait (keys (m_running m)) with
  | None | Some (_, StillRunning) => (None, m)
  | Some (id, WaitError error) =>
      (Some (Service (service_name id) (str "checking process status: " ++ error)), m)
  | Some (id, Exited status) =>
      match m_running m !! id with
      | None => (None, m)
      | Some service =>
          let m := set_running m (delete id (m_running m)) [] in
          let m := record m "service_exited" id status in
          let spec := rs_spec service in
          let next_restart := rs_restart_count service + 1 in
          let m := set_running m (m_running m) [Dropped id (rs_process_group service)] in
          if ssp_mandatory spec
          then (Some (Service (service_name id) (str "mandatory service exited: " ++ status)),
                set_readiness m (revoke (m_readiness m)))
          else if restart_allowed (ssp_restart spec) next_restart
          then
            match m_executables m !! id with
            | None => (Some (Runtime (str "panic")), m)
            | Some executable =>
                match spawn_service executable spec next_restart (spawn id) with
                | (Err e, events) => (Some e, set_running m (m_running m) events)
                | (Ok restarted, events) =>
                    let m := record m "service_restarted" id
                               (str "restart " ++ show_dec next_restart) in
                    let m := set_running m (<[id := restarted]> (m_running m)) events in
                    match recheck_dependents health m id with
                    | Err e => (Some e, m)
                    | Ok _ => (None, m)
                    end
                end
            end
          else (None, record m "optional_service_stopped" id status)
      end
  end.

Record ServiceHealth : Type := {
  sh_id : ServiceId;
  sh_mandatory : bool;
  sh_healthy : bool;
  sh_restart_count : Z;
  sh_stdout_bytes : nat;
  sh_stderr_bytes : nat;
  sh_output_truncated : bool;
}.

(** With the output and error logs of the services; what runs is reported as healthy. *)
Definition health (logs : ServiceId → BoundedLog * BoundedLog) (m : ServiceManager)
  : list ServiceHealth :=
  omap (λ id,
    (λ service,
       let '(stdout, stderr) := logs id in
       {| sh_id := ssp_id (rs_spec service); sh_mandatory := ssp_mandatory (rs_spec service);
          sh_healthy := true; sh_restart_count := rs_restart_count service;
          sh_stdout_bytes := length (bl_bytes stdout); sh_stderr_bytes := length (bl_bytes stderr);
          sh_output_truncated := bl_truncated stdout || bl_truncated stderr |})
    <$> m_running m !! id)
    (m_order m).

(** ** Logs *)

(** A log keeps the first bytes up to its limit, and says whether there were more. *)
Theorem log_is_bounded (limit : nat) (chunks : list (list Z)) :
  drain_log (new_bounded_log limit) chunks =
  {| bl_bytes := take limit (mjoin chunks); bl_limit := limit;
     bl_truncated := (limit <? length (mjoin chunks))%nat |}.
Proof.
  unfold drain_log. induction chunks as [|chunk chunks IH] using rev_ind.
  { change (mjoin []) with (@nil Z). rewrite take_nil. by destruct limit. }
  rewrite foldl_app, IH. cbn [foldl]. unfold push. cbn [bl_bytes bl_limit bl_truncated].
  rewrite length_take. assert (mjoin (chunks ++ [chunk]) = mjoin chunks ++ chunk) as ->
    by (rewrite join_app; cbn; by rewrite app_nil_r).
  rewrite length_app, take_app. f_equal.
  - f_equal. destruct (decide (length (mjoin chunks) ≤ limit)%nat).
    + rewrite (Nat.min_r limit) by lia.
      destruct (decide (length chunk ≤ limit - length (mjoin chunks))%nat).
      * rewrite Nat.min_l, !take_ge by lia. done.
      * by rewrite Nat.min_r by lia.
    + rewrite (Nat.min_l limit) by lia. replace (limit - limit)%nat with 0%nat by lia.
      replace (limit - length (mjoin chunks))%nat with 0%nat by lia. by rewrite Nat.min_0_r.
  - destruct (Nat.ltb_spec limit (length (mjoin chunks))), (Nat.ltb_spec limit (length (mjoin chunks) + length chunk)),
      (Nat.ltb_spec (limit - Nat.min limit (length (mjoin chunks))) (length chunk)); try done; lia.
Qed.

(** ** The order of the services *)

(** Every dependency is a service. *)
Definition closed (deps : service_map (gset ServiceId)) : Prop :=
  ∀ id ds d, deps !! id = Some ds → d ∈ ds → is_Some (deps !! d).

(** Every service comes after what it depends on. *)
Definition respects (deps : service_map (gset ServiceId)) (order : list ServiceId) : Prop :=
  ∀ l1 id l2 ds, order = l1 ++ id :: l2 → deps !! id = Some ds → ds ⊆ list_to_set l1.

(** Services that wait for each other. *)
Definition cyclic (deps : service_map (gset ServiceId)) (ids : gset ServiceId) : Prop :=
  ids ≠ ∅ ∧ ∀ id, id ∈ ids → ∃ ds d, deps !! id = Some ds ∧ d ∈ ds ∧ d ∈ ids.

Lemma remove_ready_lookup (remaining : service_map (gset ServiceId)) (ready : list ServiceId)
    (id : ServiceId) :
  remove_ready remaining ready !! id =
  if decide (id ∈ ready) then None else (λ ds, ds ∖ list_to_set ready) <$> remaining !! id.
Proof.
  revert remaining. unfold remove_ready. induction ready as [|r ready IH]; intros remaining; cbn [foldl].
  { rewrite decide_False by set_solver. destruct (remaining !! id) as [ds|]; [|done]. cbn.
    f_equal. set_solver. }
  rewrite IH, lookup_fmap. destruct (decide (id ∈ ready)) as [H|H].
  { by rewrite decide_True by set_solver. }
  destruct (decide (id = r)) as [->|Hne].
  - rewrite lookup_delete_eq, decide_True by set_solver. done.
  - rewrite lookup_delete_ne, decide_False by set_solver.
    destruct (remaining !! id) as [ds|]; [|done]. cbn. f_equal. set_solver.
Qed.

Record order_state (deps remaining : service_map (gset ServiceId)) (order : list ServiceId)
  : Prop := {
  os_nodup : NoDup order;
  os_split : ∀ id, is_Some (deps !! id) ↔ id ∈ order ∨ is_Some (remaining !! id);
  os_apart : ∀ id, id ∈ order → remaining !! id = None;
  os_sets : ∀ id ds, remaining !! id = Some ds →
    ∃ all, deps !! id = Some all ∧ ds = all ∖ list_to_set order;
  os_respects : respects deps order;
}.

Lemma ready_elem (remaining : service_map (gset ServiceId)) (id : ServiceId) :
  id ∈ ready_ids remaining ↔ remaining !! id = Some ∅.
Proof. unfold ready_ids. rewrite list_elem_of_filter, keys_elem. naive_solver. Qed.

Lemma ready_NoDup (remaining : service_map (gset ServiceId)) : NoDup (ready_ids remaining).
Proof. apply NoDup_filter, keys_NoDup. Qed.

Lemma nothing_left (a b : gset ServiceId) : ∅ = a ∖ b → a ⊆ b.
Proof. intros H x Hx. destruct (decide (x ∈ b)); [done|]. set_solver. Qed.

Lemma order_round (deps remaining : service_map (gset ServiceId)) (order : list ServiceId) :
  order_state deps remaining order →
  order_state deps (remove_ready remaining (ready_ids remaining)) (order ++ ready_ids remaining).
Proof.
  intros [Hn Hs Ha Hd Hr]. constructor.
  - apply NoDup_app. split; [done|]. split; [|apply ready_NoDup].
    intros id Hid Hin. apply ready_elem in Hin. rewrite (Ha id Hid) in Hin. done.
  - intros id. rewrite Hs, elem_of_app, remove_ready_lookup.
    destruct (decide (id ∈ ready_ids remaining)) as [H|H].
    + pose proof (proj1 (ready_elem _ _) H) as E. rewrite E. naive_solver.
    + destruct (remaining !! id); cbn; naive_solver.
  - intros id [Hid|Hid]%elem_of_app; rewrite remove_ready_lookup.
    + rewrite (Ha id Hid). by destruct (decide _).
    + by rewrite decide_True.
  - intros id ds. rewrite remove_ready_lookup. destruct (decide _); [done|].
    destruct (remaining !! id) as [ds'|] eqn:E; [|done]. intros [= <-].
    destruct (Hd id ds' E) as (all & Hall & ->). exists all. split; [done|].
    rewrite list_to_set_app_L. set_solver.
  - intros l1 id l2 ds He Hid.
    assert (id ∈ order ∨ id ∈ ready_ids remaining) as Hin.
    { apply elem_of_app. rewrite He. set_solver. }
    apply app_eq_app in He as (l & [[-> E]|[-> E]]).
    + destruct l as [|x l]; cbn [app] in E.
      * rewrite app_nil_r in *.
        assert (id ∈ ready_ids remaining) as Hready by (rewrite <-E; by left).
        apply ready_elem in Hready. destruct (Hd id ∅ Hready) as (all & Hall & Hsub).
        rewrite Hid in Hall. injection Hall as <-. by apply nothing_left.
      * injection E as <- ->. by eapply (Hr l1 id l).
    + assert (id ∈ ready_ids remaining) as Hready by (rewrite E; set_solver).
      apply ready_elem in Hready. destruct (Hd id ∅ Hready) as (all & Hall & Hsub).
      rewrite Hid in Hall. injection Hall as <-. rewrite list_to_set_app_L.
      apply union_subseteq_l'. by apply nothing_left.
Qed.

Lemma remove_ready_size (remaining : service_map (gset ServiceId)) :
  ready_ids remaining ≠ [] →
  (size (remove_ready remaining (ready_ids remaining)) < size remaining)%nat.
Proof.
  intros Hne. destruct (ready_ids remaining) as [|r ready] eqn:Er; [done|]. rewrite <-Er.
  assert (r ∈ ready_ids remaining) as Hr by (rewrite Er; by left).
  rewrite <-!size_dom. apply subset_size. split.
  - intros id. rewrite !elem_of_dom, remove_ready_lookup. destruct (decide _); [by intros []|].
    by rewrite fmap_is_Some.
  - intros Hsub. specialize (Hsub r). rewrite !elem_of_dom, remove_ready_lookup in Hsub.
    rewrite decide_True in Hsub by done. apply ready_elem in Hr. rewrite Hr in Hsub.
    destruct Hsub as [? [=]]. by eexists.
Qed.

Lemma order_loop_spec (fuel : nat) (deps remaining : service_map (gset ServiceId))
    (order : list ServiceId) :
  closed deps → order_state deps remaining order → (size remaining ≤ fuel)%nat →
  match order_loop fuel remaining order with
  | Ok order' => NoDup order' ∧ (∀ id, id ∈ order' ↔ is_Some (deps !! id)) ∧ respects deps order'
  | Err e => e = ServiceConfig (str "service dependency cycle detected") ∧ ∃ ids, cyclic deps ids
  end.
Proof.
  intros Hc. revert remaining order. induction fuel as [|fuel IH]; intros remaining order Hs Hf;
    cbn [order_loop]; case_bool_decide as He.
  - subst remaining. destruct Hs as [Hn Hs _ _ Hr]. split_and!; [done| |done].
    intros id. rewrite Hs, lookup_empty. split; [auto|]. by intros [?|[]].
  - exfalso. apply He. apply map_size_empty_iff. lia.
  - subst remaining. destruct Hs as [Hn Hs _ _ Hr]. split_and!; [done| |done].
    intros id. rewrite Hs, lookup_empty. split; [auto|]. by intros [?|[]].
  - cbv zeta. case_bool_decide as Hr.
    + split; [done|]. exists (dom remaining). split.
      * by rewrite dom_empty_iff_L.
      * intros id Hid. apply elem_of_dom in Hid as [ds Hds].
        destruct (os_sets _ _ _ Hs id ds Hds) as (all & Hall & Hsub).
        assert (ds ≠ ∅) as Hne.
        { intros ->. apply ready_elem in Hds. rewrite Hr in Hds. by apply not_elem_of_nil in Hds. }
        apply set_choose_L in Hne as [d Hd]. exists all, d. rewrite Hsub in Hd.
        apply elem_of_difference in Hd as [Hd Hnd]. split_and!; [done..|].
        apply elem_of_dom. pose proof (Hc id all d Hall Hd) as Hsome.
        apply (os_split _ _ _ Hs) in Hsome as [Hin|Hin]; [|done].
        exfalso. apply Hnd. by apply elem_of_list_to_set.
    + apply IH; [by apply order_round|]. pose proof (remove_ready_size remaining Hr). lia.
Qed.

(** Services that wait for each other have no order. *)
Lemma cyclic_no_order (deps : service_map (gset ServiceId)) (ids : gset ServiceId)
    (order : list ServiceId) :
  cyclic deps ids → (∀ id, id ∈ order ↔ is_Some (deps !! id)) → ¬ respects deps order.
Proof.
  intros [Hne Hc] Hall Hr.
  assert (∀ l1 l2, order = l1 ++ l2 → ∀ id, id ∈ ids → id ∉ l1) as Hno.
  { induction l1 as [|x l1 IH] using rev_ind; intros l2 He id Hid; [set_solver|].
    rewrite <-app_assoc in He. rewrite elem_of_app, list_elem_of_singleton. intros [Hin| ->].
    - by apply (IH _ He id Hid).
    - destruct (Hc x Hid) as (ds & d & Hd & Hin & Hids).
      specialize (Hr l1 x l2 ds He Hd d Hin). apply elem_of_list_to_set in Hr.
      by apply (IH _ He d Hids). }
  apply set_choose_L in Hne as [id Hid]. destruct (Hc id Hid) as (ds & d & Hd & _).
  apply (Hno order [] ltac:(by rewrite app_nil_r) id Hid). apply Hall. by eexists.
Qed.

Definition dependency_sets (specs : service_map ServiceSpec) : service_map (gset ServiceId) :=
  (λ spec, list_to_set (ssp_dependencies spec)) <$> specs.

Lemma dependency_sets_dom (specs : service_map ServiceSpec) (id : ServiceId) :
  is_Some (dependency_sets specs !! id) ↔ is_Some (specs !! id).
Proof. unfold dependency_sets. by rewrite lookup_fmap, fmap_is_Some. Qed.

Lemma topological_order_spec (specs : service_map ServiceSpec) :
  closed (dependency_sets specs) →
  match topological_order specs with
  | Ok order =>
      NoDup order ∧ (∀ id, id ∈ order ↔ is_Some (dependency_sets specs !! id)) ∧
      respects (dependency_sets specs) order
  | Err e =>
      e = ServiceConfig (str "service dependency cycle detected") ∧
      ∃ ids, cyclic (dependency_sets specs) ids
  end.
Proof.
  intros Hc. apply order_loop_spec; [done| |].
  - constructor; [constructor|set_solver|set_solver| |].
    + intros id ds Hds. exists ds. split; [done|]. set_solver.
    + intros [|] ? ? ? ?; done.
  - by rewrite map_size_fmap.
Qed.

(** An order is found exactly when there is one: it has every service once, after all it depends
    on; otherwise there are services that wait for each other, and no order exists.  The rounds
    never run out. *)
Theorem topological_order_exact (specs : service_map ServiceSpec) :
  closed (dependency_sets specs) →
  match topological_order specs with
  | Ok order =>
      NoDup order ∧ (∀ id, id ∈ order ↔ is_Some (specs !! id)) ∧
      respects (dependency_sets specs) order
  | Err e =>
      e = ServiceConfig (str "service dependency cycle detected") ∧
      ¬ ∃ order, (∀ id, id ∈ order ↔ is_Some (specs !! id)) ∧
                 respects (dependency_sets specs) order
  end.
Proof.
  intros Hc. pose proof (topological_order_spec specs Hc) as H.
  destruct (topological_order specs) as [order|e].
  - destruct H as (H1 & H2 & H3). split_and!; [done| |done]. intros id.
    by rewrite H2, dependency_sets_dom.
  - destruct H as (H1 & ids & H2). split; [done|]. intros (order & Ho & Hr).
    eapply cyclic_no_order; [exact H2| |exact Hr]. intros id. by rewrite Ho, dependency_sets_dom.
Qed.

(** ** Validated services *)

Lemma dependencies_closed (specs : service_map ServiceSpec) :
  (∀ id spec d, specs !! id = Some spec → d ∈ ssp_dependencies spec → is_Some (specs !! d)) →
  closed (dependency_sets specs).
Proof.
  intros H id ds d. unfold dependency_sets. rewrite !lookup_fmap.
  destruct (specs !! id) as [spec|] eqn:Es; [|done]. intros [= <-] Hd%elem_of_list_to_set.
  destruct (H id spec d Es Hd) as [dspec ->]. by eexists.
Qed.

Record config_ok (specs : service_map ServiceSpec) (executables : service_map Z)
    (order required : list ServiceId) : Prop := {
  co_ids : ∀ id spec, specs !! id = Some spec → ssp_id spec = id;
  co_order : NoDup order ∧ (∀ id, id ∈ order ↔ is_Some (specs !! id)) ∧
    respects (dependency_sets specs) order;
  co_executables : ∀ id, is_Some (specs !! id) → is_Some (executables !! id);
  co_required : ∀ id, id ∈ required → ∃ spec, specs !! id = Some spec ∧ ssp_mandatory spec = true;
  co_mandatory : ∀ id spec d, specs !! id = Some spec → d ∈ ssp_dependencies spec →
    ∃ dspec, specs !! d = Some dspec ∧ (ssp_mandatory spec = true → ssp_mandatory dspec = true);
}.

Section Validated.
Variable try_clone : Z → result (list Z) Z.

Lemma collect_specs_ids (manifest : VerifiedManifest) (specs : list ServiceSpec)
    (by_id by_id' : service_map ServiceSpec) (executables executables' : service_map Z) :
  collect_specs try_clone manifest specs by_id executables = Ok (by_id', executables') →
  (∀ id spec, by_id !! id = Some spec → ssp_id spec = id ∧ is_Some (executables !! id)) →
  ∀ id spec, by_id' !! id = Some spec → ssp_id spec = id ∧ is_Some (executables' !! id).
Proof.
  revert by_id executables. induction specs as [|spec specs IH]; intros by_id executables; cbn [collect_specs].
  { by intros [= <- <-]. }
  destruct (check_spec _ _ _); [|done]. cbv zeta. case_bool_decide; [done|]. intros Hc Hids.
  eapply IH; [exact Hc|]. intros id s'. rewrite lookup_insert_Some. intros [[<- <-]|[Hne H']].
  - rewrite lookup_insert_eq. eauto.
  - rewrite lookup_insert_ne by done. by apply Hids.
Qed.

Lemma collect_specs_all (manifest : VerifiedManifest) (specs : list ServiceSpec)
    (by_id by_id' : service_map ServiceSpec) (executables executables' : service_map Z) :
  collect_specs try_clone manifest specs by_id executables = Ok (by_id', executables') →
  by_id ⊆ by_id' ∧ (∀ spec, spec ∈ specs → by_id' !! ssp_id spec = Some spec) ∧
  ∀ id spec, by_id' !! id = Some spec → by_id !! id = Some spec ∨ spec ∈ specs.
Proof.
  revert by_id executables. induction specs as [|spec specs IH]; intros by_id executables; cbn [collect_specs].
  { intros [= <- <-]. split_and!; [done| |by left]. by intros spec ?%not_elem_of_nil. }
  destruct (check_spec _ _ _); [|done]. cbv zeta. case_bool_decide as Hnew; [done|].
  intros (Hsub & Hall & Hfrom)%IH. split_and!.
  - etrans; [|exact Hsub]. apply insert_subseteq. by apply eq_None_not_Some.
  - intros spec' [->|Hin]%elem_of_cons; [|auto]. eapply lookup_weaken; [|exact Hsub].
    apply lookup_insert_eq.
  - intros id spec' [[[_ <-]|[_ H]]%lookup_insert_Some|Hin]%Hfrom; [right; by left|by left|right; by right].
Qed.

Lemma check_required_spec (by_id : service_map ServiceSpec) (required : list ServiceId) :
  check_required by_id required = Ok tt →
  ∀ id, id ∈ required → ∃ spec, by_id !! id = Some spec ∧ ssp_mandatory spec = true.
Proof.
  induction required as [|r required IH]; cbn [check_required]; [set_solver|].
  destruct (by_id !! r) as [spec|] eqn:E; [|done]. destruct (ssp_mandatory spec) eqn:Em; [|done].
  cbn [negb]. intros H id [->|Hin]%elem_of_cons; [by exists spec|auto].
Qed.

Lemma check_dependencies_spec (by_id : service_map ServiceSpec) (spec : ServiceSpec)
    (dependencies : list ServiceId) :
  check_dependencies by_id spec dependencies = Ok tt →
  ∀ d, d ∈ dependencies →
    ∃ dspec, by_id !! d = Some dspec ∧ (ssp_mandatory spec = true → ssp_mandatory dspec = true).
Proof.
  induction dependencies as [|r dependencies IH]; cbn [check_dependencies]; [set_solver|].
  destruct (by_id !! r) as [dspec|] eqn:E; [|done].
  destruct (ssp_mandatory spec && negb (ssp_mandatory dspec)) eqn:Em; [done|].
  intros H d [->|Hin]%elem_of_cons; [|auto]. exists dspec. split; [done|]. intros Hm. rewrite Hm in Em.
  by destruct (ssp_mandatory dspec).
Qed.

Lemma check_all_spec (by_id : service_map ServiceSpec) (specs : list ServiceSpec) :
  check_all by_id specs = Ok tt →
  ∀ spec, spec ∈ specs → check_dependencies by_id spec (ssp_dependencies spec) = Ok tt.
Proof.
  induction specs as [|s specs IH]; cbn [check_all]; [set_solver|].
  destruct (check_dependencies _ _ _) as [[]|] eqn:E; [|done].
  intros H spec [->|Hin]%elem_of_cons; auto.
Qed.

(** What is accepted is well formed. *)
Lemma validate_specs_ok (manifest : VerifiedManifest) (specs : list ServiceSpec)
    (required order : list ServiceId) (by_id : service_map ServiceSpec)
    (executables : service_map Z) :
  validate_specs try_clone manifest specs required = Ok (by_id, order, executables) →
  config_ok by_id executables order required.
Proof.
  unfold validate_specs. destruct (collect_specs _ _ _ _ _) as [[m e]|] eqn:Ec; [|done].
  destruct (check_required m required) as [[]|] eqn:Er; [|done].
  destruct (check_all m (values m)) as [[]|] eqn:Ea; [|done].
  assert (∀ id spec d, m !! id = Some spec → d ∈ ssp_dependencies spec →
    ∃ dspec, m !! d = Some dspec ∧ (ssp_mandatory spec = true → ssp_mandatory dspec = true)) as Hdep.
  { intros id spec d Hid. apply check_dependencies_spec, (check_all_spec m (values m) Ea).
    unfold values. apply list_elem_of_omap. exists id. split; [apply all_ids_elem|done]. }
  assert (closed (dependency_sets m)) as Hclosed.
  { apply dependencies_closed. intros id spec d Hid Hd.
    destruct (Hdep id spec d Hid Hd) as (dspec & -> & _). by eexists. }
  pose proof (topological_order_spec m Hclosed) as Ht.
  destruct (topological_order m) as [o|]; [|done]. intros [= <- <- <-].
  pose proof (collect_specs_ids _ _ _ _ _ _ Ec) as Hids.
  destruct Ht as (H1 & H2 & H3). constructor; [| | |by apply check_required_spec|done].
  - intros id spec Hid. by eapply Hids.
  - split_and!; [done| |done]. intros id. by rewrite H2, dependency_sets_dom.
  - intros id [spec Hid]. by eapply Hids.
Qed.

End Validated.

(** ** Processes that are there *)

(** How many more of this service's groups were started than killed. *)
Fixpoint balance (trace : list ProcEvent) (id : ServiceId) (group : Z) : Z :=
  match trace with
  | [] => 0
  | Spawned id' group' :: trace =>
      (if bool_decide ((id', group') = (id, group)) then 1 else 0) + balance trace id group
  | Dropped id' group' :: trace =>
      (if bool_decide ((id', group') = (id, group)) then -1 else 0) + balance trace id group
  end.

Lemma balance_app (t1 t2 : list ProcEvent) (id : ServiceId) (group : Z) :
  balance (t1 ++ t2) id group = balance t1 id group + balance t2 id group.
Proof. induction t1 as [|[] t1 IH]; cbn; lia. Qed.

Definition runs (m : ServiceManager) (id : ServiceId) (group : Z) : bool :=
  bool_decide (rs_process_group <$> m_running m !! id = Some group).

(** The processes that are there are those of the running services. *)
Record manager_ok (m : ServiceManager) : Prop := {
  mo_running : ∀ id s, m_running m !! id = Some s →
    id ∈ m_order m ∧ m_specs m !! id = Some (rs_spec s);
  mo_balance : ∀ id group, balance (m_trace m) id group = if runs m id group then 1 else 0;
}.

Section ManagerSteps.
Variables m m' : ServiceManager.
Hypothesis Hok : manager_ok m.
Hypothesis Hframe : m_order m' = m_order m ∧ m_specs m' = m_specs m.

(** A service is dropped. *)
Lemma manager_drop (id : ServiceId) (s : RunningService) :
  m_running m !! id = Some s → m_running m' = delete id (m_running m) →
  m_trace m' = m_trace m ++ [Dropped id (rs_process_group s)] → manager_ok m'.
Proof.
  destruct Hok as [Hr Hb], Hframe as [Ho Hs]. intros E Hr' Ht. split.
  - intros id' s'. rewrite Hr', Ho, Hs, lookup_delete_Some. intros [_ H]. by apply Hr.
  - intros id' group. rewrite Ht, balance_app, Hb. unfold runs. rewrite Hr'. cbn.
    destruct (bool_decide_reflect ((id, rs_process_group s) = (id', group))) as [Heq|Heq].
    + injection Heq as <- <-. rewrite E, lookup_delete_eq. cbn.
      by rewrite bool_decide_true, bool_decide_false.
    + destruct (decide (id' = id)) as [->|Hne].
      * rewrite lookup_delete_eq, E. cbn. rewrite !bool_decide_false; [done|done|congruence].
      * rewrite lookup_delete_ne by done. case_bool_decide; lia.
Qed.

(** A service is started. *)
Lemma manager_insert (id : ServiceId) (s : RunningService) :
  m_running m !! id = None → id ∈ m_order m → m_specs m !! id = Some (rs_spec s) →
  m_running m' = <[id := s]> (m_running m) →
  m_trace m' = m_trace m ++ [Spawned id (rs_process_group s)] → manager_ok m'.
Proof.
  destruct Hok as [Hr Hb], Hframe as [Ho Hs]. intros E Hid Hspec Hr' Ht. split.
  - intros id' s'. rewrite Hr', Ho, Hs, lookup_insert_Some. intros [[<- <-]|[_ H]]; [done|by apply Hr].
  - intros id' group. rewrite Ht, balance_app, Hb. unfold runs. rewrite Hr'. cbn.
    destruct (decide (id' = id)) as [->|Hne].
    + rewrite E, lookup_insert_eq. cbn. rewrite (bool_decide_false (None = Some group)) by done.
      destruct (decide (rs_process_group s = group)) as [->|Hg].
      * by rewrite !bool_decide_true.
      * rewrite !bool_decide_false; [done|congruence..].
    + rewrite lookup_insert_ne by done. rewrite (bool_decide_false ((id, _) = _)) by congruence. lia.
Qed.

(** What was started was dropped. *)
Lemma manager_idle (events : list ProcEvent) :
  m_running m' = m_running m → m_trace m' = m_trace m ++ events →
  (∀ id group, balance events id group = 0) → manager_ok m'.
Proof.
  destruct Hok as [Hr Hb], Hframe as [Ho Hs]. intros Hr' Ht He. split.
  - intros id s. rewrite Hr', Ho, Hs. by apply Hr.
  - intros id group. rewrite Ht, balance_app, Hb, He. unfold runs. rewrite Hr'. lia.
Qed.

End ManagerSteps.

Lemma stop_service_spec (replies : ServiceId → TerminateReplies) (m : ServiceManager)
    (failures : list (list Z)) (id : ServiceId) :
  manager_ok m →
  let '(m', _) := stop_service replies (m, failures) id in
  manager_ok m' ∧ m_running m' = delete id (m_running m) ∧ m_order m' = m_order m ∧
  m_specs m' = m_specs m ∧ m_readiness m' = m_readiness m.
Proof.
  intros Hok. unfold stop_service. destruct (m_running m !! id) as [s|] eqn:E.
  2: { by rewrite delete_id. }
  cbv zeta. destruct (terminate_service _ _); (split; [by eapply manager_drop|done]).
Qed.

Lemma stop_all_spec (replies : ServiceId → TerminateReplies) (ids : list ServiceId)
    (m : ServiceManager) (failures : list (list Z)) :
  manager_ok m →
  let '(m', _) := foldl (stop_service replies) (m, failures) ids in
  manager_ok m' ∧ m_order m' = m_order m ∧ m_readiness m' = m_readiness m ∧
  m_specs m' = m_specs m ∧
  ∀ id, m_running m' !! id = if decide (id ∈ ids) then None else m_running m !! id.
Proof.
  revert m failures. induction ids as [|id ids IH]; intros m failures Hok; cbn [foldl].
  { by split_and!. }
  pose proof (stop_service_spec replies m failures id Hok) as H.
  destruct (stop_service replies (m, failures) id) as [m1 failures1].
  destruct H as (H1 & Hr & Ho & Hs & Hg). specialize (IH m1 failures1 H1).
  destruct (foldl _ _ ids) as [m2 failures2]. destruct IH as (H2 & Ho2 & Hg2 & Hs2 & Hr2).
  split_and!; [done|congruence..|]. intros id'. rewrite Hr2, Hr.
  destruct (decide (id' ∈ ids)) as [Hin|Hin].
  - by rewrite decide_True by set_solver.
  - destruct (decide (id' = id)) as [->|Hne].
    + rewrite lookup_delete_eq, decide_True by set_solver. done.
    + rewrite lookup_delete_ne, decide_False by set_solver. done.
Qed.

Lemma shutdown_spec (replies : ServiceId → TerminateReplies) (m : ServiceManager) :
  manager_ok m →
  let '(_, m') := shutdown replies m in
  manager_ok m' ∧ m_running m' = ∅ ∧ rg_ready (m_readiness m') = false ∧
  m_order m' = m_order m ∧ m_specs m' = m_specs m.
Proof.
  intros Hok. unfold shutdown. cbv zeta. set (m0 := set_readiness m (revoke (m_readiness m))).
  assert (manager_ok m0) as H0 by (by destruct Hok; split).
  pose proof (stop_all_spec replies (reverse (m_order m0)) m0 [] H0) as H.
  destruct (foldl _ _ _) as [m1 failures]. destruct H as (H1 & Ho & Hg & Hs & Hr).
  assert (m_running m1 = ∅) as He.
  { apply map_empty. intros id. rewrite Hr. destruct (decide _) as [|Hn]; [done|].
    destruct (m_running m0 !! id) as [s|] eqn:E; [|done]. exfalso. apply Hn.
    rewrite elem_of_reverse. by apply (mo_running _ H0 id s). }
  destruct failures; (split_and!; [done..|by rewrite Hg|done|done]).
Qed.

(** A shutdown leaves nothing running, whatever the operating system replies: every process group
    that was started was killed, and the readiness gate is shut. *)
Theorem shutdown_leaves_nothing (replies : ServiceId → TerminateReplies) (m : ServiceManager) :
  manager_ok m →
  let '(_, m') := shutdown replies m in
  m_running m' = ∅ ∧ rg_ready (m_readiness m') = false ∧
  ∀ id group, balance (m_trace m') id group = 0.
Proof.
  intros Hok. pose proof (shutdown_spec replies m Hok) as H.
  destruct (shutdown replies m) as [r m']. destruct H as ([_ Hb] & Hr & Hg & _).
  split_and!; [done..|]. intros id group. rewrite Hb. unfold runs. rewrite Hr, lookup_empty. done.
Qed.

Lemma shutdown_trace (replies : ServiceId → TerminateReplies) (m : ServiceManager) :
  ∃ events, m_trace (shutdown replies m).2 = m_trace m ++ events ∧
    ∀ id group, Spawned id group ∉ events.
Proof.
  assert (∀ ids m failures, ∃ events,
    m_trace (foldl (stop_service replies) (m, failures) ids).1 = m_trace m ++ events ∧
    ∀ id group, Spawned id group ∉ events) as H.
  { induction ids as [|id ids IH]; intros m0 failures; cbn [foldl].
    - exists []. rewrite app_nil_r. set_solver.
    - unfold stop_service at 2. destruct (m_running m0 !! id) as [s|]; [|apply IH]. cbv zeta.
      destruct (terminate_service _ _);
        (edestruct IH as (events & -> & Hev); exists (Dropped id (rs_process_group s) :: events);
         cbn; rewrite <-app_assoc; split; [done|set_solver]). }
  unfold shutdown. cbv zeta. set (m0 := set_readiness m (revoke (m_readiness m))).
  destruct (H (reverse (m_order m0)) m0 []) as (events & He & Hev). exists events.
  destruct (foldl _ _ _) as [m1 failures]. by destruct failures.
Qed.

(** ** The start *)

Lemma spawn_service_spec (executable : Z) (spec : ServiceSpec) (count : Z) (replies : SpawnReplies) :
  let '(r, events) := spawn_service executable spec count replies in
  match r with
  | Ok s => rs_spec s = spec ∧ events = [Spawned (ssp_id spec) (rs_process_group s)] ∧
            check_health spec (sr_health replies) = Ok tt
  | Err _ => (∀ id group, balance events id group = 0) ∧
             (events = [] ∨ ∃ pid, events = [Spawned (ssp_id spec) pid; Dropped (ssp_id spec) pid])
  end.
Proof.
  unfold spawn_service. destruct (sr_spawn replies) as [[pid|]|]; [|by auto..].
  destruct (pid =? 0); [by auto|].
  destruct (check_health spec (sr_health replies)) as [[]|]; [done|]. split; [|eauto].
  intros id group. cbn. destruct (bool_decide _); done.
Qed.

(** A mandatory service is started only when all it depends on are there. *)
Definition started_in_order (specs : service_map ServiceSpec) (trace : list ProcEvent) : Prop :=
  ∀ t1 id group t2 spec, trace = t1 ++ Spawned id group :: t2 → specs !! id = Some spec →
    ssp_mandatory spec = true →
    ∀ d, d ∈ ssp_dependencies spec → ∃ group', balance t1 d group' = 1.

Lemma order_extends (specs : service_map ServiceSpec) (trace events : list ProcEvent) :
  started_in_order specs trace →
  (∀ e1 id group e2 spec, events = e1 ++ Spawned id group :: e2 → specs !! id = Some spec →
     ssp_mandatory spec = true →
     ∀ d, d ∈ ssp_dependencies spec → ∃ group', balance (trace ++ e1) d group' = 1) →
  started_in_order specs (trace ++ events).
Proof.
  intros Ht He t1 id group t2 spec E. apply app_eq_app in E as (l & [[-> E]|[-> E]]).
  - destruct l as [|x l]; cbn [app] in E.
    + rewrite app_nil_r in *. intros Hs Hm d Hd. destruct (He [] id group t2 spec) with (d := d)
        as [g Hg]; [by rewrite <-E|done..|]. exists g. by rewrite app_nil_r in Hg.
    + injection E as <- ->. by apply (Ht t1 id group l).
  - by apply (He l id group t2 spec).
Qed.

(** A running service is there. *)
Lemma running_balance (m : ServiceManager) (id : ServiceId) :
  manager_ok m → is_Some (m_running m !! id) → ∃ group, balance (m_trace m) id group = 1.
Proof.
  intros [_ Hb] [s Hs]. exists (rs_process_group s). rewrite Hb. unfold runs. rewrite Hs.
  by rewrite bool_decide_true.
Qed.

Section StartAll.
Variable spawn : ServiceId → SpawnReplies.
Variable stop : ServiceId → TerminateReplies.

(** The services of the order up to now. *)
Record start_state (m : ServiceManager) (started : list ServiceId) : Prop := {
  ss_ok : manager_ok m;
  ss_only : ∀ id, is_Some (m_running m !! id) → id ∈ started;
  ss_mandatory : ∀ id spec, id ∈ started → m_specs m !! id = Some spec →
    ssp_mandatory spec = true → is_Some (m_running m !! id);
  ss_healthy : ∀ id s, m_running m !! id = Some s →
    check_health (rs_spec s) (sr_health (spawn id)) = Ok tt;
  ss_gate : rg_ready (m_readiness m) = false;
  ss_order : started_in_order (m_specs m) (m_trace m);
}.

(** What a mandatory service depends on runs when its turn comes. *)
Lemma dependencies_there (m : ServiceManager) (started rest : list ServiceId) (id : ServiceId)
    (spec : ServiceSpec) (required : list ServiceId) :
  config_ok (m_specs m) (m_executables m) (m_order m) required → m_order m = started ++ id :: rest →
  m_specs m !! id = Some spec → ssp_mandatory spec = true → start_state m started →
  ∀ d, d ∈ ssp_dependencies spec → ∃ group, balance (m_trace m) d group = 1.
Proof.
  intros Hc Ho Hs Hm Hst d Hd. destruct (co_order _ _ _ _ Hc) as (_ & _ & Hresp).
  apply running_balance; [apply Hst|].
  destruct (co_mandatory _ _ _ _ Hc id spec d Hs Hd) as (dspec & Hds & Hdm).
  apply (ss_mandatory _ _ Hst d dspec); [|done|by apply Hdm].
  assert (d ∈ (list_to_set started : gset ServiceId)) as Hset; [|by apply elem_of_list_to_set in Hset].
  eapply (Hresp started id rest); [done| |by apply elem_of_list_to_set].
  unfold dependency_sets. by rewrite lookup_fmap, Hs.
Qed.

Lemma start_one (m : ServiceManager) (started rest : list ServiceId) (id : ServiceId)
    (spec : ServiceSpec) (service : RunningService) (required : list ServiceId) :
  config_ok (m_specs m) (m_executables m) (m_order m) required → m_order m = started ++ id :: rest →
  m_specs m !! id = Some spec → start_state m started → rs_spec service = spec →
  check_health spec (sr_health (spawn id)) = Ok tt →
  start_state (set_running (record m "service_started" id (str "health check passed"))
      (<[id := service]> (m_running m)) [Spawned (ssp_id spec) (rs_process_group service)])
    (started ++ [id]).
Proof.
  intros Hc Ho Hs [[Hr Hb] Honly Hmand Hh Hg Hord] Hspec Hcheck.
  rewrite (co_ids _ _ _ _ Hc id spec Hs). destruct (co_order _ _ _ _ Hc) as (Hnd & Hin & Hresp).
  assert (id ∉ started) as Hfresh.
  { rewrite Ho in Hnd. apply NoDup_app in Hnd as (_ & Hnd & _). intros H. apply (Hnd id H). by left. }
  assert (m_running m !! id = None) as Hnone.
  { destruct (m_running m !! id) eqn:E; [|done]. exfalso. apply Hfresh, Honly. by rewrite E. }
  assert (start_state m started) as Hst by by constructor.
  constructor; cbn.
  - apply (manager_insert m) with (id := id) (s := service);
      [apply Hst|done|done| |by rewrite Hspec|done..].
    rewrite Ho. set_solver.
  - intros id' Hid'. rewrite elem_of_app, list_elem_of_singleton.
    destruct (decide (id' = id)); [by right|]. rewrite lookup_insert_ne in Hid' by done. left. auto.
  - intros id' spec' [Hin'| ->%list_elem_of_singleton]%elem_of_app Hs' Hm.
    + destruct (decide (id' = id)) as [->|]; [rewrite lookup_insert_eq; by eexists|].
      rewrite lookup_insert_ne by done. eauto.
    + rewrite lookup_insert_eq. by eexists.
  - intros id' s'. rewrite lookup_insert_Some. intros [[<- <-]|[_ H]]; [by rewrite Hspec|by apply Hh].
  - done.
  - apply order_extends; [done|]. intros e1 id' group e2 spec' E Hs' Hm d Hd.
    destruct e1 as [|? []]; [|done..]. injection E as <- _ _. rewrite app_nil_r.
    rewrite Hs in Hs'. injection Hs' as <-. by eapply dependencies_there.
Qed.

Lemma start_skip (m : ServiceManager) (started : list ServiceId) (id : ServiceId)
    (spec : ServiceSpec) (events : list ProcEvent) (detail : list Z) :
  m_specs m !! id = Some spec → ssp_mandatory spec = false → start_state m started →
  (∀ id group, balance events id group = 0) →
  (∀ id' group, Spawned id' group ∈ events → id' = id) →
  start_state (record (set_running m (m_running m) events) "optional_service_failed" id detail)
    (started ++ [id]).
Proof.
  intros Hs Hopt [[Hr Hb] Honly Hmand Hh Hg Hord] He Hev. constructor; cbn; [| | |done..|].
  - by apply (manager_idle m) with (events := events).
  - intros id' H%Honly. set_solver.
  - intros id' spec' [Hin| ->%list_elem_of_singleton]%elem_of_app Hs' Hm; [eauto|congruence].
  - apply order_extends; [done|]. intros e1 id' group e2 spec' E Hs' Hm.
    assert (id' = id) as -> by (apply (Hev id' group); rewrite E; set_solver). congruence.
Qed.

(** A mandatory service that does not start ends the start. *)
Lemma start_fails (m : ServiceManager) (started rest : list ServiceId) (id : ServiceId)
    (spec : ServiceSpec) (events : list ProcEvent) (required : list ServiceId) :
  config_ok (m_specs m) (m_executables m) (m_order m) required → m_order m = started ++ id :: rest →
  m_specs m !! id = Some spec → ssp_mandatory spec = true → start_state m started →
  (∀ id group, balance events id group = 0) →
  (events = [] ∨ ∃ pid, events = [Spawned id pid; Dropped id pid]) →
  let m' := (shutdown stop (set_running m (m_running m) events)).2 in
  m_specs m' = m_specs m ∧ m_order m' = m_order m ∧ started_in_order (m_specs m) (m_trace m') ∧
  manager_ok m' ∧ m_running m' = ∅ ∧ rg_ready (m_readiness m') = false.
Proof.
  intros Hc Ho Hs Hm Hst He Hev. set (m1 := set_running m (m_running m) events).
  assert (manager_ok m1) as H1.
  { by apply (manager_idle m) with (events := events); [apply Hst|..]. }
  pose proof (shutdown_spec stop m1 H1) as Hd. pose proof (shutdown_trace stop m1) as (ev & Ht & Hno).
  destruct (shutdown stop m1) as [r m2]. cbn [snd] in *.
  destruct Hd as (Hok & Hr & Hg & Hord & Hsp). split_and!; [done..| |done|done|done]. rewrite Ht.
  apply order_extends; [apply order_extends; [apply Hst|]|].
  - intros e1 id' group e2 spec' E Hs' _ d Hd. destruct Hev as [->|[pid ->]]; [by destruct e1|].
    destruct e1 as [|? [|? []]]; [|done..]. injection E as <- _ _. rewrite app_nil_r.
    rewrite Hs in Hs'. injection Hs' as <-. by eapply dependencies_there.
  - intros e1 id' group e2 spec' ->. exfalso. apply (Hno id' group). set_solver.
Qed.

Lemma start_loop_spec (required rest started : list ServiceId) (m : ServiceManager) :
  config_ok (m_specs m) (m_executables m) (m_order m) required → m_order m = started ++ rest →
  start_state m started →
  let '(r, m') := start_loop spawn stop rest m in
  m_specs m' = m_specs m ∧ m_order m' = m_order m ∧ started_in_order (m_specs m) (m_trace m') ∧
  match r with
  | Ok _ => start_state m' (m_order m)
  | Err _ => manager_ok m' ∧ m_running m' = ∅ ∧ rg_ready (m_readiness m') = false
  end.
Proof.
  revert m started. induction rest as [|id rest IH]; intros m started Hc Ho Hst; cbn [start_loop].
  { rewrite app_nil_r in Ho. rewrite Ho. split_and!; [done..|apply Hst|done]. }
  assert (is_Some (m_specs m !! id)) as [spec Hs].
  { apply (co_order _ _ _ _ Hc). rewrite Ho. set_solver. }
  destruct (co_executables _ _ _ _ Hc id) as [executable Hx]; [by rewrite Hs|]. rewrite Hs, Hx.
  pose proof (spawn_service_spec executable spec 0 (spawn id)) as Hspawn.
  destruct (spawn_service executable spec 0 (spawn id)) as [[service|e] events]; cbv zeta.
  - destruct Hspawn as (Hspec & -> & Hh).
    match goal with |- context [start_loop _ _ rest ?m'] => apply (IH m' (started ++ [id])) end;
      [done|by rewrite <-app_assoc|]. by eapply start_one.
  - destruct Hspawn as (Hbal & Hev). rewrite (co_ids _ _ _ _ Hc id spec Hs) in Hev.
    destruct (ssp_mandatory spec) eqn:Hm; cbn [negb].
    + pose proof (start_fails m started rest id spec events required Hc Ho Hs Hm Hst Hbal Hev) as H.
      by destruct (shutdown _ _) as [[] m2].
    + match goal with |- context [start_loop _ _ rest ?m'] => apply (IH m' (started ++ [id])) end;
      [done|by rewrite <-app_assoc|].
      eapply start_skip; [exact Hs|done..|]. intros id' group.
      destruct Hev as [->|[pid ->]]; set_solver.
Qed.

End StartAll.

Lemma new_manager_ok (try_clone : Z → result (list Z) Z) (manifest : VerifiedManifest)
    (specs : list ServiceSpec) (required : list ServiceId) (m : ServiceManager) :
  new_manager try_clone manifest specs required = Ok m →
  config_ok (m_specs m) (m_executables m) (m_order m) required ∧
  (∀ spec, spec ∈ specs → m_specs m !! ssp_id spec = Some spec) ∧
  (∀ id spec, m_specs m !! id = Some spec → spec ∈ specs) ∧
  m_running m = ∅ ∧ m_trace m = [] ∧ ∀ spawn, start_state spawn m [].
Proof.
  unfold new_manager.
  destruct (validate_specs _ _ _ _) as [[[by_id order] executables]|] eqn:E; [|done].
  intros [= <-]. cbn. pose proof E as Hok%validate_specs_ok. unfold validate_specs in E.
  destruct (collect_specs _ _ _ _ _) as [[m e]|] eqn:Ec; [|done].
  apply collect_specs_all in Ec as (_ & Hall & Hfrom). destruct (check_required _ _); [|done].
  destruct (check_all _ _); [|done]. destruct (topological_order _); [|done].
  injection E as <- _ _. split_and!; [done|done| |done|done|].
  - intros id spec [H|H]%Hfrom; [by rewrite lookup_empty in H|done].
  - intros spawn. constructor; cbn.
    + split; cbn; [|done]. intros id s. by rewrite lookup_empty.
    + intros id [s H]. by rewrite lookup_empty in H.
    + by intros id spec H%not_elem_of_nil.
    + intros id s. by rewrite lookup_empty.
    + done.
    + by intros [] id group t2 spec E'.
Qed.



(** ** The readiness gate *)

(** What is done with the gate: the answers to checks are those of the operating system then. *)
Inductive GateOp : Type :=
| OpArm (services : service_map RunningService)
| OpRevoke
| OpCheck (live : Z → bool).

Definition gate_step (gate : ReadinessGate) (op : GateOp) : ReadinessGate :=
  match op with
  | OpArm services => arm services
  | OpRevoke => revoke gate
  | OpCheck live => (verified_live live gate).2
  end.

Definition closed_gate : ReadinessGate := {| rg_ready := false; rg_mandatory_groups := ∅ |}.

(** The groups of the mandatory services, and that all of them are live. *)
Definition all_live (live : Z → bool) (services : service_map RunningService) : Prop :=
  ∀ id s, services !! id = Some s → ssp_mandatory (rs_spec s) = true →
    live (rs_process_group s) = true.

Lemma arm_live (live : Z → bool) (services : service_map RunningService) :
  forallb live (values (rg_mandatory_groups (arm services))) = true ↔ all_live live services.
Proof.
  rewrite forallb_forall. unfold all_live, values, arm. cbn [rg_mandatory_groups]. split.
  - intros H id s Hid Hm. apply H, list_elem_of_In, list_elem_of_omap. exists id.
    split; [apply all_ids_elem|]. rewrite lookup_fmap.
    by rewrite (map_lookup_filter_Some_2 _ services id s).
  - intros H group Hg%list_elem_of_In. apply list_elem_of_omap in Hg as (id & _ & Hg).
    rewrite lookup_fmap in Hg. destruct (filter _ services !! id) as [s|] eqn:E; [|done].
    apply map_lookup_filter_Some in E as [E Hm]. injection Hg as <-. by apply (H id s).
Qed.

(** The gate is open exactly when it was armed, was not revoked since, and every check since then
    found all the mandatory services it was armed with. *)
Definition open_for (services : service_map RunningService) (ops : list GateOp) : Prop :=
  ∃ before after, ops = before ++ OpArm services :: after ∧
    ∀ op, op ∈ after → ∃ live, op = OpCheck live ∧ all_live live services.

Lemma gate_state (ops : list GateOp) :
  let gate := foldl gate_step closed_gate ops in
  (rg_ready gate = true → ∃ services, gate = arm services ∧ open_for services ops) ∧
  (∀ services, open_for services ops → gate = arm services).
Proof.
  induction ops as [|op ops [IH1 IH2]] using rev_ind; cbv zeta.
  { split; [done|]. intros services (before & after & E & _). by destruct before. }
  rewrite foldl_app. cbn [foldl]. set (gate := foldl gate_step closed_gate ops) in *.
  assert (∀ services, open_for services (ops ++ [op]) → op = OpArm services ∨
    (open_for services ops ∧ ∃ live, op = OpCheck live ∧ all_live live services)) as Hlast.
  { intros services (before & after & E & Hafter).
    destruct after as [|op' after _] using rev_ind.
    - apply app_inj_tail in E as [_ ->]. by left.
    - right. rewrite app_comm_cons, app_assoc in E. apply app_inj_tail in E as [-> ->].
      split; [|apply Hafter; set_solver]. exists before, after. split; [done|]. set_solver. }
  assert (∀ services live, open_for services ops → all_live live services →
    open_for services (ops ++ [OpCheck live])) as Hgrow.
  { intros services live (before & after & -> & Hafter) Hl. exists before, (after ++ [OpCheck live]).
    rewrite <-app_assoc. split; [done|]. intros op' [H| ->%list_elem_of_singleton]%elem_of_app; eauto. }
  split.
  - destruct op as [services| |live]; cbn [gate_step]; [|done|].
    + intros _. exists services. split; [done|]. exists ops, []. split; [done|]. set_solver.
    + unfold verified_live. destruct (rg_ready gate) eqn:Er; cbn [negb]; [|cbn; congruence].
      destruct (IH1 eq_refl) as (services & Hg & Ho). cbv zeta. rewrite Hg.
      destruct (forallb _ _) eqn:El; [|done]. cbn. intros _. exists services.
      split; [done|]. apply Hgrow; [done|]. by apply arm_live.
  - intros services [->|(Ho & live & -> & Hl)]%Hlast; [done|].
    cbn [gate_step]. rewrite (IH2 services Ho). unfold verified_live. cbn [negb arm rg_ready].
    cbv zeta. apply arm_live in Hl. fold (arm services). by rewrite Hl.
Qed.

(** A check says that the guest is ready exactly when the gate was armed, nobody revoked it since,
    and all mandatory services it was armed with were found then and at every check in between. *)
Theorem readiness_gate_exact (ops : list GateOp) (live : Z → bool) :
  (verified_live live (foldl gate_step closed_gate ops)).1 = true ↔
  ∃ services, open_for services ops ∧ all_live live services.
Proof.
  pose proof (gate_state ops) as [H1 H2]. set (gate := foldl gate_step closed_gate ops) in *.
  unfold verified_live. split.
  - destruct (rg_ready gate) eqn:Er; cbn [negb]; [|done]. cbn. intros Hl.
    destruct (H1 eq_refl) as (services & Hg & Ho). exists services. split; [done|].
    apply arm_live. by rewrite <-Hg.
  - intros (services & Ho%H2 & Hl). rewrite Ho. apply arm_live in Hl. exact Hl.
Qed.

(** ** Watching *)

(** The watch also ends, with the error, when a service that is optional, and may be restarted,
    does not start again. *)
Lemma optional_restart_failure_ends_watch (wait : ServiceId → TryWait)
    (spawn : ServiceId → SpawnReplies) (replies : ServiceId → HealthReplies) (m : ServiceManager)
    (id : ServiceId) (status : list Z) (s : RunningService) (executable : Z) (e : GuestError)
    (events : list ProcEvent) :
  find_exited wait (keys (m_running m)) = Some (id, Exited status) → m_running m !! id = Some s →
  ssp_mandatory (rs_spec s) = false →
  restart_allowed (ssp_restart (rs_spec s)) (rs_restart_count s + 1) = true →
  m_executables m !! id = Some executable →
  spawn_service executable (rs_spec s) (rs_restart_count s + 1) (spawn id) = (Err e, events) →
  (watch_round wait spawn replies m).1 = Some e.
Proof.
  intros Hf Hr Hopt Hallow Hx Hspawn. unfold watch_round. rewrite Hf, Hr. cbv zeta.
  rewrite Hopt, Hallow. cbn [set_running record m_executables]. by rewrite Hx, Hspawn.
Qed.

(** The rounds of the watch, each with what the operating system says, until a failure. *)
Definition WatchReplies : Type :=
  (ServiceId → TryWait) * (ServiceId → SpawnReplies) * (ServiceId → HealthReplies).

Fixpoint watch (rounds : list WatchReplies) (m : ServiceManager) : option GuestError * ServiceManager :=
  match rounds with
  | [] => (None, m)
  | (wait, spawn, replies) :: rounds =>
      match watch_round wait spawn replies m with
      | (Some e, m) => (Some e, m)
      | (None, m) => watch rounds m
      end
  end.

(** How often a service was started. *)
Fixpoint starts (trace : list ProcEvent) (id : ServiceId) : Z :=
  match trace with
  | [] => 0
  | Spawned id' _ :: trace => (if bool_decide (id' = id) then 1 else 0) + starts trace id
  | Dropped _ _ :: trace => starts trace id
  end.

Lemma starts_app (t1 t2 : list ProcEvent) (id : ServiceId) :
  starts (t1 ++ t2) id = starts t1 id + starts t2 id.
Proof. induction t1 as [|[] t1 IH]; cbn; lia. Qed.

(** The starts a service may have. *)
Definition allowed_starts (spec : ServiceSpec) : Z :=
  1 + if ssp_mandatory spec then 0 else max_restarts (ssp_restart spec).

Record starts_ok (m : ServiceManager) : Prop := {
  so_ids : ∀ id spec, m_specs m !! id = Some spec → ssp_id spec = id;
  so_specs : ∀ id s, m_running m !! id = Some s → m_specs m !! id = Some (rs_spec s);
  so_running : ∀ id s, m_running m !! id = Some s →
    starts (m_trace m) id = 1 + rs_restart_count s;
  so_bound : ∀ id spec, m_specs m !! id = Some spec → starts (m_trace m) id ≤ allowed_starts spec;
}.

Lemma spawn_service_starts (executable : Z) (spec : ServiceSpec) (count : Z) (replies : SpawnReplies) :
  let '(r, events) := spawn_service executable spec count replies in
  (∀ id, 0 ≤ starts events id ≤ if bool_decide (ssp_id spec = id) then 1 else 0) ∧
  ∀ s, r = Ok s → rs_spec s = spec ∧ rs_restart_count s = count ∧ starts events (ssp_id spec) = 1.
Proof.
  unfold spawn_service. destruct (sr_spawn replies) as [[pid|]|].
  - destruct (pid =? 0).
    { split; [|done]. intros id. cbn. case_bool_decide; lia. }
    destruct (check_health _ _); cbn.
    + split; [intros id; case_bool_decide; lia|]. intros s [= <-]. by rewrite bool_decide_true.
    + split; [intros id; case_bool_decide; lia|done].
  - split; [|done]. intros id. cbn. case_bool_decide; lia.
  - split; [|done]. intros id. cbn. case_bool_decide; lia.
Qed.

Lemma watch_round_starts (wait : ServiceId → TryWait) (spawn : ServiceId → SpawnReplies)
    (replies : ServiceId → HealthReplies) (m : ServiceManager) :
  starts_ok m →
  let '(_, m') := watch_round wait spawn replies m in starts_ok m' ∧ m_specs m' = m_specs m.
Proof.
  intros Hok. unfold watch_round. destruct (find_exited _ _) as [[id reply]|]; [|done].
  destruct reply as [|status|error]; [done| |done]. destruct (m_running m !! id) as [s|] eqn:E; [|done].
  cbv zeta. destruct Hok as [Hids Hspecs Hrun Hbound].
  (* without the service that is gone *)
  set (m1 := set_running _ _ [Dropped id (rs_process_group s)]).
  assert (m_trace m1 = m_trace m ++ [Dropped id (rs_process_group s)]) as Ht1
    by (subst m1; cbn; by rewrite app_nil_r).
  assert (∀ id', starts (m_trace m1) id' = starts (m_trace m) id') as Hst1
    by (intros id'; rewrite Ht1, starts_app; cbn; lia).
  assert (starts_ok m1) as H1.
  { constructor; [done|..]; intros id' x; rewrite ?Hst1; [| |by apply Hbound];
      (subst m1; cbn; rewrite lookup_delete_Some; intros [_ H]; auto). }
  destruct (ssp_mandatory (rs_spec s)) eqn:Hm; [by destruct H1|].
  destruct (restart_allowed _ _) eqn:Ha; [|by destruct H1]. unfold restart_allowed in Ha.
  assert (m_running m1 = delete id (m_running m) ∧ m_specs m1 = m_specs m) as [Hr1 Hs1] by done.
  clearbody m1. destruct (m_executables m1 !! id) as [executable|]; [|done].
  pose proof (spawn_service_starts executable (rs_spec s) (rs_restart_count s + 1) (spawn id)) as Hsp.
  rewrite (Hids _ _ (Hspecs _ _ E)) in Hsp.
  assert (∀ events, (∀ id', 0 ≤ starts events id' ≤ if bool_decide (id = id') then 1 else 0) →
    ∀ id' spec, m_specs m !! id' = Some spec →
    starts (m_trace m1 ++ events) id' ≤ allowed_starts spec) as Hnew.
  { intros events Hev id' spec Hid'. rewrite starts_app, Hst1. specialize (Hev id').
    destruct (bool_decide_reflect (id = id')) as [Heq|]; [subst id'|specialize (Hbound _ _ Hid'); lia].
    rewrite (Hspecs _ _ E) in Hid'. injection Hid' as <-. unfold allowed_starts. rewrite Hm, (Hrun _ _ E).
    lia. }
  destruct (spawn_service _ _ _ _) as [[restarted|e] events]; destruct Hsp as [Hev Hs].
  - destruct (Hs restarted eq_refl) as (Hrs & Hrc & Hone).
    set (m2 := set_running _ _ events).
    assert (starts_ok m2 ∧ m_specs m2 = m_specs m) as H2; [|by destruct (recheck_dependents _ _ _)].
    split; [|done]. constructor; cbn; rewrite ?Hs1; [done|..|by apply Hnew].
    + intros id' s'. rewrite lookup_insert_Some, Hr1, lookup_delete_Some.
      intros [[<- <-]|[_ [_ H]]]; [rewrite Hrs|]; by apply Hspecs.
    + intros id' s'. rewrite starts_app, lookup_insert_Some, Hr1, lookup_delete_Some, Hst1.
      intros [[<- <-]|[Hne [_ H]]]; [rewrite (Hrun _ _ E), Hrc, Hone; lia|].
      specialize (Hev id'). rewrite bool_decide_false in Hev by done. rewrite (Hrun _ _ H). lia.
  - split; [|done]. constructor; cbn; rewrite ?Hs1, ?Hr1; [done|..|by apply Hnew].
    + intros id' s'. rewrite lookup_delete_Some. intros [_ H]. by apply Hspecs.
    + intros id' s'. rewrite starts_app, lookup_delete_Some, Hst1. intros [Hne H].
      specialize (Hev id'). rewrite bool_decide_false in Hev by done. rewrite (Hrun _ _ H). lia.
Qed.

Lemma watch_round_ok (wait : ServiceId → TryWait) (spawn : ServiceId → SpawnReplies)
    (replies : ServiceId → HealthReplies) (m : ServiceManager) :
  manager_ok m → (∀ id spec, m_specs m !! id = Some spec → ssp_id spec = id) →
  manager_ok (watch_round wait spawn replies m).2.
Proof.
  intros Hok Hids. unfold watch_round. destruct (find_exited _ _) as [[id reply]|]; [|done].
  destruct reply as [|status|error]; [done| |done]. destruct (m_running m !! id) as [s|] eqn:E; [|done].
  cbv zeta. set (m1 := set_running _ _ [Dropped id (rs_process_group s)]).
  destruct (mo_running _ Hok id s E) as [Hid Hspec].
  assert (manager_ok m1) as H1.
  { apply (manager_drop m) with (id := id) (s := s); [done..|]. subst m1. cbn. by rewrite app_nil_r. }
  assert (m_running m1 = delete id (m_running m) ∧ m_order m1 = m_order m ∧ m_specs m1 = m_specs m)
    as (Hr1 & Ho1 & Hs1) by done. clearbody m1.
  destruct (ssp_mandatory (rs_spec s)); [by destruct H1|].
  destruct (restart_allowed _ _); [|by destruct H1]. destruct (m_executables m1 !! id); [|done].
  pose proof (spawn_service_spec z (rs_spec s) (rs_restart_count s + 1) (spawn id)) as Hsp.
  destruct (spawn_service _ _ _ _) as [[restarted|e] events].
  - destruct Hsp as (Hrs & -> & _). rewrite (Hids _ _ Hspec).
    set (m2 := set_running _ _ _). assert (manager_ok m2) as H2; [|by destruct (recheck_dependents _ _ _)].
    apply (manager_insert m1) with (id := id) (s := restarted);
      [done|done|by rewrite Hr1, lookup_delete_eq|by rewrite Ho1|by rewrite Hs1, Hrs|done..].
  - by apply (manager_idle m1) with (events := events); [..|apply Hsp].
Qed.

(** The watch starts optional services only. *)
Lemma watch_round_order (wait : ServiceId → TryWait) (spawn : ServiceId → SpawnReplies)
    (replies : ServiceId → HealthReplies) (m : ServiceManager) :
  manager_ok m → (∀ id spec, m_specs m !! id = Some spec → ssp_id spec = id) →
  started_in_order (m_specs m) (m_trace m) →
  let m' := (watch_round wait spawn replies m).2 in
  m_specs m' = m_specs m ∧ started_in_order (m_specs m) (m_trace m').
Proof.
  intros Hok Hids Hord. unfold watch_round. destruct (find_exited _ _) as [[id reply]|]; [|done].
  destruct reply as [|status|error]; [done| |done]. destruct (m_running m !! id) as [s|] eqn:E; [|done].
  cbv zeta. set (m1 := set_running _ _ [Dropped id (rs_process_group s)]).
  destruct (mo_running _ Hok id s E) as [_ Hspec].
  assert (started_in_order (m_specs m) (m_trace m1)) as H1.
  { replace (m_trace m1) with (m_trace m ++ [Dropped id (rs_process_group s)])
      by (subst m1; cbn; by rewrite app_nil_r).
    apply order_extends; [done|]. by intros [|? []] ????. }
  assert (m_specs m1 = m_specs m) as Hs1 by done. clearbody m1.
  destruct (ssp_mandatory (rs_spec s)) eqn:Hm; [done|]. destruct (restart_allowed _ _); [|done].
  destruct (m_executables m1 !! id); [|done].
  pose proof (spawn_service_spec z (rs_spec s) (rs_restart_count s + 1) (spawn id)) as Hsp.
  assert (∀ events, (∀ id' group, Spawned id' group ∈ events → id' = id) →
    started_in_order (m_specs m) (m_trace m1 ++ events)) as Hev.
  { intros events Hev. apply order_extends; [done|]. intros e1 id' group e2 spec' -> Hs' Hm'.
    assert (id' = id) as -> by (apply (Hev id' group); set_solver). congruence. }
  rewrite (Hids _ _ Hspec) in Hsp. destruct (spawn_service _ _ _ _) as [[restarted|e] events].
  - destruct Hsp as (_ & -> & _). set (m2 := set_running _ _ _).
    assert (m_specs m2 = m_specs m ∧ started_in_order (m_specs m) (m_trace m2)) as H2;
      [|by destruct (recheck_dependents _ _ _)].
    split; [done|]. apply Hev. set_solver.
  - destruct Hsp as [_ Hsp]. split; [done|]. apply Hev. destruct Hsp as [->|[pid ->]]; set_solver.
Qed.

Lemma watch_order (rounds : list WatchReplies) (m : ServiceManager) :
  manager_ok m → (∀ id spec, m_specs m !! id = Some spec → ssp_id spec = id) →
  started_in_order (m_specs m) (m_trace m) →
  let m' := (watch rounds m).2 in
  manager_ok m' ∧ m_specs m' = m_specs m ∧ started_in_order (m_specs m) (m_trace m').
Proof.
  revert m. induction rounds as [|[[wait spawn] replies] rounds IH]; intros m Hok Hids Hord; [done|].
  cbn [watch]. pose proof (watch_round_ok wait spawn replies m Hok Hids) as H1.
  pose proof (watch_round_order wait spawn replies m Hok Hids Hord) as [Hs H2].
  destruct (watch_round wait spawn replies m) as [[e|] m1]; cbn [snd] in *; [done|].
  rewrite <-Hs in *. by apply IH.
Qed.

Lemma watch_ok (rounds : list WatchReplies) (m : ServiceManager) :
  manager_ok m → starts_ok m →
  let m' := (watch rounds m).2 in manager_ok m' ∧ starts_ok m' ∧ m_specs m' = m_specs m.
Proof.
  revert m. induction rounds as [|[[wait spawn] replies] rounds IH]; intros m Hok Hst; [done|].
  cbn [watch]. pose proof (watch_round_ok wait spawn replies m Hok (so_ids _ Hst)) as H1.
  pose proof (watch_round_starts wait spawn replies m Hst) as H2.
  destruct (watch_round wait spawn replies m) as [[e|] m1]; [by destruct H2|].
  destruct H2 as [H2 Hs]. destruct (IH m1 H1 H2) as (? & ? & ?). split_and!; [done..|congruence].
Qed.

(** No service of the rest was started yet, and every other at most once. *)
Record start_counts (m : ServiceManager) (rest : list ServiceId) : Prop := {
  sc_rest : ∀ id, id ∈ rest → starts (m_trace m) id = 0 ∧ m_running m !! id = None;
  sc_once : ∀ id, starts (m_trace m) id ≤ 1;
  sc_running : ∀ id s, m_running m !! id = Some s →
    starts (m_trace m) id = 1 ∧ rs_restart_count s = 0;
}.

Lemma start_loop_counts (spawn : ServiceId → SpawnReplies) (stop : ServiceId → TerminateReplies)
    (rest : list ServiceId) (m m' : ServiceManager) :
  NoDup rest → (∀ id spec, m_specs m !! id = Some spec → ssp_id spec = id) →
  start_counts m rest → start_loop spawn stop rest m = (Ok tt, m') → start_counts m' [].
Proof.
  revert m. induction rest as [|id rest IH]; intros m Hnd Hids Hc; cbn [start_loop].
  { by intros [= ->]. }
  apply NoDup_cons in Hnd as [Hfresh Hnd].
  destruct (m_specs m !! id) as [spec|] eqn:Es; [|done]. destruct (m_executables m !! id); [|done].
  pose proof (spawn_service_starts z spec 0 (spawn id)) as Hsp. rewrite (Hids _ _ Es) in Hsp.
  destruct Hc as [Hrest Honce Hrun]. destruct (Hrest id) as [H0 Hn]; [by left|].
  assert (∀ events, (∀ id', 0 ≤ starts events id' ≤ if bool_decide (id = id') then 1 else 0) →
    (∀ id', id' ∈ rest → starts (m_trace m ++ events) id' = 0) ∧
    (∀ id', starts (m_trace m ++ events) id' ≤ 1)) as Hev.
  { intros events Hev. split; intros id'.
    - intros Hin. rewrite starts_app. destruct (Hrest id') as [-> _]; [by right|]. specialize (Hev id').
      rewrite bool_decide_false in Hev by congruence. lia.
    - rewrite starts_app. specialize (Hev id'). specialize (Honce id'). case_bool_decide; subst; lia. }
  destruct (spawn_service _ _ _ _) as [[s|e] events]; destruct Hsp as [Hb Hs]; cbv zeta.
  - apply IH; [done..|]. destruct (Hs s eq_refl) as (_ & Hrc & Hone). constructor; cbn [set_running record m_trace m_running].
    + intros id' Hin. split; [by apply Hev|]. rewrite lookup_insert_ne by congruence.
      apply Hrest. by right.
    + by apply Hev.
    + intros id' s'. rewrite starts_app, lookup_insert_Some. intros [[<- <-]|[Hne H]]; [lia|].
      destruct (Hrun _ _ H) as [-> ?]. specialize (Hb id'). rewrite bool_decide_false in Hb by done. lia.
  - destruct (ssp_mandatory spec); cbn [negb].
    { by destruct (shutdown _ _) as [[] ?]. }
    apply IH; [done..|]. constructor; cbn [set_running record m_trace m_running].
    + intros id' Hin. split; [by apply Hev|]. apply Hrest. by right.
    + by apply Hev.
    + intros id' s' H. rewrite starts_app. destruct (Hrun _ _ H) as [-> ?]. specialize (Hb id').
      rewrite bool_decide_false in Hb by congruence. lia.
Qed.

(** Over a session, a mandatory service is started once, and an optional one once and then at most
    as often as its policy allows; the processes that are there are those of the running services. *)
Theorem starts_are_bounded (try_clone : Z → result (list Z) Z) (manifest : VerifiedManifest)
    (specs : list ServiceSpec) (required : list ServiceId) (m m1 : ServiceManager)
    (spawn : ServiceId → SpawnReplies) (stop : ServiceId → TerminateReplies)
    (rounds : list WatchReplies) :
  new_manager try_clone manifest specs required = Ok m →
  Forall (λ spec, 0 ≤ max_restarts (ssp_restart spec)) specs →
  start_all spawn stop m = (Ok tt, m1) →
  let m2 := (watch rounds m1).2 in
  (∀ spec, spec ∈ specs → starts (m_trace m2) (ssp_id spec) ≤ allowed_starts spec) ∧
  ∀ id group, balance (m_trace m2) id group = if runs m2 id group then 1 else 0.
Proof.
  intros Hnew Hrange Hstart. apply new_manager_ok in Hnew as (Hc & Hall & Hfrom & Hr & Ht & Hst).
  pose proof (start_loop_spec spawn stop required (m_order m) [] m Hc eq_refl (Hst spawn)) as H.
  unfold start_all in Hstart. rewrite Hstart in H. destruct H as (Hs & _ & _ & H).
  destruct (co_order _ _ _ _ Hc) as (Hnd & _ & _).
  assert (start_counts m1 []) as [_ Honce Hrun].
  { eapply start_loop_counts; [exact Hnd|apply Hc| |exact Hstart].
    constructor; rewrite ?Hr, ?Ht; [done|done|]. intros id s. by rewrite lookup_empty. }
  destruct (watch_ok rounds m1) as (Hok & Hst2 & Hs2); [apply H| |].
  - constructor; rewrite ?Hs; [apply Hc| | |].
    + intros id s E. rewrite <-Hs. by apply (mo_running _ (ss_ok _ _ _ H)).
    + intros id s [-> ->]%Hrun. done.
    + intros id spec E%Hfrom. unfold allowed_starts. specialize (Honce id).
      rewrite Forall_forall in Hrange. specialize (Hrange spec E). destruct (ssp_mandatory spec); lia.
  - split; [|apply Hok]. intros spec Hspec%Hall. apply (so_bound _ Hst2). by rewrite Hs2, Hs.
Qed.

(** ** A sample *)

Module GuestServiceSample.

Definition spec (id : ServiceId) (dependencies : list ServiceId) (mandatory : bool) : ServiceSpec :=
  {| ssp_id := id; ssp_dependencies := dependencies; ssp_executable := str "bin/sendbox-guest";
     ssp_args := []; ssp_mandatory := mandatory;
     ssp_restart := {| max_restarts := 1; backoff_ms := 0 |}; ssp_health := ProcessAlive 1;
     ssp_graceful_shutdown_ms := 10; ssp_forced_shutdown_ms := 10; ssp_max_log_bytes := 1024 |}.

Definition specs : list ServiceSpec :=
  [spec Exec [Egress; Egress] true; spec Mcp [] false; spec Egress [] true].

Definition manifest : VerifiedManifest := {[ str "bin/sendbox-guest" := (GuestBinary, 3) ]}.

Definition pid (id : ServiceId) : Z := match id with Exec => 10 | Mcp => 11 | _ => 12 end.

(** Every service is alive but the optional one. *)
Definition replies (id : ServiceId) : SpawnReplies :=
  {| sr_spawn := Ok (Some (pid id));
     sr_health :=
       {| hr_alive := match id with Mcp => Exited (str "exit status: 1") | _ => StillRunning end;
          hr_polls := [] |} |}.

Definition stopping (id : ServiceId) : TerminateReplies :=
  {| tr_term := Signalled; tr_wait := Reaped; tr_kill := Signalled; tr_wait_killed := Reaped;
     tr_group_live := false; tr_kill_group := Signalled; tr_group_gone := true |}.

Definition created : GuestResult ServiceManager := new_manager Ok manifest specs [Exec].

Definition manager : ServiceManager :=
  match created with Ok m => m | Err _ => Build_ServiceManager ∅ ∅ [] ∅ closed_gate [] [] end.

Lemma created_ok : created = Ok manager.
Proof. vm_compute. reflexivity. Qed.

Lemma order_is : m_order manager = [Mcp; Egress; Exec].
Proof. vm_compute. reflexivity. Qed.

Definition started : ServiceManager := (start_all replies stopping manager).2.

Lemma services_started : start_all replies stopping manager = (Ok tt, started).
Proof. vm_compute. reflexivity. Qed.


Definition rounds : list WatchReplies :=
  [(λ id, match id with Egress => Exited (str "killed") | _ => StillRunning end, replies,
    λ id, sr_health (replies id))].

(** When the egress service goes, the watch ends, and it was started once. *)
Lemma starts_are_bounded_witness :
  start_all replies stopping manager = (Ok tt, started) ∧
  is_Some (watch rounds started).1 ∧
  starts (m_trace (watch rounds started).2) Egress ≤ 1.
Proof.
  assert (Forall (λ spec, 0 ≤ max_restarts (ssp_restart spec)) specs) as Hr
    by (repeat constructor; cbn; lia).
  pose proof (starts_are_bounded Ok manifest specs [Exec] manager started replies stopping rounds
    created_ok Hr services_started) as [H _].
  split_and!; [exact services_started|vm_compute; by eexists|].
  apply (H (spec Egress [] true)). right. right. by left.
Defined.

Lemma manager_closed : closed (dependency_sets (m_specs manager)).
Proof.
  destruct (new_manager_ok Ok manifest specs [Exec] manager created_ok) as [Hc _].
  apply dependencies_closed. intros id spec d Hid Hd.
  destruct (co_mandatory _ _ _ _ Hc id spec d Hid Hd) as (dspec & -> & _). by eexists.
Qed.

(** The execution service comes last. *)
Lemma topological_order_exact_witness :
  topological_order (m_specs manager) = Ok [Mcp; Egress; Exec] ∧
  respects (dependency_sets (m_specs manager)) [Mcp; Egress; Exec].
Proof.
  pose proof (topological_order_exact (m_specs manager) manager_closed) as H.
  assert (topological_order (m_specs manager) = Ok [Mcp; Egress; Exec]) as E
    by (vm_compute; reflexivity).
  rewrite E in H. split; [exact E|apply H].
Defined.

End GuestServiceSample.
