(* ===== verification/Startup.v ===== *)
(** * The start of the guest

    [guest/sendbox-guest/src/supervisor.rs] with [state.rs], [audit.rs], the files of [runtime.rs],
    the controls of [platform.rs] and the services that [broker.rs], [trace.rs], [egress.rs] and
    [mcp_broker.rs] describe.

    A run is a computation over a world: the startup state, the audit log, the files of the session,
    the services and the steps taken so far.  The replies of the operating system, and the values
    read through it, are those of an environment; a step that fails may have had its effect. *)

From S2P Require Import Prelude RustStr GuestService.

(** ** The startup state ([state.rs]) *)

Inductive StartupState : Type :=
| AwaitingBootstrap
| BootstrapConsumed
| ManifestVerified
| RuntimePrepared
| ControlsVerified
| ServicesStarting
| SelfTesting
| Ready
| AgentLaunchPermitted
| ShuttingDown
| Terminated
| StartupFailed.

#[global] Instance StartupState_eq_dec : EqDecision StartupState.
Proof. solve_decision. Defined.

Definition state_name (state : StartupState) : list Z :=
  str match state with
      | AwaitingBootstrap => "awaiting_bootstrap"
      | BootstrapConsumed => "bootstrap_consumed"
      | ManifestVerified => "manifest_verified"
      | RuntimePrepared => "runtime_prepared"
      | ControlsVerified => "controls_verified"
      | ServicesStarting => "services_starting"
      | SelfTesting => "self_testing"
      | Ready => "ready"
      | AgentLaunchPermitted => "agent_launch_permitted"
      | ShuttingDown => "shutting_down"
      | Terminated => "terminated"
      | StartupFailed => "failed"
      end.

Definition is_allowed (from to : StartupState) : bool :=
  match from, to with
  | AwaitingBootstrap, BootstrapConsumed
  | BootstrapConsumed, ManifestVerified
  | ManifestVerified, RuntimePrepared
  | RuntimePrepared, ServicesStarting
  | ServicesStarting, ControlsVerified
  | ControlsVerified, SelfTesting
  | SelfTesting, Ready
  | Ready, AgentLaunchPermitted
  | Ready, ShuttingDown
  | AgentLaunchPermitted, ShuttingDown
  | StartupFailed, ShuttingDown
  | ShuttingDown, Terminated => true
  | _, _ => false
  end.

(** [StartupStateMachine::transition] *)
Definition machine_transition (state next : StartupState) : GuestResult StartupState :=
  if is_allowed state next then Ok next
  else Err (InvalidTransition (state_name state) (state_name next)).

Definition permit_agent_launch (state : StartupState) : GuestResult StartupState :=
  machine_transition state AgentLaunchPermitted.

(** [StartupStateMachine::fail] *)
Definition machine_fail (state : StartupState) : StartupState :=
  match state with
  | ShuttingDown | Terminated => state
  | _ => StartupFailed
  end.

(** ** The audit log ([audit.rs]) *)

Record GuestEvent : Type := {
  ge_sequence : Z;
  ge_code : list Z;
  ge_subject : list Z;
  ge_detail : list Z;
}.

Record GuestAudit : Type := {
  ga_next_sequence : Z;
  ga_events : list GuestEvent;
}.

Definition empty_audit : GuestAudit := {| ga_next_sequence := 0; ga_events := [] |}.

(** The sequence saturates at [u64::MAX]. *)
Definition audit_record (code subject detail : list Z) (log : GuestAudit) : GuestAudit :=
  {| ga_next_sequence := Z.min (ga_next_sequence log + 1) (2 ^ 64 - 1);
     ga_events := ga_events log ++
       [{| ge_sequence := ga_next_sequence log; ge_code := code; ge_subject := subject;
           ge_detail := detail |}] |}.

(** ** Platform controls ([platform.rs]) *)

Inductive ControlKind : Type := PrivilegeDrop | Capabilities | Seccomp.

#[global] Instance ControlKind_eq_dec : EqDecision ControlKind.
Proof. solve_decision. Defined.

Definition control_name (control : ControlKind) : list Z :=
  str match control with
      | PrivilegeDrop => "privilege_drop" | Capabilities => "capabilities" | Seccomp => "seccomp"
      end.

Record ControlStatus : Type := {
  cs_control : ControlKind;
  cs_required : bool;
  cs_verified : bool;
  cs_detail : list Z;
}.

(** The first status that satisfies a test ([Iterator::find]). *)
Definition find_status (test : ControlStatus → bool) (statuses : list ControlStatus)
  : option ControlStatus := head (filter test statuses).

Definition reject_unverified_required (statuses : list ControlStatus) : GuestResult unit :=
  match find_status (λ s, cs_required s && negb (cs_verified s)) statuses with
  | Some status => Err (ControlNotVerified (control_name (cs_control status)))
  | None => Ok tt
  end.

(** What the operating system says when a control operation is called. *)
Record PlatformReplies : Type := {
  pr_root : bool;
  pr_prepare_cgroup : GuestResult unit;
  pr_verify_cgroup : GuestResult unit;
  pr_install : result (list Z) unit;
}.

Class PlatformControls : Type := {
  apply_and_verify : PlatformReplies → list ControlKind → GuestResult (list ControlStatus);
  lockdown_and_verify : PlatformReplies → list ControlStatus → GuestResult (list ControlStatus);
  self_test : PlatformReplies → list ControlStatus → GuestResult unit;
}.

(** What the start relies on: the controls that are required are among the statuses, the lockdown
    keeps them, and a self test finds no required control without verification. *)
Class PlatformLaws (P : PlatformControls) : Prop := {
  apply_required (os : PlatformReplies) (required : list ControlKind) (statuses : list ControlStatus) :
    apply_and_verify os required = Ok statuses →
    ∀ control, control ∈ required →
      ∃ s, s ∈ statuses ∧ cs_control s = control ∧ cs_required s = true;
  lockdown_keeps (os : PlatformReplies) (statuses statuses' : list ControlStatus) :
    lockdown_and_verify os statuses = Ok statuses' →
    ∀ s, s ∈ statuses → ∃ s', s' ∈ statuses' ∧ cs_control s' = cs_control s ∧
                              cs_required s' = cs_required s;
  self_test_verified (os : PlatformReplies) (statuses : list ControlStatus) :
    self_test os statuses = Ok tt →
    ∀ s, s ∈ statuses → cs_required s = true → cs_verified s = true;
}.

Definition control_status (control : ControlKind) (required : list ControlKind) (verified : bool)
    (detail : list Z) : ControlStatus :=
  {| cs_control := control; cs_required := bool_decide (control ∈ required);
     cs_verified := verified; cs_detail := detail |}.

(** [UnavailablePlatformControls]: the default [lockdown_and_verify] is a self test. *)
Definition unavailable_controls : PlatformControls := {|
  apply_and_verify _ required :=
    let statuses :=
      (λ control, control_status control required false
         (str "Linux privilege integration is not implemented in this foundation"))
      <$> [PrivilegeDrop; Capabilities; Seccomp] in
    check? reject_unverified_required statuses in Ok statuses;
  lockdown_and_verify _ statuses := check? reject_unverified_required statuses in Ok statuses;
  self_test _ statuses := reject_unverified_required statuses;
|}.

(** The first status of a control is replaced; there is none to replace in the last case. *)
Fixpoint verify_first (control : ControlKind) (detail : list Z) (statuses : list ControlStatus)
  : option (list ControlStatus) :=
  match statuses with
  | [] => None
  | s :: statuses =>
      if bool_decide (cs_control s = control)
      then Some ({| cs_control := cs_control s; cs_required := cs_required s; cs_verified := true;
                    cs_detail := detail |} :: statuses)
      else (λ statuses, s :: statuses) <$> verify_first control detail statuses
  end.

Definition linux_self_test (os : PlatformReplies) (statuses : list ControlStatus) : GuestResult unit :=
  check? pr_verify_cgroup os in reject_unverified_required statuses.

(** [LinuxPlatformControls] *)
Definition linux_controls : PlatformControls := {|
  apply_and_verify os required :=
    if negb (pr_root os)
    then Err (Runtime (str "production guest supervisor must start as uid/gid 0"))
    else
      check? pr_prepare_cgroup os in
      check? pr_verify_cgroup os in
      Ok [control_status PrivilegeDrop required true
            (str "broker launches workloads as a configured non-root uid/gid");
          control_status Capabilities required true
            (str "production launcher clears workload capability sets");
          control_status Seccomp required false
            (str "TSYNC direct-exec filter is installed after mandatory services start")];
  lockdown_and_verify os statuses :=
    check? map_err (λ error, Runtime (str "install agent lockdown: " ++ error)) (pr_install os) in
    match verify_first Seccomp
            (str "NNP and TSYNC deny direct execve, execveat, and memfd_create; clone3 returns ENOSYS while classic clone namespace flags remain denied")
            statuses with
    | None => Err (Runtime (str "seccomp status was not prepared"))
    | Some statuses => check? linux_self_test os statuses in Ok statuses
    end;
  self_test := linux_self_test;
|}.

Lemma reject_unverified_ok (statuses : list ControlStatus) :
  reject_unverified_required statuses = Ok tt →
  ∀ s, s ∈ statuses → cs_required s = true → cs_verified s = true.
Proof.
  unfold reject_unverified_required, find_status.
  destruct (filter _ statuses) as [|s0 l] eqn:E; [|done]. intros _ s Hin Hr.
  destruct (cs_verified s) eqn:Ev; [done|]. exfalso.
  assert (s ∈ filter (λ s, Is_true (cs_required s && negb (cs_verified s))) statuses) as H.
  { rewrite list_elem_of_filter. by rewrite Hr, Ev. }
  rewrite E in H. by apply not_elem_of_nil in H.
Qed.

#[global] Instance unavailable_laws : PlatformLaws unavailable_controls.
Proof.
  constructor; cbn [unavailable_controls apply_and_verify lockdown_and_verify self_test].
  - intros os required statuses. destruct (reject_unverified_required _); [|done]. intros [= <-].
    intros control Hin. rewrite <-(bool_decide_eq_true (control ∈ required)) in Hin.
    destruct control; eexists;
      [split; [left|]|split; [right; left|]|split; [right; right; left|]]; (split; [done|exact Hin]).
  - intros os statuses statuses'. destruct (reject_unverified_required _); [|done]. intros [= <-]. eauto.
  - intros os statuses. apply reject_unverified_ok.
Qed.

Lemma verify_first_keeps (control : ControlKind) (detail : list Z) (l l' : list ControlStatus) :
  verify_first control detail l = Some l' →
  ∀ s, s ∈ l → ∃ s', s' ∈ l' ∧ cs_control s' = cs_control s ∧ cs_required s' = cs_required s.
Proof.
  revert l'. induction l as [|s0 l IH]; intros l'; cbn [verify_first]; [done|].
  case_bool_decide.
  - intros [= <-] s [->|Hin]%elem_of_cons.
    + eexists. split; [by left|done].
    + exists s. split; [by right|done].
  - destruct (verify_first control detail l) as [l1|]; [|done]. intros [= <-] s [->|Hin]%elem_of_cons.
    + exists s0. split; [by left|done].
    + destruct (IH l1 eq_refl s Hin) as (s' & ? & ?). exists s'. split; [by right|done].
Qed.

#[global] Instance linux_laws : PlatformLaws linux_controls.
Proof.
  constructor; cbn [linux_controls apply_and_verify lockdown_and_verify self_test].
  - intros os required statuses. destruct (pr_root os); [|done]. cbn [negb].
    destruct (pr_prepare_cgroup os); [|done]. destruct (pr_verify_cgroup os); [|done].
    intros [= <-] control Hin. rewrite <-(bool_decide_eq_true (control ∈ required)) in Hin.
    destruct control; eexists;
      [split; [left|]|split; [right; left|]|split; [right; right; left|]]; (split; [done|exact Hin]).
  - intros os statuses statuses'. destruct (map_err _ _); [|done].
    destruct (verify_first _ _ statuses) as [l|] eqn:E; [|done].
    destruct (linux_self_test _ _); [|done]. intros [= <-]. by eapply verify_first_keeps.
  - intros os statuses. unfold linux_self_test. destruct (pr_verify_cgroup os); [|done].
    apply reject_unverified_ok.
Qed.

(** ** Data *)

Record McpPolicyDocument : Type := {
  mpd_workspace_root : list Z;
  mpd_safe_outputs : bool;
}.

Record GuardPolicy : Type := {
  gp_selected_repository : list Z;
  gp_selected_workspace : list Z;
}.

Record ExecutionBroker : Type := {
  eb_runtime_parent : list Z;
  eb_socket_path : list Z;
  eb_cgroup_parent : list Z;
  eb_workload_uid : Z;
  eb_workload_gid : Z;
  eb_git_guard_policy : option GuardPolicy;
  eb_mcp_policy : option McpPolicyDocument;
  eb_syscall_tracing : bool;
}.

(** The consumed bootstrap: what the start reads of it. *)
Record BootstrapDocument : Type := {
  bd_session_id : list Z;
  bd_required_controls : list ControlKind;
  bd_required_services : list ServiceId;
  bd_services : list ServiceSpec;
  bd_execution_broker : option ExecutionBroker;
  bd_egress_instance : option (list Z);
  bd_registry_proxy : bool;
}.

Record ReadinessSnapshot : Type := {
  rd_session_id : list Z;
  rd_state : StartupState;
  rd_release_sequence : Z;
  rd_controls : list ControlStatus;
  rd_services : list ServiceHealth;
  rd_audit_events : list GuestEvent;
}.

(** The calls to the operating system and to the parts of the guest that prepare files. *)
Inductive Step : Type :=
| PrepareReplayRoot
| WaitForBootstrap
| ConsumeBootstrap
| OpenArtifactRoot
| ReadTrustRoot
| VerifyManifest
| PrepareRuntime
| WriteState (state : StartupState)
| InstallGitGuard
| ApprovedCommands
| InstallMcpBroker
| OpenSessionDir
| PrepareTrace
| NetworkReportSources
| NewPackageReportSource
| PrepareEgress
| PrepareWorkloadHome
| WriteBrokerConfig
| ApplyControls
| StartServices
| Lockdown
| SelfTest
| DeriveSealKey
| StartSafeOutputs
| StopSafeOutputs
| JoinSafeOutputs
| BindSocket
| Publish (snapshot : ReadinessSnapshot)
| Accept
| PrepareDecryptor
| PrepareHandshake
| Serve
| RevokeReadiness
| RemoveSessionDir.

(** A call that fails may have done its work before. *)
Inductive IoReply : Type :=
| Done
| FailedBefore (error : GuestError)
| FailedAfter (error : GuestError).

Definition io_result (reply : IoReply) : GuestResult unit :=
  match reply with Done => Ok tt | FailedBefore e | FailedAfter e => Err e end.

Definition io_happened (reply : IoReply) : bool :=
  match reply with Done | FailedAfter _ => true | FailedBefore _ => false end.

Record World : Type := {
  w_steps : list Step;
  w_state : StartupState;
  w_audit : GuestAudit;
  w_session_dir : bool;
  w_runtime : bool;
  w_readiness : option ReadinessSnapshot;
  w_services : option ServiceManager;
}.

Definition start_world : World :=
  {| w_steps := []; w_state := AwaitingBootstrap; w_audit := empty_audit; w_session_dir := false;
     w_runtime := false; w_readiness := None; w_services := None |}.

Definition set_steps (w : World) (steps : list Step) : World :=
  {| w_steps := steps; w_state := w_state w; w_audit := w_audit w; w_session_dir := w_session_dir w;
     w_runtime := w_runtime w; w_readiness := w_readiness w; w_services := w_services w |}.

Definition set_state (w : World) (state : StartupState) : World :=
  {| w_steps := w_steps w; w_state := state; w_audit := w_audit w; w_session_dir := w_session_dir w;
     w_runtime := w_runtime w; w_readiness := w_readiness w; w_services := w_services w |}.

Definition set_audit (w : World) (audit : GuestAudit) : World :=
  {| w_steps := w_steps w; w_state := w_state w; w_audit := audit; w_session_dir := w_session_dir w;
     w_runtime := w_runtime w; w_readiness := w_readiness w; w_services := w_services w |}.

Definition set_session_dir (w : World) (dir runtime : bool) : World :=
  {| w_steps := w_steps w; w_state := w_state w; w_audit := w_audit w; w_session_dir := dir;
     w_runtime := runtime; w_readiness := w_readiness w; w_services := w_services w |}.

Definition set_readiness_file (w : World) (readiness : option ReadinessSnapshot) : World :=
  {| w_steps := w_steps w; w_state := w_state w; w_audit := w_audit w;
     w_session_dir := w_session_dir w; w_runtime := w_runtime w; w_readiness := readiness;
     w_services := w_services w |}.

(** The services record into the audit log they share with the supervisor. *)
Definition set_services (w : World) (m : ServiceManager) : World :=
  {| w_steps := w_steps w; w_state := w_state w;
     w_audit := foldl (λ log '(code, id, detail), audit_record code (service_name id) detail log)
                  (w_audit w) (m_audit m);
     w_session_dir := w_session_dir w; w_runtime := w_runtime w; w_readiness := w_readiness w;
     w_services := Some {| m_specs := m_specs m; m_executables := m_executables m;
                           m_order := m_order m; m_running := m_running m;
                           m_readiness := m_readiness m; m_audit := []; m_trace := m_trace m |} |}.

(** ** The services of the guest ([mcp_broker.rs], [trace.rs], [egress.rs], [broker.rs]) *)

Definition default_restart : RestartPolicy := {| max_restarts := 0; backoff_ms := 25 |}.

Definition guest_service (id : ServiceId) (dependencies : list ServiceId) (args : list (list Z))
    (socket : list Z) (graceful forced log_bytes : Z) : ServiceSpec :=
  {| ssp_id := id; ssp_dependencies := dependencies; ssp_executable := str "bin/sendbox-guest";
     ssp_args := args; ssp_mandatory := true; ssp_restart := default_restart;
     ssp_health := UnixSocket socket 30000; ssp_graceful_shutdown_ms := graceful;
     ssp_forced_shutdown_ms := forced; ssp_max_log_bytes := log_bytes |}.

(** [mcp_broker::audit_service] *)
Definition audit_service : ServiceSpec :=
  guest_service Audit []
    [str "mcp-audit"; str "--policy"; str "/run/sendbox-boundary/mcp-policy.json"]
    (str "/run/sendbox-boundary/audit.sock") 5000 2000 (256 * 1024).

(** [trace::service_spec] *)
Definition trace_service (session_dir : list Z) (egress : bool) : ServiceSpec :=
  guest_service Bpf (if egress then [Egress] else [])
    [str "bpf-trace"; str "--config"; path_join session_dir (str "bpf-trace.json")]
    (path_join session_dir (str "bpf-report.sock")) 5000 2000 (64 * 1024).

(** The service of [egress::prepare] *)
Definition egress_service (session_dir : list Z) : ServiceSpec :=
  guest_service Egress []
    [str "egress-supervisor"; str "--config"; path_join session_dir (str "egress-supervisor.json")]
    (path_join session_dir (str "egress-ready.sock")) 20000 5000 (256 * 1024).

Definition expected_socket (session_id : list Z) (broker : ExecutionBroker) : list Z :=
  path_join (path_join (eb_runtime_parent broker) session_id) (str "s").

(** The service of [broker::prepare] *)
Definition broker_service (session_id session_dir : list Z) (broker : ExecutionBroker) : ServiceSpec :=
  guest_service Exec []
    [str "exec-broker"; str "--config"; path_join session_dir (str "broker.json")]
    (expected_socket session_id broker) 2000 5000 (64 * 1024).

(** [if !service.dependencies.contains(&id) { service.dependencies.push(id) }], under a condition *)
Definition depend (condition : bool) (id : ServiceId) (spec : ServiceSpec) : ServiceSpec :=
  if condition && negb (bool_decide (id ∈ ssp_dependencies spec))
  then {| ssp_id := ssp_id spec; ssp_dependencies := ssp_dependencies spec ++ [id];
          ssp_executable := ssp_executable spec; ssp_args := ssp_args spec;
          ssp_mandatory := ssp_mandatory spec; ssp_restart := ssp_restart spec;
          ssp_health := ssp_health spec; ssp_graceful_shutdown_ms := ssp_graceful_shutdown_ms spec;
          ssp_forced_shutdown_ms := ssp_forced_shutdown_ms spec;
          ssp_max_log_bytes := ssp_max_log_bytes spec |}
  else spec.

(** A service of the guest is added once, and is required. *)
Definition add_service (duplicate : string) (spec : ServiceSpec)
    (services : list ServiceSpec) (required : list ServiceId)
  : GuestResult (list ServiceSpec * list ServiceId) :=
  if existsb (λ existing, bool_decide (ssp_id existing = ssp_id spec)) services
  then Err (Runtime (str duplicate))
  else
    Ok (services ++ [spec],
        if bool_decide (ssp_id spec ∈ required) then required else required ++ [ssp_id spec]).

(** ** The computation *)

Definition M (A : Type) : Type := World → GuestResult A * World.

#[global] Instance M_ret : MRet M := λ A x w, (Ok x, w).

#[global] Instance M_bind : MBind M := λ A B k m w,
  match m w with
  | (Ok x, w) => k x w
  | (Err e, w) => (Err e, w)
  end.

Definition throw {A : Type} (e : GuestError) : M A := λ w, (Err e, w).

Definition lift {A : Type} (r : GuestResult A) : M A := λ w, (r, w).

Definition update (f : World → World) : M unit := λ w, (Ok tt, f w).

Definition when (condition : bool) (m : M unit) : M unit := if condition then m else mret tt.

(** [let _ = …]: the error is ignored *)
Definition ignore (m : M unit) : M unit := λ w, (Ok tt, (m w).2).

(** The error is a value. *)
Definition outcome (m : M unit) : M (GuestResult unit) := λ w, let '(r, w) := m w in (Ok r, w).

(** What the environment of a run replies. *)
Record Env : Type := {
  e_io : list Step → Step → IoReply;
  e_bootstrap : BootstrapDocument;
  e_runtime_root : list Z;
  e_manifest : VerifiedManifest;
  e_release_sequence : Z;
  e_server_count : Z;
  e_try_clone : Z → result (list Z) Z;
  e_os : Step → PlatformReplies;
  e_spawn : ServiceId → SpawnReplies;
  e_stop : ServiceId → TerminateReplies;
  e_logs : ServiceId → BoundedLog * BoundedLog;
  e_safe_outputs_live : bool;
  e_rounds_accept : list WatchReplies;
  e_safe_outputs_accept : option GuestError;
  e_rounds_serve : list WatchReplies;
  e_safe_outputs_serve : option GuestError;
  e_launched : bool;
}.

Section Run.
Context `{P : PlatformControls} (env : Env).

Definition step (s : Step) : M unit := λ w,
  (io_result (e_io env (w_steps w) s), set_steps w (w_steps w ++ [s])).

Definition record_audit (code subject detail : list Z) : M unit :=
  update (λ w, set_audit w (audit_record code subject detail (w_audit w))).

(** *** The files of the session ([runtime.rs]) *)

(** [RuntimeSession::prepare] *)
Definition prepare_runtime : M unit := λ w,
  let reply := e_io env (w_steps w) PrepareRuntime in
  (io_result reply,
   set_session_dir (set_steps w (w_steps w ++ [PrepareRuntime])) (io_happened reply)
     (match reply with Done => true | _ => false end)).

Definition session_dir : list Z := path_join (e_runtime_root env) (bd_session_id (e_bootstrap env)).

Definition write_state (state : StartupState) : M unit := step (WriteState state).

Definition publish_readiness (readiness : ReadinessSnapshot) : M unit := λ w,
  if negb (bool_decide (rd_state readiness = Ready))
  then (Err (Runtime (str "readiness marker can only describe the ready state")), w)
  else
    let reply := e_io env (w_steps w) (Publish readiness) in
    let w := set_steps w (w_steps w ++ [Publish readiness]) in
    (io_result reply, if io_happened reply then set_readiness_file w (Some readiness) else w).

Definition revoke_readiness : M unit := λ w,
  let reply := e_io env (w_steps w) RevokeReadiness in
  let w := set_steps w (w_steps w ++ [RevokeReadiness]) in
  (io_result reply, if io_happened reply then set_readiness_file w None else w).

Definition remove_session_dir : M unit := λ w,
  let reply := e_io env (w_steps w) RemoveSessionDir in
  let w := set_steps w (w_steps w ++ [RemoveSessionDir]) in
  (io_result reply, if io_happened reply then set_session_dir w false (w_runtime w) else w).

(** [RuntimeSession::cleanup] *)
Definition cleanup : M unit := revoke_readiness;; remove_session_dir.

(** *** Helpers of [supervisor.rs] *)

Definition transition (next : StartupState) : M unit := λ w,
  match machine_transition (w_state w) next with
  | Err e => (Err e, w)
  | Ok state =>
      record_audit (str "state_transition") (str "session") (state_name next) (set_state w state)
  end.

Definition transition_and_write (next : StartupState) : M unit := transition next;; write_state next.

(** An operation of the services. *)
Definition with_services {A : Type} (f : ServiceManager → A * ServiceManager) (absent : A) : M A :=
  λ w,
  match w_services w with
  | None => (Ok absent, w)
  | Some m => let '(x, m) := f m in (Ok x, set_services w m)
  end.

Definition shutdown_services : M unit :=
  r ← with_services (GuestService.shutdown (e_stop env)) (Ok tt); lift r.

Definition shutdown : M unit :=
  λ w,
  (when (negb (bool_decide (w_state w = ShuttingDown))) (transition_and_write ShuttingDown);;
   shutdown_services;;
   transition_and_write Terminated;;
   cleanup) w.

Definition fail_and_cleanup : M unit :=
  update (λ w, set_state w (machine_fail (w_state w)));;
  revoke_readiness;;
  shutdown.

(** *** The services and their dependencies *)

Definition wants_safe_outputs (broker : option ExecutionBroker) : bool :=
  match broker ≫= eb_mcp_policy with
  | Some policy => mpd_safe_outputs policy
  | None => false
  end.

Definition wants_tracing (broker : option ExecutionBroker) : bool :=
  match broker with Some broker => eb_syscall_tracing broker | None => false end.

Definition install_git_guard (broker : option ExecutionBroker) : M unit :=
  match broker ≫= eb_git_guard_policy with
  | None => mret tt
  | Some policy =>
      step InstallGitGuard;;
      record_audit (str "git_guard_installed") (gp_selected_repository policy)
        (gp_selected_workspace policy)
  end.

Definition Assembly : Type := list ServiceSpec * list ServiceId.

Definition add (duplicate : string) (spec : ServiceSpec) (services : Assembly) : M Assembly :=
  lift (add_service duplicate spec services.1 services.2).

Definition install_mcp (broker : option ExecutionBroker) (services : Assembly) : M Assembly :=
  match broker ≫= eb_mcp_policy with
  | None => mret services
  | Some policy =>
      step ApprovedCommands;;
      step InstallMcpBroker;;
      services ← add "MCP audit service was configured more than once" audit_service services;
      record_audit (str "mcp_broker_installed") (mpd_workspace_root policy)
        (show_dec (e_server_count env));;
      mret services
  end.

(** [trace::prepare] *)
Definition prepare_trace (egress : bool) (cgroup_parent : list Z) : M ServiceSpec :=
  step OpenSessionDir;;
  if negb (path_starts_with cgroup_parent (str "/sys/fs/cgroup/sendbox")) || has_parent_dir cgroup_parent
  then throw (Runtime (str "tracing must select the owned execution cgroup"))
  else step PrepareTrace;; mret (trace_service session_dir egress).

Definition install_trace (broker : option ExecutionBroker) (egress : bool) (services : Assembly)
  : M Assembly :=
  match broker with
  | Some broker =>
      if eb_syscall_tracing broker then
        service ← prepare_trace egress (eb_cgroup_parent broker);
        add "syscall tracing service was configured more than once" service services
      else mret services
  | None => mret services
  end.

Definition install_egress (instance : option (list Z)) (services : Assembly) : M Assembly :=
  match instance with
  | None => mret services
  | Some instance_id =>
      step PrepareEgress;;
      let service := depend (bool_decide (Audit ∈ services.2)) Audit (egress_service session_dir) in
      services ← add "egress service was configured more than once" service services;
      record_audit (str "egress_policy_prepared") instance_id
        (str "authenticated cgroup and nftables enforcement");;
      mret services
  end.

(** [broker::prepare] *)
Definition prepare_broker (session_id : list Z) (broker : ExecutionBroker) : M ServiceSpec :=
  if (eb_workload_uid broker =? 0) || (eb_workload_gid broker =? 0)
  then throw (Runtime (str "brokered workloads must use a non-root uid and gid"))
  else
    step PrepareWorkloadHome;;
    if bool_decide (path_components (eb_socket_path broker) =
                    path_components (expected_socket session_id broker))
    then step WriteBrokerConfig;; mret (broker_service session_id session_dir broker)
    else throw (Runtime (str "execution broker socket path does not match its session runtime")).

Definition install_broker (session_id : list Z) (broker : option ExecutionBroker)
    (tracing egress : bool) (services : Assembly) : M Assembly :=
  match broker with
  | None => mret services
  | Some broker =>
      service ← prepare_broker session_id broker;
      let service :=
        depend (bool_decide (Audit ∈ services.2)) Audit
          (depend egress Egress (depend tracing Bpf service)) in
      add "execution broker service was configured more than once" service services
  end.

(** The services of the bootstrap, with those of the guest. *)
Definition assemble : M Assembly :=
  let b := e_bootstrap env in
  let broker := bd_execution_broker b in
  let egress := bool_decide (is_Some (bd_egress_instance b)) in
  install_git_guard broker;;
  services ← install_mcp broker (bd_services b, bd_required_services b);
  services ← install_trace broker egress services;
  step NetworkReportSources;;
  when (bd_registry_proxy b) (step NewPackageReportSource);;
  services ← install_egress (bd_egress_instance b) services;
  install_broker (bd_session_id b) broker (wants_tracing broker) egress services.

(** *** The run *)

Definition prepare : M Assembly :=
  step PrepareReplayRoot;;
  step WaitForBootstrap;;
  step ConsumeBootstrap;;
  transition BootstrapConsumed;;
  step OpenArtifactRoot;;
  step ReadTrustRoot;;
  step VerifyManifest;;
  transition ManifestVerified;;
  prepare_runtime;;
  write_state RuntimePrepared;;
  transition RuntimePrepared;;
  assemble.

Definition apply_controls : M (list ControlStatus) :=
  update (λ w, set_steps w (w_steps w ++ [ApplyControls]));;
  lift (apply_and_verify (e_os env ApplyControls) (bd_required_controls (e_bootstrap env))).

Definition lockdown (controls : list ControlStatus) : M (list ControlStatus) :=
  update (λ w, set_steps w (w_steps w ++ [Lockdown]));;
  lift (lockdown_and_verify (e_os env Lockdown) controls).

Definition run_self_test (controls : list ControlStatus) : M unit :=
  update (λ w, set_steps w (w_steps w ++ [SelfTest]));;
  lift (self_test (e_os env SelfTest) controls).

Definition create_services (services : Assembly) : M unit :=
  m ← lift (new_manager (e_try_clone env) (e_manifest env) services.1 services.2);
  update (λ w, set_services w m).

Definition start_services : M unit :=
  update (λ w, set_steps w (w_steps w ++ [StartServices]));;
  r ← with_services (start_all (e_spawn env) (e_stop env)) (Ok tt);
  match r with
  | Ok _ => mret tt
  | Err error => fail_and_cleanup;; throw error
  end.

Definition service_health : M (list ServiceHealth) :=
  with_services (λ m, (health (e_logs env) m, m)) [].

Definition safe_outputs_health : ServiceHealth :=
  {| sh_id := SafeOutputs; sh_mandatory := true; sh_healthy := e_safe_outputs_live env;
     sh_restart_count := 0; sh_stdout_bytes := 0; sh_stderr_bytes := 0;
     sh_output_truncated := false |}.

Definition start_safe_outputs (wanted : bool) : M unit :=
  when wanted
    (step DeriveSealKey;;
     step StartSafeOutputs;;
     record_audit (str "safe_outputs_started") (bd_session_id (e_bootstrap env))
       (str "root-owned MCP intent recorder")).

(** The recorder is told to stop, which does not fail, and waited for. *)
Definition stop_safe_outputs (wanted : bool) : M unit :=
  when wanted (ignore (step StopSafeOutputs);; step JoinSafeOutputs).

Definition check_mandatory (wanted : bool) (services : list ServiceHealth) : M unit :=
  if existsb (λ s, sh_mandatory s && negb (sh_healthy s)) services
  then
    stop_safe_outputs wanted;;
    fail_and_cleanup;;
    throw (Runtime (str "mandatory service self-test failed"))
  else mret tt.

Definition publish (controls : list ControlStatus) (services : list ServiceHealth) : M unit :=
  λ w,
  publish_readiness
    {| rd_session_id := bd_session_id (e_bootstrap env); rd_state := Ready;
       rd_release_sequence := e_release_sequence env; rd_controls := controls;
       rd_services := services; rd_audit_events := ga_events (w_audit w) |} w.

(** Up to the readiness of the guest. *)
Definition get_ready : M (list ControlStatus * list ServiceHealth) :=
  services ← prepare;
  controls ← apply_controls;
  create_services services;;
  transition_and_write ServicesStarting;;
  start_services;;
  controls ← lockdown controls;
  transition_and_write ControlsVerified;;
  transition_and_write SelfTesting;;
  run_self_test controls;;
  services ← service_health;
  let wanted := wants_safe_outputs (bd_execution_broker (e_bootstrap env)) in
  start_safe_outputs wanted;;
  let services := services ++ (if wanted then [safe_outputs_health] else []) in
  check_mandatory wanted services;;
  step BindSocket;;
  with_services (λ m, (tt, arm_readiness m)) tt;;
  transition_and_write Ready;;
  mret (controls, services).

Definition start : M unit := '(controls, services) ← get_ready; publish controls services.

(** [select!]: the call, unless a service or the recorder fails before *)
Definition attended (rounds : list WatchReplies) (recorder : option GuestError) (call : M unit)
  : M (GuestResult unit) :=
  failure ← with_services (watch rounds) None;
  match failure, recorder with
  | Some e, _ => mret (Err e)
  | None, Some e => mret (Err e)
  | None, None => outcome call
  end.

(** The protocol may permit the launch of the agent while it serves, whatever ends it. *)
Definition permit_launch : M unit :=
  update (λ w,
    match permit_agent_launch (w_state w) with
    | Ok state => if e_launched env then set_state w state else w
    | Err _ => w
    end).

Definition serve : M (GuestResult unit) :=
  step PrepareDecryptor;;
  step PrepareHandshake;;
  permit_launch;;
  attended (e_rounds_serve env) (e_safe_outputs_serve env) (step Serve).

Definition session : M (GuestResult unit) :=
  accepted ← attended (e_rounds_accept env) (e_safe_outputs_accept env) (step Accept);
  match accepted with
  | Ok _ => serve
  | Err e => mret (Err e)
  end.

(** [Result::and] *)
Definition and_result (r1 r2 : GuestResult unit) : GuestResult unit :=
  match r1 with Ok _ => r2 | Err e => Err e end.

(** From readiness to the end of the session. *)
Definition finish : M unit :=
  result ← session;
  let wanted := wants_safe_outputs (bd_execution_broker (e_bootstrap env)) in
  recorder ← outcome (stop_safe_outputs wanted);
  let result := and_result result recorder in
  with_services (λ m, (tt, set_readiness m (revoke (m_readiness m)))) tt;;
  revoke_readiness;;
  when (negb (is_ok result))
    (update (λ w, set_state w (machine_fail (w_state w)));;
     record_audit (str "readiness_revoked") (str "session") (str "fail-closed shutdown"));;
  shutdown;;
  lift result.

Definition body : M unit := start;; finish.

(** The services that are still there are dropped, then the session, whose cleanup may fail. *)
Definition drop_services (m : ServiceManager) : ServiceManager :=
  set_running m ∅
    (omap (λ id, (λ s, Dropped id (rs_process_group s)) <$> m_running m !! id) all_ids).

Definition drop_all (w : World) : World :=
  let w := match w_services w with Some m => set_services w (drop_services m) | None => w end in
  if w_runtime w then (cleanup w).2 else w.

Definition run : GuestResult unit * World :=
  let '(r, w) := body start_world in (r, drop_all w).

End Run.
