(* ===== verification/StartupSafety.v ===== *)
(** * What a start of the guest guarantees

    The theorems on [Startup]: the launch of the agent is permitted after one sequence of states
    only; readiness is published after every step of the start succeeded, with all required controls
    verified and all required services there; the execution service is started only while the
    services that confine it run; and a run leaves no process and no readiness behind. *)

From S2P Require Import Prelude RustStr GuestService Startup.

(** ** The startup state *)

Inductive MachineOp : Type := OpTransition (next : StartupState) | OpFail.

Definition machine_step (state : StartupState) (op : MachineOp) : option StartupState :=
  match op with
  | OpTransition next => match machine_transition state next with Ok s => Some s | Err _ => None end
  | OpFail => if bool_decide (machine_fail state = state) then None else Some (machine_fail state)
  end.

(** The states a machine enters; what is refused changes nothing. *)
Fixpoint entered (state : StartupState) (ops : list MachineOp) : list StartupState :=
  match ops with
  | [] => []
  | op :: ops =>
      match machine_step state op with
      | Some next => next :: entered next ops
      | None => entered state ops
      end
  end.

Definition launch_path : list StartupState :=
  [BootstrapConsumed; ManifestVerified; RuntimePrepared; ServicesStarting; ControlsVerified;
   SelfTesting; Ready; AgentLaunchPermitted].

(** A state on the way to the launch. *)
Definition on_path (n : nat) : StartupState := default AwaitingBootstrap ((AwaitingBootstrap :: launch_path) !! n).

(** The states after which there is no launch. *)
Definition ended (state : StartupState) : bool :=
  match state with StartupFailed | ShuttingDown | Terminated => true | _ => false end.

Lemma ended_stays (state : StartupState) (ops : list MachineOp) :
  ended state = true → AgentLaunchPermitted ∉ entered state ops.
Proof.
  revert state. induction ops as [|op ops IH]; intros state He; cbn [entered]; [set_solver|].
  destruct (machine_step state op) as [next|] eqn:E; [|by apply IH].
  assert (ended next = true ∧ next ≠ AgentLaunchPermitted) as [Hn Hne].
  { destruct op as [s|]; cbn in E.
    - unfold machine_transition in E. destruct (is_allowed state s) eqn:Ea; [|done].
      injection E as <-. by destruct state, s.
    - case_bool_decide; [done|]. injection E as <-. by destruct state. }
  intros [|H]%elem_of_cons; [congruence|by apply (IH next)].
Qed.

Lemma path_step (n : nat) (op : MachineOp) (next : StartupState) :
  (n ≤ 8)%nat → machine_step (on_path n) op = Some next →
  (next = on_path (S n) ∧ (S n ≤ 8)%nat) ∨ ended next = true.
Proof.
  intros Hn. destruct op as [s|]; cbn [machine_step].
  - unfold machine_transition. destruct (is_allowed (on_path n) s) eqn:Ea; [|done]. intros [= <-].
    do 9 (destruct n as [|n]; [destruct s; try done; (by right) || (left; split; [done|lia])|]). lia.
  - case_bool_decide; [done|]. intros [= <-]. right.
    do 9 (destruct n as [|n]; [done|]). lia.
Qed.

(** The launch of the agent is permitted only after the whole sequence of states, and nothing
    else, whatever transitions are tried and whenever the start fails. *)
Theorem launch_path_exact (ops : list MachineOp) (before after : list StartupState) :
  entered AwaitingBootstrap ops = before ++ AgentLaunchPermitted :: after →
  before ++ [AgentLaunchPermitted] = launch_path.
Proof.
  assert (∀ n, (n ≤ 8)%nat → ∀ ops before after,
    entered (on_path n) ops = before ++ AgentLaunchPermitted :: after →
    before ++ [AgentLaunchPermitted] = drop n launch_path) as H; [|by apply (H 0%nat); lia].
  intros n Hn ops'. revert n Hn. induction ops' as [|op ops' IH]; intros n Hn before' after'; cbn [entered].
  { by destruct before'. }
  destruct (machine_step (on_path n) op) as [next|] eqn:E; [|by apply IH].
  destruct (path_step n op next Hn E) as [[-> Hn']|He].
  - assert (drop n launch_path = on_path (S n) :: drop (S n) launch_path) as ->.
    { do 8 (destruct n as [|n]; [done|]). lia. }
    destruct before' as [|s before']; cbn [app].
    + intros [= Hs _]. do 7 (destruct n as [|n]; [done|]). destruct n; [done|lia].
    + intros [= <- H]. f_equal. by eapply IH.
  - intros H. exfalso. apply (ended_stays next ops' He).
    destruct before' as [|s before']; cbn [app] in H; injection H as Hs H.
    + by subst.
    + rewrite H. set_solver.
Qed.

(** ** Computations *)

Lemma bind_ok {A B : Type} (m : M A) (k : A → M B) (w w' : World) (y : B) :
  (m ≫= k) w = (Ok y, w') → ∃ x w1, m w = (Ok x, w1) ∧ k x w1 = (Ok y, w').
Proof. unfold mbind, M_bind. destruct (m w) as [[x|e] w1]; [by eauto|done]. Qed.

Lemma lift_ok {A : Type} (r : GuestResult A) (w w' : World) (x : A) :
  lift r w = (Ok x, w') → r = Ok x ∧ w' = w.
Proof. by intros [= -> ->]. Qed.

Lemma ret_ok {A : Type} (x y : A) (w w' : World) : mret (M := M) x w = (Ok y, w') → y = x ∧ w' = w.
Proof. by intros [= -> ->]. Qed.

(** The steps a computation takes, whatever its result, satisfy a predicate. *)
Definition emits {A : Type} (Q : Step → Prop) (m : M A) : Prop :=
  ∀ w, ∃ new, w_steps (m w).2 = w_steps w ++ new ∧ Forall Q new.

(** A property of the world that a computation keeps, whatever its result. *)
Definition keeps {A : Type} (I : World → Prop) (m : M A) : Prop := ∀ w, I w → I (m w).2.

Section Rules.
Context {A B : Type}.

Lemma keeps_bind (I : World → Prop) (m : M A) (k : A → M B) :
  keeps I m → (∀ x, keeps I (k x)) → keeps I (m ≫= k).
Proof.
  intros Hm Hk w Hw. specialize (Hm w Hw). unfold mbind, M_bind.
  destruct (m w) as [[x|e] w1]; [by apply Hk|done].
Qed.

Lemma keeps_ret (I : World → Prop) (x : A) : keeps I (mret (M := M) x).
Proof. by intros w Hw. Qed.

Lemma keeps_lift (I : World → Prop) (r : GuestResult A) : keeps I (lift r).
Proof. by intros w Hw. Qed.

Lemma keeps_throw (I : World → Prop) (e : GuestError) : keeps I (throw (A := A) e).
Proof. by intros w Hw. Qed.

Lemma emits_bind (Q : Step → Prop) (m : M A) (k : A → M B) :
  emits Q m → (∀ x, emits Q (k x)) → emits Q (m ≫= k).
Proof.
  intros Hm Hk w. destruct (Hm w) as (n1 & E1 & H1). unfold mbind, M_bind.
  destruct (m w) as [[x|e] w1]; [|by eauto]. destruct (Hk x w1) as (n2 & E2 & H2).
  cbn [snd] in E1. exists (n1 ++ n2). rewrite E2, E1, app_assoc. split; [done|]. by apply Forall_app_2.
Qed.

Lemma emits_frame (Q : Step → Prop) (m : M A) : (∀ w, w_steps (m w).2 = w_steps w) → emits Q m.
Proof. intros H w. exists []. rewrite H, app_nil_r. split; [done|constructor]. Qed.

End Rules.

Lemma keeps_when (I : World → Prop) (condition : bool) (m : M unit) : keeps I m → keeps I (when condition m).
Proof. destruct condition; [done|]. intros _. apply keeps_ret. Qed.

Lemma keeps_ignore (I : World → Prop) (m : M unit) : keeps I m → keeps I (ignore m).
Proof. intros H w Hw. by apply H. Qed.

Lemma keeps_outcome (I : World → Prop) (m : M unit) : keeps I m → keeps I (outcome m).
Proof. intros H w Hw. specialize (H w Hw). unfold outcome. by destruct (m w). Qed.

Lemma keeps_update (I : World → Prop) (f : World → World) : (∀ w, I w → I (f w)) → keeps I (update f).
Proof. intros H w Hw. by apply H. Qed.

Lemma emits_when (Q : Step → Prop) (condition : bool) (m : M unit) : emits Q m → emits Q (when condition m).
Proof. destruct condition; [done|]. intros _. by apply emits_frame. Qed.

Lemma emits_ignore (Q : Step → Prop) (m : M unit) : emits Q m → emits Q (ignore m).
Proof. intros H w. apply (H w). Qed.

Lemma emits_outcome (Q : Step → Prop) (m : M unit) : emits Q m → emits Q (outcome m).
Proof. intros H w. destruct (H w) as (new & E & Hn). unfold outcome. destruct (m w). by exists new. Qed.

(** The services alone are changed. *)
Lemma set_services_steps (w : World) (m : ServiceManager) : w_steps (set_services w m) = w_steps w.
Proof. done. Qed.

Lemma emits_with_services {A : Type} (Q : Step → Prop) (f : ServiceManager → A * ServiceManager) (x : A) :
  emits Q (with_services f x).
Proof.
  apply emits_frame. intros w. unfold with_services. destruct (w_services w) as [m|]; [|done].
  by destruct (f m).
Qed.

Create HintDb guest.

#[export] Hint Resolve keeps_ret keeps_lift keeps_throw emits_with_services : guest.

(** Goes through a computation. *)
Ltac walk :=
  repeat first
    [ match goal with |- ∀ _, _ => intro end
    | solve [eauto with guest]
    | solve [simple apply emits_frame; done]
    | match goal with
      | |- keeps _ (_ ≫= _) => apply keeps_bind
      | |- emits _ (_ ≫= _) => apply emits_bind
      | |- keeps _ (when _ _) => apply keeps_when
      | |- emits _ (when _ _) => apply emits_when
      | |- keeps _ (ignore _) => apply keeps_ignore
      | |- emits _ (ignore _) => apply emits_ignore
      | |- keeps _ (outcome _) => apply keeps_outcome
      | |- emits _ (outcome _) => apply emits_outcome
      | |- keeps _ (match ?x with _ => _ end) => destruct x
      | |- emits _ (match ?x with _ => _ end) => destruct x
      end ].

Section Safety.
Context `{P : PlatformControls} `{!PlatformLaws P} (env : Env).

(** ** Who publishes *)

Definition not_publish (s : Step) : Prop := match s with Publish _ => False | _ => True end.

Lemma emits_step (s : Step) : not_publish s → emits not_publish (step env s).
Proof. intros Hs w. exists [s]. split; [done|]. by constructor. Qed.

Lemma emits_transition (next : StartupState) : emits not_publish (transition next).
Proof. apply emits_frame. intros w. unfold transition. by destruct (machine_transition _ _). Qed.

Lemma emits_revoke : emits not_publish (revoke_readiness env).
Proof.
  intros w. exists [RevokeReadiness]. unfold revoke_readiness. cbv zeta.
  split; [by destruct (io_happened _)|]. by constructor.
Qed.

Lemma emits_remove : emits not_publish (remove_session_dir env).
Proof.
  intros w. exists [RemoveSessionDir]. unfold remove_session_dir. cbv zeta.
  split; [by destruct (io_happened _)|]. by constructor.
Qed.

Lemma emits_update_step (s : Step) :
  not_publish s → emits not_publish (update (λ w, set_steps w (w_steps w ++ [s]))).
Proof. intros Hs w. exists [s]. split; [done|]. by constructor. Qed.

#[local] Hint Resolve emits_step emits_transition emits_revoke emits_remove emits_update_step : guest.
#[local] Hint Extern 2 (not_publish _) => exact I : guest.

Lemma emits_cleanup : emits not_publish (cleanup env).
Proof. unfold cleanup. walk. Qed.

Lemma emits_transition_and_write (next : StartupState) : emits not_publish (transition_and_write env next).
Proof. unfold transition_and_write, write_state. walk. Qed.

#[local] Hint Resolve emits_cleanup emits_transition_and_write : guest.

Lemma emits_shutdown : emits not_publish (shutdown env).
Proof.
  assert (∀ b, emits not_publish
    (when b (transition_and_write env ShuttingDown);; shutdown_services env;;
     transition_and_write env Terminated;; cleanup env)) as H.
  { unfold shutdown_services. walk. }
  intros w. apply H.
Qed.

#[local] Hint Resolve emits_shutdown : guest.

Lemma emits_fail_and_cleanup : emits not_publish (fail_and_cleanup env).
Proof. unfold fail_and_cleanup. walk. Qed.

#[local] Hint Resolve emits_fail_and_cleanup : guest.

Lemma emits_prepare_runtime : emits not_publish (prepare_runtime env).
Proof. intros w. exists [PrepareRuntime]. split; [done|]. by constructor. Qed.

#[local] Hint Resolve emits_prepare_runtime : guest.

Lemma emits_assemble : emits not_publish (assemble env).
Proof.
  unfold assemble, install_git_guard, install_mcp, install_trace, prepare_trace, install_egress,
    install_broker, prepare_broker, add. walk.
Qed.

#[local] Hint Resolve emits_assemble : guest.

Lemma emits_get_ready : emits not_publish (get_ready env).
Proof.
  unfold get_ready, prepare, write_state, apply_controls, create_services, start_services, lockdown,
    run_self_test, service_health, start_safe_outputs, check_mandatory, stop_safe_outputs. walk.
Qed.

Lemma emits_permit_launch : emits not_publish (permit_launch env).
Proof.
  apply emits_frame. intros w. cbn. destruct (permit_agent_launch _); [|done].
  by destruct (e_launched env).
Qed.

#[local] Hint Resolve emits_permit_launch : guest.

Lemma emits_session : emits not_publish (session env).
Proof. unfold session, serve, attended. walk. Qed.

#[local] Hint Resolve emits_session : guest.

Lemma emits_finish : emits not_publish (finish env).
Proof. unfold finish, stop_safe_outputs. cbv zeta. walk. Qed.

(** ** The steps of a start *)

(** The steps whose reply the environment gives. *)
Definition replied (s : Step) : bool :=
  match s with ApplyControls | StartServices | Lockdown | SelfTest => false | _ => true end.

Fixpoint all_done (history steps : list Step) : Prop :=
  match steps with
  | [] => True
  | s :: steps => (replied s = true → e_io env history s = Done) ∧ all_done (history ++ [s]) steps
  end.

Lemma all_done_app (history l1 l2 : list Step) :
  all_done history (l1 ++ l2) ↔ all_done history l1 ∧ all_done (history ++ l1) l2.
Proof.
  revert history. induction l1 as [|s l1 IH]; intros history; cbn [all_done app].
  - rewrite app_nil_r. naive_solver.
  - rewrite IH, <-app_assoc. cbn [app]. naive_solver.
Qed.

(** When it succeeds, a computation takes exactly these steps, and all succeed. *)
Definition does {A : Type} (m : M A) (steps : list Step) : Prop :=
  ∀ w x w', m w = (Ok x, w') → w_steps w' = w_steps w ++ steps ∧ all_done (w_steps w) steps.

Lemma does_bind {A B : Type} (m : M A) (k : A → M B) (l1 l2 : list Step) :
  does m l1 → (∀ x, does (k x) l2) → does (m ≫= k) (l1 ++ l2).
Proof.
  intros Hm Hk w y w' (x & w1 & H1 & H2)%bind_ok. destruct (Hm _ _ _ H1) as [E1 D1].
  destruct (Hk _ _ _ _ H2) as [E2 D2]. rewrite E2, E1, <-app_assoc. split; [done|].
  apply all_done_app. by rewrite <-E1.
Qed.

Lemma does_nothing {A : Type} (m : M A) : (∀ w, w_steps (m w).2 = w_steps w) → does m [].
Proof. intros H w x w' E. specialize (H w). rewrite E in H. by rewrite app_nil_r. Qed.

Lemma does_step (s : Step) : does (step env s) [s].
Proof.
  intros w x w'. unfold step. destruct (e_io env (w_steps w) s) eqn:E; [|done..]. intros [= _ <-].
  split; [done|]. by split.
Qed.

Lemma does_prepare_runtime : does (prepare_runtime env) [PrepareRuntime].
Proof.
  intros w x w'. unfold prepare_runtime. destruct (e_io env (w_steps w) _) eqn:E; [|done..].
  intros [= _ <-]. split; [done|]. by split.
Qed.

Lemma does_transition (next : StartupState) : does (transition next) [].
Proof. apply does_nothing. intros w. unfold transition. by destruct (machine_transition _ _). Qed.

Lemma does_mark (s : Step) :
  replied s = false → does (update (λ w, set_steps w (w_steps w ++ [s]))) [s].
Proof. intros Hs w x w' [= _ <-]. split; [done|]. split; [congruence|done]. Qed.

Lemma does_when (condition : bool) (m : M unit) (l : list Step) :
  does m l → does (when condition m) (if condition then l else []).
Proof. destruct condition; [done|]. intros _. by apply does_nothing. Qed.

Lemma does_with_services {A : Type} (f : ServiceManager → A * ServiceManager) (x : A) :
  does (with_services f x) [].
Proof.
  apply does_nothing. intros w. unfold with_services. destruct (w_services w) as [m|]; [|done].
  by destruct (f m).
Qed.

(** A computation that does not succeed. *)
Lemma does_never {A B : Type} (m : M A) (e : GuestError) (l : list Step) :
  does (m;; throw (A := B) e) l.
Proof. by intros w x w' (y & w1 & _ & H)%bind_ok. Qed.

Lemma does_eq {A : Type} (m : M A) (l l' : list Step) : does m l → l = l' → does m l'.
Proof. by intros ? <-. Qed.

#[local] Hint Resolve does_step does_prepare_runtime does_transition does_mark does_when
  does_with_services does_never : guest.

(** Collects the steps of a computation. *)
Ltac collect :=
  repeat first
    [ match goal with |- ∀ _, _ => intro end
    | match goal with |- does (_ ≫= _) _ => eapply does_bind end
    | solve [eauto with guest]
    | solve [eapply does_nothing; done] ].

Definition broker_of : option ExecutionBroker := bd_execution_broker (e_bootstrap env).

Definition present {A : Type} (x : option A) : bool := match x with Some _ => true | None => false end.

(** The steps that prepare the services. *)
Definition assemble_steps : list Step :=
  (if present (broker_of ≫= eb_git_guard_policy) then [InstallGitGuard] else []) ++
  (if present (broker_of ≫= eb_mcp_policy) then [ApprovedCommands; InstallMcpBroker] else []) ++
  (if wants_tracing broker_of then [OpenSessionDir; PrepareTrace] else []) ++
  [NetworkReportSources] ++
  (if bd_registry_proxy (e_bootstrap env) then [NewPackageReportSource] else []) ++
  (if present (bd_egress_instance (e_bootstrap env)) then [PrepareEgress] else []) ++
  (if present broker_of then [PrepareWorkloadHome; WriteBrokerConfig] else []).

(** The steps up to readiness. *)
Definition start_steps : list Step :=
  [PrepareReplayRoot; WaitForBootstrap; ConsumeBootstrap; OpenArtifactRoot; ReadTrustRoot;
   VerifyManifest; PrepareRuntime; WriteState RuntimePrepared] ++ assemble_steps ++
  [ApplyControls; WriteState ServicesStarting; StartServices; Lockdown; WriteState ControlsVerified;
   WriteState SelfTesting; SelfTest] ++
  (if wants_safe_outputs broker_of then [DeriveSealKey; StartSafeOutputs] else []) ++
  [BindSocket; WriteState Ready].

Lemma does_git_guard (broker : option ExecutionBroker) :
  does (install_git_guard env broker)
    (if present (broker ≫= eb_git_guard_policy) then [InstallGitGuard] else []).
Proof.
  unfold install_git_guard. destruct (broker ≫= eb_git_guard_policy); cbn [present].
  - eapply does_eq; [collect|done].
  - collect.
Qed.

Lemma does_mcp (broker : option ExecutionBroker) (services : Assembly) :
  does (install_mcp env broker services)
    (if present (broker ≫= eb_mcp_policy) then [ApprovedCommands; InstallMcpBroker] else []).
Proof.
  unfold install_mcp, add. destruct (broker ≫= eb_mcp_policy); cbn [present].
  - eapply does_eq; [collect|done].
  - collect.
Qed.

Lemma does_trace (broker : option ExecutionBroker) (egress : bool) (services : Assembly) :
  does (install_trace env broker egress services)
    (if wants_tracing broker then [OpenSessionDir; PrepareTrace] else []).
Proof.
  unfold install_trace, wants_tracing, prepare_trace, add. destruct broker as [broker|]; [|collect].
  destruct (eb_syscall_tracing broker); [|collect]. destruct (negb _ || _).
  - intros w x w' (y & w1 & H & _)%bind_ok. by apply bind_ok in H as (? & ? & _ & H).
  - eapply does_eq; [collect|done].
Qed.

Lemma does_egress (instance : option (list Z)) (services : Assembly) :
  does (install_egress env instance services) (if present instance then [PrepareEgress] else []).
Proof.
  unfold install_egress, add. destruct instance; cbn [present].
  - eapply does_eq; [collect|done].
  - collect.
Qed.

Lemma does_broker (session_id : list Z) (broker : option ExecutionBroker) (tracing egress : bool)
    (services : Assembly) :
  does (install_broker env session_id broker tracing egress services)
    (if present broker then [PrepareWorkloadHome; WriteBrokerConfig] else []).
Proof.
  unfold install_broker, prepare_broker, add. destruct broker as [broker|]; cbn [present]; [|collect].
  destruct (_ || _).
  { by intros w x w' (y & w1 & H & _)%bind_ok. }
  destruct (bool_decide (path_components (eb_socket_path broker) = _)).
  - eapply does_eq; [collect|done].
  - intros w x w' (y & w1 & H' & _)%bind_ok. by apply bind_ok in H' as (? & ? & _ & H').
Qed.

#[local] Hint Resolve does_git_guard does_mcp does_trace does_egress does_broker : guest.

Lemma does_assemble : does (assemble env) assemble_steps.
Proof. unfold assemble. cbv zeta. eapply does_eq; [collect|done]. Qed.

Lemma does_transition_and_write (next : StartupState) :
  does (transition_and_write env next) [WriteState next].
Proof. unfold transition_and_write, write_state. eapply does_eq; [collect|done]. Qed.

Lemma does_start_services : does (start_services env) [StartServices].
Proof.
  unfold start_services. eapply does_eq.
  - eapply does_bind; [by apply does_mark|]. intros _. eapply (does_bind _ _ [] []); [collect|].
    intros [|e]; [collect|apply does_never].
  - done.
Qed.

#[local] Hint Resolve does_assemble does_transition_and_write does_start_services : guest.

Lemma does_check_mandatory (wanted : bool) (services : list ServiceHealth) :
  does (check_mandatory env wanted services) [].
Proof.
  unfold check_mandatory. destruct (existsb _ _); [|collect].
  intros w x w' (? & ? & _ & H)%bind_ok. by apply bind_ok in H as (? & ? & _ & H).
Qed.

Lemma does_safe_outputs (wanted : bool) :
  does (start_safe_outputs env wanted) (if wanted then [DeriveSealKey; StartSafeOutputs] else []).
Proof. unfold start_safe_outputs. apply does_when. eapply does_eq; [collect|done]. Qed.

#[local] Hint Resolve does_check_mandatory does_safe_outputs : guest.

Lemma does_get_ready : does (get_ready env) start_steps.
Proof.
  unfold get_ready, prepare, write_state, apply_controls, create_services, lockdown, run_self_test,
    service_health. cbv zeta. eapply does_eq; [collect|reflexivity].
Qed.

(** ** The plan of the services *)

Definition plan_mcp (services : Assembly) : GuestResult Assembly :=
  match broker_of ≫= eb_mcp_policy with
  | None => Ok services
  | Some _ =>
      add_service "MCP audit service was configured more than once" audit_service services.1 services.2
  end.

Definition egress_wanted : bool := bool_decide (is_Some (bd_egress_instance (e_bootstrap env))).

Definition plan_trace (services : Assembly) : GuestResult Assembly :=
  if wants_tracing broker_of
  then add_service "syscall tracing service was configured more than once"
         (trace_service (session_dir env) egress_wanted) services.1 services.2
  else Ok services.

Definition plan_egress (services : Assembly) : GuestResult Assembly :=
  match bd_egress_instance (e_bootstrap env) with
  | None => Ok services
  | Some _ =>
      add_service "egress service was configured more than once"
        (depend (bool_decide (Audit ∈ services.2)) Audit (egress_service (session_dir env)))
        services.1 services.2
  end.

Definition plan_broker (services : Assembly) : GuestResult Assembly :=
  match broker_of with
  | None => Ok services
  | Some broker =>
      add_service "execution broker service was configured more than once"
        (depend (bool_decide (Audit ∈ services.2)) Audit
           (depend egress_wanted Egress
              (depend (wants_tracing broker_of) Bpf
                 (broker_service (bd_session_id (e_bootstrap env)) (session_dir env) broker))))
        services.1 services.2
  end.

Definition plan : GuestResult Assembly :=
  let? services := plan_mcp (bd_services (e_bootstrap env), bd_required_services (e_bootstrap env)) in
  let? services := plan_trace services in
  let? services := plan_egress services in
  plan_broker services.

Lemma mcp_plan (services services' : Assembly) (w w' : World) :
  install_mcp env broker_of services w = (Ok services', w') → plan_mcp services = Ok services'.
Proof.
  unfold install_mcp, plan_mcp. destruct (broker_of ≫= eb_mcp_policy).
  - intros (? & ? & _ & H)%bind_ok. apply bind_ok in H as (? & ? & _ & H).
    apply bind_ok in H as (s & ? & [H _]%lift_ok & H'). by apply bind_ok in H' as (? & ? & _ & [-> _]%ret_ok).
  - by intros [-> _]%ret_ok.
Qed.

Lemma trace_plan (services services' : Assembly) (w w' : World) :
  install_trace env broker_of egress_wanted services w = (Ok services', w') →
  plan_trace services = Ok services'.
Proof.
  unfold install_trace, plan_trace, wants_tracing. destruct broker_of as [broker|].
  - destruct (eb_syscall_tracing broker); [|by intros [-> _]%ret_ok].
    intros (spec & ? & H & [H' _]%lift_ok)%bind_ok. unfold prepare_trace in H.
    apply bind_ok in H as (? & ? & _ & H). destruct (_ || _); [done|].
    by apply bind_ok in H as (? & ? & _ & [-> _]%ret_ok).
  - by intros [-> _]%ret_ok.
Qed.

Lemma egress_plan (services services' : Assembly) (w w' : World) :
  install_egress env (bd_egress_instance (e_bootstrap env)) services w = (Ok services', w') →
  plan_egress services = Ok services'.
Proof.
  unfold install_egress, plan_egress. destruct (bd_egress_instance (e_bootstrap env)).
  - intros (? & ? & _ & H)%bind_ok. apply bind_ok in H as (s & ? & [H _]%lift_ok & H').
    by apply bind_ok in H' as (? & ? & _ & [-> _]%ret_ok).
  - by intros [-> _]%ret_ok.
Qed.

Lemma broker_plan (services services' : Assembly) (w w' : World) :
  install_broker env (bd_session_id (e_bootstrap env)) broker_of (wants_tracing broker_of)
    egress_wanted services w = (Ok services', w') →
  plan_broker services = Ok services'.
Proof.
  unfold install_broker, plan_broker. destruct broker_of as [broker|].
  - intros (spec & ? & H & [H' _]%lift_ok)%bind_ok. unfold prepare_broker in H.
    destruct (_ || _); [done|]. apply bind_ok in H as (? & ? & _ & H).
    destruct (bool_decide (path_components _ = _)); [|done].
    by apply bind_ok in H as (? & ? & _ & [-> _]%ret_ok).
  - by intros [-> _]%ret_ok.
Qed.

Lemma assemble_plan (w w' : World) (services : Assembly) :
  assemble env w = (Ok services, w') → plan = Ok services.
Proof.
  unfold assemble, plan. cbv zeta. fold broker_of egress_wanted.
  intros (? & w1 & _ & H)%bind_ok. apply bind_ok in H as (s1 & w2 & ->%mcp_plan & H).
  apply bind_ok in H as (s2 & w3 & ->%trace_plan & H). apply bind_ok in H as (? & w4 & _ & H).
  apply bind_ok in H as (? & w5 & _ & H). apply bind_ok in H as (s3 & w6 & ->%egress_plan & H).
  by eapply broker_plan.
Qed.

Lemma add_service_ok (duplicate : string) (spec : ServiceSpec) (s s' : Assembly) :
  add_service duplicate spec s.1 s.2 = Ok s' →
  s'.1 = s.1 ++ [spec] ∧ ssp_id spec ∈ s'.2 ∧ s.2 ⊆ s'.2.
Proof.
  unfold add_service. destruct (existsb _ _); [done|]. intros [= <-]. cbn [fst snd].
  split; [done|]. case_bool_decide; set_solver.
Qed.

Lemma depend_spec (condition : bool) (id : ServiceId) (spec : ServiceSpec) :
  ssp_id (depend condition id spec) = ssp_id spec ∧
  ssp_mandatory (depend condition id spec) = ssp_mandatory spec ∧
  (condition = true → id ∈ ssp_dependencies (depend condition id spec)) ∧
  ssp_dependencies spec ⊆ ssp_dependencies (depend condition id spec).
Proof.
  unfold depend. destruct condition; cbn [andb]; [|done].
  destruct (bool_decide_reflect (id ∈ ssp_dependencies spec)); cbn; split_and!; try done; set_solver.
Qed.

(** A service of the plan that is mandatory and required, with dependencies. *)
Definition planned (services : Assembly) (id : ServiceId) (dependencies : list ServiceId) : Prop :=
  id ∈ services.2 ∧ ∃ spec, spec ∈ services.1 ∧ ssp_id spec = id ∧ ssp_mandatory spec = true ∧
    dependencies ⊆ ssp_dependencies spec.

Lemma planned_add (duplicate : string) (spec : ServiceSpec) (s s' : Assembly) :
  add_service duplicate spec s.1 s.2 = Ok s' → ssp_mandatory spec = true →
  planned s' (ssp_id spec) (ssp_dependencies spec).
Proof.
  intros (E & Hid & _)%add_service_ok Hm. split; [done|]. exists spec. rewrite E. set_solver.
Qed.

Lemma planned_mono (s s' : Assembly) (id : ServiceId) (dependencies : list ServiceId) :
  s.1 ⊆ s'.1 → s.2 ⊆ s'.2 → planned s id dependencies → planned s' id dependencies.
Proof. intros H1 H2 (? & spec & ? & ?). split; [set_solver|]. exists spec. set_solver. Qed.

(** What the bootstrap asks for is in the plan, and the execution service depends on what confines
    it. *)
Record plan_ok (services : Assembly) : Prop := {
  po_services : bd_services (e_bootstrap env) ⊆ services.1;
  po_required : bd_required_services (e_bootstrap env) ⊆ services.2;
  po_mcp : present (broker_of ≫= eb_mcp_policy) = true → planned services Audit [];
  po_tracing : wants_tracing broker_of = true → planned services Bpf [];
  po_egress : egress_wanted = true → planned services Egress [];
  po_exec : present broker_of = true →
    planned services Exec
      ((if egress_wanted then [Egress] else []) ++ (if wants_tracing broker_of then [Bpf] else []) ++
       (if present (broker_of ≫= eb_mcp_policy) then [Audit] else []));
}.

Definition grows (s s' : Assembly) : Prop := s.1 ⊆ s'.1 ∧ s.2 ⊆ s'.2.

Lemma grows_add (duplicate : string) (spec : ServiceSpec) (s s' : Assembly) :
  add_service duplicate spec s.1 s.2 = Ok s' → grows s s'.
Proof. intros (E & _ & H)%add_service_ok. split; [rewrite E; set_solver|done]. Qed.

Lemma planned_grows (s s' : Assembly) (id : ServiceId) (dependencies : list ServiceId) :
  grows s s' → planned s id dependencies → planned s' id dependencies.
Proof. intros [? ?]. by apply planned_mono. Qed.

Lemma planned_weaken (s : Assembly) (id : ServiceId) (d d' : list ServiceId) :
  d' ⊆ d → planned s id d → planned s id d'.
Proof. intros Hd (? & spec & ? & ? & ? & ?). split; [done|]. exists spec. split_and!; try done. set_solver. Qed.

Lemma plan_mcp_ok (s s' : Assembly) :
  plan_mcp s = Ok s' →
  grows s s' ∧ (present (broker_of ≫= eb_mcp_policy) = true → planned s' Audit []).
Proof.
  unfold plan_mcp. destruct (broker_of ≫= eb_mcp_policy); cbn [present].
  - intros H. split; [by eapply grows_add|]. intros _. by apply planned_add in H.
  - intros [= <-]. by split.
Qed.

Lemma plan_trace_ok (s s' : Assembly) :
  plan_trace s = Ok s' → grows s s' ∧ (wants_tracing broker_of = true → planned s' Bpf []).
Proof.
  unfold plan_trace. destruct (wants_tracing broker_of).
  - intros H. split; [by eapply grows_add|]. intros _. apply planned_add in H; [|done].
    eapply planned_weaken; [|exact H]. set_solver.
  - intros [= <-]. by split.
Qed.

Lemma plan_egress_ok (s s' : Assembly) :
  plan_egress s = Ok s' → grows s s' ∧ (egress_wanted = true → planned s' Egress []).
Proof.
  unfold plan_egress, egress_wanted. destruct (bd_egress_instance (e_bootstrap env)).
  - intros H. split; [by eapply grows_add|]. intros _.
    destruct (depend_spec (bool_decide (Audit ∈ s.2)) Audit (egress_service (session_dir env)))
      as (Hid & Hm & _ & _).
    apply planned_add in H; [|by rewrite Hm]. rewrite Hid in H. eapply planned_weaken; [|exact H]. set_solver.
  - intros [= <-]. split; [done|]. by rewrite bool_decide_false by (by intros [? ?]).
Qed.

Lemma plan_broker_ok (s s' : Assembly) :
  plan_broker s = Ok s' →
  grows s s' ∧
  (present broker_of = true →
   planned s' Exec
     ((if egress_wanted then [Egress] else []) ++ (if wants_tracing broker_of then [Bpf] else []) ++
      (if bool_decide (Audit ∈ s.2) then [Audit] else []))).
Proof.
  unfold plan_broker. destruct broker_of as [broker|] eqn:Eb; cbn [present]; [|by intros [= <-]].
  intros H. split; [by eapply grows_add|]. intros _. rewrite <-Eb in *.
  set (base := broker_service _ _ broker) in H.
  set (s1 := depend (wants_tracing broker_of) Bpf base) in H.
  set (s2 := depend egress_wanted Egress s1) in H.
  destruct (depend_spec (wants_tracing broker_of) Bpf base) as (I1 & M1 & D1 & _).
  destruct (depend_spec egress_wanted Egress s1) as (I2 & M2 & D2 & S2).
  destruct (depend_spec (bool_decide (Audit ∈ s.2)) Audit s2) as (I3 & M3 & D3 & S3).
  fold s1 in I1, M1, D1. fold s2 in I2, M2, D2, S2.
  apply planned_add in H; [|by rewrite M3, M2, M1]. rewrite I3, I2, I1 in H.
  eapply planned_weaken; [|exact H]. destruct (wants_tracing broker_of), egress_wanted,
    (bool_decide (Audit ∈ s.2)); set_solver.
Qed.

Lemma plan_is_ok (services : Assembly) : plan = Ok services → plan_ok services.
Proof.
  unfold plan. destruct (plan_mcp _) as [s1|] eqn:E1; [|done]. apply plan_mcp_ok in E1 as [G1 P1].
  destruct (plan_trace s1) as [s2|] eqn:E2; [|done]. apply plan_trace_ok in E2 as [G2 P2].
  destruct (plan_egress s2) as [s3|] eqn:E3; [|done]. apply plan_egress_ok in E3 as [G3 P3].
  intros [G4 P4]%plan_broker_ok. cbn in G1.
  constructor.
  - destruct G1, G2, G3, G4. set_solver.
  - destruct G1, G2, G3, G4. set_solver.
  - intros H. eauto 6 using planned_grows.
  - intros H. eauto 6 using planned_grows.
  - intros H. eauto 6 using planned_grows.
  - intros H. eapply planned_weaken; [|by apply P4].
    destruct (present (broker_of ≫= eb_mcp_policy)); [|set_solver].
    rewrite bool_decide_true; [done|]. destruct (P1 eq_refl) as [H1 _]. destruct G2, G3. set_solver.
Qed.

(** ** The services of a run *)

(** Those of the plan, started in order, and no process but theirs. *)
Record services_ok (m : ServiceManager) : Prop := {
  sv_plan : ∃ services, plan = Ok services ∧
    ∀ spec, spec ∈ services.1 → m_specs m !! ssp_id spec = Some spec;
  sv_ids : ∀ id spec, m_specs m !! id = Some spec → ssp_id spec = id;
  sv_ok : manager_ok m;
  sv_order : started_in_order (m_specs m) (m_trace m);
}.

Definition world_ok (w : World) : Prop := ∀ m, w_services w = Some m → services_ok m.

(** The same services, whatever their gate and their records. *)
Definition same_services (m m' : ServiceManager) : Prop :=
  m_specs m' = m_specs m ∧ m_order m' = m_order m ∧ m_running m' = m_running m ∧ m_trace m' = m_trace m.

Lemma manager_ok_same (m m' : ServiceManager) : same_services m m' → manager_ok m → manager_ok m'.
Proof.
  intros (Hs & Ho & Hr & Ht) [H1 H2]. split.
  - rewrite Hs, Ho, Hr. exact H1.
  - intros id group. rewrite Ht, H2. unfold runs. by rewrite Hr.
Qed.

Lemma services_ok_same (m m' : ServiceManager) : same_services m m' → services_ok m → services_ok m'.
Proof.
  intros Hsame [H1 H2 H3 H4]. pose proof (manager_ok_same m m' Hsame H3).
  destruct Hsame as (Hs & Ho & Hr & Ht). constructor; rewrite ?Hs, ?Ht; done.
Qed.

Lemma keeps_frame {A : Type} (m : M A) :
  (∀ w, w_services (m w).2 = w_services w) → keeps world_ok m.
Proof. intros H w Hw m'. rewrite H. apply Hw. Qed.

Lemma keeps_with_services {A : Type} (f : ServiceManager → A * ServiceManager) (x : A) :
  (∀ m, services_ok m → services_ok (f m).2) → keeps world_ok (with_services f x).
Proof.
  intros Hf w Hw m'. unfold with_services. destruct (w_services w) as [m|] eqn:E; [|by apply Hw].
  specialize (Hf m (Hw m E)). destruct (f m) as [y m1]. cbn [snd] in *. cbn. intros [= <-].
  by apply (services_ok_same m1).
Qed.

Lemma services_shutdown (m : ServiceManager) (stop : ServiceId → TerminateReplies) :
  services_ok m → services_ok (GuestService.shutdown stop m).2.
Proof.
  intros [H1 H2 H3 H4]. pose proof (shutdown_spec stop m H3) as Hd.
  destruct (shutdown_trace stop m) as (events & Ht & Hno).
  destruct (GuestService.shutdown stop m) as [r m']. cbn [snd] in *.
  destruct Hd as (Hok & _ & _ & _ & Hs). constructor; rewrite ?Hs; [done..|].
  rewrite Ht. apply order_extends; [done|]. intros e1 id group e2 spec ->. exfalso.
  apply (Hno id group). set_solver.
Qed.

Lemma services_watch (m : ServiceManager) (rounds : list WatchReplies) :
  services_ok m → services_ok (watch rounds m).2.
Proof.
  intros [H1 H2 H3 H4]. destruct (watch_order rounds m H3 H2 H4) as (Hok & Hs & Hord).
  constructor; rewrite ?Hs; done.
Qed.

Lemma keeps_step (s : Step) : keeps world_ok (step env s).
Proof. by apply keeps_frame. Qed.

Lemma keeps_transition (next : StartupState) : keeps world_ok (transition next).
Proof. apply keeps_frame. intros w. unfold transition. by destruct (machine_transition _ _). Qed.

Lemma keeps_revoke : keeps world_ok (revoke_readiness env).
Proof. apply keeps_frame. intros w. unfold revoke_readiness. cbv zeta. by destruct (io_happened _). Qed.

Lemma keeps_remove : keeps world_ok (remove_session_dir env).
Proof. apply keeps_frame. intros w. unfold remove_session_dir. cbv zeta. by destruct (io_happened _). Qed.

Lemma keeps_publish (controls : list ControlStatus) (services : list ServiceHealth) :
  keeps world_ok (publish env controls services).
Proof.
  apply keeps_frame. intros w. unfold publish, publish_readiness. cbv zeta. cbn [rd_state].
  rewrite bool_decide_true by done. cbn [negb]. by destruct (io_happened _).
Qed.

Lemma keeps_permit_launch : keeps world_ok (permit_launch env).
Proof.
  apply keeps_frame. intros w. cbn. destruct (permit_agent_launch _); [|done].
  by destruct (e_launched env).
Qed.

#[local] Hint Resolve keeps_step keeps_transition keeps_revoke keeps_remove keeps_publish
  keeps_permit_launch : guest.
#[local] Hint Extern 3 (keeps world_ok (update _)) => simple apply keeps_frame; done : guest.
#[local] Hint Extern 3 (keeps world_ok (record_audit _ _ _)) => simple apply keeps_frame; done : guest.

Lemma keeps_watch (rounds : list WatchReplies) : keeps world_ok (with_services (watch rounds) None).
Proof. apply keeps_with_services. intros m. apply services_watch. Qed.

Lemma keeps_gate (gate : ServiceManager → ReadinessGate) :
  keeps world_ok (with_services (λ m, (tt, set_readiness m (gate m))) tt).
Proof. apply keeps_with_services. intros m. by apply services_ok_same. Qed.

Lemma keeps_health : keeps world_ok (service_health env).
Proof. apply keeps_with_services. done. Qed.

#[local] Hint Resolve keeps_watch keeps_gate keeps_health : guest.

Lemma keeps_shutdown : keeps world_ok (shutdown env).
Proof.
  assert (∀ b, keeps world_ok
    (when b (transition_and_write env ShuttingDown);; shutdown_services env;;
     transition_and_write env Terminated;; cleanup env)) as H.
  { unfold shutdown_services, transition_and_write, write_state, cleanup. walk.
    apply keeps_with_services. intros m. apply services_shutdown. }
  intros w. apply H.
Qed.

#[local] Hint Resolve keeps_shutdown : guest.

Lemma keeps_fail_and_cleanup : keeps world_ok (fail_and_cleanup env).
Proof. unfold fail_and_cleanup. walk. Qed.

#[local] Hint Resolve keeps_fail_and_cleanup : guest.

Lemma keeps_session : keeps world_ok (session env).
Proof. unfold session, serve, attended. walk. Qed.

(** ** Up to readiness *)

(** From a world, to a world and a value on success, or to a world on failure. *)
Definition leads {A : Type} (Pre : World → Prop) (m : M A) (Post : A → World → Prop)
    (Fail : World → Prop) : Prop :=
  ∀ w, Pre w → match m w with (Ok x, w') => Post x w' | (Err _, w') => Fail w' end.

Lemma leads_bind {A B : Type} (Pre Fail : World → Prop) (Mid : A → World → Prop)
    (Post : B → World → Prop) (m : M A) (k : A → M B) :
  leads Pre m Mid Fail → (∀ x, leads (Mid x) (k x) Post Fail) → leads Pre (m ≫= k) Post Fail.
Proof.
  intros Hm Hk w Hw. specialize (Hm w Hw). unfold mbind, M_bind.
  destruct (m w) as [[x|e] w1]; [by apply Hk|done].
Qed.

Lemma leads_keeps {A : Type} (I : World → Prop) (m : M A) : keeps I m → leads I m (λ _, I) I.
Proof. intros H w Hw. specialize (H w Hw). by destruct (m w) as [[]]. Qed.

Lemma leads_ret {A : Type} (Post : A → World → Prop) (Fail : World → Prop) (x : A) :
  leads (Post x) (mret x) Post Fail.
Proof. by intros w Hw. Qed.

Lemma leads_weaken {A : Type} (Pre Pre' Fail Fail' : World → Prop) (Post : A → World → Prop) (m : M A) :
  leads Pre m Post Fail → (∀ w, Pre' w → Pre w) → (∀ w, Fail w → Fail' w) → leads Pre' m Post Fail'.
Proof.
  intros H HP HF w Hw. specialize (H w (HP w Hw)). destruct (m w) as [[]]; auto.
Qed.

(** A computation that leaves the services alone. *)
Definition framed {A : Type} (m : M A) : Prop := ∀ w, w_services (m w).2 = w_services w.

Lemma framed_keeps {A : Type} (Q : option ServiceManager → Prop) (m : M A) :
  framed m → keeps (λ w, Q (w_services w)) m.
Proof. intros H w Hw. by rewrite H. Qed.

Lemma framed_bind {A B : Type} (m : M A) (k : A → M B) :
  framed m → (∀ x, framed (k x)) → framed (m ≫= k).
Proof.
  intros Hm Hk w. specialize (Hm w). unfold mbind, M_bind.
  destruct (m w) as [[x|e] w1]; [by rewrite Hk|done].
Qed.

Lemma framed_step (s : Step) : framed (step env s).
Proof. done. Qed.

Lemma framed_transition_and_write (next : StartupState) : framed (transition_and_write env next).
Proof.
  apply framed_bind; [|done]. intros w. unfold transition. by destruct (machine_transition _ _).
Qed.

Lemma framed_when (condition : bool) (m : M unit) : framed m → framed (when condition m).
Proof. by destruct condition. Qed.

Ltac frames :=
  repeat first
    [ match goal with |- ∀ _, _ => intro end
    | solve [eauto with guest]
    | match goal with
      | |- framed (_ ≫= _) => apply framed_bind
      | |- framed (when _ _) => apply framed_when
      | |- framed (match ?x with _ => _ end) => destruct x
      | |- framed _ => solve [intro; reflexivity]
      end ].

#[local] Hint Resolve framed_step framed_transition_and_write : guest.

Lemma framed_transition (next : StartupState) : framed (transition next).
Proof. intros w. unfold transition. by destruct (machine_transition _ _). Qed.

#[local] Hint Resolve framed_transition : guest.

Lemma framed_prepare : framed (prepare env).
Proof.
  unfold prepare, write_state, assemble, install_git_guard, install_mcp, install_trace,
    prepare_trace, install_egress, install_broker, prepare_broker, add. frames.
Qed.

Lemma framed_safe_outputs (wanted : bool) : framed (start_safe_outputs env wanted).
Proof. unfold start_safe_outputs. frames. Qed.

(** *** The controls *)

Definition controls_verified (controls : list ControlStatus) : Prop :=
  ∀ control, control ∈ bd_required_controls (e_bootstrap env) →
    ∃ s, s ∈ controls ∧ cs_control s = control ∧ cs_verified s = true.

Lemma controls_are_verified (c1 c2 : list ControlStatus) (os1 os2 os3 : PlatformReplies) :
  apply_and_verify os1 (bd_required_controls (e_bootstrap env)) = Ok c1 →
  lockdown_and_verify os2 c1 = Ok c2 → self_test os3 c2 = Ok tt → controls_verified c2.
Proof.
  intros H1 H2 H3 control Hin. destruct (apply_required _ _ _ H1 control Hin) as (s & Hs & Hc & Hr).
  destruct (lockdown_keeps _ _ _ H2 s Hs) as (s' & Hs' & Hc' & Hr'). exists s'. split_and!; [done|congruence|].
  apply (self_test_verified _ _ H3); [done|congruence].
Qed.

(** *** The services *)

(** New, not started. *)
Definition fresh (services : Assembly) (o : option ServiceManager) : Prop :=
  ∃ m, o = Some m ∧ plan = Ok services ∧
    config_ok (m_specs m) (m_executables m) (m_order m) services.2 ∧
    (∀ spec, spec ∈ services.1 → m_specs m !! ssp_id spec = Some spec) ∧
    ∀ spawn, start_state spawn m [].

(** Started: all that are mandatory or required run. *)
Definition all_running (services : Assembly) (o : option ServiceManager) : Prop :=
  ∃ m, o = Some m ∧ services_ok m ∧ plan = Ok services ∧
    (∀ spec, spec ∈ services.1 → ssp_mandatory spec = true → is_Some (m_running m !! ssp_id spec)) ∧
    ∀ id, id ∈ services.2 → is_Some (m_running m !! id).

Lemma fresh_services_ok (services : Assembly) (m : ServiceManager) :
  fresh services (Some m) → services_ok m.
Proof.
  intros (m' & [= <-] & Hp & Hc & Hall & Hst).
  specialize (Hst (e_spawn env)). constructor; [by eauto|apply Hc|apply Hst|apply Hst].
Qed.

Lemma fresh_world_ok (services : Assembly) (w : World) : fresh services (w_services w) → world_ok w.
Proof. intros H m E. rewrite E in H. by eapply fresh_services_ok. Qed.

Lemma running_world_ok (services : Assembly) (w : World) : all_running services (w_services w) → world_ok w.
Proof. intros (m & E & H & _) m' E'. rewrite E in E'. by injection E' as <-. Qed.

(** The start of new services, as they are kept. *)
Lemma start_fresh (services : Assembly) (m : ServiceManager) :
  fresh services (Some m) →
  let '(r, m') := start_all (e_spawn env) (e_stop env) m in
  services_ok m' ∧ match r with Ok _ => all_running services (Some m') | Err _ => True end.
Proof.
  intros (m0 & [= <-] & Hp & Hc & Hall & Hst).
  pose proof (start_loop_spec (e_spawn env) (e_stop env) services.2 (m_order m) [] m Hc eq_refl
    (Hst (e_spawn env))) as H.
  unfold start_all. destruct (start_loop _ _ _ _) as [r m']. destruct H as (Hs & Ho & Hord & H).
  assert (services_ok m') as Hok.
  { constructor; rewrite ?Hs; [by eauto|apply Hc| |done]. destruct r; apply H. }
  split; [done|]. destruct r; [|done]. exists m'. split_and!; [done|done|done| |].
  - intros spec Hspec%Hall Hm. apply (ss_mandatory _ _ _ H _ spec); [|by rewrite Hs|done].
    apply (co_order _ _ _ _ Hc). by rewrite Hspec.
  - intros id (spec & Hid & Hm)%(co_required _ _ _ _ Hc).
    apply (ss_mandatory _ _ _ H id spec); [|by rewrite Hs|done].
    apply (co_order _ _ _ _ Hc). by rewrite Hid.
Qed.

Definition no_services (w : World) : Prop := w_services w = None.

Lemma no_services_ok (w : World) : no_services w → world_ok w.
Proof. intros H m E. unfold no_services in H. congruence. Qed.

Lemma leads_prepare :
  leads no_services (prepare env) (λ services w, no_services w ∧ plan = Ok services) world_ok.
Proof.
  intros w Hw. pose proof (framed_prepare w) as Hf. unfold no_services in *.
  destruct (prepare env w) as [[services|e] w'] eqn:E; cbn [snd] in Hf.
  - split; [congruence|]. unfold prepare in E.
    do 11 (apply bind_ok in E as (? & ? & _ & E)). by eapply assemble_plan.
  - apply no_services_ok. unfold no_services. congruence.
Qed.

Lemma leads_create (services : Assembly) :
  leads (λ w, no_services w ∧ plan = Ok services) (create_services env services)
    (λ _ w, fresh services (w_services w)) world_ok.
Proof.
  intros w [Hw Hp]. unfold create_services, mbind, M_bind, lift.
  destruct (new_manager _ _ _ _) as [m|e] eqn:E; [|by apply no_services_ok]. cbn.
  apply new_manager_ok in E as (Hc & Hall & _ & _ & _ & Hst). eexists.
  split_and!; [done|done|done|done|]. intros spawn. specialize (Hst spawn). destruct Hst.
  constructor; try done. by apply (manager_ok_same m).
Qed.

Lemma leads_start (services : Assembly) :
  leads (λ w, fresh services (w_services w)) (start_services env)
    (λ _ w, all_running services (w_services w)) world_ok.
Proof.
  unfold start_services. eapply leads_bind.
  { eapply leads_weaken; [apply leads_keeps, (framed_keeps (fresh services)); done|done|].
    apply fresh_world_ok. }
  intros []. cbn beta. eapply (leads_bind _ _ (λ r w, world_ok w ∧
    match r with Ok _ => all_running services (w_services w) | Err _ => True end)).
  - intros w Hw. unfold with_services. destruct (w_services w) as [m|] eqn:E.
    2: { by destruct Hw as (m & ? & _). }
    pose proof (start_fresh services m Hw) as H.
    destruct (start_all _ _ m) as [r m']. destruct H as [Hok Hr]. split.
    + intros m1 [= <-]. by apply (services_ok_same m').
    + destruct r; [|done]. destruct Hr as (m1 & [= <-] & _ & H0 & H1 & H2). eexists.
      split_and!; [done| |done|done|done]. by apply (services_ok_same m').
  - intros [|e]; cbn beta.
    + intros w [_ Hw]. done.
    + intros w [Hw _]. pose proof (keeps_fail_and_cleanup w Hw) as H.
      unfold mbind, M_bind. by destruct (fail_and_cleanup env w) as [[]].
Qed.

(** The list of health reports has every service that runs, as healthy. *)
Definition reports (listed : list ServiceHealth) (id : ServiceId) : Prop :=
  ∃ h, h ∈ listed ∧ sh_id h = id ∧ sh_healthy h = true.

Lemma health_reports (m : ServiceManager) (id : ServiceId) :
  services_ok m → is_Some (m_running m !! id) → reports (health (e_logs env) m) id.
Proof.
  intros Hok [s Hs]. destruct (mo_running _ (sv_ok _ Hok) id s Hs) as [Hin Hspec].
  unfold reports, health. destruct (e_logs env id) as [out err] eqn:El. eexists. split.
  - apply list_elem_of_omap. exists id. split; [done|]. rewrite Hs. cbn. by rewrite El.
  - cbn. split; [|done]. by apply (sv_ids _ Hok).
Qed.

Definition services_reported (services : Assembly) (listed : list ServiceHealth) : Prop :=
  (∀ spec, spec ∈ services.1 → ssp_mandatory spec = true → reports listed (ssp_id spec)) ∧
  ∀ id, id ∈ services.2 → reports listed id.

Lemma leads_health (services : Assembly) :
  leads (λ w, all_running services (w_services w)) (service_health env)
    (λ listed w, world_ok w ∧ plan = Ok services ∧ services_reported services listed) world_ok.
Proof.
  intros w Hw. unfold service_health, with_services. destruct (w_services w) as [m|] eqn:E.
  2: { by destruct Hw as (m & ? & _). }
  destruct Hw as (m' & [= <-] & Hok & Hp & H1 & H2). split_and!; [|done|].
  - intros m' [= <-]. by apply (services_ok_same m).
  - split; intros; apply health_reports; auto.
Qed.

Lemma services_reported_app (services : Assembly) (l1 l2 : list ServiceHealth) :
  services_reported services l1 → services_reported services (l1 ++ l2).
Proof.
  assert (∀ id, reports l1 id → reports (l1 ++ l2) id) as H.
  { intros id (h & ? & ?). exists h. set_solver. }
  intros [H1 H2]. split; auto.
Qed.

Definition no_failure (listed : list ServiceHealth) : Prop :=
  ∀ h, h ∈ listed → sh_mandatory h = true → sh_healthy h = true.

Lemma leads_check (Q : Prop) (wanted : bool) (listed : list ServiceHealth) :
  leads (λ w, world_ok w ∧ Q) (check_mandatory env wanted listed)
    (λ _ w, world_ok w ∧ Q ∧ no_failure listed) world_ok.
Proof.
  unfold check_mandatory. destruct (existsb _ _) eqn:E.
  - eapply leads_weaken with (Pre := world_ok); [|by intros w [Hw _]|done].
    eapply leads_bind; [apply leads_keeps; unfold stop_safe_outputs; walk|]. intros [].
    eapply leads_bind; [apply leads_keeps; walk|]. intros [] w Hw. exact Hw.
  - intros w [Hw HQ].
    split_and!; [done|done|]. intros h Hin Hm. destruct (sh_healthy h) eqn:Eh; [done|].
    assert (existsb (λ s, sh_mandatory s && negb (sh_healthy s)) listed = true); [|congruence].
    apply existsb_exists. exists h. split; [by apply list_elem_of_In|]. by rewrite Hm, Eh.
Qed.

(** What holds when the guest is ready. *)
Record ready_facts (controls : list ControlStatus) (listed : list ServiceHealth) : Prop := {
  rf_controls : controls_verified controls;
  rf_services : ∃ services, plan = Ok services ∧ services_reported services listed;
  rf_failure : no_failure listed;
}.

(** The same, before failures are looked for. *)
Definition ready_facts_but_failures (controls : list ControlStatus) (listed : list ServiceHealth) : Prop :=
  controls_verified controls ∧ ∃ services, plan = Ok services ∧ services_reported services listed.

(** Carries what is known through computations that leave the services alone. *)
Lemma leads_framed {A : Type} (Q : option ServiceManager → Prop) (m : M A) :
  framed m → (∀ w, Q (w_services w) → world_ok w) →
  leads (λ w, Q (w_services w)) m (λ _ w, Q (w_services w)) world_ok.
Proof.
  intros Hm HQ. eapply leads_weaken; [by apply leads_keeps, framed_keeps|done|done].
Qed.

(** A fact that does not depend on the world. *)
Lemma leads_and {A : Type} (Q : Prop) (Pre Fail : World → Prop) (Post : A → World → Prop) (m : M A) :
  leads Pre m Post Fail → leads (λ w, Pre w ∧ Q) m (λ x w, Post x w ∧ Q) Fail.
Proof. intros H w [Hw HQ]. specialize (H w Hw). by destruct (m w) as [[]]. Qed.

Lemma leads_lift {A : Type} (Q : option ServiceManager → Prop) (m : M unit)
    (r : GuestResult A) :
  framed m → (∀ w, Q (w_services w) → world_ok w) →
  leads (λ w, Q (w_services w)) (m;; lift r) (λ x w, Q (w_services w) ∧ r = Ok x) world_ok.
Proof.
  intros Hm HQ. eapply leads_bind; [by apply leads_framed|]. intros [] w Hw. unfold lift.
  destruct r; [done|]. by apply HQ.
Qed.

Lemma leads_transition_to (next : StartupState) (Q : Prop) :
  leads (λ w, world_ok w ∧ Q) (transition_and_write env next)
    (λ _ w, world_ok w ∧ Q ∧ w_state w = next) world_ok.
Proof.
  intros w [Hw HQ]. unfold transition_and_write, mbind, M_bind, transition.
  unfold machine_transition. destruct (is_allowed _ _); [|done]. cbn.
  destruct (io_result _); [|exact Hw]. done.
Qed.

Lemma leads_get_ready :
  leads no_services (get_ready env)
    (λ '(controls, listed) w, world_ok w ∧ ready_facts controls listed ∧ w_state w = Ready) world_ok.
Proof.
  unfold get_ready. eapply leads_bind; [apply leads_prepare|]. intros services.
  eapply (leads_bind _ _ (λ controls w, (no_services w ∧ plan = Ok services) ∧
    apply_and_verify (e_os env ApplyControls) (bd_required_controls (e_bootstrap env)) = Ok controls)).
  { intros w [Hw Hp]. unfold apply_controls, mbind, M_bind, update, lift.
    destruct (apply_and_verify _ _); [done|]. by apply no_services_ok. }
  intros c1. eapply leads_bind; [apply leads_and, leads_create|]. intros [].
  eapply leads_bind.
  { apply leads_and, (leads_framed (fresh services)); [apply framed_transition_and_write|apply fresh_world_ok]. }
  intros []. eapply leads_bind; [apply leads_and, leads_start|]. intros [].
  eapply leads_bind.
  { apply leads_and, (leads_lift (all_running services)); [done|apply running_world_ok]. }
  intros c2. eapply leads_bind.
  { apply leads_and, leads_and, (leads_framed (all_running services));
      [apply framed_transition_and_write|apply running_world_ok]. }
  intros []. eapply leads_bind.
  { apply leads_and, leads_and, (leads_framed (all_running services));
      [apply framed_transition_and_write|apply running_world_ok]. }
  intros []. eapply leads_bind.
  { apply leads_and, leads_and, (leads_lift (all_running services)); [done|apply running_world_ok]. }
  intros []. eapply leads_bind; [apply leads_and, leads_and, leads_and, leads_health|].
  intros listed. cbv zeta.
  set (wanted := wants_safe_outputs _). set (all := listed ++ _).
  eapply (leads_bind _ _ (λ _ w, world_ok w ∧ ready_facts_but_failures c2 all)).
  { intros w ((([Hw [Hp Hr]] & H1) & H2) & H3).
    assert (keeps world_ok (start_safe_outputs env wanted)) as Hk by (apply keeps_frame, framed_safe_outputs).
    specialize (Hk w Hw). destruct (start_safe_outputs env wanted w) as [[]]; [|done].
    split; [done|]. split; [by eapply controls_are_verified|]. exists services. split; [done|].
    by apply services_reported_app. }
  intros []. eapply leads_bind; [apply leads_check|]. intros [].
  eapply leads_bind; [apply leads_and, leads_keeps, keeps_step|]. intros [].
  eapply leads_bind; [apply leads_and, leads_keeps, (keeps_gate (λ m, arm (m_running m)))|]. intros [].
  eapply leads_bind; [apply leads_transition_to|]. intros [].
  intros w (Hw & ([Hc Hs] & Hf) & Hst). split_and!; [done|by constructor|done].
Qed.

(** ** The run *)

Lemma publish_position (l1 l2 before after : list Step) (snapshot snapshot0 : ReadinessSnapshot) :
  Forall not_publish l1 → Forall not_publish l2 →
  l1 ++ Publish snapshot0 :: l2 = before ++ Publish snapshot :: after →
  before = l1 ∧ snapshot = snapshot0.
Proof.
  intros H1 H2. revert before. induction H1 as [|s l1 Hs _ IH]; intros before; cbn [app].
  - destruct before as [|s before]; cbn [app]; [by intros [= <- _]|]. intros [= <- E].
    rewrite E in H2. apply Forall_app in H2 as [_ H2]. by apply Forall_cons in H2 as [H2 _].
  - destruct before as [|s' before]; cbn [app]; [by intros [= -> _]|]. intros [= <- E].
    by destruct (IH before E) as [-> ->].
Qed.

Lemma quiet_no_publish (l before after : list Step) (snapshot : ReadinessSnapshot) :
  Forall not_publish l → l = before ++ Publish snapshot :: after → False.
Proof. intros H ->. apply Forall_app in H as [_ H]. by apply Forall_cons in H as [H _]. Qed.

(** The end of a run publishes nothing. *)
Lemma drop_all_quiet (w : World) :
  ∃ new, w_steps (drop_all env w) = w_steps w ++ new ∧ Forall not_publish new.
Proof.
  unfold drop_all. cbv zeta. set (w1 := match w_services w with Some _ => _ | None => _ end).
  assert (w_steps w1 = w_steps w) as E by (subst w1; by destruct (w_services w)).
  destruct (w_runtime w1).
  - destruct (emits_cleanup w1) as (new & E' & H). exists new. by rewrite E', E.
  - exists []. rewrite E, app_nil_r. split; [done|constructor].
Qed.

Lemma publish_steps (controls : list ControlStatus) (listed : list ServiceHealth) (w : World) :
  w_steps (publish env controls listed w).2 = w_steps w ++
    [Publish {| rd_session_id := bd_session_id (e_bootstrap env); rd_state := Ready;
                rd_release_sequence := e_release_sequence env; rd_controls := controls;
                rd_services := listed; rd_audit_events := ga_events (w_audit w) |}].
Proof.
  unfold publish, publish_readiness. cbn [rd_state]. rewrite bool_decide_true by done. cbn [negb].
  cbv zeta. by destruct (io_happened _).
Qed.

(** A publication in a run comes after a successful start. *)
Lemma publish_after_start (r : GuestResult unit) (w : World) (before after : list Step)
    (snapshot : ReadinessSnapshot) :
  run env = (r, w) → w_steps w = before ++ Publish snapshot :: after →
  ∃ controls listed w1, get_ready env start_world = (Ok (controls, listed), w1) ∧ before = w_steps w1 ∧
    snapshot = {| rd_session_id := bd_session_id (e_bootstrap env); rd_state := Ready;
                  rd_release_sequence := e_release_sequence env; rd_controls := controls;
                  rd_services := listed; rd_audit_events := ga_events (w_audit w1) |}.
Proof.
  unfold run. destruct (body env start_world) as [r0 w0] eqn:Eb. intros [= -> <-] Hsteps.
  destruct (drop_all_quiet w0) as (new & En & Hn). rewrite En in Hsteps.
  unfold body, start in Eb. unfold mbind at 1, M_bind at 1 in Eb.
  unfold mbind at 1, M_bind at 1 in Eb.
  destruct (emits_get_ready start_world) as (l1 & E1 & H1).
  destruct (get_ready env start_world) as [[[controls listed]|e] w1] eqn:Er; cbn [snd app] in E1.
  2: { injection Eb as <- <-. exfalso. rewrite E1 in Hsteps. eapply quiet_no_publish; [|exact Hsteps].
       by apply Forall_app_2. }
  exists controls, listed, w1. split; [done|]. cbn [app] in E1.
  pose proof (publish_steps controls listed w1) as Hp.
  destruct (publish env controls listed w1) as [[[]|e] w2]; cbn [snd] in Hp.
  - destruct (emits_finish w2) as (l2 & E2 & H2). rewrite Eb in E2. cbn [snd] in E2.
    rewrite E2, Hp, <-!app_assoc in Hsteps. cbn [app] in Hsteps. rewrite E1 in *.
    eapply publish_position; [| |exact Hsteps]; [done|by apply Forall_app_2].
  - injection Eb as <- <-. rewrite Hp, <-app_assoc in Hsteps. cbn [app] in Hsteps. rewrite E1 in *.
    by eapply publish_position; [| |exact Hsteps].
Qed.

(** C5: Readiness is published once every step of the start succeeded, in this order and with nothing
    in between; then all required controls were verified, no mandatory service had failed, and the
    report lists as healthy every service the bootstrap requires, and those that confine the
    execution service. *)
Theorem readiness_is_earned (before after : list Step) (snapshot : ReadinessSnapshot) :
  w_steps (run env).2 = before ++ Publish snapshot :: after →
  before = start_steps ∧ all_done [] before ∧
  rd_state snapshot = Ready ∧ rd_release_sequence snapshot = e_release_sequence env ∧
  controls_verified (rd_controls snapshot) ∧ no_failure (rd_services snapshot) ∧
  (∀ id, id ∈ bd_required_services (e_bootstrap env) → reports (rd_services snapshot) id) ∧
  (∀ spec, spec ∈ bd_services (e_bootstrap env) → ssp_mandatory spec = true →
     reports (rd_services snapshot) (ssp_id spec)) ∧
  (present broker_of = true → reports (rd_services snapshot) Exec) ∧
  (egress_wanted = true → reports (rd_services snapshot) Egress) ∧
  (wants_tracing broker_of = true → reports (rd_services snapshot) Bpf) ∧
  (present (broker_of ≫= eb_mcp_policy) = true → reports (rd_services snapshot) Audit).
Proof.
  intros Hsteps. destruct (run env) as [r w] eqn:Er. cbn [snd] in Hsteps.
  destruct (publish_after_start r w before after snapshot Er Hsteps)
    as (controls & listed & w1 & Hready & -> & ->).
  destruct (does_get_ready start_world _ _ Hready) as [E Hdone].
  pose proof (leads_get_ready start_world eq_refl) as H. rewrite Hready in H.
  destruct H as (_ & [Hc (services & Hp & [Hr1 Hr2]) Hf] & _). apply plan_is_ok in Hp as [].
  cbn [rd_state rd_release_sequence rd_controls rd_services]. cbn in E. rewrite E.
  assert (∀ id dependencies, planned services id dependencies → reports listed id) as Hpl.
  { intros id dependencies [H _]. by apply Hr2. }
  split_and!; [done..| | | | | |]; eauto.
Qed.

Lemma drop_balance (m : ServiceManager) (ids : list ServiceId) (id : ServiceId) (group : Z) :
  NoDup ids →
  balance (omap (λ id, (λ s, Dropped id (rs_process_group s)) <$> m_running m !! id) ids) id group =
  if decide (id ∈ ids) then (if runs m id group then -1 else 0) else 0.
Proof.
  induction 1 as [|i ids Hi _ IH]; [done|]. cbn [omap list_omap].
  destruct (decide (i = id)) as [->|Hne].
  - rewrite decide_True by set_solver. rewrite decide_False in IH by done. unfold runs.
    destruct (m_running m !! id) as [s|]; cbn.
    + rewrite IH. destruct (decide (rs_process_group s = group)) as [->|Hg].
      * by rewrite !bool_decide_true.
      * rewrite !bool_decide_false; [done|congruence..].
    + rewrite IH. by rewrite bool_decide_false.
  - replace (if decide (id ∈ i :: ids) then _ else _) with
      (if decide (id ∈ ids) then (if runs m id group then -1 else 0) else 0)
      by (destruct (decide (id ∈ ids)), (decide (id ∈ i :: ids)); set_solver).
    rewrite <-IH. destruct (m_running m !! i) as [s|]; [|done]. cbn.
    rewrite bool_decide_false by congruence. lia.
Qed.

(** What is dropped is gone. *)
Lemma drop_services_ok (m : ServiceManager) : services_ok m → services_ok (drop_services m).
Proof.
  intros [H1 H2 [Hr Hb] H4]. unfold drop_services.
  constructor; cbn [set_running m_specs m_trace]; [done|done| |].
  - split; cbn [set_running m_running m_trace]; [intros id s; by rewrite lookup_empty|].
    intros id group. rewrite balance_app, Hb, drop_balance by apply all_ids_NoDup.
    rewrite decide_True by apply all_ids_elem. unfold runs at 3. cbn [set_running m_running].
    rewrite lookup_empty.
    rewrite (bool_decide_false (rs_process_group <$> None = Some group)) by done.
    destruct (runs m id group); lia.
  - apply order_extends; [done|]. intros e1 id group e2 spec E. exfalso.
    assert (Spawned id group ∈ e1 ++ Spawned id group :: e2) as Hin by set_solver.
    rewrite <-E in Hin. apply list_elem_of_omap in Hin as (i & _ & Hin).
    by destruct (m_running m !! i).
Qed.

Lemma keeps_finish : keeps world_ok (finish env).
Proof.
  unfold finish, stop_safe_outputs. cbv zeta. walk. apply keeps_session.
Qed.

Lemma body_world_ok : world_ok (body env start_world).2.
Proof.
  unfold body, start. unfold mbind at 1, M_bind at 1. unfold mbind at 1, M_bind at 1.
  pose proof (leads_get_ready start_world eq_refl) as H.
  destruct (get_ready env start_world) as [[[controls listed]|e] w1]; [|exact H].
  destruct H as [H _]. pose proof (keeps_publish controls listed w1 H) as H'.
  destruct (publish env controls listed w1) as [[[]|e] w2]; [by apply keeps_finish|exact H'].
Qed.

(** At the end of a run, what is left of the services. *)
Lemma run_services (m : ServiceManager) :
  w_services (run env).2 = Some m → services_ok m ∧ m_running m = ∅.
Proof.
  unfold run. pose proof body_world_ok as Hw. destruct (body env start_world) as [r w]. cbn [snd] in *.
  unfold drop_all. cbv zeta. set (w1 := match w_services w with Some _ => _ | None => _ end).
  assert (∀ m, w_services w1 = Some m → services_ok m ∧ m_running m = ∅) as H1.
  { subst w1. destruct (w_services w) as [m0|] eqn:E; [|by rewrite E].
    cbn. intros m1 [= <-]. split; [|done]. apply (services_ok_same (drop_services m0)); [done|].
    by apply drop_services_ok, Hw. }
  destruct (w_runtime w1); [|apply H1]. intros Hm. apply H1. revert Hm.
  assert (framed (cleanup env)) as ->; [|done].
  apply framed_bind; [|intros _]; intros w2; unfold revoke_readiness, remove_session_dir; cbv zeta;
    by destruct (io_happened _).
Qed.

(** C17: The execution service is started only while the services that confine it are there: the
    egress enforcement when a policy is configured, the tracer when tracing is asked for, and the
    audit service of the tool broker when it is configured; whatever happens in the run. *)
Theorem exec_is_confined (m : ServiceManager) (before after : list ProcEvent) (group : Z) :
  present broker_of = true → w_services (run env).2 = Some m →
  m_trace m = before ++ Spawned Exec group :: after →
  (egress_wanted = true → ∃ g, balance before Egress g = 1) ∧
  (wants_tracing broker_of = true → ∃ g, balance before Bpf g = 1) ∧
  (present (broker_of ≫= eb_mcp_policy) = true → ∃ g, balance before Audit g = 1).
Proof.
  intros Hb Hm Ht. destruct (run_services m Hm) as [[(services & Hp & Hspecs) Hids Hok Hord] _].
  destruct (plan_is_ok services Hp) as [_ _ _ _ _ Hexec].
  destruct (Hexec Hb) as (_ & spec & Hin & Hid & Hman & Hdeps).
  pose proof (Hspecs spec Hin) as Hspec. rewrite Hid in Hspec.
  assert (∀ d, d ∈ ssp_dependencies spec → ∃ g, balance before d g = 1) as H.
  { by apply (Hord before Exec group after spec). }
  split_and!; intros Hc; apply H, Hdeps; rewrite Hc; set_solver.
Qed.

(** ** What a run leaves *)

(** A computation that makes no files but only removes them. *)
Definition tidy {A : Type} (m : M A) : Prop := ∀ w,
  w_runtime (m w).2 = w_runtime w ∧
  (w_readiness (m w).2 = w_readiness w ∨ w_readiness (m w).2 = None) ∧
  (w_session_dir (m w).2 = w_session_dir w ∨ w_session_dir (m w).2 = false).

Lemma tidy_bind {A B : Type} (m : M A) (k : A → M B) : tidy m → (∀ x, tidy (k x)) → tidy (m ≫= k).
Proof.
  intros Hm Hk w. destruct (Hm w) as (H1 & H2 & H3). unfold mbind, M_bind.
  destruct (m w) as [[x|e] w1]; [|done]. cbn [snd] in *. destruct (Hk x w1) as (K1 & K2 & K3).
  rewrite K1, H1. split; [done|]. split.
  - destruct K2 as [->|K2]; auto.
  - destruct K3 as [->|K3]; auto.
Qed.

Lemma tidy_when (condition : bool) (m : M unit) : tidy m → tidy (when condition m).
Proof. destruct condition; [done|]. intros _ w. cbn. auto. Qed.

Lemma tidy_ignore (m : M unit) : tidy m → tidy (ignore m).
Proof. intros H w. apply H. Qed.

Lemma tidy_outcome (m : M unit) : tidy m → tidy (outcome m).
Proof. intros H w. specialize (H w). unfold outcome. by destruct (m w). Qed.

Lemma tidy_with_services {A : Type} (f : ServiceManager → A * ServiceManager) (x : A) :
  tidy (with_services f x).
Proof. intros w. unfold with_services. destruct (w_services w) as [m|]; [destruct (f m)|]; cbn; auto. Qed.

Lemma tidy_transition (next : StartupState) : tidy (transition next).
Proof. intros w. unfold transition. destruct (machine_transition _ _); cbn; auto. Qed.

Lemma tidy_revoke : tidy (revoke_readiness env).
Proof. intros w. unfold revoke_readiness. cbv zeta. destruct (io_happened _); cbn; auto. Qed.

Lemma tidy_remove : tidy (remove_session_dir env).
Proof. intros w. unfold remove_session_dir. cbv zeta. destruct (io_happened _); cbn; auto. Qed.

Lemma tidy_permit_launch : tidy (permit_launch env).
Proof.
  intros w. cbn. destruct (permit_agent_launch _); [|auto]. destruct (e_launched env); cbn; auto.
Qed.

Lemma tidy_set_state (f : StartupState → StartupState) : tidy (update (λ w, set_state w (f (w_state w)))).
Proof. intros w. cbn. auto. Qed.

#[local] Hint Resolve tidy_with_services tidy_transition tidy_revoke tidy_remove tidy_permit_launch
  tidy_set_state : guest.

Ltac tidies :=
  repeat first
    [ match goal with |- ∀ _, _ => intro end
    | solve [eauto with guest]
    | match goal with
      | |- tidy (_ ≫= _) => apply tidy_bind
      | |- tidy (when _ _) => apply tidy_when
      | |- tidy (ignore _) => apply tidy_ignore
      | |- tidy (outcome _) => apply tidy_outcome
      | |- tidy (match ?x with _ => _ end) => destruct x
      | |- tidy _ => solve [intro; cbn; auto]
      end ].

Lemma tidy_shutdown : tidy (shutdown env).
Proof.
  assert (∀ b, tidy
    (when b (transition_and_write env ShuttingDown);; shutdown_services env;;
     transition_and_write env Terminated;; cleanup env)) as H.
  { unfold shutdown_services, transition_and_write, write_state, cleanup. tidies. }
  intros w. apply H.
Qed.

#[local] Hint Resolve tidy_shutdown : guest.

Lemma tidy_finish : tidy (finish env).
Proof. unfold finish, session, serve, attended, stop_safe_outputs. cbv zeta. tidies. Qed.

(** No file is there unless the session was prepared. *)
Definition files_ok (w : World) : Prop :=
  w_runtime w = false →
  w_readiness w = None ∧
  ((∀ history e, e_io env history PrepareRuntime ≠ FailedAfter e) → w_session_dir w = false).

Lemma tidy_keeps {A : Type} (m : M A) : tidy m → keeps files_ok m.
Proof.
  intros Hm w Hw. destruct (Hm w) as (H1 & H2 & H3). unfold files_ok in *. rewrite H1.
  intros Hr. destruct (Hw Hr) as [K1 K2]. split.
  - destruct H2 as [->|?]; done.
  - intros H. destruct H3 as [->|?]; auto.
Qed.

Lemma tidy_runtime {A : Type} (m : M A) : tidy m → keeps (λ w, w_runtime w = true) m.
Proof. intros Hm w Hw. destruct (Hm w) as [-> _]. done. Qed.

Definition prepared (w : World) : Prop := w_runtime w = true.

Definition no_files (w : World) : Prop := w_readiness w = None ∧ w_session_dir w = false.

Lemma leads_no_files {A : Type} (m : M A) : tidy m → leads no_files m (λ _, no_files) files_ok.
Proof.
  intros Hm. eapply leads_weaken with (Pre := no_files) (Fail := no_files); [apply leads_keeps|done|].
  - intros w [H1 H2]. destruct (Hm w) as (_ & H3 & H4).
    split; [destruct H3 as [->|?]|destruct H4 as [->|?]]; done.
  - by intros w [H1 H2] _.
Qed.

Lemma leads_prepared {A : Type} (m : M A) : tidy m → leads prepared m (λ _, prepared) files_ok.
Proof.
  intros H. eapply leads_weaken; [by apply leads_keeps, tidy_runtime|done|].
  intros w Hw Hr. unfold prepared in Hw. congruence.
Qed.

Lemma leads_prepare_runtime : leads no_files (prepare_runtime env) (λ _, prepared) files_ok.
Proof.
  intros w [H1 H2]. unfold prepare_runtime. cbv zeta.
  destruct (e_io env (w_steps w) PrepareRuntime) as [|e|e] eqn:E; cbn [io_result]; [done| |].
  - intros _. split; [done|]. done.
  - intros _. split; [done|]. intros H. by destruct (H (w_steps w) e).
Qed.

Ltac leading :=
  repeat match goal with
    | |- ∀ _, _ => intro; cbv beta
    | |- leads no_files (prepare_runtime _ ≫= _) _ _ => eapply leads_bind; [apply leads_prepare_runtime|]
    | |- leads no_files (_ ≫= _) _ _ => eapply leads_bind; [apply leads_no_files; solve [tidies]|]
    end.

Lemma leads_get_ready_files : leads no_files (get_ready env) (λ _, prepared) files_ok.
Proof.
  unfold get_ready. eapply (leads_bind _ _ (λ _, prepared)).
  - unfold prepare, write_state. leading.
    apply leads_prepared. unfold assemble, install_git_guard, install_mcp, install_trace, prepare_trace, install_egress,
      install_broker, prepare_broker, add. tidies.
  - intros services. apply leads_prepared.
    unfold apply_controls, create_services, start_services, lockdown, run_self_test, service_health,
      start_safe_outputs, check_mandatory, fail_and_cleanup, stop_safe_outputs,
      transition_and_write, write_state. cbv zeta. tidies.
Qed.

Lemma body_files_ok : files_ok (body env start_world).2.
Proof.
  unfold body, start. unfold mbind at 1, M_bind at 1. unfold mbind at 1, M_bind at 1.
  pose proof (leads_get_ready_files start_world (conj eq_refl eq_refl)) as H.
  destruct (get_ready env start_world) as [[[controls listed]|e] w1]; [|exact H].
  assert (prepared (publish env controls listed w1).2) as H'.
  { unfold publish, publish_readiness. cbn [rd_state]. rewrite bool_decide_true by done. cbn [negb].
    cbv zeta. by destruct (io_happened _). }
  destruct (publish env controls listed w1) as [[[]|e] w2]; cbn [snd] in H'.
  - intros Hr. pose proof (tidy_runtime _ tidy_finish w2 H') as Hf. cbn beta in Hf. congruence.
  - intros Hr. unfold prepared in H'. cbn [snd] in Hr. congruence.
Qed.

Lemma shutdown_terminates (w w' : World) : shutdown env w = (Ok tt, w') → w_state w' = Terminated.
Proof.
  unfold shutdown. intros (? & w1 & _ & H)%bind_ok. apply bind_ok in H as (? & w2 & _ & H).
  apply bind_ok in H as (? & w3 & H & Hc). unfold transition_and_write in H.
  apply bind_ok in H as (? & w4 & Ht & Hs). unfold transition, machine_transition in Ht.
  destruct (is_allowed _ _); [|done]. injection Ht as <- <-.
  unfold write_state, step in Hs. injection Hs as _ <-.
  unfold cleanup, revoke_readiness, remove_session_dir in Hc.
  apply bind_ok in Hc as (? & w5 & H1 & H2). cbv zeta in H1, H2.
  injection H1 as _ <-. injection H2 as _ <-.
  by destruct (io_happened _), (io_happened _).
Qed.

Lemma drop_state (w : World) : w_state (drop_all env w) = w_state w.
Proof.
  unfold drop_all. cbv zeta. set (w1 := match w_services w with Some _ => _ | None => _ end).
  assert (w_state w1 = w_state w) as <- by (subst w1; by destruct (w_services w)).
  destruct (w_runtime w1); [|done]. clearbody w1.
  unfold cleanup, mbind, M_bind, revoke_readiness, remove_session_dir. cbv zeta.
  destruct (io_result _), (io_happened _); try done; by destruct (io_happened _).
Qed.

Lemma drop_files (w : World) :
  files_ok w → (∀ history, e_io env history RevokeReadiness = Done) →
  w_readiness (drop_all env w) = None ∧
  ((∀ history, io_happened (e_io env history RemoveSessionDir) = true) →
   (∀ history e, e_io env history PrepareRuntime ≠ FailedAfter e) →
   w_session_dir (drop_all env w) = false).
Proof.
  intros Hw Hrevoke. unfold drop_all. cbv zeta.
  set (w1 := match w_services w with Some _ => _ | None => _ end).
  assert (files_ok w1) as H1 by (subst w1; by destruct (w_services w)). clearbody w1.
  destruct (w_runtime w1) eqn:Er; [|destruct (H1 Er); auto].
  unfold cleanup, mbind, M_bind, revoke_readiness, remove_session_dir. cbv zeta. rewrite Hrevoke.
  cbn [io_result io_happened]. split.
  - by destruct (io_happened _).
  - intros Hremove _. by rewrite Hremove.
Qed.


End Safety.

(** ** A sample *)

Module StartupSample.

Definition broker : ExecutionBroker :=
  {| eb_runtime_parent := str "/r"; eb_socket_path := str "/r//1/s";
     eb_cgroup_parent := str "/sys/fs/cgroup/sendbox"; eb_workload_uid := 1000;
     eb_workload_gid := 1000; eb_git_guard_policy := None; eb_mcp_policy := None;
     eb_syscall_tracing := true |}.

Definition bootstrap : BootstrapDocument :=
  {| bd_session_id := str "1"; bd_required_controls := [Seccomp; PrivilegeDrop];
     bd_required_services := []; bd_services := []; bd_execution_broker := Some broker;
     bd_egress_instance := Some (str "e"); bd_registry_proxy := false |}.

Definition os : PlatformReplies :=
  {| pr_root := true; pr_prepare_cgroup := Ok tt; pr_verify_cgroup := Ok tt; pr_install := Ok tt |}.

(** Everything succeeds. *)
Definition env : Env :=
  {| e_io := λ _ _, Done; e_bootstrap := bootstrap; e_runtime_root := str "/s";
     e_manifest := {[ str "bin/sendbox-guest" := (GuestBinary, 3) ]}; e_release_sequence := 7;
     e_server_count := 0; e_try_clone := Ok; e_os := λ _, os;
     e_spawn := λ id,
       {| sr_spawn := Ok (Some (match id with Exec => 10 | Egress => 11 | _ => 12 end));
          sr_health := {| hr_alive := StillRunning; hr_polls := [(StillRunning, true)] |} |};
     e_stop := GuestServiceSample.stopping;
     e_logs := λ _, (new_bounded_log 16, new_bounded_log 16); e_safe_outputs_live := true;
     e_rounds_accept := []; e_safe_outputs_accept := None; e_rounds_serve := [];
     e_safe_outputs_serve := None; e_launched := true |}.

Definition result : GuestResult unit * World := run (P := linux_controls) env.

Definition position : nat := length (start_steps env).

Definition published : ReadinessSnapshot :=
  match w_steps result.2 !! position with
  | Some (Publish snapshot) => snapshot
  | _ => {| rd_session_id := []; rd_state := Ready; rd_release_sequence := 0; rd_controls := [];
            rd_services := []; rd_audit_events := [] |}
  end.

Lemma steps_split :
  w_steps (run (P := linux_controls) env).2 =
  start_steps env ++ Publish published :: drop (S position) (w_steps result.2).
Proof. vm_compute. reflexivity. Qed.

(** The run succeeds; readiness is published, with the egress service. *)
Lemma readiness_is_earned_witness :
  (run (P := linux_controls) env).1 = Ok tt ∧ controls_verified env (rd_controls published) ∧
  reports (rd_services published) Egress.
Proof.
  pose proof (readiness_is_earned (P := linux_controls) env _ _ _ steps_split)
    as (_ & _ & _ & _ & Hc & _ & _ & _ & _ & He & _).
  split_and!; [vm_compute; reflexivity|exact Hc|apply He; reflexivity].
Defined.

Definition services : ServiceManager :=
  match w_services result.2 with
  | Some m => m
  | None => Build_ServiceManager ∅ ∅ [] ∅ closed_gate [] []
  end.

Lemma services_split :
  w_services (run (P := linux_controls) env).2 = Some services ∧
  m_trace services = [Spawned Egress 11; Spawned Bpf 12] ++ Spawned Exec 10 ::
    [Dropped Exec 10; Dropped Bpf 12; Dropped Egress 11].
Proof. split; vm_compute; reflexivity. Qed.

(** The execution service is started with the egress service and the tracer there. *)
Lemma exec_is_confined_witness :
  w_services (run (P := linux_controls) env).2 = Some services ∧
  (∃ g, balance [Spawned Egress 11; Spawned Bpf 12] Egress g = 1) ∧
  ∃ g, balance [Spawned Egress 11; Spawned Bpf 12] Bpf g = 1.
Proof.
  destruct services_split as [Hs Ht].
  pose proof (exec_is_confined (P := linux_controls) env services _ _ _ eq_refl Hs Ht)
    as (He & Hb & _).
  split_and!; [exact Hs|apply He; reflexivity|apply Hb; reflexivity].
Defined.


(** Refused transitions change nothing. *)
Lemma launch_path_exact_witness :
  entered AwaitingBootstrap (OpTransition Ready :: map OpTransition launch_path) =
    take 7 launch_path ++ AgentLaunchPermitted :: [] ∧
  take 7 launch_path ++ [AgentLaunchPermitted] = launch_path.
Proof.
  assert (entered AwaitingBootstrap (OpTransition Ready :: map OpTransition launch_path) =
    take 7 launch_path ++ AgentLaunchPermitted :: []) as E by reflexivity.
  split; [exact E|]. exact (launch_path_exact _ _ _ E).
Defined.

End StartupSample.
