(* ===== verification/Reports.v ===== *)
(** * The reports of a session

    The payloads of [crates/sendbox-protocol/src/operations.rs], the reports of the guest
    ([guest/sendbox-guest/src/protocol.rs]) and their reader on the host
    ([crates/sendbox-agent/src/protocol.rs]).

    A network report goes in chunks.  The theorems show that what the host accepts is what the
    guest read, whatever its size; that the host never asks more than 128 times, whatever the peer
    answers, and accepts only bytes that have the digest that all chunks announced; and that the
    collection of safe outputs round-trips. *)

From S2P Require Import Prelude RustStr Digest ProtoTypes McpJson GuestService.

(** ** Base64 *)

(** [base64::engine::general_purpose::STANDARD] *)
Class Base64Api : Type := {
  base64_encode : list Z → list Z;
  base64_decode : list Z → option (list Z);
}.

(** RFC 4648, with padding. *)
Class Base64Laws (api : Base64Api) : Prop := {
  base64_roundtrip bytes : Forall is_byte bytes → base64_decode (base64_encode bytes) = Some bytes;
  base64_length bytes :
    Z.of_nat (length (base64_encode bytes)) = (Z.of_nat (length bytes) + 2) / 3 * 4;
}.

(** ** Network report chunks *)

Definition NETWORK_REPORT_SCHEMA_VERSION : Z := 1.
Definition NETWORK_REPORT_CHUNK_BYTES : Z := 32 * 1024.
Definition MAX_NETWORK_REPORT_BYTES : Z := 4 * 1024 * 1024.

Record NetworkReportRequest : Type := {
  nrr_schema_version : Z;
  nrr_offset : Z;
}.

Record NetworkReportChunk : Type := {
  nrc_schema_version : Z;
  nrc_offset : Z;
  nrc_total_bytes : Z;
  nrc_sha256 : list Z;
  nrc_chunk_base64 : list Z;
}.

Definition zlength {A : Type} (l : list A) : Z := Z.of_nat (length l).

(** [&report[from..to]] *)
Definition slice (from to : Z) (l : list Z) : list Z :=
  take (Z.to_nat (to - from)) (drop (Z.to_nat from) l).

(** Sixty-four lowercase hexadecimal digits. *)
Definition is_digest (text : list Z) : bool :=
  (length text =? 64)%nat && forallb (λ b, is_ascii_digit b || in_range 97 102 b) text.

Section Chunks.
Context {b64 : Base64Api}.

(** [NetworkReportChunkV1::new] *)
Definition new_chunk (offset total_bytes : Z) (sha256 report : list Z) : result string NetworkReportChunk :=
  if (total_bytes =? 0) || (MAX_NETWORK_REPORT_BYTES <? total_bytes) ||
     negb (zlength report =? total_bytes) || (total_bytes <=? offset) ||
     negb (offset mod NETWORK_REPORT_CHUNK_BYTES =? 0)
  then Err "invalid network report range"%string
  else
    let finish := Z.min (offset + NETWORK_REPORT_CHUNK_BYTES) total_bytes in
    if u32_max <? offset then Err "invalid network report offset"%string
    else if u32_max <? total_bytes then Err "invalid network report size"%string
    else
      Ok {| nrc_schema_version := NETWORK_REPORT_SCHEMA_VERSION; nrc_offset := offset;
            nrc_total_bytes := total_bytes; nrc_sha256 := sha256;
            nrc_chunk_base64 := base64_encode (slice offset finish report) |}.

(** [NetworkReportChunkV1::decode] *)
Definition decode_chunk (chunk : NetworkReportChunk) : result string (list Z) :=
  let total := nrc_total_bytes chunk in
  let offset := nrc_offset chunk in
  if negb (nrc_schema_version chunk =? NETWORK_REPORT_SCHEMA_VERSION) || (total =? 0) ||
     (MAX_NETWORK_REPORT_BYTES <? total) || (total <=? offset) ||
     negb (offset mod NETWORK_REPORT_CHUNK_BYTES =? 0) ||
     ((NETWORK_REPORT_CHUNK_BYTES + 2) / 3 * 4 <? zlength (nrc_chunk_base64 chunk)) ||
     negb (is_digest (nrc_sha256 chunk))
  then Err "invalid network report chunk"%string
  else
    match base64_decode (nrc_chunk_base64 chunk) with
    | None => Err "invalid network report chunk encoding"%string
    | Some bytes =>
        if negb (zlength bytes =? Z.min (total - offset) NETWORK_REPORT_CHUNK_BYTES)
        then Err "invalid network report chunk length"%string
        else Ok bytes
    end.

End Chunks.

(** ** Package and syscall reports *)

Definition PACKAGE_REPORT_SCHEMA_VERSION : Z := 1.
Definition MAX_PACKAGE_REPORT_BYTES : Z := 96 * 1024.
Definition MAX_SYSCALL_REPORT_BYTES : Z := 96 * 1024.

Record PackageReportRequest : Type := {
  prq_schema_version : Z;
  prq_maximum_bytes : Z;
}.

Definition validate_report_request (request : PackageReportRequest) : result string unit :=
  if negb (prq_schema_version request =? PACKAGE_REPORT_SCHEMA_VERSION)
  then Err "unsupported package report request schema"%string
  else if (prq_maximum_bytes request =? 0) || (MAX_PACKAGE_REPORT_BYTES <? prq_maximum_bytes request)
  then Err "package report request exceeds the protocol byte limit"%string
  else Ok tt.

Record PackageReportResponse : Type := {
  prs_schema_version : Z;
  prs_report_json : list Z;
  prs_sha256 : list Z;
}.

Definition validate_report_response (response : PackageReportResponse) (maximum_bytes : Z)
  : result string unit :=
  if negb (prs_schema_version response =? PACKAGE_REPORT_SCHEMA_VERSION)
  then Err "unsupported package report response schema"%string
  else if maximum_bytes <? zlength (prs_report_json response)
  then Err "package report response exceeds the requested byte limit"%string
  else if negb (is_digest (default [] (strip_prefix (str "sha256:") (prs_sha256 response))))
  then Err "package report response has an invalid SHA-256 digest"%string
  else Ok tt.

(** ** Safe outputs *)

Definition SAFE_OUTPUTS_OPERATION_SCHEMA_VERSION : Z := 1.
Definition MAX_SAFE_OUTPUTS_ARTIFACT_BYTES : Z := 128 * 1024.
Definition MAX_SAFE_OUTPUTS_SEAL_BYTES : Z := 4 * 1024.

Inductive SafeOutputsCollectionError : Type :=
| CollectionSchemaVersion | ArtifactTooLarge | SealSize | CollectionEncoding.

Record SafeOutputsCollection : Type := {
  soc_schema_version : Z;
  soc_artifact_base64 : list Z;
  soc_seal_base64 : list Z;
}.

Definition maximum_base64_length (bytes : Z) : Z := (bytes + 2) / 3 * 4.

Definition validate_safe_outputs_lengths (artifact_bytes seal_bytes : Z)
  : result SafeOutputsCollectionError unit :=
  if MAX_SAFE_OUTPUTS_ARTIFACT_BYTES <? artifact_bytes then Err ArtifactTooLarge
  else if (seal_bytes =? 0) || (MAX_SAFE_OUTPUTS_SEAL_BYTES <? seal_bytes) then Err SealSize
  else Ok tt.

Section SafeOutputs.
Context {b64 : Base64Api}.

Definition new_collection (artifact seal : list Z)
  : result SafeOutputsCollectionError SafeOutputsCollection :=
  check? validate_safe_outputs_lengths (zlength artifact) (zlength seal) in
  Ok {| soc_schema_version := SAFE_OUTPUTS_OPERATION_SCHEMA_VERSION;
        soc_artifact_base64 := base64_encode artifact; soc_seal_base64 := base64_encode seal |}.

Definition decode_collection (c : SafeOutputsCollection)
  : result SafeOutputsCollectionError (list Z * list Z) :=
  if negb (soc_schema_version c =? SAFE_OUTPUTS_OPERATION_SCHEMA_VERSION)
  then Err CollectionSchemaVersion
  else if maximum_base64_length MAX_SAFE_OUTPUTS_ARTIFACT_BYTES <? zlength (soc_artifact_base64 c)
  then Err ArtifactTooLarge
  else if maximum_base64_length MAX_SAFE_OUTPUTS_SEAL_BYTES <? zlength (soc_seal_base64 c)
  then Err SealSize
  else
    match base64_decode (soc_artifact_base64 c) with
    | None => Err CollectionEncoding
    | Some artifact =>
        match base64_decode (soc_seal_base64 c) with
        | None => Err CollectionEncoding
        | Some seal =>
            check? validate_safe_outputs_lengths (zlength artifact) (zlength seal) in
            Ok (artifact, seal)
        end
    end.

End SafeOutputs.

(** ** The guest *)

Record PackageReportSource : Type := {
  src_path : list Z;
  src_expected_uid : Z;
  src_expected_gid : Z;
  src_maximum_bytes : Z;
}.

Record NetworkReportSource : Type := {
  nrs_role : list Z;
  nrs_configured_policy : Json;
  nrs_report : PackageReportSource;
}.

Record NetworkReportTransfer : Type := {
  nt_bytes : list Z;
  nt_sha256 : list Z;
  nt_next_offset : Z;
}.

Definition sha256_label {sha : Sha256Api} (bytes : list Z) : list Z :=
  str "sha256:" ++ hex_encode (sha256 bytes).

(** The text with quotes around. *)
Definition quoted (text : list Z) : list Z := [34] ++ text ++ [34].

(** [json!({"reason": reason})] *)
Definition reason_json (reason : string) : list Z :=
  [123] ++ quoted (str "reason") ++ [58] ++ quoted (str reason) ++ [125].

Section Guest.
Context {sha : Sha256Api} {b64 : Base64Api}.
Context {json_serde : Serde Json} {request_serde : Serde NetworkReportRequest}.
Context {chunk_serde : Serde NetworkReportChunk}.
Context {report_request_serde : Serde PackageReportRequest}.
Context {report_response_serde : Serde PackageReportResponse}.

(** The file of a report, opened and checked, up to a number of bytes. *)
Variable read_file : PackageReportSource → Z → GuestResult (list Z).

Definition read_package_report (source : PackageReportSource) (maximum_bytes : Z)
  : GuestResult (list Z) :=
  if src_maximum_bytes source <? maximum_bytes
  then Err (Protocol (str "package report request exceeds the configured byte limit"))
  else
    let? bytes := read_file source maximum_bytes in
    match from_utf8 bytes with
    | Some text => Ok text
    | None => Err (Runtime (str "package report is not valid UTF-8 JSON"))
    end.

(** The status of every source, by its role. *)
Fixpoint read_gateways (sources : list NetworkReportSource) (gateways : Map) : GuestResult Map :=
  match sources with
  | [] => Ok gateways
  | source :: sources =>
      let? json := read_package_report (nrs_report source) (src_maximum_bytes (nrs_report source)) in
      let? status :=
        map_err (λ error, Protocol (str "invalid network status JSON: " ++ error)) (from_slice json) in
      read_gateways sources
        (map_insert (nrs_role source)
           (JObject [(str "configured_policy", nrs_configured_policy source);
                     (str "github_meta", status)]) gateways)
  end.

Definition network_document (gateways : Map) : Json :=
  JObject [(str "gateways", JObject gateways);
           (str "schema_version", JNumber (PosInt NETWORK_REPORT_SCHEMA_VERSION))].

Definition begin_transfer (sources : list NetworkReportSource) : GuestResult NetworkReportTransfer :=
  let? gateways := read_gateways sources [] in
  let? bytes :=
    map_err (λ error, Protocol (str "encode network report: " ++ error))
      (to_vec (network_document gateways)) in
  if MAX_NETWORK_REPORT_BYTES <? zlength bytes
  then Err (Protocol (str "network report exceeds its byte limit"))
  else
    Ok {| nt_bytes := bytes; nt_sha256 := hex_encode (sha256 bytes); nt_next_offset := 0 |}.

(** The chunk at the offset that is next. *)
Definition next_chunk (transfer : NetworkReportTransfer) : GuestResult (list Z * NetworkReportTransfer) :=
  let? response :=
    map_err (λ error, Protocol (str error))
      (new_chunk (nt_next_offset transfer) (zlength (nt_bytes transfer)) (nt_sha256 transfer)
         (nt_bytes transfer)) in
  let? payload :=
    map_err (λ error, Protocol (str "encode network report chunk: " ++ error)) (to_vec response) in
  Ok (payload,
      {| nt_bytes := nt_bytes transfer; nt_sha256 := nt_sha256 transfer;
         nt_next_offset := Z.min (nt_next_offset transfer + NETWORK_REPORT_CHUNK_BYTES)
                             (zlength (nt_bytes transfer)) |}).

(** The closure of [handle_network_report_request]: a transfer that began is kept when the chunk
    cannot be made. *)
Definition network_payload (payload : list Z) (sources : list NetworkReportSource) (terminal : bool)
    (transfer : option NetworkReportTransfer)
  : GuestResult (list Z) * option NetworkReportTransfer :=
  if negb terminal || match sources with [] => true | _ => false end
  then (Err (Protocol (str "network report requires a terminal workload and configured metadata")),
        transfer)
  else
    match map_err (λ error, Protocol (str "invalid network report request: " ++ error))
            (from_slice payload) with
    | Err e => (Err e, transfer)
    | Ok request =>
        let expected := match transfer with Some transfer => nt_next_offset transfer | None => 0 end in
        if negb (nrr_schema_version request =? NETWORK_REPORT_SCHEMA_VERSION) ||
           negb (nrr_offset request =? expected)
        then (Err (Protocol (str "invalid network report offset or schema")), transfer)
        else
          match match transfer with Some transfer => Ok transfer | None => begin_transfer sources end with
          | Err e => (Err e, transfer)
          | Ok transfer =>
              match next_chunk transfer with
              | Err e => (Err e, Some transfer)
              | Ok (payload, transfer) => (Ok payload, Some transfer)
              end
          end
    end.

Definition handle_network_report_request (request_id : Z) (payload : list Z)
    (sources : list NetworkReportSource) (terminal : bool) (transfer : option NetworkReportTransfer)
  : Message * option NetworkReportTransfer :=
  match network_payload payload sources terminal transfer with
  | (Ok payload, transfer) => (MResponse request_id StatusOk payload, transfer)
  | (Err _, transfer) =>
      (MResponse request_id StatusRejected (reason_json "network-report-unavailable"), transfer)
  end.

Definition reject (request_id : Z) (reason : string) : Message :=
  MResponse request_id StatusRejected (reason_json reason).

Definition report_response (text : list Z) : PackageReportResponse :=
  {| prs_schema_version := PACKAGE_REPORT_SCHEMA_VERSION; prs_report_json := text;
     prs_sha256 := sha256_label text |}.

Definition handle_package_report_request (request_id : Z) (payload : list Z)
    (source : option PackageReportSource) (terminal_response_sent package_report_served : bool)
  : Message :=
  if negb terminal_response_sent then reject request_id "terminal-response-required"
  else if package_report_served then reject request_id "package-report-already-served"
  else
    match source with
    | None => reject request_id "package-report-not-configured"
    | Some source =>
        match from_slice payload with
        | Err _ => reject request_id "invalid-package-report-request"
        | Ok request =>
            if is_ok (validate_report_request request) &&
               (prq_maximum_bytes request <=? src_maximum_bytes source)
            then
              match read_package_report source (prq_maximum_bytes request) with
              | Err _ => reject request_id "package-report-unavailable"
              | Ok text =>
                  match to_vec (report_response text) with
                  | Err _ => reject request_id "package-report-unavailable"
                  | Ok payload => MResponse request_id StatusOk payload
                  end
              end
            else reject request_id "invalid-package-report-request"
        end
    end.

Definition validate_syscall_report_request (payload : list Z) (configured terminal served : bool)
  : result string Z :=
  if negb terminal then Err "terminal-response-required"%string
  else if served then Err "syscall-report-already-served"%string
  else if negb configured then Err "syscall-report-not-configured"%string
  else
    match from_slice payload with
    | Err _ => Err "invalid-syscall-report-request"%string
    | Ok request =>
        if negb (is_ok (validate_report_request request)) then Err "invalid-syscall-report-request"%string
        else if MAX_SYSCALL_REPORT_BYTES <? prq_maximum_bytes request
        then Err "invalid-syscall-report-request"%string
        else Ok (prq_maximum_bytes request)
    end.

(** With the reply of the tracing service; a failure after the request was admitted ends the
    session. *)
Definition handle_syscall_report_request (report : GuestResult (list Z)) (request_id : Z)
    (payload : list Z) (configured terminal served : bool) : GuestResult Message :=
  match validate_syscall_report_request payload configured terminal served with
  | Err reason => Ok (reject request_id reason)
  | Ok maximum_bytes =>
      let? bytes := report in
      if maximum_bytes <? zlength bytes
      then Err (Protocol (str "syscall report exceeds the requested byte limit"))
      else
        match from_utf8 bytes with
        | None => Err (Protocol (str "syscall report is not UTF-8"))
        | Some text =>
            let? payload :=
              map_err (λ error, Protocol (str "encoding syscall report: " ++ error))
                (to_vec (report_response text)) in
            Ok (MResponse request_id StatusOk payload)
        end
  end.

End Guest.

(** ** The host *)

Definition NETWORK_REPORT_OPERATION : list Z := str "network.report".

Record GuestNetworkReport : Type := {
  gnr_sha256 : list Z;
  gnr_report : Json;
}.

(** The envelope of a report: its schema, and one or two gateways of known roles. *)
Definition valid_envelope (report : Json) : bool :=
  match report with
  | JObject members =>
      match map_get (str "schema_version") members with
      | Some (JNumber (PosInt n)) => n =? NETWORK_REPORT_SCHEMA_VERSION
      | _ => false
      end &&
      match map_get (str "gateways") members with
      | Some (JObject gateways) =>
          negb (bool_decide (gateways = [])) && (length gateways <=? 2)%nat &&
          forallb (λ role, bool_decide (role = str "workload") || bool_decide (role = str "registry"))
            gateways.*1
      | _ => false
      end
  | _ => false
  end.

Definition NETWORK_REPORT_REQUEST_ID : Z := 5.

Section Host.
Context {sha : Sha256Api} {b64 : Base64Api}.
Context {json_serde : Serde Json} {request_serde : Serde NetworkReportRequest}.
Context {chunk_serde : Serde NetworkReportChunk}.

(** The request for the bytes after those that are there. *)
Definition network_request (bytes : list Z) : result (list Z) Message :=
  if u32_max <? zlength bytes then Err (str "network report offset exceeds its limit")
  else
    let? payload :=
      map_err (λ error, str "encode network report request: " ++ error)
        (to_vec {| nrr_schema_version := NETWORK_REPORT_SCHEMA_VERSION;
                   nrr_offset := zlength bytes |}) in
    Ok (MRequest NETWORK_REPORT_REQUEST_ID NETWORK_REPORT_OPERATION payload).

(** The identity of a report: its size and its digest. *)
Definition Identity : Type := Z * list Z.

(** What a message of the peer adds, or the report. *)
Definition network_round (bytes : list Z) (identity : option Identity) (message : Message)
  : result (list Z) (list Z * Identity + GuestNetworkReport) :=
  match message with
  | MResponse request_id status payload =>
      if negb (request_id =? NETWORK_REPORT_REQUEST_ID) ||
         match status with StatusOk => false | _ => true end
      then Err (str "guest rejected or mismatched network report")
      else
        let? chunk :=
          map_err (λ error, str "decode network report chunk: " ++ error) (from_slice payload) in
        let? decoded := map_err str (decode_chunk chunk) in
        if negb (nrc_offset chunk =? zlength bytes) then Err (str "network report offset mismatch")
        else
          let current := (nrc_total_bytes chunk, nrc_sha256 chunk) in
          if match identity with Some previous => negb (bool_decide (previous = current)) | None => false end
          then Err (str "network report changed between chunks")
          else
            let bytes := bytes ++ decoded in
            if zlength bytes =? nrc_total_bytes chunk
            then
              let digest := hex_encode (sha256 bytes) in
              if negb (bool_decide (digest = nrc_sha256 chunk))
              then Err (str "network report SHA-256 mismatch")
              else
                let? report := map_err (λ error, str "decode network report: " ++ error) (from_slice bytes) in
                if negb (valid_envelope report) then Err (str "invalid network report envelope")
                else Ok (inr {| gnr_sha256 := str "sha256:" ++ digest; gnr_report := report |})
            else Ok (inl (bytes, current))
  | _ => Err (str "unexpected network report message")
  end.

(** The peer answers a request, or the connection fails. *)
Variable PeerState : Type.
Variable peer : PeerState → Message → result (list Z) Message * PeerState.

(** [read_network_report], with a bound on the rounds: [None] when they run out. *)
Fixpoint read_network_report (fuel : nat) (bytes : list Z) (identity : option Identity) (s : PeerState)
  : option (result (list Z) GuestNetworkReport) :=
  match fuel with
  | O => None
  | S fuel =>
      match network_request bytes with
      | Err e => Some (Err e)
      | Ok request =>
          match peer s request with
          | (Err e, _) => Some (Err e)
          | (Ok message, s) =>
              match network_round bytes identity message with
              | Err e => Some (Err e)
              | Ok (inr report) => Some (Ok report)
              | Ok (inl (bytes, identity)) => read_network_report fuel bytes (Some identity) s
              end
          end
      end
  end.

End Host.

(** The request of [fetch_json_report], after a terminal response. *)
Definition json_report_request (terminal : bool) (request_id : Z) (operation : list Z) (maximum_bytes : Z)
    {request_serde : Serde PackageReportRequest} : result (list Z) Message :=
  if negb terminal then Err (operation ++ str " requested before terminal response")
  else if u32_max <? maximum_bytes then Err (str "JSON report byte limit is out of range")
  else
    let request :=
      {| prq_schema_version := PACKAGE_REPORT_SCHEMA_VERSION; prq_maximum_bytes := maximum_bytes |} in
    check? map_err str (validate_report_request request) in
    let? payload :=
      map_err (λ error, str "encode " ++ operation ++ str " request: " ++ error) (to_vec request) in
    Ok (MRequest request_id operation payload).

Record GuestPackageReport : Type := {
  gpr_json : list Z;
  gpr_sha256 : list Z;
}.

(** What [fetch_json_report] makes of the answer. *)
Definition accept_json_report {sha : Sha256Api} {response_serde : Serde PackageReportResponse}
    (request_id : Z) (operation : list Z) (maximum_bytes : Z) (message : Message)
  : result (list Z) GuestPackageReport :=
  match message with
  | MResponse id status payload =>
      if negb (id =? request_id) || match status with StatusOk => false | _ => true end
      then Err (str "guest rejected or mismatched " ++ operation ++ str " response")
      else
        let? response :=
          map_err (λ error, str "decode " ++ operation ++ str " response: " ++ error)
            (from_slice payload) in
        check? map_err str (validate_report_response response maximum_bytes) in
        let actual_digest := sha256_label (prs_report_json response) in
        if negb (bool_decide (prs_sha256 response = actual_digest))
        then Err (operation ++ str " SHA-256 digest mismatch")
        else Ok {| gpr_json := prs_report_json response; gpr_sha256 := actual_digest |}
  | _ => Err (str "guest returned an unexpected " ++ operation ++ str " message")
  end.

(** More rounds than a report has chunks. *)
Definition network_rounds : nat := 129.

(** ** Chunks *)

Section ChunkLaws.
Context {b64 : Base64Api} {laws : Base64Laws b64}.

Lemma zlength_slice (from to : Z) (l : list Z) :
  0 ≤ from ≤ to → to ≤ zlength l → zlength (slice from to l) = to - from.
Proof. unfold zlength, slice. intros. rewrite length_take, length_drop. lia. Qed.

(** A chunk decodes to the bytes it was made of. *)
Lemma decode_new_chunk (offset total : Z) (digest report : list Z) (chunk : NetworkReportChunk) :
  0 ≤ offset → Forall is_byte report → is_digest digest = true →
  new_chunk offset total digest report = Ok chunk →
  decode_chunk chunk = Ok (slice offset (Z.min (offset + NETWORK_REPORT_CHUNK_BYTES) total) report) ∧
  nrc_offset chunk = offset ∧ nrc_total_bytes chunk = total ∧ nrc_sha256 chunk = digest.
Proof.
  intros Ho Hb Hd. unfold new_chunk.
  destruct (_ || negb (offset mod _ =? 0)) eqn:E; [done|]. cbv zeta.
  rewrite !orb_false_iff, !negb_false_iff, Z.eqb_neq, Z.ltb_ge, Z.leb_gt, !Z.eqb_eq in E.
  destruct E as ((((E1 & E2) & E3) & E4) & E5).
  destruct (u32_max <? offset); [done|]. destruct (u32_max <? total); [done|].
  intros [= <-]. cbn [nrc_offset nrc_total_bytes nrc_sha256]. split; [|done].
  set (bytes := slice _ _ report).
  assert (zlength bytes = Z.min (total - offset) NETWORK_REPORT_CHUNK_BYTES) as Hl.
  { unfold bytes. rewrite zlength_slice; unfold NETWORK_REPORT_CHUNK_BYTES; lia. }
  assert (Forall is_byte bytes) as Hbytes by (apply Forall_take, Forall_drop; done).
  unfold decode_chunk. cbn [nrc_schema_version nrc_offset nrc_total_bytes nrc_sha256 nrc_chunk_base64].
  rewrite Z.eqb_refl, Hd, E5. rewrite (proj2 (Z.eqb_neq _ _)) by done.
  rewrite (proj2 (Z.ltb_ge _ _)) by done. rewrite (proj2 (Z.leb_gt _ _)) by done. cbn [negb orb].
  rewrite Z.eqb_refl. cbn [negb orb].
  rewrite (proj2 (Z.ltb_ge _ _)); cycle 1.
  { unfold zlength. rewrite base64_length. fold (zlength bytes).
    apply Z.mul_le_mono_nonneg_r; [lia|]. apply Z.div_le_mono; lia. }
  cbn [orb]. rewrite base64_roundtrip by done. by rewrite Hl, Z.eqb_refl.
Qed.

(** What a decoded chunk has. *)
Lemma decode_chunk_ok (chunk : NetworkReportChunk) (bytes : list Z) :
  decode_chunk chunk = Ok bytes →
  nrc_offset chunk < nrc_total_bytes chunk ≤ MAX_NETWORK_REPORT_BYTES ∧
  zlength bytes = Z.min (nrc_total_bytes chunk - nrc_offset chunk) NETWORK_REPORT_CHUNK_BYTES.
Proof.
  unfold decode_chunk. cbv zeta. destruct (_ || negb (is_digest _)) eqn:E; [done|].
  rewrite !orb_false_iff, Z.ltb_ge, Z.leb_gt in E. destruct E as ((((((_ & _) & E1) & E2) & _) & _) & _).
  destruct (base64_decode _); [|done]. destruct (negb _) eqn:El; [done|]. intros [= <-].
  apply negb_false_iff, Z.eqb_eq in El. lia.
Qed.

End ChunkLaws.

Lemma zlength_app {A : Type} (l1 l2 : list A) : zlength (l1 ++ l2) = zlength l1 + zlength l2.
Proof. unfold zlength. rewrite length_app. lia. Qed.

(** ** The host and any peer *)

Section AnyPeer.
Context {sha : Sha256Api} {b64 : Base64Api}.
Context {json_serde : Serde Json} {request_serde : Serde NetworkReportRequest}.
Context {chunk_serde : Serde NetworkReportChunk}.

(** A round that does not end adds a whole chunk, and the report is longer. *)
Lemma network_round_more (bytes bytes' : list Z) (identity : option Identity) (current : Identity)
    (message : Message) :
  network_round bytes identity message = Ok (inl (bytes', current)) →
  zlength bytes' = zlength bytes + NETWORK_REPORT_CHUNK_BYTES ∧
  zlength bytes' < MAX_NETWORK_REPORT_BYTES.
Proof.
  unfold network_round. destruct message; try done. destruct (_ || _); [done|].
  destruct (from_slice payload) as [chunk|]; [|done]. cbn [map_err].
  destruct (decode_chunk chunk) as [decoded|] eqn:Ed; [|done]. cbn [map_err].
  apply decode_chunk_ok in Ed as [Ht Hl].
  destruct (negb (nrc_offset chunk =? zlength bytes)) eqn:Eo; [done|].
  apply negb_false_iff, Z.eqb_eq in Eo. destruct (match identity with Some _ => _ | None => _ end); [done|].
  cbv zeta. destruct (zlength (bytes ++ decoded) =? nrc_total_bytes chunk) eqn:Ee.
  - destruct (negb (bool_decide _)); [done|]. destruct (from_slice (bytes ++ decoded)); [|done].
    cbn [map_err]. by destruct (negb _).
  - intros [= <- _]. apply Z.eqb_neq in Ee. rewrite zlength_app in *.
    unfold MAX_NETWORK_REPORT_BYTES, NETWORK_REPORT_CHUNK_BYTES in *. lia.
Qed.

(** A round that ends with a report has all its bytes, with the digest of the chunks. *)
Lemma network_round_report (bytes : list Z) (identity : option Identity) (message : Message)
    (report : GuestNetworkReport) :
  network_round bytes identity message = Ok (inr report) →
  ∃ decoded, let all := bytes ++ decoded in
    0 < zlength all ≤ MAX_NETWORK_REPORT_BYTES ∧ from_slice all = Ok (gnr_report report) ∧
    gnr_sha256 report = sha256_label all ∧ valid_envelope (gnr_report report) = true ∧
    ∀ previous, identity = Some previous → previous = (zlength all, hex_encode (sha256 all)).
Proof.
  unfold network_round. destruct message; try done. destruct (_ || _); [done|].
  destruct (from_slice payload) as [chunk|]; [|done]. cbn [map_err].
  destruct (decode_chunk chunk) as [decoded|] eqn:Ed; [|done]. cbn [map_err].
  apply decode_chunk_ok in Ed as [Ht Hl].
  destruct (negb (nrc_offset chunk =? zlength bytes)) eqn:Eo; [done|].
  apply negb_false_iff, Z.eqb_eq in Eo.
  destruct (match identity with Some _ => _ | None => _ end) eqn:Ei; [done|]. cbv zeta.
  destruct (zlength (bytes ++ decoded) =? nrc_total_bytes chunk) eqn:Ee; [|done].
  apply Z.eqb_eq in Ee. destruct (negb (bool_decide _)) eqn:Eh; [done|].
  apply negb_false_iff, bool_decide_eq_true in Eh.
  destruct (from_slice (bytes ++ decoded)) as [value|] eqn:Ev; [|done]. cbn [map_err].
  destruct (negb (valid_envelope value)) eqn:Ee'; [done|]. intros [= <-].
  apply negb_false_iff in Ee'. exists decoded. cbn [gnr_report gnr_sha256].
  split_and!; [unfold zlength in *; lia|lia|done|done|done|].
  intros previous ->. apply negb_false_iff, bool_decide_eq_true in Ei. by rewrite Ei, Ee, Eh.
Qed.

Context {PeerState : Type} (peer : PeerState → Message → result (list Z) Message * PeerState).

(** The host asks at most 128 times, whatever it is answered. *)
Theorem network_report_terminates (s : PeerState) :
  read_network_report PeerState peer network_rounds [] None s ≠ None.
Proof.
  assert (∀ fuel bytes identity s,
    MAX_NETWORK_REPORT_BYTES ≤ zlength bytes + NETWORK_REPORT_CHUNK_BYTES * Z.of_nat fuel →
    zlength bytes < MAX_NETWORK_REPORT_BYTES →
    read_network_report PeerState peer fuel bytes identity s ≠ None) as H.
  { induction fuel as [|fuel IH]; intros bytes identity s' Hf Hb; [lia|]. cbn [read_network_report].
    destruct (network_request bytes) as [request|]; [|done].
    destruct (peer s' request) as [[message|] s'']; [|done].
    destruct (network_round bytes identity message) as [[[bytes' identity']|report]|] eqn:E; [|done|done].
    apply network_round_more in E as [E1 E2]. apply IH; lia. }
  apply H; [by vm_compute|by vm_compute].
Qed.

(** What the host accepts has the digest that is reported, and is a report of at most 4 MiB. *)
Theorem network_report_sound (s : PeerState) (fuel : nat) (report : GuestNetworkReport) :
  read_network_report PeerState peer fuel [] None s = Some (Ok report) →
  ∃ bytes, 0 < zlength bytes ≤ MAX_NETWORK_REPORT_BYTES ∧ from_slice bytes = Ok (gnr_report report) ∧
    gnr_sha256 report = sha256_label bytes ∧ valid_envelope (gnr_report report) = true.
Proof.
  generalize (@nil Z), (@None Identity). revert s.
  induction fuel as [|fuel IH]; intros s' bytes identity; cbn [read_network_report]; [done|].
  destruct (network_request bytes) as [request|]; [|done].
  destruct (peer s' request) as [[message|] s'']; [|done].
  destruct (network_round bytes identity message) as [[[bytes' identity']|report']|] eqn:E; [| |done].
  - apply IH.
  - intros [= <-]. apply network_round_report in E as (decoded & H1 & H2 & H3 & H4 & _). eauto.
Qed.

End AnyPeer.

(** ** The host and the guest *)

(** The roles of a guest: the gateway of the workload, that of the registry proxy, or both. *)
Definition known_roles (sources : list NetworkReportSource) : Prop :=
  nrs_role <$> sources ∈ [[str "workload"]; [str "registry"]; [str "workload"; str "registry"]].

Lemma known_roles_some (sources : list NetworkReportSource) : known_roles sources → sources ≠ [].
Proof.
  intros H ->. unfold known_roles in H. repeat (apply elem_of_cons in H as [H|H]; [done|]).
  by apply not_elem_of_nil in H.
Qed.

Lemma known_roles_valid {json_serde : Serde Json}
    (read_file : PackageReportSource → Z → GuestResult (list Z)) (sources : list NetworkReportSource)
    (gateways : Map) :
  known_roles sources →
  read_gateways read_file sources [] = Ok gateways →
  valid_envelope (network_document gateways) = true.
Proof.
  intros Hroles. pose proof (known_roles_some sources Hroles) as Hsome. revert Hroles.
  unfold known_roles. destruct sources as [|s1 sources]; [done|].
  cbn [read_gateways]. destruct (read_package_report _ (nrs_report s1) _); [|done].
  destruct (map_err _ (from_slice a)) as [status1|]; [|done]. destruct sources as [|s2 sources].
  - intros H [= <-]. cbn [fmap list_fmap] in H.
    repeat (apply elem_of_cons in H as [H|H]; [injection H as H; try done; rewrite H; by vm_compute|]).
    by apply not_elem_of_nil in H.
  - cbn [read_gateways]. destruct (read_package_report _ (nrs_report s2) _); [|done].
    destruct (map_err _ (from_slice a0)) as [status2|]; [|done]. destruct sources as [|s3 sources].
    + intros H. cbn [read_gateways]. intros [= <-]. cbn [fmap list_fmap] in H.
      do 2 (apply elem_of_cons in H as [H|H]; [done|]).
      apply list_elem_of_singleton in H. injection H as -> ->. by vm_compute.
    + intros H. exfalso. cbn [fmap list_fmap] in H.
      repeat (apply elem_of_cons in H as [H|H]; [done|]). by apply not_elem_of_nil in H.
Qed.

Section Transfer.
Context {sha : Sha256Api} {sha_laws : Sha256Laws sha} {b64 : Base64Api} {b64_laws : Base64Laws b64}.
Context {json_serde : Serde Json}.
Context {request_serde : Serde NetworkReportRequest} {request_laws : SerdeLaws NetworkReportRequest}.
Context {chunk_serde : Serde NetworkReportChunk} {chunk_laws : SerdeLaws NetworkReportChunk}.
Context (read_file : PackageReportSource → Z → GuestResult (list Z)).
Context (sources : list NetworkReportSource).

(** The guest, after the workload ended, as the peer of the host. *)
Definition guest_peer (transfer : option NetworkReportTransfer) (message : Message)
  : result (list Z) Message * option NetworkReportTransfer :=
  match message with
  | MRequest request_id _ payload =>
      let '(response, transfer) :=
        handle_network_report_request read_file request_id payload sources true transfer in
      (Ok response, transfer)
  | _ => (Err [], transfer)
  end.

Context (gateways : Map) (bytes : list Z).
Hypothesis Hroles : known_roles sources.
Hypothesis Hgateways : read_gateways read_file sources [] = Ok gateways.
Hypothesis Hbytes : to_vec (network_document gateways) = Ok bytes.
Hypothesis Hread : from_slice bytes = Ok (network_document gateways).
Hypothesis Hvalid : Forall is_byte bytes.
Hypothesis Hsize : 0 < zlength bytes ≤ MAX_NETWORK_REPORT_BYTES.

Definition transfer_at (offset : Z) : NetworkReportTransfer :=
  {| nt_bytes := bytes; nt_sha256 := hex_encode (sha256 bytes); nt_next_offset := offset |}.

Lemma digest_ok : is_digest (hex_encode (sha256 bytes)) = true.
Proof.
  unfold is_digest. rewrite length_hex_encode, sha256_length. apply hex_encode_lower, sha256_bytes.
Qed.

Lemma begin_transfer_ok : begin_transfer read_file sources = Ok (transfer_at 0).
Proof.
  unfold begin_transfer. rewrite Hgateways, Hbytes. cbn [map_err].
  rewrite (proj2 (Z.ltb_ge _ _)) by lia. done.
Qed.

(** The transfer, before the chunk at an offset was asked for. *)
Definition guest_at (offset : Z) (transfer : option NetworkReportTransfer) : Prop :=
  transfer = Some (transfer_at offset) ∨ (transfer = None ∧ offset = 0).

Lemma new_chunk_ok (offset : Z) :
  0 ≤ offset < zlength bytes → offset mod NETWORK_REPORT_CHUNK_BYTES = 0 →
  ∃ chunk, new_chunk offset (zlength bytes) (hex_encode (sha256 bytes)) bytes = Ok chunk.
Proof.
  intros Ho Hm. unfold new_chunk. rewrite (proj2 (Z.eqb_neq _ _)) by lia.
  rewrite (proj2 (Z.ltb_ge _ _)) by lia. rewrite Z.eqb_refl, (proj2 (Z.leb_gt _ _)) by lia.
  rewrite Hm. cbn [negb orb]. cbv zeta. unfold MAX_NETWORK_REPORT_BYTES, u32_max in *.
  rewrite !(proj2 (Z.ltb_ge _ _)) by lia. by eexists.
Qed.

(** A round at an offset. *)
Lemma guest_round (offset : Z) (transfer : option NetworkReportTransfer) (identity : option Identity) :
  0 ≤ offset < zlength bytes → offset mod NETWORK_REPORT_CHUNK_BYTES = 0 → guest_at offset transfer →
  identity = None ∨ identity = Some (zlength bytes, hex_encode (sha256 bytes)) →
  let finish := Z.min (offset + NETWORK_REPORT_CHUNK_BYTES) (zlength bytes) in
  ∃ request message,
    network_request (take (Z.to_nat offset) bytes) = Ok request ∧
    guest_peer transfer request = (Ok message, Some (transfer_at finish)) ∧
    network_round (take (Z.to_nat offset) bytes) identity message =
      if finish =? zlength bytes
      then if valid_envelope (network_document gateways)
           then Ok (inr {| gnr_sha256 := sha256_label bytes; gnr_report := network_document gateways |})
           else Err (str "invalid network report envelope")
      else Ok (inl (take (Z.to_nat finish) bytes, (zlength bytes, hex_encode (sha256 bytes)))).
Proof.
  intros Ho Hm Hg Hi. cbv zeta. set (finish := Z.min _ _).
  assert (offset ≤ finish ≤ zlength bytes) as Hfin by (unfold finish, NETWORK_REPORT_CHUNK_BYTES; lia).
  assert (zlength (take (Z.to_nat offset) bytes) = offset) as Hlen.
  { unfold zlength in *. rewrite length_take. lia. }
  set (request := {| nrr_schema_version := NETWORK_REPORT_SCHEMA_VERSION; nrr_offset := offset |}).
  destruct (to_vec_total request) as [payload Hp].
  destruct (new_chunk_ok offset Ho Hm) as [chunk Hc].
  destruct (to_vec_total chunk) as [answer Ha].
  assert (next_chunk (transfer_at offset) = Ok (answer, transfer_at finish)) as Hnext.
  { unfold next_chunk. cbn [transfer_at nt_next_offset nt_bytes nt_sha256]. rewrite Hc. cbn [map_err].
    rewrite Ha. done. }
  exists (MRequest NETWORK_REPORT_REQUEST_ID NETWORK_REPORT_OPERATION payload),
    (MResponse NETWORK_REPORT_REQUEST_ID StatusOk answer). split_and!.
  - unfold network_request. rewrite Hlen. unfold MAX_NETWORK_REPORT_BYTES, u32_max in *.
    rewrite (proj2 (Z.ltb_ge _ _)) by lia. fold request. by rewrite Hp.
  - cbn [guest_peer]. unfold handle_network_report_request, network_payload. cbn [negb orb].
    assert (match sources with [] => true | _ => false end = false) as ->
      by (pose proof (known_roles_some sources Hroles); by destruct sources).
    rewrite (from_to_vec request payload Hp). cbn [map_err]. cbv zeta.
    subst request. cbn [nrr_schema_version nrr_offset]. rewrite Z.eqb_refl. cbn [negb orb].
    destruct Hg as [->|[-> ->]].
    + cbn [transfer_at nt_next_offset]. rewrite Z.eqb_refl. cbn [negb]. fold (transfer_at offset).
      by rewrite Hnext.
    + rewrite Z.eqb_refl. cbn [negb]. by rewrite begin_transfer_ok, Hnext.
  - unfold network_round. rewrite Z.eqb_refl. cbn [negb orb].
    rewrite (from_to_vec chunk answer Ha). cbn [map_err].
    destruct (decode_new_chunk offset (zlength bytes) _ bytes chunk ltac:(lia) Hvalid digest_ok Hc)
      as (Hd & Hco & Hct & Hcs).
    rewrite Hd. cbn [map_err]. fold finish. rewrite Hco, Hlen, Z.eqb_refl, Hct, Hcs. cbn [negb].
    cbv zeta.
    destruct (match identity with Some _ => _ | None => _ end) eqn:Ei.
    { destruct Hi as [->| ->]; [done|]. by rewrite bool_decide_true in Ei. }
    assert (take (Z.to_nat offset) bytes ++ slice offset finish bytes = take (Z.to_nat finish) bytes) as ->.
    { unfold slice. rewrite <-(take_drop (Z.to_nat offset) (take (Z.to_nat finish) bytes)).
      rewrite take_take, Nat.min_l by lia. f_equal. rewrite skipn_firstn_comm. f_equal. lia. }
    assert (zlength (take (Z.to_nat finish) bytes) = finish) as Hfl.
    { unfold zlength in *. rewrite length_take. lia. }
    rewrite Hfl. destruct (finish =? zlength bytes) eqn:Ef; [|done]. apply Z.eqb_eq in Ef.
    rewrite take_ge by (unfold zlength in *; lia). rewrite bool_decide_true by done. cbn [negb].
    rewrite Hread. cbn [map_err]. by destruct (valid_envelope _).
Qed.

(** What the host reads is what the guest wrote, whatever the size of the report. *)
Lemma transfer_reads (fuel : nat) (offset : Z) (transfer : option NetworkReportTransfer)
    (identity : option Identity) :
  0 ≤ offset < zlength bytes → offset mod NETWORK_REPORT_CHUNK_BYTES = 0 → guest_at offset transfer →
  identity = None ∨ identity = Some (zlength bytes, hex_encode (sha256 bytes)) →
  zlength bytes ≤ offset + NETWORK_REPORT_CHUNK_BYTES * Z.of_nat fuel →
  valid_envelope (network_document gateways) = true →
  read_network_report _ guest_peer fuel (take (Z.to_nat offset) bytes) identity transfer =
  Some (Ok {| gnr_sha256 := sha256_label bytes; gnr_report := network_document gateways |}).
Proof.
  revert offset transfer identity. induction fuel as [|fuel IH]; intros offset transfer identity Ho Hm Hg Hi Hf Hv;
    [lia|].
  cbn [read_network_report].
  destruct (guest_round offset transfer identity Ho Hm Hg Hi) as (request & message & -> & -> & ->).
  destruct (Z.eqb_spec (Z.min (offset + NETWORK_REPORT_CHUNK_BYTES) (zlength bytes)) (zlength bytes)) as [E|E].
  - by rewrite Hv.
  - assert (offset + NETWORK_REPORT_CHUNK_BYTES < zlength bytes) as Hlt by lia.
    rewrite Z.min_l by lia.
    apply IH; [unfold NETWORK_REPORT_CHUNK_BYTES in *; lia| |by left|by right|lia|done].
    rewrite Z.add_mod, Hm, Z_mod_same_full by done. done.
Qed.

(** A report that the guest can make is read by the host in full, in at most 128 rounds: the same
    document, whatever its size, and the digest of its bytes. *)
Theorem network_report_delivered :
  read_network_report _ guest_peer network_rounds [] None None =
  Some (Ok {| gnr_sha256 := sha256_label bytes; gnr_report := network_document gateways |}).
Proof.
  apply (transfer_reads network_rounds 0 None None);
    [lia|done|by right|by left| |by eapply known_roles_valid].
  unfold network_rounds, MAX_NETWORK_REPORT_BYTES, NETWORK_REPORT_CHUNK_BYTES in *. lia.
Qed.

End Transfer.

(** ** The other reports *)

(** What was collected is what is read. *)
Theorem collection_roundtrip {b64 : Base64Api} {b64_laws : Base64Laws b64} (artifact seal : list Z)
    (collection : SafeOutputsCollection) :
  Forall is_byte artifact → Forall is_byte seal → new_collection artifact seal = Ok collection →
  decode_collection collection = Ok (artifact, seal).
Proof.
  intros Ha Hs. unfold new_collection. destruct (validate_safe_outputs_lengths _ _) as [[]|] eqn:Ev; [|done].
  intros [= <-]. unfold decode_collection. cbn [soc_schema_version soc_artifact_base64 soc_seal_base64].
  rewrite Z.eqb_refl. cbn [negb]. rewrite !base64_roundtrip by done. rewrite Ev.
  unfold validate_safe_outputs_lengths in Ev.
  destruct (MAX_SAFE_OUTPUTS_ARTIFACT_BYTES <? zlength artifact) eqn:E1; [done|]. apply Z.ltb_ge in E1.
  destruct (_ || _) eqn:E2; [done|]. apply orb_false_iff in E2 as [_ E2%Z.ltb_ge].
  assert (∀ bytes n, zlength bytes ≤ n → zlength (base64_encode bytes) ≤ maximum_base64_length n) as Hlen.
  { intros bytes n Hn. unfold zlength. rewrite base64_length. unfold maximum_base64_length.
    apply Z.mul_le_mono_nonneg_r; [lia|]. apply Z.div_le_mono; unfold zlength in Hn; lia. }
  rewrite !(proj2 (Z.ltb_ge _ _)) by (by apply Hlen). done.
Qed.

Section JsonReports.
Context {sha : Sha256Api} {sha_laws : Sha256Laws sha}.
Context {response_serde : Serde PackageReportResponse} {response_laws : SerdeLaws PackageReportResponse}.

(** The host accepts the answer that has a report within its limit, and gets this report. *)
Lemma json_report_accepted (request_id maximum_bytes : Z) (operation text payload : list Z) :
  to_vec (report_response text) = Ok payload → zlength text ≤ maximum_bytes →
  accept_json_report request_id operation maximum_bytes (MResponse request_id StatusOk payload) =
  Ok {| gpr_json := text; gpr_sha256 := sha256_label text |}.
Proof.
  intros Hp Hl. unfold accept_json_report. rewrite Z.eqb_refl. cbn [negb orb].
  rewrite (from_to_vec _ _ Hp). cbn [map_err]. unfold validate_report_response.
  cbn [report_response prs_schema_version prs_report_json prs_sha256]. rewrite Z.eqb_refl. cbn [negb].
  rewrite (proj2 (Z.ltb_ge _ _)) by done.
  assert (strip_prefix (str "sha256:") (sha256_label text) = Some (hex_encode (sha256 text))) as ->.
  { by apply strip_prefix_Some. }
  change (default [] (Some (hex_encode (sha256 text)))) with (hex_encode (sha256 text)).
  unfold is_digest. rewrite length_hex_encode, sha256_length.
  rewrite (hex_encode_lower _ (sha256_bytes text)). cbn.
  by rewrite bool_decide_true.
Qed.

End JsonReports.

(** ** Base64, to compute with *)

Module Rfc4648.

Definition digit_char (d : Z) : Z :=
  if d <? 26 then 65 + d else if d <? 52 then 71 + d else if d <? 62 then d - 4
  else if d =? 62 then 43 else 47.

Definition char_digit (c : Z) : option Z :=
  if in_range 65 90 c then Some (c - 65) else if in_range 97 122 c then Some (c - 71)
  else if in_range 48 57 c then Some (c + 4) else if c =? 43 then Some 62
  else if c =? 47 then Some 63 else None.

Definition pad : Z := 61.

Fixpoint encode (bytes : list Z) : list Z :=
  match bytes with
  | a :: b :: c :: bytes =>
      digit_char (a / 4) :: digit_char (a mod 4 * 16 + b / 16) ::
      digit_char (b mod 16 * 4 + c / 64) :: digit_char (c mod 64) :: encode bytes
  | [a; b] => [digit_char (a / 4); digit_char (a mod 4 * 16 + b / 16); digit_char (b mod 16 * 4); pad]
  | [a] => [digit_char (a / 4); digit_char (a mod 4 * 16); pad; pad]
  | [] => []
  end.

(** The unused bits of the last digit are zero. *)
Fixpoint decode (text : list Z) : option (list Z) :=
  match text with
  | [] => Some []
  | w :: x :: y :: z :: text =>
      d1 ← char_digit w;
      d2 ← char_digit x;
      if (y =? pad) && (z =? pad) then
        if (d2 mod 16 =? 0) && bool_decide (text = []) then Some [d1 * 4 + d2 / 16] else None
      else
        d3 ← char_digit y;
        if z =? pad then
          if (d3 mod 4 =? 0) && bool_decide (text = [])
          then Some [d1 * 4 + d2 / 16; d2 mod 16 * 16 + d3 / 4] else None
        else
          d4 ← char_digit z;
          rest ← decode text;
          Some (d1 * 4 + d2 / 16 :: d2 mod 16 * 16 + d3 / 4 :: d3 mod 4 * 64 + d4 :: rest)
  | _ => None
  end.

Lemma char_digit_char (d : Z) : 0 ≤ d < 64 → char_digit (digit_char d) = Some d.
Proof.
  intros Hd. unfold char_digit, digit_char, in_range.
  repeat match goal with
    | |- context [?a <? ?b] => destruct (Z.ltb_spec a b)
    | |- context [?a =? ?b] => destruct (Z.eqb_spec a b)
    | |- context [?a <=? ?b] => destruct (Z.leb_spec a b)
    end; cbn [andb]; try (f_equal; lia); lia.
Qed.

Lemma digit_char_not_pad (d : Z) : 0 ≤ d < 64 → (digit_char d =? pad) = false.
Proof.
  intros Hd. apply Z.eqb_neq. intros E. pose proof (char_digit_char d Hd) as H. by rewrite E in H.
Qed.

Lemma quarter (a m : Z) : 0 < m → 0 ≤ a → 0 ≤ a mod m < m ∧ 0 ≤ a / m ∧ a = m * (a / m) + a mod m.
Proof.
  intros Hm Ha. pose proof (Z.mod_pos_bound a m Hm). pose proof (Z.div_pos a m Ha Hm).
  pose proof (Z.div_mod a m). lia.
Qed.

(** Digits go together to what they were taken from. *)
Lemma join_digits (hi lo m : Z) : 0 < m → 0 ≤ lo < m → (hi * m + lo) / m = hi ∧ (hi * m + lo) mod m = lo.
Proof.
  intros Hm Hlo. split.
  - rewrite Z.div_add_l, Z.div_small by lia. lia.
  - rewrite Z.add_comm, Z_mod_plus_full, Z.mod_small by lia. done.
Qed.

Lemma base64_decode_encode (bytes : list Z) : Forall is_byte bytes → decode (encode bytes) = Some bytes.
Proof.
  assert (∀ n bytes, (length bytes ≤ n)%nat → Forall is_byte bytes → decode (encode bytes) = Some bytes)
    as H; [|by apply (H (length bytes))].
  induction n as [|n IH]; intros [|a [|b [|c l]]] Hn Hb; try done; cbn [length] in Hn; try lia;
    repeat (apply Forall_cons in Hb as [? Hb]); unfold is_byte in *.
  - destruct (quarter a 4) as (? & ? & Ea); [lia..|]. cbn [encode decode].
    rewrite !char_digit_char by lia. cbn. destruct (join_digits (a mod 4) 0 16) as [E1 E2]; [lia..|].
    rewrite Z.add_0_r in E1, E2. rewrite E1, E2. cbn. do 2 f_equal. lia.
  - destruct (quarter a 4) as (? & ? & Ea); [lia..|]. destruct (quarter b 16) as (? & ? & Eb); [lia..|].
    cbn [encode decode]. rewrite !char_digit_char by lia. cbn [mbind option_bind].
    rewrite digit_char_not_pad by lia. cbn [andb mbind option_bind].
    rewrite Z.eqb_refl.
    destruct (join_digits (a mod 4) (b / 16) 16) as [E1 E2]; [lia..|].
    destruct (join_digits (b mod 16) 0 4) as [E3 E4]; [lia..|]. rewrite Z.add_0_r in E3, E4.
    rewrite E1, E2, E3, E4, bool_decide_true by done. cbn [andb Z.eqb]. do 2 f_equal; [lia|f_equal; lia].
  - destruct (quarter a 4) as (? & ? & Ea); [lia..|]. destruct (quarter b 16) as (? & ? & Eb); [lia..|].
    destruct (quarter c 64) as (? & ? & Ec); [lia..|].
    cbn [encode decode]. rewrite !char_digit_char by lia. cbn [mbind option_bind].
    rewrite (digit_char_not_pad (c mod 64)), andb_false_r by lia. cbn [mbind option_bind].
    rewrite IH by (done || lia). cbn [mbind option_bind].
    destruct (join_digits (a mod 4) (b / 16) 16) as [E1 E2]; [lia..|].
    destruct (join_digits (b mod 16) (c / 64) 4) as [E3 E4]; [lia..|].
    rewrite E1, E2, E3, E4. repeat f_equal; lia.
Qed.

Lemma length_encode (bytes : list Z) :
  Z.of_nat (length (encode bytes)) = (Z.of_nat (length bytes) + 2) / 3 * 4.
Proof.
  assert (∀ n bytes, (length bytes ≤ n)%nat →
    Z.of_nat (length (encode bytes)) = (Z.of_nat (length bytes) + 2) / 3 * 4) as H;
    [|by apply (H (length bytes))].
  induction n as [|n IH]; intros [|a [|b [|c l]]] Hn; try done; cbn [length] in Hn; try lia.
  cbn [encode length]. rewrite !Nat2Z.inj_succ, IH by lia.
  replace (Z.succ (Z.succ (Z.succ (Z.of_nat (length l)))) + 2) with (1 * 3 + (Z.of_nat (length l) + 2)) by lia.
  rewrite Z.div_add_l by lia. lia.
Qed.

#[global] Instance api : Base64Api := {| base64_encode := encode; base64_decode := decode |}.

#[global] Instance laws : Base64Laws api.
Proof. constructor; [apply base64_decode_encode|apply length_encode]. Qed.

End Rfc4648.

(** ** A sample *)

Module ReportsSample.
Import DigestSample Rfc4648.

#[global] Instance NetworkReportRequest_words : Words NetworkReportRequest.
Proof.
  refine (words_via (λ r, (nrr_schema_version r, nrr_offset r))
    (λ '(v, o), {| nrr_schema_version := v; nrr_offset := o |}) _).
  by intros [].
Defined.

#[global] Instance NetworkReportChunk_words : Words NetworkReportChunk.
Proof.
  refine (words_via
    (λ c, (nrc_schema_version c, nrc_offset c, nrc_total_bytes c, nrc_sha256 c, nrc_chunk_base64 c))
    (λ '(v, o, t, s, b), {| nrc_schema_version := v; nrc_offset := o; nrc_total_bytes := t;
                            nrc_sha256 := s; nrc_chunk_base64 := b |}) _).
  by intros [].
Defined.

#[global] Instance request_serde : Serde NetworkReportRequest := words_serde NetworkReportRequest.
#[global] Instance chunk_serde : Serde NetworkReportChunk := words_serde NetworkReportChunk.
#[global] Instance request_laws : SerdeLaws NetworkReportRequest := words_serde_laws _.
#[global] Instance chunk_laws : SerdeLaws NetworkReportChunk := words_serde_laws _.

(** One source, with an empty status. *)
Definition source : NetworkReportSource :=
  {| nrs_role := str "workload"; nrs_configured_policy := JNull;
     nrs_report := {| src_path := str "/s"; src_expected_uid := 0; src_expected_gid := 0;
                      src_maximum_bytes := 100 |} |}.

Definition gateways : Map :=
  [(str "workload", JObject [(str "configured_policy", JNull); (str "github_meta", JNull)])].

(** A report of more than one chunk, and its reader. *)
Definition bytes : list Z := replicate (Z.to_nat 40000) 120.

#[global] Instance json_serde : Serde Json := {|
  to_vec _ := Ok bytes;
  from_slice text := if (length text =? 0)%nat then Ok JNull else Ok (network_document gateways);
|}.

Definition read_file (_ : PackageReportSource) (_ : Z) : GuestResult (list Z) := Ok [].

Lemma bytes_length : length bytes = Z.to_nat 40000.
Proof. apply length_replicate. Qed.

(** The host reads the two chunks. *)
Lemma network_report_delivered_witness :
  read_network_report _ (guest_peer read_file [source]) network_rounds [] None None =
  Some (Ok {| gnr_sha256 := sha256_label bytes; gnr_report := network_document gateways |}).
Proof.
  apply (network_report_delivered read_file [source] gateways bytes).
  - by left.
  - reflexivity.
  - reflexivity.
  - unfold from_slice, json_serde. rewrite bytes_length. reflexivity.
  - unfold bytes. apply Forall_replicate. unfold is_byte. lia.
  - unfold zlength. rewrite bytes_length, Z2Nat.id by lia. unfold MAX_NETWORK_REPORT_BYTES. lia.
Defined.

(** A collection with an empty artifact. *)
Lemma collection_roundtrip_witness :
  new_collection [] [1; 2] =
    Ok {| soc_schema_version := 1; soc_artifact_base64 := []; soc_seal_base64 := str "AQI=" |} ∧
  decode_collection
    {| soc_schema_version := 1; soc_artifact_base64 := []; soc_seal_base64 := str "AQI=" |} =
    Ok ([], [1; 2]).
Proof.
  assert (new_collection [] [1; 2] =
    Ok {| soc_schema_version := 1; soc_artifact_base64 := []; soc_seal_base64 := str "AQI=" |}) as E
    by (vm_compute; reflexivity).
  split; [exact E|]. apply (collection_roundtrip [] [1; 2]); [constructor| |exact E].
  repeat constructor; lia.
Defined.

End ReportsSample.
