(* ===== verification/Envelope.v ===== *)
(** * Secrets: names, stored records and session envelopes
      ([crates/sendbox-secrets/src/types.rs], [record.rs], [envelope.rs])

    A secret is sealed for one session, recipient, name, sequence number, expiry and policy, and
    is opened once.  The authenticated cipher (XChaCha20-Poly1305) is the interface [AeadApi]
    with the law that what is encrypted is decrypted; HKDF is [KdfApi], CBOR is [CborApi] and
    the normalization of Unicode is [NfcApi].

    The theorems show that what is sealed opens to the value that was sealed; that without a
    forgery whatever opens was sealed for exactly the binding that was expected; that no
    envelope opens twice while the clock does not go back; that an issuer never uses a nonce or
    a sequence number twice; and the round trip of stored records. *)

From S2P Require Import Prelude RustStr ProtoTypes ProtoCodec ProtoFrame ProtoHandshake.

(** ** Names and values ([types.rs]) *)

Definition MAX_SECRET_NAME_BYTES : Z := 128.
Definition MAX_SECRET_VALUE_BYTES : Z := 64 * 1024.

Inductive SecretStoreError : Type :=
| Corrupt (detail : list Z)
| CorruptEncoding
| InvalidName (detail : list Z)
| ValueTooLarge (maximum : Z).

(** [Display]; [CorruptEncoding] carries a text of the CBOR library. *)
Definition store_error_text (cbor_text : list Z) (error : SecretStoreError) : list Z :=
  match error with
  | Corrupt detail => str "corrupt secret record: " ++ detail
  | CorruptEncoding => str "corrupt secret record: " ++ cbor_text
  | InvalidName detail => str "invalid secret name: " ++ detail
  | ValueTooLarge maximum => str "secret value exceeds " ++ show_dec maximum ++ str " bytes"
  end.

(** The NFC form of a string (the crate [unicode_normalization]). *)
Class NfcApi : Type := { nfc : list Z → list Z }.

Section Names.
Context {unicode : NfcApi}.

(** [SecretName::new] *)
Definition secret_name (value : list Z) : result SecretStoreError (list Z) :=
  if bool_decide (value = []) then Err (InvalidName (str "name cannot be empty"))
  else if MAX_SECRET_NAME_BYTES <? Z.of_nat (length value)
  then Err (InvalidName (str "name exceeds 128 UTF-8 bytes"))
  else if has_control value then Err (InvalidName (str "name cannot contain control characters"))
  else if negb (bool_decide (nfc value = value))
  then Err (InvalidName (str "name must use NFC Unicode normalization"))
  else Ok value.

(** [SecretValue::new] *)
Definition secret_value (value : list Z) : result SecretStoreError (list Z) :=
  if MAX_SECRET_VALUE_BYTES <? Z.of_nat (length value) then Err (ValueTooLarge MAX_SECRET_VALUE_BYTES)
  else Ok value.

End Names.

Inductive RecordVersion : Type := SwiftLegacy | V1.

Record SecretMetadata : Type := {
  md_name : list Z;
  md_created_at_unix_ms : Z;
  md_updated_at_unix_ms : Z;
  md_version : RecordVersion;
}.

Record Secret : Type := {
  s_metadata : SecretMetadata;
  s_value : list Z;
}.

(** ** Reading CBOR

    An error of the library carries a text that is not modelled. *)

(** A list of [n] elements, or of unknown length. *)
Definition counted_array {cbor : CborApi} (n : Z) (l : list Z) : option (bool * list Z) :=
  match get_array l with
  | Some (Some length, r) => Some (length =? n, r)
  | Some (None, r) => Some (true, r)
  | None => None
  end.

(** ** Stored records ([record.rs]) *)

Definition RECORD_MAGIC : list Z := 255 :: str "SBXSECRET" ++ [1].
Definition RECORD_VERSION : Z := 1.
Definition MAX_RECORD_BYTES : Z := MAX_SECRET_VALUE_BYTES + 1024.

Section Records.
Context {unicode : NfcApi} {cbor : CborApi}.

(** The encoder writes to a growing vector and cannot fail. *)
Definition encode_record (secret : Secret) : list Z :=
  RECORD_MAGIC ++
  cbor_array 5 ++ cbor_uint RECORD_VERSION ++ cbor_str (md_name (s_metadata secret)) ++
  cbor_uint (md_created_at_unix_ms (s_metadata secret)) ++
  cbor_uint (md_updated_at_unix_ms (s_metadata secret)) ++ cbor_bytes (s_value secret).

Definition cbor_read {A : Type} (f : list Z → option (A * list Z)) (l : list Z)
  : result SecretStoreError (A * list Z) := ok_or (f l) CorruptEncoding.

(** [now] is the clock, read for a record of the old format. *)
Definition decode_record (now : Z) (bytes : list Z) : result SecretStoreError Secret :=
  if MAX_RECORD_BYTES <? Z.of_nat (length bytes)
  then Err (Corrupt (str "record exceeds maximum encoded size"))
  else
    match strip_prefix RECORD_MAGIC bytes with
    | None =>
        let? value := secret_value bytes in
        let? name := secret_name (str "legacy-placeholder") in
        Ok {| s_metadata := {| md_name := name; md_created_at_unix_ms := now;
                               md_updated_at_unix_ms := now; md_version := SwiftLegacy |};
              s_value := value |}
    | Some payload =>
        let? ' (counted, l) := cbor_read (counted_array 5) payload in
        if negb counted then Err (Corrupt (str "record field count is invalid"))
        else
          let? ' (version, l) := cbor_read (get_uint u8_max) l in
          if negb (version =? RECORD_VERSION)
          then Err (Corrupt (str "unsupported record version " ++ show_dec version))
          else
            let? ' (name, l) := cbor_read get_str l in
            let? name := secret_name name in
            let? ' (created, l) := cbor_read (get_uint u64_max) l in
            let? ' (updated, l) := cbor_read (get_uint u64_max) l in
            if updated <? created then Err (Corrupt (str "updated timestamp predates creation"))
            else
              let? ' (value, l) := cbor_read get_bytes l in
              let? value := secret_value value in
              if negb (bool_decide (l = [])) then Err (Corrupt (str "record contains trailing data"))
              else
                Ok {| s_metadata := {| md_name := name; md_created_at_unix_ms := created;
                                       md_updated_at_unix_ms := updated; md_version := V1 |};
                      s_value := value |}
    end.

Definition decode_for_name (name bytes : list Z) (now legacy_created legacy_updated : Z)
  : result SecretStoreError Secret :=
  let? secret := decode_record now bytes in
  match md_version (s_metadata secret) with
  | SwiftLegacy =>
      Ok {| s_metadata := {| md_name := name; md_created_at_unix_ms := legacy_created;
                             md_updated_at_unix_ms := legacy_updated; md_version := SwiftLegacy |};
            s_value := s_value secret |}
  | V1 =>
      if negb (bool_decide (md_name (s_metadata secret) = name))
      then Err (Corrupt (str "record name does not match encoded filename or account"))
      else Ok secret
  end.

End Records.

(** ** Envelopes ([envelope.rs]) *)

Definition ENVELOPE_MAGIC : list Z := 255 :: str "SBXENVELOPE" ++ [2].
Definition ENVELOPE_VERSION : Z := 2.
Definition ENVELOPE_DOMAIN : list Z := str "sendbox session secret envelope v2".
Definition ENVELOPE_SALT_DOMAIN : list Z := str "sendbox session secret envelope hkdf salt v2".
Definition ENVELOPE_KEY_DOMAIN : list Z := str "sendbox session secret envelope key v2".
Definition ENVELOPE_NONCE_BYTES : nat := 24.
Definition POLICY_DIGEST_BYTES : nat := 32.
Definition MAX_ENVELOPE_BYTES : Z := MAX_SECRET_VALUE_BYTES + 2048.
Definition DEFAULT_REPLAY_ENTRIES : Z := 4096.

Inductive RecipientRole : Type := Host | Guest.

#[global] Instance RecipientRole_eq_dec : EqDecision RecipientRole.
Proof. solve_decision. Defined.

Definition role_code (role : RecipientRole) : Z := match role with Host => 1 | Guest => 2 end.

#[global] Instance RecipientRole_countable : Countable RecipientRole.
Proof.
  refine (inj_countable' (λ role, bool_decide (role = Host)) (λ b : bool, if b then Host else Guest) _).
  by intros [].
Defined.

Record EnvelopeBinding : Type := {
  eb_session_id : list Z;
  eb_recipient : RecipientRole;
  eb_secret_name : list Z;
  eb_sequence : Z;
  eb_expires_at_unix_ms : Z;
  eb_policy_digest : list Z;
  eb_boundary_plan_digest : list Z;
}.

#[global] Instance EnvelopeBinding_eq_dec : EqDecision EnvelopeBinding.
Proof. solve_decision. Defined.

Inductive EnvelopeError : Type :=
| KeyMaterialTooShort
| TooLarge
| MalformedEnvelope (detail : list Z)
| MalformedCbor
| BindingMismatch
| AuthenticationFailed
| Expired
| Replay
| ReplayWindowFull
| DuplicateIssuance
| RandomFailed (detail : list Z)
| KeyDerivation.

(** [Display]; an error of the CBOR library carries its text. *)
Definition envelope_error_text (cbor_text : list Z) (error : EnvelopeError) : list Z :=
  match error with
  | KeyMaterialTooShort => str "session key material must contain at least 32 bytes"
  | TooLarge => str "secret envelope exceeds the maximum size"
  | MalformedEnvelope detail => str "secret envelope is malformed: " ++ detail
  | MalformedCbor => str "secret envelope is malformed: " ++ cbor_text
  | BindingMismatch => str "secret envelope binding does not match the expected context"
  | AuthenticationFailed => str "secret envelope authentication failed"
  | Expired => str "secret envelope has expired"
  | Replay => str "secret envelope replay detected"
  | ReplayWindowFull => str "secret envelope replay window is full"
  | DuplicateIssuance => str "secret envelope nonce or sequence was already issued"
  | RandomFailed detail => str "secure random number generation failed: " ++ detail
  | KeyDerivation => str "secret envelope key derivation failed"
  end.

Notation EnvelopeResult := (result EnvelopeError).

Definition role_from_code (code : Z) : EnvelopeResult RecipientRole :=
  match code with
  | 1 => Ok Host
  | 2 => Ok Guest
  | _ => Err (MalformedEnvelope (str "unknown recipient role " ++ show_dec code))
  end.

(** [SessionKeyMaterial::new] *)
Definition key_material (bytes : list Z) : EnvelopeResult (list Z) :=
  if (length bytes <? 32)%nat then Err KeyMaterialTooShort else Ok bytes.

(** *** Replays *)

Record ReplayIdentity : Type := {
  ri_session_id : list Z;
  ri_recipient : RecipientRole;
  ri_secret_name : list Z;
  ri_sequence : Z;
  ri_nonce : list Z;
}.

#[global] Instance ReplayIdentity_eq_dec : EqDecision ReplayIdentity.
Proof. solve_decision. Defined.

#[global] Instance ReplayIdentity_countable : Countable ReplayIdentity.
Proof.
  refine (inj_countable'
    (λ i, (ri_session_id i, ri_recipient i, ri_secret_name i, ri_sequence i, ri_nonce i))
    (λ '(s, r, n, q, o), {| ri_session_id := s; ri_recipient := r; ri_secret_name := n;
                            ri_sequence := q; ri_nonce := o |}) _).
  by intros [].
Defined.

Record ReplayGuard : Type := {
  rg_maximum_entries : Z;
  rg_accepted : gmap ReplayIdentity Z;
}.

Definition new_guard (maximum_entries : Z) : ReplayGuard :=
  {| rg_maximum_entries := maximum_entries; rg_accepted := ∅ |}.

(** [ReplayGuard::default] *)
Definition default_guard : ReplayGuard := new_guard DEFAULT_REPLAY_ENTRIES.

(** What has expired is forgotten, whatever the answer. *)
Definition accept (guard : ReplayGuard) (identity : ReplayIdentity) (expires_at now : Z)
  : EnvelopeResult unit * ReplayGuard :=
  let accepted := filter (λ kv, now < kv.2) (rg_accepted guard) in
  let kept := {| rg_maximum_entries := rg_maximum_entries guard; rg_accepted := accepted |} in
  if bool_decide (is_Some (accepted !! identity)) then (Err Replay, kept)
  else if rg_maximum_entries guard <=? Z.of_nat (size accepted) then (Err ReplayWindowFull, kept)
  else (Ok tt, {| rg_maximum_entries := rg_maximum_entries guard;
                  rg_accepted := <[identity := expires_at]> accepted |}).

(** *** The cipher *)

(** XChaCha20-Poly1305 with a key of 32 bytes and a nonce of 24: a nonce, the associated data
    and the message. *)
Class AeadApi : Type := {
  aead_encrypt : list Z → list Z → list Z → list Z → option (list Z);
  aead_decrypt : list Z → list Z → list Z → list Z → option (list Z);
}.

Class AeadLaws (api : AeadApi) : Prop := {
  aead_decrypt_encrypt key nonce aad message ciphertext :
    aead_encrypt key nonce aad message = Some ciphertext →
    aead_decrypt key nonce aad ciphertext = Some message;
  aead_length key nonce aad message ciphertext :
    aead_encrypt key nonce aad message = Some ciphertext →
    length ciphertext = (length message + 16)%nat;
}.

Record EnvelopeCipher : Type := {
  ec_session_id : list Z;
  ec_key : list Z;
  ec_issued_sequences : gset Z;
  ec_issued_nonces : gset (list Z);
}.

Record DecodedEnvelope : Type := {
  de_binding : EnvelopeBinding;
  de_nonce : list Z;
  de_ciphertext : list Z;
}.

Section Envelopes.
Context {unicode : NfcApi} {cbor : CborApi} {kdf : KdfApi} {aead : AeadApi}.

Definition derive_key (material session_id : list Z) : list Z :=
  hkdf_sha256 (sha256 (ENVELOPE_SALT_DOMAIN ++ session_id)) material ENVELOPE_KEY_DOMAIN.

(** [EnvelopeCipher::new]; the key has a length that HKDF can give *)
Definition new_cipher (material session_id : list Z) : EnvelopeCipher :=
  {| ec_session_id := session_id; ec_key := derive_key material session_id;
     ec_issued_sequences := ∅; ec_issued_nonces := ∅ |}.

Definition encode_aad (binding : EnvelopeBinding) : list Z :=
  cbor_array 8 ++ cbor_bytes ENVELOPE_DOMAIN ++ cbor_bytes (eb_session_id binding) ++
  cbor_uint (role_code (eb_recipient binding)) ++ cbor_str (eb_secret_name binding) ++
  cbor_uint (eb_sequence binding) ++ cbor_uint (eb_expires_at_unix_ms binding) ++
  cbor_bytes (eb_policy_digest binding) ++ cbor_bytes (eb_boundary_plan_digest binding).

Definition envelope_bytes (e : DecodedEnvelope) : list Z :=
  ENVELOPE_MAGIC ++
  cbor_array 10 ++ cbor_uint ENVELOPE_VERSION ++ cbor_bytes (eb_session_id (de_binding e)) ++
  cbor_uint (role_code (eb_recipient (de_binding e))) ++
  cbor_str (eb_secret_name (de_binding e)) ++ cbor_uint (eb_sequence (de_binding e)) ++
  cbor_uint (eb_expires_at_unix_ms (de_binding e)) ++
  cbor_bytes (eb_policy_digest (de_binding e)) ++
  cbor_bytes (eb_boundary_plan_digest (de_binding e)) ++
  cbor_bytes (de_nonce e) ++ cbor_bytes (de_ciphertext e).

Definition encode_envelope (e : DecodedEnvelope) : EnvelopeResult (list Z) :=
  if MAX_ENVELOPE_BYTES <? Z.of_nat (length (envelope_bytes e)) then Err TooLarge
  else Ok (envelope_bytes e).

Definition envelope_read {A : Type} (f : list Z → option (A * list Z)) (l : list Z)
  : EnvelopeResult (A * list Z) := ok_or (f l) MalformedCbor.

(** [copy_array] of what [decoder.bytes()] gives *)
Definition copy_array (n : nat) (field : string) (l : list Z) : EnvelopeResult (list Z * list Z) :=
  let? ' (b, r) := envelope_read get_bytes l in
  if (length b =? n)%nat then Ok (b, r)
  else Err (MalformedEnvelope (str field ++ str " has invalid length")).

Definition decode_envelope (encoded : list Z) : EnvelopeResult DecodedEnvelope :=
  if MAX_ENVELOPE_BYTES <? Z.of_nat (length encoded) then Err TooLarge
  else
    let? payload := ok_or (strip_prefix ENVELOPE_MAGIC encoded)
                      (MalformedEnvelope (str "invalid envelope magic")) in
    let? ' (counted, l) := envelope_read (counted_array 10) payload in
    if negb counted then Err (MalformedEnvelope (str "invalid envelope field count"))
    else
      let? ' (version, l) := envelope_read (get_uint u8_max) l in
      if negb (version =? ENVELOPE_VERSION)
      then Err (MalformedEnvelope (str "unsupported envelope version " ++ show_dec version))
      else
        let? ' (session_id, l) := copy_array 16 "session ID" l in
        let? ' (code, l) := envelope_read (get_uint u8_max) l in
        let? recipient := role_from_code code in
        let? ' (name, l) := envelope_read get_str l in
        let? name := map_err (λ e, MalformedEnvelope (store_error_text [] e)) (secret_name name) in
        let? ' (sequence, l) := envelope_read (get_uint u64_max) l in
        let? ' (expires_at, l) := envelope_read (get_uint u64_max) l in
        let? ' (policy, l) := copy_array POLICY_DIGEST_BYTES "policy digest" l in
        let? ' (plan, l) := copy_array POLICY_DIGEST_BYTES "boundary plan digest" l in
        let? ' (nonce, l) := copy_array ENVELOPE_NONCE_BYTES "nonce" l in
        let? ' (ciphertext, l) := envelope_read get_bytes l in
        if (length ciphertext <? 16)%nat ||
           (MAX_SECRET_VALUE_BYTES + 16 <? Z.of_nat (length ciphertext))
        then Err (MalformedEnvelope (str "ciphertext size is outside allowed bounds"))
        else if negb (bool_decide (l = []))
        then Err (MalformedEnvelope (str "envelope contains trailing data"))
        else
          Ok {| de_binding := {| eb_session_id := session_id; eb_recipient := recipient;
                                 eb_secret_name := name; eb_sequence := sequence;
                                 eb_expires_at_unix_ms := expires_at; eb_policy_digest := policy;
                                 eb_boundary_plan_digest := plan |};
                de_nonce := nonce; de_ciphertext := ciphertext |}.

Definition identity_of (e : DecodedEnvelope) : ReplayIdentity :=
  {| ri_session_id := eb_session_id (de_binding e); ri_recipient := eb_recipient (de_binding e);
     ri_secret_name := eb_secret_name (de_binding e); ri_sequence := eb_sequence (de_binding e);
     ri_nonce := de_nonce e |}.

(** Everything of [EnvelopeCipher::open] before the replay guard is asked. *)
Definition open_checked (cipher : EnvelopeCipher) (encoded : list Z) (expected : EnvelopeBinding)
    (now : Z) : EnvelopeResult (DecodedEnvelope * list Z) :=
  let? e := decode_envelope encoded in
  if negb (bool_decide (de_binding e = expected)) ||
     negb (bool_decide (eb_session_id (de_binding e) = ec_session_id cipher))
  then Err BindingMismatch
  else if eb_expires_at_unix_ms (de_binding e) <=? now then Err Expired
  else if negb (length (ec_key cipher) =? 32)%nat then Err KeyDerivation
  else
    let? plaintext := ok_or (aead_decrypt (ec_key cipher) (de_nonce e) (encode_aad (de_binding e))
                               (de_ciphertext e)) AuthenticationFailed in
    let? value := map_err (λ _, TooLarge) (secret_value plaintext) in
    Ok (e, value).

(** [EnvelopeCipher::open] *)
Definition open (cipher : EnvelopeCipher) (encoded : list Z) (expected : EnvelopeBinding)
    (guard : ReplayGuard) (now : Z) : EnvelopeResult (list Z) * ReplayGuard :=
  match open_checked cipher encoded expected now with
  | Err e => (Err e, guard)
  | Ok (e, value) =>
      match accept guard (identity_of e) (eb_expires_at_unix_ms (de_binding e)) now with
      | (Ok _, guard) => (Ok value, guard)
      | (Err error, guard) => (Err error, guard)
      end
  end.

(** The sequence and the nonce count as issued whatever comes after; a nonce has 24 bytes by its
    type. *)
Definition seal_with_nonce (cipher : EnvelopeCipher) (binding : EnvelopeBinding) (value nonce : list Z)
  : EnvelopeResult (list Z) * EnvelopeCipher :=
  if negb (bool_decide (eb_session_id binding = ec_session_id cipher)) then (Err BindingMismatch, cipher)
  else if bool_decide (eb_sequence binding ∈ ec_issued_sequences cipher)
  then (Err DuplicateIssuance, cipher)
  else
    let issued := {| ec_session_id := ec_session_id cipher; ec_key := ec_key cipher;
                     ec_issued_sequences := {[ eb_sequence binding ]} ∪ ec_issued_sequences cipher;
                     ec_issued_nonces := {[ nonce ]} ∪ ec_issued_nonces cipher |} in
    if bool_decide (nonce ∈ ec_issued_nonces cipher) then (Err DuplicateIssuance, issued)
    else
      (let? ciphertext :=
         if negb (length (ec_key cipher) =? 32)%nat then Err KeyDerivation
         else ok_or (aead_encrypt (ec_key cipher) nonce (encode_aad binding) value)
                AuthenticationFailed in
       encode_envelope {| de_binding := binding; de_nonce := nonce; de_ciphertext := ciphertext |},
       issued).

(** [EnvelopeCipher::seal], with the nonce that the operating system gives *)
Definition seal (cipher : EnvelopeCipher) (binding : EnvelopeBinding) (value : list Z)
    (random : result (list Z) (list Z)) : EnvelopeResult (list Z) * EnvelopeCipher :=
  match random with
  | Err detail => (Err (RandomFailed detail), cipher)
  | Ok nonce => seal_with_nonce cipher binding value nonce
  end.

(** ** Well-formed bindings: the values the Rust types hold *)

Record wf_binding (b : EnvelopeBinding) : Prop := {
  wf_session : length (eb_session_id b) = 16%nat;
  wf_name : secret_name (eb_secret_name b) = Ok (eb_secret_name b);
  wf_name_utf8 : from_utf8 (eb_secret_name b) = Some (eb_secret_name b);
  wf_sequence : in_u u64_max (eb_sequence b);
  wf_expires : in_u u64_max (eb_expires_at_unix_ms b);
  wf_policy : length (eb_policy_digest b) = POLICY_DIGEST_BYTES;
  wf_plan : length (eb_boundary_plan_digest b) = POLICY_DIGEST_BYTES;
}.

Context {cbor_laws : CborLaws cbor}.

Lemma secret_name_length (name valid : list Z) :
  secret_name name = Ok valid → valid = name ∧ wf_len name.
Proof.
  unfold secret_name, wf_len, MAX_SECRET_NAME_BYTES, u64_max. repeat destruct_match; try done.
  intros [= <-]. bool_to_prop. split; [done|lia].
Qed.

Lemma wf_len_of (n : nat) (b : list Z) : length b = n → (n ≤ 1000)%nat → wf_len b.
Proof. unfold wf_len, u64_max. lia. Qed.

Lemma role_from_code_code (role : RecipientRole) : role_from_code (role_code role) = Ok role.
Proof. by destruct role. Qed.

Lemma role_code_u8 (role : RecipientRole) : in_u u8_max (role_code role).
Proof. by destruct role. Qed.

Lemma envelope_read_put {A : Type} (f : list Z → option (A * list Z)) (l r : list Z) (x : A) :
  f l = Some (x, r) → envelope_read f l = Ok (x, r).
Proof. unfold envelope_read. by intros ->. Qed.

Lemma copy_array_put (n : nat) (field : string) (b r : list Z) :
  length b = n → (n ≤ 1000)%nat → copy_array n field (cbor_bytes b ++ r) = Ok (b, r).
Proof.
  intros Hn Hle. unfold copy_array.
  rewrite (envelope_read_put _ _ r b) by (apply get_bytes_put; by eapply wf_len_of).
  cbn. by rewrite Hn, Nat.eqb_refl.
Qed.

Lemma counted_array_put (n : Z) (r : list Z) :
  in_u u64_max n → counted_array n (cbor_array n ++ r) = Some (true, r).
Proof. intros Hn. unfold counted_array. by rewrite get_array_put, Z.eqb_refl. Qed.

Lemma wf_name_len (b : EnvelopeBinding) : wf_binding b → wf_len (eb_secret_name b).
Proof. intros H. by destruct (secret_name_length _ _ (wf_name b H)). Qed.

(** What is encoded is decoded. *)
Lemma decode_encode_envelope (e : DecodedEnvelope) (bytes : list Z) :
  wf_binding (de_binding e) → length (de_nonce e) = ENVELOPE_NONCE_BYTES →
  (16 ≤ length (de_ciphertext e))%nat →
  Z.of_nat (length (de_ciphertext e)) ≤ MAX_SECRET_VALUE_BYTES + 16 →
  encode_envelope e = Ok bytes → decode_envelope bytes = Ok e.
Proof.
  intros Hb Hnonce Hlow Hhigh. unfold encode_envelope. destruct (Z.ltb_spec MAX_ENVELOPE_BYTES
    (Z.of_nat (length (envelope_bytes e)))) as [|Hsize]; [done|]. intros [= <-].
  unfold decode_envelope. rewrite (proj2 (Z.ltb_ge _ _)) by done.
  unfold envelope_bytes. rewrite (proj2 (strip_prefix_Some _ _ _) eq_refl). cbn [ok_or].
  rewrite (envelope_read_put _ _ _ _ (counted_array_put 10 _ ltac:(done))). cbn [negb].
  rewrite (envelope_read_put _ _ _ _ (get_uint_put u8_max ENVELOPE_VERSION _ ltac:(done) ltac:(done))).
  cbn [negb Z.eqb Pos.eqb ENVELOPE_VERSION].
  rewrite copy_array_put by (apply Hb || lia).
  rewrite (envelope_read_put _ _ _ _
    (get_uint_put u8_max _ _ (role_code_u8 _) ltac:(done))).
  rewrite role_from_code_code.
  rewrite (envelope_read_put _ _ _ _ (get_str_put _ _ (wf_name_len _ Hb) (wf_name_utf8 _ Hb))).
  rewrite (wf_name _ Hb). cbn [map_err].
  rewrite (envelope_read_put _ _ _ _ (get_uint_put u64_max _ _ (wf_sequence _ Hb) ltac:(done))).
  rewrite (envelope_read_put _ _ _ _ (get_uint_put u64_max _ _ (wf_expires _ Hb) ltac:(done))).
  rewrite copy_array_put by (apply Hb || done || (unfold POLICY_DIGEST_BYTES; lia)).
  rewrite copy_array_put by (apply Hb || done || (unfold POLICY_DIGEST_BYTES; lia)).
  rewrite copy_array_put by (apply Hnonce || done || (unfold ENVELOPE_NONCE_BYTES; lia)).
  assert (get_bytes (cbor_bytes (de_ciphertext e)) = Some (de_ciphertext e, [])) as Hct.
  { rewrite <-(app_nil_r (cbor_bytes _)) at 1. apply get_bytes_put.
    unfold MAX_SECRET_VALUE_BYTES in Hhigh. unfold u64_max. lia. }
  rewrite (envelope_read_put _ _ _ _ Hct).
  rewrite (proj2 (Nat.ltb_ge _ _)), (proj2 (Z.ltb_ge _ _)) by done. cbn [orb].
  rewrite bool_decide_true by done. cbn [negb]. by destruct e as [[] ? ?].
Qed.

(** What is decoded is a value of its type. *)
Lemma decode_envelope_wf (encoded : list Z) (e : DecodedEnvelope) :
  decode_envelope encoded = Ok e →
  wf_binding (de_binding e) ∧ length (de_nonce e) = ENVELOPE_NONCE_BYTES.
Proof.
  assert (∀ n field l b r, copy_array n field l = Ok (b, r) → length b = n) as Hcopy.
  { intros n field l b r. unfold copy_array. destruct (envelope_read get_bytes l) as [[b' r']|]; [|done].
    cbn. destruct (Nat.eqb_spec (length b') n) as [Hn|]; [|done]. by intros [= <- <-]. }
  assert (∀ m l v r, envelope_read (get_uint m) l = Ok (v, r) → in_u m v) as Hint.
  { intros m l v r. unfold envelope_read. destruct (get_uint m l) as [[v' r']|] eqn:E; [|done].
    intros [= <- <-]. by eapply get_uint_value. }
  assert (∀ l v r, envelope_read get_str l = Ok (v, r) → from_utf8 v = Some v) as Hstr.
  { intros l v r. unfold envelope_read. destruct (get_str l) as [[v' r']|] eqn:E; [|done].
    intros [= <- <-]. by eapply get_str_value. }
  unfold decode_envelope. repeat (destruct_match; try done).
  intros [= <-]. cbn [de_binding de_nonce].
  repeat match goal with
  | H : copy_array _ _ _ = Ok _ |- _ => apply Hcopy in H
  | H : envelope_read (get_uint _) _ = Ok _ |- _ => apply Hint in H
  | H : envelope_read get_str _ = Ok _ |- _ => apply Hstr in H
  end.
  match goal with H : map_err _ (secret_name ?x) = Ok ?y |- _ =>
    destruct (secret_name x) as [valid|] eqn:En; [|done]; cbn in H; injection H as <-;
    destruct (secret_name_length _ _ En) as [-> _] end.
  by split; [constructor|].
Qed.

(** The associated data say which binding they are for. *)
Lemma encode_aad_inj (a b : EnvelopeBinding) :
  wf_binding a → wf_binding b → encode_aad a = encode_aad b → a = b.
Proof.
  intros Ha Hb Heq. unfold encode_aad in Heq.
  assert (∀ (x y r r' : list Z), wf_len x → wf_len y →
    cbor_bytes x ++ r = cbor_bytes y ++ r' → x = y ∧ r = r') as Hbytes.
  { intros x y r r' Hx Hy E. pose proof (get_bytes_put x r Hx) as H1.
    rewrite E, (get_bytes_put y r' Hy) in H1. by injection H1 as -> ->. }
  assert (∀ (m v w : Z) (r r' : list Z), m ≤ u64_max → in_u m v → in_u m w →
    cbor_uint v ++ r = cbor_uint w ++ r' → v = w ∧ r = r') as Hint.
  { intros m v w r r' Hm Hv Hw E. pose proof (get_uint_put m v r Hv Hm) as H1.
    rewrite E, (get_uint_put m w r' Hw Hm) in H1. by injection H1 as -> ->. }
  pose proof (get_array_put 8 (cbor_bytes ENVELOPE_DOMAIN ++ cbor_bytes (eb_session_id a) ++
    cbor_uint (role_code (eb_recipient a)) ++ cbor_str (eb_secret_name a) ++
    cbor_uint (eb_sequence a) ++ cbor_uint (eb_expires_at_unix_ms a) ++
    cbor_bytes (eb_policy_digest a) ++ cbor_bytes (eb_boundary_plan_digest a)) ltac:(done)) as H.
  rewrite Heq, get_array_put in H by done. injection H as H. symmetry in H.
  apply Hbytes in H as [_ H]; [|unfold wf_len; vm_compute; done..].
  apply Hbytes in H as [E1 H]; [|eapply wf_len_of; [apply wf_session; done|lia]..].
  apply (Hint u8_max) in H as [E2 H]; [|done|apply role_code_u8..].
  pose proof (get_str_put _ (cbor_uint (eb_sequence a) ++ cbor_uint (eb_expires_at_unix_ms a) ++
    cbor_bytes (eb_policy_digest a) ++ cbor_bytes (eb_boundary_plan_digest a))
    (wf_name_len a Ha) (wf_name_utf8 a Ha)) as E3.
  rewrite H, (get_str_put _ _ (wf_name_len b Hb) (wf_name_utf8 b Hb)) in E3.
  injection E3 as E3 H'. symmetry in E3, H'.
  apply (Hint u64_max) in H' as [E4 H']; [|done|by apply wf_sequence..].
  apply (Hint u64_max) in H' as [E5 H']; [|done|by apply wf_expires..].
  apply Hbytes in H' as [E6 H'];
    [|eapply wf_len_of; [apply wf_policy; done|unfold POLICY_DIGEST_BYTES; lia]..].
  rewrite <-(app_nil_r (cbor_bytes (eb_boundary_plan_digest a))),
    <-(app_nil_r (cbor_bytes (eb_boundary_plan_digest b))) in H'.
  apply Hbytes in H' as [E7 _];
    [|eapply wf_len_of; [apply wf_plan; done|unfold POLICY_DIGEST_BYTES; lia]..].
  destruct a as [? ra ? ? ? ? ?], b as [? rb ? ? ? ? ?]. cbn in *. subst.
  by destruct ra, rb.
Qed.

(** ** Sealing *)

(** The issuer's part of a call that succeeds. *)
Lemma seal_ok (cipher cipher' : EnvelopeCipher) (binding : EnvelopeBinding) (value nonce encoded : list Z) :
  seal_with_nonce cipher binding value nonce = (Ok encoded, cipher') →
  eb_session_id binding = ec_session_id cipher ∧ length (ec_key cipher) = 32%nat ∧
  eb_sequence binding ∉ ec_issued_sequences cipher ∧ nonce ∉ ec_issued_nonces cipher ∧
  ∃ ciphertext,
    aead_encrypt (ec_key cipher) nonce (encode_aad binding) value = Some ciphertext ∧
    encode_envelope {| de_binding := binding; de_nonce := nonce; de_ciphertext := ciphertext |} =
    Ok encoded.
Proof.
  unfold seal_with_nonce.
  destruct (bool_decide_reflect (eb_session_id binding = ec_session_id cipher)) as [Hs|]; [|done].
  destruct (bool_decide_reflect (eb_sequence binding ∈ ec_issued_sequences cipher)) as [|Hq]; [done|].
  destruct (bool_decide_reflect (nonce ∈ ec_issued_nonces cipher)) as [|Hn]; [done|].
  destruct (Nat.eqb_spec (length (ec_key cipher)) 32) as [Hk|]; [|done]. cbn [negb].
  destruct (aead_encrypt _ _ _ _) as [ciphertext|]; [|done]. cbn. intros [= He <-].
  by split_and!; try exists ciphertext.
Qed.

(** The session and the key stay, and what was issued stays issued. *)
Lemma seal_keeps (cipher : EnvelopeCipher) (binding : EnvelopeBinding) (value nonce : list Z) :
  let cipher' := (seal_with_nonce cipher binding value nonce).2 in
  ec_session_id cipher' = ec_session_id cipher ∧ ec_key cipher' = ec_key cipher ∧
  ec_issued_sequences cipher ⊆ ec_issued_sequences cipher' ∧
  ec_issued_nonces cipher ⊆ ec_issued_nonces cipher'.
Proof. unfold seal_with_nonce. repeat destruct_match; cbn; split_and!; set_solver. Qed.

Lemma seal_issues (cipher cipher' : EnvelopeCipher) (binding : EnvelopeBinding) (value nonce encoded : list Z) :
  seal_with_nonce cipher binding value nonce = (Ok encoded, cipher') →
  eb_sequence binding ∈ ec_issued_sequences cipher' ∧ nonce ∈ ec_issued_nonces cipher'.
Proof.
  unfold seal_with_nonce. repeat (destruct_match; try done); intros [= _ <-]; cbn; set_solver.
Qed.

Context {aead_laws : AeadLaws aead}.

(** Whatever is sealed passes every check before the replay guard, with the value that was sealed. *)
Lemma open_checked_sealed (issuer issuer' opener : EnvelopeCipher) (binding : EnvelopeBinding)
    (value nonce encoded : list Z) (now : Z) :
  wf_binding binding → length nonce = ENVELOPE_NONCE_BYTES →
  Z.of_nat (length value) ≤ MAX_SECRET_VALUE_BYTES →
  seal_with_nonce issuer binding value nonce = (Ok encoded, issuer') →
  ec_session_id opener = ec_session_id issuer → ec_key opener = ec_key issuer →
  now < eb_expires_at_unix_ms binding →
  ∃ ciphertext,
    open_checked opener encoded binding now =
    Ok ({| de_binding := binding; de_nonce := nonce; de_ciphertext := ciphertext |}, value).
Proof.
  intros Hb Hn Hv Hseal Hs Hk Hnow.
  apply seal_ok in Hseal as (Hsession & Hkey & _ & _ & ciphertext & Henc & Hencode).
  exists ciphertext. pose proof (aead_length _ _ _ _ _ Henc) as Hlen.
  apply decode_encode_envelope in Hencode; [|cbn; try done; lia..].
  unfold open_checked. rewrite Hencode. cbn [de_binding de_nonce de_ciphertext].
  rewrite Hs, Hk, <-Hsession, !bool_decide_true by done. cbn [negb orb].
  rewrite (proj2 (Z.leb_gt _ _)) by done. rewrite Hkey. cbn [Nat.eqb negb].
  rewrite (aead_decrypt_encrypt _ _ _ _ _ Henc). cbn [ok_or].
  unfold secret_value. rewrite (proj2 (Z.ltb_ge _ _)) by done. done.
Qed.

Lemma accept_fresh (guard : ReplayGuard) (identity : ReplayIdentity) (expires_at now : Z) :
  rg_accepted guard !! identity = None →
  Z.of_nat (size (rg_accepted guard)) < rg_maximum_entries guard →
  (accept guard identity expires_at now).1 = Ok tt.
Proof.
  intros Hnew Hroom. unfold accept.
  rewrite bool_decide_false.
  2: { intros [e He]. apply map_lookup_filter_Some in He as [He _]. congruence. }
  assert (Nat.le (size (filter (λ kv, now < kv.2) (rg_accepted guard))) (size (rg_accepted guard))).
  { apply map_subseteq_size, map_filter_subseteq. }
  by rewrite (proj2 (Z.leb_gt _ _)) by lia.
Qed.

(** What is sealed for a session opens in it, before it expires and when it was not opened
    before, to the value that was sealed. *)
Theorem sealed_secret_opens (issuer issuer' opener : EnvelopeCipher) (binding : EnvelopeBinding)
    (value nonce encoded : list Z) (guard : ReplayGuard) (now : Z) :
  wf_binding binding → length nonce = ENVELOPE_NONCE_BYTES →
  Z.of_nat (length value) ≤ MAX_SECRET_VALUE_BYTES →
  seal_with_nonce issuer binding value nonce = (Ok encoded, issuer') →
  ec_session_id opener = ec_session_id issuer → ec_key opener = ec_key issuer →
  now < eb_expires_at_unix_ms binding →
  rg_accepted guard !! {| ri_session_id := eb_session_id binding;
    ri_recipient := eb_recipient binding; ri_secret_name := eb_secret_name binding;
    ri_sequence := eb_sequence binding; ri_nonce := nonce |} = None →
  Z.of_nat (size (rg_accepted guard)) < rg_maximum_entries guard →
  (open opener encoded binding guard now).1 = Ok value.
Proof.
  intros Hb Hn Hv Hseal Hs Hk Hnow Hnew Hroom.
  destruct (open_checked_sealed issuer issuer' opener binding value nonce encoded now)
    as [ciphertext Hopen]; [done..|].
  unfold open. rewrite Hopen.
  pose proof (accept_fresh guard _ (eb_expires_at_unix_ms binding) now Hnew Hroom) as Ha.
  cbn [identity_of de_binding de_nonce] in *. unfold identity_of. cbn [de_binding de_nonce].
  destruct (accept _ _ _ _) as [r g]. cbn in Ha. by subst.
Qed.

(** ** Sessions of an issuer and of an opener *)

(** A call of [seal]: the binding, the value and the nonce. *)
Definition Issue : Type := EnvelopeBinding * list Z * list Z.

(** The calls of an issuer that succeed. *)
Fixpoint issue (cipher : EnvelopeCipher) (calls : list Issue) : list Issue :=
  match calls with
  | [] => []
  | (binding, value, nonce) :: calls =>
      match seal_with_nonce cipher binding value nonce with
      | (Ok _, cipher) => (binding, value, nonce) :: issue cipher calls
      | (Err _, cipher) => issue cipher calls
      end
  end.

Record OpenCall : Type := {
  oc_encoded : list Z;
  oc_expected : EnvelopeBinding;
  oc_now : Z;
}.

(** The calls of an opener that succeed, with the values. *)
Fixpoint open_all (cipher : EnvelopeCipher) (guard : ReplayGuard) (calls : list OpenCall)
  : list (OpenCall * list Z) :=
  match calls with
  | [] => []
  | call :: calls =>
      match open cipher (oc_encoded call) (oc_expected call) guard (oc_now call) with
      | (Ok value, guard) => (call, value) :: open_all cipher guard calls
      | (Err _, guard) => open_all cipher guard calls
      end
  end.

(** No call gives a ciphertext that the issuer did not make but that decrypts under the key. *)
Definition unforged (key : list Z) (issued : list Issue) (call : OpenCall) : Prop :=
  ∀ e, decode_envelope (oc_encoded call) = Ok e →
    is_Some (aead_decrypt key (de_nonce e) (encode_aad (de_binding e)) (de_ciphertext e)) →
    ∃ binding value, (binding, value, de_nonce e) ∈ issued ∧
      encode_aad binding = encode_aad (de_binding e) ∧
      aead_encrypt key (de_nonce e) (encode_aad binding) value = Some (de_ciphertext e).

(** An issuer uses no sequence number and no nonce twice. *)
Lemma issue_fresh (cipher : EnvelopeCipher) (calls : list Issue) :
  NoDup ((λ i : Issue, i.2) <$> issue cipher calls) ∧
  NoDup ((λ i : Issue, eb_sequence i.1.1) <$> issue cipher calls) ∧
  Forall (λ i : Issue, i.2 ∉ ec_issued_nonces cipher ∧
                       eb_sequence i.1.1 ∉ ec_issued_sequences cipher) (issue cipher calls).
Proof.
  revert cipher. induction calls as [|[[binding value] nonce] calls IH]; intros cipher.
  { split_and!; constructor. }
  cbn [issue]. pose proof (seal_keeps cipher binding value nonce) as (_ & _ & Hq & Hn).
  destruct (seal_with_nonce cipher binding value nonce) as [[encoded|error] cipher'] eqn:E;
    cbn [snd] in Hq, Hn; destruct (IH cipher') as (IH1 & IH2 & IH3).
  - pose proof (seal_ok _ _ _ _ _ _ E) as (_ & _ & Hq' & Hn' & _).
    pose proof (seal_issues _ _ _ _ _ _ E) as [Hq2 Hn2]. rewrite !fmap_cons.
    rewrite Forall_forall in IH3. split_and!.
    + constructor; [|done]. intros ([[b v] n] & Heq & Hin)%list_elem_of_fmap. cbn in Heq.
      destruct (IH3 _ Hin) as [Hx _]. cbn in Hx. congruence.
    + constructor; [|done]. intros ([[b v] n] & Heq & Hin)%list_elem_of_fmap. cbn in Heq.
      destruct (IH3 _ Hin) as [_ Hx]. cbn in Hx. congruence.
    + constructor; [done|]. apply Forall_forall. intros i Hin. destruct (IH3 i Hin). set_solver.
  - split_and!; [done..|]. eapply Forall_impl; [done|]. set_solver.
Qed.

(** What has been accepted, and what the guard remembers of it at a time. *)
Definition remembers (guard : ReplayGuard) (past : list (ReplayIdentity * Z)) (now : Z) : Prop :=
  ∀ identity expires_at, (identity, expires_at) ∈ past → now < expires_at →
    rg_accepted guard !! identity = Some expires_at.

Lemma accept_remembers (guard : ReplayGuard) (past : list (ReplayIdentity * Z))
    (identity : ReplayIdentity) (expires_at before now : Z) :
  remembers guard past before → before ≤ now → now < expires_at →
  match accept guard identity expires_at now with
  | (Ok _, guard) => (identity, expires_at) ∉ past ∧ remembers guard ((identity, expires_at) :: past) now
  | (Err _, guard) => remembers guard past now
  end.
Proof.
  intros Hr Hle Hlive. unfold accept.
  assert (remembers {| rg_maximum_entries := rg_maximum_entries guard;
    rg_accepted := filter (λ kv, now < kv.2) (rg_accepted guard) |} past now) as Hkept.
  { intros i e Hin He. cbn [rg_accepted]. apply map_lookup_filter_Some. split; [|done].
    apply Hr; [done|lia]. }
  destruct (bool_decide_reflect (is_Some (filter (λ kv, now < kv.2) (rg_accepted guard) !! identity)))
    as [|Hnew]; [done|].
  destruct (Z.leb_spec (rg_maximum_entries guard)
    (Z.of_nat (size (filter (λ kv, now < kv.2) (rg_accepted guard))))); [done|].
  split.
  - intros Hin. apply Hnew. by exists expires_at; apply Hkept.
  - intros i e [[= -> ->]|Hin]%elem_of_cons He; cbn [rg_accepted]; [by rewrite lookup_insert_eq|].
    pose proof (Hkept i e Hin He) as Hi. cbn [rg_accepted] in Hi.
    rewrite lookup_insert_ne; [done|]. intros ->. apply Hnew. by exists e.
Qed.

Lemma open_checked_ok (cipher : EnvelopeCipher) (encoded value : list Z) (expected : EnvelopeBinding)
    (now : Z) (e : DecodedEnvelope) :
  open_checked cipher encoded expected now = Ok (e, value) →
  decode_envelope encoded = Ok e ∧ de_binding e = expected ∧
  eb_session_id expected = ec_session_id cipher ∧ now < eb_expires_at_unix_ms expected ∧
  aead_decrypt (ec_key cipher) (de_nonce e) (encode_aad expected) (de_ciphertext e) = Some value.
Proof.
  unfold open_checked. destruct (decode_envelope encoded) as [e'|] eqn:Ed; [|done].
  destruct (bool_decide_reflect (de_binding e' = expected)) as [Hb|]; [|done].
  destruct (bool_decide_reflect (eb_session_id (de_binding e') = ec_session_id cipher)) as [Hs|]; [|done].
  cbn [negb orb]. destruct (Z.leb_spec (eb_expires_at_unix_ms (de_binding e')) now); [done|].
  destruct (negb _); [done|]. subst expected.
  destruct (aead_decrypt _ _ _ _) as [plaintext|] eqn:Ea; [|done]. cbn.
  unfold secret_value. destruct (_ <? _); [done|]. cbn. intros [= <- <-]. by split_and!.
Qed.

(** What opens was issued: for the binding that was expected, with the value that comes out. *)
Lemma open_checked_issued (cipher : EnvelopeCipher) (issued : list Issue) (call : OpenCall)
    (value : list Z) (e : DecodedEnvelope) :
  Forall (λ i : Issue, wf_binding i.1.1) issued → unforged (ec_key cipher) issued call →
  open_checked cipher (oc_encoded call) (oc_expected call) (oc_now call) = Ok (e, value) →
  (oc_expected call, value, de_nonce e) ∈ issued.
Proof.
  intros Hwf Hunforged Hopen.
  apply open_checked_ok in Hopen as (Hdecode & Hb & _ & _ & Hdecrypt).
  destruct (Hunforged e Hdecode) as (binding & value' & Hin & Haad & Henc).
  { rewrite Hb. by eexists. }
  rewrite Forall_forall in Hwf. pose proof (Hwf _ Hin) as Hwf'.
  apply encode_aad_inj in Haad; [|done|by eapply decode_envelope_wf].
  apply aead_decrypt_encrypt in Henc. rewrite Haad, Hb, Hdecrypt in Henc. injection Henc as <-.
  by rewrite <-Hb, <-Haad.
Qed.

(** The times of the calls do not go back. *)
Definition in_order (now : Z) (calls : list OpenCall) : Prop :=
  Sorted (λ a b, a ≤ b) (now :: (oc_now <$> calls)).

(** What an opener accepts: each issue once, after those of the past. *)
Lemma open_all_issued (cipher : EnvelopeCipher) (issued : list Issue) (calls : list OpenCall)
    (guard : ReplayGuard) (past : list (ReplayIdentity * Z)) (now : Z) :
  Forall (λ i : Issue, wf_binding i.1.1) issued → Forall (unforged (ec_key cipher) issued) calls →
  in_order now calls → remembers guard past now →
  ∃ opened : list Issue,
    Forall2 (λ '(call, value) i, i.1 = (oc_expected call, value)) (open_all cipher guard calls) opened ∧
    NoDup opened ∧ opened ⊆ issued ∧
    Forall (λ i : Issue,
      ({| ri_session_id := eb_session_id i.1.1; ri_recipient := eb_recipient i.1.1;
          ri_secret_name := eb_secret_name i.1.1; ri_sequence := eb_sequence i.1.1;
          ri_nonce := i.2 |}, eb_expires_at_unix_ms i.1.1) ∉ past) opened.
Proof.
  intros Hwf. revert guard past now. induction calls as [|call calls IH]; intros guard past now Hu Ho Hr.
  { exists []. split_and!; [constructor..|set_solver|constructor]. }
  apply Forall_cons in Hu as [Hcall Hu].
  assert (now ≤ oc_now call ∧ in_order (oc_now call) calls) as [Hle Ho'].
  { unfold in_order in *. rewrite fmap_cons in Ho. inversion Ho as [|? ? Hs Hh]; subst.
    inversion Hh; subst. done. }
  assert (remembers guard past (oc_now call)) as Hr'.
  { intros i e Hin He. apply Hr; [done|lia]. }
  cbn [open_all]. unfold open.
  destruct (open_checked cipher (oc_encoded call) (oc_expected call) (oc_now call))
    as [[e value]|error] eqn:Eo; [|by eapply IH].
  pose proof (open_checked_issued _ _ _ _ _ Hwf Hcall Eo) as Hin.
  apply open_checked_ok in Eo as (_ & Hb & _ & Hlive & _).
  pose proof (accept_remembers guard past (identity_of e) _ _ _ Hr Hle Hlive) as Ha.
  rewrite Hb. destruct (accept _ _ _ _) as [[[]|error] guard']; [|by eapply IH].
  destruct Ha as [Hnew Ha]. destruct (IH guard' _ _ Hu Ho' Ha) as (opened & H2 & Hnd & Hsub & Hp).
  exists ((oc_expected call, value, de_nonce e) :: opened).
  rewrite Forall_forall in Hp. unfold identity_of in *. rewrite Hb in *.
  split_and!.
  - by constructor.
  - constructor; [|done]. intros Hdup. apply (Hp _ Hdup). cbn. by left.
  - intros i [->|Hi]%elem_of_cons; [done|by apply Hsub].
  - constructor; [done|]. apply Forall_forall. intros i Hi Hpast. apply (Hp i Hi). by right.
Qed.

(** C12: Without a forgery, and while the clock does not go back, an opener accepts each secret that
    an issuer sealed at most once, only for the binding it was sealed for, and gets the value
    that was sealed; and no two of them have one nonce or one sequence number. *)
Theorem secrets_open_once (issuer opener : EnvelopeCipher) (issues : list Issue)
    (calls : list OpenCall) (maximum_entries : Z) :
  Forall (λ i : Issue, wf_binding i.1.1) issues →
  Forall (unforged (ec_key opener) (issue issuer issues)) calls →
  Sorted (λ a b, a ≤ b) (oc_now <$> calls) →
  ∃ opened : list Issue,
    Forall2 (λ '(call, value) i, i.1 = (oc_expected call, value))
      (open_all opener (new_guard maximum_entries) calls) opened ∧
    NoDup opened ∧ opened ⊆ issue issuer issues ∧
    NoDup ((λ i : Issue, i.2) <$> issue issuer issues) ∧
    NoDup ((λ i : Issue, eb_sequence i.1.1) <$> issue issuer issues).
Proof.
  intros Hwf Hu Ho. pose proof (issue_fresh issuer issues) as (Hn & Hq & _).
  assert (Forall (λ i : Issue, wf_binding i.1.1) (issue issuer issues)) as Hwf'.
  { apply Forall_forall. intros i Hi. rewrite Forall_forall in Hwf. apply Hwf.
    clear -Hi. revert issuer Hi. induction issues as [|[[b v] n] issues IH]; intros issuer; [done|].
    cbn [issue]. destruct (seal_with_nonce issuer b v n) as [[]]; set_solver. }
  destruct (open_all_issued opener _ calls (new_guard maximum_entries) []
    (hd 0 (oc_now <$> calls)) Hwf' Hu) as (opened & H2 & Hnd & Hsub & _).
  - unfold in_order. destruct calls; cbn; [repeat constructor|]. by constructor; [|constructor].
  - intros i e Hin. by apply elem_of_nil in Hin.
  - by exists opened.
Qed.

End Envelopes.

(** ** Records *)

Section RecordLemmas.
Context {unicode : NfcApi} {cbor : CborApi} {cbor_laws : CborLaws cbor}.

Lemma cbor_read_put {A : Type} (f : list Z → option (A * list Z)) (l r : list Z) (x : A) :
  f l = Some (x, r) → cbor_read f l = Ok (x, r).
Proof. unfold cbor_read. by intros ->. Qed.

(** A stored secret is read back under its name, and under no other. *)
Theorem stored_record_roundtrip (secret : Secret) (name : list Z) (now created updated : Z) :
  let m := s_metadata secret in
  secret_name (md_name m) = Ok (md_name m) → from_utf8 (md_name m) = Some (md_name m) →
  in_u u64_max (md_created_at_unix_ms m) → in_u u64_max (md_updated_at_unix_ms m) →
  md_created_at_unix_ms m ≤ md_updated_at_unix_ms m → md_version m = V1 →
  Z.of_nat (length (s_value secret)) ≤ MAX_SECRET_VALUE_BYTES →
  Z.of_nat (length (encode_record secret)) ≤ MAX_RECORD_BYTES →
  decode_for_name name (encode_record secret) now created updated =
  if bool_decide (md_name m = name) then Ok secret
  else Err (Corrupt (str "record name does not match encoded filename or account")).
Proof.
  intros m Hname Hutf8 Hc Hu Hle Hv Hvalue Hsize. unfold decode_for_name, decode_record.
  rewrite (proj2 (Z.ltb_ge _ _)) by done. unfold encode_record.
  rewrite (proj2 (strip_prefix_Some _ _ _) eq_refl).
  rewrite (cbor_read_put _ _ _ _ (counted_array_put 5 _ ltac:(done))). cbn [negb].
  rewrite (cbor_read_put _ _ _ _ (get_uint_put u8_max RECORD_VERSION _ ltac:(done) ltac:(done))).
  cbn [negb Z.eqb Pos.eqb RECORD_VERSION].
  destruct (secret_name_length _ _ Hname) as [_ Hlen].
  rewrite (cbor_read_put _ _ _ _ (get_str_put _ _ Hlen Hutf8)). fold m. rewrite Hname.
  rewrite (cbor_read_put _ _ _ _ (get_uint_put u64_max _ _ Hc ltac:(done))).
  rewrite (cbor_read_put _ _ _ _ (get_uint_put u64_max _ _ Hu ltac:(done))).
  rewrite (proj2 (Z.ltb_ge _ _)) by done.
  assert (get_bytes (cbor_bytes (s_value secret)) = Some (s_value secret, [])) as Hb.
  { rewrite <-(app_nil_r (cbor_bytes _)) at 1. apply get_bytes_put.
    unfold MAX_SECRET_VALUE_BYTES in Hvalue. unfold u64_max. lia. }
  rewrite (cbor_read_put _ _ _ _ Hb). unfold secret_value.
  rewrite (proj2 (Z.ltb_ge _ _)) by done. rewrite bool_decide_true by done. cbn [negb md_version s_metadata md_name].
  destruct (bool_decide_reflect (md_name m = name)); cbn [negb]; [|done].
  subst m. destruct secret as [[] ?]. cbn in *. by subst.
Qed.

End RecordLemmas.

(** ** An instance *)

Module EnvelopeSample.

(** Names of plain ASCII letters are in normal form. *)
#[global] Instance ascii_nfc : NfcApi := { nfc := id }.

Definition tag (key data : list Z) : list Z := take 16 (hmac_sha256 key data).

Lemma length_tag (key data : list Z) : length (tag key data) = 16%nat.
Proof. unfold tag. by rewrite length_take, hmac_length. Qed.

(** The message in the clear, with half of a keyed checksum. *)
#[global] Instance tagged : AeadApi := {
  aead_encrypt key nonce aad message :=
    Some (message ++ tag key (nonce ++ aad ++ message));
  aead_decrypt key nonce aad ciphertext :=
    let message := take (length ciphertext - 16) ciphertext in
    if bool_decide (drop (length ciphertext - 16) ciphertext =
                    tag key (nonce ++ aad ++ message))
    then Some message else None;
}.

#[global] Instance tagged_laws : AeadLaws tagged.
Proof.
  split; intros key nonce aad message ciphertext [= <-]; [|by rewrite length_app, length_tag].
  cbn [aead_decrypt tagged]. rewrite length_app, length_tag.
  replace (length message + 16 - 16)%nat with (length message) by lia.
  by rewrite take_app_length, drop_app_length, bool_decide_true.
Qed.

Import HandshakeSample Sample.

Definition binding : EnvelopeBinding :=
  {| eb_session_id := replicate 16 5; eb_recipient := Guest; eb_secret_name := str "TOKEN";
     eb_sequence := 7; eb_expires_at_unix_ms := 10000; eb_policy_digest := replicate 32 2;
     eb_boundary_plan_digest := replicate 32 4 |}.

Definition cipher : EnvelopeCipher := new_cipher (replicate 32 3) (replicate 16 5).
Definition nonce : list Z := replicate 24 9.
Definition value : list Z := str "secret".
Definition sealed : list Z :=
  match (seal_with_nonce cipher binding value nonce).1 with Ok encoded => encoded | Err _ => [] end.
Definition sealing : EnvelopeCipher := (seal_with_nonce cipher binding value nonce).2.

Lemma binding_wf : wf_binding binding.
Proof. split; vm_compute; try reflexivity; split; discriminate. Qed.

Lemma sealed_secret_opens_witness :
  (open cipher sealed binding default_guard 9999).1 = Ok value.
Proof.
  refine (sealed_secret_opens cipher sealing cipher binding value nonce sealed default_guard 9999
            binding_wf _ _ _ _ _ _ _ _); vm_compute; try reflexivity; discriminate.
Defined.

(** The envelope, the same again, and one with another last byte. *)
Definition calls : list OpenCall :=
  [{| oc_encoded := sealed; oc_expected := binding; oc_now := 5 |};
   {| oc_encoded := sealed; oc_expected := binding; oc_now := 6 |};
   {| oc_encoded := removelast sealed ++ [1]; oc_expected := binding; oc_now := 6 |}].

Definition unforged_b (key : list Z) (issued : list Issue) (call : OpenCall) : bool :=
  match decode_envelope (oc_encoded call) with
  | Err _ => true
  | Ok e =>
      match aead_decrypt key (de_nonce e) (encode_aad (de_binding e)) (de_ciphertext e) with
      | None => true
      | Some _ =>
          existsb (λ '(b, v, n), bool_decide (n = de_nonce e) &&
            bool_decide (encode_aad b = encode_aad (de_binding e)) &&
            bool_decide (aead_encrypt key n (encode_aad b) v = Some (de_ciphertext e))) issued
      end
  end.

Lemma unforged_b_true (key : list Z) (issued : list Issue) (call : OpenCall) :
  unforged_b key issued call = true → unforged key issued call.
Proof.
  unfold unforged_b. intros H e He [message Hm]. rewrite He, Hm in H.
  apply existsb_exists in H as ([[b v] n] & Hin & H).
  rewrite !andb_true_iff, !bool_decide_eq_true in H. destruct H as [[-> Haad] Henc].
  exists b, v. split_and!; [by apply list_elem_of_In|done|done].
Qed.

(** One of the three calls succeeds. *)
Lemma secrets_open_once_witness :
  ∃ opened : list Issue,
    Forall2 (λ '(call, value) i, i.1 = (oc_expected call, value))
      (open_all cipher (new_guard 4096) calls) opened ∧
    NoDup opened ∧ opened ⊆ issue cipher [(binding, value, nonce)] ∧
    NoDup ((λ i : Issue, i.2) <$> issue cipher [(binding, value, nonce)]) ∧
    NoDup ((λ i : Issue, eb_sequence i.1.1) <$> issue cipher [(binding, value, nonce)]).
Proof.
  apply (secrets_open_once cipher cipher [(binding, value, nonce)] calls 4096).
  - constructor; [exact binding_wf|constructor].
  - apply Forall_forall. intros call Hin. apply unforged_b_true. revert call Hin.
    apply Forall_forall. repeat constructor.
  - repeat constructor; discriminate.
Defined.

Example one_call_opens : length (open_all cipher (new_guard 4096) calls) = 1%nat.
Proof. vm_compute. reflexivity. Qed.

Definition stored : Secret :=
  {| s_metadata := {| md_name := str "TOKEN"; md_created_at_unix_ms := 10;
                      md_updated_at_unix_ms := 20; md_version := V1 |};
     s_value := [0; 255] |}.

Lemma stored_record_roundtrip_witness :
  decode_for_name (str "TOKEN") (encode_record stored) 0 0 0 = Ok stored.
Proof.
  refine (stored_record_roundtrip stored (str "TOKEN") 0 0 0 _ _ _ _ _ _ _ _);
    vm_compute; try reflexivity; try discriminate; split; discriminate.
Defined.

End EnvelopeSample.
