(* ===== verification/Credential.v ===== *)
(** * Credential policies ([crates/sendbox-secrets/src/credential.rs])

    A policy says where one secret may go: the host, the path prefix, the methods, the sizes of
    the bodies and the place in the request the secret is put at.  The crates [url] and [http]
    are the interfaces [UrlApi] and [HttpTypesApi], with the documented laws of the operations
    the policy relies on.

    The lemmas state what a policy that was accepted is, that a request is transformed exactly
    when it is for the policy's target, and that what comes out differs from what went in only
    at the place of the injection. *)

From S2P Require Import Prelude RustStr Net Envelope.

(** ** The crates [url] and [http] *)

Inductive UrlHost : Type :=
| HostDomain (domain : list Z)
| HostIpv4 (bits : Z)
| HostIpv6 (bits : Z).

Class UrlApi : Type := {
  Url : Type;
  url_parse : list Z → option Url;
  url_join : Url → list Z → option Url;
  url_text : Url → list Z;
  scheme : Url → list Z;
  username : Url → list Z;
  password : Url → option (list Z);
  host_str : Url → option (list Z);
  port_or_known_default : Url → option Z;
  url_path : Url → list Z;
  (** [query_pairs], decoded. *)
  query_pairs : Url → list (list Z * list Z);
  path_segments : Url → option (list (list Z));
  (** [query_pairs_mut().append_pair(name, value)] *)
  append_pair : list Z → list Z → Url → Url;
  (** [path_segments_mut()], [clear] and [extend] *)
  replace_segments : list (list Z) → Url → option Url;
  (** [Host::parse] *)
  host_parse : list Z → option UrlHost;
}.

(** What a client connects to for a URL, and the user it names. *)
Definition origin {urls : UrlApi} (url : Url)
  : list Z * list Z * option (list Z) * option (list Z) * option Z :=
  (scheme url, username url, password url, host_str url, port_or_known_default url).

Class UrlLaws (urls : UrlApi) : Prop := {
  append_pair_origin name value url : origin (append_pair name value url) = origin url;
  append_pair_path name value url : url_path (append_pair name value url) = url_path url;
  append_pair_query name value url :
    query_pairs (append_pair name value url) = query_pairs url ++ [(name, value)];
  replace_segments_origin segments url url' :
    replace_segments segments url = Some url' → origin url' = origin url;
  replace_segments_query segments url url' :
    replace_segments segments url = Some url' → query_pairs url' = query_pairs url;
  (** Both are there unless the URL cannot be a base. *)
  replace_segments_base segments url :
    is_Some (replace_segments segments url) ↔ is_Some (path_segments url);
  (** The text of a URL is parsed to the URL. *)
  url_parse_text url : url_parse (url_text url) = Some url;
}.

(** Header names and methods are their texts; a [HeaderName] is in lower case. *)
Class HttpTypesApi : Type := {
  (** [HeaderName::from_bytes] *)
  header_name : list Z → option (list Z);
  (** [HeaderValue::from_bytes] *)
  header_value : list Z → option (list Z);
  (** [HeaderValue::to_str] *)
  header_to_str : list Z → option (list Z);
  (** [Method::from_bytes] *)
  method_from_bytes : list Z → option (list Z);
  (** [Uri::from_str]: whether it has a scheme and an authority, and its path. *)
  uri_from_str : list Z → option (bool * bool * list Z);
  (** [StatusCode::canonical_reason] *)
  canonical_reason : Z → option (list Z);
}.

Class HttpTypesLaws (types : HttpTypesApi) : Prop := {
  header_value_bytes bytes value : header_value bytes = Some value → value = bytes;
  header_to_str_bytes value text : header_to_str value = Some text → text = value;
  (** The path of a target in origin form is what it begins with. *)
  uri_path_prefix target path :
    head target = Some ch_slash → uri_from_str target = Some (false, false, path) →
    path `prefix_of` target;
}.

(** ** Policies *)

Definition MAX_BROKER_BODY_BYTES : Z := 16 * 1024 * 1024.

Definition GUARDED_GITHUB_CREDENTIALS : list string :=
  ["GH_TOKEN"; "GH_ENTERPRISE_TOKEN"; "GITHUB_TOKEN"; "GITHUB_ENTERPRISE_TOKEN"; "GITHUB_PAT";
   "GITHUB_OAUTH_TOKEN"; "GITHUB_APP_PRIVATE_KEY"; "GITHUB_COPILOT_TOKEN";
   "COPILOT_GITHUB_TOKEN"; "GIT_ASKPASS"; "GIT_ASKPASS_REQUIRE"; "SSH_ASKPASS";
   "SSH_ASKPASS_REQUIRE"; "GIT_SSH"; "GIT_SSH_COMMAND"; "SSH_AUTH_SOCK";
   "SENDBOX_GIT_SSH_KEY"]%string.

Definition requires_guarded_github_forwarding (name : list Z) : bool :=
  existsb (λ candidate, eq_ignore_ascii_case name (str candidate)) GUARDED_GITHUB_CREDENTIALS.

Inductive CredentialInjection : Type :=
| Bearer
| Header (name : list Z)
| Query (parameter : list Z)
| Path (placeholder : list Z).

Definition injection_kind (injection : CredentialInjection) : string :=
  match injection with
  | Bearer => "bearer" | Header _ => "header" | Query _ => "query" | Path _ => "path"
  end.

Inductive RedirectPolicy : Type := RedirectDeny | SameTarget.

Inductive TlsVerification : Type := TlsVerificationRequired.

Inductive CredentialPolicyError : Type :=
| InvalidTargetHost | InvalidPathPrefix | InvalidInjection | InvalidLimit
| GuardedRepositoryCredential | TargetMismatch | MethodDenied | RequestTooLarge
| ResponseTooLarge | TlsRequired | UserInfoForbidden | RedirectDenied | InvalidSecretEncoding
| InvalidHeaderValue | DuplicateQueryParameter | PathPlaceholderMismatch.

Record CredentialPolicy : Type := {
  target_host : list Z;
  path_prefix : list Z;
  injection : CredentialInjection;
  allowed_methods : gset (list Z);
  max_request_body_bytes : Z;
  max_response_body_bytes : Z;
  redirect_policy : RedirectPolicy;
  tls_verification : TlsVerification;
  policy_secret_name : list Z;
}.

Record AuditSafeRequestMetadata : Type := {
  am_method : list Z;
  am_target_host : list Z;
  am_path : list Z;
  am_injection_kind : string;
  am_secret_name : list Z;
  am_request_body_bytes : Z;
}.

#[local] Notation headers_of := (list (list Z * list Z)).

(** [replace_header] *)
Definition replace_header (headers : headers_of) (name value : list Z) : headers_of :=
  filter (λ h, h.1 ≠ name) headers ++ [(name, value)].

(** [str::contains] with a set of characters *)
Definition contains_any (value : list Z) (characters : list Z) : bool :=
  existsb (λ b, bool_decide (b ∈ characters)) value.

(** [validate_injection] *)
Definition validate_injection (injection : CredentialInjection)
  : result CredentialPolicyError unit :=
  let check (field : list Z) (path : bool) :=
    if bool_decide (field = []) || has_control field ||
       contains_any field [ch_slash; 63; 35; 38; 61] ||
       (path && negb (forallb (λ byte, is_ascii_alphanumeric byte ||
          bool_decide (byte ∈ [ch_hyphen; 95; ch_dot; 126])) field))
    then Err InvalidInjection else Ok tt in
  match injection with
  | Bearer => Ok tt
  | Header name => check name false
  | Query parameter => check parameter false
  | Path placeholder => check placeholder true
  end.

Section Policies.
Context {urls : UrlApi} {types : HttpTypesApi}.

Record BrokerRequest : Type := {
  br_method : list Z;
  br_url : Url;
  br_headers : headers_of;
  br_body : list Z;
}.

(** The URL is its text, as in [SensitiveUrl]. *)
Record TransformedRequest : Type := {
  tr_method : list Z;
  tr_url : list Z;
  tr_headers : headers_of;
  tr_body : list Z;
  tr_audit : AuditSafeRequestMetadata;
}.

(** [canonical_host] *)
Definition canonical_host (host : list Z) : result CredentialPolicyError (list Z) :=
  if bool_decide (host = []) || ends_with host [ch_dot] || has_control host ||
     contains_any host [ch_slash; ch_at; ch_colon]
  then Err InvalidTargetHost
  else
    let? parsed := ok_or (host_parse host) InvalidTargetHost in
    match parsed with
    | HostDomain domain => Ok (to_ascii_lowercase domain)
    | HostIpv4 address => Ok (show_ipv4 address)
    | HostIpv6 _ => Err InvalidTargetHost
    end.

(** [CredentialPolicy::new] *)
Definition new_policy (host prefix : list Z) (injection : CredentialInjection)
    (methods : list (list Z)) (max_request max_response : Z) (redirects : RedirectPolicy)
    (name : list Z) : result CredentialPolicyError CredentialPolicy :=
  let? host := canonical_host host in
  if negb (starts_with prefix [ch_slash]) || has_control prefix || contains_any prefix [63; 35]
  then Err InvalidPathPrefix
  else
    check? validate_injection injection in
    let methods : gset (list Z) := list_to_set methods in
    if bool_decide (methods = ∅) || (MAX_BROKER_BODY_BYTES <? max_request) ||
       (max_response =? 0) || (MAX_BROKER_BODY_BYTES <? max_response)
    then Err InvalidLimit
    else if requires_guarded_github_forwarding name then Err GuardedRepositoryCredential
    else Ok {| target_host := host; path_prefix := prefix; injection := injection;
               allowed_methods := methods; max_request_body_bytes := max_request;
               max_response_body_bytes := max_response; redirect_policy := redirects;
               tls_verification := TlsVerificationRequired; policy_secret_name := name |}.

(** [validate_url] *)
Definition validate_url (p : CredentialPolicy) (url : Url) : result CredentialPolicyError unit :=
  if negb (match tls_verification p with TlsVerificationRequired => true end) ||
     negb (bool_decide (scheme url = str "https"))
  then Err TlsRequired
  else if negb (bool_decide (username url = [])) || bool_decide (is_Some (password url))
  then Err UserInfoForbidden
  else if negb (bool_decide (host_str url = Some (target_host p))) ||
          negb (bool_decide (port_or_known_default url = Some 443)) ||
          negb (starts_with (url_path url) (path_prefix p))
  then Err TargetMismatch
  else Ok tt.

(** [validate_request] *)
Definition validate_request (p : CredentialPolicy) (request : BrokerRequest)
  : result CredentialPolicyError unit :=
  check? validate_url p (br_url request) in
  if negb (bool_decide (br_method request ∈ allowed_methods p)) then Err MethodDenied
  else if max_request_body_bytes p <? Z.of_nat (length (br_body request)) then Err RequestTooLarge
  else Ok tt.

(** The four injections of [transform]: the headers and the URL that go out. *)
Definition inject (p : CredentialPolicy) (secret : list Z) (headers : headers_of) (url : Url)
  : result CredentialPolicyError (headers_of * Url) :=
  match injection p with
  | Bearer =>
      let value := str "Bearer " ++ secret in
      let? _valid := ok_or (header_value value) InvalidHeaderValue in
      Ok (replace_header headers (str "authorization") value, url)
  | Header name =>
      let? _valid := ok_or (header_value secret) InvalidHeaderValue in
      Ok (replace_header headers name secret, url)
  | Query parameter =>
      if existsb (λ pair, bool_decide (pair.1 = parameter)) (query_pairs url)
      then Err DuplicateQueryParameter
      else
        let? value := ok_or (from_utf8 secret) InvalidSecretEncoding in
        Ok (headers, append_pair parameter value url)
  | Path placeholder =>
      let? value := ok_or (from_utf8 secret) InvalidSecretEncoding in
      let? segments := ok_or (path_segments url) PathPlaceholderMismatch in
      if negb (length (filter (λ segment, segment = placeholder) segments) =? 1)%nat
      then Err PathPlaceholderMismatch
      else
        let replacement :=
          (λ segment, if decide (segment = placeholder) then value else segment) <$> segments in
        let? url := ok_or (replace_segments replacement url) PathPlaceholderMismatch in
        Ok (headers, url)
  end.

(** What [transform] records of a request. *)
Definition audit_of (p : CredentialPolicy) (request : BrokerRequest) : AuditSafeRequestMetadata :=
  {| am_method := br_method request; am_target_host := target_host p;
     am_path := url_path (br_url request); am_injection_kind := injection_kind (injection p);
     am_secret_name := policy_secret_name p;
     am_request_body_bytes := Z.of_nat (length (br_body request)) |}.

(** [CredentialPolicy::transform] *)
Definition transform (p : CredentialPolicy) (request : BrokerRequest) (secret : list Z)
  : result CredentialPolicyError TransformedRequest :=
  check? validate_request p request in
  let audit := audit_of p request in
  let? headers :=
    collect (λ h, let? _valid := ok_or (header_value h.2) InvalidHeaderValue in Ok (h.1, h.2))
      (br_headers request) in
  let? ' (headers, url) := inject p secret headers (br_url request) in
  Ok {| tr_method := br_method request; tr_url := url_text url; tr_headers := headers;
        tr_body := br_body request; tr_audit := audit |}.

(** [validate_response_size] *)
Definition validate_response_size (p : CredentialPolicy) (bytes : Z)
  : result CredentialPolicyError unit :=
  if max_response_body_bytes p <? bytes then Err ResponseTooLarge else Ok tt.

(** [authorize_redirect] *)
Definition authorize_redirect (p : CredentialPolicy) (from to : Url)
  : result CredentialPolicyError unit :=
  match redirect_policy p with
  | RedirectDeny => Err RedirectDenied
  | SameTarget =>
      check? validate_url p to in
      if negb (bool_decide (scheme from = scheme to)) ||
         negb (bool_decide (host_str from = host_str to)) ||
         negb (bool_decide (port_or_known_default from = port_or_known_default to))
      then Err RedirectDenied
      else Ok tt
  end.

(** ** Specification *)

Definition credential_target (p : CredentialPolicy) (url : Url) : Prop :=
  origin url = (str "https", [], None, Some (target_host p), Some 443).

(** Of all headers, only the one called [name] is different, and it is there once. *)
Definition header_set (name value : list Z) (headers headers' : headers_of) : Prop :=
  filter (λ h, h.1 = name) headers' = [(name, value)] ∧
  filter (λ h, h.1 ≠ name) headers' = filter (λ h, h.1 ≠ name) headers.

(** The secret is at the place of the policy, and nothing else has changed. *)
Definition placed (p : CredentialPolicy) (secret : list Z) (headers : headers_of) (url : Url)
    (headers' : headers_of) (url' : Url) : Prop :=
  match injection p with
  | Bearer => url' = url ∧ header_set (str "authorization") (str "Bearer " ++ secret) headers headers'
  | Header name => url' = url ∧ header_set name secret headers headers'
  | Query parameter =>
      headers' = headers ∧ origin url' = origin url ∧ url_path url' = url_path url ∧
      parameter ∉ (query_pairs url).*1 ∧ query_pairs url' = query_pairs url ++ [(parameter, secret)]
  | Path placeholder =>
      headers' = headers ∧ origin url' = origin url ∧ query_pairs url' = query_pairs url ∧
      ∃ before after, path_segments url = Some (before ++ placeholder :: after) ∧
        placeholder ∉ before ++ after ∧
        replace_segments (before ++ secret :: after) url = Some url'
  end.

(** Whether the secret can be written at the place of the policy. *)
Definition encodable (p : CredentialPolicy) (secret : list Z) : bool :=
  match injection p with
  | Bearer => bool_decide (is_Some (header_value (str "Bearer " ++ secret)))
  | Header _ => bool_decide (is_Some (header_value secret))
  | Query _ | Path _ => bool_decide (is_Some (from_utf8 secret))
  end.

(** ** Lemmas *)

Lemma validate_url_ok (p : CredentialPolicy) (url : Url) :
  validate_url p url = Ok tt ↔ credential_target p url ∧ path_prefix p `prefix_of` url_path url.
Proof.
  unfold validate_url, credential_target, origin. destruct (tls_verification p). cbn [negb orb].
  split.
  - intros H. repeat destruct_match_in H; try done. bool_to_prop.
    rewrite starts_with_true in *. destruct (password url) eqn:?; [naive_solver|].
    split; [congruence|]. done.
  - intros [[= -> -> -> -> ->] [rest Hp]]. rewrite !bool_decide_eq_true_2 by done.
    rewrite bool_decide_eq_false_2 by (by intros [? ?]). rewrite !bool_decide_eq_true_2 by done.
    rewrite (proj2 (starts_with_true _ _)); [done|]. by exists rest.
Qed.

Lemma authorize_redirect_ok (p : CredentialPolicy) (from to : Url) :
  authorize_redirect p from to = Ok tt →
  redirect_policy p = SameTarget ∧ credential_target p to ∧
  path_prefix p `prefix_of` url_path to.
Proof.
  unfold authorize_redirect. destruct (redirect_policy p); [done|].
  destruct (validate_url p to) as [[]|] eqn:Hv; [|done]. intros _. by apply validate_url_ok in Hv.
Qed.

Lemma validate_request_ok (p : CredentialPolicy) (request : BrokerRequest) :
  validate_request p request = Ok tt ↔
  credential_target p (br_url request) ∧ path_prefix p `prefix_of` url_path (br_url request) ∧
  br_method request ∈ allowed_methods p ∧
  Z.of_nat (length (br_body request)) ≤ max_request_body_bytes p.
Proof.
  unfold validate_request. pose proof (validate_url_ok p (br_url request)) as Hu.
  destruct (validate_url p (br_url request)) as [[]|e].
  - destruct (proj1 Hu eq_refl) as [H1 H2]. case_bool_decide; cbn [negb]; [|naive_solver].
    destruct (Z.ltb_spec (max_request_body_bytes p) (Z.of_nat (length (br_body request))));
      [|naive_solver]. split; [done|lia].
  - split; [done|]. intros (H1 & H2 & _). by rewrite (proj2 Hu (conj H1 H2)).
Qed.

Lemma replace_header_set (headers : headers_of) (name value : list Z) :
  header_set name value headers (replace_header headers name value).
Proof.
  unfold header_set, replace_header. rewrite !filter_app. cbn.
  rewrite (decide_True (P := name = name)), (decide_False (P := name ≠ name)) by naive_solver.
  rewrite app_nil_r. split.
  - induction headers as [|h headers IH]; [done|]. rewrite filter_cons. case_decide; [|done].
    rewrite filter_cons, decide_False by done. exact IH.
  - induction headers as [|h headers IH]; [done|]. rewrite filter_cons. case_decide; [|done].
    rewrite filter_cons, decide_True by done. by rewrite IH.
Qed.

(** A segment that is there once splits the path. *)
Lemma once_split (x : list Z) (l : list (list Z)) :
  length (filter (λ y, y = x) l) = 1%nat → ∃ before after, l = before ++ x :: after ∧ x ∉ before ++ after.
Proof.
  induction l as [|y l IH]; [done|]. rewrite filter_cons. case_decide as Hd.
  - intros [= Hl]. exists [], l. subst. split; [done|]. cbn. intros Hx.
    assert (x ∈ filter (λ y, y = x) l) as Hf by (by apply list_elem_of_filter).
    destruct (filter (λ y, y = x) l); [set_solver|done].
  - intros (before & after & -> & Hn)%IH. exists (y :: before), after. set_solver.
Qed.

Lemma replaced_once (x value : list Z) (before after : list (list Z)) :
  x ∉ before ++ after →
  (λ y, if decide (y = x) then value else y) <$> before ++ x :: after = before ++ value :: after.
Proof.
  intros Hn. rewrite fmap_app, fmap_cons, (decide_True (P := x = x)) by done.
  assert (∀ l : list (list Z), x ∉ l → (λ y, if decide (y = x) then value else y) <$> l = l) as H.
  { induction l as [|y l IH]; [done|]. intros Hl. cbn. rewrite decide_False by set_solver.
    by rewrite IH by set_solver. }
  by rewrite !H by set_solver.
Qed.

Section Laws.
Context {url_laws : UrlLaws urls}.

Lemma inject_placed (p : CredentialPolicy) (secret : list Z) (headers headers' : headers_of)
    (url url' : Url) :
  inject p secret headers url = Ok (headers', url') → placed p secret headers url headers' url'.
Proof.
  unfold inject, placed. destruct (injection p) as [|name|parameter|placeholder].
  - destruct (header_value _); [|done]. intros [= <- <-]. split; [done|apply replace_header_set].
  - destruct (header_value _); [|done]. intros [= <- <-]. split; [done|apply replace_header_set].
  - destruct (existsb _ _) eqn:Ex; [done|]. destruct (from_utf8 secret) as [v|] eqn:Hv; [|done].
    apply from_utf8_Some in Hv as ->. intros [= <- <-].
    split_and!; [done|apply append_pair_origin|apply append_pair_path| |apply append_pair_query].
    intros ((n & v) & -> & Hin)%list_elem_of_fmap. apply not_true_iff_false in Ex. apply Ex.
    apply existsb_exists. exists (n, v). split; [by apply list_elem_of_In|].
    by apply bool_decide_eq_true.
  - destruct (from_utf8 secret) as [v|] eqn:Hv; [|done]. apply from_utf8_Some in Hv as ->.
    destruct (path_segments url) as [segments|] eqn:Hs; [|done]. cbn [ok_or].
    destruct (_ =? 1)%nat eqn:H1; [|done]. cbn [negb].
    apply Nat.eqb_eq, once_split in H1 as (before & after & -> & Hn).
    rewrite replaced_once by done.
    destruct (replace_segments _ url) as [u|] eqn:Hr; [|done]. intros [= <- <-].
    split_and!; [done|by eapply replace_segments_origin|by eapply replace_segments_query|].
    by exists before, after.
Qed.

Lemma placed_origin (p : CredentialPolicy) (secret : list Z) (headers headers' : headers_of)
    (url url' : Url) :
  placed p secret headers url headers' url' → origin url' = origin url.
Proof. unfold placed. destruct (injection p); naive_solver. Qed.

(** What a request that was transformed is, and what comes out. *)
Lemma transform_ok (p : CredentialPolicy) (request : BrokerRequest) (secret : list Z)
    (t : TransformedRequest) :
  transform p request secret = Ok t →
  validate_request p request = Ok tt ∧
  tr_method t = br_method request ∧ tr_body t = br_body request ∧
  tr_audit t = audit_of p request ∧
  ∃ url', tr_url t = url_text url' ∧
    placed p secret (br_headers request) (br_url request) (tr_headers t) url'.
Proof.
  unfold transform. destruct (validate_request p request) as [[]|]; [|done].
  destruct (collect _ _) as [headers|] eqn:Hc; [|done].
  assert (headers = br_headers request) as ->.
  { apply collect_ok in Hc. induction Hc as [|[n v] y l l' Hy _ IH]; [done|]. cbn in Hy.
    destruct (header_value v); [|done]. injection Hy as <-. by rewrite IH. }
  destruct (inject _ _ _ _) as [[headers url]|] eqn:Hi; [|done]. intros [= <-]. cbn.
  split_and!; try done. exists url. split; [done|]. by apply inject_placed.
Qed.

(** Which requests are transformed, and with which error the others are refused, depends on
    the secret only by whether it can be written at the place of the policy. *)
Lemma transform_agrees (p : CredentialPolicy) (request : BrokerRequest) (s1 s2 : list Z) :
  encodable p s1 = encodable p s2 →
  match transform p request s1, transform p request s2 with
  | Ok _, Ok _ => True
  | Err e1, Err e2 => e1 = e2
  | _, _ => False
  end.
Proof.
  intros He. unfold transform. destruct (validate_request p request); [|done].
  destruct (collect _ _) as [headers|]; [|done].
  unfold inject, encodable in *. destruct (injection p) as [|name|parameter|placeholder].
  - destruct (header_value (_ ++ s1)), (header_value (_ ++ s2)); done.
  - destruct (header_value s1), (header_value s2); done.
  - destruct (existsb _ _); [done|]. destruct (from_utf8 s1), (from_utf8 s2); done.
  - destruct (from_utf8 s1), (from_utf8 s2); try done.
    destruct (path_segments (br_url request)) as [segments|] eqn:Hs; [|done]. cbn [ok_or].
    destruct (_ =? 1)%nat; [|done]. cbn [negb].
    assert (∀ l, is_Some (replace_segments l (br_url request))) as Hr
      by (intros; apply replace_segments_base; by rewrite Hs).
    edestruct Hr as [u1 Hu1]; edestruct Hr as [u2 Hu2]. by rewrite Hu1, Hu2.
Qed.

End Laws.

(** What an accepted policy is. *)
Record policy_wf (p : CredentialPolicy) : Prop := {
  pw_host : ∃ host, canonical_host host = Ok (target_host p);
  pw_prefix : ∃ rest, path_prefix p = ch_slash :: rest;
  pw_methods : allowed_methods p ≠ ∅;
  pw_request : max_request_body_bytes p ≤ MAX_BROKER_BODY_BYTES;
  pw_response : max_response_body_bytes p ≠ 0 ∧ max_response_body_bytes p ≤ MAX_BROKER_BODY_BYTES;
  pw_name : requires_guarded_github_forwarding (policy_secret_name p) = false;
}.

Lemma new_policy_wf (host prefix : list Z) (injection : CredentialInjection)
    (methods : list (list Z)) (max_request max_response : Z) (redirects : RedirectPolicy)
    (name : list Z) (p : CredentialPolicy) :
  new_policy host prefix injection methods max_request max_response redirects name = Ok p →
  policy_wf p ∧ policy_secret_name p = name.
Proof.
  unfold new_policy. intros H. destruct (canonical_host host) as [h|] eqn:Hh; [|done].
  destruct (negb _ || _ || _) eqn:Hp; [done|]. destruct (validate_injection injection); [|done].
  destruct (bool_decide _ || _ || _ || _) eqn:Hl; [done|].
  destruct (requires_guarded_github_forwarding name) eqn:Hg; [done|]. injection H as <-.
  bool_to_prop. split; [|done]. split; cbn; try done; [by exists host|].
  match goal with H : starts_with prefix _ = true |- _ => apply starts_with_true in H end. done.
Qed.

End Policies.
