(* ===== verification/Http1.v ===== *)
(** * The HTTP/1.1 reader of the credential broker
      ([crates/sendbox-credentials/src/http1.rs], [error.rs])

    One request is read from a connection and parsed.  A stream is the list of what its reads
    return, an [option] being an I/O error or some bytes.

    The theorem states what an accepted request guarantees about its framing: the head ends at
    the first blank line and fits its limits, there is one [Host] and no [Transfer-Encoding],
    and the body is what [Content-Length] says, so that no byte of a connection can be read as
    another request. *)

From S2P Require Import Prelude RustStr HttpProxy Envelope Credential.

(** ** Errors ([error.rs]) *)

Inductive CredentialBrokerError : Type :=
| InvalidConfiguration (message : list Z)
| InvalidRequest (message : string)
| RequestTimeout
| Cancelled
| IoFailed
| PolicyRejected (error : CredentialPolicyError)
| SecretFailed (text : list Z)
| Upstream (message : list Z)
| InvalidGitHubMetadata (message : list Z)
| GitHubCommand (message : list Z)
| GitHubAuthorization (message : list Z)
| RuntimeFailed (text : list Z).

#[local] Notation E := CredentialBrokerError.

(** ** Limits ([BrokerLimits] of [config.rs]; durations in nanoseconds) *)

Record BrokerLimits : Type := {
  max_request_line_bytes : Z;
  max_header_bytes : Z;
  max_header_count : Z;
  max_connections : Z;
  request_read_timeout : Z;
  upstream_connect_timeout : Z;
  upstream_read_timeout : Z;
  upstream_total_timeout : Z;
  shutdown_timeout : Z;
  max_redirects : Z;
}.

Definition READ_CHUNK_BYTES : Z := 1024.

(** ** Parsing *)

#[local] Notation headers_of := (list (list Z * list Z)).

Record ParsedRequest : Type := {
  pq_method : list Z;
  pq_target : list Z;
  pq_headers : headers_of;
  pq_body : list Z;
}.

Definition len {A : Type} (l : list A) : Z := Z.of_nat (length l).

(** [reject_bare_line_feeds]; [prev] is the byte before. *)
Fixpoint bare_line_feed (prev : option Z) (bytes : list Z) : bool :=
  match bytes with
  | [] => false
  | b :: r =>
      ((b =? ch_lf) && negb (bool_decide (prev = Some ch_cr))) || bare_line_feed (Some b) r
  end.

(** [parse_content_length]; a [usize] has 64 bits. *)
Definition parse_content_length (bytes : list Z) : result E Z :=
  if bool_decide (bytes = []) || negb (forallb is_ascii_digit bytes)
  then Err (InvalidRequest "Content-Length must be an unsigned decimal integer")
  else match parse_digits bytes with
       | Some n => if n <=? u64_max then Ok n else Err (InvalidRequest "Content-Length is too large")
       | None => Err (InvalidRequest "Content-Length is too large")
       end.

(** [trim_optional_whitespace] *)
Fixpoint skip_optional_whitespace (bytes : list Z) : list Z :=
  match bytes with
  | b :: r => if (b =? ch_space) || (b =? ch_tab) then skip_optional_whitespace r else bytes
  | [] => []
  end.

Definition trim_optional_whitespace (bytes : list Z) : list Z :=
  reverse (skip_optional_whitespace (reverse (skip_optional_whitespace bytes))).

(** The text of a line of a head: a line that is not the last one loses its carriage return. *)
Definition line_text (line : list Z) (rest : list (list Z)) : result E (list Z) :=
  match rest with
  | [] => Ok line
  | _ => ok_or (strip_suffix [ch_cr] line) (InvalidRequest "HTTP lines must use CRLF")
  end.

(** What the header loop has seen. *)
Record HeadState : Type := {
  hs_headers : headers_of;
  hs_hosts : Z;
  hs_length : option Z;
}.

Section Parse.
Context {types : HttpTypesApi}.

(** [validate_origin_form_target] *)
Definition validate_origin_form_target (target : list Z) : result E unit :=
  if negb (starts_with target [ch_slash]) || starts_with target [ch_slash; ch_slash] ||
     contains_any target [ch_backslash; 35] || has_control target
  then Err (InvalidRequest "request target must use safe origin-form")
  else
    let? ' (has_scheme, has_authority, path) :=
      ok_or (uri_from_str target) (InvalidRequest "request target is invalid") in
    if has_scheme || has_authority || bool_decide (path = [])
    then Err (InvalidRequest "absolute-form and authority-form targets are forbidden")
    else Ok tt.

(** The request line of [parse_head] *)
Definition parse_request_line (max_request_line : Z) (line : list Z)
  : result E (list Z * list Z) :=
  if max_request_line <? len line
  then Err (InvalidRequest "request line exceeds the configured limit")
  else
    let? line := ok_or (from_utf8 line)
      (InvalidRequest "request line is not valid ASCII-compatible UTF-8") in
    let parts := split_on ch_space line in
    let part (i : nat) : option (list Z) :=
      match parts !! i with Some [] => None | part => part end in
    let? method := ok_or (part 0%nat) (InvalidRequest "request method is missing") in
    let? target := ok_or (part 1%nat) (InvalidRequest "request target is missing") in
    let? version := ok_or (parts !! 2%nat) (InvalidRequest "HTTP version is missing") in
    if bool_decide (is_Some (parts !! 3%nat)) || negb (bool_decide (version = str "HTTP/1.1"))
    then Err (InvalidRequest "only canonical HTTP/1.1 request lines are supported")
    else
      let? method :=
        ok_or (method_from_bytes method) (InvalidRequest "request method is invalid") in
      if bool_decide (method = str "CONNECT")
      then Err (InvalidRequest "CONNECT credential injection is unsupported")
      else
        check? validate_origin_form_target target in
        Ok (method, target).

(** The name and the value of a header line. *)
Definition split_header (line : list Z) : result E (list Z * list Z) :=
  let? colon :=
    ok_or (position (λ b, b =? ch_colon) line) (InvalidRequest "header is missing ':'") in
  if (colon =? 0)%nat ||
     match line !! (colon - 1)%nat with Some b => is_ascii_whitespace b | None => false end
  then Err (InvalidRequest "header name is malformed")
  else
    let? name := ok_or (header_name (take colon line)) (InvalidRequest "header name is invalid") in
    let? value := ok_or (header_value (trim_optional_whitespace (drop (S colon) line)))
      (InvalidRequest "header value is invalid") in
    Ok (name, value).

(** The body of the header loop *)
Definition header_line (max_count : Z) (line : list Z) (s : HeadState) : result E HeadState :=
  if bool_decide (line = []) then Err (InvalidRequest "unexpected empty header line")
  else if match head line with Some b => is_ascii_whitespace b | None => false end
  then Err (InvalidRequest "obsolete folded headers are forbidden")
  else if max_count <=? len (hs_headers s)
  then Err (InvalidRequest "request has too many headers")
  else
    let? ' (name, value) := split_header line in
    let headers := hs_headers s ++ [(name, value)] in
    if bool_decide (name = str "host")
    then Ok {| hs_headers := headers; hs_hosts := hs_hosts s + 1; hs_length := hs_length s |}
    else if bool_decide (name = str "content-length") then
      match hs_length s with
      | Some _ => Err (InvalidRequest "duplicate Content-Length is forbidden")
      | None =>
          let? n := parse_content_length value in
          Ok {| hs_headers := headers; hs_hosts := hs_hosts s; hs_length := Some n |}
      end
    else if bool_decide (name = str "transfer-encoding")
    then Err (InvalidRequest "Transfer-Encoding is unsupported")
    else Ok {| hs_headers := headers; hs_hosts := hs_hosts s; hs_length := hs_length s |}.

Fixpoint header_lines (max_count : Z) (raw : list (list Z)) (s : HeadState)
  : result E HeadState :=
  match raw with
  | [] => Ok s
  | line :: raw =>
      let? line := line_text line raw in
      let? s := header_line max_count line s in
      header_lines max_count raw s
  end.

(** [parse_head] *)
Definition parse_head (head : list Z) (max_request_line max_count : Z)
  : result E (ParsedRequest * Z) :=
  if bare_line_feed None head then Err (InvalidRequest "HTTP lines must use CRLF")
  else
    match split_on ch_lf head with
    | [] => Err (InvalidRequest "request line is missing")
    | line :: raw =>
        let? line := line_text line raw in
        let? ' (method, target) := parse_request_line max_request_line line in
        let? s := header_lines max_count raw
                    {| hs_headers := []; hs_hosts := 0; hs_length := None |} in
        if negb (hs_hosts s =? 1)
        then Err (InvalidRequest "exactly one Host header is required")
        else Ok ({| pq_method := method; pq_target := target; pq_headers := hs_headers s;
                    pq_body := [] |}, default 0 (hs_length s))
    end.

(** [parse_complete_request_with_limits] *)
Definition parse_complete_request_with_limits (bytes : list Z)
    (max_request_line max_count max_body : Z) : result E ParsedRequest :=
  let? header_end :=
    ok_or (find_head_end bytes) (InvalidRequest "request headers are incomplete") in
  let? ' (request, content_length) :=
    parse_head (take header_end bytes) max_request_line max_count in
  let body := drop (header_end + length head_end)%nat bytes in
  if (max_body <? content_length) || negb (len body =? content_length)
  then Err (InvalidRequest "request body length does not match Content-Length")
  else Ok {| pq_method := pq_method request; pq_target := pq_target request;
             pq_headers := pq_headers request; pq_body := body |}.

(** [parse_complete_request] *)
Definition parse_complete_request (bytes : list Z) (limits : BrokerLimits)
  : result E ParsedRequest :=
  if max_header_bytes limits + MAX_SECRET_VALUE_BYTES <? len bytes
  then Err (InvalidRequest "request exceeds the parser fuzzing limit")
  else parse_complete_request_with_limits bytes (max_request_line_bytes limits)
         (max_header_count limits) MAX_SECRET_VALUE_BYTES.

(** ** Reading *)

#[local] Notation Reader := (list (option (list Z))).

(** One read of at most [limit] bytes; at the end of the stream it returns none. *)
Definition read (limit : Z) (reader : Reader) : result E (list Z * Reader) :=
  match reader with
  | [] => Ok ([], [])
  | None :: _ => Err IoFailed
  | Some bytes :: reader =>
      let left := drop (Z.to_nat limit) bytes in
      Ok (take (Z.to_nat limit) bytes, if decide (left = []) then reader else Some left :: reader)
  end.

(** The loop of [read_request_inner] that looks for the end of the head. *)
Fixpoint read_head_bytes (fuel : nat) (max_bytes : Z) (reader : Reader) (bytes : list Z)
  : result E (nat * list Z * Reader) :=
  match find_head_end bytes with
  | Some header_end => Ok (header_end, bytes, reader)
  | None =>
      let exceeded := Err (InvalidRequest "request headers exceed the configured limit") in
      if max_bytes <=? len bytes then exceeded
      else match fuel with
           | O => exceeded
           | S fuel =>
               let remaining := saturating_sub max_bytes (len bytes) in
               let? ' (got, reader) := read (Z.min READ_CHUNK_BYTES remaining) reader in
               if bool_decide (got = [])
               then Err (InvalidRequest "request ended before the headers were complete")
               else read_head_bytes fuel max_bytes reader (bytes ++ got)
           end
  end.

(** The loop that reads the rest of the body. *)
Fixpoint read_body_bytes (fuel : nat) (total : Z) (reader : Reader) (bytes : list Z)
  : result E (list Z) :=
  if total <=? len bytes then Ok bytes
  else match fuel with
       | O => Ok bytes
       | S fuel =>
           let? ' (got, reader) := read (Z.min READ_CHUNK_BYTES (total - len bytes)) reader in
           if bool_decide (got = [])
           then Err (InvalidRequest "request body ended before Content-Length bytes were received")
           else read_body_bytes fuel total reader (bytes ++ got)
       end.

(** [read_request_inner] *)
Definition read_request_inner (reader : Reader) (limits : BrokerLimits) (max_body : Z)
  : result E ParsedRequest :=
  let? ' (header_end, bytes, reader) :=
    read_head_bytes (Z.to_nat (max_header_bytes limits)) (max_header_bytes limits) reader [] in
  let? ' (_, content_length) :=
    parse_head (take header_end bytes) (max_request_line_bytes limits) (max_header_count limits) in
  if max_body <? content_length
  then Err (InvalidRequest "request body exceeds the rule limit")
  else
    let? total := ok_or
      (match checked_add u64_max (Z.of_nat header_end) (len head_end) with
       | Some length => checked_add u64_max length content_length
       | None => None
       end) (InvalidRequest "request length overflowed") in
    if total <? len bytes
    then Err (InvalidRequest "request contains trailing or pipelined bytes")
    else
      let? bytes := read_body_bytes (Z.to_nat (total - len bytes)) total reader bytes in
      parse_complete_request_with_limits bytes (max_request_line_bytes limits)
        (max_header_count limits) max_body.

(** How the race of [read_request] ends. *)
Inductive ReadRace : Type := ReadFinishes | ReadTimesOut | ReadCancelled.

(** [read_request] *)
Definition read_request (race : ReadRace) (reader : Reader) (limits : BrokerLimits)
    (max_body : Z) : result E ParsedRequest :=
  match race with
  | ReadFinishes => read_request_inner reader limits max_body
  | ReadTimesOut => Err RequestTimeout
  | ReadCancelled => Err Cancelled
  end.

(** ** Hop-by-hop headers *)

Definition HOP_BY_HOP : list string :=
  ["connection"; "keep-alive"; "proxy-authenticate"; "proxy-authorization"; "proxy-connection";
   "te"; "trailer"; "transfer-encoding"; "upgrade"]%string.

(** [is_hop_by_hop] *)
Definition is_hop_by_hop (name : list Z) : bool :=
  existsb (λ candidate, bool_decide (name = str candidate)) HOP_BY_HOP.

(** The headers the [Connection] headers name. *)
Definition connection_named (headers : headers_of) : list (list Z) :=
  flat_map (λ h, if bool_decide (h.1 = str "connection") then
      match header_to_str h.2 with
      | Some value => omap (λ candidate, header_name (trim candidate)) (split_on 44 value)
      | None => []
      end
    else []) headers.

(** Whether [strip_hop_by_hop] keeps a header called [name]. *)
Definition end_to_end (headers : headers_of) (name : list Z) : bool :=
  negb (is_hop_by_hop name) && negb (bool_decide (name ∈ connection_named headers)) &&
  negb (bool_decide (name = str "host")) && negb (bool_decide (name = str "content-length")).

(** [strip_hop_by_hop] *)
Definition strip_hop_by_hop (headers : headers_of) : headers_of :=
  filter (λ h, end_to_end headers h.1 = true) headers.

(** ** Specification *)

(** The values of the headers called [name]. *)
Definition values (name : string) (headers : headers_of) : list (list Z) :=
  (filter (λ h, h.1 = str name) headers).*2.

(** The headers say without ambiguity that the body has [n] bytes. *)
Definition framing (headers : headers_of) (n : Z) : Prop :=
  values "transfer-encoding" headers = [] ∧
  (values "content-length" headers = [] ∧ n = 0 ∨
   ∃ v, values "content-length" headers = [v] ∧ forallb is_ascii_digit v = true ∧
     digits_value v = n).

(** The bytes of a stream, up to its first error. *)
Fixpoint stream (reader : Reader) : list Z :=
  match reader with
  | Some bytes :: reader => bytes ++ stream reader
  | _ => []
  end.

(** ** Lemmas *)

Lemma find_head_end_split (bytes : list Z) (i : nat) :
  find_head_end bytes = Some i →
  bytes = take i bytes ++ head_end ++ drop (i + length head_end) bytes.
Proof.
  revert i. induction bytes as [|b bytes IH]; intros i; [done|].
  cbn [find_head_end]. destruct (starts_with _ _) eqn:Hs.
  - intros [= <-]. apply starts_with_true in Hs as [r Hr]. rewrite Hr. cbn. by destruct r.
  - destruct (find_head_end bytes) as [j|]; [|done]. intros [= <-]. cbn. f_equal. by apply IH.
Qed.

Lemma find_head_end_app (bytes more : list Z) (i : nat) :
  find_head_end bytes = Some i → find_head_end (bytes ++ more) = Some i.
Proof.
  revert i. induction bytes as [|b bytes IH]; intros i; [done|].
  cbn [find_head_end app]. destruct (starts_with (b :: bytes) head_end) eqn:Hs.
  - apply starts_with_true in Hs as [r Hr]. rewrite app_comm_cons, Hr, <-app_assoc.
    rewrite (proj2 (starts_with_true _ _)); [done|by eexists].
  - destruct (find_head_end bytes) as [j|] eqn:Hj; [|done]. intros [= <-].
    rewrite (IH j) by done. destruct (starts_with (b :: bytes ++ more) head_end) eqn:Hs2; [|done].
    apply starts_with_true in Hs2 as [r Hr]. apply find_head_end_split in Hj.
    assert (starts_with (b :: bytes) head_end = true) as Hc; [|congruence].
    apply starts_with_true. rewrite Hj in Hr |- *.
    destruct (take j bytes) as [|x [|y [|z t]]]; cbn in Hr |- *; injection Hr; intros;
      simplify_eq; try (by eexists).
Qed.

Lemma find_head_end_bound (bytes : list Z) (i : nat) :
  find_head_end bytes = Some i → (i + length head_end ≤ length bytes)%nat.
Proof.
  revert i. induction bytes as [|b bytes IH]; intros i; [done|].
  cbn [find_head_end]. destruct (starts_with _ _) eqn:Hs.
  - intros [= <-]. apply starts_with_true in Hs as [r Hr]. rewrite Hr, length_app. lia.
  - destruct (find_head_end bytes) as [j|]; [|done]. intros [= <-].
    specialize (IH j eq_refl). cbn [length]. lia.
Qed.

Lemma read_ok (limit : Z) (reader reader' : Reader) (got : list Z) :
  read limit reader = Ok (got, reader') →
  stream reader = got ++ stream reader' ∧ (length got ≤ Z.to_nat limit)%nat.
Proof.
  destruct reader as [|[bytes|] reader]; cbn; [intros [= <- <-]; cbn; split; [done|lia]| |done].
  intros [= <- <-]. rewrite length_take. split; [|lia]. destruct (decide _) as [H|H]; cbn.
  - rewrite <-(take_drop (Z.to_nat limit) bytes) at 1. by rewrite H, app_nil_r.
  - by rewrite app_assoc, take_drop.
Qed.

Lemma read_head_bytes_ok (fuel : nat) (max : Z) (reader reader' : Reader) (bytes bytes' : list Z)
    (i : nat) :
  len bytes ≤ max → read_head_bytes fuel max reader bytes = Ok (i, bytes', reader') →
  find_head_end bytes' = Some i ∧ len bytes' ≤ max ∧
  bytes ++ stream reader = bytes' ++ stream reader'.
Proof.
  revert reader bytes. induction fuel as [|fuel IH]; intros reader bytes Hm; cbn [read_head_bytes];
    destruct (find_head_end bytes) as [j|] eqn:Hf; try (by intros [= <- <- <-]);
    destruct (Z.leb_spec max (len bytes)); try done.
  destruct (read _ reader) as [[got reader1]|] eqn:Hr; [|done].
  apply read_ok in Hr as [Hs Hl]. case_bool_decide; [done|]. intros Hh.
  apply IH in Hh as (? & ? & He).
  - split_and!; try done. by rewrite Hs, app_assoc.
  - unfold len, saturating_sub, READ_CHUNK_BYTES in *. rewrite length_app. lia.
Qed.

(** Fuel for every byte the head may have is enough. *)
Lemma read_head_bytes_fuel (fuel1 fuel2 : nat) (max : Z) (reader : Reader) (bytes : list Z) :
  max - len bytes ≤ Z.of_nat fuel1 → max - len bytes ≤ Z.of_nat fuel2 →
  read_head_bytes fuel1 max reader bytes = read_head_bytes fuel2 max reader bytes.
Proof.
  revert fuel2 reader bytes. induction fuel1 as [|fuel1 IH]; intros [|fuel2] reader bytes H1 H2;
    cbn [read_head_bytes]; destruct (find_head_end bytes); try done;
    destruct (Z.leb_spec max (len bytes)); try done; try lia.
  destruct (read _ reader) as [[got reader1]|]; [|done]. case_bool_decide; [done|].
  assert (0 < length got)%nat by (destruct got; [done|cbn; lia]).
  unfold len in *. apply IH; rewrite length_app; lia.
Qed.

Lemma read_body_bytes_ok (fuel : nat) (total : Z) (reader : Reader) (bytes bytes' : list Z) :
  total - len bytes ≤ Z.of_nat fuel → len bytes ≤ total →
  read_body_bytes fuel total reader bytes = Ok bytes' →
  len bytes' = total ∧ bytes `prefix_of` bytes' ∧ bytes' `prefix_of` bytes ++ stream reader.
Proof.
  revert reader bytes. induction fuel as [|fuel IH]; intros reader bytes Hf Hm;
    cbn [read_body_bytes]; destruct (Z.leb_spec total (len bytes)); try lia;
    try (intros [= <-]; split_and!; [lia|done|by exists (stream reader)]).
  destruct (read _ reader) as [[got reader1]|] eqn:Hr; [|done].
  apply read_ok in Hr as [Hs Hl]. case_bool_decide; [done|]. intros Hh.
  assert (0 < length got)%nat by (destruct got; [done|cbn; lia]).
  unfold len, READ_CHUNK_BYTES in *.
  apply IH in Hh as (? & [t ->] & He); [|rewrite ?length_app in *; lia..].
  split_and!; [done|exists (got ++ t); by rewrite app_assoc|]. by rewrite Hs, app_assoc.
Qed.

Lemma parse_content_length_ok (v : list Z) (n : Z) :
  parse_content_length v = Ok n → forallb is_ascii_digit v = true ∧ digits_value v = n ∧ n ≤ u64_max.
Proof.
  unfold parse_content_length, parse_digits, digits_value.
  destruct v as [|b v]; [done|]. destruct (forallb is_ascii_digit (b :: v)) eqn:Hd; [|done].
  cbn [orb negb bool_decide]. rewrite bool_decide_eq_false_2 by done. cbn [orb].
  destruct (Z.leb_spec (foldl (λ acc b0, acc * 10 + (b0 - 48)) 0 (b :: v)) u64_max); [|done].
  by intros [= <-].
Qed.

(** What the header loop knows of the headers it has read. *)
Definition head_inv (max_count : Z) (s : HeadState) : Prop :=
  len (hs_headers s) ≤ max_count ∧ hs_hosts s = len (values "host" (hs_headers s)) ∧
  framing (hs_headers s) (default 0 (hs_length s)) ∧
  (hs_length s = None → values "content-length" (hs_headers s) = []).

Lemma values_app (name : string) (headers headers' : headers_of) :
  values name (headers ++ headers') = values name headers ++ values name headers'.
Proof. unfold values. by rewrite filter_app, fmap_app. Qed.

Lemma values_single (name : string) (n v : list Z) :
  values name [(n, v)] = if decide (n = str name) then [v] else [].
Proof. unfold values. rewrite filter_cons, filter_nil. by destruct (decide _). Qed.

Ltac values_of_names :=
  rewrite !values_app, !values_single;
  repeat (case_decide; [try contradiction; try (exfalso; match goal with
    | H : ?n = str _, H' : ?n = str _ |- _ => rewrite H in H'; vm_compute in H'; discriminate
    end)|try contradiction]); rewrite ?app_nil_r.

Lemma header_line_inv (max_count : Z) (line : list Z) (s s' : HeadState) :
  head_inv max_count s → header_line max_count line s = Ok s' → head_inv max_count s'.
Proof.
  intros (Hl & Hh & (Ht & Hc) & Hn). unfold header_line. case_bool_decide; [done|].
  destruct (match head line with Some _ => _ | None => _ end); [done|].
  destruct (Z.leb_spec max_count (len (hs_headers s))) as [|Hlt]; [done|].
  destruct (split_header line) as [[name value]|]; [|done].
  assert (len (hs_headers s ++ [(name, value)]) ≤ max_count) as Hl'
    by (unfold len in *; rewrite length_app; cbn; lia).
  unfold head_inv, framing. intros Hs.
  case_bool_decide as H1; [|case_bool_decide as H2; [|case_bool_decide as H3; [done|]]].
  - injection Hs as <-. cbn [hs_headers hs_hosts hs_length]. values_of_names.
    unfold len in *. split_and!; try done. rewrite length_app. cbn. lia.
  - destruct (hs_length s) as [|] eqn:Hlen; [done|].
    destruct (parse_content_length value) as [n|] eqn:Hp; [|done]. injection Hs as <-.
    apply parse_content_length_ok in Hp as (Hd & Hv & _).
    cbn [hs_headers hs_hosts hs_length default]. values_of_names. rewrite (Hn eq_refl).
    split_and!; try done. right. by exists value.
  - injection Hs as <-. cbn [hs_headers hs_hosts hs_length]. values_of_names. by split_and!.
Qed.

Lemma header_lines_inv (max_count : Z) (raw : list (list Z)) (s s' : HeadState) :
  head_inv max_count s → header_lines max_count raw s = Ok s' → head_inv max_count s'.
Proof.
  revert s. induction raw as [|line raw IH]; intros s Hs; cbn [header_lines]; [by intros [= <-]|].
  destruct (line_text line raw) as [text|]; [|done].
  destruct (header_line max_count text s) as [s1|] eqn:Hh; [|done].
  apply IH. by eapply header_line_inv.
Qed.

(** A target in origin form. *)
Definition origin_form (target : list Z) : Prop :=
  head target = Some ch_slash ∧ ∃ path, uri_from_str target = Some (false, false, path).

Lemma validate_origin_form_target_ok (target : list Z) :
  validate_origin_form_target target = Ok tt → origin_form target.
Proof.
  unfold validate_origin_form_target, origin_form. destruct (_ || _ || _ || _) eqn:Hs; [done|].
  bool_to_prop. destruct (uri_from_str target) as [[[[] []] path]|]; try done. intros _.
  match goal with H : starts_with _ _ = true |- _ => apply starts_with_true in H as [r ->] end.
  split; [done|]. by exists path.
Qed.

Lemma parse_request_line_ok (max : Z) (line method target : list Z) :
  parse_request_line max line = Ok (method, target) →
  len line ≤ max ∧ method ≠ str "CONNECT" ∧ origin_form target.
Proof.
  unfold parse_request_line. destruct (Z.ltb_spec max (len line)); [done|].
  destruct (from_utf8 line); [|done]. cbn [ok_or].
  destruct (match _ !! 0%nat with Some _ => _ | None => _ end); [|done]. cbn [ok_or].
  destruct (match _ !! 1%nat with Some _ => _ | None => _ end) as [t|]; [|done]. cbn [ok_or].
  destruct (_ !! 2%nat); [|done]. cbn [ok_or]. destruct (_ || _); [done|].
  destruct (method_from_bytes _) as [m|]; [|done]. cbn [ok_or]. case_bool_decide; [done|].
  destruct (validate_origin_form_target t) as [[]|] eqn:Ht; [|done]. intros [= <- <-].
  split_and!; [done|done|]. by apply validate_origin_form_target_ok.
Qed.

(** What a parsed head says. *)
Record head_ok (max_count : Z) (request : ParsedRequest) (n : Z) : Prop := {
  ho_method : pq_method request ≠ str "CONNECT";
  ho_target : origin_form (pq_target request);
  ho_count : len (pq_headers request) ≤ max_count;
  ho_host : ∃ host, values "host" (pq_headers request) = [host];
  ho_framing : framing (pq_headers request) n;
}.

Lemma parse_head_ok (bytes : list Z) (max_line max_count n : Z) (request : ParsedRequest) :
  0 ≤ max_count → parse_head bytes max_line max_count = Ok (request, n) →
  bare_line_feed None bytes = false ∧ head_ok max_count request n.
Proof.
  intros H0. unfold parse_head. destruct (bare_line_feed None bytes); [done|].
  destruct (split_on ch_lf bytes) as [|line raw]; [done|].
  destruct (line_text line raw) as [text|]; [|done].
  destruct (parse_request_line max_line text) as [[method target]|] eqn:Hl; [|done].
  apply parse_request_line_ok in Hl as (_ & Hm & Ht).
  destruct (header_lines _ _ _) as [s|] eqn:Hh; [|done].
  apply header_lines_inv in Hh as (H1 & H2 & H3 & _); [|split_and!; try done; split; [done|by left]].
  destruct (Z.eqb_spec (hs_hosts s) 1) as [He|]; [|done]. cbn [negb]. intros [= <- <-].
  split; [done|]. split; try done. cbn [pq_headers]. rewrite He in H2. unfold len in H2.
  destruct (values "host" (hs_headers s)) as [|host [|]]; cbn in H2; [lia|by exists host|lia].
Qed.

(** The framing of a request in the bytes it was read from. *)
Definition framed (bytes : list Z) (max_count max_body : Z) (request : ParsedRequest) : Prop :=
  ∃ head, bytes = head ++ head_end ++ pq_body request ∧
    find_head_end bytes = Some (length head) ∧ bare_line_feed None head = false ∧
    len (pq_body request) ≤ max_body ∧ head_ok max_count request (len (pq_body request)).

Lemma parse_complete_framed (bytes : list Z) (max_line max_count max_body : Z)
    (request : ParsedRequest) :
  0 ≤ max_count → parse_complete_request_with_limits bytes max_line max_count max_body = Ok request →
  framed bytes max_count max_body request.
Proof.
  intros H0. unfold parse_complete_request_with_limits.
  destruct (find_head_end bytes) as [i|] eqn:Hf; [|done]. cbn [ok_or].
  destruct (parse_head _ _ _) as [[r n]|] eqn:Hp; [|done].
  apply parse_head_ok in Hp as (Hb & Hok); [|done].
  destruct (Z.ltb_spec max_body n); [done|]. cbn [orb].
  destruct (Z.eqb_spec (len (drop (i + length head_end) bytes)) n) as [Hn|]; [|done].
  cbn [negb]. intros [= <-]. exists (take i bytes). cbn [pq_body].
  change (length head_end) with 4%nat in Hn. rewrite Hn.
  pose proof (find_head_end_bound _ _ Hf).
  split_and!; [by apply find_head_end_split|rewrite Hf, length_take; f_equal; lia|done|done|].
  by destruct Hok.
Qed.

(** A request the broker reads is a head up to the first blank line of the stream and the body
    its headers say, and nothing of what follows in the stream is looked at. *)
Theorem accepted_request_is_framed (race : ReadRace) (reader : Reader) (limits : BrokerLimits)
    (max_body : Z) (request : ParsedRequest) :
  0 ≤ max_header_bytes limits → 0 ≤ max_header_count limits →
  read_request race reader limits max_body = Ok request →
  ∃ bytes rest, stream reader = bytes ++ rest ∧
    len bytes ≤ max_header_bytes limits + Z.max 0 max_body ∧
    framed bytes (max_header_count limits) max_body request.
Proof.
  intros Hb Hc. destruct race; try done. cbn [read_request]. unfold read_request_inner.
  destruct (read_head_bytes _ _ reader []) as [[[i bytes] reader1]|] eqn:Hh; [|done].
  apply read_head_bytes_ok in Hh as (Hf & Hm & Hs); [|done]. cbn [app] in Hs.
  destruct (parse_head _ _ _) as [[r n]|] eqn:Hp; [|done].
  destruct (Z.ltb_spec max_body n) as [|Hn]; [done|].
  destruct (match checked_add _ _ _ with Some _ => _ | None => _ end) as [total|] eqn:Ht; [|done].
  cbn [ok_or]. unfold checked_add in Ht.
  destruct (Z.leb_spec (Z.of_nat i + len head_end) u64_max); [|done].
  destruct (Z.leb_spec (Z.of_nat i + len head_end + n) u64_max); [|done]. injection Ht as <-.
  destruct (Z.ltb_spec (Z.of_nat i + len head_end + n) (len bytes)); [done|].
  destruct (read_body_bytes _ _ _ _) as [all|] eqn:Hr; [|done].
  apply read_body_bytes_ok in Hr as (Hl & Hpre & [rest Hrest]); [|lia..]. intros Ha.
  exists all, rest. rewrite Hs. split_and!; [done| |by eapply parse_complete_framed].
  rewrite Hl. pose proof (find_head_end_bound _ _ Hf). unfold len in *. lia.
Qed.

End Parse.
