(* ===== verification/CredBroker.v ===== *)
(** * The credential broker
      ([crates/sendbox-credentials/src/config.rs], [upstream.rs], [session.rs], [broker.rs])

    The broker listens for the agent's HTTP requests, finds the rule whose route a request is
    for, fetches the rule's secret, puts it into the request as the rule's policy says and
    forwards the request, following redirects the policy allows.  What a connection does to the
    world is a list of [Effect]s, in order; what it gets back is asked of its [ConnectionEnv],
    whose answers may depend on all that went before.  The transport is an interface with the
    contract [TransportContract]; [pinned_transport] is the one of [upstream.rs], over the
    resolver and the HTTPS client of [reqwest].  The listener interleaves its connections one
    effect at a time. *)

From S2P Require Import Prelude RustStr Net Address Credential Http1.

#[local] Notation E := CredentialBrokerError.
#[local] Notation headers_of := (list (list Z * list Z)).
#[local] Notation SocketAddr := (ip_addr * Z)%type.

(** ** Configuration ([config.rs]) *)

Definition MAX_RULES : Z := 128.
Definition MAX_CONNECTIONS : Z := 1024.
Definition MAX_HEADER_BYTES : Z := 64 * 1024.
Definition MAX_HEADER_COUNT : Z := 256.
Definition MAX_REQUEST_LINE_BYTES : Z := 8 * 1024.
Definition MAX_REDIRECTS : Z := 10.

Inductive BrokerBind : Type :=
| BindLoopbackV4 (port : Z)
| BindLoopbackV6 (port : Z)
| BindExplicit (address : SocketAddr).

Definition default_bind : BrokerBind := BindLoopbackV4 0.

(** [BrokerBind::socket_addr] *)
Definition socket_addr (bind : BrokerBind) : SocketAddr :=
  match bind with
  | BindLoopbackV4 port => (V4 (ipv4_new 127 0 0 1), port)
  | BindLoopbackV6 port => (V6 1, port)
  | BindExplicit address => address
  end.

Definition default_limits : BrokerLimits :=
  {| max_request_line_bytes := 8 * 1024; max_header_bytes := 32 * 1024; max_header_count := 64;
     max_connections := 64; request_read_timeout := from_secs 10;
     upstream_connect_timeout := from_secs 5; upstream_read_timeout := from_secs 15;
     upstream_total_timeout := from_secs 30; shutdown_timeout := from_secs 5;
     max_redirects := 5 |}.

(** [BrokerLimits::validate] *)
Definition validate_limits (l : BrokerLimits) : result E unit :=
  if (max_request_line_bytes l =? 0) || (MAX_REQUEST_LINE_BYTES <? max_request_line_bytes l) ||
     (max_header_bytes l =? 0) || (MAX_HEADER_BYTES <? max_header_bytes l) ||
     (max_header_count l =? 0) || (MAX_HEADER_COUNT <? max_header_count l) ||
     (max_connections l =? 0) || (MAX_CONNECTIONS <? max_connections l) ||
     (request_read_timeout l =? 0) || (upstream_connect_timeout l =? 0) ||
     (upstream_read_timeout l =? 0) || (upstream_total_timeout l =? 0) ||
     (shutdown_timeout l =? 0) || (MAX_REDIRECTS <? max_redirects l)
  then Err (InvalidConfiguration
    (str "one or more broker limits are zero or exceed the hard maximum"))
  else Ok tt.

(** [UpstreamAddressPolicy], the elements of the set *)
Record UpstreamAddressPolicy : Type := { allowed_restricted_addresses : list ip_addr }.

Definition allowing_restricted (addresses : list ip_addr) : UpstreamAddressPolicy :=
  {| allowed_restricted_addresses := canonicalize <$> addresses |}.

(** [Debug] of [AddressClass] *)
Definition class_debug (class : AddressClass) : string :=
  match class with
  | Unspecified => "Unspecified" | CloudMetadata => "CloudMetadata" | Loopback => "Loopback"
  | LinkLocal => "LinkLocal" | Multicast => "Multicast" | PrivateRfc1918 => "PrivateRfc1918"
  | UniqueLocalIpv6 => "UniqueLocalIpv6" | Global => "Global"
  end.

(** [UpstreamAddressPolicy::authorize] *)
Definition authorize (policy : UpstreamAddressPolicy) (address : ip_addr) : result E ip_addr :=
  let address := canonicalize address in
  let class := classify address in
  if bool_decide (class = Unspecified) ||
     (is_restricted class && negb (bool_decide (address ∈ allowed_restricted_addresses policy)))
  then Err (Upstream (str "resolved address class " ++ str (class_debug class) ++
                      str " is not approved"))
  else Ok address.

Record CredentialRule : Type := {
  rule_id : list Z;
  rule_secret_name : list Z;
  rule_policy : CredentialPolicy;
}.

(** [CredentialRule::new] *)
Definition new_rule (id secret_name : list Z) (policy : CredentialPolicy)
  : result E CredentialRule :=
  if bool_decide (id = []) || (64 <? len id) ||
     negb (forallb (λ byte, is_ascii_alphanumeric byte || bool_decide (byte ∈ [ch_hyphen; 95])) id)
  then Err (InvalidConfiguration
    (str "credential rule IDs must use 1-64 ASCII letters, digits, '-' or '_'"))
  else Ok {| rule_id := id; rule_secret_name := secret_name; rule_policy := policy |}.

Definition route_prefix (rule : CredentialRule) : list Z := str "/credentials/" ++ rule_id rule.

Record BrokerConfiguration : Type := {
  bc_bind : BrokerBind;
  bc_limits : BrokerLimits;
  bc_address_policy : UpstreamAddressPolicy;
  bc_rules : list CredentialRule;
}.

Definition ip_is_unspecified (ip : ip_addr) : bool :=
  match ip with V4 a => v4_is_unspecified a | V6 a => v6_is_unspecified a end.
Definition ip_is_multicast (ip : ip_addr) : bool :=
  match ip with V4 a => v4_is_multicast a | V6 a => v6_is_multicast a end.
Definition ip_is_loopback (ip : ip_addr) : bool :=
  match ip with V4 a => v4_is_loopback a | V6 a => v6_is_loopback a end.

(** The loop of [BrokerConfiguration::validate] over the identifiers *)
Fixpoint unique_ids (ids : list (list Z)) (rules : list CredentialRule) : result E unit :=
  match rules with
  | [] => Ok tt
  | rule :: rules =>
      if bool_decide (rule_id rule ∈ ids)
      then Err (InvalidConfiguration
        (str "credential rule ID `" ++ rule_id rule ++ str "` is duplicated"))
      else unique_ids (rule_id rule :: ids) rules
  end.

(** [BrokerConfiguration::validate] *)
Definition validate_configuration (c : BrokerConfiguration) : result E unit :=
  check? validate_limits (bc_limits c) in
  check? match bc_bind c with
         | BindExplicit address =>
             if ip_is_unspecified address.1 || ip_is_multicast address.1
             then Err (InvalidConfiguration
               (str "explicit broker bind addresses cannot be wildcard or multicast addresses"))
             else Ok tt
         | _ => Ok tt
         end in
  if bool_decide (bc_rules c = []) || (MAX_RULES <? len (bc_rules c))
  then Err (InvalidConfiguration (str "credential broker requires 1-128 rules"))
  else unique_ids [] (bc_rules c).

(** ** Effects *)

(** How a wait ends: with a value, an error of the client, the cancellation or the timeout. *)
Inductive Reply (F A : Type) : Type :=
| Replied (value : A)
| Failed (error : F)
| CancelledFirst
| TimedOutFirst.

Arguments Replied {F A} value.
Arguments Failed {F A} error.
Arguments CancelledFirst {F A}.
Arguments TimedOutFirst {F A}.

Section Broker.
Context {urls : UrlApi} {types : HttpTypesApi}.

(** The URL is its text, as in [SensitiveUrl]. *)
Record UpstreamRequest : Type := {
  ur_method : list Z;
  ur_url : list Z;
  ur_headers : headers_of;
  ur_body : list Z;
  ur_max_response_body_bytes : Z;
}.

Definition from_transformed (t : TransformedRequest) (max_response : Z) : UpstreamRequest :=
  {| ur_method := tr_method t; ur_url := tr_url t; ur_headers := tr_headers t;
     ur_body := tr_body t; ur_max_response_body_bytes := max_response |}.

Record UpstreamResponse : Type := {
  us_status : Z;
  us_headers : headers_of;
  us_body : list Z;
}.

Inductive BrokerAuditEvent : Type :=
| AuditRequest (metadata : AuditSafeRequestMetadata)
| AuditResponse (method target_host path : list Z) (status response_body_bytes : Z)
| AuditRejected (peer : SocketAddr) (reason : string)
| AuditListenerFailure (reason : string).

(** A request given to the HTTPS client: the addresses the host's name is pinned to. *)
Record Dial : Type := {
  d_host : list Z;
  d_pinned : list SocketAddr;
  d_method : list Z;
  d_url : Url;
  d_headers : headers_of;
  d_body : list Z;
}.

Inductive Effect : Type :=
| Audited (event : BrokerAuditEvent)
| LookedUp (name : list Z)
| Sent (request : UpstreamRequest)
| Dialed (dial : Dial)
| Wrote (bytes : list Z).

(** ** The transport ([upstream.rs]) *)

(** The total timeout may expire at each wait of [send]. *)
Inductive SendError : Type :=
| TotalTimeout
| SendFailed (error : E).

Record UpstreamTransport : Type := {
  send : UpstreamRequest → BrokerLimits → UpstreamAddressPolicy → list Effect →
         result SendError UpstreamResponse * list Effect;
}.

(** The properties of a [reqwest::Error] *)
Record ReqwestError : Type := {
  is_timeout : bool; is_connect : bool; is_body : bool; is_decode : bool; is_builder : bool;
}.

Definition reqwest_error_kind (e : ReqwestError) : string :=
  if is_timeout e then "timeout" else if is_connect e then "connect"
  else if is_body e then "body" else if is_decode e then "decode"
  else if is_builder e then "builder" else "transport".

Definition settle {F A : Type} (failure : F → E) (reply : Reply F A) : result SendError A :=
  match reply with
  | Replied value => Ok value
  | Failed error => Err (SendFailed (failure error))
  | CancelledFirst => Err (SendFailed Cancelled)
  | TimedOutFirst => Err TotalTimeout
  end.

Record ClientResponse : Type := {
  cr_status : Z;
  cr_headers : headers_of;
  cr_content_length : option Z;
  cr_chunks : list (Reply ReqwestError (list Z));
}.

(** The resolver and the HTTPS client of one connection. *)
Record HttpsClient : Type := {
  hc_resolve : list Effect → list Z → Z → Reply E (list SocketAddr);
  hc_builds : list Effect → bool;
  hc_send : list Effect → Dial → Reply ReqwestError ClientResponse;
}.

(** [SystemResolver::resolve]; the reply is the one of [lookup_host]. *)
Definition system_resolve (reply : Reply unit (list SocketAddr)) : Reply E (list SocketAddr) :=
  match reply with
  | Replied [] => Failed (Upstream (str "upstream hostname resolved to no addresses"))
  | Replied addresses => Replied addresses
  | Failed _ => Failed IoFailed
  | CancelledFirst => CancelledFirst
  | TimedOutFirst => TimedOutFirst
  end.

(** The addresses [send] pins. *)
Definition pin_addresses (policy : UpstreamAddressPolicy) (resolved : list SocketAddr)
  : result E (list SocketAddr) :=
  let? pinned :=
    collect (λ address, let? ip := authorize policy address.1 in Ok (ip, 443)) resolved in
  Ok (dedup_by (λ x y, bool_decide (x = y)) (sort_by (λ x y, ip_leb x.1 y.1) pinned)).

(** The size of a list of headers, as [send] and [validate_upstream_response] count it *)
Definition header_size (headers : headers_of) : Z :=
  foldl (λ total h, saturating_add u64_max
    (saturating_add u64_max (saturating_add u64_max total (len h.1)) (len h.2)) 4) 0 headers.

Definition headers_exceed (limits : BrokerLimits) (headers : headers_of) : bool :=
  (max_header_count limits <? len headers) || (max_header_bytes limits <? header_size headers).

Definition HEADERS_EXCEED : list Z := str "upstream response headers exceed the configured limit".

(** The loop that reads the body of a response *)
Fixpoint read_chunks (max : Z) (chunks : list (Reply ReqwestError (list Z))) (body : list Z)
  : result SendError (list Z) :=
  match chunks with
  | [] => Ok body
  | reply :: chunks =>
      let? chunk := settle (λ error, Upstream
        (str "upstream response read failed (" ++ str (reqwest_error_kind error) ++ str ")"))
        reply in
      if max <? saturating_add u64_max (len body) (len chunk)
      then Err (SendFailed (PolicyRejected ResponseTooLarge))
      else read_chunks max chunks (body ++ chunk)
  end.

(** What [PinnedHttpsTransport::send] does before the client sends. *)
Definition prepare_dial (client : HttpsClient) (request : UpstreamRequest)
    (policy : UpstreamAddressPolicy) (tr : list Effect) : result SendError Dial :=
  let upstream {A : Type} (message : string) : result SendError A :=
    Err (SendFailed (Upstream (str message))) in
  match url_parse (ur_url request) with
  | None => upstream "transformed upstream URL is invalid"
  | Some url =>
      if negb (bool_decide (scheme url = str "https")) ||
         negb (bool_decide (port_or_known_default url = Some 443))
      then upstream "upstream URL must use verified HTTPS on port 443"
      else match host_str url with
           | None => upstream "upstream URL has no hostname"
           | Some host =>
               let? resolved := settle (λ error, error) (hc_resolve client tr host 443) in
               let? pinned := map_err SendFailed (pin_addresses policy resolved) in
               if negb (hc_builds client tr)
               then upstream "could not initialize certificate-verifying HTTPS client"
               else if negb (forallb (λ h, bool_decide (is_Some (header_value h.2)))
                                     (ur_headers request))
               then upstream "transformed header value is invalid"
               else Ok {| d_host := host; d_pinned := pinned; d_method := ur_method request;
                          d_url := url; d_headers := ur_headers request;
                          d_body := ur_body request |}
           end
  end.

(** What it does with the client's reply. *)
Definition receive (request : UpstreamRequest) (limits : BrokerLimits)
    (reply : Reply ReqwestError ClientResponse) : result SendError UpstreamResponse :=
  let? response := settle (λ error, Upstream
    (str "HTTPS request failed (" ++ str (reqwest_error_kind error) ++ str ")")) reply in
  if headers_exceed limits (cr_headers response)
  then Err (SendFailed (Upstream HEADERS_EXCEED))
  else if match cr_content_length response with
          | Some length => ur_max_response_body_bytes request <? length
          | None => false
          end
  then Err (SendFailed (PolicyRejected ResponseTooLarge))
  else
    let? body := read_chunks (ur_max_response_body_bytes request) (cr_chunks response) [] in
    Ok {| us_status := cr_status response; us_headers := strip_hop_by_hop (cr_headers response);
          us_body := body |}.

(** [PinnedHttpsTransport] *)
Definition pinned_transport (client : HttpsClient) : UpstreamTransport :=
  {| send request limits policy tr :=
       match prepare_dial client request policy tr with
       | Err error => (Err error, tr)
       | Ok dial =>
           let tr := tr ++ [Dialed dial] in (receive request limits (hc_send client tr dial), tr)
       end |}.

(** ** What the agent is told ([session.rs]) *)

(** [Display] of a socket address *)
Definition show_socket (address : SocketAddr) : list Z :=
  match address.1 with
  | V4 a => show_ipv4 a
  | V6 a => str "[" ++ show_ipv6 a ++ str "]"
  end ++ [ch_colon] ++ show_dec address.2.

Record AgentCredentialEndpoint : Type := {
  ep_rule_id : list Z;
  ep_base_url : Url;
  ep_upstream_host : list Z;
  ep_upstream_path_prefix : list Z;
}.

Record BrokerAgentConfiguration : Type := {
  ac_listener_url : Url;
  ac_endpoints : list AgentCredentialEndpoint;
  ac_supports_connect : bool;
  ac_requires_explicit_base_url : bool;
}.

(** [BrokerAgentConfiguration::new]; [url_error] is the text of an error of the crate [url]. *)
Definition agent_configuration (url_error : list Z) (local_addr : SocketAddr)
    (rules : list CredentialRule) : result E BrokerAgentConfiguration :=
  let? listener_url := ok_or (url_parse (str "http://" ++ show_socket local_addr ++ str "/"))
    (InvalidConfiguration (str "could not construct broker listener URL: " ++ url_error)) in
  let? endpoints := collect (λ rule,
    let? base_url := ok_or
      (url_join listener_url (str "credentials/" ++ rule_id rule ++ str "/" ++
         trim_start_matches ch_slash (path_prefix (rule_policy rule))))
      (InvalidConfiguration
        (str "could not construct agent credential endpoint: " ++ url_error)) in
    Ok {| ep_rule_id := rule_id rule; ep_base_url := base_url;
          ep_upstream_host := target_host (rule_policy rule);
          ep_upstream_path_prefix := path_prefix (rule_policy rule) |}) rules in
  Ok {| ac_listener_url := listener_url; ac_endpoints := endpoints; ac_supports_connect := false;
        ac_requires_explicit_base_url := true |}.

Record GitHubSessionCredentials : Type := {
  github_token : option (list Z);
  copilot_token : option (list Z);
}.

Record SessionCredentialConfiguration : Type := {
  sc_session_id : list Z;
  sc_broker : BrokerAgentConfiguration;
  sc_github : GitHubSessionCredentials;
}.

(** [SessionCredentialConfiguration::new] *)
Definition session_configuration (session_id : list Z) (broker : BrokerAgentConfiguration)
    (github : GitHubSessionCredentials) : result E SessionCredentialConfiguration :=
  if bool_decide (session_id = []) || (128 <? len session_id) || has_control session_id
  then Err (InvalidConfiguration (str "session ID must be 1-128 bytes without control characters"))
  else Ok {| sc_session_id := session_id; sc_broker := broker; sc_github := github |}.

(** ** Forwarding ([broker.rs]) *)

(** Code with effects, which may fail. *)
Definition M (A : Type) : Type := list Effect → result E A * list Effect.

Definition lift {A : Type} (r : result E A) : M A := λ tr, (r, tr).
Definition emit (e : Effect) : M unit := λ tr, (Ok tt, tr ++ [e]).
Definition andThen {A B : Type} (m : M A) (k : A → M B) : M B := λ tr,
  match m tr with
  | (Ok a, tr) => k a tr
  | (Err e, tr) => (Err e, tr)
  end.

#[local] Notation "'let!' x ':=' m 'in' k" := (andThen m (λ x, k))
  (at level 10, x name, k at level 200).
#[local] Notation "'let!' ' p ':=' m 'in' k" := (andThen m (λ x, match x with p => k end))
  (at level 10, p strict pattern, k at level 200).

(** How the lookup of a secret ends. *)
Inductive Lookup : Type :=
| SecretFound (secret : list Z)
| SecretError (error : E)
| LookupTaskFailed (text : list Z)
| LookupCancelled.

(** The world of one connection. *)
Record ConnectionEnv : Type := {
  ce_race : ReadRace;
  ce_reader : list (option (list Z));
  ce_local_addr : option SocketAddr;
  ce_lookup : list Z → Lookup;
  ce_transport : UpstreamTransport;
  (** Whether the response can be written. *)
  ce_writes : bool;
}.

(** [validate_host] *)
Definition validate_host (request : ParsedRequest) (local_addr : SocketAddr) : result E unit :=
  let? host := ok_or
    (match list_find (λ h, h.1 = str "host") (pq_headers request) with
     | Some (_, h) => header_to_str h.2
     | None => None
     end) (InvalidRequest "Host header is not valid ASCII") in
  let expected := show_socket local_addr in
  let localhost := str "localhost:" ++ show_dec local_addr.2 in
  let loopback_alias_allowed :=
    ip_is_loopback local_addr.1 && eq_ignore_ascii_case host localhost in
  if negb (bool_decide (host = expected)) && negb loopback_alias_allowed
  then Err (InvalidRequest "Host header does not match the credential broker listener")
  else Ok tt.

(** Whether a rule's route is the one of a path. *)
Definition routes (path : list Z) (rule : CredentialRule) : bool :=
  bool_decide (path = route_prefix rule) || starts_with path (route_prefix rule ++ [ch_slash]).

(** [select_rule] *)
Definition select_rule (request : ParsedRequest) (rules : list CredentialRule)
  : result E (CredentialRule * Url) :=
  let? ' (_, _, path) :=
    ok_or (uri_from_str (pq_target request)) (InvalidRequest "request target is invalid") in
  let? ' (_, rule) := ok_or (list_find (λ rule, routes path rule = true) rules)
    (InvalidRequest "request target does not match a credential rule") in
  let remainder := drop (length (route_prefix rule)) (pq_target request) in
  if negb (starts_with remainder [ch_slash])
  then Err (InvalidRequest "credential route must be followed by the original upstream path")
  else
    let? upstream := ok_or (url_parse (str "https://" ++ target_host (rule_policy rule) ++ remainder))
      (InvalidRequest "upstream target is invalid") in
    Ok (rule, upstream).

(** [validate_upstream_response] *)
Definition validate_upstream_response (rule : CredentialRule) (response : UpstreamResponse)
    (limits : BrokerLimits) : result E unit :=
  check? map_err PolicyRejected
    (validate_response_size (rule_policy rule) (len (us_body response))) in
  if headers_exceed limits (us_headers response) then Err (Upstream HEADERS_EXCEED) else Ok tt.

(** [single_location] *)
Definition single_location (headers : headers_of) : result E (list Z) :=
  match filter (λ h, h.1 = str "location") headers with
  | [] => Err (Upstream (str "redirect response has no Location header"))
  | [h] => ok_or (header_to_str h.2) (Upstream (str "redirect Location is not valid ASCII"))
  | _ => Err (Upstream (str "redirect response has duplicate Location headers"))
  end.

(** [StatusCode::is_redirection] *)
Definition is_redirection (status : Z) : bool := (300 <=? status) && (status <? 400).

(** [apply_redirect_semantics]: the method and the body of the next request *)
Definition apply_redirect_semantics (status : Z) (method body : list Z)
  : result E (list Z * list Z) :=
  if (status =? 307) || (status =? 308) then Ok (method, body)
  else if ((status =? 301) || (status =? 302)) &&
          (bool_decide (method = str "GET") || bool_decide (method = str "HEAD"))
  then Ok (method, body)
  else if status =? 303
  then Ok (if bool_decide (method = str "HEAD") then method else str "GET", [])
  else Err (Upstream (str "redirect status is unsafe for the request method")).

(** The call of the transport, in the total timeout *)
Definition send_request (c : BrokerConfiguration) (env : ConnectionEnv)
    (request : UpstreamRequest) : M UpstreamResponse := λ tr,
  let '(reply, tr) :=
    send (ce_transport env) request (bc_limits c) (bc_address_policy c) (tr ++ [Sent request]) in
  (map_err (λ error, match error with
     | TotalTimeout => Upstream (str "upstream request exceeded the total timeout")
     | SendFailed error => error
     end) reply, tr).

(** The loop of [forward_with_redirects] over the numbers of redirects *)
Fixpoint forward_loop (c : BrokerConfiguration) (env : ConnectionEnv) (rule : CredentialRule)
    (secret : list Z) (headers : headers_of) (numbers : list Z) (method body : list Z) (url : Url)
  : M UpstreamResponse :=
  match numbers with
  | [] => lift (Err (Upstream (str "upstream redirect state is invalid")))
  | redirects :: numbers =>
      let policy := rule_policy rule in
      let! transformed := lift (map_err PolicyRejected (transform policy
        {| br_method := method; br_url := url; br_headers := headers; br_body := body |}
        secret)) in
      let! _ := emit (Audited (AuditRequest (tr_audit transformed))) in
      let request := from_transformed transformed (max_response_body_bytes policy) in
      let! response := send_request c env request in
      let! _ := lift (validate_upstream_response rule response (bc_limits c)) in
      if negb (is_redirection (us_status response)) then
        let! _ := emit (Audited (AuditResponse method (target_host policy) (url_path url)
          (us_status response) (len (us_body response)))) in
        lift (Ok response)
      else if redirects =? max_redirects (bc_limits c)
      then lift (Err (Upstream (str "upstream redirect limit was exceeded")))
      else
        let! location := lift (single_location (us_headers response)) in
        let! next := lift (ok_or (url_join url location)
          (Upstream (str "upstream redirect location is invalid"))) in
        let! _ := lift (map_err PolicyRejected (authorize_redirect policy url next)) in
        let! ' (method, body) :=
          lift (apply_redirect_semantics (us_status response) method body) in
        forward_loop c env rule secret headers numbers method body next
  end.

(** [forward_with_redirects] *)
Definition forward_with_redirects (c : BrokerConfiguration) (env : ConnectionEnv)
    (rule : CredentialRule) (parsed : ParsedRequest) (initial_url : Url) (secret : list Z)
  : M UpstreamResponse :=
  forward_loop c env rule secret (strip_hop_by_hop (pq_headers parsed))
    (seqZ 0 (max_redirects (bc_limits c) + 1)) (pq_method parsed) (pq_body parsed) initial_url.

Definition CRLF : list Z := [ch_cr; ch_lf].

(** The bytes of [write_upstream_response] *)
Definition response_bytes (response : UpstreamResponse) : list Z :=
  let reason := default (str "Upstream Response") (canonical_reason (us_status response)) in
  str "HTTP/1.1 " ++ show_dec (us_status response) ++ str " " ++ reason ++ CRLF ++
  flat_map (λ h, if bool_decide (h.1 = str "content-length") then []
                 else h.1 ++ str ": " ++ h.2 ++ CRLF) (strip_hop_by_hop (us_headers response)) ++
  str "content-length: " ++ show_dec (len (us_body response)) ++ CRLF ++
  str "connection: close" ++ CRLF ++ CRLF ++ us_body response.

(** [write_upstream_response] *)
Definition write_upstream_response (env : ConnectionEnv) (response : UpstreamResponse) : M unit :=
  let! _ := emit (Wrote (response_bytes response)) in
  lift (if ce_writes env then Ok tt else Err IoFailed).

(** The bytes of [write_error_response] *)
Definition error_response (status : Z) : list Z :=
  let reason := default (str "Request Failed") (canonical_reason status) in
  let body := reason ++ [ch_lf] in
  str "HTTP/1.1 " ++ show_dec status ++ str " " ++ reason ++ CRLF ++
  str "content-type: text/plain; charset=utf-8" ++ CRLF ++
  str "content-length: " ++ show_dec (len body) ++ CRLF ++
  str "connection: close" ++ CRLF ++ CRLF ++ body.

(** [error_status] *)
Definition error_status (error : E) : Z :=
  match error with
  | RequestTimeout => 408
  | InvalidRequest message =>
      if contains_sub (str message) (str "CONNECT credential injection") then 405
      else if contains_sub (str message) (str "body exceeds") ||
              contains_sub (str message) (str "Content-Length is too large") then 413
      else 400
  | PolicyRejected _ => 400
  | Cancelled => 503
  | _ => 502
  end.

(** [rejection_reason] *)
Definition rejection_reason (error : E) : string :=
  match error with
  | InvalidRequest _ => "invalid HTTP request"
  | RequestTimeout => "request read timeout"
  | Cancelled => "broker shutdown"
  | PolicyRejected _ => "credential policy rejection"
  | SecretFailed _ => "secret lookup failure"
  | Upstream _ => "upstream failure"
  | IoFailed => "connection I/O failure"
  | InvalidConfiguration _ | InvalidGitHubMetadata _ | GitHubCommand _ | GitHubAuthorization _
  | RuntimeFailed _ => "broker internal failure"
  end.

(** The lookup of [handle_connection] *)
Definition retrieve (env : ConnectionEnv) (name : list Z) : M (list Z) :=
  let! _ := emit (LookedUp name) in
  lift match ce_lookup env name with
       | SecretFound secret => Ok secret
       | SecretError error => Err error
       | LookupTaskFailed text => Err (Upstream (str "secret lookup task failed: " ++ text))
       | LookupCancelled => Err Cancelled
       end.

(** The largest body a rule allows *)
Definition max_request_body (c : BrokerConfiguration) : Z :=
  match (λ rule, max_request_body_bytes (rule_policy rule)) <$> bc_rules c with
  | [] => 0
  | size :: sizes => foldl Z.max size sizes
  end.

(** [handle_connection] *)
Definition handle_connection (c : BrokerConfiguration) (env : ConnectionEnv) : M unit :=
  let! parsed :=
    lift (read_request (ce_race env) (ce_reader env) (bc_limits c) (max_request_body c)) in
  let! local_addr := lift (ok_or (ce_local_addr env) IoFailed) in
  let! _ := lift (validate_host parsed local_addr) in
  let! ' (rule, upstream_url) := lift (select_rule parsed (bc_rules c)) in
  let! secret := retrieve env (rule_secret_name rule) in
  let! response := forward_with_redirects c env rule parsed upstream_url secret in
  write_upstream_response env response.

(** What the task of a connection does after [handle_connection], when the permit is free. *)
Definition afterwards (peer : SocketAddr) (outcome : result E unit) : list Effect :=
  match outcome with
  | Ok _ => []
  | Err error =>
      [Audited (AuditRejected peer (rejection_reason error));
       Wrote (error_response (error_status error))]
  end.

(** All effects of the task of a connection *)
Definition connection_effects (c : BrokerConfiguration) (peer : SocketAddr) (env : ConnectionEnv)
  : list Effect :=
  let '(outcome, tr) := handle_connection c env [] in tr ++ afterwards peer outcome.

(** ** The listener *)

Record Task : Type := {
  (** What is left of [handle_connection], while the permit is held. *)
  tk_handling : option (list Effect);
  tk_after : list Effect;
}.

Inductive Phase : Type := Accepting | Draining | Stopped.

Record Listener : Type := {
  li_phase : Phase;
  li_next : nat;
  li_tasks : gmap nat Task;
  (** Tasks that panicked and are not joined. *)
  li_panicked : nat;
  (** What was done, by which connection. *)
  li_log : list (option nat * Effect);
}.

Definition new_listener : Listener :=
  {| li_phase := Accepting; li_next := 0; li_tasks := ∅; li_panicked := 0; li_log := [] |}.

Inductive ListenerEvent : Type :=
| AcceptFails
| Accepts (peer : SocketAddr) (env : ConnectionEnv)
| Proceeds (id : nat)
| Panics (id : nat)
| JoinsPanicked
| Cancels
| DrainTimesOut.

(** The permits in use *)
Definition permits (tasks : gmap nat Task) : Z :=
  Z.of_nat (size (filter (λ p, is_Some (tk_handling p.2)) tasks)).

(** A task does its next effect, gives back its permit or ends. *)
Definition proceed (id : nat) (task : Task) (l : Listener) : Listener :=
  let with_tasks tasks log :=
    {| li_phase := li_phase l; li_next := li_next l; li_tasks := tasks;
       li_panicked := li_panicked l; li_log := li_log l ++ log |} in
  match tk_handling task, tk_after task with
  | Some (e :: rest), after =>
      with_tasks (<[id := {| tk_handling := Some rest; tk_after := after |}]> (li_tasks l))
        [(Some id, e)]
  | Some [], after =>
      with_tasks (<[id := {| tk_handling := None; tk_after := after |}]> (li_tasks l)) []
  | None, e :: after =>
      with_tasks (<[id := {| tk_handling := None; tk_after := after |}]> (li_tasks l))
        [(Some id, e)]
  | None, [] => with_tasks (delete id (li_tasks l)) []
  end.

(** [run_listener], one event at a time *)
Definition listener_step (c : BrokerConfiguration) (l : Listener) (event : ListenerEvent)
  : Listener :=
  let logged log :=
    {| li_phase := li_phase l; li_next := li_next l; li_tasks := li_tasks l;
       li_panicked := li_panicked l; li_log := li_log l ++ log |} in
  match event, li_phase l with
  | AcceptFails, Accepting =>
      logged [(None, Audited (AuditListenerFailure "listener accept failure"))]
  | Accepts peer env, Accepting =>
      if max_connections (bc_limits c) <=? permits (li_tasks l) then
        logged [(None, Audited (AuditRejected peer "concurrency limit reached"));
                (None, Wrote (error_response 503))]
      else
        let '(outcome, tr) := handle_connection c env [] in
        {| li_phase := Accepting; li_next := S (li_next l);
           li_tasks := <[li_next l := {| tk_handling := Some tr;
                                         tk_after := afterwards peer outcome |}]> (li_tasks l);
           li_panicked := li_panicked l; li_log := li_log l |}
  | Proceeds id, (Accepting | Draining) =>
      match li_tasks l !! id with Some task => proceed id task l | None => l end
  | Panics id, (Accepting | Draining) =>
      match li_tasks l !! id with
      | Some _ => {| li_phase := li_phase l; li_next := li_next l;
                     li_tasks := delete id (li_tasks l); li_panicked := S (li_panicked l);
                     li_log := li_log l |}
      | None => l
      end
  | JoinsPanicked, Accepting =>
      match li_panicked l with
      | O => l
      | S n => {| li_phase := Accepting; li_next := li_next l; li_tasks := li_tasks l;
                  li_panicked := n;
                  li_log := li_log l ++
                    [(None, Audited (AuditListenerFailure "connection task failed"))] |}
      end
  | Cancels, Accepting =>
      {| li_phase := Draining; li_next := li_next l; li_tasks := li_tasks l;
         li_panicked := li_panicked l; li_log := li_log l |}
  | DrainTimesOut, Draining =>
      {| li_phase := Stopped; li_next := li_next l; li_tasks := ∅; li_panicked := 0;
         li_log := li_log l |}
  | _, _ => l
  end.

Definition listener_run (c : BrokerConfiguration) (events : list ListenerEvent) : Listener :=
  foldl (listener_step c) new_listener events.

(** [CredentialBroker::start]; [bound] is the address the listener is bound to. *)
Definition start (url_error : list Z) (c : BrokerConfiguration) (bound : option SocketAddr)
  : result E (SocketAddr * BrokerAgentConfiguration) :=
  check? validate_configuration c in
  let? local_addr := ok_or bound IoFailed in
  let? agent := agent_configuration url_error local_addr (bc_rules c) in
  Ok (local_addr, agent).

End Broker.
