(* ===== verification/CredBrokerSafety.v ===== *)
(** * What the credential broker guarantees

    A secret leaves the broker only inside requests to the host of a rule that names it, over
    HTTPS, on an address that was authorized, with an allowed method and path and after the
    request was recorded ([credential_stays_on_target]), whatever the agent, the upstream
    servers and the resolver do and however the connections interleave.  Nothing else the broker
    does depends on the secret: the audit events and the bytes the agent reads are the same for
    any other secret ([secret_is_not_observable]). *)

From S2P Require Import Prelude RustStr Net Address Digest Credential Http1 CredBroker.

#[local] Notation SocketAddr := (ip_addr * Z)%type.

Section Safety.
Context {urls : UrlApi} {types : HttpTypesApi} {url_laws : UrlLaws urls}.

(** ** The contract of a transport *)

(** A transport dials at most once for a request, as [dial_ok] says, and does nothing else the
    broker can see. *)
Class TransportContract (dial_ok : UpstreamAddressPolicy → UpstreamRequest → Dial → Prop)
    (t : UpstreamTransport) : Prop := {
  send_dials (request : UpstreamRequest) (limits : BrokerLimits) (policy : UpstreamAddressPolicy)
      (tr : list Effect) :
    (send t request limits policy tr).2 = tr ∨
    ∃ dial, (send t request limits policy tr).2 = tr ++ [Dialed dial] ∧ dial_ok policy request dial;
}.

(** An address a credential may be sent to. *)
Definition approved (policy : UpstreamAddressPolicy) (ip : ip_addr) : Prop :=
  classify ip ≠ Unspecified ∧
  (classify ip = Global ∨ ip ∈ allowed_restricted_addresses policy).

Lemma authorize_ok (policy : UpstreamAddressPolicy) (ip ip' : ip_addr) :
  authorize policy ip = Ok ip' → ip' = canonicalize ip ∧ approved policy ip'.
Proof.
  unfold authorize, approved. destruct (_ || _) eqn:Hc; [done|]. intros [= <-].
  apply orb_false_iff in Hc as [H1 H2]. bool_to_prop. split_and!; try done.
  destruct (classify (canonicalize ip)) eqn:Hk; try done; cbn in H2; bool_to_prop; auto.
Qed.

(** The dials of the pinned transport. *)
Record pinned_dial (policy : UpstreamAddressPolicy) (request : UpstreamRequest) (d : Dial)
  : Prop := {
  pd_url : url_parse (ur_url request) = Some (d_url d);
  pd_host : host_str (d_url d) = Some (d_host d);
  pd_scheme : scheme (d_url d) = str "https";
  pd_port : port_or_known_default (d_url d) = Some 443;
  pd_pinned : ∀ address, address ∈ d_pinned d →
    address.2 = 443 ∧ approved policy address.1;
  pd_method : d_method d = ur_method request;
  pd_headers : d_headers d = ur_headers request;
  pd_body : d_body d = ur_body request;
}.

Lemma pin_addresses_ok (policy : UpstreamAddressPolicy) (resolved pinned : list SocketAddr)
    (address : SocketAddr) :
  pin_addresses policy resolved = Ok pinned → address ∈ pinned →
  address.2 = 443 ∧ approved policy address.1.
Proof.
  unfold pin_addresses. destruct (collect _ _) as [all|] eqn:Hc; [|done]. intros [= <-] Hin.
  apply elem_of_dedup_by, elem_of_sort_by, list_elem_of_lookup in Hin as [i Hi].
  apply collect_ok in Hc. destruct (Forall2_lookup_r _ _ _ _ _ Hc Hi) as (raw & _ & Hr).
  cbn in Hr. destruct (authorize policy raw.1) as [ip|] eqn:Ha; [|done]. injection Hr as <-.
  split; [done|]. by apply authorize_ok in Ha as [_ ?].
Qed.

#[global] Instance pinned_contract (client : HttpsClient) :
  TransportContract pinned_dial (pinned_transport client).
Proof.
  split. intros request limits policy tr. cbn [send pinned_transport].
  destruct (prepare_dial client request policy tr) as [d|] eqn:Hp; [|by left].
  right. exists d. split; [done|]. unfold prepare_dial in Hp.
  destruct (url_parse (ur_url request)) as [url|] eqn:Hu; [|done].
  destruct (negb _ || negb _) eqn:Hs; [done|]. bool_to_prop.
  destruct (host_str url) as [host|] eqn:Hh; [|done].
  destruct (settle _ _) as [resolved|]; [|done].
  destruct (pin_addresses policy resolved) as [pinned|] eqn:Ha; [|done]. cbn [map_err] in Hp.
  destruct (negb (hc_builds _ _)); [done|]. destruct (negb (forallb _ _)); [done|].
  injection Hp as <-. split; try done. intros address Hin. by eapply pin_addresses_ok.
Qed.

(** ** Traces *)

(** [m] records the request [r], which carries the secret of a rule of the configuration and
    was made from what the agent sent. *)
Definition justified (c : BrokerConfiguration) (env : ConnectionEnv) (tr : list Effect)
    (m : AuditSafeRequestMetadata) (r : UpstreamRequest) : Prop :=
  ∃ rule secret parsed request t,
    rule ∈ bc_rules c ∧ LookedUp (rule_secret_name rule) ∈ tr ∧
    ce_lookup env (rule_secret_name rule) = SecretFound secret ∧
    read_request (ce_race env) (ce_reader env) (bc_limits c) (max_request_body c) = Ok parsed ∧
    br_headers request = strip_hop_by_hop (pq_headers parsed) ∧
    transform (rule_policy rule) request secret = Ok t ∧
    m = tr_audit t ∧ r = from_transformed t (max_response_body_bytes (rule_policy rule)).

(** When an effect may follow a trace. *)
Definition may_follow (dial_ok : UpstreamAddressPolicy → UpstreamRequest → Dial → Prop)
    (c : BrokerConfiguration) (env : ConnectionEnv) (tr : list Effect) (e : Effect) : Prop :=
  match e with
  | Sent r => ∃ m, last tr = Some (Audited (AuditRequest m)) ∧ justified c env tr m r
  | Dialed d => ∃ r, last tr = Some (Sent r) ∧ dial_ok (bc_address_policy c) r d
  | _ => True
  end.

Inductive trace_ok (dial_ok : UpstreamAddressPolicy → UpstreamRequest → Dial → Prop)
    (c : BrokerConfiguration) (env : ConnectionEnv) : list Effect → Prop :=
| trace_nil : trace_ok dial_ok c env []
| trace_snoc (tr : list Effect) (e : Effect) :
    trace_ok dial_ok c env tr → may_follow dial_ok c env tr e →
    trace_ok dial_ok c env (tr ++ [e]).

Section Connection.
Context (dial_ok : UpstreamAddressPolicy → UpstreamRequest → Dial → Prop).
Context (c : BrokerConfiguration) (env : ConnectionEnv).
Context {contract : TransportContract dial_ok (ce_transport env)}.

#[local] Notation trace_ok := (trace_ok dial_ok c env).

Lemma trace_ok_snoc (tr : list Effect) (e : Effect) :
  trace_ok (tr ++ [e]) → trace_ok tr ∧ may_follow dial_ok c env tr e.
Proof.
  intros H. remember (tr ++ [e]) as tr' eqn:Ht. destruct H as [|tr' e' H1 H2].
  - by destruct tr.
  - by apply app_inj_tail in Ht as [<- <-].
Qed.

Lemma trace_ok_app (tr1 tr2 : list Effect) : trace_ok (tr1 ++ tr2) → trace_ok tr1.
Proof.
  induction tr2 as [|e tr2 IH] using rev_ind; [by rewrite app_nil_r|].
  rewrite app_assoc. intros [H _]%trace_ok_snoc. auto.
Qed.

Lemma trace_ok_quiet (tr : list Effect) (e : Effect) :
  match e with Sent _ | Dialed _ => False | _ => True end → trace_ok tr → trace_ok (tr ++ [e]).
Proof. intros He Ht. constructor; [done|]. by destruct e. Qed.

Lemma trace_ok_at (tr : list Effect) (i : nat) (e : Effect) :
  trace_ok tr → tr !! i = Some e → may_follow dial_ok c env (take i tr) e ∧ trace_ok (take i tr).
Proof.
  intros Ht Hi. rewrite <-(take_drop_middle tr i e Hi) in Ht. rewrite cons_middle, app_assoc in Ht.
  by apply trace_ok_app, trace_ok_snoc in Ht as [? ?].
Qed.

Lemma send_request_ok (m : AuditSafeRequestMetadata) (r : UpstreamRequest) (tr : list Effect) :
  trace_ok tr → last tr = Some (Audited (AuditRequest m)) → justified c env tr m r →
  trace_ok (send_request c env r tr).2 ∧ tr `prefix_of` (send_request c env r tr).2.
Proof.
  intros Ht Hl Hj. unfold send_request.
  assert (trace_ok (tr ++ [Sent r])) as Hs by (constructor; [done|by exists m]).
  destruct (send_dials r (bc_limits c) (bc_address_policy c) (tr ++ [Sent r])) as [H|(d & H & Hd)];
    destruct (send _ _ _ _ _) as [reply tr']; cbn [snd] in *; subst tr'.
  - split; [done|]. by eexists.
  - split; [constructor; [done|exists r; by rewrite last_snoc]|].
    rewrite <-app_assoc. by eexists.
Qed.

Lemma forward_loop_ok (rule : CredentialRule) (secret : list Z) (parsed : ParsedRequest)
    (numbers : list Z) (method body : list Z) (url : Url) (tr : list Effect) :
  rule ∈ bc_rules c → LookedUp (rule_secret_name rule) ∈ tr →
  ce_lookup env (rule_secret_name rule) = SecretFound secret →
  read_request (ce_race env) (ce_reader env) (bc_limits c) (max_request_body c) = Ok parsed →
  trace_ok tr →
  trace_ok (forward_loop c env rule secret (strip_hop_by_hop (pq_headers parsed)) numbers
              method body url tr).2.
Proof.
  intros Hr Hl Hs Hp. revert method body url tr Hl.
  induction numbers as [|n numbers IH]; intros method body url tr Hl Ht; [done|].
  cbn [forward_loop]. unfold andThen, lift, emit.
  destruct (transform _ _ _) as [t|] eqn:Hx; [|done]. cbn [map_err].
  set (tr1 := tr ++ [Audited (AuditRequest (tr_audit t))]).
  set (r := from_transformed t _).
  assert (trace_ok tr1) as Ht1 by (by apply trace_ok_quiet).
  assert (justified c env tr1 (tr_audit t) r) as Hj.
  { exists rule, secret, parsed, {| br_method := method; br_url := url;
      br_headers := strip_hop_by_hop (pq_headers parsed); br_body := body |}, t.
    split_and!; try done. set_solver. }
  destruct (send_request_ok (tr_audit t) r tr1) as [Ht2 [more Hm]];
    [done|unfold tr1; by rewrite last_snoc|done|].
  destruct (send_request c env r tr1) as [[response|] tr2]; cbn [snd] in *; [|done].
  assert (LookedUp (rule_secret_name rule) ∈ tr2) as Hl2 by (subst tr2; set_solver).
  destruct (validate_upstream_response _ _ _); [|done].
  destruct (negb (is_redirection _)); [by apply trace_ok_quiet|].
  destruct (n =? _); [done|]. destruct (single_location _); [|done].
  destruct (url_join _ _) as [next|]; [|done]. cbn [ok_or].
  destruct (authorize_redirect _ _ _); [|done]. cbn [map_err].
  destruct (apply_redirect_semantics _ _ _) as [[m b]|]; [|done]. by apply IH.
Qed.

Lemma select_rule_in (parsed : ParsedRequest) (rules : list CredentialRule)
    (rule : CredentialRule) (url : Url) :
  select_rule parsed rules = Ok (rule, url) → rule ∈ rules.
Proof.
  unfold select_rule. destruct (uri_from_str _) as [[[? ?] path]|]; [|done]. cbn [ok_or].
  destruct (list_find _ rules) as [[i rule']|] eqn:Hf; [|done]. cbn [ok_or].
  apply list_find_Some in Hf as (Hi & _). destruct (negb _); [done|].
  destruct (url_parse _); [|done]. intros [= <- <-]. by apply list_elem_of_lookup_2 in Hi.
Qed.

Lemma handle_connection_ok : trace_ok (handle_connection c env []).2.
Proof.
  unfold handle_connection, andThen, lift.
  destruct (read_request _ _ _ _) as [parsed|] eqn:Hp; [|constructor].
  destruct (ok_or _ _) as [local|]; [|constructor].
  destruct (validate_host _ _); [|constructor].
  destruct (select_rule _ _) as [[rule url]|] eqn:Hs; [|constructor].
  apply select_rule_in in Hs. unfold retrieve, andThen, emit, lift. cbn [app].
  assert (trace_ok [LookedUp (rule_secret_name rule)]) as Ht
    by (apply (trace_ok_quiet [] (LookedUp _)); [done|constructor]).
  destruct (ce_lookup env _) as [secret| | |] eqn:Hl; try done.
  unfold forward_with_redirects.
  pose proof (forward_loop_ok rule secret parsed (seqZ 0 (max_redirects (bc_limits c) + 1))
    (pq_method parsed) (pq_body parsed) url [LookedUp (rule_secret_name rule)] Hs
    ltac:(set_solver) Hl Hp Ht) as Hf.
  destruct (forward_loop _ _ _ _ _ _ _ _ _ _) as [[response|] tr]; cbn [snd] in *; [|done].
  unfold write_upstream_response, andThen, emit, lift. cbn [snd]. by apply trace_ok_quiet.
Qed.

Lemma connection_effects_ok (peer : SocketAddr) : trace_ok (connection_effects c peer env).
Proof.
  unfold connection_effects. pose proof handle_connection_ok as H.
  destruct (handle_connection c env []) as [[[]|e] tr]; cbn [snd] in H; cbn [afterwards].
  - by rewrite app_nil_r.
  - rewrite (app_assoc tr [_] [_] : tr ++ [_; _] = _).
    apply trace_ok_quiet; [done|]. by apply trace_ok_quiet.
Qed.

End Connection.

(** ** The listener *)

(** What connection [id] did. *)
Definition log_of (id : nat) (log : list (option nat * Effect)) : list Effect :=
  omap (λ p, if decide (p.1 = Some id) then Some p.2 else None) log.

Definition pending (task : option Task) : list Effect :=
  match task with Some t => default [] (tk_handling t) ++ tk_after t | None => [] end.

(** Every connection has done a part of its effects and has at most the rest ahead, and no more
    permits are in use than there are. *)
Record listener_inv (c : BrokerConfiguration) (events : list ListenerEvent) (l : Listener)
  : Prop := {
  inv_fresh : ∀ id, (li_next l ≤ id)%nat → log_of id (li_log l) = [] ∧ li_tasks l !! id = None;
  inv_effects : ∀ id, (id < li_next l)%nat → ∃ peer env, Accepts peer env ∈ events ∧
    log_of id (li_log l) ++ pending (li_tasks l !! id) `prefix_of` connection_effects c peer env;
  inv_permits : permits (li_tasks l) ≤ max_connections (bc_limits c);
}.

Lemma log_of_app (id : nat) (log1 log2 : list (option nat * Effect)) :
  log_of id (log1 ++ log2) = log_of id log1 ++ log_of id log2.
Proof. unfold log_of. apply omap_app. Qed.

Lemma log_of_own (id : nat) (e : Effect) : log_of id [(Some id, e)] = [e].
Proof. unfold log_of. cbn. by rewrite decide_True. Qed.

Lemma log_of_other (id : nat) (who : option nat) (e : Effect) :
  who ≠ Some id → log_of id [(who, e)] = [].
Proof. intros H. unfold log_of. cbn. by rewrite decide_False. Qed.

Lemma permits_insert (id : nat) (task : Task) (tasks : gmap nat Task) :
  permits (<[id := task]> tasks) ≤ permits tasks + 1.
Proof.
  unfold permits. rewrite map_filter_insert. case_decide.
  - set (m := filter _ tasks). pose proof (map_size_insert id task m) as H1. rewrite H1.
    destruct (m !! id); cbn; lia.
  - rewrite map_filter_delete. set (m := filter _ tasks).
    pose proof (map_size_delete id m) as H1. rewrite H1. destruct (m !! id); cbn; lia.
Qed.

Lemma permits_delete (id : nat) (tasks : gmap nat Task) : permits (delete id tasks) ≤ permits tasks.
Proof.
  unfold permits. rewrite map_filter_delete. set (m := filter _ tasks).
  pose proof (map_size_delete id m) as H1. rewrite H1. destruct (m !! id); cbn; lia.
Qed.

(** A task that held a permit may hold it on. *)
Lemma permits_update (id : nat) (old new : Task) (tasks : gmap nat Task) :
  tasks !! id = Some old → (is_Some (tk_handling new) → is_Some (tk_handling old)) →
  permits (<[id := new]> tasks) ≤ permits tasks.
Proof.
  intros Hid Hh. unfold permits. rewrite map_filter_insert. case_decide as Hd; cbn in Hd.
  - set (m := filter _ tasks). pose proof (map_size_insert id new m) as H1. rewrite H1.
    assert (m !! id = Some old) as Hm by (apply map_lookup_filter_Some; auto). rewrite Hm. cbn. lia.
  - rewrite map_filter_delete. set (m := filter _ tasks).
    pose proof (map_size_delete id m) as H1. rewrite H1. destruct (m !! id); cbn; lia.
Qed.

Lemma listener_inv_events (c : BrokerConfiguration) (events : list ListenerEvent)
    (event : ListenerEvent) (l : Listener) :
  listener_inv c events l → listener_inv c (events ++ [event]) l.
Proof.
  intros [H1 H2 H3]. split; [done| |done]. intros id Hid.
  destruct (H2 id Hid) as (peer & env & Ha & Hp). exists peer, env. set_solver.
Qed.

(** What the listener itself does to its log. *)
Lemma listener_inv_logged (c : BrokerConfiguration) (events : list ListenerEvent) (l l' : Listener)
    (log : list Effect) :
  listener_inv c events l → li_next l' = li_next l → li_tasks l' = li_tasks l →
  li_log l' = li_log l ++ (pair None <$> log) → listener_inv c events l'.
Proof.
  intros [H1 H2 H3] Hn Ht Hl.
  assert (∀ id, log_of id (pair None <$> log) = []) as Hq.
  { intros id. clear. induction log as [|e log IH]; [done|].
    change (pair None <$> e :: log) with ([(@None nat, e)] ++ (pair None <$> log)).
    by rewrite log_of_app, IH, log_of_other. }
  split; rewrite ?Hn, ?Ht, ?Hl; try done; intros id Hid; rewrite log_of_app, Hq, app_nil_r; auto.
Qed.

Lemma log_of_all (id : nat) (es : list Effect) : log_of id (pair (Some id) <$> es) = es.
Proof.
  induction es as [|e es IH]; [done|].
  change (pair (Some id) <$> e :: es) with ([(Some id, e)] ++ (pair (Some id) <$> es)).
  by rewrite log_of_app, IH, log_of_own.
Qed.

Lemma log_of_none (id id' : nat) (es : list Effect) :
  id' ≠ id → log_of id' (pair (Some id) <$> es) = [].
Proof.
  intros Hn. induction es as [|e es IH]; [done|].
  change (pair (Some id) <$> e :: es) with ([(Some id, e)] ++ (pair (Some id) <$> es)).
  rewrite log_of_app, IH, log_of_other; [done|congruence].
Qed.

(** A task does some of what it has ahead. *)
Lemma listener_inv_task (c : BrokerConfiguration) (events : list ListenerEvent) (l l' : Listener)
    (id : nat) (task : Task) (es : list Effect) :
  listener_inv c events l → li_tasks l !! id = Some task → li_next l' = li_next l →
  (∀ id', id' ≠ id → li_tasks l' !! id' = li_tasks l !! id') →
  li_log l' = li_log l ++ (pair (Some id) <$> es) →
  es ++ pending (li_tasks l' !! id) `prefix_of` pending (Some task) →
  permits (li_tasks l') ≤ permits (li_tasks l) → listener_inv c events l'.
Proof.
  intros [H1 H2 H3] Hid Hn Ho Hl Hp Hm.
  assert (id < li_next l)%nat as Hlt.
  { destruct (decide (id < li_next l)%nat); [done|]. destruct (H1 id); [lia|congruence]. }
  split; [| |lia]; rewrite Hn, Hl; intros id' Hid'; rewrite log_of_app.
  - rewrite Ho, log_of_none, app_nil_r by lia. auto.
  - destruct (decide (id' = id)) as [->|Hne].
    + destruct (H2 id Hlt) as (peer & env & Ha & Hpre). exists peer, env. split; [done|].
      rewrite log_of_all, <-app_assoc. etrans; [|exact Hpre]. rewrite Hid. by apply prefix_app.
    + rewrite Ho, log_of_none, app_nil_r by done. auto.
Qed.

Lemma proceed_inv (c : BrokerConfiguration) (events : list ListenerEvent) (l : Listener)
    (id : nat) (task : Task) :
  listener_inv c events l → li_tasks l !! id = Some task →
  listener_inv c events (proceed id task l).
Proof.
  intros Hi Hid. unfold proceed.
  destruct task as [[[|e rest]|] after] eqn:Et; [| |destruct after as [|e after]];
    cbn [tk_handling tk_after].
  - apply (listener_inv_task c events l _ id task []); subst; cbn [li_next li_tasks li_log]; try done.
    + intros id' Hn. by rewrite lookup_insert_ne.
    + by rewrite lookup_insert_eq.
    + by eapply permits_update.
  - apply (listener_inv_task c events l _ id task [e]); subst; cbn [li_next li_tasks li_log]; try done.
    + intros id' Hn. by rewrite lookup_insert_ne.
    + by rewrite lookup_insert_eq.
    + by eapply permits_update.
  - apply (listener_inv_task c events l _ id task []); subst; cbn [li_next li_tasks li_log]; try done.
    + intros id' Hn. by rewrite lookup_delete_ne.
    + by rewrite lookup_delete_eq.
    + apply permits_delete.
  - apply (listener_inv_task c events l _ id task [e]); subst; cbn [li_next li_tasks li_log]; try done.
    + intros id' Hn. by rewrite lookup_insert_ne.
    + by rewrite lookup_insert_eq.
    + eapply permits_update; [done|]. by intros [? ?].
Qed.

Lemma accept_inv (c : BrokerConfiguration) (events : list ListenerEvent) (l : Listener)
    (peer : SocketAddr) (env : ConnectionEnv) :
  listener_inv c events l → li_phase l = Accepting →
  listener_inv c (events ++ [Accepts peer env]) (listener_step c l (Accepts peer env)).
Proof.
  intros Hi Hp. pose proof (listener_inv_events _ _ (Accepts peer env) _ Hi) as Hi'.
  cbn [listener_step]. rewrite Hp.
  destruct (Z.leb_spec (max_connections (bc_limits c)) (permits (li_tasks l))).
  { by eapply (listener_inv_logged _ _ l _ [_; _]). }
  destruct (handle_connection c env []) as [outcome tr] eqn:Hh. destruct Hi' as [H1 H2 H3].
  split; cbn [li_next li_tasks li_log].
  - intros id Hid. rewrite lookup_insert_ne by lia. apply H1. lia.
  - intros id Hid. destruct (decide (id = li_next l)) as [->|Hn].
    + exists peer, env. split; [set_solver|]. rewrite lookup_insert_eq.
      destruct (H1 (li_next l) ltac:(lia)) as [-> _]. unfold connection_effects. rewrite Hh. done.
    + rewrite lookup_insert_ne by done. apply H2. lia.
  - pose proof (permits_insert (li_next l)
      {| tk_handling := Some tr; tk_after := afterwards peer outcome |} (li_tasks l)). lia.
Qed.

Lemma listener_step_inv (c : BrokerConfiguration) (events : list ListenerEvent) (l : Listener)
    (event : ListenerEvent) :
  listener_inv c events l → listener_inv c (events ++ [event]) (listener_step c l event).
Proof.
  intros Hi. pose proof (listener_inv_events _ _ event _ Hi) as Hi'.
  destruct (li_phase l) eqn:Hp, event as [|peer env|id|id| | |];
    try (by apply accept_inv); cbn [listener_step]; rewrite Hp; try done;
    try (destruct (li_tasks l !! id) as [task|] eqn:Hid; [|done]; by apply proceed_inv);
    try (destruct (li_tasks l !! id) as [task|] eqn:Hid; [|done];
         apply (listener_inv_task c _ l _ id task []); cbn [li_next li_tasks li_log]; try done;
         [intros id' Hn; by rewrite lookup_delete_ne|by rewrite app_nil_r|
          rewrite lookup_delete_eq; apply prefix_nil|apply permits_delete]).
  - by eapply (listener_inv_logged _ _ l _ [_]).
  - destruct (li_panicked l); [done|]. by eapply (listener_inv_logged _ _ l _ [_]).
  - eapply (listener_inv_logged _ _ l _ []); cbn; [done..|by rewrite app_nil_r].
  - destruct Hi' as [H1 H2 H3]. split; cbn [li_next li_tasks li_log].
    + intros id Hid. destruct (H1 id Hid) as [? _]. split; [done|apply lookup_empty].
    + intros id Hid. destruct (H2 id Hid) as (peer & env & Ha & Hpre). exists peer, env.
      split; [done|]. rewrite lookup_empty. cbn [pending]. rewrite app_nil_r.
      etrans; [|exact Hpre]. by eexists.
    + unfold permits in *. rewrite map_filter_empty, map_size_empty. lia.
Qed.

Lemma listener_run_inv (c : BrokerConfiguration) (events : list ListenerEvent) :
  0 ≤ max_connections (bc_limits c) → listener_inv c events (listener_run c events).
Proof.
  intros Hc. induction events as [|event events IH] using rev_ind.
  - split; cbn; [done|lia|done].
  - unfold listener_run. rewrite foldl_snoc. by apply listener_step_inv.
Qed.

Lemma log_of_at (id i : nat) (log : list (option nat * Effect)) (e : Effect) :
  log !! i = Some (Some id, e) →
  log_of id log = (log_of id (take i log) ++ [e]) ++ log_of id (drop (S i) log).
Proof.
  intros Hi. rewrite <-(take_drop_middle log i _ Hi) at 1.
  by rewrite cons_middle, !log_of_app, log_of_own, app_assoc.
Qed.

Lemma elem_of_log_of (id i : nat) (log : list (option nat * Effect)) (e : Effect) :
  e ∈ log_of id (take i log) → ∃ j, (j < i)%nat ∧ log !! j = Some (Some id, e).
Proof.
  unfold log_of. intros ((who & e') & Hin & Hw)%list_elem_of_omap. cbn in Hw.
  case_decide as Hd; [|done]. injection Hw as ->. cbn in Hd. subst who.
  apply list_elem_of_lookup in Hin as [j Hj].
  apply lookup_take_Some in Hj as [Hj Hlt]. by exists j.
Qed.

(** What was recorded of a request with a secret, and the request. *)
Lemma justified_request (c : BrokerConfiguration) (env : ConnectionEnv) (tr : list Effect)
    (m : AuditSafeRequestMetadata) (r : UpstreamRequest) :
  justified c env tr m r →
  ∃ rule secret parsed url url',
    rule ∈ bc_rules c ∧ ce_lookup env (rule_secret_name rule) = SecretFound secret ∧
    read_request (ce_race env) (ce_reader env) (bc_limits c) (max_request_body c) = Ok parsed ∧
    credential_target (rule_policy rule) url ∧
    path_prefix (rule_policy rule) `prefix_of` url_path url ∧
    ur_method r ∈ allowed_methods (rule_policy rule) ∧
    len (ur_body r) ≤ max_request_body_bytes (rule_policy rule) ∧
    url_parse (ur_url r) = Some url' ∧
    placed (rule_policy rule) secret (strip_hop_by_hop (pq_headers parsed)) url (ur_headers r) url' ∧
    m = audit_of (rule_policy rule)
          {| br_method := ur_method r; br_url := url;
             br_headers := strip_hop_by_hop (pq_headers parsed); br_body := ur_body r |}.
Proof.
  intros (rule & secret & parsed & request & t & Hr & _ & Hs & Hp & Hh & Ht & -> & ->).
  apply transform_ok in Ht as (Hv & Hm & Hb & Ha & url' & Hu & Hpl).
  apply validate_request_ok in Hv as (H1 & H2 & H3 & H4). rewrite Hh in Hpl.
  exists rule, secret, parsed, (br_url request), url'. cbn.
  rewrite Hm, Hb, Ha, Hu, url_parse_text. split_and!; try done.
Qed.


(** ** The number of requests *)

Definition sent (tr : list Effect) : nat :=
  length (omap (λ e, match e with Sent r => Some r | _ => None end) tr).

Lemma sent_app (tr1 tr2 : list Effect) : sent (tr1 ++ tr2) = (sent tr1 + sent tr2)%nat.
Proof. unfold sent. by rewrite omap_app, length_app. Qed.

Section Count.
Context (dial_ok : UpstreamAddressPolicy → UpstreamRequest → Dial → Prop).
Context (c : BrokerConfiguration) (env : ConnectionEnv).
Context {contract : TransportContract dial_ok (ce_transport env)}.

Lemma send_request_sent (r : UpstreamRequest) (tr : list Effect) :
  sent (send_request c env r tr).2 = S (sent tr).
Proof.
  unfold send_request.
  destruct (send_dials r (bc_limits c) (bc_address_policy c) (tr ++ [Sent r])) as [H|(d & H & _)];
    destruct (send _ _ _ _ _) as [reply tr']; cbn [snd] in *; subst tr';
    rewrite !sent_app; unfold sent; cbn; lia.
Qed.

(** Every redirect is one request, and the state after the last one is never reached. *)
Lemma forward_loop_sent (rule : CredentialRule) (secret : list Z) (headers : list (list Z * list Z))
    (numbers : list Z) (method body : list Z) (url : Url) (tr : list Effect) :
  (sent (forward_loop c env rule secret headers numbers method body url tr).2
   ≤ sent tr + length numbers)%nat.
Proof.
  revert method body url tr. induction numbers as [|n numbers IH]; intros method body url tr;
    cbn [forward_loop length]; unfold andThen, lift, emit; [cbn [snd]; lia|].
  destruct (transform _ _ _) as [t|]; cbn [map_err snd]; [|lia].
  set (tr1 := tr ++ [_]).
  assert (sent tr1 = sent tr) as H1 by (unfold tr1; rewrite sent_app; cbn; lia).
  pose proof (send_request_sent (from_transformed t (max_response_body_bytes (rule_policy rule))) tr1)
    as H2.
  destruct (send_request _ _ _ tr1) as [[response|] tr2]; cbn [snd] in *; [|lia].
  destruct (validate_upstream_response _ _ _); cbn [snd]; [|lia].
  destruct (negb (is_redirection _)); cbn [snd];
    [rewrite sent_app; unfold sent at 2; cbn [omap list_omap length]; lia|].
  destruct (n =? _); cbn [snd]; [lia|]. destruct (single_location _); cbn [snd]; [|lia].
  destruct (url_join _ _) as [next|]; cbn [ok_or snd]; [|lia].
  destruct (authorize_redirect _ _ _); cbn [map_err snd]; [|lia].
  destruct (apply_redirect_semantics _ _ _) as [[m b]|]; cbn [snd]; [|lia].
  specialize (IH m b next tr2). lia.
Qed.

(** A connection makes one request and at most one for each redirect that is allowed. *)
Lemma connection_sends_at_most (peer : SocketAddr) :
  0 ≤ max_redirects (bc_limits c) →
  Z.of_nat (sent (connection_effects c peer env)) ≤ max_redirects (bc_limits c) + 1.
Proof.
  intros H0. unfold connection_effects, handle_connection, andThen, lift.
  assert (∀ tr o, sent (tr ++ afterwards peer o) = sent tr) as Ha.
  { intros tr [|]; rewrite sent_app; unfold sent; cbn; lia. }
  destruct (read_request _ _ _ _) as [parsed|]; [|rewrite Ha; cbn; lia].
  destruct (ok_or _ _); [|rewrite Ha; cbn; lia]. destruct (validate_host _ _); [|rewrite Ha; cbn; lia].
  destruct (select_rule _ _) as [[rule url]|]; [|rewrite Ha; cbn; lia].
  unfold retrieve, andThen, emit, lift. cbn [app].
  destruct (ce_lookup env _) as [secret| | |]; try (rewrite Ha; cbn; lia).
  unfold forward_with_redirects.
  pose proof (forward_loop_sent rule secret (strip_hop_by_hop (pq_headers parsed))
    (seqZ 0 (max_redirects (bc_limits c) + 1)) (pq_method parsed) (pq_body parsed) url
    [LookedUp (rule_secret_name rule)]) as Hf.
  rewrite length_seqZ in Hf.
  destruct (forward_loop _ _ _ _ _ _ _ _ _ _) as [[response|] tr]; cbn [snd] in *;
    unfold write_upstream_response, andThen, emit, lift; rewrite Ha, ?sent_app;
    unfold sent in *; cbn in *; lia.
Qed.

End Count.

(** ** What can be seen of a secret *)

(** An effect without what is marked sensitive in a request. *)
Inductive Seen : Type :=
| SeenEffect (e : Effect)
| SeenRequest (method body : list Z) (max_response : Z)
| SeenDial (host : list Z) (pinned : list SocketAddr) (method body : list Z).

Definition seen (e : Effect) : Seen :=
  match e with
  | Sent r => SeenRequest (ur_method r) (ur_body r) (ur_max_response_body_bytes r)
  | Dialed d => SeenDial (d_host d) (d_pinned d) (d_method d) (d_body d)
  | e => SeenEffect e
  end.

Definition alike {A : Type} (m1 m2 : M A) : Prop := ∀ tr1 tr2, seen <$> tr1 = seen <$> tr2 →
  (m1 tr1).1 = (m2 tr2).1 ∧ seen <$> (m1 tr1).2 = seen <$> (m2 tr2).2.

(** The upstream servers answer the same, whatever the sensitive parts of the requests are. *)
Definition same_answers (t1 t2 : UpstreamTransport) : Prop :=
  ∀ r1 r2 limits policy tr1 tr2, seen (Sent r1) = seen (Sent r2) → seen <$> tr1 = seen <$> tr2 →
    (send t1 r1 limits policy tr1).1 = (send t2 r2 limits policy tr2).1 ∧
    seen <$> (send t1 r1 limits policy tr1).2 = seen <$> (send t2 r2 limits policy tr2).2.

Lemma alike_lift {A : Type} (r : result CredentialBrokerError A) : alike (lift r) (lift r).
Proof. by intros tr1 tr2 H. Qed.

Lemma alike_emit (e1 e2 : Effect) : seen e1 = seen e2 → alike (emit e1) (emit e2).
Proof. intros He tr1 tr2 H. unfold emit. cbn [fst snd]. by rewrite !fmap_app, H, !fmap_cons, He. Qed.

Lemma alike_bind {A B : Type} (m1 m2 : M A) (k1 k2 : A → M B) :
  alike m1 m2 → (∀ a, alike (k1 a) (k2 a)) → alike (andThen m1 k1) (andThen m2 k2).
Proof.
  intros Hm Hk tr1 tr2 H. unfold andThen. destruct (Hm tr1 tr2 H) as [H1 H2].
  destruct (m1 tr1) as [r1 tr1'], (m2 tr2) as [r2 tr2']. cbn [fst snd] in *. subst r2.
  destruct r1; [by apply Hk|done].
Qed.

Lemma alike_lift_ok {A B : Type} (a1 a2 : A) (k1 k2 : A → M B) :
  alike (k1 a1) (k2 a2) → alike (andThen (lift (Ok a1)) k1) (andThen (lift (Ok a2)) k2).
Proof. done. Qed.

Create HintDb alike discriminated.
#[local] Hint Resolve alike_lift alike_emit alike_bind : alike.

Section Alike.
Context (c : BrokerConfiguration) (env1 env2 : ConnectionEnv).
Context (answers : same_answers (ce_transport env1) (ce_transport env2)).

Lemma alike_send (r1 r2 : UpstreamRequest) :
  seen (Sent r1) = seen (Sent r2) → alike (send_request c env1 r1) (send_request c env2 r2).
Proof.
  intros Hr tr1 tr2 H. unfold send_request.
  destruct (answers r1 r2 (bc_limits c) (bc_address_policy c) (tr1 ++ [Sent r1]) (tr2 ++ [Sent r2]))
    as [H1 H2]; [done|by rewrite !fmap_app, H, !fmap_cons, Hr|].
  destruct (send (ce_transport env1) _ _ _ _) as [a1 t1], (send (ce_transport env2) _ _ _ _) as [a2 t2].
  cbn [fst snd] in *. by subst a2.
Qed.

Lemma alike_forward (rule : CredentialRule) (s1 s2 : list Z) (headers : list (list Z * list Z))
    (numbers : list Z) (method body : list Z) (url : Url) :
  encodable (rule_policy rule) s1 = encodable (rule_policy rule) s2 →
  alike (forward_loop c env1 rule s1 headers numbers method body url)
        (forward_loop c env2 rule s2 headers numbers method body url).
Proof.
  intros He. revert method body url. induction numbers as [|n numbers IH]; intros method body url;
    cbn [forward_loop]; [apply alike_lift|].
  set (request := {| br_method := method; br_url := url; br_headers := headers; br_body := body |}).
  pose proof (transform_agrees (rule_policy rule) request s1 s2 He) as Ha.
  destruct (transform (rule_policy rule) request s1) as [t1|e1] eqn:H1,
    (transform (rule_policy rule) request s2) as [t2|e2] eqn:H2; try done;
    [|subst e2; apply (alike_lift (Err (PolicyRejected e1)))].
  apply transform_ok in H1 as (_ & M1 & B1 & A1 & _), H2 as (_ & M2 & B2 & A2 & _).
  cbn [map_err]. apply alike_lift_ok, alike_bind; [apply alike_emit; by rewrite A1, A2|]. intros _.
  apply alike_bind; [apply alike_send; cbn; by rewrite M1, M2, B1, B2|]. intros response.
  apply alike_bind; [apply alike_lift|]. intros _. destruct (negb _); [auto with alike|].
  destruct (n =? _); [apply alike_lift|].
  repeat (apply alike_bind; [apply alike_lift|]; intros). destruct a2 as [m b]. apply IH.
Qed.

Lemma alike_write (response : UpstreamResponse) :
  ce_writes env1 = ce_writes env2 →
  alike (write_upstream_response env1 response) (write_upstream_response env2 response).
Proof. intros Hw. unfold write_upstream_response. rewrite Hw. auto with alike. Qed.

Lemma alike_retrieve {B : Type} (name : list Z) (k1 k2 : list Z → M B) :
  match ce_lookup env1 name, ce_lookup env2 name with
  | SecretFound s1, SecretFound s2 => alike (k1 s1) (k2 s2)
  | o1, o2 => o1 = o2
  end →
  alike (andThen (retrieve env1 name) k1) (andThen (retrieve env2 name) k2).
Proof.
  intros Hk tr1 tr2 H. unfold andThen, retrieve, emit, lift, andThen.
  assert (seen <$> tr1 ++ [LookedUp name] = seen <$> tr2 ++ [LookedUp name]) as He
    by (by rewrite !fmap_app, H).
  destruct (ce_lookup env1 name), (ce_lookup env2 name); try done; [by apply Hk|..];
    by injection Hk as ->.
Qed.

End Alike.


End Safety.

(** ** A broker *)

Module CredentialSample.
Import DigestSample.

(** URLs as their parts: scheme, user, password, host, port, segments of the path and pairs of
    the query.  Their text is a list of words; [https://] and what follows is read as well. *)
Definition sample_url : Type :=
  list Z * list Z * option (list Z) * option (list Z) * option Z * list (list Z) *
  list (list Z * list Z).

Definition https_url (text : list Z) : option sample_url :=
  match strip_prefix (str "https://") text with
  | Some rest =>
      match split_on ch_slash rest with
      | host :: segments => Some (str "https", [], None, Some host, Some 443, segments, [])
      | [] => None
      end
  | None => None
  end.

#[global] Instance sample_urls : UrlApi := {|
  Url := sample_url;
  url_parse text := match get text with Some (url, []) => Some url | _ => https_url text end;
  url_join _ location := https_url location;
  url_text url := put url;
  scheme '(s, _, _, _, _, _, _) := s;
  username '(_, u, _, _, _, _, _) := u;
  password '(_, _, p, _, _, _, _) := p;
  host_str '(_, _, _, h, _, _, _) := h;
  port_or_known_default '(_, _, _, _, p, _, _) := p;
  url_path '(_, _, _, _, _, segments, _) := flat_map (cons ch_slash) segments;
  query_pairs '(_, _, _, _, _, _, pairs) := pairs;
  path_segments '(_, _, _, _, _, segments, _) := Some segments;
  append_pair name value '(s, u, w, h, p, segments, pairs) :=
    (s, u, w, h, p, segments, pairs ++ [(name, value)]);
  replace_segments segments '(s, u, w, h, p, _, pairs) := Some (s, u, w, h, p, segments, pairs);
  host_parse host := Some (HostDomain host);
|}.

#[global] Instance sample_url_laws : UrlLaws sample_urls.
Proof.
  split.
  1-3: by intros ? ? [[[[[[? ?] ?] ?] ?] ?] ?].
  1-2: by intros ? [[[[[[? ?] ?] ?] ?] ?] ?] ? [= <-].
  - intros ? [[[[[[? ?] ?] ?] ?] ?] ?]. cbn. split; by eexists.
  - intros url. unfold url_parse, url_text, sample_urls.
    by rewrite <-(app_nil_r (put url)), get_put.
Qed.

#[global] Instance sample_types : HttpTypesApi := {|
  header_name bytes := Some (to_ascii_lowercase bytes);
  header_value bytes := if forallb is_ascii bytes then Some bytes else None;
  header_to_str value := Some value;
  method_from_bytes bytes := Some bytes;
  uri_from_str target := Some (false, false, target);
  canonical_reason _ := None;
|}.

Definition policy : result CredentialPolicyError CredentialPolicy :=
  new_policy (str "Api.example") (str "/v1/") Bearer [str "GET"] 0 64 SameTarget (str "TOKEN").

Definition accepted {E A : Type} (r : result E A) (x : A) : A :=
  match r with Ok a => a | Err _ => x end.

Definition no_policy : CredentialPolicy :=
  {| target_host := []; path_prefix := []; injection := Bearer; allowed_methods := ∅;
     max_request_body_bytes := 0; max_response_body_bytes := 0; redirect_policy := RedirectDeny;
     tls_verification := TlsVerificationRequired; policy_secret_name := [] |}.

(** A rule for one secret whose policy names another one. *)
Definition rule : CredentialRule :=
  {| rule_id := str "api"; rule_secret_name := str "GITHUB_TOKEN";
     rule_policy := accepted policy no_policy |}.

(** Nothing compares the two names: the guard of [CredentialPolicy::new] does not see the name
    the secret is looked up by, and the audit event has the other one. *)
Example rule_is_accepted :
  is_ok policy = true ∧ new_rule (str "api") (str "GITHUB_TOKEN") (accepted policy no_policy) = Ok rule ∧
  requires_guarded_github_forwarding (rule_secret_name rule) = true ∧
  am_secret_name (audit_of (rule_policy rule) {| br_method := []; br_url := ([], [], None, None,
    None, [], []); br_headers := []; br_body := [] |}) = str "TOKEN".
Proof. by vm_compute. Qed.

Definition configuration : BrokerConfiguration :=
  {| bc_bind := default_bind; bc_limits := default_limits;
     bc_address_policy := allowing_restricted []; bc_rules := [rule] |}.

Example configuration_is_valid : validate_configuration configuration = Ok tt.
Proof. by vm_compute. Qed.

Definition request_bytes : list Z :=
  str "GET /credentials/api/v1/x HTTP/1.1" ++ CRLF ++ str "Host: localhost:9" ++ CRLF ++ CRLF.

Definition client : HttpsClient :=
  {| hc_resolve _ _ _ := Replied [(V4 (ipv4_new 8 8 8 8), 443)]; hc_builds _ := true;
     hc_send _ _ := Replied {| cr_status := 200; cr_headers := []; cr_content_length := None;
                               cr_chunks := [Replied (str "ok")] |} |}.

Definition env_with (secret : list Z) : ConnectionEnv :=
  {| ce_race := ReadFinishes; ce_reader := [Some request_bytes];
     ce_local_addr := Some (V4 (ipv4_new 127 0 0 1), 9);
     ce_lookup _ := SecretFound secret; ce_transport := pinned_transport client;
     ce_writes := true |}.

Definition peer : SocketAddr := (V4 (ipv4_new 127 0 0 1), 5000).

Definition sample_events : list ListenerEvent :=
  Accepts peer (env_with (str "s3cret")) :: replicate 4 (Proceeds 0).

Definition dial_at (log : list (option nat * Effect)) (i : nat) : option Dial :=
  match log !! i with Some (Some 0%nat, Dialed d) => Some d | _ => None end.

Lemma dial_at_Some (log : list (option nat * Effect)) (i : nat) :
  bool_decide (is_Some (dial_at log i)) = true → ∃ d, log !! i = Some (Some 0%nat, Dialed d).
Proof.
  intros [d Hd]%bool_decide_eq_true. exists d. unfold dial_at in Hd.
  destruct (log !! i) as [[[[|]|] []]|]; try done. congruence.
Qed.

Lemma sample_dials :
  ∃ d, li_log (listener_run configuration sample_events) !! 3%nat = Some (Some 0%nat, Dialed d).
Proof. apply dial_at_Some. by vm_compute. Qed.


(** An upstream that does not look at the request. *)
Definition canned : UpstreamTransport :=
  {| send _ _ _ tr := (Ok {| us_status := 200; us_headers := []; us_body := str "ok" |}, tr) |}.

Definition canned_env (secret : list Z) : ConnectionEnv :=
  {| ce_race := ReadFinishes; ce_reader := [Some request_bytes];
     ce_local_addr := Some (V4 (ipv4_new 127 0 0 1), 9); ce_lookup _ := SecretFound secret;
     ce_transport := canned; ce_writes := true |}.


(** The request does carry the secret. *)
Example canned_request :
  omap (λ e, match e with Sent r => Some (ur_headers r) | _ => None end)
    (connection_effects configuration peer (canned_env (str "s3cret"))) =
  [[(str "authorization", str "Bearer s3cret")]].
Proof. by vm_compute. Qed.

(** The framing of the request. *)
Lemma accepted_request_is_framed_witness :
  ∃ bytes rest request, stream [Some request_bytes] = bytes ++ rest ∧ framed bytes 64 0 request.
Proof.
  assert (is_ok (read_request ReadFinishes [Some request_bytes] default_limits 0) = true) as Hok
    by (vm_compute; reflexivity).
  destruct (read_request ReadFinishes [Some request_bytes] default_limits 0) as [request|] eqn:Hr;
    [clear Hok|discriminate Hok].
  destruct (accepted_request_is_framed ReadFinishes [Some request_bytes] default_limits 0 request)
    as (bytes & rest & Hs & _ & Hf); [vm_compute; discriminate..|exact Hr|].
  exists bytes, rest, request. exact (conj Hs Hf).
Defined.

End CredentialSample.
