(* ===== verification/GithubAuth.v ===== *)
(** * Forwarding GitHub credentials ([crates/sendbox-credentials/src/github.rs])

    The GitHub token of the user is given to a session only when everything that is not public
    and that the token can reach is within the scope of the selected repository.  The facts are
    asked of [gh]: every call is an effect with its reply, and the replies are arbitrary.  The
    JSON of the replies is read by [GhJson] (the derived readers of [serde_json]).

    The theorem states for every run that asks for the token what [gh] had said before: the
    selected repository is the one that was asked for, and every repository of every page that
    is not public has one of its own name and visibility that the policy allows. *)

From S2P Require Import Prelude RustStr Envelope Credential Http1 CredBroker.

#[local] Notation E := CredentialBrokerError.

(** ** Repositories *)

Definition MAX_GITHUB_PAGES : nat := 100.
Definition MAX_GITHUB_OUTPUT_BYTES : Z := 2 * 1024 * 1024.
Definition GITHUB_HOST : string := "github.com".
Definition SELECTED_REPOSITORY_QUERY : string :=
  "query($owner:String!,$name:String!){repository(owner:$owner,name:$name){nameWithOwner visibility owner{login __typename}}}".
Definition ACCESSIBLE_REPOSITORIES_QUERY : string :=
  "query($cursor:String){viewer{repositories(first:100,after:$cursor,affiliations:[OWNER,COLLABORATOR,ORGANIZATION_MEMBER]){nodes{nameWithOwner visibility owner{login __typename}} pageInfo{hasNextPage endCursor}}}}".

Record RepositoryIdentity : Type := { owner : list Z; repository_name : list Z }.

(** [valid_repository_component] *)
Definition valid_repository_component (value : list Z) : bool :=
  negb (bool_decide (value = [])) && (len value <=? 100) &&
  forallb (λ byte, is_ascii_alphanumeric byte || bool_decide (byte ∈ [ch_hyphen; 95; ch_dot])) value.

(** [RepositoryIdentity::parse] *)
Definition parse_identity (value : list Z) : result E RepositoryIdentity :=
  let parts := split_on ch_slash value in
  let owner := default [] (parts !! 0%nat) in
  let name := default [] (parts !! 1%nat) in
  if bool_decide (is_Some (parts !! 2%nat)) || negb (valid_repository_component owner) ||
     negb (valid_repository_component name)
  then Err (InvalidConfiguration
    (str "repository identity must be OWNER/NAME using GitHub-safe characters"))
  else Ok {| owner := owner; repository_name := name |}.

Definition name_with_owner (identity : RepositoryIdentity) : list Z :=
  owner identity ++ [ch_slash] ++ repository_name identity.

Definition same_repository (x y : RepositoryIdentity) : bool :=
  eq_ignore_ascii_case (owner x) (owner y) &&
  eq_ignore_ascii_case (repository_name x) (repository_name y).

Inductive RepositoryVisibility : Type := Public | Private | Internal.

#[global] Instance RepositoryVisibility_eq_dec : EqDecision RepositoryVisibility.
Proof. solve_decision. Defined.

Definition is_non_public (visibility : RepositoryVisibility) : bool :=
  match visibility with Public => false | _ => true end.

Inductive OwnerKind : Type := OwnerUser | OwnerOrganization.

Record GitHubRepository : Type := {
  identity : RepositoryIdentity;
  visibility : RepositoryVisibility;
  owner_kind : OwnerKind;
}.

Definition organization (repository : GitHubRepository) : option (list Z) :=
  match owner_kind repository with
  | OwnerOrganization => Some (owner (identity repository))
  | OwnerUser => None
  end.

(** ** The policy *)

Inductive RepositoryAccessDecision : Type :=
| AccessAllow
| AccessWarn (message : list Z)
| AccessDeny (message : list Z).

(** [RepositoryAccessPolicy::evaluate] *)
Definition evaluate_access (source target : GitHubRepository) (private_access_override : bool)
  : RepositoryAccessDecision :=
  if same_repository (identity source) (identity target) &&
     bool_decide (visibility source = visibility target)
  then AccessAllow
  else if negb (is_non_public (visibility target)) then AccessAllow
  else if negb (is_non_public (visibility source)) then
    AccessDeny (str "public repository " ++ name_with_owner (identity source) ++
      str " cannot access non-public repository " ++ name_with_owner (identity target))
  else
    let same_organization :=
      match organization source, organization target with
      | Some source, Some target => eq_ignore_ascii_case source target
      | _, _ => false
      end in
    if negb same_organization then
      AccessDeny (str "additional non-public repository " ++ name_with_owner (identity target) ++
        str " is outside the selected repository organization")
    else if negb private_access_override then
      AccessWarn (str "additional non-public repository " ++ name_with_owner (identity target) ++
        str " requires explicit approval")
    else AccessAllow.

(** The loop of [evaluate_credential_scope] *)
Fixpoint first_refusal (source : GitHubRepository) (accessible : list GitHubRepository)
    (private_access_override : bool) : RepositoryAccessDecision :=
  match accessible with
  | [] => AccessAllow
  | repository :: accessible =>
      match evaluate_access source repository private_access_override with
      | AccessAllow => first_refusal source accessible private_access_override
      | decision => decision
      end
  end.

(** [evaluate_credential_scope] *)
Definition evaluate_credential_scope (source : GitHubRepository)
    (accessible : list GitHubRepository) (private_access_override : bool)
  : RepositoryAccessDecision :=
  if is_non_public (visibility source) &&
     negb (existsb (λ repository, same_repository (identity source) (identity repository) &&
                                  is_non_public (visibility repository)) accessible)
  then AccessDeny (str "GitHub credentials cannot access selected non-public repository " ++
                   name_with_owner (identity source))
  else first_refusal source accessible private_access_override.

(** ** Calls of [gh] *)

Record GhProcessConfiguration : Type := {
  gh_executable : list Z;
  gh_config_dir : list Z;
  gh_home : list Z;
  gh_timeout : Z;
}.

(** [GhProcessConfiguration::new] *)
Definition new_gh_configuration (executable config_dir home : list Z)
  : result E GhProcessConfiguration :=
  if negb (is_absolute executable) || negb (is_absolute config_dir) || negb (is_absolute home)
  then Err (InvalidConfiguration
    (str "gh executable, config directory, and home must be absolute paths"))
  else Ok {| gh_executable := executable; gh_config_dir := config_dir; gh_home := home;
             gh_timeout := from_secs 15 |}.

Record GhCommand : Type := {
  gc_program : list Z;
  gc_arguments : list (list Z);
  gc_environment : list (list Z * list Z);
  gc_clear_environment : bool;
}.

(** The command of [ProcessGhExecutor::execute]; paths are UTF-8, so [to_string_lossy] is the
    path. *)
Definition gh_command (g : GhProcessConfiguration) (arguments : list (list Z)) : GhCommand :=
  {| gc_program := gh_executable g; gc_arguments := arguments;
     gc_environment :=
       [(str "GH_CONFIG_DIR", gh_config_dir g); (str "HOME", gh_home g);
        (str "GH_HOST", str GITHUB_HOST); (str "GH_PROMPT_DISABLED", str "1");
        (str "GH_NO_UPDATE_NOTIFIER", str "1"); (str "GH_PAGER", str "cat");
        (str "NO_COLOR", str "1")];
     gc_clear_environment := true |}.

Inductive TerminationReason : Type := Exited | ProcessTimedOut | ProcessCancelled.

Record ProcessOutcome : Type := {
  po_termination : TerminationReason;
  po_success : bool;
  po_code : option Z;
  po_stdout : list Z;
  po_stdout_truncated : Z;
  po_stderr_truncated : Z;
}.

(** [Debug] of a termination and of an exit code *)
Definition termination_debug (t : TerminationReason) : string :=
  match t with Exited => "Exited" | ProcessTimedOut => "TimedOut" | ProcessCancelled => "Cancelled" end.
Definition code_debug (code : option Z) : list Z :=
  match code with
  | Some c => str "Some(" ++ (if c <? 0 then [ch_hyphen] else []) ++ show_dec (Z.abs c) ++ str ")"
  | None => str "None"
  end.

(** What [execute] makes of the outcome of the process *)
Definition gh_output (outcome : result (list Z) ProcessOutcome) : result E (list Z) :=
  let? outcome := map_err RuntimeFailed outcome in
  match po_termination outcome with
  | Exited =>
      if negb (po_success outcome)
      then Err (GitHubCommand (str "gh exited unsuccessfully with code " ++ code_debug (po_code outcome)))
      else if negb (po_stdout_truncated outcome =? 0) || negb (po_stderr_truncated outcome =? 0)
      then Err (GitHubCommand (str "gh output exceeded the configured capture limit"))
      else Ok (po_stdout outcome)
  | t => Err (GitHubCommand (str "gh did not exit normally (" ++ str (termination_debug t) ++ str ")"))
  end.

(** A call and the outcome of its process. *)
Definition GhCall : Type := GhCommand * result (list Z) ProcessOutcome.

Definition GM (A : Type) : Type := list GhCall → result E A * list GhCall.

Definition gh_lift {A : Type} (r : result E A) : GM A := λ tr, (r, tr).
Definition gh_bind {A B : Type} (m : GM A) (k : A → GM B) : GM B := λ tr,
  match m tr with
  | (Ok a, tr) => k a tr
  | (Err e, tr) => (Err e, tr)
  end.

#[local] Notation "'let!' x ':=' m 'in' k" := (gh_bind m (λ x, k))
  (at level 10, x name, k at level 200).

(** ** Replies *)

Record RepositoryNode : Type := {
  node_name_with_owner : list Z;
  node_visibility : RepositoryVisibility;
  node_owner_login : list Z;
  node_owner_kind : list Z;
}.

Record RepositoryConnection : Type := {
  rc_nodes : list RepositoryNode;
  rc_has_next_page : bool;
  rc_end_cursor : option (list Z);
}.

(** [serde_json::from_slice] on the types of a reply, down to the [Option]s the client looks
    at; an error is its text. *)
Class GhJson : Type := {
  selected_response : list Z → result (list Z) (option RepositoryNode);
  accessible_response : list Z → result (list Z) (option RepositoryConnection);
}.

(** [RepositoryNode::into_repository] *)
Definition into_repository (node : RepositoryNode) : result E GitHubRepository :=
  let? identity := parse_identity (node_name_with_owner node) in
  if negb (eq_ignore_ascii_case (owner identity) (node_owner_login node))
  then Err (InvalidGitHubMetadata (str "repository owner metadata is inconsistent"))
  else
    let? kind :=
      if bool_decide (node_owner_kind node = str "Organization") then Ok OwnerOrganization
      else if bool_decide (node_owner_kind node = str "User") then Ok OwnerUser
      else Err (InvalidGitHubMetadata (str "repository owner type is unsupported")) in
    Ok {| identity := identity; visibility := node_visibility node; owner_kind := kind |}.

(** Rust's order on identities *)
Definition identity_leb (x y : RepositoryIdentity) : bool :=
  if decide (owner x = owner y) then bytes_leb (repository_name x) (repository_name y)
  else bytes_leb (owner x) (owner y).

(** The bucket of [dedup_by] *)
Definition same_bucket (x y : GitHubRepository) : bool :=
  same_repository (identity x) (identity y) && bool_decide (visibility x = visibility y).

(** The repositories of a page that are not public *)
Fixpoint page_repositories (nodes : list RepositoryNode) (repositories : list GitHubRepository)
  : result E (list GitHubRepository) :=
  match nodes with
  | [] => Ok repositories
  | node :: nodes =>
      let? repository := into_repository node in
      page_repositories nodes
        (if is_non_public (visibility repository) then repositories ++ [repository]
         else repositories)
  end.

Fixpoint skip_ascii_whitespace (bytes : list Z) : list Z :=
  match bytes with
  | b :: r => if is_ascii_whitespace b then skip_ascii_whitespace r else bytes
  | [] => []
  end.

(** [trim_ascii_whitespace] *)
Definition trim_ascii_whitespace (bytes : list Z) : list Z :=
  reverse (skip_ascii_whitespace (reverse (skip_ascii_whitespace bytes))).

Section Client.
Context {json : GhJson}.
Variable g : GhProcessConfiguration.
(** The processes: their outcome may depend on all calls before. *)
Variable processes : list GhCall → GhCommand → result (list Z) ProcessOutcome.

(** [ProcessGhExecutor::execute] *)
Definition execute (arguments : list (list Z)) : GM (list Z) := λ tr,
  let command := gh_command g arguments in
  let outcome := processes tr command in
  (gh_output outcome, tr ++ [(command, outcome)]).

(** [execute_json] *)
Definition execute_json {A : Type} (read : list Z → result (list Z) A) (arguments : list (list Z))
  : GM A :=
  let! bytes := execute arguments in
  gh_lift (map_err (λ error, InvalidGitHubMetadata (str "gh returned malformed JSON: " ++ error))
    (read bytes)).

Definition selected_arguments (id : RepositoryIdentity) : list (list Z) :=
  [str "api"; str "graphql"; str "-f"; str "query=" ++ str SELECTED_REPOSITORY_QUERY; str "-F";
   str "owner=" ++ owner id; str "-F"; str "name=" ++ repository_name id].

(** [GhMetadataClient::repository] *)
Definition repository (id : RepositoryIdentity) : GM GitHubRepository :=
  let! response := execute_json selected_response (selected_arguments id) in
  let! node := gh_lift (ok_or response
    (InvalidGitHubMetadata (str "selected repository was not returned by GitHub"))) in
  let! repository := gh_lift (into_repository node) in
  if negb (same_repository (identity repository) id)
  then gh_lift (Err (InvalidGitHubMetadata (str "GitHub returned a different selected repository")))
  else gh_lift (Ok repository).

Definition accessible_arguments (cursor : option (list Z)) : list (list Z) :=
  [str "api"; str "graphql"; str "-f"; str "query=" ++ str ACCESSIBLE_REPOSITORIES_QUERY] ++
  match cursor with Some cursor => [str "-f"; str "cursor=" ++ cursor] | None => [] end.

(** The loop of [accessible_non_public_repositories] *)
Fixpoint accessible_loop (pages : nat) (repositories : list GitHubRepository)
    (cursor : option (list Z)) : GM (list GitHubRepository) :=
  match pages with
  | O => gh_lift (Err (InvalidGitHubMetadata
           (str "GitHub repository pagination exceeded the hard page limit")))
  | S pages =>
      let! response := execute_json accessible_response (accessible_arguments cursor) in
      let! connection := gh_lift (ok_or response
        (InvalidGitHubMetadata (str "GitHub repository pagination data is missing"))) in
      let! repositories := gh_lift (page_repositories (rc_nodes connection) repositories) in
      if negb (rc_has_next_page connection) then
        gh_lift (Ok (dedup_by same_bucket
          (sort_by (λ x y, identity_leb (identity x) (identity y)) repositories)))
      else
        let! next := gh_lift (ok_or (rc_end_cursor connection)
          (InvalidGitHubMetadata (str "GitHub pagination requires a non-empty end cursor"))) in
        if bool_decide (next = []) || bool_decide (cursor = Some next)
        then gh_lift (Err (InvalidGitHubMetadata
               (str "GitHub pagination cursor did not advance")))
        else accessible_loop pages repositories (Some next)
  end.

(** [accessible_non_public_repositories] *)
Definition accessible_non_public_repositories : GM (list GitHubRepository) :=
  accessible_loop MAX_GITHUB_PAGES [] None.

Definition token_arguments : list (list Z) :=
  [str "auth"; str "token"; str "--hostname"; str GITHUB_HOST].

(** [auth_token] *)
Definition auth_token : GM (list Z) :=
  let! bytes := execute token_arguments in
  let token := trim_ascii_whitespace bytes in
  if bool_decide (token = [])
  then gh_lift (Err (GitHubCommand (str "gh returned an empty authentication token")))
  else gh_lift (map_err (λ error, SecretFailed (store_error_text [] error)) (secret_value token)).

(** ** Authorization *)

Record GitHubConfiguration : Type := {
  forward_auth : bool;
  forward_copilot_auth : bool;
  allow_private_repository_access : bool;
}.

Record Authorization : Type := {
  selected_repository : option GitHubRepository;
  accessible_repositories : list GitHubRepository;
  credentials : GitHubSessionCredentials;
}.

(** [authorize_github] *)
Definition authorize_github (selected_identity : RepositoryIdentity) (c : GitHubConfiguration)
    (copilot : option (list Z)) : GM Authorization :=
  let copilot := if forward_copilot_auth c then copilot else None in
  if negb (forward_auth c) then
    gh_lift (Ok {| selected_repository := None; accessible_repositories := [];
                   credentials := {| github_token := None; copilot_token := copilot |} |})
  else
    let! selected := repository selected_identity in
    let! accessible := accessible_non_public_repositories in
    match evaluate_credential_scope selected accessible (allow_private_repository_access c) with
    | AccessWarn message | AccessDeny message => gh_lift (Err (GitHubAuthorization message))
    | AccessAllow =>
        let! token := auth_token in
        gh_lift (Ok {| selected_repository := Some selected;
                       accessible_repositories := accessible;
                       credentials := {| github_token := Some token;
                                         copilot_token := copilot |} |})
    end.

(** ** Specification *)

(** [gh] answered a call with these bytes. *)
Definition said (tr : list GhCall) (arguments : list (list Z)) (bytes : list Z) : Prop :=
  ∃ outcome, (gh_command g arguments, outcome) ∈ tr ∧ gh_output outcome = Ok bytes.

(** All pages from a cursor on. *)
Inductive paged (tr : list GhCall) : option (list Z) → list RepositoryConnection → Prop :=
| paged_last (cursor : option (list Z)) (bytes : list Z) (page : RepositoryConnection) :
    said tr (accessible_arguments cursor) bytes → accessible_response bytes = Ok (Some page) →
    rc_has_next_page page = false → paged tr cursor [page]
| paged_more (cursor : option (list Z)) (bytes next : list Z) (page : RepositoryConnection)
    (pages : list RepositoryConnection) :
    said tr (accessible_arguments cursor) bytes → accessible_response bytes = Ok (Some page) →
    rc_has_next_page page = true → rc_end_cursor page = Some next →
    paged tr (Some next) pages → paged tr cursor (page :: pages).

(** What is not public and may be reached from the selected repository. *)
Definition in_scope (source target : GitHubRepository) (private_access_override : bool) : Prop :=
  same_bucket source target = true ∨
  is_non_public (visibility source) = true ∧ private_access_override = true ∧
  ∃ o1 o2, organization source = Some o1 ∧ organization target = Some o2 ∧
    eq_ignore_ascii_case o1 o2 = true.

(** ** Lemmas *)

Lemma eq_ignore_ascii_case_true (x y : list Z) :
  eq_ignore_ascii_case x y = true ↔ to_ascii_lowercase x = to_ascii_lowercase y.
Proof. unfold eq_ignore_ascii_case. apply bool_decide_eq_true. Qed.

Lemma same_bucket_true (x y : GitHubRepository) :
  same_bucket x y = true ↔
  to_ascii_lowercase (owner (identity x)) = to_ascii_lowercase (owner (identity y)) ∧
  to_ascii_lowercase (repository_name (identity x)) =
  to_ascii_lowercase (repository_name (identity y)) ∧ visibility x = visibility y.
Proof.
  unfold same_bucket, same_repository.
  rewrite !andb_true_iff, !eq_ignore_ascii_case_true, bool_decide_eq_true. tauto.
Qed.

Lemma evaluate_access_allow (source target : GitHubRepository) (override : bool) :
  is_non_public (visibility target) = true → evaluate_access source target override = AccessAllow →
  in_scope source target override.
Proof.
  unfold evaluate_access, in_scope. intros Ht. rewrite Ht. fold (same_bucket source target).
  destruct (same_bucket source target); [by left|]. cbn [negb]. intros H. right.
  destruct (is_non_public (visibility source)); [|done]. cbn [negb] in H.
  destruct (organization source) as [o1|], (organization target) as [o2|]; try done.
  destruct (eq_ignore_ascii_case o1 o2) eqn:He; [|done]. cbn [negb] in H.
  destruct override; [|done]. split_and!; try done. by exists o1, o2.
Qed.

Lemma first_refusal_allow (source : GitHubRepository) (accessible : list GitHubRepository)
    (override : bool) (target : GitHubRepository) :
  first_refusal source accessible override = AccessAllow → target ∈ accessible →
  evaluate_access source target override = AccessAllow.
Proof.
  induction accessible as [|x accessible IH]; cbn [first_refusal]; [set_solver|].
  destruct (evaluate_access source x override) eqn:Hx; try done.
  intros Hf [->|Hin]%elem_of_cons; auto.
Qed.

(** Every element has one of its bucket left. *)
Lemma dedup_by_bucket (l : list GitHubRepository) (x : GitHubRepository) :
  x ∈ l → ∃ y, y ∈ dedup_by same_bucket l ∧ same_bucket y x = true.
Proof.
  revert x. induction l as [|z l IH]; intros x; [set_solver|]. cbn [dedup_by].
  assert (∀ y, same_bucket y y = true) as Hr by (intros; by apply same_bucket_true).
  intros [->|(y & Hy & Hs)%IH]%elem_of_cons.
  - exists z. split; [|done]. destruct (dedup_by same_bucket l) as [|w r]; [by constructor|].
    destruct (same_bucket w z); by constructor.
  - destruct (dedup_by same_bucket l) as [|w r]; [by apply elem_of_nil in Hy|].
    destruct (same_bucket w z) eqn:Hw; [|exists y; split; [by constructor|done]].
    apply elem_of_cons in Hy as [->|Hy]; [|exists y; split; [by constructor|done]].
    exists z. split; [by constructor|]. apply same_bucket_true.
    apply same_bucket_true in Hw as (? & ? & ?), Hs as (? & ? & ?). split_and!; congruence.
Qed.

Lemma page_repositories_app (nodes1 nodes2 : list RepositoryNode)
    (repositories : list GitHubRepository) :
  page_repositories (nodes1 ++ nodes2) repositories =
  let? repositories := page_repositories nodes1 repositories in
  page_repositories nodes2 repositories.
Proof.
  revert repositories. induction nodes1 as [|node nodes1 IH]; intros repositories; [done|].
  cbn [app page_repositories]. by destruct (into_repository node).
Qed.

Lemma page_repositories_elem (nodes : list RepositoryNode)
    (repositories repositories' : list GitHubRepository) :
  page_repositories nodes repositories = Ok repositories' →
  (∀ r, r ∈ repositories → r ∈ repositories') ∧
  (∀ r, r ∈ repositories' → r ∈ repositories ∨ is_non_public (visibility r) = true) ∧
  ∀ node, node ∈ nodes → ∃ r, into_repository node = Ok r ∧
    (is_non_public (visibility r) = true → r ∈ repositories').
Proof.
  revert repositories. induction nodes as [|node nodes IH]; intros repositories;
    cbn [page_repositories]; [intros [= <-]; set_solver|].
  destruct (into_repository node) as [r|] eqn:Hr; [|done].
  intros (H1 & H2 & H3)%IH. destruct (is_non_public (visibility r)) eqn:Hn.
  - split_and!; [set_solver| |].
    + intros x [Hx|?]%H2; [|by right]. apply elem_of_app in Hx as [?|Hx]; [by left|].
      right. apply list_elem_of_singleton in Hx as ->. done.
    + intros x [->|Hx]%elem_of_cons; [|auto]. exists r. split; [done|]. intros _. set_solver.
  - split_and!; [done..|]. intros x [->|Hx]%elem_of_cons; [|auto]. exists r. by rewrite Hn.
Qed.

Lemma said_mono (tr more : list GhCall) (arguments : list (list Z)) (bytes : list Z) :
  said tr arguments bytes → said (tr ++ more) arguments bytes.
Proof. intros (o & Hin & Ho). exists o. split; [set_solver|done]. Qed.

Lemma paged_mono (tr more : list GhCall) (cursor : option (list Z))
    (pages : list RepositoryConnection) :
  paged tr cursor pages → paged (tr ++ more) cursor pages.
Proof. induction 1; [eapply paged_last|eapply paged_more]; eauto using said_mono. Qed.

(** What the calls of a part of the code are. *)
Definition calls_only {A : Type} (P : list (list Z) → Prop) (m : GM A) : Prop := ∀ tr,
  ∃ more, (m tr).2 = tr ++ more ∧
    Forall (λ call, ∃ arguments, call.1 = gh_command g arguments ∧ P arguments) more.

Definition queries : list (list Z) → Prop := λ arguments, head arguments = Some (str "api").

Lemma calls_lift {A : Type} (P : list (list Z) → Prop) (r : result E A) : calls_only P (gh_lift r).
Proof. intros tr. exists []. by rewrite app_nil_r. Qed.

Lemma calls_bind {A B : Type} (P : list (list Z) → Prop) (m : GM A) (k : A → GM B) :
  calls_only P m → (∀ a, calls_only P (k a)) → calls_only P (gh_bind m k).
Proof.
  intros Hm Hk tr. unfold gh_bind. destruct (Hm tr) as (more & Ht & Hf).
  destruct (m tr) as [[a|e] tr1]; cbn [snd] in *; subst tr1; [|by exists more].
  destruct (Hk a (tr ++ more)) as (more' & Ht' & Hf'). exists (more ++ more').
  rewrite app_assoc. split; [done|]. by apply Forall_app.
Qed.

Lemma calls_execute (P : list (list Z) → Prop) (arguments : list (list Z)) :
  P arguments → calls_only P (execute arguments).
Proof.
  intros Hp tr. eexists. split; [done|]. constructor; [|done]. by exists arguments.
Qed.

Create HintDb gh discriminated.
#[local] Hint Resolve calls_lift calls_bind calls_execute : gh.

Lemma calls_json {A : Type} (P : list (list Z) → Prop) (read : list Z → result (list Z) A)
    (arguments : list (list Z)) :
  P arguments → calls_only P (execute_json read arguments).
Proof. intros Hp. unfold execute_json. auto with gh. Qed.

Lemma calls_repository (id : RepositoryIdentity) : calls_only queries (repository id).
Proof.
  unfold repository. apply calls_bind; [by apply calls_json|]. intros response.
  apply calls_bind; [auto with gh|]. intros node. apply calls_bind; [auto with gh|]. intros r.
  destruct (negb _); auto with gh.
Qed.

Lemma calls_accessible (pages : nat) (repositories : list GitHubRepository)
    (cursor : option (list Z)) :
  calls_only queries (accessible_loop pages repositories cursor).
Proof.
  revert repositories cursor. induction pages as [|pages IH]; intros repositories cursor;
    cbn [accessible_loop]; [auto with gh|].
  apply calls_bind; [by apply calls_json|]. intros response.
  apply calls_bind; [auto with gh|]. intros page. apply calls_bind; [auto with gh|]. intros more.
  destruct (negb _); [auto with gh|]. apply calls_bind; [auto with gh|]. intros next.
  destruct (_ || _); [auto with gh|apply IH].
Qed.

Lemma execute_json_ok {A : Type} (read : list Z → result (list Z) A) (arguments : list (list Z))
    (tr tr' : list GhCall) (a : A) :
  execute_json read arguments tr = (Ok a, tr') →
  ∃ call bytes, tr' = tr ++ [call] ∧ said tr' arguments bytes ∧ read bytes = Ok a.
Proof.
  unfold execute_json, gh_bind, execute, gh_lift. intros H.
  destruct (gh_output _) as [bytes|] eqn:Ho; [|done].
  destruct (read bytes) as [a'|] eqn:Hr; [|done]. cbn [map_err] in H. injection H as <- <-.
  eexists _, bytes. split; [done|]. split; [|done].
  exists (processes tr (gh_command g arguments)). split; [set_solver|done].
Qed.

Lemma repository_ok (id : RepositoryIdentity) (tr tr' : list GhCall) (r : GitHubRepository) :
  repository id tr = (Ok r, tr') →
  same_repository (identity r) id = true ∧ ∃ bytes node, said tr' (selected_arguments id) bytes ∧
    selected_response bytes = Ok (Some node) ∧ into_repository node = Ok r.
Proof.
  unfold repository, gh_bind, gh_lift. intros H.
  destruct (execute_json _ _ tr) as [[response|] tr1] eqn:He; [|done].
  destruct response as [node|]; [|done]. cbn [ok_or] in H.
  destruct (into_repository node) as [r'|] eqn:Hn; [|done].
  destruct (same_repository (identity r') id) eqn:Hs; [|done]. cbn [negb] in H.
  injection H as <- <-. split; [done|].
  apply execute_json_ok in He as (call & bytes & _ & Hsaid & Hr). by exists bytes, node.
Qed.

Lemma accessible_loop_ok (n : nat) (repositories result : list GitHubRepository)
    (cursor : option (list Z)) (tr tr' : list GhCall) :
  accessible_loop n repositories cursor tr = (Ok result, tr') →
  ∃ pages all, paged tr' cursor pages ∧
    page_repositories (pages ≫= rc_nodes) repositories = Ok all ∧
    result = dedup_by same_bucket (sort_by (λ x y, identity_leb (identity x) (identity y)) all).
Proof.
  revert repositories cursor tr. induction n as [|n IH]; intros repositories cursor tr;
    cbn [accessible_loop]; [done|]. unfold gh_bind, gh_lift. intros H.
  destruct (execute_json _ _ tr) as [[response|] tr1] eqn:He; [|done].
  apply execute_json_ok in He as (call & bytes & _ & Hsaid & Hr).
  destruct response as [page|]; [|done]. cbn [ok_or] in H.
  destruct (page_repositories (rc_nodes page) repositories) as [more|] eqn:Hp; [|done].
  destruct (rc_has_next_page page) eqn:Hn; cbn [negb] in H.
  - destruct (rc_end_cursor page) as [next|] eqn:Hc; [|done]. cbn [ok_or] in H.
    destruct (_ || _); [done|]. pose proof (calls_accessible n more (Some next) tr1) as Hx.
    rewrite H in Hx. destruct Hx as (rest & Ht & _). cbn [snd] in Ht. subst tr'.
    apply IH in H as (pages & all & Hpages & Hall & Hres). exists (page :: pages), all.
    split_and!; [by eapply paged_more; [by apply said_mono|..]| |done].
    cbn [mbind list_bind]. by rewrite page_repositories_app, Hp.
  - injection H as <- <-. exists [page], more. split_and!; [by eapply paged_last| |done].
    cbn [mbind list_bind]. by rewrite app_nil_r.
Qed.

(** The scope of the token, as [gh] reported it. *)
Definition scoped (tr : list GhCall) (id : RepositoryIdentity) (override : bool) : Prop :=
  ∃ bytes selected_node selected pages,
    said tr (selected_arguments id) bytes ∧ selected_response bytes = Ok (Some selected_node) ∧
    into_repository selected_node = Ok selected ∧ same_repository (identity selected) id = true ∧
    paged tr None pages ∧
    ∀ node, node ∈ pages ≫= rc_nodes → ∃ r, into_repository node = Ok r ∧
      (is_non_public (visibility r) = true → ∃ r', same_bucket r' r = true ∧ in_scope selected r' override).

Lemma scope_is_checked (id : RepositoryIdentity) (override : bool) (tr tr1 tr2 : list GhCall)
    (selected : GitHubRepository) (accessible : list GitHubRepository) :
  repository id tr = (Ok selected, tr1) →
  accessible_non_public_repositories tr1 = (Ok accessible, tr2) →
  evaluate_credential_scope selected accessible override = AccessAllow → scoped tr2 id override.
Proof.
  intros Hr Ha He. apply repository_ok in Hr as (Hs & bytes & node & H1 & H2 & H3).
  pose proof (calls_accessible MAX_GITHUB_PAGES [] None tr1) as Hx.
  unfold accessible_non_public_repositories in Ha. rewrite Ha in Hx.
  destruct Hx as (rest & Ht & _). cbn [snd] in Ht. subst tr2.
  apply accessible_loop_ok in Ha as (pages & all & Hpages & Hall & ->).
  apply page_repositories_elem in Hall as (_ & Hnp & Hall).
  exists bytes, node, selected, pages. split_and!; try done; [by apply said_mono|].
  intros n Hn. destruct (Hall n Hn) as (r & Hi & Hin). exists r. split; [done|]. intros Hv.
  destruct (dedup_by_bucket (sort_by (λ x y, identity_leb (identity x) (identity y)) all) r)
    as (r' & Hr' & Hb); [by apply elem_of_sort_by, Hin|].
  exists r'. split; [done|]. unfold evaluate_credential_scope in He. destruct (_ && _); [done|].
  apply evaluate_access_allow; [|by eapply first_refusal_allow].
  apply elem_of_dedup_by, elem_of_sort_by, Hnp in Hr' as [?|?]; [set_solver|done].
Qed.

Lemma scoped_mono (tr more : list GhCall) (id : RepositoryIdentity) (override : bool) :
  scoped tr id override → scoped (tr ++ more) id override.
Proof.
  intros (bytes & node & selected & pages & H1 & H2 & H3 & H4 & H5 & H6).
  exists bytes, node, selected, pages. split_and!; auto using said_mono, paged_mono.
Qed.

Lemma auth_token_calls (tr : list GhCall) :
  ∃ call, (auth_token tr).2 = tr ++ [call] ∧ ∀ token, (auth_token tr).1 = Ok token →
    ∃ bytes, said (tr ++ [call]) token_arguments bytes ∧ token = trim_ascii_whitespace bytes.
Proof.
  unfold auth_token, gh_bind, execute, gh_lift.
  exists (gh_command g token_arguments, processes tr (gh_command g token_arguments)).
  destruct (gh_output _) as [bytes|] eqn:Ho; [|done]. case_bool_decide; [done|]. split; [done|].
  intros token. cbn [fst]. unfold secret_value. destruct (_ <? _); [done|]. cbn [map_err].
  intros [= <-]. exists bytes. split; [|done].
  exists (processes tr (gh_command g token_arguments)). split; [set_solver|done].
Qed.

Lemma token_is_no_query (more : list GhCall) (outcome : result (list Z) ProcessOutcome) :
  Forall (λ call, ∃ arguments, call.1 = gh_command g arguments ∧ queries arguments) more →
  (gh_command g token_arguments, outcome) ∉ more.
Proof.
  intros Hf Hin. rewrite Forall_forall in Hf. destruct (Hf _ Hin) as (arguments & He & Hq).
  cbn [fst] in He. apply (f_equal gc_arguments) in He. cbn in He. subst arguments.
  by vm_compute in Hq.
Qed.

(** C11: [gh] is asked for the token only when forwarding is on, and after everything it can reach
    was reported and is in the scope of the selected repository; the token that is handed out is
    the one [gh] printed, and no other credential is. *)
Theorem token_is_scoped (id : RepositoryIdentity) (c : GitHubConfiguration)
    (copilot : option (list Z)) :
  let '(r, tr) := authorize_github id c copilot [] in
  (forward_auth c = false → tr = []) ∧
  (∀ outcome, (gh_command g token_arguments, outcome) ∈ tr →
     forward_auth c = true ∧ scoped tr id (allow_private_repository_access c)) ∧
  match r with
  | Err _ => True
  | Ok a =>
      copilot_token (credentials a) = (if forward_copilot_auth c then copilot else None) ∧
      match github_token (credentials a) with
      | None => forward_auth c = false
      | Some token => ∃ bytes, said tr token_arguments bytes ∧ token = trim_ascii_whitespace bytes
      end
  end.
Proof.
  unfold authorize_github. destruct (forward_auth c); cbn [negb];
    [|cbn; split_and!; [done|set_solver|done|done]].
  unfold gh_bind at 1. pose proof (calls_repository id []) as H1.
  destruct (repository id []) as [[selected|] tr1] eqn:Hr; cbn [snd] in H1;
    destruct H1 as (more1 & -> & Hq1); cbn [app] in *;
    [|split_and!; [done|by intros o ?%token_is_no_query|done]].
  unfold gh_bind at 1. pose proof (calls_accessible MAX_GITHUB_PAGES [] None more1) as H2.
  fold accessible_non_public_repositories in H2.
  destruct (accessible_non_public_repositories more1) as [[accessible|] tr2] eqn:Ha;
    cbn [snd] in H2; destruct H2 as (more2 & -> & Hq2);
    assert (∀ o, (gh_command g token_arguments, o) ∉ more1 ++ more2) as Hn
      by (intros o; apply token_is_no_query; by apply Forall_app);
    [|split_and!; [done|by intros o ?%Hn|done]].
  destruct (evaluate_credential_scope _ _ _) eqn:Hv;
    [|split_and!; [done|by intros o ?%Hn|done]..].
  pose proof (scope_is_checked id _ _ _ _ _ _ Hr Ha Hv) as Hs.
  unfold gh_bind at 1. destruct (auth_token_calls (more1 ++ more2)) as (call & Ht & Hk).
  destruct (auth_token (more1 ++ more2)) as [[token|] tr3]; cbn [snd fst] in Ht, Hk; subst tr3;
    unfold gh_lift; (split; [done|split; [intros o _; split; [done|by apply scoped_mono]|]]);
    [|done].
  split; [done|]. by apply Hk.
Qed.

End Client.

(** ** Two sessions *)

Module GithubSample.

Definition node (name visibility : string) : RepositoryNode :=
  {| node_name_with_owner := str name;
     node_visibility := if decide (visibility = "PRIVATE"%string) then Private else Public;
     node_owner_login := str "Acme"; node_owner_kind := str "Organization" |}.

(** A reply names the repositories of one page. *)
#[local] Instance sample_json : GhJson := {|
  selected_response _ := Ok (Some (node "acme/app" "PRIVATE"));
  accessible_response _ :=
    Ok (Some {| rc_nodes := [node "Acme/App" "PRIVATE"; node "acme/lib" "PRIVATE"; node "acme/www" "PUBLIC"];
                rc_has_next_page := false; rc_end_cursor := None |});
|}.

Definition gh : GhProcessConfiguration :=
  {| gh_executable := str "/usr/bin/gh"; gh_config_dir := str "/c"; gh_home := str "/h";
     gh_timeout := from_secs 15 |}.

Definition processes (_ : list GhCall) (_ : GhCommand) : result (list Z) ProcessOutcome :=
  Ok {| po_termination := Exited; po_success := true; po_code := Some 0;
        po_stdout := str " t0ken" ++ [ch_lf]; po_stdout_truncated := 0; po_stderr_truncated := 0 |}.

Definition authorize_app (override : bool) : result CredentialBrokerError Authorization * list GhCall :=
  authorize_github gh processes {| owner := str "ACME"; repository_name := str "app" |}
    {| forward_auth := true; forward_copilot_auth := false;
       allow_private_repository_access := override |} (Some (str "copilot")) [].

(** With the approval the token is given; without it [gh] is not asked for it. *)
Example token_given :
  match authorize_app true with
  | (Ok a, calls) => credentials a = {| github_token := Some (str "t0ken"); copilot_token := None |} ∧
      length calls = 3%nat
  | _ => False
  end.
Proof. vm_compute. split; reflexivity. Qed.

Example token_withheld :
  match authorize_app false with
  | (Err (GitHubAuthorization message), calls) => length calls = 2%nat ∧
      message = str "additional non-public repository acme/lib requires explicit approval"
  | _ => False
  end.
Proof. vm_compute. split; reflexivity. Qed.

End GithubSample.
