(* ===== verification/ExecBroker.v ===== *)
(** * The execution broker ([crates/sendbox-exec/src/api.rs], [session.rs], [environment.rs],
      [broker.rs], [service.rs])

    A request for a command is checked for its limits, authenticated against the session, judged
    by the command policy, given the environment of the broker, and passed to the backend that
    creates the process; the backend is the environment of the model.  The terminal input of an
    interactive command goes through a bounded queue that a control reader fills.

    The theorems show that whatever reaches the backend was authenticated, admitted by the
    command policy and within the limits, runs with the environment the broker fixed and without
    variables that redirect a loader or an interpreter, and that no correlation id is used twice;
    that the queue delivers input in order, never after its end, and never more than it may hold;
    and that the first cause of a cancellation stays. *)

From S2P Require Import Prelude RustStr NetPolicy CommandPolicy.

(** ** Requests ([api.rs]) *)

Definition MAX_IDENTIFIER_BYTES : Z := 128.

Inductive RequestValidationError : Type :=
| InvalidIdentifier (field : list Z)
| InvalidRootId
| NulByte (field : list Z)
| EmptyRelativePath
| AbsoluteDescriptorPath
| ParentTraversal
| TimeoutOutOfRange
| EmptyArgv
| TooManyArguments
| ArgumentTooLarge
| ArgumentsTooLarge
| TooManyEnvironmentEntries
| EnvironmentEntryTooLarge
| EnvironmentTooLarge
| DuplicateEnvironmentVariable (name : list Z)
| DangerousEnvironmentVariable (name : list Z)
| InvalidEnvironmentVariableName (name : list Z)
| InvalidProcessLimit
| InvalidCpuLimit
| InvalidSyscallName (name : list Z).

Notation ValidationResult := (result RequestValidationError).

Definition has_nul (value : list Z) : bool := bool_decide (0 ∈ value).

Definition validate_identifier (field : string) (value : list Z) : ValidationResult unit :=
  if bool_decide (value = []) || (MAX_IDENTIFIER_BYTES <? Z.of_nat (length value))
  then Err (InvalidIdentifier (str field))
  else if has_nul value then Err (NulByte (str field))
  else Ok tt.

(** [CorrelationId::new] *)
Definition correlation_id (value : list Z) : ValidationResult (list Z) :=
  check? validate_identifier "correlation_id" value in Ok value.

Inductive RootId : Type :=
| Workspace
| Toolchain
| System
| Named (name : list Z).

(** [RootId::named] *)
Definition root_named (value : list Z) : ValidationResult RootId :=
  check? validate_identifier "root_id" value in
  if bool_decide (ch_slash ∈ value) || bool_decide (ch_backslash ∈ value) then Err InvalidRootId
  else Ok (Named value).

(** [RelativePath::new]; on Unix a path that is not absolute has no root and no prefix *)
Definition relative_path (value : list Z) : ValidationResult (list Z) :=
  if bool_decide (value = []) then Err EmptyRelativePath
  else if has_nul value then Err (NulByte (str "descriptor_path"))
  else if is_absolute value then Err AbsoluteDescriptorPath
  else if has_parent_dir value then Err ParentTraversal
  else Ok value.

Record DescriptorPath : Type := {
  dp_root : RootId;
  dp_relative : list Z;
}.

Record EnvironmentEntry : Type := {
  ee_name : list Z;
  ee_value : list Z;
}.

Inductive StandardInput : Type :=
| StdinNull
| StdinTerminal (columns rows : Z) (separate_stderr flow_controlled : bool).

Definition is_terminal (stdin : StandardInput) : bool :=
  match stdin with StdinNull => false | StdinTerminal _ _ _ _ => true end.

Definition uses_flow_control (stdin : StandardInput) : bool :=
  match stdin with StdinTerminal _ _ _ true => true | _ => false end.

(** [ExecutionTimeout::new] of a duration of whole milliseconds *)
Definition execution_timeout (millis : Z) : ValidationResult Z :=
  if (10 <=? millis) && (millis <=? 300 * 1000) then Ok millis else Err TimeoutOutOfRange.

Record ResourceLimits : Type := {
  rl_open_files : Z;
  rl_processes : Z;
  rl_core_bytes : Z;
  rl_file_bytes : Z;
  rl_address_space_bytes : Z;
}.

Definition ResourceLimits_default : ResourceLimits :=
  {| rl_open_files := 256; rl_processes := 256; rl_core_bytes := 0;
     rl_file_bytes := 512 * 1024 * 1024; rl_address_space_bytes := 2 * 1024 * 1024 * 1024 |}.

Record ExecutionUser : Type := {
  eu_uid : Z;
  eu_gid : Z;
}.

Record ContainmentProfile : Type := {
  cp_pids_max : Z;
  cp_memory_max_bytes : option Z;
  cp_memory_swap_max_bytes : option Z;
  cp_cpu_max : option (list Z);
  cp_additional_denied_syscalls : list (list Z);
  cp_rlimits : ResourceLimits;
  cp_run_as : option ExecutionUser;
}.

Definition ContainmentProfile_default : ContainmentProfile :=
  {| cp_pids_max := 256; cp_memory_max_bytes := Some (2 * 1024 * 1024 * 1024);
     cp_memory_swap_max_bytes := Some 0; cp_cpu_max := None; cp_additional_denied_syscalls := [];
     cp_rlimits := ResourceLimits_default; cp_run_as := None |}.

Record ExecutionRequest : Type := {
  er_session_id : list Z;
  er_authentication : list Z;
  er_correlation_id : list Z;
  er_cancellation_id : option (list Z);
  er_executable : DescriptorPath;
  er_argv : list (list Z);
  er_cwd : DescriptorPath;
  er_environment : list EnvironmentEntry;
  er_stdin : StandardInput;
  er_timeout : Z;
  er_containment : ContainmentProfile;
}.

Definition set_environment (r : ExecutionRequest) (environment : list EnvironmentEntry)
  : ExecutionRequest :=
  {| er_session_id := er_session_id r; er_authentication := er_authentication r;
     er_correlation_id := er_correlation_id r; er_cancellation_id := er_cancellation_id r;
     er_executable := er_executable r; er_argv := er_argv r; er_cwd := er_cwd r;
     er_environment := environment; er_stdin := er_stdin r; er_timeout := er_timeout r;
     er_containment := er_containment r |}.

(** A map with the names as keys. *)
Notation env_map := (gmap (list Z) (list Z)).

Fixpoint collect_environment (environment : env_map) (entries : list EnvironmentEntry)
  : ValidationResult env_map :=
  match entries with
  | [] => Ok environment
  | entry :: entries =>
      if bool_decide (is_Some (environment !! ee_name entry))
      then Err (DuplicateEnvironmentVariable (ee_name entry))
      else collect_environment (<[ee_name entry := ee_value entry]> environment) entries
  end.

Definition environment_map (request : ExecutionRequest) : ValidationResult env_map :=
  collect_environment ∅ (er_environment request).

(** The order in which a [BTreeMap] is iterated. *)
Definition env_iter (environment : env_map) : list (list Z * list Z) :=
  sort_by (λ x y, bytes_leb x.1 y.1) (map_to_list environment).

Inductive SemanticScope : Type := TopLevelOnly.

Record ExecutionDecision : Type := {
  ed_session_id : list Z;
  ed_correlation_id : list Z;
  ed_disposition : AdmissionDisposition;
  ed_matched_rule : option (list Z);
  ed_semantic_scope : SemanticScope;
}.

Inductive StreamKind : Type := Stdout | Stderr.

Record FileIdentity : Type := {
  fi_device : Z;
  fi_inode : Z;
  fi_mode : Z;
}.

Inductive LaunchFailure : Type :=
| UnsupportedKernel (primitive : list Z) (errno : option Z) (detail : list Z)
| DescriptorResolution (message : list Z)
| PolicySetup (message : list Z)
| CgroupSetup (message : list Z)
| CloneFailed (message : list Z)
| ExecFailed (errno : option Z) (message : list Z)
| LauncherBoundary (message : list Z).

(** [Display] and [Debug] of the errors, with the escapes of a quoted text. *)
Section ErrorTexts.
Variable debug_str : list Z → list Z.

Definition validation_text (error : RequestValidationError) : list Z :=
  match error with
  | InvalidIdentifier field => field ++ str " must contain between 1 and 128 bytes"
  | InvalidRootId => str "root id must be a simple non-path identifier"
  | NulByte field => field ++ str " contains a NUL byte"
  | EmptyRelativePath => str "descriptor-relative path cannot be empty"
  | AbsoluteDescriptorPath => str "descriptor-relative path cannot be absolute"
  | ParentTraversal => str "descriptor-relative path cannot contain parent traversal"
  | TimeoutOutOfRange => str "execution timeout is outside the supported range"
  | EmptyArgv => str "argv must contain at least one token"
  | TooManyArguments => str "argv contains too many tokens"
  | ArgumentTooLarge => str "argv token exceeds the configured byte limit"
  | ArgumentsTooLarge => str "combined argv exceeds the configured byte limit"
  | TooManyEnvironmentEntries => str "environment contains too many entries"
  | EnvironmentEntryTooLarge => str "environment entry exceeds the configured byte limit"
  | EnvironmentTooLarge => str "combined environment exceeds the configured byte limit"
  | DuplicateEnvironmentVariable name =>
      str "environment variable " ++ debug_str name ++ str " is duplicated"
  | DangerousEnvironmentVariable name =>
      str "environment variable " ++ debug_str name ++ str " is dangerous and denied"
  | InvalidEnvironmentVariableName name =>
      str "environment variable name " ++ debug_str name ++ str " is invalid"
  | InvalidProcessLimit => str "containment pids.max must be greater than zero"
  | InvalidCpuLimit =>
      str "cpu.max must be 'max PERIOD' or 'QUOTA PERIOD' with positive integers"
  | InvalidSyscallName name => str "additional syscall name " ++ debug_str name ++ str " is invalid"
  end.

Definition debug_i32 (value : option Z) : list Z :=
  match value with
  | None => str "None"
  | Some n => str "Some(" ++ (if n <? 0 then str "-" ++ show_dec (- n) else show_dec n) ++ str ")"
  end.

Definition launch_failure_debug (failure : LaunchFailure) : list Z :=
  let message name text := str name ++ str " { message: " ++ debug_str text ++ str " }" in
  match failure with
  | UnsupportedKernel primitive errno detail =>
      str "UnsupportedKernel(UnsupportedKernel { primitive: " ++ primitive ++ str ", errno: " ++
      debug_i32 errno ++ str ", detail: " ++ debug_str detail ++ str " })"
  | DescriptorResolution text => message "DescriptorResolution"%string text
  | PolicySetup text => message "PolicySetup"%string text
  | CgroupSetup text => message "CgroupSetup"%string text
  | CloneFailed text => message "Clone"%string text
  | ExecFailed errno text =>
      str "Exec { errno: " ++ debug_i32 errno ++ str ", message: " ++ debug_str text ++ str " }"
  | LauncherBoundary text => message "LauncherBoundary"%string text
  end.

End ErrorTexts.

Inductive TerminalState : Type :=
| Exited (exit_code signal : option Z)
| Rejected (reason : list Z)
| LaunchFailed (failure : LaunchFailure)
| TimedOut
| Cancelled
| ClientDisconnected
| OutputSaturated
| BrokerShutdown
| SupervisorDied.

Inductive CleanupStep : Type := CgroupKill | PidfdReap | ObserveUnpopulated | RemoveLeaf.

#[global] Instance CleanupStep_eq_dec : EqDecision CleanupStep.
Proof. solve_decision. Defined.

Inductive CleanupStatus : Type := NoChild | Complete | Incomplete.

#[global] Instance CleanupStatus_eq_dec : EqDecision CleanupStatus.
Proof. solve_decision. Defined.

Record CleanupReport : Type := {
  cr_status : CleanupStatus;
  cr_attempted : list CleanupStep;
  cr_failures : list (CleanupStep * list Z);
}.

Definition no_child : CleanupReport :=
  {| cr_status := NoChild; cr_attempted := []; cr_failures := [] |}.

(** [CleanupReport::from_attempts] *)
Definition from_attempts (attempted : list CleanupStep) (failures : list (CleanupStep * list Z))
  : CleanupReport :=
  {| cr_status := match failures with [] => Complete | _ => Incomplete end;
     cr_attempted := attempted; cr_failures := failures |}.

Definition cleanup_is_complete (r : CleanupReport) : bool :=
  bool_decide (cr_status r = Complete) && bool_decide (cr_failures r = []) &&
  bool_decide (cr_attempted r = [CgroupKill; PidfdReap; ObserveUnpopulated; RemoveLeaf]).

Record ExecutionResult : Type := {
  xr_terminal : TerminalState;
  xr_cleanup : CleanupReport;
}.

Inductive ExecutionEvent : Type :=
| Started (correlation_id : list Z) (executable cwd : FileIdentity)
| Output (correlation_id : list Z) (stream : StreamKind) (sequence : Z) (data : list Z)
| TerminalInputCreditEvent (correlation_id : list Z) (credits : Z)
| Terminal (correlation_id : list Z) (result : ExecutionResult).

(** ** The session ([session.rs]) *)

Record BrokerSession : Type := {
  bs_id : list Z;
  bs_token : list Z;
  bs_correlations : gset (list Z);
}.

Definition from_material (id authentication : list Z) : BrokerSession :=
  {| bs_id := id; bs_token := authentication; bs_correlations := ∅ |}.

(** The bytes are compared without a branch on their values. *)
Definition authenticate (session : BrokerSession) (session_id authentication : list Z) : bool :=
  if negb (bool_decide (session_id = bs_id session)) then false
  else
    foldl (λ difference es, Z.lor difference (Z.lxor es.1 es.2)) 0
      (zip (bs_token session) authentication) =? 0.

Definition register (session : BrokerSession) (id : list Z) : bool * BrokerSession :=
  (negb (bool_decide (id ∈ bs_correlations session)),
   {| bs_id := bs_id session; bs_token := bs_token session;
      bs_correlations := {[ id ]} ∪ bs_correlations session |}).

(** ** The environment ([environment.rs]) *)

Definition DANGEROUS_ENV_EXACT : list (list Z) :=
  str <$> ["BASH_ENV"; "ENV"; "SHELLOPTS"; "PS4"; "PROMPT_COMMAND"; "IFS"; "RUBYOPT"; "RUBYLIB";
           "NODE_OPTIONS"; "NODE_PATH"; "NODE_REPL_HISTORY"; "JAVA_TOOL_OPTIONS";
           "JDK_JAVA_OPTIONS"; "_JAVA_OPTIONS"; "CLASSPATH"; "GCONV_PATH"; "PERL5LIB"; "PERL5OPT";
           "PERLLIB"; "TCLLIBPATH"; "R_PROFILE"; "R_PROFILE_USER"; "R_ENVIRON"; "R_ENVIRON_USER";
           "PYTHONSTARTUP"; "GLIBC_TUNABLES"; "LOCPATH"; "NLSPATH"; "MALLOC_CHECK_";
           "GIT_SSH_COMMAND"]%string.

Definition DANGEROUS_ENV_PREFIXES : list (list Z) :=
  str <$> ["LD_"; "PYTHON"; "RUBY"; "JAVA_"; "NODE_"]%string.

Record EnvironmentPolicy : Type := { ep_fixed : env_map }.

Definition EnvironmentPolicy_default : EnvironmentPolicy :=
  {| ep_fixed := list_to_map [(str "PATH", str "/usr/bin:/bin"); (str "LANG", str "C.UTF-8")] |}.

Definition name_byte (b : Z) : bool := (b =? 95) || is_ascii_alphanumeric b.

Definition validate_name (name : list Z) : ValidationResult unit :=
  if bool_decide (name = []) || bool_decide (61 ∈ name) || has_nul name ||
     negb (forallb name_byte name)
  then Err (InvalidEnvironmentVariableName name)
  else Ok tt.

Definition is_dangerous (name : list Z) : bool :=
  bool_decide (name ∈ DANGEROUS_ENV_EXACT) ||
  existsb (λ prefix, starts_with name prefix) DANGEROUS_ENV_PREFIXES.

Fixpoint sanitize_entries (policy : EnvironmentPolicy) (environment : env_map)
    (requested : list (list Z * list Z)) : ValidationResult env_map :=
  match requested with
  | [] => Ok environment
  | (name, value) :: requested =>
      check? validate_name name in
      if has_nul value then Err (NulByte (str "environment_value"))
      else if bool_decide (is_Some (ep_fixed policy !! name))
      then sanitize_entries policy environment requested
      else if is_dangerous name then Err (DangerousEnvironmentVariable name)
      else sanitize_entries policy (<[name := value]> environment) requested
  end.

(** [EnvironmentPolicy::sanitize] *)
Definition sanitize_environment (policy : EnvironmentPolicy) (requested : env_map)
  : ValidationResult env_map :=
  sanitize_entries policy (ep_fixed policy) (env_iter requested).

(** ** Admission ([broker.rs]) *)

Record RequestLimits : Type := {
  max_argc : Z;
  max_arg_bytes : Z;
  max_argv_bytes : Z;
  max_env_entries : Z;
  max_env_entry_bytes : Z;
  max_env_bytes : Z;
}.

Definition RequestLimits_default : RequestLimits :=
  {| max_argc := 64; max_arg_bytes := 4 * 1024; max_argv_bytes := 32 * 1024; max_env_entries := 64;
     max_env_entry_bytes := 4 * 1024; max_env_bytes := 16 * 1024 |}.

Definition validate_root_id (root : RootId) : ValidationResult unit :=
  match root with
  | Named name => check? root_named name in Ok tt
  | _ => Ok tt
  end.

(** [str::parse::<u64>] *)
Definition parse_u64 (text : list Z) : option Z :=
  match parse_digits (default text (strip_prefix [ch_plus] text)) with
  | Some n => if n <=? u64_max then Some n else None
  | None => None
  end.

(** [str::split_ascii_whitespace] *)
Definition split_ascii_whitespace (text : list Z) : list (list Z) :=
  filter (λ part, part ≠ [])
    (split_on ch_space ((λ b, if is_ascii_whitespace b then ch_space else b) <$> text)).

Definition valid_cpu_max (value : list Z) : bool :=
  match split_ascii_whitespace value with
  | [quota; period] =>
      match parse_u64 period with
      | None => false
      | Some period =>
          (0 <? period) &&
          (bool_decide (quota = str "max") ||
           match parse_u64 quota with Some quota => 0 <? quota | None => false end)
      end
  | _ => false
  end.

(** The loops over the arguments and over the environment, with the bytes so far. *)
Fixpoint check_arguments (l : RequestLimits) (total : Z) (argv : list (list Z)) : ValidationResult Z :=
  match argv with
  | [] => Ok total
  | argument :: argv =>
      if has_nul argument then Err (NulByte (str "argv"))
      else if max_arg_bytes l <? Z.of_nat (length argument) then Err ArgumentTooLarge
      else check_arguments l (saturating_add u64_max total (Z.of_nat (length argument))) argv
  end.

Definition entry_bytes (entry : EnvironmentEntry) : Z :=
  saturating_add u64_max
    (saturating_add u64_max (Z.of_nat (length (ee_name entry))) (Z.of_nat (length (ee_value entry)))) 1.

Fixpoint check_entries (l : RequestLimits) (total : Z) (entries : list EnvironmentEntry)
  : ValidationResult Z :=
  match entries with
  | [] => Ok total
  | entry :: entries =>
      if max_env_entry_bytes l <? entry_bytes entry then Err EnvironmentEntryTooLarge
      else check_entries l (saturating_add u64_max total (entry_bytes entry)) entries
  end.

Fixpoint check_syscalls (names : list (list Z)) : ValidationResult unit :=
  match names with
  | [] => Ok tt
  | name :: names =>
      if bool_decide (name = []) || negb (forallb name_byte name) then Err (InvalidSyscallName name)
      else check_syscalls names
  end.

(** [RequestLimits::validate] *)
Definition validate_limits (l : RequestLimits) (r : ExecutionRequest) : ValidationResult unit :=
  check? correlation_id (er_correlation_id r) in
  check? validate_root_id (dp_root (er_executable r)) in
  check? validate_root_id (dp_root (er_cwd r)) in
  check? relative_path (dp_relative (er_executable r)) in
  check? relative_path (dp_relative (er_cwd r)) in
  check? execution_timeout (er_timeout r) in
  if bool_decide (er_argv r = []) then Err EmptyArgv
  else if max_argc l <? Z.of_nat (length (er_argv r)) then Err TooManyArguments
  else
    let? argv_bytes := check_arguments l 0 (er_argv r) in
    if max_argv_bytes l <? argv_bytes then Err ArgumentsTooLarge
    else if max_env_entries l <? Z.of_nat (length (er_environment r)) then Err TooManyEnvironmentEntries
    else
      let? env_bytes := check_entries l 0 (er_environment r) in
      if max_env_bytes l <? env_bytes then Err EnvironmentTooLarge
      else if cp_pids_max (er_containment r) =? 0 then Err InvalidProcessLimit
      else if match cp_cpu_max (er_containment r) with
              | Some cpu_max => negb (valid_cpu_max cpu_max)
              | None => false
              end
      then Err InvalidCpuLimit
      else
        check? check_syscalls (cp_additional_denied_syscalls (er_containment r)) in
        check? environment_map r in
        Ok tt.

Inductive ExecError : Type :=
| InvalidRequest (error : RequestValidationError)
| Authentication (detail : list Z).

Record BrokerConfig : Type := {
  br_command_policy : CompiledCommandPolicy;
  br_environment_policy : EnvironmentPolicy;
  br_limits : RequestLimits;
}.

Definition decide_request (b : BrokerConfig) (session : BrokerSession) (r : ExecutionRequest)
  : result ExecError ExecutionDecision :=
  check? map_err InvalidRequest (validate_limits (br_limits b) r) in
  if negb (authenticate session (er_session_id r) (er_authentication r))
  then Err (Authentication (str "request session credentials do not match broker session"))
  else
    let admission := evaluate_command (br_command_policy b) (er_argv r) in
    Ok {| ed_session_id := er_session_id r; ed_correlation_id := er_correlation_id r;
          ed_disposition := disposition admission;
          ed_matched_rule := mr_source (matched admission);
          ed_semantic_scope := TopLevelOnly |}.

(** A call of the backend. *)
Definition Launch : Type := ExecutionRequest * ExecutionDecision.

Section Execute.
Variable b : BrokerConfig.

(** The backend: the events it emits and its result. *)
Variable backend : ExecutionRequest → ExecutionDecision → list ExecutionEvent * ExecutionResult.

(** [Broker::execute_with_input]: with the calls of the backend and the events that are offered
    to the sink, whose errors at the end are ignored *)
Definition execute_with_input (session : BrokerSession) (r : ExecutionRequest)
  : result ExecError ExecutionResult * BrokerSession * list Launch * list ExecutionEvent :=
  match decide_request b session r with
  | Err e => (Err e, session, [], [])
  | Ok decision =>
      let '(fresh, session) := register session (er_correlation_id r) in
      if negb fresh then (Err (Authentication (str "duplicate correlation id")), session, [], [])
      else if bool_decide (ed_disposition decision = AdmissionDeny)
      then
        let result :=
          {| xr_terminal := Rejected (default (str "default command policy denied request")
                                        (ed_matched_rule decision));
             xr_cleanup := no_child |} in
        (Ok result, session, [], [Terminal (er_correlation_id r) result])
      else
        match environment_map r with
        | Err e => (Err (InvalidRequest e), session, [], [])
        | Ok requested =>
            match sanitize_environment (br_environment_policy b) requested with
            | Err e => (Err (InvalidRequest e), session, [], [])
            | Ok environment =>
                let sanitized :=
                  set_environment r
                    ((λ nv, {| ee_name := nv.1; ee_value := nv.2 |}) <$> env_iter environment) in
                let '(events, result) := backend sanitized decision in
                (Ok result, session, [(sanitized, decision)],
                 events ++ [Terminal (er_correlation_id r) result])
            end
        end
  end.

(** Requests of one session, from any number of connections. *)
Fixpoint execute_all (session : BrokerSession) (requests : list ExecutionRequest)
  : BrokerSession * list Launch :=
  match requests with
  | [] => (session, [])
  | r :: requests =>
      let '(_, session, launches, _) := execute_with_input session r in
      let '(session, more) := execute_all session requests in
      (session, launches ++ more)
  end.

End Execute.

(** ** Cancellation *)

Inductive CancellationCause : Type :=
| CauseNone
| CauseCancelled
| CauseClientDisconnected
| CauseBrokerShutdown
| CauseSupervisorDied
| CauseOutputSaturated.

#[global] Instance CancellationCause_eq_dec : EqDecision CancellationCause.
Proof. solve_decision. Defined.

(** [CancellationFlag::set]: only the first cause is stored *)
Definition set_cause (flag cause : CancellationCause) : CancellationCause :=
  if bool_decide (flag = CauseNone) then cause else flag.

Definition is_cancelled (flag : CancellationCause) : bool := negb (bool_decide (flag = CauseNone)).

(** ** Terminal input *)

Inductive TerminalCommand : Type :=
| Input (data : list Z)
| InputEof
| Resize (columns rows : Z).

Definition is_input (command : TerminalCommand) : bool :=
  match command with Input _ => true | _ => false end.

Record InputQueue : Type := {
  iq_capacity : nat;
  iq_ordered : list TerminalCommand;
  iq_input_count : nat;
  iq_input_ended : bool;
  iq_latest_resize : option TerminalCommand;
  iq_receiver_alive : bool;
}.

Inductive InputOfferError : Type := Saturated | Disconnected.

(** [ChannelInput::bounded] *)
Definition bounded (depth : nat) : InputQueue :=
  {| iq_capacity := depth; iq_ordered := []; iq_input_count := 0; iq_input_ended := false;
     iq_latest_resize := None; iq_receiver_alive := true |}.

Definition enqueue (q : InputQueue) (command : TerminalCommand) : result InputOfferError InputQueue :=
  if negb (iq_receiver_alive q) then Err Disconnected
  else
    match command with
    | Input _ =>
        if iq_input_ended q then Err Saturated
        else if (iq_capacity q <=? iq_input_count q)%nat then Err Saturated
        else
          Ok {| iq_capacity := iq_capacity q; iq_ordered := iq_ordered q ++ [command];
                iq_input_count := S (iq_input_count q); iq_input_ended := iq_input_ended q;
                iq_latest_resize := iq_latest_resize q; iq_receiver_alive := iq_receiver_alive q |}
    | InputEof =>
        if iq_input_ended q then Err Saturated
        else
          Ok {| iq_capacity := iq_capacity q; iq_ordered := iq_ordered q ++ [InputEof];
                iq_input_count := iq_input_count q; iq_input_ended := true;
                iq_latest_resize := iq_latest_resize q; iq_receiver_alive := iq_receiver_alive q |}
    | Resize _ _ =>
        Ok {| iq_capacity := iq_capacity q; iq_ordered := iq_ordered q;
              iq_input_count := iq_input_count q; iq_input_ended := iq_input_ended q;
              iq_latest_resize := Some command; iq_receiver_alive := iq_receiver_alive q |}
    end.

(** [InputSender::try_offer]; the lock is never poisoned *)
Definition try_offer (q : InputQueue) (command : TerminalCommand) : result InputOfferError unit * InputQueue :=
  match enqueue q command with
  | Ok q => (Ok tt, q)
  | Err e => (Err e, q)
  end.

(** One round of [InputSender::offer], which waits with [None] unless its time is over. *)
Definition offer_round (timed_out : bool) (q : InputQueue) (command : TerminalCommand)
  : option (result InputOfferError unit) * InputQueue :=
  match command with
  | Input _ =>
      if negb (iq_receiver_alive q) then (Some (Err Disconnected), q)
      else if iq_input_ended q then (Some (Err Saturated), q)
      else if (iq_input_count q <? iq_capacity q)%nat
      then let '(r, q) := try_offer q command in (Some r, q)
      else if timed_out then (Some (Err Saturated), q)
      else (None, q)
  | _ => let '(r, q) := try_offer q command in (Some r, q)
  end.

(** One round of [ChannelInput::poll], which waits or gives up with [None]. *)
Definition poll (q : InputQueue) : option TerminalCommand * InputQueue :=
  match iq_latest_resize q with
  | Some resize =>
      (Some resize,
       {| iq_capacity := iq_capacity q; iq_ordered := iq_ordered q;
          iq_input_count := iq_input_count q; iq_input_ended := iq_input_ended q;
          iq_latest_resize := None; iq_receiver_alive := iq_receiver_alive q |})
  | None =>
      match iq_ordered q with
      | [] => (None, q)
      | command :: ordered =>
          (Some command,
           {| iq_capacity := iq_capacity q; iq_ordered := ordered;
              iq_input_count := if is_input command then pred (iq_input_count q) else iq_input_count q;
              iq_input_ended := iq_input_ended q; iq_latest_resize := None;
              iq_receiver_alive := iq_receiver_alive q |})
      end
  end.

(** [Drop] of the consumer *)
Definition drop_receiver (q : InputQueue) : InputQueue :=
  {| iq_capacity := iq_capacity q; iq_ordered := iq_ordered q; iq_input_count := iq_input_count q;
     iq_input_ended := iq_input_ended q; iq_latest_resize := iq_latest_resize q;
     iq_receiver_alive := false |}.

(** ** The control reader ([service.rs]) *)

Definition INPUT_CHANNEL_DEPTH : nat := 64.

Inductive ClientFrame : Type :=
| Execute (request : ExecutionRequest)
| Cancel (correlation_id : list Z)
| GracefulShutdown
| FrameInput (correlation_id data : list Z)
| FrameInputEof (correlation_id : list Z)
| FrameResize (correlation_id : list Z) (columns rows : Z).

Inductive ServerFrame : Type :=
| EventFrame (event : ExecutionEvent)
| ProtocolErrorFrame (message : list Z).

(** What the reader finds: a frame, or the end or an error of the stream. *)
Definition ReadOutcome : Type := option ClientFrame.

(** The command of a frame, or the cause it cancels the execution for. *)
Definition frame_command (correlation_id : list Z) (frame : ReadOutcome)
  : CancellationCause + TerminalCommand :=
  match frame with
  | Some (Cancel requested) =>
      if bool_decide (requested = correlation_id) then inl CauseCancelled else inl CauseClientDisconnected
  | Some GracefulShutdown => inl CauseBrokerShutdown
  | Some (FrameInput requested data) =>
      if bool_decide (requested = correlation_id) then inr (Input data) else inl CauseClientDisconnected
  | Some (FrameInputEof requested) =>
      if bool_decide (requested = correlation_id) then inr InputEof else inl CauseClientDisconnected
  | Some (FrameResize requested columns rows) =>
      if bool_decide (requested = correlation_id) then inr (Resize columns rows)
      else inl CauseClientDisconnected
  | Some (Execute _) | None => inl CauseClientDisconnected
  end.

(** The state of the reader: the flag, the queue of an interactive command, and whether it goes on. *)
Record Reader : Type := {
  rd_flag : CancellationCause;
  rd_queue : option InputQueue;
  rd_running : bool;
}.

(** A frame that is read.  Input that may be dropped waits for room for a while: the step is taken
    when there is room, or when the time is over and the input is dropped. *)
Definition control_step (correlation_id : list Z) (flow_controlled : bool)
    (frame : ReadOutcome) (rd : Reader) : Reader :=
  let stop cause := {| rd_flag := set_cause (rd_flag rd) cause; rd_queue := rd_queue rd;
                       rd_running := false |} in
  if negb (rd_running rd) then rd
  else
    match frame_command correlation_id frame with
    | inl cause => stop cause
    | inr command =>
        match rd_queue rd with
        | None => stop CauseClientDisconnected
        | Some q =>
            let droppable := negb flow_controlled && is_input command in
            let '(offered, q) :=
              if droppable
              then match offer_round true q command with
                   | (Some r, q) => (r, q)
                   | (None, q) => (Err Saturated, q)
                   end
              else try_offer q command in
            match offered with
            | Ok _ => {| rd_flag := rd_flag rd; rd_queue := Some q; rd_running := true |}
            | Err Saturated =>
                if droppable
                then {| rd_flag := rd_flag rd; rd_queue := Some q; rd_running := true |}
                else {| rd_flag := set_cause (rd_flag rd) CauseClientDisconnected;
                        rd_queue := Some q; rd_running := false |}
            | Err Disconnected =>
                {| rd_flag := rd_flag rd; rd_queue := Some q; rd_running := false |}
            end
        end
    end.

(** [serve_connection] up to the execution: the first frame has to be a request. *)
Definition first_request (frame : ReadOutcome) : option ExecutionRequest :=
  match frame with Some (Execute request) => Some request | _ => None end.

(** The reader and the queue when the execution starts. *)
Definition start_reader (r : ExecutionRequest) : Reader :=
  {| rd_flag := CauseNone;
     rd_queue := if is_terminal (er_stdin r) then Some (bounded INPUT_CHANNEL_DEPTH) else None;
     rd_running := true |}.

(** ** What reaches the backend *)

Lemma lor_fold_zero (l : list (Z * Z)) (d : Z) :
  foldl (λ difference es, Z.lor difference (Z.lxor es.1 es.2)) d l = 0 ↔
  d = 0 ∧ Forall (λ es, es.1 = es.2) l.
Proof.
  revert d. induction l as [|[x y] l IH]; intros d; cbn [foldl]; [naive_solver|].
  rewrite IH, Z.lor_eq_0_iff, Z.lxor_eq_0_iff, Forall_cons. cbn. tauto.
Qed.

Lemma zip_equal (l k : list Z) :
  length l = length k → (Forall (λ es, es.1 = es.2) (zip l k) ↔ l = k).
Proof.
  revert k. induction l as [|x l IH]; intros [|y k]; cbn; try done; intros [= Hlen].
  rewrite Forall_cons, IH by done. cbn. naive_solver.
Qed.

(** The comparison without branches accepts exactly the token. *)
Lemma authenticate_exact (session : BrokerSession) (session_id authentication : list Z) :
  length authentication = length (bs_token session) →
  authenticate session session_id authentication = true ↔
  session_id = bs_id session ∧ authentication = bs_token session.
Proof.
  intros Hlen. unfold authenticate.
  destruct (bool_decide_reflect (session_id = bs_id session)) as [->|]; cbn [negb]; [|naive_solver].
  rewrite Z.eqb_eq, lor_fold_zero, zip_equal by done. naive_solver.
Qed.

Lemma collect_environment_ok (environment result : env_map) (entries : list EnvironmentEntry) :
  collect_environment environment entries = Ok result →
  ∀ name value, result !! name = Some value →
    environment !! name = Some value ∨ {| ee_name := name; ee_value := value |} ∈ entries.
Proof.
  revert environment. induction entries as [|[n v] entries IH]; intros environment;
    cbn [collect_environment ee_name ee_value].
  { intros [= <-]. naive_solver. }
  destruct (bool_decide (is_Some (environment !! n))); [done|]. intros H name value Hl.
  destruct (IH _ H name value Hl) as [Hi|Hi]; [|right; by right].
  destruct (decide (n = name)) as [->|Hne].
  - rewrite lookup_insert_eq in Hi. injection Hi as ->. right. by left.
  - rewrite lookup_insert_ne in Hi by done. by left.
Qed.

Lemma elem_of_env_iter (environment : env_map) (name value : list Z) :
  (name, value) ∈ env_iter environment ↔ environment !! name = Some value.
Proof. unfold env_iter. by rewrite elem_of_sort_by, elem_of_map_to_list. Qed.

(** The environment of the broker, and what of the request it lets in. *)
Definition sanitized_from (policy : EnvironmentPolicy) (requested result : env_map) : Prop :=
  ∀ name value, result !! name = Some value →
    ep_fixed policy !! name = Some value ∨
    ep_fixed policy !! name = None ∧ requested !! name = Some value ∧
    validate_name name = Ok tt ∧ is_dangerous name = false ∧ has_nul value = false.

Lemma sanitize_entries_ok (policy : EnvironmentPolicy) (requested environment result : env_map)
    (entries : list (list Z * list Z)) :
  sanitize_entries policy environment entries = Ok result →
  (∀ name value, (name, value) ∈ entries → requested !! name = Some value) →
  sanitized_from policy requested environment → ep_fixed policy ⊆ environment →
  sanitized_from policy requested result ∧ ep_fixed policy ⊆ result.
Proof.
  revert environment. induction entries as [|[n v] entries IH]; intros environment;
    cbn [sanitize_entries].
  { intros [= <-]. done. }
  destruct (validate_name n) as [[]|] eqn:Ev; [|done].
  destruct (has_nul v) eqn:Eh; [done|].
  destruct (bool_decide_reflect (is_Some (ep_fixed policy !! n))) as [|Hn].
  { intros H Hr. apply (IH _ H). intros. apply Hr. by right. }
  apply eq_None_not_Some in Hn. destruct (is_dangerous n) eqn:Ed; [done|].
  intros H Hr Hs Hf. apply (IH _ H).
  - intros. apply Hr. by right.
  - intros name value Hl. destruct (decide (n = name)) as [->|Hne].
    + rewrite lookup_insert_eq in Hl. injection Hl as ->. right. split_and!; try done.
      apply Hr. by left.
    + rewrite lookup_insert_ne in Hl by done. by apply Hs.
  - apply map_subseteq_spec. intros name value Hl. rewrite lookup_insert_ne by congruence.
    by apply (map_subseteq_spec (ep_fixed policy) environment).
Qed.

(** The environment a command runs with: each name once, everything the broker fixes, and of the
    request only variables with plain names that do not redirect a loader or an interpreter. *)
Definition environment_ok (policy : EnvironmentPolicy) (original environment : list EnvironmentEntry)
  : Prop :=
  NoDup (ee_name <$> environment) ∧
  (∀ name value, ep_fixed policy !! name = Some value →
     {| ee_name := name; ee_value := value |} ∈ environment) ∧
  (∀ name value, {| ee_name := name; ee_value := value |} ∈ environment →
     ep_fixed policy !! name = Some value ∨
     ep_fixed policy !! name = None ∧ {| ee_name := name; ee_value := value |} ∈ original ∧
     validate_name name = Ok tt ∧ is_dangerous name = false ∧ has_nul value = false).

Lemma sanitized_environment_ok (policy : EnvironmentPolicy) (r : ExecutionRequest)
    (requested environment : env_map) :
  environment_map r = Ok requested → sanitize_environment policy requested = Ok environment →
  environment_ok policy (er_environment r)
    ((λ nv, {| ee_name := nv.1; ee_value := nv.2 |}) <$> env_iter environment).
Proof.
  intros Hmap Hs. unfold sanitize_environment in Hs.
  apply (sanitize_entries_ok policy requested) in Hs as [Hfrom Hfixed]; cycle 1.
  { intros name value. by rewrite elem_of_env_iter. }
  { intros name value Hl. by left. }
  { done. }
  assert (∀ name value, {| ee_name := name; ee_value := value |} ∈
    ((λ nv, {| ee_name := nv.1; ee_value := nv.2 |}) <$> env_iter environment) ↔
    environment !! name = Some value) as Hin.
  { intros name value. rewrite list_elem_of_fmap, <-elem_of_env_iter. split.
    - intros ([n v] & [= -> ->] & H). done.
    - intros H. by exists (name, value). }
  split_and!.
  - rewrite <-list_fmap_compose. unfold env_iter.
    rewrite (Permutation_map (λ nv : list Z * list Z, nv.1)
      (sort_by_perm (λ x y : list Z * list Z, bytes_leb x.1 y.1) (map_to_list environment))).
    apply NoDup_fst_map_to_list.
  - intros name value Hl. apply Hin. by eapply map_subseteq_spec.
  - intros name value He. apply Hin in He.
    destruct (Hfrom name value He) as [|(H1 & H2 & H3 & H4 & H5)]; [by left|right].
    split_and!; try done. unfold environment_map in Hmap.
    by destruct (collect_environment_ok _ _ _ Hmap name value H2).
Qed.

(** What a launch has passed. *)
Definition admitted_launch (b : BrokerConfig) (session : BrokerSession)
    (requests : list ExecutionRequest) (launch : Launch) : Prop :=
  ∃ original, original ∈ requests ∧
    launch.1 = set_environment original (er_environment launch.1) ∧
    validate_limits (br_limits b) original = Ok tt ∧
    authenticate session (er_session_id original) (er_authentication original) = true ∧
    disposition (evaluate_command (br_command_policy b) (er_argv original)) = AdmissionAllow ∧
    er_correlation_id original ∉ bs_correlations session ∧
    environment_ok (br_environment_policy b) (er_environment original) (er_environment launch.1).

Lemma decide_request_ok (b : BrokerConfig) (session : BrokerSession) (r : ExecutionRequest)
    (decision : ExecutionDecision) :
  decide_request b session r = Ok decision →
  validate_limits (br_limits b) r = Ok tt ∧
  authenticate session (er_session_id r) (er_authentication r) = true ∧
  ed_disposition decision = disposition (evaluate_command (br_command_policy b) (er_argv r)).
Proof.
  unfold decide_request. destruct (validate_limits (br_limits b) r) as [[]|]; [|done]. cbn [map_err].
  destruct (authenticate _ _ _); [|done]. cbn [negb]. by intros [= <-].
Qed.

(** One request: the session remembers its id, and it is launched only when it may be. *)
Lemma execute_ok (b : BrokerConfig) backend (session : BrokerSession) (r : ExecutionRequest) :
  let '(_, session', launches, _) := execute_with_input b backend session r in
  bs_id session' = bs_id session ∧ bs_token session' = bs_token session ∧
  bs_correlations session ⊆ bs_correlations session' ∧
  (launches = [] ∨
   ∃ launch, launches = [launch] ∧ admitted_launch b session [r] launch ∧
     er_correlation_id launch.1 ∈ bs_correlations session').
Proof.
  unfold execute_with_input.
  destruct (decide_request b session r) as [decision|] eqn:Ed; [|by split_and!; try left].
  apply decide_request_ok in Ed as (Hlimits & Hauth & Hdisp). unfold register. cbv zeta.
  destruct (bool_decide_reflect (er_correlation_id r ∈ bs_correlations session)) as [|Hfresh];
    cbn [negb]; [split_and!; try done; [set_solver|by left]|].
  destruct (bool_decide_reflect (ed_disposition decision = AdmissionDeny)) as [|Hallow];
    [split_and!; try done; [set_solver|by left]|].
  destruct (environment_map r) as [requested|] eqn:Em; [|split_and!; try done; [set_solver|by left]].
  destruct (sanitize_environment _ requested) as [environment|] eqn:Es;
    [|split_and!; try done; [set_solver|by left]].
  destruct (backend _ decision) as [events result]. split_and!; try done; [set_solver|].
  right. eexists. split; [done|]. split; [|cbn; set_solver].
  exists r. cbn [fst]. split_and!; try done; [by left| |by eapply sanitized_environment_ok].
  rewrite <-Hdisp. by destruct (ed_disposition decision).
Qed.


(** ** Cancellation and terminal input *)

Lemma cause_stays (flag : CancellationCause) (causes : list CancellationCause) :
  flag ≠ CauseNone → foldl set_cause flag causes = flag.
Proof.
  intros Hf. induction causes as [|c causes IH]; [done|]. cbn [foldl]. unfold set_cause at 2.
  by rewrite bool_decide_false.
Qed.

(** Of all the causes an execution is cancelled for, the first one is reported. *)
Lemma first_cause_wins (causes : list CancellationCause) :
  foldl set_cause CauseNone causes =
  default CauseNone (head (filter (λ cause, cause ≠ CauseNone) causes)).
Proof.
  induction causes as [|c causes IH]; [done|]. cbn [foldl].
  unfold set_cause at 2. rewrite bool_decide_true by done. rewrite filter_cons.
  destruct (decide (c ≠ CauseNone)) as [Hc|Hc]; [by rewrite cause_stays|].
  by apply dec_stable in Hc as ->.
Qed.

(** What happens to the reader and to the queue while a command runs. *)
Inductive TerminalEvent : Type :=
| OnFrame (frame : ReadOutcome)
| OnPoll
| OnDrop
| OnDone.

Definition with_queue (rd : Reader) (q : InputQueue) : Reader :=
  {| rd_flag := rd_flag rd; rd_queue := Some q; rd_running := rd_running rd |}.

(** One event, and the command a poll takes out. *)
Definition terminal_step (correlation_id : list Z) (flow_controlled : bool)
    (st : Reader * list TerminalCommand) (event : TerminalEvent) : Reader * list TerminalCommand :=
  let '(rd, polled) := st in
  match event with
  | OnFrame frame => (control_step correlation_id flow_controlled frame rd, polled)
  | OnPoll =>
      match rd_queue rd with
      | Some q =>
          let '(command, q) := poll q in
          (with_queue rd q, polled ++ option_list command)
      | None => (rd, polled)
      end
  | OnDrop =>
      match rd_queue rd with
      | Some q => (with_queue rd (drop_receiver q), polled)
      | None => (rd, polled)
      end
  | OnDone => ({| rd_flag := rd_flag rd; rd_queue := rd_queue rd; rd_running := false |}, polled)
  end.

Definition terminal_run (r : ExecutionRequest) (events : list TerminalEvent)
  : Reader * list TerminalCommand :=
  foldl (terminal_step (er_correlation_id r) (uses_flow_control (er_stdin r)))
    (start_reader r, []) events.

Definition is_resize (command : TerminalCommand) : bool :=
  match command with Resize _ _ => true | _ => false end.

(** Input and its end, without the sizes. *)
Definition stream_of (commands : list TerminalCommand) : list TerminalCommand :=
  filter (λ command, is_resize command = false) commands.

(** The commands the client sent for this execution. *)
Definition client_commands (correlation_id : list Z) (events : list TerminalEvent)
  : list TerminalCommand :=
  events ≫= λ event,
    match event with
    | OnFrame frame =>
        match frame_command correlation_id frame with inr command => [command] | inl _ => [] end
    | _ => []
    end.

(** The queue of a command, with everything that went through it so far. *)
Record queue_ok (q : InputQueue) (taken : list TerminalCommand) : Prop := {
  qo_capacity : iq_capacity q = INPUT_CHANNEL_DEPTH;
  qo_count : iq_input_count q = length (filter (λ c, is_input c = true) (iq_ordered q));
  qo_bound : (iq_input_count q <= INPUT_CHANNEL_DEPTH)%nat;
  qo_stream : Forall (λ c, is_resize c = false) (iq_ordered q);
  qo_resize : ∀ c, iq_latest_resize q = Some c → is_resize c = true;
  qo_open : iq_input_ended q = false → InputEof ∉ taken ++ iq_ordered q;
  qo_ended : iq_input_ended q = true →
    ∃ before, taken ++ iq_ordered q = before ++ [InputEof] ∧ InputEof ∉ before;
}.

Lemma enqueue_ok (q q' : InputQueue) (taken : list TerminalCommand) (command : TerminalCommand) :
  queue_ok q taken → enqueue q command = Ok q' →
  queue_ok q' taken ∧ iq_ordered q' = iq_ordered q ++ stream_of [command].
Proof.
  intros [H1 H2 H3 H4 H5 H6 H7]. unfold enqueue. destruct (iq_receiver_alive q); [|done]. cbn [negb].
  destruct command as [data| |columns rows].
  - destruct (iq_input_ended q) eqn:E; [done|].
    destruct (Nat.leb_spec (iq_capacity q) (iq_input_count q)) as [|Hlt]; [done|]. intros [= <-].
    split; [|done]. split; cbn; try done.
    + rewrite filter_app, length_app, filter_cons_True by done. rewrite filter_nil. cbn [length]. lia.
    + lia.
    + apply Forall_app. by split; [|repeat constructor].
    + intros _. specialize (H6 eq_refl). rewrite app_assoc. set_solver.
  - destruct (iq_input_ended q) eqn:E; [done|]. intros [= <-].
    split; [|done]. split; cbn; try done.
    + rewrite filter_app, length_app, filter_cons_False by done. rewrite filter_nil. cbn [length]. lia.
    + apply Forall_app. by split; [|repeat constructor].
    + intros _. exists (taken ++ iq_ordered q). rewrite app_assoc. split; [done|]. by apply H6.
  - intros [= <-]. cbn. rewrite app_nil_r. split; [|done]. split; cbn; try done.
    by intros c [= <-].
Qed.

Lemma poll_ok (q q' : InputQueue) (polled : list TerminalCommand) (command : option TerminalCommand) :
  queue_ok q (stream_of polled) → poll q = (command, q') →
  queue_ok q' (stream_of (polled ++ option_list command)) ∧
  stream_of (polled ++ option_list command) ++ iq_ordered q' = stream_of polled ++ iq_ordered q.
Proof.
  intros [H1 H2 H3 H4 H5 H6 H7]. unfold poll. destruct (iq_latest_resize q) as [resize|] eqn:Er.
  { intros [= <- <-]. cbn. unfold stream_of. rewrite filter_app, filter_cons_False by (by rewrite H5).
    cbn. rewrite app_nil_r. split; [|done]. split; done. }
  destruct (iq_ordered q) as [|c ordered] eqn:Eo.
  { intros [= <- <-]. cbn. rewrite app_nil_r, Eo. split; [|done].
    split; rewrite ?Eo, ?Er; done. }
  apply Forall_cons in H4 as [Hc H4]. intros [= <- <-].
  assert (stream_of (polled ++ [c]) = stream_of polled ++ [c]) as Hs.
  { unfold stream_of. by rewrite filter_app, filter_cons_True. }
  change (option_list (Some c)) with [c]. rewrite Hs. cbn [iq_ordered]. rewrite <-app_assoc. split; [|done].
  assert (iq_input_count q = (if is_input c then 1 else 0) +
            length (filter (λ c, is_input c = true) ordered))%nat as H2'.
  { rewrite H2. destruct (is_input c) eqn:Ei; [by rewrite filter_cons_True|].
    by rewrite filter_cons_False by (by rewrite Ei). }
  split; cbn; rewrite <-?app_assoc; try done; destruct (is_input c); lia.
Qed.

(** The state of a running command: what was taken and what is queued is what the client sent, in
    its order; with flow control nothing is left out. *)
Definition terminal_ok (r : ExecutionRequest) (events : list TerminalEvent)
    (st : Reader * list TerminalCommand) : Prop :=
  let sent := stream_of (client_commands (er_correlation_id r) events) in
  ∃ q, rd_queue st.1 = Some q ∧ queue_ok q (stream_of st.2) ∧
    sublist (stream_of st.2 ++ iq_ordered q) sent ∧
    (uses_flow_control (er_stdin r) = true →
     stream_of st.2 ++ iq_ordered q `prefix_of` sent ∧
     (rd_running st.1 = true → stream_of st.2 ++ iq_ordered q = sent)).

Lemma stream_of_app (xs ys : list TerminalCommand) :
  stream_of (xs ++ ys) = stream_of xs ++ stream_of ys.
Proof. apply filter_app. Qed.

(** An offer of the reader is an [enqueue], or leaves the queue as it is. *)
Definition reader_offer (flow_controlled : bool) (command : TerminalCommand) (q : InputQueue)
  : result InputOfferError unit * InputQueue :=
  if negb flow_controlled && is_input command
  then match offer_round true q command with
       | (Some r, q) => (r, q)
       | (None, q) => (Err Saturated, q)
       end
  else try_offer q command.

Lemma reader_offer_ok (flow_controlled : bool) (command : TerminalCommand) (q : InputQueue) :
  let '(offered, q') := reader_offer flow_controlled command q in
  match offered with
  | Ok _ => enqueue q command = Ok q'
  | Err _ => q' = q
  end.
Proof.
  assert (let '(offered, q') := try_offer q command in
          match offered with Ok _ => enqueue q command = Ok q' | Err _ => q' = q end) as Htry.
  { unfold try_offer. by destruct (enqueue q command). }
  unfold reader_offer, offer_round. destruct (negb flow_controlled && is_input command); [|done].
  destruct command; [|by destruct (try_offer q _)..].
  destruct (negb (iq_receiver_alive q)); [done|]. destruct (iq_input_ended q); [done|].
  destruct (iq_input_count q <? iq_capacity q)%nat; [|done]. by destruct (try_offer q _).
Qed.

Lemma control_step_ok (r : ExecutionRequest) (events : list TerminalEvent) (frame : ReadOutcome)
    (rd : Reader) (polled : list TerminalCommand) :
  terminal_ok r events (rd, polled) →
  terminal_ok r (events ++ [OnFrame frame])
    (control_step (er_correlation_id r) (uses_flow_control (er_stdin r)) frame rd, polled).
Proof.
  intros (q & Hq & Hok & Hsub & Hflow). cbn [fst snd] in *. unfold terminal_ok, client_commands.
  rewrite bind_app, stream_of_app. fold (client_commands (er_correlation_id r) events).
  cbn [mbind list_bind]. rewrite app_nil_r. cbn [fst snd].
  assert (∀ ys rd', rd_queue rd' = Some q → rd_running rd' = false →
    ∃ q0, rd_queue rd' = Some q0 ∧ queue_ok q0 (stream_of polled) ∧
      sublist (stream_of polled ++ iq_ordered q0)
        (stream_of (client_commands (er_correlation_id r) events) ++ ys) ∧
      (uses_flow_control (er_stdin r) = true →
       stream_of polled ++ iq_ordered q0 `prefix_of`
         stream_of (client_commands (er_correlation_id r) events) ++ ys ∧
       (rd_running rd' = true → stream_of polled ++ iq_ordered q0 =
         stream_of (client_commands (er_correlation_id r) events) ++ ys))) as Hstop.
  { intros ys rd' Hq' Hr'. exists q. split_and!; try done; [by apply sublist_inserts_r|].
    intros Hf. split; [|by rewrite Hr']. by apply prefix_app_r, Hflow. }
  unfold control_step. destruct (rd_running rd) eqn:Er; [|by apply Hstop]. cbn [negb].
  destruct (frame_command _ frame) as [cause|command]; [by apply Hstop|]. rewrite Hq.
  pose proof (reader_offer_ok (uses_flow_control (er_stdin r)) command q) as Hoffer.
  unfold reader_offer in Hoffer. cbv zeta. revert Hoffer.
  destruct (if negb (uses_flow_control (er_stdin r)) && is_input command then _ else _) as [offered q'].
  intros Hoffer. destruct offered as [[]|[]]; [|subst q'..].
  - destruct (enqueue_ok q q' (stream_of polled) command Hok Hoffer) as [Hok' Ho].
    exists q'. cbn [rd_queue rd_running]. rewrite Ho, app_assoc. split_and!; try done.
    + by apply sublist_app.
    + intros Hf. destruct (Hflow Hf) as [_ Heq]. rewrite Heq by done. done.
  - destruct (negb (uses_flow_control (er_stdin r)) && is_input command) eqn:Ed; [|by apply Hstop].
    exists q. split_and!; try done; [by apply sublist_inserts_r|].
    intros Hf. by rewrite Hf in Ed.
  - by apply Hstop.
Qed.

Lemma terminal_run_ok (r : ExecutionRequest) (events : list TerminalEvent) :
  is_terminal (er_stdin r) = true → terminal_ok r events (terminal_run r events).
Proof.
  intros Ht. induction events as [|event events IH] using rev_ind.
  { exists (bounded INPUT_CHANNEL_DEPTH). cbn. unfold start_reader. rewrite Ht. split_and!; try done.
    split; cbn; try done; [unfold INPUT_CHANNEL_DEPTH; lia|intros _ H; inversion H]. }
  unfold terminal_run. rewrite foldl_app. fold (terminal_run r events). cbn [foldl].
  destruct (terminal_run r events) as [rd polled]. destruct event as [frame| | |].
  { by apply control_step_ok. }
  all: unfold terminal_ok, client_commands; rewrite bind_app, app_nil_r;
    fold (client_commands (er_correlation_id r) events); destruct IH as (q & Hq & Hok & Hsub & Hflow);
    cbn [fst snd] in *; cbn [terminal_step]; rewrite ?Hq.
  - destruct (poll q) as [command q'] eqn:Ep. destruct (poll_ok _ _ _ _ Hok Ep) as [Hok' Heq].
    exists q'. cbn [fst snd]. rewrite Heq. done.
  - exists (drop_receiver q). cbn [fst snd]. split_and!; try done. by destruct Hok; split.
  - exists q. cbn [fst snd rd_queue rd_running]. split_and!; try done.
    intros Hf. by destruct (Hflow Hf).
Qed.

Lemma queue_length (q : InputQueue) (taken : list TerminalCommand) :
  queue_ok q taken → (length (iq_ordered q) <= S INPUT_CHANNEL_DEPTH)%nat.
Proof.
  intros [H1 H2 H3 H4 H5 H6 H7].
  assert (∀ l, Forall (λ c, is_resize c = false) l → InputEof ∉ l →
    filter (λ c, is_input c = true) l = l) as Hall.
  { induction l as [|c l IH]; [done|]. intros [Hc Hl]%Forall_cons He.
    rewrite filter_cons_True; [|by destruct c; [|set_solver|]]. f_equal. apply IH; [done|set_solver]. }
  destruct (iq_input_ended q); [|rewrite Hall in H2; [lia|done|set_solver]].
  destruct (H7 eq_refl) as (before & Heq & Hb). remember (iq_ordered q) as ordered eqn:Eo. clear Eo.
  destruct ordered as [|c o _] using rev_ind.
  { cbn. lia. }
  rewrite app_assoc in Heq. apply app_inj_tail in Heq as [<- ->]. rewrite filter_app, length_app in H2.
  apply Forall_app in H4 as [H4 _]. rewrite Hall in H2; [|done|set_solver]. rewrite length_app.
  cbn [length]. lia.
Qed.

(** Whatever the client sends and whenever the command reads its terminal, the input that is read
    and the input that is queued are the client's, in its order; nothing follows the end of the
    input; at most sixty-four inputs and the end are held; and with flow control nothing is lost
    while the reader runs, and nothing but the tail when it stops. *)
Theorem terminal_input_in_order (r : ExecutionRequest) (events : list TerminalEvent) :
  is_terminal (er_stdin r) = true →
  let st := terminal_run r events in
  let sent := stream_of (client_commands (er_correlation_id r) events) in
  ∃ q, rd_queue st.1 = Some q ∧
    (let held := stream_of st.2 ++ iq_ordered q in
     sublist held sent ∧
     (∀ before after, held = before ++ InputEof :: after → after = []) ∧
     (uses_flow_control (er_stdin r) = true →
      held `prefix_of` sent ∧ (rd_running st.1 = true → held = sent))) ∧
    (length (iq_ordered q) <= S INPUT_CHANNEL_DEPTH)%nat.
Proof.
  intros Ht. destruct (terminal_run_ok r events Ht) as (q & Hq & Hok & Hsub & Hflow).
  exists q. split_and!; try done; [|by eapply queue_length].
  cbv zeta. split_and!; try done. intros before after Heq. destruct Hok as [_ _ _ _ _ H6 H7]. rewrite Heq in H6, H7.
  destruct (iq_input_ended q); [|destruct H6; [done|set_solver]].
  destruct (H7 eq_refl) as (before' & Heq' & Hb). destruct after as [|c after _] using rev_ind; [done|].
  rewrite app_comm_cons, app_assoc in Heq'. apply app_inj_tail in Heq' as [<- _]. set_solver.
Qed.

(** ** A sample *)

Module ExecSample.

Definition session : BrokerSession :=
  {| bs_id := replicate 16 1; bs_token := replicate 32 2; bs_correlations := ∅ |}.

Definition policy : CommandPolicy :=
  {| cp_default_action := NetPolicy.Deny; cp_allowlist := [str "git"]; cp_denylist := []; cp_log_blocked := true |}.

Definition request (id : string) (environment : list EnvironmentEntry) : ExecutionRequest :=
  {| er_session_id := replicate 16 1; er_authentication := replicate 32 2;
     er_correlation_id := str id; er_cancellation_id := None;
     er_executable := {| dp_root := System; dp_relative := str "usr/bin/git" |};
     er_argv := [str "git"]; er_cwd := {| dp_root := Workspace; dp_relative := str "." |};
     er_environment := environment; er_stdin := StdinTerminal 80 24 false true; er_timeout := 1000;
     er_containment := ContainmentProfile_default |}.

Definition language : EnvironmentEntry := {| ee_name := str "LANG"; ee_value := str "C" |}.
Definition preload : EnvironmentEntry := {| ee_name := str "LD_PRELOAD"; ee_value := str "x" |}.

Definition broker (compiled : CompiledCommandPolicy) : BrokerConfig :=
  {| br_command_policy := compiled; br_environment_policy := EnvironmentPolicy_default;
     br_limits := RequestLimits_default |}.

Definition backend (_ : ExecutionRequest) (_ : ExecutionDecision)
  : list ExecutionEvent * ExecutionResult :=
  ([], {| xr_terminal := Exited (Some 0) None; xr_cleanup := no_child |}).

(** A command is launched; again under its id, or with a variable that redirects the loader, it
    is not. *)
Example sample_launches :
  match compile_commands policy with
  | Ok compiled =>
      (λ launch : Launch, er_correlation_id launch.1) <$>
        (execute_all (broker compiled) backend session
           [request "a" [language]; request "a" []; request "b" [preload]; request "c" []]).2 =
      [str "a"; str "c"]
  | Err _ => False
  end.
Proof. vm_compute. reflexivity. Qed.

Definition events : list TerminalEvent :=
  [OnFrame (Some (FrameInput (str "a") (str "x"))); OnFrame (Some (FrameResize (str "a") 90 30));
   OnPoll; OnFrame (Some (FrameInputEof (str "a"))); OnPoll;
   OnFrame (Some (FrameInput (str "a") (str "y")))].

Lemma terminal_input_in_order_witness :
  (terminal_run (request "a" []) events).2 = [Resize 90 30; Input (str "x")] ∧
  ∃ q, rd_queue (terminal_run (request "a" []) events).1 = Some q ∧
    (length (iq_ordered q) <= S INPUT_CHANNEL_DEPTH)%nat.
Proof.
  split; [vm_compute; reflexivity|].
  destruct (terminal_input_in_order (request "a" []) events eq_refl) as (q & Hq & _ & Hlen).
  exists q. split; [exact Hq|exact Hlen].
Defined.

End ExecSample.
