(* ===== verification/GuestProtocol.v ===== *)
(** * What the guest does with a request of the host ([guest/sendbox-guest/src/protocol.rs],
      [crates/sendbox-protocol/src/operations.rs])

    The payloads of the operations with their checks, and the parts of [protocol.rs] that make an
    execution request out of a launch: the paths as a root and a relative path, the environment
    with the secrets that are decrypted, the command line; the result of an execution as the host
    sees it; health.

    The theorems show what an execution request that is built looks like, and that the secrets it
    carries are what the envelopes hold. *)

From S2P Require Import Prelude RustStr Digest ProtoTypes ProtoCodec ProtoFrame ProtoHandshake.
From S2P Require Import McpJson GuestService Startup Reports Envelope ExecBroker.

(** ** Operations ([crates/sendbox-protocol/src/operations.rs]) *)

Definition OPERATION_SCHEMA_VERSION : Z := 2.
Definition AGENT_LAUNCH_OPERATION : list Z := str "agent.launch".
Definition INTERACTIVE_LAUNCH_OPERATION : list Z := str "agent.launch.interactive".
Definition INTERACTIVE_OPERATION_SCHEMA_VERSION : Z := 1.
Definition INTERACTIVE_LAUNCH_OPERATION_V2 : list Z := str "agent.launch.interactive.v2".
Definition INTERACTIVE_OPERATION_SCHEMA_VERSION_V2 : Z := 2.
Definition HEALTH_OPERATION : list Z := str "health".
Definition SAFE_OUTPUTS_COLLECT_OPERATION : list Z := str "safe_outputs.collect".
Definition PACKAGE_REPORT_OPERATION : list Z := str "package.report".
Definition SYSCALL_REPORT_OPERATION : list Z := str "syscall.report".

Record SecretEnvelope : Type := {
  se_reference : list Z;
  se_sequence : Z;
  se_expires_at_unix_ms : Z;
  se_policy_digest : list Z;
  se_boundary_plan_digest : list Z;
  se_envelope : list Z;
}.

Record LaunchRequest : Type := {
  lr_schema_version : Z;
  lr_boundary_plan_digest : list Z;
  lr_program : list Z;
  lr_arguments : list (list Z);
  lr_working_directory : list Z;
  lr_environment : list (list Z * list Z);
  lr_secrets : list SecretEnvelope;
  lr_timeout_ms : Z;
}.

Record TerminalSize : Type := {
  ts_columns : Z;
  ts_rows : Z;
}.

Inductive InteractiveLaunchError : Type :=
| EmptyTerminalSize | TermLength | TermCharset | InteractiveSchemaVersion.

Definition MAX_TERM_BYTES : Z := 64.

(** [Display] *)
Definition interactive_error_text (error : InteractiveLaunchError) : list Z :=
  str match error with
      | EmptyTerminalSize => "terminal dimensions must be non-zero"
      | TermLength => "TERM must be a non-empty value of at most 64 bytes"
      | TermCharset => "TERM must contain only alphanumeric, '-', '.', '_' or '+' characters"
      | InteractiveSchemaVersion => "interactive launch schema version is unsupported"
      end.

Record InteractiveLaunchRequest : Type := {
  ilr_schema_version : Z;
  ilr_launch : LaunchRequest;
  ilr_terminal : TerminalSize;
  ilr_term : list Z;
}.

Record InteractiveLaunchRequestV2 : Type := {
  il2_schema_version : Z;
  il2_launch : LaunchRequest;
  il2_terminal : TerminalSize;
  il2_term : list Z;
  il2_separate_stderr : bool;
}.

Definition validate_size (size : TerminalSize) : result InteractiveLaunchError unit :=
  if (ts_columns size =? 0) || (ts_rows size =? 0) then Err EmptyTerminalSize else Ok tt.

Definition validate_terminal (terminal : TerminalSize) (term : list Z)
  : result InteractiveLaunchError unit :=
  check? validate_size terminal in
  if bool_decide (term = []) || (MAX_TERM_BYTES <? zlength term) then Err TermLength
  else if negb (forallb (λ b, is_ascii_alphanumeric b || bool_decide (b ∈ str "-._+")) term)
  then Err TermCharset
  else Ok tt.

Definition validate_interactive (r : InteractiveLaunchRequest) : result InteractiveLaunchError unit :=
  if negb (ilr_schema_version r =? INTERACTIVE_OPERATION_SCHEMA_VERSION)
  then Err InteractiveSchemaVersion
  else validate_terminal (ilr_terminal r) (ilr_term r).

Definition validate_interactive_v2 (r : InteractiveLaunchRequestV2) : result InteractiveLaunchError unit :=
  if negb (il2_schema_version r =? INTERACTIVE_OPERATION_SCHEMA_VERSION_V2)
  then Err InteractiveSchemaVersion
  else validate_terminal (il2_terminal r) (il2_term r).

Inductive TerminalStateV1 : Type :=
| TerminalExited (exit_code signal : option Z)
| TerminalCancelled
| TerminalTimedOut
| TerminalOutputSaturated
| TerminalClientDisconnected
| TerminalBrokerShutdown
| TerminalSupervisorDied
| TerminalRejected (reason : list Z)
| TerminalLaunchFailed (message : list Z).

Record TerminalResult : Type := {
  tr_schema_version : Z;
  tr_terminal : TerminalStateV1;
  tr_cleanup_complete : bool;
}.

Record HealthResponse : Type := {
  hres_schema_version : Z;
  hres_ready : bool;
  hres_broker_live : bool;
  hres_release_sequence : Z;
}.

Record SafeOutputsCollectRequest : Type := {
  scr_schema_version : Z;
  scr_boundary_plan_digest : list Z;
}.

Definition TERMINAL_INPUT_CHUNK_BYTES : Z := 4 * 1024.
Definition TERMINAL_INPUT_WINDOW_CREDITS : Z := 64.

Record TerminalInputCreditV1 : Type := { tic_credits : Z }.

Inductive TerminalInputCreditError : Type := CreditEmpty | CreditExceedsWindow.

(** [Display] *)
Definition credit_error_text (error : TerminalInputCreditError) : list Z :=
  str match error with
      | CreditEmpty => "terminal input credit must be non-zero"
      | CreditExceedsWindow => "terminal input credit exceeds the negotiated window"
      end.

Definition validate_credit (credit : TerminalInputCreditV1) : result TerminalInputCreditError unit :=
  if tic_credits credit =? 0 then Err CreditEmpty
  else if TERMINAL_INPUT_WINDOW_CREDITS <? tic_credits credit then Err CreditExceedsWindow
  else Ok tt.

(** [TerminalInputCreditV1::new] *)
Definition new_credit (credits : Z) : result TerminalInputCreditError TerminalInputCreditV1 :=
  check? validate_credit {| tic_credits := credits |} in Ok {| tic_credits := credits |}.

Definition agent_host_capabilities : CapabilitySet :=
  caps_new [Lifecycle; ProtoTypes.Exec; StreamedIo; Signals; ProtoTypes.Audit; Health].

Definition agent_host_required_capabilities : CapabilitySet :=
  caps_new [ProtoTypes.Exec; StreamedIo; Signals; Health].

Definition agent_guest_capabilities : CapabilitySet :=
  caps_new [Lifecycle; ProtoTypes.Exec; StreamedIo; Signals; ProtoTypes.Audit; Health].

Definition agent_guest_required_capabilities : CapabilitySet :=
  caps_new [Lifecycle; Health].

(** ** An execution request ([protocol.rs]) *)

Inductive LaunchMode : Type := Headless | InteractiveV1 | InteractiveV2.

Definition is_interactive (mode : LaunchMode) : bool :=
  match mode with Headless => false | _ => true end.

(** [LaunchMode::uses_flow_control] *)
Definition mode_flow_control (mode : LaunchMode) : bool :=
  match mode with InteractiveV2 => true | _ => false end.

(** The terminal of an interactive launch: its size, its name, whether the error output is kept
    apart and whether input is flow-controlled. *)
Definition LaunchTerminal : Type := TerminalSize * list Z * bool * bool.

Record BrokerClientConfiguration : Type := {
  bc_session_id : list Z;
  bc_authentication : list Z;
  bc_socket_path : list Z;
  bc_workload : ExecutionUser;
}.

(** The cipher and what it is bound to; the replay guard is part of the session. *)
Record GuestSecretDecryptor : Type := {
  gd_session_id : list Z;
  gd_boundary_plan_digest : list Z;
  gd_cipher : EnvelopeCipher;
}.

Definition TERM_ENVIRONMENT : list Z := str "TERM".

Section Build.
Context {unicode : NfcApi} {cbor : CborApi} {kdf : KdfApi} {aead : AeadApi}.

(** The escapes of a quoted text, and the text of an error of the CBOR library. *)
Variable debug_str : list Z → list Z.
Variable cbor_text : list Z.

(** [GuestSecretDecryptor::new] *)
Definition new_decryptor (session_id material boundary_plan_digest : list Z)
  : GuestResult GuestSecretDecryptor :=
  let? material :=
    map_err (λ error, Protocol (str "prepare secret key: " ++ envelope_error_text cbor_text error))
      (key_material material) in
  Ok {| gd_session_id := session_id; gd_boundary_plan_digest := boundary_plan_digest;
        gd_cipher := new_cipher material session_id |}.

(** An absolute path as a root and a path below it. *)
Definition descriptor_path (absolute : list Z) : GuestResult DescriptorPath :=
  if negb (is_absolute absolute)
  then Err (Protocol (str "brokered executable and cwd paths must be absolute"))
  else
    let '(root, relative) :=
      match strip_path_prefix [str "workspace"] absolute with
      | Some relative => (Workspace, relative)
      | None => (System, path_after 0 absolute)
      end in
    let relative := match relative with [] => str "." | _ => relative end in
    let? relative := map_err (λ error, Protocol (validation_text debug_str error))
                       (relative_path relative) in
    Ok {| dp_root := root; dp_relative := relative |}.

(** The variables that are not secret, with the names so far. *)
Fixpoint plain_environment (names : gset (list Z)) (entries : list (list Z * list Z))
  : GuestResult (gset (list Z) * list EnvironmentEntry) :=
  match entries with
  | [] => Ok (names, [])
  | (name, value) :: entries =>
      if bool_decide (name ∈ names) then Err (Protocol (str "duplicate environment name " ++ name))
      else
        let? ' (names, environment) := plain_environment ({[ name ]} ∪ names) entries in
        Ok (names, {| ee_name := name; ee_value := value |} :: environment)
  end.

(** The binding under which the guest opens a secret. *)
Definition secret_binding (d : GuestSecretDecryptor) (secret : SecretEnvelope) (name : list Z)
  : EnvelopeBinding :=
  {| eb_session_id := gd_session_id d; eb_recipient := Guest; eb_secret_name := name;
     eb_sequence := se_sequence secret; eb_expires_at_unix_ms := se_expires_at_unix_ms secret;
     eb_policy_digest := se_policy_digest secret;
     eb_boundary_plan_digest := gd_boundary_plan_digest d |}.

(** One secret: the variable with its value. *)
Definition open_secret (d : GuestSecretDecryptor) (now : Z) (names : gset (list Z))
    (secret : SecretEnvelope) (guard : ReplayGuard) : GuestResult EnvironmentEntry * ReplayGuard :=
  if negb (bool_decide (se_boundary_plan_digest secret = gd_boundary_plan_digest d))
  then (Err (Protocol (str "secret " ++ se_reference secret ++
                       str " carries a different boundary plan digest")), guard)
  else if bool_decide (se_reference secret ∈ names)
  then (Err (Protocol (str "duplicate environment or secret name " ++ se_reference secret)), guard)
  else
    match secret_name (se_reference secret) with
    | Err error => (Err (Protocol (str "invalid secret name: " ++ store_error_text cbor_text error)), guard)
    | Ok name =>
        match open (gd_cipher d) (se_envelope secret) (secret_binding d secret name) guard now with
        | (Err error, guard) =>
            (Err (Protocol (str "open secret envelope: " ++ envelope_error_text cbor_text error)), guard)
        | (Ok value, guard) =>
            match from_utf8 value with
            | None => (Err (Protocol (str "secret " ++ se_reference secret ++
                                      str " is not valid UTF-8 for environment injection")), guard)
            | Some value => (Ok {| ee_name := se_reference secret; ee_value := value |}, guard)
            end
        end
    end.

Fixpoint open_secrets (d : GuestSecretDecryptor) (now : Z) (names : gset (list Z))
    (secrets : list SecretEnvelope) (guard : ReplayGuard)
  : GuestResult (list EnvironmentEntry) * ReplayGuard :=
  match secrets with
  | [] => (Ok [], guard)
  | secret :: secrets =>
      match open_secret d now names secret guard with
      | (Err e, guard) => (Err e, guard)
      | (Ok entry, guard) =>
          match open_secrets d now ({[ se_reference secret ]} ∪ names) secrets guard with
          | (Err e, guard) => (Err e, guard)
          | (Ok entries, guard) => (Ok (entry :: entries), guard)
          end
      end
  end.

(** [decrypt_environment], with what the clock says *)
Definition decrypt_environment (d : GuestSecretDecryptor) (launch : LaunchRequest)
    (unix_time_ms : GuestResult Z) (guard : ReplayGuard)
  : GuestResult (list EnvironmentEntry) * ReplayGuard :=
  match plain_environment ∅ (lr_environment launch) with
  | Err e => (Err e, guard)
  | Ok (names, plain) =>
      match unix_time_ms with
      | Err e => (Err e, guard)
      | Ok now =>
          match open_secrets d now names (lr_secrets launch) guard with
          | (Err e, guard) => (Err e, guard)
          | (Ok secrets, guard) => (Ok (plain ++ secrets), guard)
          end
      end
  end.

(** The name of an interactive terminal replaces a configured one. *)
Definition with_term (terminal : option LaunchTerminal) (environment : list EnvironmentEntry)
  : list EnvironmentEntry :=
  match terminal with
  | None => environment
  | Some (_, term, _, _) =>
      filter (λ entry, ee_name entry ≠ TERM_ENVIRONMENT) environment ++
      [{| ee_name := TERM_ENVIRONMENT; ee_value := term |}]
  end.

Definition launch_stdin (terminal : option LaunchTerminal) : StandardInput :=
  match terminal with
  | None => StdinNull
  | Some (size, _, separate_stderr, flow_controlled) =>
      StdinTerminal (ts_columns size) (ts_rows size) separate_stderr flow_controlled
  end.

Definition launch_containment (broker : BrokerClientConfiguration) : ContainmentProfile :=
  {| cp_pids_max := cp_pids_max ContainmentProfile_default;
     cp_memory_max_bytes := cp_memory_max_bytes ContainmentProfile_default;
     cp_memory_swap_max_bytes := cp_memory_swap_max_bytes ContainmentProfile_default;
     cp_cpu_max := cp_cpu_max ContainmentProfile_default;
     cp_additional_denied_syscalls := cp_additional_denied_syscalls ContainmentProfile_default;
     cp_rlimits := cp_rlimits ContainmentProfile_default;
     cp_run_as := Some (bc_workload broker) |}.

Definition build_execution_request (launch : LaunchRequest) (terminal : option LaunchTerminal)
    (broker : BrokerClientConfiguration) (d : GuestSecretDecryptor) (unix_time_ms : GuestResult Z)
    (guard : ReplayGuard) : GuestResult ExecutionRequest * ReplayGuard :=
  match
    let? executable := descriptor_path (lr_program launch) in
    let? cwd := descriptor_path (lr_working_directory launch) in
    let? timeout :=
      map_err (λ error, Protocol (str "invalid execution timeout: " ++ validation_text debug_str error))
        (execution_timeout (lr_timeout_ms launch)) in
    Ok (executable, cwd, timeout)
  with
  | Err e => (Err e, guard)
  | Ok (executable, cwd, timeout) =>
      match decrypt_environment d launch unix_time_ms guard with
      | (Err e, guard) => (Err e, guard)
      | (Ok environment, guard) =>
          (let? id := map_err (λ error, Protocol (validation_text debug_str error))
                        (correlation_id (str "agent-launch")) in
           Ok {| er_session_id := bc_session_id broker; er_authentication := bc_authentication broker;
                 er_correlation_id := id; er_cancellation_id := None; er_executable := executable;
                 er_argv := lr_program launch :: lr_arguments launch; er_cwd := cwd;
                 er_environment := with_term terminal environment;
                 er_stdin := launch_stdin terminal; er_timeout := timeout;
                 er_containment := launch_containment broker |}, guard)
      end
  end.

(** [terminal_result] *)
Definition terminal_result (result : ExecutionResult) : TerminalResult :=
  {| tr_schema_version := OPERATION_SCHEMA_VERSION;
     tr_terminal :=
       match xr_terminal result with
       | Exited exit_code signal => TerminalExited exit_code signal
       | Rejected reason => TerminalRejected reason
       | LaunchFailed failure => TerminalLaunchFailed (launch_failure_debug debug_str failure)
       | ExecBroker.TimedOut => TerminalTimedOut
       | Cancelled => TerminalCancelled
       | ClientDisconnected => TerminalClientDisconnected
       | OutputSaturated => TerminalOutputSaturated
       | BrokerShutdown => TerminalBrokerShutdown
       | SupervisorDied => TerminalSupervisorDied
       end;
     tr_cleanup_complete := cleanup_is_complete (xr_cleanup result) |}.

(** ** What is built *)

(** Where a variable of the execution comes from. *)
Definition entry_origin (d : GuestSecretDecryptor) (launch : LaunchRequest)
    (terminal : option LaunchTerminal) (now : Z) (entry : EnvironmentEntry) : Prop :=
  (ee_name entry, ee_value entry) ∈ lr_environment launch ∨
  (∃ size separate flow, terminal = Some (size, ee_value entry, separate, flow) ∧
     ee_name entry = TERM_ENVIRONMENT) ∨
  (∃ secret before after, secret ∈ lr_secrets launch ∧ ee_name entry = se_reference secret ∧
     se_boundary_plan_digest secret = gd_boundary_plan_digest d ∧
     open (gd_cipher d) (se_envelope secret) (secret_binding d secret (se_reference secret)) before now
       = (Ok (ee_value entry), after)).

Lemma plain_environment_ok (entries : list (list Z * list Z)) :
  ∀ names names' environment, plain_environment names entries = Ok (names', environment) →
  NoDup (ee_name <$> environment) ∧
  (∀ name, name ∈ names' ↔ name ∈ names ∨ name ∈ ee_name <$> environment) ∧
  (∀ name, name ∈ names → name ∉ ee_name <$> environment) ∧
  (∀ entry, entry ∈ environment → (ee_name entry, ee_value entry) ∈ entries).
Proof.
  induction entries as [|[name value] entries IH]; intros names names' environment; cbn [plain_environment].
  { intros [= <- <-]. split_and!; [constructor|set_solver..]. }
  destruct (bool_decide_reflect (name ∈ names)) as [|Hn]; [done|].
  destruct (plain_environment _ entries) as [[names1 environment1]|] eqn:E; [|done].
  intros [= <- <-]. destruct (IH _ _ _ E) as (H1 & H2 & H3 & H4). rewrite fmap_cons. cbn [ee_name].
  split_and!; [constructor; set_solver|set_solver|set_solver|].
  intros entry [->|He]%elem_of_cons; [by left|right; by apply H4].
Qed.

Lemma open_secret_ok (d : GuestSecretDecryptor) (now : Z) (names : gset (list Z))
    (secret : SecretEnvelope) (guard guard' : ReplayGuard) (entry : EnvironmentEntry) :
  open_secret d now names secret guard = (Ok entry, guard') →
  ee_name entry = se_reference secret ∧ se_reference secret ∉ names ∧
  se_boundary_plan_digest secret = gd_boundary_plan_digest d ∧
  open (gd_cipher d) (se_envelope secret) (secret_binding d secret (se_reference secret)) guard now
    = (Ok (ee_value entry), guard').
Proof.
  unfold open_secret.
  destruct (bool_decide_reflect (se_boundary_plan_digest secret = gd_boundary_plan_digest d)); [|done].
  cbn [negb]. destruct (bool_decide_reflect (se_reference secret ∈ names)); [done|].
  destruct (secret_name (se_reference secret)) as [name|] eqn:En; [|done].
  apply secret_name_length in En as [-> _].
  destruct (open _ _ _ _ _) as [[value|] guard1] eqn:Eo; [|done].
  destruct (from_utf8 value) as [text|] eqn:Eu; [|done]. apply from_utf8_Some in Eu as ->.
  by intros [= <- <-].
Qed.

Lemma open_secrets_ok (d : GuestSecretDecryptor) (now : Z) (secrets : list SecretEnvelope) :
  ∀ names guard guard' environment,
  open_secrets d now names secrets guard = (Ok environment, guard') →
  NoDup (ee_name <$> environment) ∧ ee_name <$> environment = se_reference <$> secrets ∧
  (∀ name, name ∈ names → name ∉ ee_name <$> environment) ∧
  (∀ entry, entry ∈ environment → ∃ secret before after, secret ∈ secrets ∧
     ee_name entry = se_reference secret ∧
     se_boundary_plan_digest secret = gd_boundary_plan_digest d ∧
     open (gd_cipher d) (se_envelope secret) (secret_binding d secret (se_reference secret)) before now
       = (Ok (ee_value entry), after)).
Proof.
  induction secrets as [|secret secrets IH]; intros names guard guard' environment; cbn [open_secrets].
  { intros [= <- <-]. split_and!; [constructor|done|set_solver..]. }
  destruct (open_secret d now names secret guard) as [[entry|] guard1] eqn:E1; [|done].
  apply open_secret_ok in E1 as (Hname & Hnew & Hplan & Hopen).
  destruct (open_secrets d now _ secrets guard1) as [[entries|] guard2] eqn:E2; [|done].
  intros [= <- <-]. destruct (IH _ _ _ _ E2) as (H1 & H2 & H3 & H4). rewrite !fmap_cons, Hname.
  split_and!; [constructor; set_solver|by rewrite H2|set_solver|].
  intros e [->|He]%elem_of_cons; [by exists secret, guard, guard1; split_and!; try done; left|].
  destruct (H4 e He) as (s & b & a & Hs & Hrest). exists s, b, a. split; [by right|done].
Qed.

Lemma with_term_names (terminal : option LaunchTerminal) (environment : list EnvironmentEntry) :
  NoDup (ee_name <$> environment) → NoDup (ee_name <$> with_term terminal environment).
Proof.
  destruct terminal as [[[[size term] separate] flow]|]; [|done]. intros Hnd. cbn [with_term].
  rewrite fmap_app. apply NoDup_app. split_and!.
  - eapply sublist_NoDup; [exact Hnd|]. apply fmap_sublist, sublist_filter.
  - intros name (e & -> & He)%list_elem_of_fmap Hin. apply list_elem_of_filter in He as [Hne _].
    by apply list_elem_of_singleton in Hin.
  - apply NoDup_singleton.
Qed.

(** A path that is given to the broker stays below its root. *)
Definition confined_path (path : DescriptorPath) : Prop :=
  (dp_root path = Workspace ∨ dp_root path = System) ∧ dp_relative path ≠ [] ∧
  is_absolute (dp_relative path) = false ∧ has_parent_dir (dp_relative path) = false.

Lemma descriptor_path_ok (absolute : list Z) (path : DescriptorPath) :
  descriptor_path absolute = Ok path → confined_path path.
Proof.
  unfold descriptor_path. destruct (is_absolute absolute); [|done]. cbn [negb].
  destruct (match strip_path_prefix _ _ with Some _ => _ | None => _ end) as [root relative] eqn:Er.
  assert (root = Workspace ∨ root = System) as Hroot.
  { destruct (strip_path_prefix _ _); injection Er as <- _; auto. }
  generalize (match relative with [] => str "." | _ => relative end). clear Er relative. intros relative.
  unfold relative_path. destruct (bool_decide_reflect (relative = [])); [done|].
  destruct (has_nul relative); [done|]. destruct (is_absolute relative) eqn:Ea; [done|].
  destruct (has_parent_dir relative) eqn:Eh; [done|]. by intros [= <-].
Qed.

(** What an execution request is: the program and its arguments as they were asked for, at paths
    that do not leave their roots, as the user of the workload, with each variable once, and with
    no variable but those of the launch, the name of the terminal, and secrets that the cipher of
    this session opened for this guest and this boundary plan. *)
Definition request_shape (d : GuestSecretDecryptor) (launch : LaunchRequest)
    (terminal : option LaunchTerminal) (broker : BrokerClientConfiguration) (now : Z)
    (x : ExecutionRequest) : Prop :=
  er_argv x = lr_program launch :: lr_arguments launch ∧
  descriptor_path (lr_program launch) = Ok (er_executable x) ∧ confined_path (er_executable x) ∧
  confined_path (er_cwd x) ∧ 10 ≤ er_timeout x ≤ 300000 ∧
  cp_run_as (er_containment x) = Some (bc_workload broker) ∧
  er_stdin x = launch_stdin terminal ∧
  NoDup (ee_name <$> er_environment x) ∧
  Forall (entry_origin d launch terminal now) (er_environment x).

Lemma build_execution_request_shape (launch : LaunchRequest) (terminal : option LaunchTerminal)
    (broker : BrokerClientConfiguration) (d : GuestSecretDecryptor) (unix_time_ms : GuestResult Z)
    (guard guard' : ReplayGuard) (x : ExecutionRequest) :
  build_execution_request launch terminal broker d unix_time_ms guard = (Ok x, guard') →
  ∃ now, unix_time_ms = Ok now ∧ request_shape d launch terminal broker now x.
Proof.
  unfold build_execution_request.
  destruct (descriptor_path (lr_program launch)) as [executable|] eqn:E1; [|done].
  destruct (descriptor_path (lr_working_directory launch)) as [cwd|] eqn:E2; [|done].
  unfold execution_timeout. destruct ((10 <=? _) && _) eqn:Et; [|done]. bool_to_prop. cbn [map_err].
  unfold decrypt_environment.
  destruct (plain_environment ∅ (lr_environment launch)) as [[names plain]|] eqn:Ep; [|done].
  destruct unix_time_ms as [now|]; [|done].
  destruct (open_secrets d now names (lr_secrets launch) guard) as [[secrets|] guard1] eqn:Es; [|done].
  intros [= <- <-]. apply plain_environment_ok in Ep as (P1 & P2 & P3 & P4).
  apply open_secrets_ok in Es as (S1 & S2 & S3 & S4).
  exists now. split; [done|]. unfold request_shape. cbn.
  split_and!; try done; [by eapply descriptor_path_ok..| |].
  - apply with_term_names. rewrite fmap_app. apply NoDup_app. split_and!; [done| |done].
    intros name Hn. apply S3, P2. by right.
  - apply Forall_forall. intros entry Hentry.
    assert (entry ∈ plain ++ secrets ∨
      ∃ size separate flow, terminal = Some (size, ee_value entry, separate, flow) ∧
        ee_name entry = TERM_ENVIRONMENT) as [[Hin|Hin]%elem_of_app|Hin].
    { destruct terminal as [[[[size term] separate] flow]|]; [|by left]. cbn [with_term] in Hentry.
      apply elem_of_app in Hentry as [He|He]; [left; by apply list_elem_of_filter in He as [_ He]|].
      apply list_elem_of_singleton in He as ->. right. by exists size, separate, flow. }
    + left. by apply P4.
    + right. right. by apply S4.
    + right. by left.
Qed.

End Build.
