(* ===== verification/GuestSession.v ===== *)
(** * The guest's side of a session ([guest/sendbox-guest/src/protocol.rs])

    [serve_authenticated] after the handshake: the loop over the messages of the host, the launch
    of the agent, the loop while it runs, with the lanes to the execution broker and the task that
    empties them, reports, health and the collection of safe outputs.  A session is a state; what
    happens to it is an event: a message of the host, a frame of the broker, a turn of the writer
    task, or a change of the state that the rest of the guest shares with it.

    The theorems show that the agent is executed at most once in a session, only from the state
    [Ready], with all mandatory services live and for the boundary plan of the guest; that input
    the host sends for a flow-controlled terminal arrives at the command unchanged and in order;
    and that an execution is not answered before its outputs are sealed.  A sample shows that a
    report that is to be given once is given again after a request that was rejected. *)

From S2P Require Import Prelude RustStr Digest ProtoTypes ProtoCodec ProtoFrame ProtoHandshake.
From S2P Require Import McpJson GuestService Startup Reports Envelope ExecBroker GuestProtocol.

(** ** The state *)

(** The JSON of everything that is sent and received. *)
Class WireFormats : Type := {
  wire_json :: Serde Json;
  wire_readiness :: Serde ReadinessSnapshot;
  wire_launch :: Serde LaunchRequest;
  wire_interactive :: Serde InteractiveLaunchRequest;
  wire_interactive_v2 :: Serde InteractiveLaunchRequestV2;
  wire_result :: Serde TerminalResult;
  wire_health :: Serde HealthResponse;
  wire_credit :: Serde TerminalInputCreditV1;
  wire_size :: Serde TerminalSize;
  wire_network_request :: Serde NetworkReportRequest;
  wire_network_chunk :: Serde NetworkReportChunk;
  wire_report_request :: Serde PackageReportRequest;
  wire_report_response :: Serde PackageReportResponse;
  wire_collect_request :: Serde SafeOutputsCollectRequest;
  wire_collection :: Serde SafeOutputsCollection;
}.

Record ProtocolServices : Type := {
  ps_readiness : ReadinessSnapshot;
  ps_broker : option BrokerClientConfiguration;
  ps_package_report : option PackageReportSource;
  ps_network_reports : list NetworkReportSource;
  ps_secret_decryptor : GuestSecretDecryptor;
  ps_safe_outputs : bool;
  ps_syscall_tracing : bool;
}.

Definition BROKER_CONTROL_DEPTH : nat := 4.
Definition BROKER_INPUT_DEPTH : nat := Z.to_nat TERMINAL_INPUT_WINDOW_CREDITS.

(** The lanes to the broker: two queues, a place for the end of the input, the latest size, and
    what the writer task has taken of the end; [ln_open] while the task runs. *)
Record Lanes : Type := {
  ln_control : list ClientFrame;
  ln_input : list ClientFrame;
  ln_eof : option ClientFrame;
  ln_resize : option ClientFrame;
  ln_eof_pending : option ClientFrame;
  ln_open : bool;
}.

Definition new_lanes : Lanes :=
  {| ln_control := []; ln_input := []; ln_eof := None; ln_resize := None; ln_eof_pending := None;
     ln_open := true |}.

(** A running execution. *)
Record Execution : Type := {
  xn_request_id : Z;
  xn_request : ExecutionRequest;
  xn_mode : LaunchMode;
  xn_input_ended : bool;
  xn_lanes : Lanes;
}.

Definition new_execution (request_id : Z) (request : ExecutionRequest) (mode : LaunchMode) : Execution :=
  {| xn_request_id := request_id; xn_request := request; xn_mode := mode; xn_input_ended := false;
     xn_lanes := new_lanes |}.

Definition set_lanes (x : Execution) (lanes : Lanes) : Execution :=
  {| xn_request_id := xn_request_id x; xn_request := xn_request x; xn_mode := xn_mode x;
     xn_input_ended := xn_input_ended x; xn_lanes := lanes |}.

Inductive Phase : Type :=
| Serving
| Executing (x : Execution)
| Ended (result : GuestResult unit).

(** The variables of the loop of [serve_authenticated]. *)
Record Flags : Type := {
  fl_terminal_response_sent : bool;
  fl_package_report_served : bool;
  fl_syscall_report_served : bool;
  fl_network_transfer : option NetworkReportTransfer;
}.

(** What a session does to the world: messages and frames that are handed to a writer, commands
    that are passed to the broker, and calls of the safe outputs. *)
Inductive Effect : Type :=
| Sent (message : Message)
| Written (frame : ClientFrame)
| ExecutedCommand (request : ExecutionRequest)
| RegisteredCredential (value : list Z)
| SealedOutputs
| CollectedOutputs.

(** The startup state and the gate are shared with the rest of the guest. *)
Record Session : Type := {
  ss_machine : StartupState;
  ss_gate : ReadinessGate;
  ss_guard : ReplayGuard;
  ss_flags : Flags;
  ss_phase : Phase;
  ss_effects : list Effect;
}.

Definition set_machine (s : Session) (machine : StartupState) : Session :=
  {| ss_machine := machine; ss_gate := ss_gate s; ss_guard := ss_guard s; ss_flags := ss_flags s;
     ss_phase := ss_phase s; ss_effects := ss_effects s |}.

Definition set_gate (s : Session) (gate : ReadinessGate) : Session :=
  {| ss_machine := ss_machine s; ss_gate := gate; ss_guard := ss_guard s; ss_flags := ss_flags s;
     ss_phase := ss_phase s; ss_effects := ss_effects s |}.

Definition set_guard (s : Session) (guard : ReplayGuard) : Session :=
  {| ss_machine := ss_machine s; ss_gate := ss_gate s; ss_guard := guard; ss_flags := ss_flags s;
     ss_phase := ss_phase s; ss_effects := ss_effects s |}.

Definition set_flags (s : Session) (flags : Flags) : Session :=
  {| ss_machine := ss_machine s; ss_gate := ss_gate s; ss_guard := ss_guard s; ss_flags := flags;
     ss_phase := ss_phase s; ss_effects := ss_effects s |}.

Definition set_phase (s : Session) (phase : Phase) : Session :=
  {| ss_machine := ss_machine s; ss_gate := ss_gate s; ss_guard := ss_guard s;
     ss_flags := ss_flags s; ss_phase := phase; ss_effects := ss_effects s |}.

Definition add_effect (s : Session) (effect : Effect) : Session :=
  {| ss_machine := ss_machine s; ss_gate := ss_gate s; ss_guard := ss_guard s;
     ss_flags := ss_flags s; ss_phase := ss_phase s; ss_effects := ss_effects s ++ [effect] |}.

(** What the operating system and the other parts of the guest say while an event is handled. *)
Record Replies : Type := {
  rp_live : Z → bool;
  rp_safe_outputs_live : bool;
  rp_write_state : GuestResult unit;
  rp_unix_time_ms : GuestResult Z;
  rp_register : list Z → GuestResult unit;
  rp_connect : GuestResult unit;
  rp_execute_frame : GuestResult unit;
  rp_read_file : PackageReportSource → Z → GuestResult (list Z);
  rp_trace_report : GuestResult (list Z);
  rp_seal : GuestResult unit;
  rp_collect : GuestResult (list Z * list Z);
  rp_send : GuestResult unit;
}.

(** ** The computation *)

Definition SM (A : Type) : Type := Session → GuestResult A * Session.

#[global] Instance SM_ret : MRet SM := λ A x s, (Ok x, s).

#[global] Instance SM_bind : MBind SM := λ A B k m s,
  match m s with
  | (Ok x, s) => k x s
  | (Err e, s) => (Err e, s)
  end.

Definition raise {A : Type} (r : GuestResult A) : SM A := λ s, (r, s).

Definition get {A : Type} (f : Session → A) : SM A := λ s, (Ok (f s), s).

Definition modify (f : Session → Session) : SM unit := λ s, (Ok tt, f s).

(** Encode for the wire, with the context of an error. *)
Definition encode {A : Type} `{Serde A} (context : string) (x : A) : SM (list Z) :=
  raise (map_err (λ error, Protocol (str context ++ error)) (to_vec x)).

Definition decode {A : Type} `{Serde A} (context : string) (payload : list Z) : SM A :=
  raise (map_err (λ error, Protocol (str context ++ error)) (from_slice payload)).

(** A message is handed to the writer, which may fail. *)
Definition send (r : Replies) (message : Message) : SM unit :=
  modify (λ s, add_effect s (Sent message));; raise (rp_send r).

Section Serve.
Context {unicode : NfcApi} {cbor : CborApi} {kdf : KdfApi} {aead : AeadApi} {sha : Sha256Api}.
Context {b64 : Base64Api} {wire : WireFormats}.

Variable debug_str : list Z → list Z.
Variable cbor_text : list Z.
Variable services : ProtocolServices.

(** ** Launching *)

Definition gate_live (r : Replies) : SM bool := λ s,
  let '(live, gate) := verified_live (rp_live r) (ss_gate s) in (Ok live, set_gate s gate).

(** The mandatory services and the safe outputs, in the order in which they are asked. *)
Definition services_live (r : Replies) : SM bool :=
  live ← gate_live r;
  mret (live && (negb (ps_safe_outputs services) || rp_safe_outputs_live r)).

Definition send_rejection (r : Replies) (request_id : Z) (reason : list Z) : SM unit :=
  payload ← encode "encoding rejection: "
    {| tr_schema_version := OPERATION_SCHEMA_VERSION; tr_terminal := TerminalRejected reason;
       tr_cleanup_complete := false |};
  send r (MResponse request_id StatusRejected payload).

(** The launch of a request, or the reason why its terminal is refused. *)
Definition decode_launch (mode : LaunchMode) (payload : list Z)
  : SM (LaunchRequest * option LaunchTerminal + list Z) :=
  match mode with
  | Headless =>
      launch ← decode "decoding launch request: " payload;
      mret (inl (launch, None))
  | InteractiveV1 =>
      envelope ← decode "decoding interactive launch request: " payload;
      mret match validate_interactive envelope with
           | Err error => inr (interactive_error_text error)
           | Ok _ =>
               inl (ilr_launch envelope, Some (ilr_terminal envelope, ilr_term envelope, false, false))
           end
  | InteractiveV2 =>
      envelope ← decode "decoding flow-controlled interactive launch request: " payload;
      mret match validate_interactive_v2 envelope with
           | Err error => inr (interactive_error_text error)
           | Ok _ =>
               inl (il2_launch envelope,
                    Some (il2_terminal envelope, il2_term envelope, il2_separate_stderr envelope, true))
           end
  end.

(** The state is changed before it is written, and stays changed when that fails. *)
Definition permit_launch (r : Replies) : SM bool := λ s,
  match permit_agent_launch (ss_machine s) with
  | Err _ => (Ok false, s)
  | Ok machine => (check? rp_write_state r in Ok true, set_machine s machine)
  end.

Definition build_request (launch : LaunchRequest) (terminal : option LaunchTerminal)
    (broker : BrokerClientConfiguration) (r : Replies) : SM ExecutionRequest := λ s,
  let '(request, guard) :=
    build_execution_request debug_str cbor_text launch terminal broker (ps_secret_decryptor services)
      (rp_unix_time_ms r) (ss_guard s) in
  (request, set_guard s guard).

(** The values of the secrets are masked in what the agent hands out. *)
Fixpoint register_credentials (r : Replies) (environment : list EnvironmentEntry)
    (secrets : list SecretEnvelope) : SM unit :=
  match secrets with
  | [] => mret tt
  | secret :: secrets =>
      entry ← raise (ok_or (head (filter (λ entry, ee_name entry = se_reference secret) environment))
                       (Protocol (str "decrypted credential is missing from the launch environment")));
      modify (λ s, add_effect s (RegisteredCredential (ee_value entry)));;
      raise (rp_register r (ee_value entry));;
      register_credentials r environment secrets
  end.

(** After the launch is permitted: the command is handed to the broker, and the loop begins. *)
Definition start_execution (request_id : Z) (mode : LaunchMode) (launch : LaunchRequest)
    (terminal : option LaunchTerminal) (broker : BrokerClientConfiguration) (r : Replies) : SM bool :=
  request ← build_request launch terminal broker r;
  (if ps_safe_outputs services
   then register_credentials r (er_environment request) (lr_secrets launch) else mret tt);;
  raise (rp_connect r);;
  modify (λ s, add_effect s (ExecutedCommand request));;
  raise (rp_execute_frame r);;
  modify (λ s, set_phase s (Executing (new_execution request_id request mode)));;
  mret false.

(** [launch] up to the loop: whether the request was answered *)
Definition launch_agent (request_id : Z) (payload : list Z) (mode : LaunchMode) (r : Replies) : SM bool :=
  live ← services_live r;
  if negb (live : bool)
  then send_rejection r request_id (str "mandatory-service-not-live");; mret true
  else
    match ps_broker services with
    | None => send_rejection r request_id (str "execution-broker-not-configured");; mret true
    | Some broker =>
        decoded ← decode_launch mode payload;
        match decoded with
        | inr reason => send_rejection r request_id reason;; mret true
        | inl (launch, terminal) =>
            if negb (lr_schema_version launch =? OPERATION_SCHEMA_VERSION)
            then send_rejection r request_id (str "unsupported-operation-schema");; mret true
            else if negb (bool_decide (lr_boundary_plan_digest launch =
                                       gd_boundary_plan_digest (ps_secret_decryptor services)))
            then send_rejection r request_id (str "boundary-plan-digest-mismatch");; mret true
            else
              permitted ← permit_launch r;
              if negb (permitted : bool)
              then send_rejection r request_id (str "readiness-not-available");; mret true
              else start_execution request_id mode launch terminal broker r
        end
    end.

(** ** While the agent runs *)

(** [let _ = control_sender.send(frame).await]: [None] while there is no room *)
Definition send_control (lanes : Lanes) (frame : ClientFrame) : option Lanes :=
  if negb (ln_open lanes) then Some lanes
  else if (length (ln_control lanes) <? BROKER_CONTROL_DEPTH)%nat
  then Some {| ln_control := ln_control lanes ++ [frame]; ln_input := ln_input lanes;
               ln_eof := ln_eof lanes; ln_resize := ln_resize lanes;
               ln_eof_pending := ln_eof_pending lanes; ln_open := ln_open lanes |}
  else None.

Inductive TrySendError : Type := LaneFull | LaneClosed.

Definition try_send_input (lanes : Lanes) (frame : ClientFrame) : result TrySendError Lanes :=
  if negb (ln_open lanes) then Err LaneClosed
  else if (length (ln_input lanes) <? BROKER_INPUT_DEPTH)%nat
  then Ok {| ln_control := ln_control lanes; ln_input := ln_input lanes ++ [frame];
             ln_eof := ln_eof lanes; ln_resize := ln_resize lanes;
             ln_eof_pending := ln_eof_pending lanes; ln_open := ln_open lanes |}
  else Err LaneFull.

Definition try_send_eof (lanes : Lanes) (frame : ClientFrame) : result TrySendError Lanes :=
  if negb (ln_open lanes) then Err LaneClosed
  else
    match ln_eof lanes with
    | Some _ => Err LaneFull
    | None =>
        Ok {| ln_control := ln_control lanes; ln_input := ln_input lanes; ln_eof := Some frame;
              ln_resize := ln_resize lanes; ln_eof_pending := ln_eof_pending lanes;
              ln_open := ln_open lanes |}
    end.

Definition send_resize (lanes : Lanes) (frame : ClientFrame) : result TrySendError Lanes :=
  if negb (ln_open lanes) then Err LaneClosed
  else
    Ok {| ln_control := ln_control lanes; ln_input := ln_input lanes; ln_eof := ln_eof lanes;
          ln_resize := Some frame; ln_eof_pending := ln_eof_pending lanes;
          ln_open := ln_open lanes |}.

(** What the writer task does next: it takes the end of the input aside, or sends a frame.  Frames
    that control the execution come first; the end comes after all input. *)
Definition writer_next (lanes : Lanes) : option (option ClientFrame * Lanes) :=
  let take_control rest :=
    {| ln_control := rest; ln_input := ln_input lanes; ln_eof := ln_eof lanes;
       ln_resize := ln_resize lanes; ln_eof_pending := ln_eof_pending lanes;
       ln_open := ln_open lanes |} in
  let take_input rest :=
    {| ln_control := ln_control lanes; ln_input := rest; ln_eof := ln_eof lanes;
       ln_resize := ln_resize lanes; ln_eof_pending := ln_eof_pending lanes;
       ln_open := ln_open lanes |} in
  if negb (ln_open lanes) then None
  else
    match ln_control lanes, ln_eof_pending lanes with
    | frame :: rest, _ => Some (Some frame, take_control rest)
    | [], Some eof =>
        match ln_input lanes with
        | frame :: rest => Some (Some frame, take_input rest)
        | [] =>
            Some (Some eof,
                  {| ln_control := []; ln_input := []; ln_eof := ln_eof lanes;
                     ln_resize := ln_resize lanes; ln_eof_pending := None; ln_open := ln_open lanes |})
        end
    | [], None =>
        match ln_eof lanes, ln_resize lanes, ln_input lanes with
        | Some eof, _, _ =>
            Some (None,
                  {| ln_control := []; ln_input := ln_input lanes; ln_eof := None;
                     ln_resize := ln_resize lanes; ln_eof_pending := Some eof;
                     ln_open := ln_open lanes |})
        | None, Some resize, _ =>
            Some (Some resize,
                  {| ln_control := []; ln_input := ln_input lanes; ln_eof := None; ln_resize := None;
                     ln_eof_pending := None; ln_open := ln_open lanes |})
        | None, None, frame :: rest => Some (Some frame, take_input rest)
        | None, None, [] => None
        end
    end.

(** The task returns, and what is in the lanes is dropped. *)
Definition close_lanes : Lanes :=
  {| ln_control := []; ln_input := []; ln_eof := None; ln_resize := None; ln_eof_pending := None;
     ln_open := false |}.

(** A turn of the writer task; [written] is whether [send_broker_frame] succeeds. *)
Definition writer_turn (written : bool) (x : Execution) (s : Session) : Session :=
  match writer_next (xn_lanes x) with
  | None => s
  | Some (None, lanes) => set_phase s (Executing (set_lanes x lanes))
  | Some (Some frame, lanes) =>
      if written
      then add_effect (set_phase s (Executing (set_lanes x lanes))) (Written frame)
      else set_phase s (Executing (set_lanes x close_lanes))
  end.

Definition validate_terminal_input_payload (mode : LaunchMode) (payload : list Z)
  : result (list Z) unit :=
  if bool_decide (payload = []) then Err (str "terminal input chunk must not be empty")
  else if mode_flow_control mode && (TERMINAL_INPUT_CHUNK_BYTES <? zlength payload)
  then Err (str "terminal input chunk must contain 1..=" ++ show_dec TERMINAL_INPUT_CHUNK_BYTES ++
            str " bytes")
  else Ok tt.

(** [forward_terminal_event]; without flow control input that finds no room until its time is over
    is dropped *)
Definition forward_terminal_event (stream_id : Z) (kind : EventKind) (payload : list Z) (x : Execution)
  : result (list Z) Execution :=
  if negb (is_interactive (xn_mode x))
  then Err (str "terminal input is only accepted for an interactive launch")
  else if negb (stream_id =? xn_request_id x)
  then Err (str "terminal event referenced an unknown stream")
  else if xn_input_ended x then Err (str "terminal input was already ended")
  else
    let id := er_correlation_id (xn_request x) in
    match kind with
    | ProtoTypes.StandardInput =>
        check? validate_terminal_input_payload (xn_mode x) payload in
        match try_send_input (xn_lanes x) (FrameInput id payload), mode_flow_control (xn_mode x) with
        | Ok lanes, _ => Ok (set_lanes x lanes)
        | Err LaneFull, true =>
            Err (str "terminal input credit invariant failed: broker writer queue is full")
        | Err LaneClosed, true => Err (str "broker writer stopped")
        | Err _, false => Ok x
        end
    | StandardInputEof =>
        match try_send_eof (xn_lanes x) (FrameInputEof id) with
        | Ok lanes =>
            Ok {| xn_request_id := xn_request_id x; xn_request := xn_request x; xn_mode := xn_mode x;
                  xn_input_ended := true; xn_lanes := lanes |}
        | Err LaneFull => Err (str "terminal end-of-file reservation is already occupied")
        | Err LaneClosed => Err (str "broker writer stopped")
        end
    | TerminalResize =>
        let? size := map_err (λ error, str "decoding terminal resize: " ++ error) (from_slice payload) in
        check? map_err interactive_error_text (validate_size size) in
        match send_resize (xn_lanes x) (FrameResize id (ts_columns size) (ts_rows size)) with
        | Ok lanes => Ok (set_lanes x lanes)
        | Err _ => Err (str "broker writer stopped")
        end
    | _ => Err (str "unsupported terminal event kind")
    end.

Definition is_terminal_input (kind : EventKind) : bool :=
  match kind with
  | ProtoTypes.StandardInput | StandardInputEof | TerminalResize => true
  | _ => false
  end.

(** [Debug] of a kind *)
Definition kind_name (kind : ProtoTypes.MessageKind) : list Z :=
  str match kind with
      | KHello => "Hello" | KCapabilityNegotiation => "CapabilityNegotiation"
      | KReadiness => "Readiness" | KRequest => "Request" | KResponse => "Response"
      | KEvent => "Event" | KCancellation => "Cancellation" | KGracefulClose => "GracefulClose"
      | KProtocolError => "ProtocolError"
      end.

(** The lanes with a frame that controls the execution; a frame without room leaves the message
    for later. *)
Definition control (x : Execution) (frame : ClientFrame) : SM unit :=
  match send_control (xn_lanes x) frame with
  | Some lanes => modify (λ s, set_phase s (Executing (set_lanes x lanes)))
  | None => mret tt
  end.

(** [run_execution_loop], for a message of the host *)
Definition execution_message (x : Execution) (message : Message) (r : Replies) : SM unit :=
  let unexpected :=
    send r (MProtocolError CodeInvalidState
              (str "unexpected message during execution " ++ kind_name (message_kind message))) in
  match message with
  | MCancellation request_id _ =>
      if request_id =? xn_request_id x then control x (Cancel (er_correlation_id (xn_request x)))
      else unexpected
  | MGracefulClose _ _ => control x GracefulShutdown
  | MEvent stream_id kind payload =>
      if is_terminal_input kind then
        match forward_terminal_event stream_id kind payload x with
        | Ok x => modify (λ s, set_phase s (Executing x))
        | Err detail =>
            send r (MProtocolError CodeInvalidState detail);;
            raise (Err (Protocol (str "invalid terminal event during execution")))
        end
      else unexpected
  | _ => unexpected
  end.

(** The execution has ended: outputs are sealed before the host is answered. *)
Definition execution_ended (x : Execution) (result : ExecutionResult) (r : Replies) : SM unit :=
  let terminal := terminal_result debug_str result in
  (if ps_safe_outputs services
   then
     if negb (tr_cleanup_complete terminal)
     then raise (Err (Protocol (str "Safe Outputs cannot seal before execution cleanup completes")))
     else raise (rp_seal r);; modify (λ s, add_effect s SealedOutputs)
   else mret tt);;
  payload ← encode "encoding terminal result: " terminal;
  send r (MResponse (xn_request_id x) StatusOk payload);;
  modify (λ s, set_phase (set_flags s
    {| fl_terminal_response_sent := true;
       fl_package_report_served := fl_package_report_served (ss_flags s);
       fl_syscall_report_served := fl_syscall_report_served (ss_flags s);
       fl_network_transfer := fl_network_transfer (ss_flags s) |}) Serving).

(** [run_execution_loop], for a frame of the broker *)
Definition broker_frame (x : Execution) (frame : GuestResult (option ServerFrame)) (r : Replies)
  : SM unit :=
  frame ← raise frame;
  match frame with
  | Some (EventFrame event) =>
      match event with
      | Started _ _ _ => mret tt
      | Output _ stream _ data =>
          send r (MEvent (xn_request_id x)
                    (match stream with Stdout => StandardOutput | Stderr => StandardError end) data)
      | TerminalInputCreditEvent _ credits =>
          if negb (mode_flow_control (xn_mode x))
          then raise (Err (Protocol
                 (str "execution broker emitted terminal input credit for a V1 launch")))
          else
            credit ← raise (map_err (λ error, Protocol
              (str "execution broker emitted invalid terminal input credit: " ++
               credit_error_text error)) (new_credit credits));
            payload ← encode "encoding terminal input credit: " credit;
            send r (MEvent (xn_request_id x) TerminalInputCredit payload)
      | Terminal _ result => execution_ended x result r
      end
  | _ => raise (Err (Protocol (str "execution broker disconnected before terminal")))
  end.

(** ** Between executions *)

(** [handle_request]: health, and what is not supported *)
Definition handle_request (request_id : Z) (operation : list Z) (r : Replies) : SM Message :=
  let health status live :=
    payload ← encode "encoding health: "
      {| hres_schema_version := OPERATION_SCHEMA_VERSION; hres_ready := live; hres_broker_live := live;
         hres_release_sequence := rd_release_sequence (ps_readiness services) |};
    mret (MResponse request_id status payload) in
  if bool_decide (operation = HEALTH_OPERATION)
  then
    live ← gate_live r;
    if live : bool then health StatusOk true else health StatusRejected false
  else
    mret (MResponse request_id StatusRejected
            ([123] ++ quoted (str "implemented") ++ str ":false," ++ quoted (str "reason") ++ str ":" ++
             quoted (str "operation-not-supported") ++ [125])).

Definition collection_error_text (error : SafeOutputsCollectionError) : list Z :=
  str match error with
      | CollectionSchemaVersion => "Safe Outputs collection schema version is unsupported"
      | ArtifactTooLarge => "Safe Outputs artifact exceeds the protocol limit"
      | SealSize => "Safe Outputs seal size is invalid"
      | CollectionEncoding => "Safe Outputs collection is not canonical base64"
      end.

Definition collect_safe_outputs (request_id : Z) (payload : list Z) (r : Replies) : SM unit :=
  envelope ← decode "decoding Safe Outputs collection: " payload;
  if negb (scr_schema_version envelope =? SAFE_OUTPUTS_OPERATION_SCHEMA_VERSION) ||
     negb (bool_decide (scr_boundary_plan_digest envelope =
                        gd_boundary_plan_digest (ps_secret_decryptor services)))
  then raise (Err (Protocol (str "Safe Outputs collection binding is invalid")))
  else if negb (ps_safe_outputs services)
  then raise (Err (Protocol (str "Safe Outputs collection was not configured")))
  else
    collected ← raise (rp_collect r);
    modify (λ s, add_effect s CollectedOutputs);;
    collection ← raise (map_err (λ error, Protocol (collection_error_text error))
                          (new_collection collected.1 collected.2));
    payload ← encode "encoding Safe Outputs collection: " collection;
    send r (MResponse request_id StatusOk payload).

Definition is_ok_response (message : Message) : bool :=
  match message with MResponse _ StatusOk _ => true | _ => false end.

(** [launch(…).await?; terminal_response_sent = true]; an execution that begins is answered when
    it ends *)
Definition serve_launch (request_id : Z) (payload : list Z) (mode : LaunchMode) (r : Replies) : SM unit :=
  answered ← launch_agent request_id payload mode r;
  if answered : bool
  then modify (λ s, set_flags s
         {| fl_terminal_response_sent := true;
            fl_package_report_served := fl_package_report_served (ss_flags s);
            fl_syscall_report_served := fl_syscall_report_served (ss_flags s);
            fl_network_transfer := fl_network_transfer (ss_flags s) |})
  else mret tt.

Definition serve_network_report (request_id : Z) (payload : list Z) (r : Replies) : SM unit :=
  flags ← get ss_flags;
  let '(response, transfer) :=
    handle_network_report_request (rp_read_file r) request_id payload (ps_network_reports services)
      (fl_terminal_response_sent flags) (fl_network_transfer flags) in
  modify (λ s, set_flags s
    {| fl_terminal_response_sent := fl_terminal_response_sent flags;
       fl_package_report_served := fl_package_report_served flags;
       fl_syscall_report_served := fl_syscall_report_served flags; fl_network_transfer := transfer |});;
  send r response.

Definition serve_package_report (request_id : Z) (payload : list Z) (r : Replies) : SM unit :=
  flags ← get ss_flags;
  let response :=
    handle_package_report_request (rp_read_file r) request_id payload (ps_package_report services)
      (fl_terminal_response_sent flags) (fl_package_report_served flags) in
  modify (λ s, set_flags s
    {| fl_terminal_response_sent := fl_terminal_response_sent flags;
       fl_package_report_served := is_ok_response response;
       fl_syscall_report_served := fl_syscall_report_served flags;
       fl_network_transfer := fl_network_transfer flags |});;
  send r response.

Definition serve_syscall_report (request_id : Z) (payload : list Z) (r : Replies) : SM unit :=
  flags ← get ss_flags;
  response ← raise (handle_syscall_report_request (rp_trace_report r) request_id payload
                      (ps_syscall_tracing services) (fl_terminal_response_sent flags)
                      (fl_syscall_report_served flags));
  modify (λ s, set_flags s
    {| fl_terminal_response_sent := fl_terminal_response_sent flags;
       fl_package_report_served := fl_package_report_served flags;
       fl_syscall_report_served := is_ok_response response;
       fl_network_transfer := fl_network_transfer flags |});;
  send r response.

(** The loop of [serve_authenticated], for one message *)
Definition serve_message (message : Message) (r : Replies) : SM unit :=
  match message with
  | MRequest request_id operation payload =>
      if bool_decide (operation = AGENT_LAUNCH_OPERATION)
      then serve_launch request_id payload Headless r
      else if bool_decide (operation = INTERACTIVE_LAUNCH_OPERATION)
      then serve_launch request_id payload InteractiveV1 r
      else if bool_decide (operation = INTERACTIVE_LAUNCH_OPERATION_V2)
      then serve_launch request_id payload InteractiveV2 r
      else if bool_decide (operation = NETWORK_REPORT_OPERATION)
      then serve_network_report request_id payload r
      else if bool_decide (operation = PACKAGE_REPORT_OPERATION)
      then serve_package_report request_id payload r
      else if bool_decide (operation = SYSCALL_REPORT_OPERATION)
      then serve_syscall_report request_id payload r
      else if bool_decide (operation = SAFE_OUTPUTS_COLLECT_OPERATION)
      then collect_safe_outputs request_id payload r
      else
        response ← handle_request request_id operation r;
        send r response
  | MGracefulClose _ reason =>
      send r (MGracefulClose CloseShutdown (str "guest closing after " ++ reason));;
      modify (λ s, set_phase s (Ended (Ok tt)))
  | MCancellation _ _ =>
      send r (MProtocolError CodeInvalidState (str "no active operation can be cancelled"))
  | _ =>
      send r (MProtocolError CodeInvalidState
                (str "unexpected application message " ++ show_dec (kind_u8 (message_kind message))))
  end.

(** ** A session *)

Inductive SessionEvent : Type :=
| HostSays (message : Message) (r : Replies)
| HostFails (error : GuestError)
| BrokerSays (frame : GuestResult (option ServerFrame)) (r : Replies)
| WriterTurn (written : bool)
| OtherTransition (next : StartupState)
| OtherFailure
| GateRevoked.

(** An error ends the session. *)
Definition finish (m : SM unit) (s : Session) : Session :=
  match m s with
  | (Ok _, s) => s
  | (Err e, s) => set_phase s (Ended (Err e))
  end.

Definition session_step (s : Session) (event : SessionEvent) : Session :=
  match event, ss_phase s with
  | HostSays message r, Serving => finish (serve_message message r) s
  | HostSays message r, Executing x => finish (execution_message x message r) s
  | HostFails error, (Serving | Executing _) => set_phase s (Ended (Err error))
  | BrokerSays frame r, Executing x => finish (broker_frame x frame r) s
  | WriterTurn written, Executing x => writer_turn written x s
  | OtherTransition next, _ =>
      match machine_transition (ss_machine s) next with
      | Ok machine => set_machine s machine
      | Err _ => s
      end
  | OtherFailure, _ => set_machine s (machine_fail (ss_machine s))
  | GateRevoked, _ => set_gate s (revoke (ss_gate s))
  | _, _ => s
  end.

Definition session_run (s : Session) (events : list SessionEvent) : Session :=
  foldl session_step s events.

Definition new_session (machine : StartupState) (gate : ReadinessGate) : Session :=
  {| ss_machine := machine; ss_gate := gate; ss_guard := default_guard;
     ss_flags := {| fl_terminal_response_sent := false; fl_package_report_served := false;
                    fl_syscall_report_served := false; fl_network_transfer := None |};
     ss_phase := Serving; ss_effects := [] |}.

(** [serve_authenticated] up to its loop: the check before the handshake, the handshake, the check
    after it and the readiness that is sent *)
Definition begin_session (handshake : GuestResult unit) (before r : Replies) : SM unit :=
  machine ← get ss_machine;
  live ← (if bool_decide (machine = Ready) then gate_live before else mret false);
  if negb (live : bool)
  then raise (Err (Protocol (str "authenticated readiness requested before local readiness")))
  else
    raise handshake;;
    live ← services_live r;
    if negb (live : bool)
    then raise (Err (Protocol (str "mandatory service failed during authenticated handshake")))
    else
      payload ← encode "encoding readiness: " (ps_readiness services);
      send r (MEvent 0 EventLifecycle payload).

(** [serve_authenticated] *)
Definition serve_authenticated (handshake : GuestResult unit) (before r : Replies)
    (events : list SessionEvent) (s : Session) : Session :=
  match begin_session handshake before r s with
  | (Err e, s) => set_phase s (Ended (Err e))
  | (Ok _, s) => session_run s events
  end.

End Serve.
