(* ===== verification/GuestSessionSafety.v ===== *)
(** * What a session of the guest guarantees

    The theorems on [GuestSession]: the agent is executed at most once, and only when everything
    it needs holds; input for a flow-controlled terminal arrives unchanged and in order; an
    execution is answered after its outputs are sealed; and the example of a report that is given
    twice. *)

From S2P Require Import Prelude RustStr Digest ProtoTypes ProtoCodec ProtoFrame ProtoHandshake.
From S2P Require Import McpJson GuestService Startup Reports Envelope ExecBroker GuestProtocol.
From S2P Require Import GuestSession.

(** ** Computations that leave something alone *)

(** The commands and the frames among the effects. *)
Definition executions (s : Session) : list ExecutionRequest :=
  omap (λ effect, match effect with ExecutedCommand request => Some request | _ => None end)
    (ss_effects s).

Definition frames_written (s : Session) : list ClientFrame :=
  omap (λ effect, match effect with Written frame => Some frame | _ => None end) (ss_effects s).

Definition is_executing (phase : Phase) : bool :=
  match phase with Executing _ => true | _ => false end.

(** Nothing is executed, no frame is written, the startup state stays, and no execution begins. *)
Definition quietly (s s' : Session) : Prop :=
  executions s' = executions s ∧ frames_written s' = frames_written s ∧
  ss_machine s' = ss_machine s ∧
  (is_executing (ss_phase s') = true → ss_phase s' = ss_phase s).

#[global] Instance quietly_preorder : PreOrder quietly.
Proof.
  split; [done|]. intros s1 s2 s3 (A1 & A2 & A3 & A4) (B1 & B2 & B3 & B4).
  split_and!; [congruence..|]. intros H. specialize (B4 H). rewrite B4 in H |- *. by apply A4.
Qed.

(** A computation that stays within a relation. *)
Definition within (R : relation Session) {A : Type} (m : SM A) : Prop := ∀ s, R s (m s).2.

Notation quiet := (within quietly).

Create HintDb session.

Section Within.
Context (R : relation Session) `{!PreOrder R}.

Lemma within_ret {A : Type} (x : A) : within R (mret x : SM A).
Proof. intros s. reflexivity. Qed.

Lemma within_raise {A : Type} (r : GuestResult A) : within R (raise r).
Proof. intros s. reflexivity. Qed.

Lemma within_get {A : Type} (f : Session → A) : within R (get f).
Proof. intros s. reflexivity. Qed.

Lemma within_bind {A B : Type} (m : SM A) (k : A → SM B) :
  within R m → (∀ x, within R (k x)) → within R (m ≫= k).
Proof.
  intros Hm Hk s. unfold mbind, SM_bind. specialize (Hm s). destruct (m s) as [[x|e] s1]; [|done].
  cbn [snd] in Hm. etrans; [exact Hm|apply Hk].
Qed.

Lemma within_modify (f : Session → Session) : (∀ s, R s (f s)) → within R (modify f).
Proof. intros Hf s. apply Hf. Qed.

End Within.

#[export] Hint Resolve within_ret within_raise within_get within_bind : session.

Lemma add_effect_quietly (s : Session) (effect : Effect) :
  match effect with ExecutedCommand _ | Written _ => false | _ => true end = true →
  quietly s (add_effect s effect).
Proof.
  intros He. unfold quietly, executions, frames_written. cbn. rewrite !omap_app.
  destruct effect; try done; cbn; by rewrite !app_nil_r.
Qed.

Lemma quiet_send (r : Replies) (message : Message) : quiet (send r message).
Proof.
  apply within_bind; [apply _| |intros; apply within_raise, _]. apply within_modify. intros s.
  by apply add_effect_quietly.
Qed.

Lemma set_flags_quietly (s : Session) (flags : Flags) : quietly s (set_flags s flags).
Proof. done. Qed.

#[export] Hint Resolve quiet_send within_modify add_effect_quietly set_flags_quietly : session.

(** Follow a computation to its parts. *)
Ltac quiet_auto :=
  repeat first
    [ match goal with |- ∀ _, _ => intros ? end
    | match goal with |- within _ (_ ≫= _) => apply within_bind; [apply _|..] end
    | match goal with |- within _ (if ?b then _ else _) => destruct b end
    | match goal with |- within _ (match ?x with _ => _ end) => destruct x end
    | solve [eauto with session typeclass_instances]
    | apply within_modify; intros ?; solve [eauto with session | by apply add_effect_quietly] ].

Section Quiet.
Context {unicode : NfcApi} {cbor : CborApi} {kdf : KdfApi} {aead : AeadApi} {sha : Sha256Api}.
Context {b64 : Base64Api} {wire : WireFormats}.
Variable debug_str : list Z → list Z.
Variable cbor_text : list Z.
Variable services : ProtocolServices.

Lemma quiet_gate_live (r : Replies) : quiet (gate_live r).
Proof. intros s. unfold gate_live. by destruct (verified_live _ _). Qed.

Hint Resolve quiet_gate_live : session.

Lemma quiet_encode {A : Type} `{Serde A} (context : string) (x : A) : quiet (encode context x).
Proof. apply within_raise, _. Qed.

Lemma quiet_decode {A : Type} `{Serde A} (context : string) (payload : list Z) :
  quiet (decode context payload : SM A).
Proof. apply within_raise, _. Qed.

Hint Resolve quiet_encode quiet_decode : session.

Lemma quiet_services_live (r : Replies) : quiet (services_live services r).
Proof. unfold services_live. quiet_auto. Qed.

Lemma quiet_send_rejection (r : Replies) (request_id : Z) (reason : list Z) :
  quiet (send_rejection r request_id reason).
Proof. unfold send_rejection. quiet_auto. Qed.

Lemma quiet_decode_launch (mode : LaunchMode) (payload : list Z) : quiet (decode_launch mode payload).
Proof. unfold decode_launch. destruct mode; quiet_auto. Qed.

Lemma quiet_build_request launch terminal broker (r : Replies) :
  quiet (build_request debug_str cbor_text services launch terminal broker r).
Proof. intros s. unfold build_request. by destruct (build_execution_request _ _ _ _ _ _ _ _). Qed.

Lemma quiet_register (r : Replies) (environment : list EnvironmentEntry) (secrets : list SecretEnvelope) :
  quiet (register_credentials r environment secrets).
Proof.
  induction secrets as [|secret secrets IH]; cbn [register_credentials]; quiet_auto.
Qed.

Lemma quiet_handle_request (request_id : Z) (operation : list Z) (r : Replies) :
  quiet (handle_request services request_id operation r).
Proof. unfold handle_request. quiet_auto. Qed.

Lemma quiet_collect (request_id : Z) (payload : list Z) (r : Replies) :
  quiet (collect_safe_outputs services request_id payload r).
Proof. unfold collect_safe_outputs. quiet_auto. Qed.

Lemma quiet_network_report (request_id : Z) (payload : list Z) (r : Replies) :
  quiet (serve_network_report services request_id payload r).
Proof. unfold serve_network_report. quiet_auto. Qed.

Lemma quiet_package_report (request_id : Z) (payload : list Z) (r : Replies) :
  quiet (serve_package_report services request_id payload r).
Proof. unfold serve_package_report. quiet_auto. Qed.

Lemma quiet_syscall_report (request_id : Z) (payload : list Z) (r : Replies) :
  quiet (serve_syscall_report services request_id payload r).
Proof. unfold serve_syscall_report. quiet_auto. Qed.

End Quiet.

#[export] Hint Resolve quiet_gate_live quiet_encode quiet_decode quiet_services_live
  quiet_send_rejection quiet_decode_launch quiet_build_request quiet_register quiet_handle_request
  quiet_collect quiet_network_report quiet_package_report quiet_syscall_report : session.

(** ** The launch of the agent *)

(** States from which no launch is permitted any more. *)
Definition past_ready (state : StartupState) : bool :=
  match state with
  | AgentLaunchPermitted | ShuttingDown | Terminated | StartupFailed => true
  | _ => false
  end.

Lemma past_ready_transition (state next : StartupState) :
  past_ready state = true →
  match machine_transition state next with Ok state' => past_ready state' = true | Err _ => True end.
Proof. by destruct state, next. Qed.

Lemma past_ready_fail (state : StartupState) :
  past_ready state = true → past_ready (machine_fail state) = true.
Proof. by destruct state. Qed.

Lemma past_ready_permit (state : StartupState) :
  past_ready state = true → ∃ e, permit_agent_launch state = Err e.
Proof. destruct state; try done; intros _; by eexists. Qed.

Lemma permit_from_ready (state state' : StartupState) :
  permit_agent_launch state = Ok state' → state = Ready ∧ past_ready state' = true.
Proof. unfold permit_agent_launch, machine_transition. destruct state; try done. by intros [= <-]. Qed.

Section Launch.
Context {unicode : NfcApi} {cbor : CborApi} {kdf : KdfApi} {aead : AeadApi} {sha : Sha256Api}.
Context {b64 : Base64Api} {wire : WireFormats}.
Variable debug_str : list Z → list Z.
Variable cbor_text : list Z.
Variable services : ProtocolServices.

(** What holds when a command is handed to the broker: the guest is ready and has not launched
    before, the mandatory services and the safe outputs are live, a broker is configured, and the
    request of the host has the schema and the boundary plan of the guest and says what to run. *)
Definition launch_earned (s : Session) (mode : LaunchMode) (payload : list Z) (r : Replies)
    (request : ExecutionRequest) : Prop :=
  ss_phase s = Serving ∧ ss_machine s = Ready ∧
  (verified_live (rp_live r) (ss_gate s)).1 = true ∧
  (ps_safe_outputs services = true → rp_safe_outputs_live r = true) ∧
  ∃ broker launch terminal guard,
    ps_broker services = Some broker ∧
    (decode_launch mode payload s).1 = Ok (inl (launch, terminal)) ∧
    lr_schema_version launch = OPERATION_SCHEMA_VERSION ∧
    lr_boundary_plan_digest launch = gd_boundary_plan_digest (ps_secret_decryptor services) ∧
    build_execution_request debug_str cbor_text launch terminal broker (ps_secret_decryptor services)
      (rp_unix_time_ms r) (ss_guard s) = (Ok request, guard).

(** The effect of a launch: nothing, a permission that is used up, or an execution. *)
Definition launch_result (s : Session) (request_id : Z) (mode : LaunchMode) (payload : list Z)
    (r : Replies) (s' : Session) : Prop :=
  quietly s s' ∨
  (frames_written s' = frames_written s ∧ past_ready (ss_machine s') = true ∧
   (executions s' = executions s ∧ (is_executing (ss_phase s') = true → ss_phase s' = ss_phase s) ∨
    ∃ request, executions s' = executions s ++ [request] ∧ launch_earned s mode payload r request ∧
      (is_executing (ss_phase s') = true →
       ss_phase s' = Executing (new_execution request_id request mode)))).

Lemma quiet_then {A B : Type} (m : SM A) (x : B) :
  quiet m → quiet (m;; mret x).
Proof. intros H. quiet_auto. Qed.

Lemma decode_launch_pure (mode : LaunchMode) (payload : list Z) (s s' : Session) :
  (decode_launch mode payload s).1 = (decode_launch mode payload s').1 ∧
  (decode_launch mode payload s).2 = s.
Proof.
  unfold decode_launch, decode, mbind, SM_bind, raise, mret, SM_ret.
  destruct mode; destruct (map_err _ (from_slice payload)); done.
Qed.

Lemma start_execution_result (s : Session) (request_id : Z) (mode : LaunchMode)
    (launch : LaunchRequest) (terminal : option LaunchTerminal) (broker : BrokerClientConfiguration)
    (r : Replies) :
  let s' := (start_execution debug_str cbor_text services request_id mode launch terminal broker r s).2 in
  frames_written s' = frames_written s ∧ ss_machine s' = ss_machine s ∧
  (executions s' = executions s ∧ (is_executing (ss_phase s') = true → ss_phase s' = ss_phase s) ∨
   ∃ request guard,
     build_execution_request debug_str cbor_text launch terminal broker (ps_secret_decryptor services)
       (rp_unix_time_ms r) (ss_guard s) = (Ok request, guard) ∧
     executions s' = executions s ++ [request] ∧
     (ss_phase s' = Executing (new_execution request_id request mode) ∨ ss_phase s' = ss_phase s)).
Proof.
  cbv zeta. unfold start_execution, build_request, mbind, SM_bind. cbn -[frames_written executions].
  destruct (build_execution_request _ _ _ _ _ _ _ _) as [[request|e] guard] eqn:Eb; [|split_and!; auto].
  set (s1 := set_guard s guard).
  set (m := if ps_safe_outputs services then _ else _).
  assert (quiet m) as Hm. { unfold m. destruct (ps_safe_outputs services); quiet_auto. }
  assert (ss_phase (m s1).2 = ss_phase s1) as Hp.
  { unfold m. clearbody s1. destruct (ps_safe_outputs services); [|done]. clear.
    generalize (er_environment request), (lr_secrets launch) as secrets. intros environment secrets.
    revert s1. induction secrets as [|secret secrets IH]; intros s1; [done|].
    cbn [register_credentials]. unfold mbind, SM_bind, raise at 1.
    destruct (ok_or _ _) as [entry|]; [|done]. cbn [modify].
    unfold raise at 1. destruct (rp_register r _); [|done]. rewrite IH. done. }
  destruct (Hm s1) as (H1 & H2 & H3 & H4). destruct (m s1) as [[[]|e] s2]; cbn [snd] in *;
    [|split_and!; try done; left; by split].
  destruct (rp_connect r); [|split_and!; try done; left; by split].
  set (s3 := add_effect s2 (ExecutedCommand request)).
  assert (executions s3 = executions s ++ [request] ∧ frames_written s3 = frames_written s) as [He Hf].
  { unfold executions, frames_written, s3. cbn. rewrite !omap_app. cbn. rewrite app_nil_r.
    fold (executions s2) (frames_written s2). by rewrite H1, H2. }
  destruct (rp_execute_frame r); cbn -[frames_written executions];
    (split; [exact Hf|split; [exact H3|right; exists request, guard; split; [done|]]]).
  - split; [exact He|by left].
  - split; [exact He|by right].
Qed.

Lemma launch_agent_result (s : Session) (request_id : Z) (mode : LaunchMode) (payload : list Z)
    (r : Replies) :
  ss_phase s = Serving →
  launch_result s request_id mode payload r
    (launch_agent debug_str cbor_text services request_id payload mode r s).2.
Proof.
  intros Hserving. unfold launch_agent, services_live, gate_live, mbind, SM_bind, mret, SM_ret.
  destruct (verified_live (rp_live r) (ss_gate s)) as [live gate] eqn:Elive.
  cbv beta iota. set (s1 := set_gate s gate). assert (quietly s s1) as H1 by done.
  assert (∀ reason, launch_result s request_id mode payload r
    ((send_rejection r request_id reason;; mret true) s1).2) as Hreject.
  { intros reason. left. etrans; [exact H1|]. apply quiet_then. eauto with session. }
  destruct (live && (negb (ps_safe_outputs services) || rp_safe_outputs_live r)) eqn:El;
    cbn [negb]; [|apply Hreject].
  apply andb_true_iff in El as [-> Hsafe].
  destruct (ps_broker services) as [broker|] eqn:Eb; [|apply Hreject].
  destruct (decode_launch_pure mode payload s1 s) as [Hd1 Hd2].
  destruct (decode_launch mode payload s1) as [decoded s2] eqn:Ed. cbn [fst snd] in Hd1, Hd2. subst s2.
  destruct decoded as [[[launch terminal]|reason]|e]; [|apply Hreject|by left].
  destruct (Z.eqb_spec (lr_schema_version launch) OPERATION_SCHEMA_VERSION) as [Hschema|];
    cbn [negb]; [|apply Hreject].
  destruct (bool_decide_reflect (lr_boundary_plan_digest launch =
    gd_boundary_plan_digest (ps_secret_decryptor services))) as [Hdigest|]; cbn [negb]; [|apply Hreject].
  unfold permit_launch. destruct (permit_agent_launch (ss_machine s1)) as [machine|] eqn:Em;
    [|apply Hreject].
  apply permit_from_ready in Em as [Hready Hpast]. set (s3 := set_machine s1 machine).
  destruct (rp_write_state r) as [[]|]; [|right; split_and!; try done; by left]. cbn [negb].
  destruct (start_execution_result s3 request_id mode launch terminal broker r) as (F & M & X).
  right. split; [exact F|]. split; [by rewrite M|].
  destruct X as [[X P]|(request & guard & Hbuild & X & P)].
  - left. by split.
  - right. exists request. split; [exact X|]. split.
    + split_and!; try done; [by rewrite Elive|by intros Hs; rewrite Hs in Hsafe|].
      exists broker, launch, terminal, guard. by split_and!.
    + intros Hx. destruct P as [P|P]; [exact P|]. rewrite P in Hx. cbn in Hx. by rewrite Hserving in Hx.
Qed.

(** Nothing is executed and the startup state stays. *)
Definition calmly (s s' : Session) : Prop :=
  executions s' = executions s ∧ ss_machine s' = ss_machine s.

#[local] Instance calmly_preorder : PreOrder calmly.
Proof. split; [done|]. intros s1 s2 s3 [] []. split; congruence. Qed.

Lemma quiet_calm {A : Type} (m : SM A) : quiet m → within calmly m.
Proof. intros H s. by destruct (H s) as (? & _ & ? & _). Qed.

Lemma calm_set_phase (f : Session → Phase) : within calmly (modify (λ s, set_phase s (f s))).
Proof. by intros s. Qed.

Lemma execution_message_calm (x : Execution) (message : Message) (r : Replies) :
  within calmly (execution_message x message r).
Proof.
  assert (∀ text, within calmly (send r (MProtocolError CodeInvalidState text))) as Hsend.
  { intros. apply quiet_calm. eauto with session. }
  assert (∀ frame, within calmly (control x frame)) as Hcontrol.
  { intros frame. unfold control. destruct (send_control _ _); [apply (calm_set_phase (λ _, _))|].
    apply within_ret, _. }
  unfold execution_message. destruct message; try apply Hsend; [| |apply Hcontrol].
  - destruct (is_terminal_input kind); [|apply Hsend].
    destruct (forward_terminal_event _ _ _ _); [apply (calm_set_phase (λ _, _))|].
    apply within_bind; [apply _|apply Hsend|]. intros. apply within_raise, _.
  - destruct (_ =? _); [apply Hcontrol|apply Hsend].
Qed.

Lemma broker_frame_calm (x : Execution) (frame : GuestResult (option ServerFrame)) (r : Replies) :
  within calmly (broker_frame debug_str services x frame r).
Proof.
  unfold broker_frame. apply within_bind; [apply _|apply within_raise, _|].
  intros [[[]|]|]; try (apply quiet_calm; quiet_auto; fail).
  unfold execution_ended. apply within_bind; [apply _|apply quiet_calm; quiet_auto|intros _].
  apply within_bind; [apply _|apply quiet_calm; quiet_auto|intros payload].
  apply within_bind; [apply _|apply quiet_calm; quiet_auto|intros _]. by intros s.
Qed.

Lemma writer_turn_calm (written : bool) (x : Execution) (s : Session) :
  calmly s (writer_turn written x s).
Proof.
  unfold writer_turn. destruct (writer_next (xn_lanes x)) as [[[frame|] lanes]|]; [|done..].
  destruct written; [|done]. split; [|done]. unfold executions. cbn. rewrite omap_app. cbn.
  by rewrite app_nil_r.
Qed.

(** The operations that launch. *)
Definition mode_of (operation : list Z) : option LaunchMode :=
  if bool_decide (operation = AGENT_LAUNCH_OPERATION) then Some Headless
  else if bool_decide (operation = INTERACTIVE_LAUNCH_OPERATION) then Some InteractiveV1
  else if bool_decide (operation = INTERACTIVE_LAUNCH_OPERATION_V2) then Some InteractiveV2
  else None.

Lemma serve_launch_result (s : Session) (request_id : Z) (mode : LaunchMode) (payload : list Z)
    (r : Replies) :
  ss_phase s = Serving →
  launch_result s request_id mode payload r
    (serve_launch debug_str cbor_text services request_id payload mode r s).2.
Proof.
  intros Hs. pose proof (launch_agent_result s request_id mode payload r Hs) as H.
  unfold serve_launch, mbind, SM_bind. destruct (launch_agent _ _ _ _ _ _ _ s) as [[[]|e] s1]; exact H.
Qed.

(** A message that is not a launch leaves commands alone. *)
Lemma serve_message_result (s : Session) (message : Message) (r : Replies) :
  ss_phase s = Serving →
  quietly s (serve_message debug_str cbor_text services message r s).2 ∨
  ∃ request_id operation payload mode, message = MRequest request_id operation payload ∧
    mode_of operation = Some mode ∧
    launch_result s request_id mode payload r
      (serve_message debug_str cbor_text services message r s).2.
Proof.
  intros Hs. destruct message as [| | |request_id operation payload| | | | |]; cbn [serve_message].
  4: { destruct (mode_of operation) as [mode|] eqn:Em.
       - right. exists request_id, operation, payload, mode. split; [done|]. split; [done|].
         unfold mode_of in Em. repeat (case_bool_decide; [injection Em as <-; by apply serve_launch_result|]).
         done.
       - left. unfold mode_of in Em. repeat (case_bool_decide; [done|]).
         generalize s. change (quiet
           (if bool_decide (operation = NETWORK_REPORT_OPERATION)
            then serve_network_report services request_id payload r
            else if bool_decide (operation = PACKAGE_REPORT_OPERATION)
            then serve_package_report services request_id payload r
            else if bool_decide (operation = SYSCALL_REPORT_OPERATION)
            then serve_syscall_report services request_id payload r
            else if bool_decide (operation = SAFE_OUTPUTS_COLLECT_OPERATION)
            then collect_safe_outputs services request_id payload r
            else response ← handle_request services request_id operation r; send r response)).
         quiet_auto. }
  all: left; try (apply (quiet_send r)).
  unfold mbind, SM_bind. destruct (send r _ s) as [[[]|e] s1] eqn:E;
    pose proof (quiet_send r (MGracefulClose CloseShutdown (str "guest closing after " ++ reason)) s) as H;
    rewrite E in H; cbn [snd] in H; [|exact H].
  destruct H as (H1 & H2 & H3 & H4). by split_and!.
Qed.

(** The event at which a command is handed to the broker. *)
Definition earned_at (s : Session) (event : SessionEvent) (request : ExecutionRequest) : Prop :=
  ∃ request_id operation payload mode r,
    event = HostSays (MRequest request_id operation payload) r ∧ mode_of operation = Some mode ∧
    launch_earned s mode payload r request.

Notation step := (session_step debug_str cbor_text services).
Notation run := (session_run debug_str cbor_text services).

Lemma finish_fields {m : SM unit} (s : Session) :
  executions (finish m s) = executions (m s).2 ∧ ss_machine (finish m s) = ss_machine (m s).2 ∧
  frames_written (finish m s) = frames_written (m s).2 ∧
  (is_executing (ss_phase (finish m s)) = true → ss_phase (finish m s) = ss_phase (m s).2).
Proof. unfold finish. by destruct (m s) as [[[]|e] s1]. Qed.

Lemma session_step_result (s : Session) (event : SessionEvent) :
  (executions (step s event) = executions s ∧
   (past_ready (ss_machine s) = true → past_ready (ss_machine (step s event)) = true)) ∨
  (past_ready (ss_machine s) = false ∧ past_ready (ss_machine (step s event)) = true ∧
   ∃ request, executions (step s event) = executions s ++ [request] ∧ earned_at s event request).
Proof.
  assert (∀ s', calmly s s' → executions s' = executions s ∧
    (past_ready (ss_machine s) = true → past_ready (ss_machine s') = true)) as Hcalm.
  { intros s' [H1 H2]. by rewrite H1, H2. }
  assert (∀ m, calmly s (m s).2 → calmly s (finish m s)) as Hfinish.
  { intros m [H1 H2]. destruct (finish_fields (m := m) s) as (F1 & F2 & _). split; congruence. }
  unfold session_step.
  destruct event as [message r|error|frame r|written|next| |], (ss_phase s) as [|x|result] eqn:Ephase;
    try (left; apply Hcalm; done).
  2: { left. apply Hcalm, Hfinish, execution_message_calm. }
  2: { left. apply Hcalm, Hfinish, broker_frame_calm. }
  2: { left. apply Hcalm, writer_turn_calm. }
  2-4: left; pose proof (past_ready_transition (ss_machine s) next) as Hnext;
       destruct (machine_transition (ss_machine s) next); done.
  2-4: left; split; [done|apply past_ready_fail].
  destruct (serve_message_result s message r Ephase) as [Hq|(id & operation & payload & mode & -> & Hm & H)].
  { left. apply Hcalm, Hfinish. by destruct Hq as (? & _ & ? & _). }
  destruct H as [Hq|(_ & Hpast & H)].
  { left. apply Hcalm, Hfinish. by destruct Hq as (? & _ & ? & _). }
  destruct (finish_fields (m := serve_message debug_str cbor_text services (MRequest id operation payload) r) s)
    as (F1 & F2 & _).
  destruct H as [[H _]|(request & H & He & _)]; [left; by rewrite F1, F2|].
  right. rewrite F1, F2. destruct He as (He1 & He2 & He'). split; [by rewrite He2|]. split; [done|].
  exists request. split; [done|]. by exists id, operation, payload, mode, r.
Qed.

Lemma session_run_result (s : Session) (events : list SessionEvent) :
  executions s = [] →
  (executions (run s events) = [] ∨
   past_ready (ss_machine (run s events)) = true ∧
   ∃ before event after request, events = before ++ event :: after ∧
     executions (run s events) = [request] ∧ earned_at (run s before) event request).
Proof.
  intros Hs. induction events as [|event events IH] using rev_ind; [by left|].
  unfold session_run. rewrite foldl_app. fold (run s events). cbn [foldl].
  destruct (session_step_result (run s events) event) as [[H1 H2]|(H1 & H2 & request & H3 & H4)].
  - destruct IH as [IH|(Hp & before & e & after & request & -> & Hr & He)]; [left; by rewrite H1|].
    right. split; [by apply H2|]. exists before, e, (after ++ [event]), request.
    by rewrite H1, <-app_assoc.
  - destruct IH as [IH|(Hp & _)]; [|by rewrite Hp in H1]. right. split; [done|].
    exists events, event, [], request. by rewrite H3, IH.
Qed.

(** C2: Whatever the host sends, whatever the broker answers and whatever happens in the guest, a
    session hands at most one command to the broker.  It is handed over while a launch request of
    the host is served, when the guest is ready, its mandatory services and the safe outputs are
    live and a broker is configured, for the boundary plan of the guest; and it runs the program of
    the request, at paths below their roots, as the user of the workload, with no secret but those
    that were sealed for this session, guest and plan. *)
Theorem agent_launch_is_earned (machine : StartupState) (gate : ReadinessGate)
    (events : list SessionEvent) :
  let s := new_session machine gate in
  executions (run s events) = [] ∨
  ∃ before request_id operation payload mode r after request,
    events = before ++ HostSays (MRequest request_id operation payload) r :: after ∧
    mode_of operation = Some mode ∧ executions (run s events) = [request] ∧
    launch_earned (run s before) mode payload r request ∧
    ∃ broker launch terminal now,
      ps_broker services = Some broker ∧
      (decode_launch mode payload (run s before)).1 = Ok (inl (launch, terminal)) ∧
      request_shape debug_str (ps_secret_decryptor services) launch terminal broker now request.
Proof.
  cbv zeta. destruct (session_run_result (new_session machine gate) events eq_refl)
    as [H|(_ & before & event & after & request & -> & Hr & He)]; [by left|]. right.
  destruct He as (id & operation & payload & mode & r & -> & Hm & He).
  exists before, id, operation, payload, mode, r, after, request. split_and!; try done.
  destruct He as (_ & _ & _ & _ & broker & launch & terminal & guard & Hb & Hd & _ & _ & Hbuild).
  apply build_execution_request_shape in Hbuild as (now & _ & Hshape).
  by exists broker, launch, terminal, now.
Qed.

End Launch.

(** ** Terminal input *)

(** What the host sends to the terminal of a launch. *)
Definition host_input (request_id : Z) (events : list SessionEvent) : list TerminalCommand :=
  events ≫= λ event,
    match event with
    | HostSays (MEvent stream_id kind payload) _ =>
        if stream_id =? request_id
        then match kind with
             | ProtoTypes.StandardInput => [Input payload]
             | StandardInputEof => [InputEof]
             | _ => []
             end
        else []
    | _ => []
    end.

(** The frames that the broker reads. *)
Definition read_frames (events : list TerminalEvent) : list ClientFrame :=
  events ≫= λ event, match event with OnFrame (Some frame) => [frame] | _ => [] end.

(** Input and its end among frames. *)
Definition commands_of (id : list Z) (frames : list ClientFrame) : list TerminalCommand :=
  stream_of (client_commands id ((λ frame, OnFrame (Some frame)) <$> frames)).

#[local] Arguments commands_of : simpl never.

Lemma commands_of_app (id : list Z) (xs ys : list ClientFrame) :
  commands_of id (xs ++ ys) = commands_of id xs ++ commands_of id ys.
Proof. unfold commands_of, client_commands. by rewrite fmap_app, bind_app, stream_of_app. Qed.

Lemma host_input_app (request_id : Z) (xs ys : list SessionEvent) :
  host_input request_id (xs ++ ys) = host_input request_id xs ++ host_input request_id ys.
Proof. apply bind_app. Qed.

Lemma client_commands_read (id : list Z) (events : list TerminalEvent) :
  stream_of (client_commands id events) = commands_of id (read_frames events).
Proof.
  unfold commands_of. f_equal. induction events as [|event events IH]; [done|].
  unfold client_commands, read_frames in *. cbn [mbind list_bind]. rewrite fmap_app, bind_app, <-IH.
  f_equal. destruct event as [[frame|]| | |]; try done. cbn. by rewrite app_nil_r.
Qed.

(** What is in the lanes, in the order in which it is written. *)
Definition lane_frames (lanes : Lanes) : list ClientFrame :=
  ln_input lanes ++ option_list (ln_eof_pending lanes) ++ option_list (ln_eof lanes).

Record lanes_ok (id : list Z) (ended : bool) (lanes : Lanes) : Prop := {
  lo_control : Forall (λ frame, commands_of id [frame] = []) (ln_control lanes);
  lo_resize : Forall (λ frame, commands_of id [frame] = []) (option_list (ln_resize lanes));
  lo_ended : ended = false → ln_eof lanes = None ∧ ln_eof_pending lanes = None;
  lo_one : ln_eof lanes = None ∨ ln_eof_pending lanes = None;
}.

(** A session in which a flow-controlled execution began and no other can. *)
Definition input_ok (request_id : Z) (request : ExecutionRequest) (events : list SessionEvent)
    (s : Session) : Prop :=
  let id := er_correlation_id request in
  past_ready (ss_machine s) = true ∧
  commands_of id (frames_written s) `prefix_of` host_input request_id events ∧
  match ss_phase s with
  | Executing x =>
      xn_request_id x = request_id ∧ xn_request x = request ∧ xn_mode x = InteractiveV2 ∧
      lanes_ok id (xn_input_ended x) (xn_lanes x) ∧
      (ln_open (xn_lanes x) = true →
       commands_of id (frames_written s) ++ commands_of id (lane_frames (xn_lanes x)) =
       host_input request_id events)
  | _ => True
  end.

Lemma frame_commands (id data : list Z) (columns rows : Z) :
  commands_of id [FrameInput id data] = [Input data] ∧
  commands_of id [FrameInputEof id] = [InputEof] ∧
  commands_of id [FrameResize id columns rows] = [] ∧
  commands_of id [Cancel id] = [] ∧ commands_of id [GracefulShutdown] = [].
Proof.
  unfold commands_of, client_commands. cbn [fmap list_fmap mbind list_bind frame_command].
  rewrite !bool_decide_true by done. done.
Qed.

Lemma input_ok_quietly (request_id : Z) (request : ExecutionRequest) (events : list SessionEvent)
    (event : SessionEvent) (s s' : Session) :
  input_ok request_id request events s → quietly s s' →
  (is_executing (ss_phase s') = true → host_input request_id [event] = []) →
  input_ok request_id request (events ++ [event]) s'.
Proof.
  intros (H1 & H2 & H3) (Q1 & Q2 & Q3 & Q4) He. unfold input_ok. rewrite Q2, Q3, host_input_app.
  split_and!; [done|by apply prefix_app_r|].
  destruct (ss_phase s') as [|x|] eqn:Ep; [done| |done]. rewrite He by done. rewrite app_nil_r.
  rewrite <-Q4 in H3 by done. done.
Qed.

(** The four parts of [lanes_ok], from those before. *)
Ltac lanes_auto :=
  split; cbn; try done; try (by left); try (by right); try (by constructor);
  try (match goal with H : _ = false → _ |- _ = false → _ => intros He; by destruct (H He) end).

(** The writer task writes what is next in the lanes. *)
Lemma writer_next_ok (id : list Z) (ended : bool) (lanes lanes' : Lanes) (frame : option ClientFrame) :
  lanes_ok id ended lanes → writer_next lanes = Some (frame, lanes') →
  lanes_ok id ended lanes' ∧ ln_open lanes = true ∧ ln_open lanes' = true ∧
  commands_of id (lane_frames lanes) =
    commands_of id (option_list frame) ++ commands_of id (lane_frames lanes').
Proof.
  intros [H1 H2 H3 H4]. unfold writer_next. destruct (ln_open lanes) eqn:Eo; [|done]. cbn [negb].
  unfold lane_frames. destruct lanes as [control input eof resize pending open]. cbn in *. subst open.
  destruct control as [|c control].
  - destruct pending as [p|].
    + destruct H4 as [->|]; [|done]. destruct input as [|i input]; intros [= <- <-]; cbn.
      * split_and!; try done; try (by rewrite app_nil_r); lanes_auto.
      * split_and!; try done; try (by rewrite <-commands_of_app); lanes_auto.
    + destruct eof as [e|].
      * intros [= <- <-]. cbn. split_and!; try done; lanes_auto.
      * destruct resize as [z|].
        { intros [= <- <-]. cbn. apply Forall_cons in H2 as [H2 _]. rewrite H2.
          split_and!; try done; lanes_auto. }
        destruct input as [|i input]; [done|]. intros [= <- <-]. cbn.
        split_and!; try done; try (by rewrite <-commands_of_app); lanes_auto.
  - apply Forall_cons in H1 as [H1 H1']. intros [= <- <-]. cbn. rewrite H1.
    split_and!; try done; lanes_auto.
Qed.

(** Terminal input that is accepted is last in the lanes. *)
Lemma forward_terminal_event_ok {wire : WireFormats} (stream_id : Z) (kind : EventKind)
    (payload : list Z) (x x' : Execution) (r : Replies) :
  let id := er_correlation_id (xn_request x) in
  lanes_ok id (xn_input_ended x) (xn_lanes x) → xn_mode x = InteractiveV2 →
  forward_terminal_event stream_id kind payload x = Ok x' →
  xn_request_id x' = xn_request_id x ∧ xn_request x' = xn_request x ∧ xn_mode x' = xn_mode x ∧
  lanes_ok id (xn_input_ended x') (xn_lanes x') ∧ ln_open (xn_lanes x) = true ∧
  commands_of id (lane_frames (xn_lanes x')) =
    commands_of id (lane_frames (xn_lanes x)) ++
    host_input (xn_request_id x) [HostSays (MEvent stream_id kind payload) r].
Proof.
  destruct x as [rid request mode ended [control input eof resize pending open]]. cbn [xn_request
    xn_input_ended xn_lanes xn_mode xn_request_id]. intros [H1 H2 H3 H4] ->. cbn in H1, H2, H3, H4.
  set (id := er_correlation_id request) in *.
  destruct (frame_commands id payload 0 0) as (C1 & C2 & _).
  unfold forward_terminal_event. cbn [is_interactive xn_mode negb xn_request_id xn_input_ended].
  unfold host_input. cbn [mbind list_bind].
  destruct (Z.eqb_spec stream_id rid) as [->|]; [|done]. destruct ended; [done|].
  destruct (H3 eq_refl) as [-> ->]. cbn [negb]. destruct kind; try done.
  - destruct (validate_terminal_input_payload _ _); [|done].
    unfold try_send_input. cbn -[Nat.ltb BROKER_INPUT_DEPTH]. destruct open; [|done].
    cbn -[Nat.ltb BROKER_INPUT_DEPTH]. destruct (_ <? _)%nat; [|done]. intros [= <-]. cbn. unfold lane_frames. cbn.
    rewrite !app_nil_r, commands_of_app. fold id. rewrite C1. split_and!; try done; lanes_auto.
  - unfold try_send_eof. cbn. destruct open; [|done]. intros [= <-]. cbn. unfold lane_frames. cbn.
    rewrite !app_nil_r, commands_of_app. fold id. rewrite C2. split_and!; try done; lanes_auto.
  - destruct (from_slice payload) as [size|]; [|done]. cbn [map_err].
    destruct (validate_size size); [|done]. cbn [map_err].
    unfold send_resize. cbn. destruct open; [|done]. intros [= <-]. cbn.
    unfold lane_frames. cbn. rewrite !app_nil_r. split_and!; try done.
    lanes_auto. constructor; [|constructor].
    by destruct (frame_commands id payload (ts_columns size) (ts_rows size)) as (_ & _ & C3 & _).
Qed.

Lemma send_control_ok (id : list Z) (ended : bool) (lanes lanes' : Lanes) (frame : ClientFrame) :
  lanes_ok id ended lanes → commands_of id [frame] = [] → send_control lanes frame = Some lanes' →
  lanes_ok id ended lanes' ∧ ln_open lanes' = ln_open lanes ∧ lane_frames lanes' = lane_frames lanes.
Proof.
  intros [H1 H2 H3 H4] Hf. unfold send_control. destruct (ln_open lanes) eqn:Eo; cbn [negb].
  - destruct (_ <? _)%nat; [|done]. intros [= <-]. split_and!; try done; lanes_auto.
    apply Forall_app. split; [done|by constructor].
  - intros [= <-]. done.
Qed.

Section TerminalInput.
Context {unicode : NfcApi} {cbor : CborApi} {kdf : KdfApi} {aead : AeadApi} {sha : Sha256Api}.
Context {b64 : Base64Api} {wire : WireFormats}.
Variable debug_str : list Z → list Z.
Variable cbor_text : list Z.
Variable services : ProtocolServices.
Variables (request_id : Z) (request : ExecutionRequest).

Notation step := (session_step debug_str cbor_text services).
Notation run := (session_run debug_str cbor_text services).
Notation ok := (input_ok request_id request).

Lemma broker_frame_quiet (x : Execution) (frame : GuestResult (option ServerFrame)) (r : Replies) :
  quiet (broker_frame debug_str services x frame r).
Proof.
  unfold broker_frame, execution_ended. quiet_auto. apply within_modify. by intros s.
Qed.

Lemma finish_quietly (m : SM unit) (s : Session) : quietly s (m s).2 → quietly s (finish m s).
Proof.
  intros (Q1 & Q2 & Q3 & Q4). destruct (finish_fields (m := m) s) as (F1 & F2 & F3 & F4).
  split_and!; [congruence..|]. intros H. rewrite (F4 H) in H |- *. by apply Q4.
Qed.

(** While no launch is permitted, a message between executions is quiet. *)
Lemma serving_step_ok (events : list SessionEvent) (s : Session) (message : Message) (r : Replies) :
  ok events s → ss_phase s = Serving →
  ok (events ++ [HostSays message r])
    (finish (serve_message debug_str cbor_text services message r) s).
Proof.
  intros Hok Hs. set (m := serve_message debug_str cbor_text services message r).
  assert (frames_written (m s).2 = frames_written s ∧ past_ready (ss_machine (m s).2) = true ∧
    is_executing (ss_phase (m s).2) = false) as (H1 & H2 & H3).
  { assert (quietly s (m s).2 → frames_written (m s).2 = frames_written s ∧
      past_ready (ss_machine (m s).2) = true ∧ is_executing (ss_phase (m s).2) = false) as Hq.
    { intros (_ & Q2 & Q3 & Q4). split_and!; [done|by rewrite Q3; apply Hok|].
      destruct (is_executing (ss_phase (m s).2)) eqn:E; [|done]. rewrite (Q4 eq_refl), Hs in E. done. }
    destruct (serve_message_result debug_str cbor_text services s message r Hs)
      as [Q|(id & operation & payload & mode & -> & _ & [Q|(F & P & X)])]; [by apply Hq..|].
    split_and!; [done..|]. destruct (is_executing (ss_phase (m s).2)) eqn:E; [|done].
    destruct X as [[_ X]|(x & _ & (_ & Hready & _) & _)].
    - unfold m in E. by rewrite (X E), Hs in E.
    - destruct Hok as (Hpast & _). by rewrite Hready in Hpast. }
  destruct (finish_fields (m := m) s) as (F1 & F2 & F3 & F4). destruct Hok as (_ & Hprefix & _).
  unfold input_ok. rewrite F2, F3, H1, host_input_app. split_and!; [done|by apply prefix_app_r|].
  destruct (ss_phase (finish m s)) as [|x|] eqn:E; [done| |done]. specialize (F4 eq_refl).
  by rewrite <-F4 in H3.
Qed.

(** A message while the agent runs. *)
Lemma execution_step_ok (events : list SessionEvent) (s : Session) (x : Execution) (message : Message)
    (r : Replies) :
  ok events s → ss_phase s = Executing x →
  ok (events ++ [HostSays message r]) (finish (execution_message x message r) s).
Proof.
  intros Hok Hx. pose proof Hok as (Hpast & Hprefix & H). rewrite Hx in H.
  destruct H as (Hrid & Hreq & Hmode & Hlanes & Heq).
  assert (∀ text, host_input request_id [HostSays message r] = [] →
    ok (events ++ [HostSays message r]) (finish (send r (MProtocolError CodeInvalidState text)) s)) as Hsend.
  { intros text He. eapply input_ok_quietly; [done| |done]. apply finish_quietly, quiet_send. }
  assert (∀ frame, commands_of (er_correlation_id request) [frame] = [] →
    host_input request_id [HostSays message r] = [] →
    ok (events ++ [HostSays message r]) (finish (control x frame) s)) as Hcontrol.
  { intros frame Hf He. unfold control. destruct (send_control (xn_lanes x) frame) as [lanes|] eqn:E.
    - destruct (send_control_ok _ _ _ _ _ Hlanes Hf E) as (L1 & L2 & L3).
      unfold input_ok. cbn -[frames_written]. rewrite host_input_app, He, app_nil_r.
      split_and!; try done. rewrite L2, L3. done.
    - by eapply input_ok_quietly. }
  destruct (frame_commands (er_correlation_id request) [] 0 0) as (_ & _ & _ & C4 & C5).
  unfold execution_message. rewrite Hreq. destruct message as [| | | | |stream_id kind payload|rid reason|code reason|];
    try (by apply Hsend); [|destruct (rid =? xn_request_id x); [by apply Hcontrol|by apply Hsend]|by apply Hcontrol].
  destruct (is_terminal_input kind) eqn:Ek.
  2: { apply Hsend. unfold host_input. cbn [mbind list_bind]. destruct (_ =? _); [|done]. by destruct kind. }
  destruct (forward_terminal_event stream_id kind payload x) as [x'|detail] eqn:Ef.
  - rewrite <-Hreq in Hlanes, Heq.
    destruct (forward_terminal_event_ok _ _ _ _ _ r Hlanes Hmode Ef) as (X1 & X2 & X3 & X4 & X5 & X6).
    rewrite Hrid in X6. unfold input_ok. cbn -[frames_written]. rewrite host_input_app.
    split_and!; [done|by apply prefix_app_r|congruence..| |].
    + by rewrite <-Hreq.
    + intros _. change (frames_written (set_phase s (Executing x'))) with (frames_written s).
      by rewrite <-Hreq, X6, app_assoc, Heq.
  - eapply input_ok_quietly; [done| |].
    + apply finish_quietly. generalize s. change (quiet (send r (MProtocolError CodeInvalidState detail);;
        raise (Err (Protocol (str "invalid terminal event during execution")) : GuestResult unit))).
      quiet_auto.
    + unfold finish, mbind, SM_bind. destruct (send r _ s) as [[[]|e] s1]; done.
Qed.

(** A turn of the writer task. *)
Lemma writer_step_ok (events : list SessionEvent) (s : Session) (x : Execution) (written : bool) :
  ok events s → ss_phase s = Executing x →
  ok (events ++ [WriterTurn written]) (writer_turn written x s).
Proof.
  intros Hok Hx. pose proof Hok as (Hpast & Hprefix & H). rewrite Hx in H.
  destruct H as (Hrid & Hreq & Hmode & Hlanes & Heq).
  unfold writer_turn. destruct (writer_next (xn_lanes x)) as [[frame lanes]|] eqn:E.
  2: { by eapply input_ok_quietly. }
  destruct (writer_next_ok _ _ _ _ _ Hlanes E) as (L1 & L2 & L3 & L4).
  specialize (Heq L2). rewrite L4 in Heq.
  unfold input_ok. rewrite host_input_app, app_nil_r. destruct frame as [frame|]; [destruct written|].
  - assert (frames_written (add_effect (set_phase s (Executing (set_lanes x lanes))) (Written frame)) =
      frames_written s ++ [frame]) as Hf.
    { unfold frames_written. cbn. by rewrite omap_app. }
    rewrite Hf, commands_of_app. cbn -[frames_written]. rewrite app_assoc in Heq.
    split_and!; try done. rewrite <-Heq. by apply prefix_app_r.
  - cbn -[frames_written]. split_and!; try done. by split; cbn; try constructor.
  - cbn -[frames_written]. split_and!; try done.
Qed.

Lemma input_step_ok (events : list SessionEvent) (s : Session) (event : SessionEvent) :
  ok events s → ok (events ++ [event]) (step s event).
Proof.
  intros Hok. pose proof Hok as (Hpast & _).
  assert (∀ machine, past_ready machine = true → host_input request_id [event] = [] →
    ok (events ++ [event]) (set_machine s machine)) as Hmachine.
  { intros machine Hm He. destruct Hok as (H1 & H2 & H3). unfold input_ok.
    cbn -[frames_written host_input]. rewrite host_input_app, He, app_nil_r. by split_and!. }
  unfold session_step. destruct event as [message r|error|frame r|written|next| |].
  - destruct (ss_phase s) as [|x|] eqn:Ep; [by apply serving_step_ok|by apply execution_step_ok|].
    eapply input_ok_quietly; [done..|]. by rewrite Ep.
  - destruct (ss_phase s) eqn:Ep; by eapply input_ok_quietly.
  - destruct (ss_phase s) eqn:Ep; try (by eapply input_ok_quietly).
    eapply input_ok_quietly; [done| |done]. apply finish_quietly, broker_frame_quiet.
  - destruct (ss_phase s) eqn:Ep; try (by eapply input_ok_quietly). by apply writer_step_ok.
  - pose proof (past_ready_transition (ss_machine s) next Hpast) as Hnext.
    assert (ok (events ++ [OtherTransition next])
      match machine_transition (ss_machine s) next with Ok m => set_machine s m | Err _ => s end) as H.
    { destruct (machine_transition _ _); [by apply Hmachine|by eapply input_ok_quietly]. }
    by destruct (ss_phase s).
  - assert (ok (events ++ [OtherFailure]) (set_machine s (machine_fail (ss_machine s)))) as H.
    { apply Hmachine; [by apply past_ready_fail|done]. }
    by destruct (ss_phase s).
  - assert (ok (events ++ [GateRevoked]) (set_gate s (revoke (ss_gate s)))) as H.
    { by eapply input_ok_quietly. }
    by destruct (ss_phase s).
Qed.

(** C19: From the launch of a flow-controlled terminal on, whatever else happens: what the command reads
    from its terminal is what the host sent, in order and without gaps, and nothing after its end;
    and while the execution and the writer task run, all that the host sent is written to the
    broker or is in the lanes. *)
Theorem terminal_input_arrives (s : Session) (events : list SessionEvent)
    (broker_events : list TerminalEvent) :
  ss_phase s = Executing (new_execution request_id request InteractiveV2) →
  uses_flow_control (er_stdin request) = true →
  past_ready (ss_machine s) = true → frames_written s = [] →
  let s' := run s events in
  (read_frames broker_events `prefix_of` frames_written s' →
   stream_of (terminal_run request broker_events).2 `prefix_of` host_input request_id events) ∧
  (∀ x, ss_phase s' = Executing x → ln_open (xn_lanes x) = true →
   commands_of (er_correlation_id request) (frames_written s' ++ lane_frames (xn_lanes x)) =
   host_input request_id events).
Proof.
  intros Hx Hflow Hpast Hw. cbv zeta.
  assert (ok events (run s events)) as (_ & Hprefix & Hphase).
  { induction events as [|event events IH] using rev_ind.
    - unfold input_ok. cbn -[frames_written]. rewrite Hx, Hw. split_and!; try done.
      split; cbn; try done; [constructor..|by left].
    - unfold session_run. rewrite foldl_app. by apply input_step_ok. }
  split.
  - intros Hread.
    assert (is_terminal (er_stdin request) = true) as Ht.
    { by destruct (er_stdin request). }
    destruct (terminal_run_ok request broker_events Ht) as (q & _ & _ & _ & H).
    destruct (H Hflow) as [H' _]. rewrite client_commands_read in H'.
    etrans; [|exact Hprefix]. etrans; [by eapply prefix_app_l|].
    destruct Hread as [rest ->]. rewrite commands_of_app. by apply prefix_app_r.
  - intros x Hex Hopen. rewrite Hex in Hphase. destruct Hphase as (_ & _ & _ & _ & Heq).
    rewrite commands_of_app. by apply Heq.
Qed.

End TerminalInput.

(** ** Answers and reports *)

Section Answers.
Context {unicode : NfcApi} {cbor : CborApi} {kdf : KdfApi} {aead : AeadApi} {sha : Sha256Api}.
Context {b64 : Base64Api} {wire : WireFormats}.
Variable debug_str : list Z → list Z.
Variable cbor_text : list Z.
Variable services : ProtocolServices.

Notation step := (session_step debug_str cbor_text services).
Notation run := (session_run debug_str cbor_text services).

(** An execution is answered with its result, and only for the last event of the broker.  With safe
    outputs the answer comes after they are sealed, which needs a complete cleanup. *)
Theorem answered_after_sealing (s : Session) (x : Execution) (frame : GuestResult (option ServerFrame))
    (r : Replies) :
  ss_phase s = Executing x → ss_phase (step s (BrokerSays frame r)) = Serving →
  ∃ id result payload,
    frame = Ok (Some (EventFrame (Terminal id result))) ∧
    to_vec (terminal_result debug_str result) = Ok payload ∧
    (ps_safe_outputs services = true →
     cleanup_is_complete (xr_cleanup result) = true ∧ rp_seal r = Ok tt) ∧
    ss_effects (step s (BrokerSays frame r)) =
      ss_effects s ++ (if ps_safe_outputs services then [SealedOutputs] else []) ++
      [Sent (MResponse (xn_request_id x) StatusOk payload)] ∧
    fl_terminal_response_sent (ss_flags (step s (BrokerSays frame r))) = true.
Proof.
  intros Hx. unfold session_step. rewrite Hx.
  destruct frame as [[[event|message]|]|e]; try done.
  assert (∀ m : SM unit, (∀ s, ss_phase (m s).2 = ss_phase s) → ss_phase (finish m s) = Serving → False)
    as Hm.
  { intros m Hm. unfold finish. specialize (Hm s). destruct (m s) as [[[]|e] s1]; [|done].
    cbn in Hm. by rewrite Hm, Hx. }
  destruct event as [| |id credits|id result].
  - by intros H%Hm.
  - intros []%Hm. intros s1. unfold broker_frame, send, mbind, SM_bind, raise, modify.
    by destruct (rp_send r).
  - intros []%Hm. intros s1.
    unfold broker_frame, encode, send, mbind, SM_bind, raise, modify. cbv beta iota.
    destruct (negb _); [done|]. destruct (new_credit credits) as [credit|]; [|done]. cbn [map_err].
    destruct (to_vec credit); [|done]. cbn [map_err]. by destruct (rp_send r).
  - unfold broker_frame, execution_ended, encode, send, mbind, SM_bind, raise, modify, finish.
    cbv beta iota. destruct (ps_safe_outputs services).
    + destruct (tr_cleanup_complete (terminal_result debug_str result)) eqn:Ec; [|done]. cbn [negb].
      destruct (rp_seal r) as [[]|] eqn:Es; [|done].
      destruct (to_vec (terminal_result debug_str result)) as [payload|] eqn:Ev; [|done]. cbn [map_err].
      destruct (rp_send r) as [[]|]; [|done]. intros _. exists id, result, payload.
      split_and!; try done. cbn. by rewrite <-app_assoc.
    + destruct (to_vec (terminal_result debug_str result)) as [payload|] eqn:Ev; [|done].
      cbn [map_err mret SM_ret]. unfold mret, SM_ret.
      destruct (rp_send r) as [[]|]; [|done]. intros _. exists id, result, payload. by split_and!.
Qed.

(** A package report that was given is refused to the second request and given again to the third:
    the flag that it was served is the status of the last answer. *)
Lemma package_report_is_given_again (s : Session) (request_id : Z)
    (payload report : list Z) (r : Replies) :
  ss_phase s = Serving → fl_terminal_response_sent (ss_flags s) = true →
  fl_package_report_served (ss_flags s) = false → rp_send r = Ok tt →
  handle_package_report_request (rp_read_file r) request_id payload (ps_package_report services) true false
    = MResponse request_id StatusOk report →
  let request := HostSays (MRequest request_id PACKAGE_REPORT_OPERATION payload) r in
  ss_effects (run s [request; request; request]) =
    ss_effects s ++
    [Sent (MResponse request_id StatusOk report);
     Sent (reject request_id "package-report-already-served");
     Sent (MResponse request_id StatusOk report)].
Proof.
  intros Hs Ht Hp Hr Hh. cbv zeta.
  assert (∀ s served, ss_phase s = Serving → fl_terminal_response_sent (ss_flags s) = true →
    fl_package_report_served (ss_flags s) = served →
    let response := handle_package_report_request (rp_read_file r) request_id payload
                      (ps_package_report services) true served in
    let s' := step s (HostSays (MRequest request_id PACKAGE_REPORT_OPERATION payload) r) in
    ss_effects s' = ss_effects s ++ [Sent response] ∧ ss_phase s' = Serving ∧
    fl_terminal_response_sent (ss_flags s') = true ∧
    fl_package_report_served (ss_flags s') = is_ok_response response) as Hstep.
  { clear s Hs Ht Hp. intros s served Hs Ht Hp. cbv zeta. unfold session_step. rewrite Hs.
    change (serve_message debug_str cbor_text services
      (MRequest request_id PACKAGE_REPORT_OPERATION payload) r)
      with (serve_package_report services request_id payload r).
    unfold finish, serve_package_report, send, get, modify, raise, mbind, SM_bind.
    rewrite Hr, Ht, Hp. cbn -[handle_package_report_request is_ok_response]. by rewrite Hs. }
  destruct (Hstep s false Hs Ht Hp) as (E1 & P1 & T1 & F1). rewrite Hh in E1, F1.
  destruct (Hstep _ true P1 T1 F1) as (E2 & P2 & T2 & F2).
  destruct (Hstep _ false P2 T2 F2) as (E3 & P3 & T3 & F3). rewrite Hh in E3.
  unfold session_run. cbn [foldl]. rewrite E3, E2, E1, <-!app_assoc. done.
Qed.

End Answers.

(** ** A sample *)

Module GuestSessionSample.
Import HandshakeSample Sample DigestSample Rfc4648 EnvelopeSample.

(** A format with one value. *)
Definition fixed {A : Type} (x : A) : Serde A := {| to_vec _ := Ok [1]; from_slice _ := Ok x |}.

(** A format of what is only written. *)
Definition written_only (A : Type) : Serde A := {| to_vec _ := Ok [1]; from_slice _ := Err [] |}.

Definition launch : LaunchRequest :=
  {| lr_schema_version := 2; lr_boundary_plan_digest := replicate 32 4; lr_program := str "/bin/sh";
     lr_arguments := []; lr_working_directory := str "/workspace"; lr_environment := [];
     lr_secrets := []; lr_timeout_ms := 1000 |}.

#[global] Instance formats : WireFormats := {|
  wire_json := fixed JNull;
  wire_readiness := written_only _;
  wire_launch := fixed launch;
  wire_interactive := written_only _;
  wire_interactive_v2 :=
    fixed {| il2_schema_version := 2; il2_launch := launch;
             il2_terminal := {| ts_columns := 80; ts_rows := 24 |}; il2_term := str "xterm";
             il2_separate_stderr := false |};
  wire_result := written_only _;
  wire_health := written_only _;
  wire_credit := written_only _;
  wire_size := fixed {| ts_columns := 90; ts_rows := 30 |};
  wire_network_request := written_only _;
  wire_network_chunk := written_only _;
  wire_report_request := fixed {| prq_schema_version := 1; prq_maximum_bytes := 10 |};
  wire_report_response := written_only _;
  wire_collect_request := written_only _;
  wire_collection := written_only _;
|}.

Definition services : ProtocolServices :=
  {| ps_readiness := {| rd_session_id := replicate 16 5; rd_state := Ready; rd_release_sequence := 1;
                        rd_controls := []; rd_services := []; rd_audit_events := [] |};
     ps_broker := Some {| bc_session_id := replicate 16 5; bc_authentication := replicate 32 6;
                          bc_socket_path := str "/run/b"; bc_workload := {| eu_uid := 7; eu_gid := 7 |} |};
     ps_package_report := Some {| src_path := str "/r"; src_expected_uid := 0; src_expected_gid := 0;
                                  src_maximum_bytes := 10 |};
     ps_network_reports := [];
     ps_secret_decryptor := {| gd_session_id := replicate 16 5;
                               gd_boundary_plan_digest := replicate 32 4; gd_cipher := cipher |};
     ps_safe_outputs := true; ps_syscall_tracing := false |}.

Definition replies : Replies :=
  {| rp_live _ := true; rp_safe_outputs_live := true; rp_write_state := Ok tt; rp_unix_time_ms := Ok 1;
     rp_register _ := Ok tt; rp_connect := Ok tt; rp_execute_frame := Ok tt;
     rp_read_file _ _ := Ok (str "{}"); rp_trace_report := Ok []; rp_seal := Ok tt;
     rp_collect := Ok ([], [1]); rp_send := Ok tt |}.

Notation run := (session_run (λ s, s) [] services).
Notation step := (session_step (λ s, s) [] services).

Definition start : Session := new_session Ready {| rg_ready := true; rg_mandatory_groups := ∅ |}.
Definition ask (id : Z) (operation : list Z) : SessionEvent :=
  HostSays (MRequest id operation [1]) replies.
Definition running : Session := run start [ask 7 INTERACTIVE_LAUNCH_OPERATION_V2].
Definition request : ExecutionRequest :=
  match executions running with
  | [request] => request
  | _ => ExecSample.request "none" []
  end.
Definition execution : Execution := new_execution 7 request InteractiveV2.

(** A command runs; a launch while it runs and one after it are not carried out. *)
Definition done_event : SessionEvent :=
  BrokerSays (Ok (Some (EventFrame (Terminal (str "agent-launch")
    {| xr_terminal := Exited (Some 0) None;
       xr_cleanup := from_attempts [CgroupKill; PidfdReap; ObserveUnpopulated; RemoveLeaf] [] |}))))
    replies.

Example one_execution :
  er_argv <$> executions (run running [ask 8 AGENT_LAUNCH_OPERATION; done_event;
                                       ask 9 AGENT_LAUNCH_OPERATION]) = [[str "/bin/sh"]].
Proof. vm_compute. reflexivity. Qed.

Definition typed : list SessionEvent :=
  [HostSays (MEvent 7 ProtoTypes.StandardInput (str "ls")) replies; WriterTurn true;
   HostSays (MEvent 7 StandardInputEof []) replies; WriterTurn true; WriterTurn true].

Definition at_broker : list TerminalEvent :=
  [OnFrame (Some (FrameInput (str "agent-launch") (str "ls"))); OnPoll;
   OnFrame (Some (FrameInputEof (str "agent-launch"))); OnPoll].

Lemma terminal_input_arrives_witness :
  (terminal_run request at_broker).2 = [Input (str "ls"); InputEof] ∧
  stream_of (terminal_run request at_broker).2 `prefix_of` host_input 7 typed.
Proof.
  split; [vm_compute; reflexivity|].
  refine (proj1 (terminal_input_arrives (λ s, s) [] services 7 request running typed at_broker
    _ _ _ _) _); try (vm_compute; reflexivity).
  exists []. vm_compute. reflexivity.
Defined.

Lemma answered_after_sealing_witness :
  ss_phase (step running done_event) = Serving ∧
  fl_terminal_response_sent (ss_flags (step running done_event)) = true.
Proof.
  assert (ss_phase (step running done_event) = Serving) as H by (vm_compute; reflexivity).
  split; [exact H|].
  destruct (answered_after_sealing (λ s, s) [] services running execution _ replies
    ltac:(vm_compute; reflexivity) H) as (_ & _ & _ & _ & _ & _ & _ & Hf).
  exact Hf.
Defined.

(** The third request for the package report is answered like the first. *)
Example third_report :
  let answers := omap (λ effect, match effect with Sent (MResponse 9 status _) => Some status | _ => None end)
    (ss_effects (run running [done_event; ask 9 PACKAGE_REPORT_OPERATION;
                              ask 9 PACKAGE_REPORT_OPERATION; ask 9 PACKAGE_REPORT_OPERATION])) in
  answers = [StatusOk; StatusRejected; StatusOk].
Proof. vm_compute. reflexivity. Qed.

End GuestSessionSample.
