(* ===== verification/SafeText.v ===== *)
(** * Text of safe outputs ([crates/sendbox-mcp/src/safe_outputs.rs])

    What an agent asks to publish is text of its own: credentials are masked, links to other
    hosts are replaced, lines that look like instructions are marked, mentions are broken and
    angle brackets are escaped.  The functions work on characters; [mask_complete] works on
    bytes ([Masking]), the normal form of Unicode and the URL parser are interfaces. *)

From S2P Require Import Prelude RustStr Net Masking Credential.

Definition BLOCKED_URL : list Z := str "[blocked-url]".
Definition NEUTRALIZED_PREFIX : list Z := str "[sendbox neutralized] ".

(** [unicode_normalization]: the form NFKC of a text *)
Class NfkcApi : Type := { nfkc : list Z → list Z }.

(** ** Links *)

Definition URL_SCHEMES : list (list Z) := str <$> ["https://"; "http://"; "javascript:"; "data:"].

(** [str::find] *)
Fixpoint find_sub (p s : list Z) : option nat :=
  if starts_with s p then Some 0%nat
  else match s with [] => None | _ :: s => S <$> find_sub p s end.

(** The first scheme of a text *)
Definition next_scheme (remaining : list Z) : option (nat * list Z) :=
  let lower := to_ascii_lowercase remaining in
  min_by (λ x y, (x.1 <=? y.1)%nat)
    (omap (λ scheme, (λ index, (index, scheme)) <$> find_sub scheme lower) URL_SCHEMES).

(** The characters that end a link *)
Definition ends_url (c : Z) : bool :=
  char_is_whitespace c || bool_decide (c ∈ [41; 93; 125; 62; ch_dquote; ch_quote]).

Definition url_end (candidate : list Z) : nat :=
  match candidate with
  | [] => 0
  | _ :: rest => default (length candidate) (S <$> position ends_url rest)
  end.

Section Links.
Context {urls : UrlApi}.

(** Whether a link may stay *)
Definition allowed_url (allowed_domains : gset (list Z)) (scheme raw : list Z) : bool :=
  (bool_decide (scheme = str "http://") || bool_decide (scheme = str "https://")) &&
  match to_ascii_lowercase <$> (url_parse (encode_chars raw) ≫= host_str) with
  | Some host =>
      existsb (λ domain, bool_decide (host = domain) || ends_with host ([ch_dot] ++ domain))
        (elements allowed_domains)
  | None => false
  end.

(** [filter_urls]: each round takes at least one character. *)
Fixpoint filter_urls_loop (fuel : nat) (allowed_domains : gset (list Z)) (remaining : list Z)
  : list Z :=
  match fuel with
  | O => []
  | S fuel =>
      match next_scheme remaining with
      | None => remaining
      | Some (index, scheme) =>
          let candidate := drop index remaining in
          let raw := take (url_end candidate) candidate in
          take index remaining ++
          (if allowed_url allowed_domains scheme raw then raw else BLOCKED_URL) ++
          filter_urls_loop fuel allowed_domains (drop (url_end candidate) candidate)
      end
  end.

Definition filter_urls (input : list Z) (allowed_domains : gset (list Z)) : list Z :=
  filter_urls_loop (S (length input)) allowed_domains input.

End Links.

(** ** Instructions *)

Definition HOSTILE : list (list Z) := str <$>
  ["ignore previous instruction"; "ignore all instruction"; "system prompt"; "developer message";
   "reveal your secret"; "execute this command"; "run this command"; "curl "; "wget "; "gh api";
   "rm -rf"; "<script"; "<iframe"].

Definition neutralize_line (line : list Z) : list Z :=
  if starts_with line NEUTRALIZED_PREFIX then line
  else if existsb (contains_sub (to_ascii_lowercase line)) HOSTILE
  then NEUTRALIZED_PREFIX ++ line else line.

(** [neutralize_instructions] *)
Definition neutralize_instructions (input : list Z) : list Z :=
  join_with ch_lf (neutralize_line <$> lines input).

(** ** Mentions *)

Definition login_char (c : Z) : bool := is_ascii_alphanumeric c || (c =? ch_hyphen).

(** The characters of a login at the front of a text, at most [n] of them *)
Fixpoint login_run (n : nat) (cs : list Z) : list Z :=
  match n, cs with
  | S n, c :: cs => if login_char c then c :: login_run n cs else []
  | _, _ => []
  end.

Definition MAX_LOGIN : nat := 100.
Definition ZERO_WIDTH_SPACE : Z := 8203.

(** [neutralize_mentions]: each round takes at least one character. *)
Fixpoint neutralize_mentions_loop (fuel : nat) (allowed_mentions : gset (list Z)) (cs : list Z)
  : list Z :=
  match fuel, cs with
  | S fuel, c :: rest =>
      if negb (c =? ch_at) then c :: neutralize_mentions_loop fuel allowed_mentions rest
      else
        let login := login_run MAX_LOGIN rest in
        if bool_decide (login = []) then ch_at :: neutralize_mentions_loop fuel allowed_mentions rest
        else
          (if bool_decide (login ∈ allowed_mentions) then [ch_at] else [ch_at; ZERO_WIDTH_SPACE]) ++
          login ++ neutralize_mentions_loop fuel allowed_mentions (drop (length login) rest)
  | _, _ => []
  end.

Definition neutralize_mentions (input : list Z) (allowed_mentions : gset (list Z)) : list Z :=
  neutralize_mentions_loop (length input) allowed_mentions input.

(** ** The whole *)

(** [str::replace] of one character *)
Definition replace_char (c : Z) (by_ cs : list Z) : list Z :=
  cs ≫= λ x, if x =? c then by_ else [x].

Definition escape (cs : list Z) : list Z :=
  replace_char 62 (str "&gt;") (replace_char 60 (str "&lt;") cs).

Section Sanitize.
Context {urls : UrlApi} {unicode : NfkcApi}.

(** [sanitize_text_with_masker]; the errors are texts. *)
Definition sanitize_text_with_masker (input : list Z) (max_chars : nat)
    (allowed_domains allowed_mentions : gset (list Z)) (masker : CredentialValues)
  : result (list Z) (list Z) :=
  let? literal_masked := ok_or (from_utf8 (mask_complete masker input)) (str "masked text is not UTF-8") in
  let? redacted := ok_or (from_utf8 (mask_complete masker (nfkc literal_masked)))
                     (str "masked text is not UTF-8") in
  let filtered_urls := filter_urls (chars redacted) allowed_domains in
  let mentions := neutralize_mentions (neutralize_instructions filtered_urls) allowed_mentions in
  Ok (encode_chars (take max_chars (escape mentions))).

(** [sanitize_text] *)
Definition sanitize_text (input : list Z) (max_chars : nat)
    (allowed_domains allowed_mentions : gset (list Z)) : result (list Z) (list Z) :=
  sanitize_text_with_masker input max_chars allowed_domains allowed_mentions CredentialValues_default.

End Sanitize.

(** ** What the steps may change

    [cut c input output]: the output is the input, but for pieces that are replaced by texts in
    which a credential neither begins nor ends, and for an end that may be missing. *)

Section Cut.
Variable c : list Z.

Record separator (text : list Z) : Prop := {
  sep_ends : ∃ x y l, (text = [x] ∨ text = x :: l ++ [y]) ∧ x ∉ c ∧ (text ≠ [x] → y ∉ c);
  sep_inside : ¬ occurs c text;
}.

Inductive cut : list Z → list Z → Prop :=
| cut_end (i : list Z) : cut i []
| cut_keep (x : Z) (i o : list Z) : cut i o → cut (x :: i) (x :: o)
| cut_replace (piece text i o : list Z) : separator text → cut i o → cut (piece ++ i) (text ++ o).

Lemma cut_app (l i o : list Z) : cut i o → cut (l ++ i) (l ++ o).
Proof. intros H. induction l; cbn [app]; [done|by constructor]. Qed.

Lemma cut_refl (l : list Z) : cut l l.
Proof. rewrite <-(app_nil_r l). apply cut_app. constructor. Qed.

Lemma cut_take (n : nat) (l : list Z) : cut l (take n l).
Proof.
  rewrite <-(take_drop n l) at 1. rewrite <-(app_nil_r (take n l)) at 2. apply cut_app. constructor.
Qed.

Lemma cut_prefix (i o t : list Z) :
  cut i o → (∀ x, x ∈ t → x ∈ c) → t `prefix_of` o → t `prefix_of` i.
Proof.
  intros H. revert t. induction H as [i|x i o H IH|piece text i o [(x & y & l & Ht & Hx & _) _] H IH];
    intros t Hin Hp.
  - apply prefix_nil_inv in Hp as ->. apply prefix_nil.
  - destruct t as [|z t]; [apply prefix_nil|]. apply prefix_cons_inv_1 in Hp as Hz.
    apply prefix_cons_inv_2 in Hp. subst z. apply prefix_cons, IH; [|done]. set_solver.
  - destruct t as [|z t]; [apply prefix_nil|]. exfalso. apply Hx, Hin.
    destruct Ht as [-> | ->]; apply prefix_cons_inv_1 in Hp as ->; set_solver.
Qed.

Lemma occurs_cons (x : Z) (l : list Z) : occurs c l → occurs c (x :: l).
Proof. intros (a & b & ->). by exists (x :: a), b. Qed.

Lemma occurs_app_r (l r : list Z) : occurs c r → occurs c (l ++ r).
Proof. intros (a & b & ->). exists (l ++ a), b. by rewrite <-app_assoc. Qed.

Lemma occurs_cons_inv (x : Z) (l : list Z) : occurs c (x :: l) → c `prefix_of` x :: l ∨ occurs c l.
Proof.
  intros ([|y a] & b & H); cbn in H; [left; by exists b|]. injection H as <- ->. right. by exists a, b.
Qed.

(** A credential that occurs in what follows a text is in the text, or after it, or over its end. *)
Lemma occurs_app_inv (l r : list Z) :
  occurs c (l ++ r) →
  occurs c l ∨ occurs c r ∨ ∃ s t, c = s ++ t ∧ s ≠ [] ∧ t ≠ [] ∧ s `suffix_of` l ∧ t `prefix_of` r.
Proof.
  intros (a & b & H). symmetry in H. apply app_eq_inv in H as [(k & Ha & Hr)|(k & Hl & Hr)].
  - right. left. exists k, b. done.
  - symmetry in Hr. apply app_eq_inv in Hr as [(k2 & Hc2 & Hr)|(k2 & Hk & Hr)].
    + left. exists a, k2. by rewrite Hl, Hc2.
    + destruct k2 as [|z k2]; [left; exists a, []; by rewrite Hl, Hk, !app_nil_r|].
      destruct k as [|z' k].
      { right. left. exists [], b. cbn in Hk |- *. by rewrite Hk. }
      right. right. exists (z' :: k), (z :: k2). split; [done|]. split; [done|]. split; [done|].
      split; [exists a; done|exists b; done].
Qed.

Lemma cut_safe (i o : list Z) : c ≠ [] → cut i o → occurs c o → occurs c i.
Proof.
  intros Hne H. induction H as [i|x i o H IH|piece text i o Hsep H IH]; intros Ho.
  - destruct Ho as (a & b & Ho). symmetry in Ho. apply app_eq_nil in Ho as [_ Ho].
    by apply app_eq_nil in Ho as [-> _].
  - apply occurs_cons_inv in Ho as [Hp|Ho]; [|by apply occurs_cons, IH].
    destruct (cut_prefix (x :: i) (x :: o) c) as [k Hk]; [by constructor|done|done|].
    exists [], k. done.
  - apply occurs_app_r. apply occurs_app_inv in Ho as [Ho|[Ho|(s & t & Hst & Hs & _ & Hsuf & _)]];
      [by apply (sep_inside _ Hsep) in Ho|by apply IH|exfalso].
    destruct (sep_ends _ Hsep) as (x & y & l & Ht & Hx & Hy).
    destruct s as [|z s _] using rev_ind; [done|]. destruct Hsuf as [k Hk].
    assert (z ∈ c) as Hz by (rewrite Hst; set_solver).
    destruct Ht as [-> | ->].
    + symmetry in Hk. rewrite app_assoc in Hk. change [x] with ([] ++ [x]) in Hk.
      apply app_inj_tail in Hk as [_ ->]. done.
    + change (x :: l ++ [y]) with ((x :: l) ++ [y]) in Hk, Hy. rewrite app_assoc in Hk.
      apply app_inj_tail in Hk as [_ ->]. apply Hy; [|done]. destruct l; done.
Qed.

End Cut.
